(* ===== verification/_CoqProject ===== *)
-Q . S2P
Prelude.v
Ring.v
StreamBuf.v
SpscRing.v
EventChannel.v
Store.v
DgramBuf.v
DgramTable.v
StreamCtx.v
WtState.v
Bridge.v
Alpn.v
Callback.v
Runs.v
World.v
BridgeSafe.v
StreamCb.v
PySide.v
System.v
Wake.v
WakeRefine.v
CallbackSpec.v
Teardown.v
WtProto.v
WtSession.v
WtPath.v
WtTx.v
WtBudget.v
WtRun.v
WtSpec.v
WtClose.v
WtSafe.v
WtCalls.v
WtCmd.v
WtEnd.v
WtTotal.v
WtAside.v
WtDrain.v
WtSystem.v
WtTeardown.v
StreamFlow.v
DgramFlow.v
FlowCalls.v
WtFlow.v
Litmus.v
LitmusRig.v
LitmusRace.v
LitmusKinds.v
LitmusRun.v
LitmusBarrier.v
