(* ===== verification/Prelude.v ===== *)
(** * aiopquic: the C bridge between picoquic and asyncio, verified

    aiopquic runs picoquic (a QUIC stack, a git submodule) on a network thread, the
    "worker", and a Python program on the asyncio thread.  The headers under
    src/src/aiopquic/_binding/c/ are the bridge between the two: they carry events
    and commands across rings, stream bytes through per-stream byte rings, datagrams
    through per-connection record rings, and keep every shared object alive by
    reference counts.  This library models those headers and proves them correct.

    ** The parts

    - Ring.v: the circular array every ring of the code is, against the list it holds.
    - StreamBuf.v (stream_buf.h): [stream_buf] is aiopquic_stream_buf_t, the byte ring
      of one direction of a stream, with its FNV-1a content hashes.
    - SpscRing.v, EventChannel.v (spsc_ring.h): [spsc_entry], [spsc_ring] and
      [spsc_overflow], then the channel they form: a push to the ring that spills to
      the overflow list, refilled by the consumer, with the payload heap.
    - DgramBuf.v (datagram_buf.h, first half): the ring of framed datagrams.
      DgramTable.v (second half): the open-addressing table from connections to rings
      and the references its entries hold.
    - StreamCtx.v (stream_ctx.h): [stream_ctx] is aiopquic_stream_ctx_t, the shared
      per-stream wrapper: lifetime, send path, pull, held reset, drain signal, and the
      process-wide accounting of queued bytes.
    - Store.v: reference-counted stores, shared by wrappers and datagram rings.
    - Bridge.v (callback.h, state and helpers): [bridge] is aiopquic_ctx_t and [world]
      everything a callback can touch; [M] is the state monad operations run in.
    - Alpn.v (callback.h): the ALPN list and the server's choice from it.
    - Callback.v (callback.h): aiopquic_stream_cb, one definition per picoquic event,
      aiopquic_run_deferred_resets, and aiopquic_loop_cb with one definition per TX
      event.
    - World.v, BridgeSafe.v, StreamCb.v, PySide.v: the world's invariant, and that the
      helpers, the worker's loop, the stream callback and the calls Python makes keep
      it.  System.v composes them: [sys_step] runs one call, [reach] the states runs get to.
    - CallbackSpec.v: what the callbacks do, call by call.
    - Wake.v, WakeRefine.v: the wake protocols under interleaving of single atomic
      steps, and the bridge's push and clear as runs of those steps.
    - Teardown.v (callback.h, _transport.pyx's order of calls): the end of a transport,
      from the undrained events to the last wrapper and datagram ring.
    - Runs.v: partial reasoning on runs of [M], what a call keeps of the world.
    - WtProto.v (h3wt_callback.h, its pure part): the WebTransport error codes and the
      choice of a subprotocol from the client's offer.
    - WtState.v, WtSession.v, WtPath.v, WtTx.v (h3wt_callback.h): the HTTP/3 and
      WebTransport half of the worker.  WtState.v: sessions, links, and the fields of
      h3zero's structs the code uses.  WtSession.v: their life, the events pushed for
      them, aiopquic_wt_cnx_cb, the retry of a refused CONNECT.  WtPath.v:
      aiopquic_wt_path_callback, one definition per event, and the server's callback.
      WtTx.v: aiopquic_wt_handle_tx, one definition per command, and the dispatch of a
      connection by ALPN; [wt_handler] is the [WtHandler] the packet loop runs with.
    - WtBudget.v, WtRun.v: runs of h3zero's callbacks, the commands and asyncio's
      reads, and an accounting of the events they send ([Budget]: what an event costs,
      what the state still allows).  WtSpec.v: two budgets and the theorems on
      sessions and links.  WtClose.v: when a client closes its connection.
    - WtSafe.v, WtCalls.v, WtCmd.v, WtEnd.v, WtTotal.v: the references that links and
      sessions hold join the invariant of World.v ([winv]), and every call of the
      WebTransport half keeps it.  [safe] is the triple they are proved in; WtSafe.v has
      the callbacks of a session, WtCalls.v the three callbacks h3zero is given, WtCmd.v
      the commands, WtEnd.v the two that end a session, WtTotal.v the theorems.  What
      h3zero's own calls may do is [h3_ok], [h3_cmd_ok] and [h3_boot_ok].
    - WtAside.v, WtDrain.v, WtSystem.v: the two halves together.  WtAside.v: raw calls leave
      sessions and links alone.  WtDrain.v: the worker's loop with [wt_handler].
      WtSystem.v: [wt_sys_step] runs one call of System.v or of the WebTransport half,
      [wt_op_ok] is its contract, [wt_reach] the states runs get to.
    - WtTeardown.v: Teardown.v for the two halves: the links that undrained events carry,
      and the calls that picoquic, h3zero, asyncio and Python make before the end.
    - StreamFlow.v, DgramFlow.v, FlowCalls.v, WtFlow.v: the bytes of a stream and the
      datagrams Python sends, end to end.  StreamFlow.v: a stream's two queues and the
      events that move bytes through them ([replay]), and what each operation on a wrapper
      is in those terms ([moves]).  DgramFlow.v: the same for the records of a datagram
      ring ([dgram_replay]).  FlowCalls.v: [flows], the triple for calls, and the raw
      half's.  WtFlow.v: WebTransport's, and runs.
    - Litmus.v (litmus.h): the lost-wake harness.  The two sides of a probe are resumable
      programs ([prog]) of the bridge's calls that a schedule interleaves; [Barrier] is the
      barrier, access by access.  LitmusRig.v: what each call does to the bench ([rig]).
      LitmusRace.v: rules for races, and what the setup leaves.  LitmusKinds.v: the seven
      probes, one by one.  LitmusRun.v: a whole run.  LitmusBarrier.v: the barrier.

    ** How the model stands to the code

    A [uintN_t] is a [Z] in range with its wrap written out ([u8] to [u64]).  A pointer
    is a non-zero [Z] and 0 is NULL.  Wrappers, datagram rings and payload blocks live
    in stores, so aliasing and use after free are visible: an operation returns [None]
    where the C code would touch a freed object, leave an array or dereference NULL.
    malloc may fail: its answers are the functions [ev_alloc], [ev_sc], [ev_buf] and
    [ev_ok] of the record [env], of which [env_ok] assumes only that a block handed out is
    fresh and large enough.  picoquic is not code of the repository: a call into it is
    an entry of the trace [w_trace], answered by [ev_pq], any function of the trace so
    far.  What picoquic calls back is a step of the system.  h3zero and picowt, parts of
    picoquic, also write structs the code reads: what a call does to them is [ev_h3] and
    [ev_capsule], and [ev_deregisters] the callbacks it makes before it returns.

    From Bridge.v up, a callback or a Python call is one step, except where the code
    itself can be overtaken between two of its loads: prepare_to_send takes the
    producer's operations in between ([race]), a datagram push the worker's ([during]).
    For the wake protocols that is too coarse, and Wake.v interleaves single atomic
    accesses, sequentially consistent but for the pops in [TxDrain], which the other
    thread may see late until the worker's fence.  The spin-free code needs no other
    weakening: every other access a protocol relies on is a read-modify-write or a
    release store read by an acquire load.

    ** What the theorems show

    - Safety of the whole: [bridge_memory_safe] for raw QUIC and [wt_bridge_memory_safe]
      with WebTransport (no undefined call in any run), [bridge_references_exact],
      [bridge_dgram_references_exact], [wt_references_exact] (a count is exactly the
      number of holders), [teardown_frees_everything] and [wt_teardown_frees_everything]
      (nothing leaks), [bridge_well_formed],
      [channel_memory_safe], [dgram_table_refcounts], [stream_ctx_lifetime].
    - The data path of the whole: [stream_bytes_in_order] (in any run, what picoquic is
      handed and what Python reads is what was sent and delivered, in order),
      [datagrams_in_order] (what is written for datagrams is the records the pushes took
      in, whole and ring by ring in order).
    - Termination: [worker_drains_tx_ring]; the walks of the table and of the lists are
      total because the theorems that run them conclude [Some].
    - Refinement: [channel_fifo], [stream_buf_refines_queue],
      [dgram_ring_refines_queue], [dgram_table_is_map] against queues and maps;
      [rx_push_runs], [clear_rx_runs] against the machine of Wake.v.
    - Wake-ups: [rx_no_lost_wake], [rx_event_announces_bytes], [tx_no_lost_wake], [tx_drain_no_lost_wake],
      [dgram_full_push_wakes], and the second half of [send_data_all_or_nothing].
      [litmus_reports_nothing]: the calls of the bridge themselves, composed as litmus.h
      composes them, lose no wake in any interleaving of the two sides of a round;
      [litmus_barrier_lockstep]: its rounds are kept apart and never deadlock.
    - What goes to the peer: [fin_with_the_last_byte], [credit_is_room],
      [datagram_whole_or_later], [reset_reliable_bound], [alpn_select_server_preference].
    - Errors: [no_stream_event_after_close], [dead_connection_untouched].
    - Accounting and data: [queued_bytes_exact], [stream_buf_conserves_bytes],
      [stream_buf_hashes_agree], [channel_bytes_pending], [alpn_list_is_names],
      [alpn_list_roundtrip].
    - WebTransport: [wt_callbacks_safe], [wt_commands_safe] (each call of the half is
      defined and keeps the invariant), [wt_session_closed_once], [wt_link_released_once] (over every run,
      whatever h3zero calls),
      [wt_create_stream_replies], [wt_gone_session_untouched], [wt_client_close_armed],
      [wt_code_roundtrip], [wt_protocol_client_preference].

    ** Bounds and fuel

    The theorems about runs hold while 64-bit positions stay under 2^63 and reference
    counts under 2^31 ([below]); rings themselves are proved across wrap-around of
    their positions.  A loop of the code is structural on the list it walks or takes
    fuel: a table probe takes the table's capacity, refill the overflow's depth, the
    worker's drain one round more than the entries queued, a loop of the harness
    [litmus_fuel], one more than the slots of its largest ring.  Running out is [None], so
    a theorem that concludes [Some] shows the fuel is enough.

    ** Not modelled

    The runs of System.v are those of raw QUIC, whose entries never reach the class
    [WtHandler], and their contracts speak of what Python holds only.  In the runs of
    WtSystem.v h3zero may change its own structs between calls as it likes, so a callback's
    contract also says that what h3zero hands to it is in memory, and a command's that its
    session is when the worker gets to it: when h3zero calls what is decided by code
    outside the repository.  The diagnostic printing of h3wt_callback.h is left out.  A race of the harness interleaves
    whole calls (their single accesses are interleaved in Wake.v), its random delays
    choose no more than the schedule, which is arbitrary here, and its rounds begin where
    the barrier, proved on its own, lets both threads go.

    The Cython and Python layers, tests, benchmarks and patches are outside the C bridge,
    but for the order in which a transport is torn down.  The reference an undrained
    STREAM_DESTROY event passes to Python counts as Python's, and the teardown theorems ask
    that Python has dropped all it holds: the code leaks it.
    Writes to stderr have no effect in the model, and closing the wake descriptor none
    either. *)
From stdpp Require Export base tactics option list list_numbers numbers gmap strings.
From Stdlib Require Export ZArith Ascii Lia.

Declare Scope aio_scope.
Delimit Scope aio_scope with aio.
#[global] Open Scope Z_scope.
#[global] Open Scope aio_scope.

(** ** Machine integers

    A [uintN_t] is a [Z] in range; every C operation that can leave the range
    is followed by the wrap the C standard prescribes. *)

Definition u8 (x : Z) : Z := x mod 2 ^ 8.
Definition u16 (x : Z) : Z := x mod 2 ^ 16.
Definition u32 (x : Z) : Z := x mod 2 ^ 32.
Definition u64 (x : Z) : Z := x mod 2 ^ 64.

(** Length of a list as an integer, the [size_t]/[uint32_t] the C code keeps
    next to a pointer. *)
Abbreviation zlen l := (Z.of_nat (length l)).

(** The idiom [h && *h && *h != '0'] on a [getenv] result. *)
Definition env_flag (h : option string) : bool :=
  match h with
  | Some (String c _) => negb (Ascii.eqb c "0"%char)
  | _ => false
  end.

(** [1] or [0], the value of a C condition. *)
Definition c_bool (b : bool) : Z := if b then 1 else 0.

(** Ordering of the C comparisons used in conditionals. *)
Notation "x >=? y" := (Z.geb x y) : aio_scope.
Notation "x >? y" := (Z.gtb x y) : aio_scope.

Create HintDb aio.

(** Case analysis on the conditionals of the executable definitions. *)
Ltac case_bool :=
  match goal with
  | |- context [Z.eqb ?a ?b] => destruct (Z.eqb_spec a b)
  | |- context [Z.ltb ?a ?b] => destruct (Z.ltb_spec a b)
  | |- context [Z.leb ?a ?b] => destruct (Z.leb_spec a b)
  | |- context [Z.geb ?a ?b] => rewrite (Z.geb_leb a b); destruct (Z.leb_spec b a)
  | |- context [Z.gtb ?a ?b] => rewrite (Z.gtb_ltb a b); destruct (Z.ltb_spec b a)
  end.

Ltac case_bool_in H :=
  match type of H with
  | context [Z.eqb ?a ?b] => destruct (Z.eqb_spec a b)
  | context [Z.ltb ?a ?b] => destruct (Z.ltb_spec a b)
  | context [Z.leb ?a ?b] => destruct (Z.leb_spec a b)
  | context [Z.geb ?a ?b] => rewrite (Z.geb_leb a b) in H; destruct (Z.leb_spec b a)
  | context [Z.gtb ?a ?b] => rewrite (Z.gtb_ltb a b) in H; destruct (Z.ltb_spec b a)
  end.

(** Linear arithmetic with [div]/[mod] translated to their defining equations. *)
Ltac dlia := Z.div_mod_to_equations; lia.

Lemma u32_small x : 0 <= x < 2 ^ 32 -> u32 x = x.
Proof. intros; unfold u32; apply Z.mod_small; lia. Qed.

Lemma u64_small x : 0 <= x < 2 ^ 64 -> u64 x = x.
Proof. intros; unfold u64; apply Z.mod_small; lia. Qed.

Lemma u8_small x : 0 <= x < 2 ^ 8 -> u8 x = x.
Proof. intros; unfold u8; apply Z.mod_small; lia. Qed.

Lemma u32_range x : 0 <= u32 x < 2 ^ 32.
Proof. unfold u32; apply Z.mod_pos_bound; lia. Qed.

Lemma u64_range x : 0 <= u64 x < 2 ^ 64.
Proof. unfold u64; apply Z.mod_pos_bound; lia. Qed.

Lemma u64_add_l x y : u64 (u64 x + y) = u64 (x + y).
Proof. unfold u64. by rewrite Zplus_mod_idemp_l. Qed.

Lemma u64_add_l2 x y z : u64 (u64 x + y + z) = u64 (x + y + z).
Proof. by rewrite <- !Z.add_assoc, u64_add_l. Qed.

Lemma u64_add_r x y : u64 (x + u64 y) = u64 (x + y).
Proof. unfold u64. by rewrite Zplus_mod_idemp_r. Qed.

Lemma u64_sub_u64 x y : u64 (u64 x - u64 y) = u64 (x - y).
Proof. unfold u64. by rewrite <- Zminus_mod. Qed.

Lemma u32_u64 x : u32 (u64 x) = u32 x.
Proof.
  unfold u32, u64. apply Z.mod_mod_divide. by exists (2 ^ 32).
Qed.

(** Masking with [2^k - 1] is reduction modulo [2^k], also after the 64-bit
    wrap of a cursor. *)
Lemma land_mask x k : 0 <= k -> Z.land x (2 ^ k - 1) = x mod 2 ^ k.
Proof.
  intros Hk. rewrite <- Z.land_ones by lia. f_equal.
  rewrite Z.ones_equiv. lia.
Qed.

Lemma mod_pow2_mod x j k : 0 <= j <= k -> (x mod 2 ^ k) mod 2 ^ j = x mod 2 ^ j.
Proof.
  intros. apply Z.mod_mod_divide.
  exists (2 ^ (k - j)). rewrite <- Z.pow_add_r by lia. f_equal. lia.
Qed.

Lemma pow2_bounds k : 0 <= k <= 32 -> 0 < 2 ^ k <= 2 ^ 32.
Proof.
  intros. split; [apply Z.pow_pos_nonneg; lia|apply Z.pow_le_mono_r; lia].
Qed.

Lemma cursor_slot T k : 0 <= k <= 32 ->
  u32 (Z.land (u64 T) (2 ^ k - 1)) = T mod 2 ^ k.
Proof.
  intros. rewrite land_mask by lia. unfold u64. rewrite mod_pow2_mod by lia.
  apply u32_small. pose proof (Z.mod_pos_bound T (2 ^ k)).
  assert (0 < 2 ^ k) by (apply Z.pow_pos_nonneg; lia).
  assert (2 ^ k <= 2 ^ 32) by (apply Z.pow_le_mono_r; lia). lia.
Qed.

Lemma cursor_distance H n : 0 <= n < 2 ^ 32 ->
  u32 (u64 (u64 (H + n) - u64 H)) = n.
Proof.
  intros. rewrite u64_sub_u64. replace (H + n - H) with n by lia.
  rewrite u32_u64. by apply u32_small.
Qed.

#[export] Hint Resolve u32_range u64_range : aio.

(** A list read off position by position. *)
Lemma omap_seq {A} (f : nat -> option A) q : (∀ i x, q !! i = Some x -> f i = Some x) ->
  omap f (seq 0 (length q)) = q.
Proof.
  induction q as [|x q IH] using rev_ind; intros Hf; [done|].
  rewrite length_app, seq_app, omap_app, IH.
  - cbn. rewrite (Hf (length q) x); [done|]. by rewrite lookup_app_r, Nat.sub_diag.
  - intros i y E. apply Hf. by rewrite lookup_app_l by (by eapply lookup_lt_Some).
Qed.
