(* ===== verification/Ring.v ===== *)
(** * Circular arrays

    The array shared by the SPSC event ring (spsc_ring.h), the per-stream byte
    ring (stream_buf.h) and the datagram record ring (datagram_buf.h): a buffer
    of [cap] cells indexed by monotonic cursors reduced modulo [cap].  The
    generic relation [ring_rep buf cap H q] says that the live window that
    starts at cursor [H] holds the queue [q].  [memcpy_to] and [memcpy_from]
    are C's [memcpy] with an out-of-bounds access as [None]. *)
From S2P Require Import Prelude.

Section memcpy.
Context {A : Type}.

(** [memcpy (buf + off, src, n)]; [None] when it leaves the buffer. *)
Definition memcpy_to (buf : list A) (off : Z) (src : list A) : option (list A) :=
  if (0 <=? off) && (off + zlen src <=? zlen buf)
  then Some (list_inserts (Z.to_nat off) src buf) else None.

(** [memcpy (dst, buf + off, n)]: the bytes read; [None] out of bounds. *)
Definition memcpy_from (buf : list A) (off n : Z) : option (list A) :=
  if (0 <=? off) && (0 <=? n) && (off + n <=? zlen buf)
  then Some (take (Z.to_nat n) (drop (Z.to_nat off) buf)) else None.

(** The two copies of a wrapping write: [first = cap - off] bytes at [off],
    the rest at the start of the buffer. *)
Definition wrap_write (buf : list A) (cap off : Z) (src : list A)
  : option (list A) :=
  let n := zlen src in
  let first := cap - off in
  let first := if first >? n then n else first in
  buf1 ← memcpy_to buf off (take (Z.to_nat first) src);
  if first <? n then memcpy_to buf1 0 (drop (Z.to_nat first) src)
  else Some buf1.

(** The two copies of a wrapping read. *)
Definition wrap_read (buf : list A) (cap off n : Z) : option (list A) :=
  let first := cap - off in
  let first := if first >? n then n else first in
  out1 ← memcpy_from buf off first;
  if first <? n
  then out2 ← memcpy_from buf 0 (n - first); Some (out1 ++ out2)
  else Some out1.
End memcpy.

(** ** The representation relation *)

Record ring_rep {A} (buf : list A) (cap H : Z) (q : list A) : Prop := {
  rr_len : zlen buf = cap;
  rr_pos : 0 < cap;
  rr_start : 0 <= H;
  rr_fit : zlen q <= cap;
  rr_at : ∀ i x, q !! i = Some x ->
    buf !! Z.to_nat ((H + Z.of_nat i) mod cap) = Some x
}.

Section ring.
Context {A : Type}.
Implicit Types buf q src : list A.

Lemma ring_rep_empty buf H : 0 < zlen buf -> 0 <= H ->
  ring_rep buf (zlen buf) H [].
Proof. intros; split; cbn; try lia. done. Qed.

(** Two window positions share a cell only if they are the same position. *)
Lemma slot_inj cap H i j : 0 < cap -> 0 <= i < cap -> 0 <= j < cap ->
  (H + i) mod cap = (H + j) mod cap -> i = j.
Proof.
  intros Hc Hi Hj E.
  assert (D : (i - j) mod cap = 0).
  { replace (i - j) with (H + i - (H + j)) by lia.
    rewrite Zminus_mod, E, Z.sub_diag. apply Z.mod_0_l. lia. }
  apply Z.mod_divide in D as [c Hc']; [|lia].
  assert (c = 0) by nia. lia.
Qed.

Lemma slot_lt cap x : 0 < cap -> 0 <= x mod cap < cap.
Proof. intros. by apply Z.mod_pos_bound. Qed.

(** Writing one cell behind the window extends the queue by one. *)
Lemma ring_rep_snoc buf cap H q x :
  ring_rep buf cap H q -> zlen q < cap ->
  ring_rep (<[Z.to_nat ((H + zlen q) mod cap) := x]> buf) cap H (q ++ [x]).
Proof.
  intros [Hl Hp Hs Hf Ha] Hlt. split; try done.
  - by rewrite length_insert.
  - rewrite length_app; cbn; lia.
  - intros i y Hi. pose proof (slot_lt cap (H + zlen q) Hp).
    destruct (decide (i = length q)) as [->|Hne].
    + rewrite lookup_app_r, Nat.sub_diag in Hi by lia. cbn in Hi.
      rewrite list_lookup_insert_eq by lia. by simplify_eq.
    + assert (i < length q)%nat.
      { apply lookup_lt_Some in Hi. rewrite length_app in Hi. cbn in Hi. lia. }
      rewrite lookup_app_l in Hi by lia.
      rewrite list_lookup_insert_ne; [by apply Ha|].
      intros E. apply Z2Nat.inj in E; [|apply slot_lt; lia..].
      apply slot_inj in E; lia.
Qed.

(** Advancing the read cursor drops a prefix of the queue. *)
Lemma ring_rep_drop buf cap H q n :
  ring_rep buf cap H q -> 0 <= n <= zlen q ->
  ring_rep buf cap (H + n) (drop (Z.to_nat n) q).
Proof.
  intros [Hl Hp Hs Hf Ha] Hn. split; try lia.
  - rewrite length_drop. lia.
  - intros i x Hi. rewrite lookup_drop in Hi. apply Ha in Hi.
    rewrite <- Hi. do 3 f_equal. lia.
Qed.

(** The head cell is the first element of the queue. *)
Lemma ring_rep_head buf cap H x q :
  ring_rep buf cap H (x :: q) -> buf !! Z.to_nat (H mod cap) = Some x.
Proof. intros R. rewrite <- (rr_at _ _ _ _ R 0%nat x eq_refl). do 3 f_equal. lia. Qed.

(** Overwriting the head cell in place. *)
Lemma ring_rep_set_head buf cap H x y q :
  ring_rep buf cap H (x :: q) ->
  ring_rep (<[Z.to_nat (H mod cap) := y]> buf) cap H (y :: q).
Proof.
  intros [Hl Hp Hs Hf Ha]. pose proof (slot_lt cap H Hp).
  split; try done; [by rewrite length_insert|].
  intros [|i] z Hi; cbn in Hi.
  - rewrite Z.add_0_r, list_lookup_insert_eq by lia. done.
  - pose proof (lookup_lt_Some _ _ _ Hi) as Hlt. cbn in Hf.
    rewrite list_lookup_insert_ne; [by apply (Ha (S i))|].
    intros E. apply Z2Nat.inj in E; [|apply slot_lt; lia..].
    rewrite <- (Z.add_0_r H) in E at 1. apply slot_inj in E; lia.
Qed.

Lemma ring_rep_tail buf cap H x q :
  ring_rep buf cap H (x :: q) -> ring_rep buf cap (H + 1) q.
Proof. intros R. apply (ring_rep_drop _ _ _ _ 1 R). cbn. lia. Qed.

(** ** Wrapping writes and reads, cell by cell *)

Lemma memcpy_to_some buf off src :
  0 <= off -> off + zlen src <= zlen buf ->
  memcpy_to buf off src = Some (list_inserts (Z.to_nat off) src buf).
Proof.
  intros. unfold memcpy_to.
  by rewrite (proj2 (Z.leb_le 0 off)), (proj2 (Z.leb_le _ (zlen buf))) by lia.
Qed.

Lemma memcpy_from_some buf off n :
  0 <= off -> 0 <= n -> off + n <= zlen buf ->
  memcpy_from buf off n = Some (take (Z.to_nat n) (drop (Z.to_nat off) buf)).
Proof.
  intros. unfold memcpy_from.
  by rewrite (proj2 (Z.leb_le 0 off)), (proj2 (Z.leb_le 0 n)),
    (proj2 (Z.leb_le _ (zlen buf))) by lia.
Qed.

(** Cell [j] holds source byte [(j - off) mod cap] when the write covers it. *)
Lemma wrap_write_spec buf cap off src :
  zlen buf = cap -> 0 <= off < cap -> zlen src <= cap ->
  ∃ buf', wrap_write buf cap off src = Some buf' ∧ zlen buf' = cap ∧
    ∀ k, 0 <= k < cap ->
      buf' !! Z.to_nat ((off + k) mod cap) =
      if decide (k < zlen src) then src !! Z.to_nat k
      else buf !! Z.to_nat ((off + k) mod cap).
Proof.
  intros Hl Ho Hs. unfold wrap_write. rewrite Z.gtb_ltb.
  destruct (Z.ltb_spec (zlen src) (cap - off)).
  - (* one copy *)
    rewrite firstn_all2 by lia. rewrite memcpy_to_some by lia. cbn.
    rewrite Z.ltb_irrefl. eexists; split; [done|].
    split; [by rewrite length_inserts|]. intros k Hk. case_decide.
    + rewrite Z.mod_small by lia.
      rewrite list_lookup_inserts by lia. f_equal. lia.
    + destruct (decide (off + k < cap)) as [|Hge].
      * rewrite list_lookup_inserts_ge; [done|]. rewrite Z.mod_small by lia. lia.
      * rewrite list_lookup_inserts_lt; [done|].
        replace ((off + k) mod cap) with (off + k - cap); [lia|].
        apply Z.mod_unique with 1; lia.
  - (* the write wraps, or ends exactly at the end of the buffer *)
    rewrite memcpy_to_some by (rewrite ?length_take; lia). cbn.
    case_bool.
    + rewrite memcpy_to_some by (rewrite ?length_inserts, ?length_drop; lia).
      eexists; split; [done|]. split; [by rewrite !length_inserts|].
      intros k Hk. destruct (decide (off + k < cap)) as [Hlt|Hge].
      * rewrite (Z.mod_small (off + k)) by lia.
        rewrite list_lookup_inserts_ge by (rewrite length_drop; lia).
        rewrite list_lookup_inserts by (rewrite ?length_take; lia).
        rewrite lookup_take_lt by lia. case_decide; [f_equal; lia|lia].
      * assert (E : (off + k) mod cap = off + k - cap)
          by (symmetry; apply Z.mod_unique with 1; lia).
        rewrite E. case_decide.
        -- rewrite list_lookup_inserts by (rewrite ?length_drop, ?length_inserts; lia).
           rewrite lookup_drop. f_equal. lia.
        -- rewrite list_lookup_inserts_ge by (rewrite length_drop; lia).
           rewrite list_lookup_inserts_lt by lia. done.
    + eexists; split; [done|]. split; [by rewrite length_inserts|].
      intros k Hk. destruct (decide (off + k < cap)) as [Hlt|Hge].
      * rewrite (Z.mod_small (off + k)) by lia.
        rewrite list_lookup_inserts by (rewrite ?length_take; lia).
        rewrite lookup_take_lt by lia. case_decide; [f_equal; lia|lia].
      * assert (E : (off + k) mod cap = off + k - cap)
          by (symmetry; apply Z.mod_unique with 1; lia).
        rewrite E, list_lookup_inserts_lt by lia. case_decide; [lia|done].
Qed.

Lemma mod_shift cap a b : 0 < cap -> (a mod cap + b) mod cap = (a + b) mod cap.
Proof. intros. apply Zplus_mod_idemp_l. Qed.

(** A wrapping write behind the window appends to the queue. *)
Lemma ring_rep_write buf cap H q src :
  ring_rep buf cap H q -> zlen q + zlen src <= cap ->
  ∃ buf', wrap_write buf cap ((H + zlen q) mod cap) src = Some buf' ∧
    ring_rep buf' cap H (q ++ src).
Proof.
  intros [Hl Hp Hs Hf Ha] Hfit. pose proof (slot_lt cap (H + zlen q) Hp).
  destruct (wrap_write_spec buf cap ((H + zlen q) mod cap) src)
    as (buf' & E & Hl' & Hc); [lia..|].
  exists buf'. split; [done|]. split; try done.
  - rewrite length_app; lia.
  - intros i x Hi. destruct (decide (i < length q)%nat) as [Hlt|Hge].
    + rewrite lookup_app_l in Hi by lia. apply Ha in Hi.
      specialize (Hc (cap - zlen q + Z.of_nat i)).
      rewrite mod_shift in Hc by lia. case_decide as D; [lia|].
      replace (H + zlen q + (cap - zlen q + Z.of_nat i))
        with (H + Z.of_nat i + 1 * cap) in Hc by lia.
      rewrite Z_mod_plus_full in Hc. rewrite Hc by lia. done.
    + rewrite lookup_app_r in Hi by lia.
      pose proof (lookup_lt_Some _ _ _ Hi).
      specialize (Hc (Z.of_nat i - zlen q)).
      rewrite mod_shift in Hc by lia. case_decide as D; [|lia].
      replace (H + zlen q + (Z.of_nat i - zlen q))
        with (H + Z.of_nat i) in Hc by lia.
      rewrite Hc by lia. rewrite <- Hi. f_equal. lia.
Qed.

Lemma wrap_read_spec buf cap off n :
  zlen buf = cap -> 0 <= off < cap -> 0 <= n <= cap ->
  ∃ out, wrap_read buf cap off n = Some out ∧ zlen out = n ∧
    ∀ k, 0 <= k < n ->
      out !! Z.to_nat k = buf !! Z.to_nat ((off + k) mod cap).
Proof.
  intros Hl Ho Hn. unfold wrap_read. rewrite Z.gtb_ltb.
  destruct (Z.ltb_spec n (cap - off)).
  - rewrite (memcpy_from_some buf off) by lia. cbn. rewrite Z.ltb_irrefl.
    eexists; split; [done|]. split; [rewrite length_take, length_drop; lia|].
    intros k Hk. rewrite lookup_take_lt, lookup_drop by lia.
    rewrite Z.mod_small by lia. f_equal. lia.
  - rewrite (memcpy_from_some buf off) by lia. cbn.
    assert (Hwrap : ∀ k, cap - off <= k < n -> (off + k) mod cap = off + k - cap)
      by (intros; symmetry; apply Z.mod_unique with 1; lia).
    case_bool.
    + rewrite memcpy_from_some by lia. cbn. eexists; split; [done|].
      split; [rewrite length_app, !length_take, !length_drop; lia|].
      intros k Hk. destruct (decide (k < cap - off)) as [Hlt|Hge].
      * rewrite lookup_app_l by (rewrite length_take, ?length_drop; lia).
        rewrite lookup_take_lt, lookup_drop, Z.mod_small by lia. f_equal. lia.
      * rewrite lookup_app_r by (rewrite length_take, ?length_drop; lia).
        rewrite Hwrap, lookup_take_lt by (rewrite ?length_take, ?length_drop; lia).
        f_equal. rewrite length_take, ?length_drop. lia.
    + eexists; split; [done|].
      split; [rewrite length_take, ?length_drop; lia|].
      intros k Hk. rewrite lookup_take_lt, lookup_drop, Z.mod_small by lia.
      f_equal. lia.
Qed.

(** A wrapping read inside the window returns that part of the queue. *)
Lemma ring_rep_read buf cap H q k n :
  ring_rep buf cap H q -> 0 <= k -> 0 <= n -> k + n <= zlen q ->
  wrap_read buf cap ((H + k) mod cap) n
  = Some (take (Z.to_nat n) (drop (Z.to_nat k) q)).
Proof.
  intros [Hl Hp Hs Hf Ha] Hk Hn Hfit. pose proof (slot_lt cap (H + k) Hp).
  destruct (wrap_read_spec buf cap ((H + k) mod cap) n) as (out & -> & Hlo & Hc);
    [lia..|].
  f_equal. apply list_eq. intros i.
  destruct (decide (i < Z.to_nat n)%nat) as [Hlt|Hge].
  - rewrite lookup_take_lt, lookup_drop by lia.
    specialize (Hc (Z.of_nat i)). rewrite Nat2Z.id in Hc. rewrite Hc by lia.
    rewrite mod_shift by lia.
    destruct (lookup_lt_is_Some_2 q (Z.to_nat k + i)%nat) as [x Hx]; [lia|].
    rewrite Hx. apply Ha in Hx. rewrite <- Hx. do 3 f_equal. lia.
  - rewrite !lookup_ge_None_2; [done| |lia].
    rewrite length_take, length_drop. lia.
Qed.

Lemma ring_rep_length buf cap H q : ring_rep buf cap H q -> zlen buf = cap.
Proof. by intros []. Qed.
End ring.

#[export] Hint Resolve ring_rep_length : aio.
