(* ===== verification/StreamBuf.v ===== *)
(** * Per-stream byte ring (stream_buf.h)

    [stream_buf] is [aiopquic_stream_buf_t].  The two cursors are 64-bit
    counters that only grow and may wrap; [sb_rep sb H q] relates a ring to the
    queue of bytes [q] that starts at the unbounded cursor [H].  The
    specification is a bounded byte queue ([bq]); [sb_exec_refines] shows that
    every run of the ring from its creation answers exactly as the queue. *)
From S2P Require Import Prelude Ring.

(** ** Data and operations *)

Record stream_buf := StreamBuf {
  sb_buf : list Z;
  sb_capacity : Z;
  sb_mask : Z;
  sb_tail : Z;
  sb_head : Z;
  sb_fin_pending : Z;
  sb_hash_enabled : bool;
  sb_push_hash : Z;
  sb_pop_hash : Z
}.

Definition AIOPQUIC_FNV1A_INIT : Z := 0x811c9dc5.
Definition AIOPQUIC_FNV1A_PRIME : Z := 0x01000193.

(** One round of the loop: [h ^= p[i]; h *= PRIME] on [uint32_t]. *)
Definition fnv1a_byte (h b : Z) : Z := u32 (Z.lxor h b * AIOPQUIC_FNV1A_PRIME).

Definition aiopquic_fnv1a_step (h : Z) (p : list Z) : Z := fold_left fnv1a_byte p h.

(** [__builtin_clz] on a nonzero [uint32_t]. *)
Definition builtin_clz (n : Z) : Z := 31 - Z.log2 n.

Definition aiopquic_ceil_pow2_u32 (n : Z) : Z :=
  if n =? 0 then 1
  else if Z.land n (u32 (n - 1)) =? 0 then n
  else
    let bits := u32 (32 - builtin_clz n) in
    if bits >=? 32 then Z.shiftl 1 31 else u32 (Z.shiftl 1 bits).

(** [env]: the AIOPQUIC_TX_HASH variable; [ok]: whether [calloc] of the
    struct succeeds; [blk]: the block [malloc(capacity)] returns, with its
    indeterminate contents. *)
Definition aiopquic_stream_buf_create (env : option string) (ok : bool)
    (blk : option (list Z)) (capacity : Z) : option stream_buf :=
  let capacity := aiopquic_ceil_pow2_u32 capacity in
  if capacity =? 0 then None
  else if negb ok then None
  else
    match blk with
    | None => None
    | Some buf =>
        Some {| sb_buf := buf;
                sb_capacity := capacity;
                sb_mask := u32 (capacity - 1);
                sb_tail := 0; sb_head := 0; sb_fin_pending := 0;
                sb_hash_enabled := env_flag env;
                sb_push_hash := AIOPQUIC_FNV1A_INIT;
                sb_pop_hash := AIOPQUIC_FNV1A_INIT |}
    end.

(** Number of bytes accepted and the new ring; [None] is an out-of-bounds
    copy. *)
Definition aiopquic_stream_buf_push (sb : stream_buf) (data : list Z)
    : option (Z * stream_buf) :=
  let tail := sb_tail sb in
  let head := sb_head sb in
  let len := zlen data in
  let free_bytes := u32 (sb_capacity sb - u32 (u64 (tail - head))) in
  if free_bytes =? 0 then Some (0, sb)
  else
    let to_write := if len <? free_bytes then len else free_bytes in
    let off := u32 (Z.land tail (sb_mask sb)) in
    let written := take (Z.to_nat to_write) data in
    buf ← wrap_write (sb_buf sb) (sb_capacity sb) off written;
    Some (to_write,
      {| sb_buf := buf;
         sb_capacity := sb_capacity sb;
         sb_mask := sb_mask sb;
         sb_tail := u64 (tail + to_write);
         sb_head := sb_head sb;
         sb_fin_pending := sb_fin_pending sb;
         sb_hash_enabled := sb_hash_enabled sb;
         sb_push_hash :=
           if sb_hash_enabled sb
           then aiopquic_fnv1a_step (sb_push_hash sb) written
           else sb_push_hash sb;
         sb_pop_hash := sb_pop_hash sb |}).

(** The bytes copied to [out] (their number is the C return value) and the
    new ring. *)
Definition aiopquic_stream_buf_pop (sb : stream_buf) (max_bytes : Z)
    : option (list Z * stream_buf) :=
  let head := sb_head sb in
  let tail := sb_tail sb in
  let available := u32 (u64 (tail - head)) in
  if available =? 0 then Some ([], sb)
  else
    let to_read := if max_bytes <? available then max_bytes else available in
    let off := u32 (Z.land head (sb_mask sb)) in
    out ← wrap_read (sb_buf sb) (sb_capacity sb) off to_read;
    Some (out,
      {| sb_buf := sb_buf sb;
         sb_capacity := sb_capacity sb;
         sb_mask := sb_mask sb;
         sb_tail := sb_tail sb;
         sb_head := u64 (head + to_read);
         sb_fin_pending := sb_fin_pending sb;
         sb_hash_enabled := sb_hash_enabled sb;
         sb_push_hash := sb_push_hash sb;
         sb_pop_hash :=
           if sb_hash_enabled sb
           then aiopquic_fnv1a_step (sb_pop_hash sb) out
           else sb_pop_hash sb |}).

Definition aiopquic_stream_buf_used (sb : stream_buf) : Z :=
  u32 (u64 (sb_tail sb - sb_head sb)).

Definition aiopquic_stream_buf_free (sb : stream_buf) : Z :=
  u32 (sb_capacity sb - aiopquic_stream_buf_used sb).

Definition aiopquic_stream_buf_set_fin (sb : stream_buf) : stream_buf :=
  {| sb_buf := sb_buf sb; sb_capacity := sb_capacity sb; sb_mask := sb_mask sb;
     sb_tail := sb_tail sb; sb_head := sb_head sb; sb_fin_pending := 1;
     sb_hash_enabled := sb_hash_enabled sb; sb_push_hash := sb_push_hash sb;
     sb_pop_hash := sb_pop_hash sb |}.

Definition aiopquic_stream_buf_fin_pending (sb : stream_buf) : Z :=
  sb_fin_pending sb.

Definition aiopquic_stream_buf_pushed (sb : stream_buf) : Z := sb_tail sb.
Definition aiopquic_stream_buf_popped (sb : stream_buf) : Z := sb_head sb.
Definition aiopquic_stream_buf_sent (sb : stream_buf) : Z := sb_head sb.
Definition aiopquic_stream_buf_push_hash (sb : stream_buf) : Z := sb_push_hash sb.
Definition aiopquic_stream_buf_pop_hash (sb : stream_buf) : Z := sb_pop_hash sb.

(** Store of the consumer cursor alone ([aiopquic_stream_ctx_tx_abandon]). *)
Definition sb_set_head (sb : stream_buf) (head : Z) : stream_buf :=
  {| sb_buf := sb_buf sb; sb_capacity := sb_capacity sb; sb_mask := sb_mask sb;
     sb_tail := sb_tail sb; sb_head := head; sb_fin_pending := sb_fin_pending sb;
     sb_hash_enabled := sb_hash_enabled sb; sb_push_hash := sb_push_hash sb;
     sb_pop_hash := sb_pop_hash sb |}.

(** ** Rounding up to a power of two *)

Definition is_pow2 (c : Z) : Prop := ∃ k, 0 <= k <= 31 ∧ c = 2 ^ k.

Lemma is_pow2_bounds c : is_pow2 c -> 0 < c <= 2 ^ 31.
Proof.
  intros (k & Hk & ->). split; [apply Z.pow_pos_nonneg; lia|].
  apply Z.pow_le_mono_r; lia.
Qed.

(** The test [n & (n - 1)] recognises the powers of two. *)
Lemma land_pred_zero n : 0 < n ->
  (Z.land n (n - 1) = 0 <-> n = 2 ^ Z.log2 n).
Proof.
  intros Hn. destruct (Z.log2_spec n Hn) as [Hlo Hhi].
  pose proof (Z.log2_nonneg n) as Hk. set (k := Z.log2 n) in *. split.
  - intros HL. destruct (Z.eq_dec n (2 ^ k)) as [|Hne]; [done|exfalso].
    assert (Hb : Z.testbit (Z.land n (n - 1)) k = true).
    { rewrite Z.land_spec. apply andb_true_intro. split.
      - apply Z.bit_log2. lia.
      - replace k with (Z.log2 (n - 1)); [apply Z.bit_log2; lia|].
        apply Z.log2_unique; lia. }
    rewrite HL, Z.bits_0 in Hb. done.
  - intros E. rewrite E at 1. rewrite E.
    rewrite land_mask by lia. apply Z.mod_same. pose proof (Z.pow_pos_nonneg 2 k). lia.
Qed.

(** The rounding is the least power of two not below [n], capped at [2^31]. *)
Lemma ceil_pow2_cases n : 0 <= n < 2 ^ 32 ->
  is_pow2 (aiopquic_ceil_pow2_u32 n) ∧
  (n <= 2 ^ 31 -> n <= aiopquic_ceil_pow2_u32 n) ∧
  (2 ^ 31 < n -> aiopquic_ceil_pow2_u32 n = 2 ^ 31) ∧
  (0 < n -> aiopquic_ceil_pow2_u32 n < 2 * n).
Proof.
  intros Hn. unfold aiopquic_ceil_pow2_u32.
  destruct (Z.eqb_spec n 0) as [->|Hnz].
  { repeat split; try lia. exists 0. lia. }
  rewrite u32_small by lia.
  pose proof (Z.log2_nonneg n) as Hk0.
  pose proof (Z.log2_spec n ltac:(lia)) as [Hlo Hhi]. rewrite Z.pow_succ_r in Hhi by lia.
  assert (Hk : Z.log2 n <= 31).
  { enough (Z.log2 n < 32) by lia. apply Z.log2_lt_pow2; lia. }
  destruct (Z.eqb_spec (Z.land n (n - 1)) 0) as [HL|HL];
    rewrite land_pred_zero in HL by lia.
  - repeat split; try lia; [by exists (Z.log2 n)|].
    intros. assert (2 ^ Z.log2 n <= 2 ^ 31) by (apply Z.pow_le_mono_r; lia). lia.
  - unfold builtin_clz. replace (32 - (31 - Z.log2 n)) with (Z.log2 n + 1) by lia.
    rewrite u32_small by lia. rewrite !Z.shiftl_1_l. rewrite Z.geb_leb.
    destruct (Z.leb_spec 32 (Z.log2 n + 1)).
    + assert (E : Z.log2 n = 31) by lia. rewrite E in *.
      repeat split; try lia. by exists 31.
    + pose proof (pow2_bounds (Z.log2 n + 1) ltac:(lia)).
      assert (2 ^ (Z.log2 n + 1) <= 2 ^ 31) by (apply Z.pow_le_mono_r; lia).
      rewrite u32_small by lia. rewrite Z.pow_add_r in * by lia. 
      repeat split; try lia.
      exists (Z.log2 n + 1). rewrite Z.pow_add_r by lia. lia.
Qed.

Lemma ceil_pow2_is_pow2 n : 0 <= n < 2 ^ 32 -> is_pow2 (aiopquic_ceil_pow2_u32 n).
Proof. intros. by apply ceil_pow2_cases. Qed.

(** ** The representation relation *)

Record sb_rep (sb : stream_buf) (H : Z) (q : list Z) : Prop := {
  sr_ring : ring_rep (sb_buf sb) (sb_capacity sb) H q;
  sr_pow2 : is_pow2 (sb_capacity sb);
  sr_mask : sb_mask sb = sb_capacity sb - 1;
  sr_head : sb_head sb = u64 H;
  sr_tail : sb_tail sb = u64 (H + zlen q)
}.

Section rep.
Context (sb : stream_buf) (H : Z) (q : list Z) (R : sb_rep sb H q).

Lemma sb_rep_cap : 0 < sb_capacity sb <= 2 ^ 31.
Proof. apply is_pow2_bounds, R. Qed.

Lemma sb_rep_fit : zlen q <= sb_capacity sb.
Proof. apply R. Qed.

Lemma sb_used_eq : aiopquic_stream_buf_used sb = zlen q.
Proof.
  unfold aiopquic_stream_buf_used. rewrite (sr_tail _ _ _ R), (sr_head _ _ _ R).
  apply cursor_distance. pose proof sb_rep_cap. pose proof sb_rep_fit. lia.
Qed.

Lemma sb_free_eq : aiopquic_stream_buf_free sb = sb_capacity sb - zlen q.
Proof.
  unfold aiopquic_stream_buf_free. rewrite sb_used_eq. apply u32_small.
  pose proof sb_rep_cap. pose proof sb_rep_fit. lia.
Qed.

Lemma sb_slot T : u32 (Z.land (u64 T) (sb_mask sb)) = T mod sb_capacity sb.
Proof.
  destruct (sr_pow2 _ _ _ R) as (k & Hk & E). rewrite (sr_mask _ _ _ R), E.
  apply cursor_slot. lia.
Qed.
End rep.

(** The number of bytes [push] accepts out of [len] at occupancy [used]. *)
Definition accepted (cap used len : Z) : Z := Z.min len (cap - used).

Lemma stream_buf_push_spec sb H q data :
  sb_rep sb H q -> zlen data < 2 ^ 32 ->
  let n := accepted (sb_capacity sb) (zlen q) (zlen data) in
  ∃ sb', aiopquic_stream_buf_push sb data = Some (n, sb') ∧
    sb_rep sb' H (q ++ take (Z.to_nat n) data) ∧
    sb_capacity sb' = sb_capacity sb ∧
    sb_fin_pending sb' = sb_fin_pending sb ∧
    sb_hash_enabled sb' = sb_hash_enabled sb ∧
    sb_pop_hash sb' = sb_pop_hash sb ∧
    (sb_hash_enabled sb = true -> sb_push_hash sb'
       = aiopquic_fnv1a_step (sb_push_hash sb) (take (Z.to_nat n) data)).
Proof.
  intros R Hd n. pose proof (sb_rep_cap _ _ _ R). pose proof (sb_rep_fit _ _ _ R).
  unfold aiopquic_stream_buf_push.
  change (u32 (u64 (sb_tail sb - sb_head sb))) with (aiopquic_stream_buf_used sb).
  change (u32 (sb_capacity sb - aiopquic_stream_buf_used sb))
    with (aiopquic_stream_buf_free sb).
  rewrite (sb_free_eq _ _ _ R). unfold accepted in n.
  destruct (Z.eqb_spec (sb_capacity sb - zlen q) 0) as [Hfull|Hfree].
  { exists sb. assert (n = 0) as -> by lia. cbn. rewrite app_nil_r. done. }
  assert (En : (if zlen data <? sb_capacity sb - zlen q then zlen data
                else sb_capacity sb - zlen q) = n) by (case_bool; lia).
  rewrite En, (sr_tail _ _ _ R), (sb_slot _ _ _ R).
  destruct (ring_rep_write (sb_buf sb) (sb_capacity sb) H q (take (Z.to_nat n) data))
    as (buf' & -> & R'); [apply R|rewrite length_take; lia|].
  cbn. eexists; split; [done|]. split; [|by repeat split; intros ->].
  split; cbn; try apply R; [done|].
  rewrite u64_add_l, length_app, length_take. f_equal. lia.
Qed.

Lemma stream_buf_pop_spec sb H q m :
  sb_rep sb H q -> 0 <= m ->
  let n := Z.min m (zlen q) in
  ∃ sb', aiopquic_stream_buf_pop sb m = Some (take (Z.to_nat n) q, sb') ∧
    sb_rep sb' (H + n) (drop (Z.to_nat n) q) ∧
    sb_capacity sb' = sb_capacity sb ∧
    sb_fin_pending sb' = sb_fin_pending sb ∧
    sb_hash_enabled sb' = sb_hash_enabled sb ∧
    sb_push_hash sb' = sb_push_hash sb ∧
    (sb_hash_enabled sb = true -> sb_pop_hash sb'
       = aiopquic_fnv1a_step (sb_pop_hash sb) (take (Z.to_nat n) q)).
Proof.
  intros R Hm n. pose proof (sb_rep_cap _ _ _ R). pose proof (sb_rep_fit _ _ _ R).
  unfold aiopquic_stream_buf_pop.
  change (u32 (u64 (sb_tail sb - sb_head sb))) with (aiopquic_stream_buf_used sb).
  rewrite (sb_used_eq _ _ _ R).
  destruct (Z.eqb_spec (zlen q) 0) as [Hempty|Hne].
  { exists sb. assert (n = 0) as -> by lia. cbn. rewrite Z.add_0_r. done. }
  assert (En : (if m <? zlen q then m else zlen q) = n) by (case_bool; lia).
  rewrite En, (sr_head _ _ _ R), (sb_slot _ _ _ R).
  rewrite <- (Z.add_0_r H).
  rewrite (ring_rep_read _ _ _ q) by (apply R || lia). rewrite Z.add_0_r. cbn.
  eexists; split; [done|]. split; [|by repeat split; intros ->].
  split; cbn; try apply R.
  - apply ring_rep_drop; [apply R|lia].
  - apply u64_add_l.
  - rewrite (sr_tail _ _ _ R), length_drop. f_equal. lia.
Qed.

Lemma stream_buf_set_fin_spec sb H q :
  sb_rep sb H q -> sb_rep (aiopquic_stream_buf_set_fin sb) H q.
Proof. intros [R1 R2 R3 R4 R5]. by split. Qed.

Lemma stream_buf_create_spec env blk capacity :
  0 <= capacity < 2 ^ 32 -> zlen blk = aiopquic_ceil_pow2_u32 capacity ->
  ∃ sb, aiopquic_stream_buf_create env true (Some blk) capacity = Some sb ∧
    sb_rep sb 0 [] ∧ sb_capacity sb = aiopquic_ceil_pow2_u32 capacity ∧
    sb_fin_pending sb = 0 ∧ sb_hash_enabled sb = env_flag env ∧
    sb_push_hash sb = AIOPQUIC_FNV1A_INIT ∧ sb_pop_hash sb = AIOPQUIC_FNV1A_INIT.
Proof.
  intros Hc Hb. pose proof (ceil_pow2_is_pow2 _ Hc) as Hp.
  pose proof (is_pow2_bounds _ Hp). unfold aiopquic_stream_buf_create.
  destruct (Z.eqb_spec (aiopquic_ceil_pow2_u32 capacity) 0); [lia|].
  eexists; split; [done|]. split; [|done].
  split; cbn; try done.
  - rewrite <- Hb. apply ring_rep_empty; lia.
  - apply u32_small. lia.
Qed.

#[export] Hint Resolve stream_buf_set_fin_spec : aio.

(** ** Abstract specification: a bounded byte queue

    [bq_pushed] and [bq_popped] record the whole history of accepted and
    delivered bytes. *)

Record bq := Bq {
  bq_cap : Z;
  bq_queue : list Z;
  bq_fin : bool;
  bq_pushed : list Z;
  bq_popped : list Z
}.

Inductive sb_op :=
  | SbPush (data : list Z)
  | SbPop (max_bytes : Z)
  | SbSetFin
  | SbUsed
  | SbFree
  | SbFinPending.

Inductive sb_out :=
  | OutCount (n : Z)
  | OutBytes (bs : list Z).

(** Operands the C types can carry. *)
Definition sb_op_ok (o : sb_op) : Prop :=
  match o with
  | SbPush data => zlen data < 2 ^ 32
  | SbPop m => 0 <= m < 2 ^ 32
  | _ => True
  end.

Definition bq_step (b : bq) (o : sb_op) : sb_out * bq :=
  match o with
  | SbPush data =>
      let n := Z.to_nat (accepted (bq_cap b) (zlen (bq_queue b)) (zlen data)) in
      (OutCount (Z.of_nat n),
       Bq (bq_cap b) (bq_queue b ++ take n data) (bq_fin b)
          (bq_pushed b ++ take n data) (bq_popped b))
  | SbPop m =>
      let n := Z.to_nat m in
      (OutBytes (take n (bq_queue b)),
       Bq (bq_cap b) (drop n (bq_queue b)) (bq_fin b)
          (bq_pushed b) (bq_popped b ++ take n (bq_queue b)))
  | SbSetFin =>
      (OutCount 0, Bq (bq_cap b) (bq_queue b) true (bq_pushed b) (bq_popped b))
  | SbUsed => (OutCount (zlen (bq_queue b)), b)
  | SbFree => (OutCount (bq_cap b - zlen (bq_queue b)), b)
  | SbFinPending => (OutCount (c_bool (bq_fin b)), b)
  end.

(** The same operations on the ring. *)
Definition sb_step (sb : stream_buf) (o : sb_op) : option (sb_out * stream_buf) :=
  match o with
  | SbPush data =>
      '(n, sb) ← aiopquic_stream_buf_push sb data; Some (OutCount n, sb)
  | SbPop m =>
      '(bs, sb) ← aiopquic_stream_buf_pop sb m; Some (OutBytes bs, sb)
  | SbSetFin => Some (OutCount 0, aiopquic_stream_buf_set_fin sb)
  | SbUsed => Some (OutCount (aiopquic_stream_buf_used sb), sb)
  | SbFree => Some (OutCount (aiopquic_stream_buf_free sb), sb)
  | SbFinPending => Some (OutCount (aiopquic_stream_buf_fin_pending sb), sb)
  end.

Fixpoint bq_run (b : bq) (ops : list sb_op) : list sb_out * bq :=
  match ops with
  | [] => ([], b)
  | o :: ops =>
      let (r, b) := bq_step b o in
      let (rs, b) := bq_run b ops in (r :: rs, b)
  end.

Fixpoint sb_run (sb : stream_buf) (ops : list sb_op)
    : option (list sb_out * stream_buf) :=
  match ops with
  | [] => Some ([], sb)
  | o :: ops =>
      '(r, sb) ← sb_step sb o; '(rs, sb) ← sb_run sb ops; Some (r :: rs, sb)
  end.

Definition bq_new (capacity : Z) : bq :=
  Bq (aiopquic_ceil_pow2_u32 capacity) [] false [] [].

(** The simulation relation between a ring and its abstract queue. *)
Record sb_sim (sb : stream_buf) (b : bq) : Prop := {
  ss_rep : ∃ H, sb_rep sb H (bq_queue b);
  ss_cap : sb_capacity sb = bq_cap b;
  ss_fin : sb_fin_pending sb = c_bool (bq_fin b);
  ss_hist : bq_pushed b = bq_popped b ++ bq_queue b;
  ss_push_hash : sb_hash_enabled sb = true ->
    sb_push_hash sb = aiopquic_fnv1a_step AIOPQUIC_FNV1A_INIT (bq_pushed b);
  ss_pop_hash : sb_hash_enabled sb = true ->
    sb_pop_hash sb = aiopquic_fnv1a_step AIOPQUIC_FNV1A_INIT (bq_popped b)
}.

Arguments aiopquic_fnv1a_step : simpl never.

Lemma fnv1a_step_app h p q :
  aiopquic_fnv1a_step h (p ++ q) = aiopquic_fnv1a_step (aiopquic_fnv1a_step h p) q.
Proof. unfold aiopquic_fnv1a_step. apply fold_left_app. Qed.

Lemma accepted_nonneg cap used len : 0 <= len -> used <= cap ->
  0 <= accepted cap used len.
Proof. unfold accepted. lia. Qed.

Lemma sb_sim_step sb b o : sb_sim sb b -> sb_op_ok o ->
  ∃ sb', sb_step sb o = Some ((bq_step b o).1, sb') ∧ sb_sim sb' (bq_step b o).2.
Proof.
  intros [[H R] Ec Ef Eh Hpush Hpop] Hok.
  destruct o as [data|m| | | |]; cbn in *.
  - destruct (stream_buf_push_spec sb H (bq_queue b) data R Hok)
      as (sb' & -> & R' & E1 & E2 & E3 & E4 & E5). cbn.
    rewrite Ec in *. pose proof (sb_rep_fit _ _ _ R).
    rewrite Z2Nat.id by (apply accepted_nonneg; lia).
    eexists; split; [done|]. split; cbn; [by exists H|congruence..| | |].
    + by rewrite Eh, app_assoc.
    + intros Hh. rewrite E3 in Hh. by rewrite E5, Hpush, fnv1a_step_app by done.
    + rewrite E3, E4. done.
  - destruct (stream_buf_pop_spec sb H (bq_queue b) m R ltac:(lia))
      as (sb' & -> & R' & E1 & E2 & E3 & E4 & E5). cbn.
    assert (Et : take (Z.to_nat (Z.min m (zlen (bq_queue b)))) (bq_queue b)
                 = take (Z.to_nat m) (bq_queue b)).
    { destruct (Z.min_spec m (zlen (bq_queue b))) as [[? ->]|[? ->]]; [done|].
      rewrite !firstn_all2; [done|lia..]. }
    assert (Ed : drop (Z.to_nat (Z.min m (zlen (bq_queue b)))) (bq_queue b)
                 = drop (Z.to_nat m) (bq_queue b)).
    { destruct (Z.min_spec m (zlen (bq_queue b))) as [[? ->]|[? ->]]; [done|].
      rewrite !drop_ge; [done|lia..]. }
    rewrite Et, Ed in *. eexists; split; [done|].
    split; cbn; [by eexists|congruence..| | |].
    + by rewrite <- app_assoc, take_drop.
    + rewrite E3, E4. done.
    + intros Hh. rewrite E3 in Hh. by rewrite E5, Hpop, fnv1a_step_app by done.
  - eexists; split; [done|]. split; cbn; eauto with aio.
  - rewrite (sb_used_eq _ _ _ R). eexists; split; [done|]. by split; eauto.
  - rewrite (sb_free_eq _ _ _ R), Ec. eexists; split; [done|]. by split; eauto.
  - unfold aiopquic_stream_buf_fin_pending. rewrite Ef.
    eexists; split; [done|]. by split; eauto.
Qed.

Lemma sb_sim_run ops : ∀ sb b, sb_sim sb b -> Forall sb_op_ok ops ->
  ∃ sb', sb_run sb ops = Some ((bq_run b ops).1, sb') ∧ sb_sim sb' (bq_run b ops).2.
Proof.
  induction ops as [|o ops IH]; intros sb b S Hok; [by eexists|].
  apply Forall_cons in Hok as [Ho Hok].
  destruct (sb_sim_step sb b o S Ho) as (sb1 & E1 & S1). cbn. rewrite E1. cbn.
  destruct (bq_step b o) as [r b1]. cbn in *.
  destruct (IH sb1 b1 S1 Hok) as (sb2 & E2 & S2). rewrite E2. cbn.
  destruct (bq_run b1 ops) as [rs b2]. cbn in *. eauto.
Qed.

Lemma sb_sim_create env blk capacity :
  0 <= capacity < 2 ^ 32 -> zlen blk = aiopquic_ceil_pow2_u32 capacity ->
  ∃ sb, aiopquic_stream_buf_create env true (Some blk) capacity = Some sb ∧
    sb_hash_enabled sb = env_flag env ∧ sb_sim sb (bq_new capacity).
Proof.
  intros Hc Hb.
  destruct (stream_buf_create_spec env blk capacity Hc Hb)
    as (sb & E & R & Ecap & Ef & Eh & Ep & Eq).
  exists sb. split; [done|]. split; [done|]. by split; eauto.
Qed.

(** No operation touches the hash gate. *)
Lemma sb_run_hash_enabled ops : ∀ sb outs sb',
  sb_run sb ops = Some (outs, sb') -> sb_hash_enabled sb' = sb_hash_enabled sb.
Proof.
  induction ops as [|o ops IH]; intros sb outs sb' E; [by simplify_eq/=|].
  cbn in E. destruct (sb_step sb o) as [[r sb1]|] eqn:E1; [|done]. cbn in E.
  destruct (sb_run sb1 ops) as [[rs sb2]|] eqn:E2; [|done]. simplify_eq/=.
  rewrite (IH _ _ _ E2). clear IH E2.
  destruct o; cbn in E1; unfold aiopquic_stream_buf_push, aiopquic_stream_buf_pop in E1;
    repeat (case_match || simplify_option_eq || simplify_eq/=); done.
Qed.

(** ** Properties *)

(** C9. Refinement: from its creation, every sequence of pushes, pops, FIN and
    size queries on the byte ring answers exactly as the bounded FIFO byte queue
    does, with no out-of-bounds copy, whatever the 64-bit cursors have reached. *)
Theorem stream_buf_refines_queue env blk capacity ops :
  0 <= capacity < 2 ^ 32 -> zlen blk = aiopquic_ceil_pow2_u32 capacity ->
  Forall sb_op_ok ops ->
  ∃ sb sb', aiopquic_stream_buf_create env true (Some blk) capacity = Some sb ∧
    sb_run sb ops = Some ((bq_run (bq_new capacity) ops).1, sb') ∧
    aiopquic_stream_buf_used sb' = zlen (bq_queue (bq_run (bq_new capacity) ops).2).
Proof.
  intros Hc Hb Hok. destruct (sb_sim_create env blk capacity Hc Hb) as (sb & E & _ & S).
  destruct (sb_sim_run ops sb _ S Hok) as (sb' & Er & [[H R] ?]).
  exists sb, sb'. split_and!; [done..|]. by apply sb_used_eq with H.
Qed.

Lemma stream_buf_refines_queue_witness :
  let ops := [SbPush [1; 2; 3]; SbPop 2; SbPush [4; 5; 6; 7]; SbSetFin; SbPop 9] in
  ∃ sb sb', aiopquic_stream_buf_create None true (Some [0; 0; 0; 0]) 3 = Some sb ∧
    sb_run sb ops = Some ([OutCount 3; OutBytes [1; 2]; OutCount 3; OutCount 0;
                           OutBytes [3; 4; 5; 6]], sb') ∧
    aiopquic_stream_buf_used sb' = 0.
Proof.
  intros ops.
  apply (stream_buf_refines_queue None [0; 0; 0; 0] 3 ops); [lia|done|].
  repeat constructor; cbn; lia.
Defined.

(** The bytes a run accepted and delivered, read off its operations and
    answers. *)
Fixpoint trace_accepted (ops : list sb_op) (outs : list sb_out) : list Z :=
  match ops, outs with
  | SbPush data :: ops, OutCount n :: outs =>
      take (Z.to_nat n) data ++ trace_accepted ops outs
  | _ :: ops, _ :: outs => trace_accepted ops outs
  | _, _ => []
  end.

Fixpoint trace_delivered (outs : list sb_out) : list Z :=
  match outs with
  | OutBytes bs :: outs => bs ++ trace_delivered outs
  | _ :: outs => trace_delivered outs
  | [] => []
  end.

Lemma bq_run_history ops : ∀ b,
  bq_pushed (bq_run b ops).2 = bq_pushed b ++ trace_accepted ops (bq_run b ops).1 ∧
  bq_popped (bq_run b ops).2 = bq_popped b ++ trace_delivered (bq_run b ops).1.
Proof.
  induction ops as [|o ops IH]; intros b; [by rewrite !app_nil_r|].
  destruct o; cbn;
    match goal with |- context [bq_run ?b' ops] => specialize (IH b') end;
    destruct (bq_run _ ops) as [rs b2]; cbn in *; destruct IH as [-> ->];
    rewrite ?Nat2Z.id, ?app_assoc; done.
Qed.

(** Byte conservation: the bytes a ring delivered, followed by the bytes it
    still holds, are exactly the bytes it accepted, in order. *)
Theorem stream_buf_conserves_bytes env blk capacity ops sb outs sb' :
  0 <= capacity < 2 ^ 32 -> zlen blk = aiopquic_ceil_pow2_u32 capacity ->
  Forall sb_op_ok ops ->
  aiopquic_stream_buf_create env true (Some blk) capacity = Some sb ->
  sb_run sb ops = Some (outs, sb') ->
  ∃ rest, trace_accepted ops outs = trace_delivered outs ++ rest ∧
    zlen rest = aiopquic_stream_buf_used sb'.
Proof.
  intros Hc Hb Hok Ecr Erun.
  destruct (sb_sim_create env blk capacity Hc Hb) as (sb0 & E0 & _ & S0).
  destruct (sb_sim_run ops sb0 _ S0 Hok) as (sb1 & E1 & [[H R] _ _ Hh _ _]).
  simplify_eq. destruct (bq_run_history ops (bq_new capacity)) as [Hp Hq].
  cbn in Hp, Hq. rewrite <- Hp, <- Hq, Hh. eexists; split; [done|].
  by rewrite (sb_used_eq _ _ _ R).
Qed.

Lemma stream_buf_conserves_bytes_witness :
  let ops := [SbPush [1; 2; 3]; SbPop 2; SbPush [4; 5; 6; 7]] in
  ∃ sb outs sb',
    aiopquic_stream_buf_create None true (Some [0; 0; 0; 0]) 4 = Some sb ∧
    sb_run sb ops = Some (outs, sb') ∧
    ∃ rest, trace_accepted ops outs = trace_delivered outs ++ rest ∧
      zlen rest = aiopquic_stream_buf_used sb'.
Proof.
  intros ops. do 3 eexists. split; [vm_compute; reflexivity|].
  split; [vm_compute; reflexivity|].
  apply (stream_buf_conserves_bytes None [0; 0; 0; 0] 4 ops _ _ _ ltac:(lia) ltac:(vm_compute; reflexivity)
           ltac:(repeat constructor; cbn; lia) ltac:(vm_compute; reflexivity)
           ltac:(vm_compute; reflexivity)).
Defined.

(** The diagnostic hashes: with the hash gate on, a ring whose two sides have
    processed the same bytes reports equal push and pop hashes, so a mismatch can
    only come from a broken ring. *)
Theorem stream_buf_hashes_agree env blk capacity ops sb outs sb' :
  0 <= capacity < 2 ^ 32 -> zlen blk = aiopquic_ceil_pow2_u32 capacity ->
  Forall sb_op_ok ops -> env_flag env = true ->
  aiopquic_stream_buf_create env true (Some blk) capacity = Some sb ->
  sb_run sb ops = Some (outs, sb') -> aiopquic_stream_buf_used sb' = 0 ->
  aiopquic_stream_buf_push_hash sb' = aiopquic_stream_buf_pop_hash sb' ∧
  aiopquic_stream_buf_push_hash sb'
    = aiopquic_fnv1a_step AIOPQUIC_FNV1A_INIT (trace_accepted ops outs).
Proof.
  intros Hc Hb Hok Henv Ecr Erun Hu.
  destruct (sb_sim_create env blk capacity Hc Hb) as (sb0 & E0 & Eh & S0).
  destruct (sb_sim_run ops sb0 _ S0 Hok) as (sb1 & E1 & [[H R] _ _ Hh Hp Hq]).
  pose proof (sb_run_hash_enabled _ _ _ _ Erun) as Hen. simplify_eq.
  rewrite Eh, Henv in Hen.
  destruct (bq_run_history ops (bq_new capacity)) as [Hhp _]. cbn in Hhp.
  rewrite (sb_used_eq _ _ _ R) in Hu.
  unfold aiopquic_stream_buf_push_hash, aiopquic_stream_buf_pop_hash.
  rewrite Hp, Hq, <- Hhp, Hh by done.
  destruct (bq_queue (bq_run (bq_new capacity) ops).2); [|done].
  by rewrite app_nil_r.
Qed.

Lemma stream_buf_hashes_agree_witness :
  let ops := [SbPush [1; 2; 3]; SbPop 2; SbPush [4; 5; 6; 7]; SbPop 4; SbPop 4] in
  ∃ sb outs sb',
    aiopquic_stream_buf_create (Some "1"%string) true (Some [0; 0; 0; 0]) 4 = Some sb ∧
    sb_run sb ops = Some (outs, sb') ∧
    aiopquic_stream_buf_push_hash sb' = aiopquic_stream_buf_pop_hash sb' ∧
    aiopquic_stream_buf_push_hash sb'
      = aiopquic_fnv1a_step AIOPQUIC_FNV1A_INIT (trace_accepted ops outs).
Proof.
  intros ops. do 3 eexists. split; [vm_compute; reflexivity|].
  split; [vm_compute; reflexivity|].
  apply (stream_buf_hashes_agree (Some "1"%string) [0; 0; 0; 0] 4 ops _ _ _
           ltac:(lia) ltac:(vm_compute; reflexivity) ltac:(repeat constructor; cbn; lia)
           ltac:(vm_compute; reflexivity) ltac:(vm_compute; reflexivity)
           ltac:(vm_compute; reflexivity) ltac:(vm_compute; reflexivity)).
Defined.
