(* ===== verification/SpscRing.v ===== *)
(** * SPSC event ring with its overflow (spsc_ring.h)

    Entries, ring and overflow list as records; the operations of the header in
    the order of the source.  [malloc]'d payloads live in a [heap] from addresses
    to bytes; an allocation's outcome is an argument (the address [malloc]
    returned, 0 on failure) and [c_free] answers [None] on a pointer that is not
    a live block.  A result [None] of an operation is undefined behaviour: an
    index outside the entry table, a bad [free], a null node. *)
From S2P Require Import Prelude Ring StreamBuf.

(** ** Event types *)

Inductive spsc_event_type :=
  | SPSC_EVT_STREAM_DATA | SPSC_EVT_STREAM_FIN | SPSC_EVT_STREAM_RESET
  | SPSC_EVT_STOP_SENDING | SPSC_EVT_CLOSE | SPSC_EVT_APP_CLOSE | SPSC_EVT_READY
  | SPSC_EVT_ALMOST_READY | SPSC_EVT_DATAGRAM | SPSC_EVT_DATAGRAM_ACKED
  | SPSC_EVT_DATAGRAM_LOST | SPSC_EVT_PATH_AVAILABLE | SPSC_EVT_PATH_SUSPENDED
  | SPSC_EVT_PATH_DELETED | SPSC_EVT_PACING_CHANGED | SPSC_EVT_STREAM_TX_DRAINED
  | SPSC_EVT_DATAGRAM_TX_DRAINED | SPSC_EVT_TX_EVENT_RING_DRAINED
  | SPSC_EVT_WT_STREAM_DESTROY | SPSC_EVT_STREAM_DESTROY | SPSC_EVT_CNX_STACK
  | SPSC_EVT_CNX_SNAPSHOT
  | SPSC_EVT_TX_CLOSE | SPSC_EVT_TX_STREAM_RESET | SPSC_EVT_TX_STOP_SENDING
  | SPSC_EVT_TX_MARK_ACTIVE | SPSC_EVT_TX_CONNECT
  | SPSC_EVT_TX_WT_OPEN | SPSC_EVT_TX_WT_CREATE_STREAM | SPSC_EVT_TX_WT_CLOSE
  | SPSC_EVT_TX_WT_DRAIN | SPSC_EVT_TX_WT_RESET_STREAM | SPSC_EVT_TX_WT_DEREGISTER
  | SPSC_EVT_TX_WT_STOP_SENDING | SPSC_EVT_TX_OPEN_FLOW_CONTROL
  | SPSC_EVT_TX_SET_APP_FLOW_CONTROL | SPSC_EVT_TX_WT_SESSION_CLEANUP
  | SPSC_EVT_TX_MARK_DATAGRAM_READY | SPSC_EVT_TX_CNX_REFRESH
  | SPSC_EVT_TX_MARK_WT_DATAGRAM_READY | SPSC_EVT_TX_SET_STREAM_PRIORITY
  | SPSC_EVT_TX_WT_SET_STREAM_PRIORITY | SPSC_EVT_TX_WT_FIN
  | SPSC_EVT_TX_DGRAM_RING_RELEASE | SPSC_EVT_TX_SET_DATAGRAM_PRIORITY
  | SPSC_EVT_TX_WT_SET_DATAGRAM_PRIORITY | SPSC_EVT_TX_SET_MAX_CONNECTIONS
  | SPSC_EVT_WT_SESSION_READY | SPSC_EVT_WT_SESSION_REFUSED
  | SPSC_EVT_WT_SESSION_CLOSED | SPSC_EVT_WT_SESSION_DRAINING
  | SPSC_EVT_WT_STREAM_DATA | SPSC_EVT_WT_STREAM_FIN | SPSC_EVT_WT_STREAM_RESET
  | SPSC_EVT_WT_STOP_SENDING | SPSC_EVT_WT_DATAGRAM | SPSC_EVT_WT_NEW_STREAM
  | SPSC_EVT_WT_STREAM_CREATED | SPSC_EVT_WT_NEW_SESSION
  | SPSC_EVT_WT_STREAM_LINK_RELEASE | SPSC_EVT_WT_CNX_CLOSED.

#[export] Instance spsc_event_type_eq_dec : EqDecision spsc_event_type.
Proof. solve_decision. Defined.

(** The enumerator's value, as stored in [entry.event_type]. *)
Definition evt_code (t : spsc_event_type) : Z :=
  match t with
  | SPSC_EVT_STREAM_DATA => 0 | SPSC_EVT_STREAM_FIN => 1 | SPSC_EVT_STREAM_RESET => 2
  | SPSC_EVT_STOP_SENDING => 3 | SPSC_EVT_CLOSE => 4 | SPSC_EVT_APP_CLOSE => 5
  | SPSC_EVT_READY => 6 | SPSC_EVT_ALMOST_READY => 7 | SPSC_EVT_DATAGRAM => 8
  | SPSC_EVT_DATAGRAM_ACKED => 9 | SPSC_EVT_DATAGRAM_LOST => 10
  | SPSC_EVT_PATH_AVAILABLE => 11 | SPSC_EVT_PATH_SUSPENDED => 12
  | SPSC_EVT_PATH_DELETED => 13 | SPSC_EVT_PACING_CHANGED => 14
  | SPSC_EVT_STREAM_TX_DRAINED => 15 | SPSC_EVT_DATAGRAM_TX_DRAINED => 19
  | SPSC_EVT_TX_EVENT_RING_DRAINED => 16 | SPSC_EVT_WT_STREAM_DESTROY => 18
  | SPSC_EVT_STREAM_DESTROY => 17 | SPSC_EVT_CNX_STACK => 20
  | SPSC_EVT_CNX_SNAPSHOT => 21
  | SPSC_EVT_TX_CLOSE => 131 | SPSC_EVT_TX_STREAM_RESET => 132
  | SPSC_EVT_TX_STOP_SENDING => 133 | SPSC_EVT_TX_MARK_ACTIVE => 134
  | SPSC_EVT_TX_CONNECT => 135 | SPSC_EVT_TX_WT_OPEN => 136
  | SPSC_EVT_TX_WT_CREATE_STREAM => 137 | SPSC_EVT_TX_WT_CLOSE => 138
  | SPSC_EVT_TX_WT_DRAIN => 139 | SPSC_EVT_TX_WT_RESET_STREAM => 140
  | SPSC_EVT_TX_WT_DEREGISTER => 141 | SPSC_EVT_TX_WT_STOP_SENDING => 142
  | SPSC_EVT_TX_OPEN_FLOW_CONTROL => 143 | SPSC_EVT_TX_SET_APP_FLOW_CONTROL => 144
  | SPSC_EVT_TX_WT_SESSION_CLEANUP => 145 | SPSC_EVT_TX_MARK_DATAGRAM_READY => 146
  | SPSC_EVT_TX_CNX_REFRESH => 147 | SPSC_EVT_TX_MARK_WT_DATAGRAM_READY => 148
  | SPSC_EVT_TX_SET_STREAM_PRIORITY => 149 | SPSC_EVT_TX_WT_SET_STREAM_PRIORITY => 150
  | SPSC_EVT_TX_WT_FIN => 151 | SPSC_EVT_TX_DGRAM_RING_RELEASE => 152
  | SPSC_EVT_TX_SET_DATAGRAM_PRIORITY => 153
  | SPSC_EVT_TX_WT_SET_DATAGRAM_PRIORITY => 154
  | SPSC_EVT_TX_SET_MAX_CONNECTIONS => 155
  | SPSC_EVT_WT_SESSION_READY => 64 | SPSC_EVT_WT_SESSION_REFUSED => 65
  | SPSC_EVT_WT_SESSION_CLOSED => 66 | SPSC_EVT_WT_SESSION_DRAINING => 67
  | SPSC_EVT_WT_STREAM_DATA => 68 | SPSC_EVT_WT_STREAM_FIN => 69
  | SPSC_EVT_WT_STREAM_RESET => 70 | SPSC_EVT_WT_STOP_SENDING => 71
  | SPSC_EVT_WT_DATAGRAM => 72 | SPSC_EVT_WT_NEW_STREAM => 73
  | SPSC_EVT_WT_STREAM_CREATED => 74 | SPSC_EVT_WT_NEW_SESSION => 75
  | SPSC_EVT_WT_STREAM_LINK_RELEASE => 76 | SPSC_EVT_WT_CNX_CLOSED => 77
  end.

Coercion evt_code : spsc_event_type >-> Z.

Lemma evt_code_inj t u : evt_code t = evt_code u -> t = u.
Proof. destruct t; destruct u; (reflexivity || discriminate). Qed.

(** ** Entries, ring, payload heap *)

Record spsc_entry := SpscEntry {
  e_stream_id : Z;
  e_event_type : Z;
  e_data_length : Z;
  e_is_fin : Z;
  e_aux : Z;
  e_data_buf : Z;
  e_cnx : Z;
  e_stream_ctx : Z;
  e_error_code : Z
}.

(** [spsc_entry_t entry = {0}]. *)
Definition entry0 : spsc_entry := SpscEntry 0 0 0 0 0 0 0 0 0.

Definition entry_set_data (e : spsc_entry) (buf len : Z) : spsc_entry :=
  {| e_stream_id := e_stream_id e; e_event_type := e_event_type e;
     e_data_length := len; e_is_fin := e_is_fin e; e_aux := e_aux e;
     e_data_buf := buf; e_cnx := e_cnx e; e_stream_ctx := e_stream_ctx e;
     e_error_code := e_error_code e |}.

Record spsc_ring := SpscRing {
  r_tail : Z;
  r_head : Z;
  r_bytes_pending : Z;
  r_capacity : Z;
  r_mask : Z;
  r_entries : list spsc_entry
}.

(** Live [malloc]'d blocks. *)
Abbreviation heap := (gmap Z (list Z)).

Definition c_free (h : heap) (p : Z) : option heap :=
  if p =? 0 then Some h
  else match h !! p with Some _ => Some (delete p h) | None => None end.

(** [entries[slot]] as an lvalue. *)
Definition store_slot (es : list spsc_entry) (slot : Z) (e : spsc_entry)
    : option (list spsc_entry) :=
  if (0 <=? slot) && (slot <? zlen es) then Some (<[Z.to_nat slot := e]> es) else None.

(** The condition under which an entry owns its buffer ([_pop], [_destroy]). *)
Definition entry_owns (e : spsc_entry) : bool :=
  negb (e_data_buf e =? 0) && (0 <? e_data_length e).

(** ** Operations *)

Definition spsc_ring_create (ok_ring ok_entries : bool) (capacity : Z)
    : option spsc_ring :=
  if negb (Z.land capacity (u32 (capacity - 1)) =? 0) then None
  else if negb ok_ring then None
  else if negb ok_entries then None
  else Some {| r_tail := 0; r_head := 0; r_bytes_pending := 0;
               r_capacity := capacity; r_mask := u32 (capacity - 1);
               r_entries := replicate (Z.to_nat capacity) entry0 |}.

(** The loop of [spsc_ring_destroy] from [head], [n] entries to go. *)
Fixpoint destroy_loop (n : nat) (r : spsc_ring) (head : Z) (h : heap)
    : option heap :=
  match n with
  | O => Some h
  | S n =>
      e ← r_entries r !! Z.to_nat (Z.land head (r_mask r));
      h ← (if entry_owns e then c_free h (e_data_buf e) else Some h);
      destroy_loop n r (u64 (head + 1)) h
  end.

(** The payload heap after [spsc_ring_destroy]; [None] for a NULL ring is the
    caller's [option]. *)
Definition spsc_ring_destroy (r : spsc_ring) (h : heap) : option heap :=
  destroy_loop (Z.to_nat (r_tail r - r_head r)) r (r_head r) h.

Definition spsc_ring_count (r : spsc_ring) : Z := u32 (u64 (r_tail r - r_head r)).
Definition spsc_ring_bytes_pending (r : spsc_ring) : Z := r_bytes_pending r.
Definition spsc_ring_full (r : spsc_ring) : bool := spsc_ring_count r >=? r_capacity r.
Definition spsc_ring_empty (r : spsc_ring) : bool := spsc_ring_count r =? 0.

(** The ring after an entry store and the release store of [tail + 1]. *)
Definition ring_publish (r : spsc_ring) (entries : list spsc_entry) (bytes : Z)
    : spsc_ring :=
  {| r_tail := u64 (r_tail r + 1); r_head := r_head r;
     r_bytes_pending := bytes; r_capacity := r_capacity r;
     r_mask := r_mask r; r_entries := entries |}.

(** [p] is the address [malloc(data_len)] returns if it is called, 0 when it
    fails.  [data] is the payload; [NULL] and a zero length are both [[]]. *)
Definition spsc_ring_push (r : spsc_ring) (h : heap) (p : Z) (entry : spsc_entry)
    (data : list Z) : option (Z * spsc_ring * heap) :=
  let tail := r_tail r in
  let head := r_head r in
  let data_len := zlen data in
  if u64 (tail - head) >=? r_capacity r then Some (-1, r, h)
  else if (0 <? data_len) && (p =? 0) then Some (-2, r, h)
  else
    let buf := if 0 <? data_len then p else 0 in
    let h := if 0 <? data_len then <[p := data]> h else h in
    let slot := u32 (Z.land tail (r_mask r)) in
    let e := entry_set_data entry buf (if negb (buf =? 0) then data_len else 0) in
    entries ← store_slot (r_entries r) slot e;
    let bytes := if 0 <? e_data_length e
                 then u64 (r_bytes_pending r + e_data_length e)
                 else r_bytes_pending r in
    Some (0, ring_publish r entries bytes, h).

Definition spsc_ring_push_borrowed (r : spsc_ring) (entry : spsc_entry)
    : option (Z * spsc_ring) :=
  let tail := r_tail r in
  let head := r_head r in
  if u64 (tail - head) >=? r_capacity r then Some (-1, r)
  else
    let slot := u32 (Z.land tail (r_mask r)) in
    entries ← store_slot (r_entries r) slot entry;
    Some (0, ring_publish r entries (r_bytes_pending r)).

(** The slot [peek] points at; [None] is the NULL result. *)
Definition spsc_ring_peek (r : spsc_ring) : option Z :=
  if r_head r >=? r_tail r then None else Some (Z.land (r_head r) (r_mask r)).

Definition spsc_ring_entry_data (e : spsc_entry) : Z := e_data_buf e.

Definition spsc_ring_pop (r : spsc_ring) (h : heap) : option (spsc_ring * heap) :=
  let slot := Z.land (r_head r) (r_mask r) in
  e ← r_entries r !! Z.to_nat slot;
  if entry_owns e then
    h ← c_free h (e_data_buf e);
    entries ← store_slot (r_entries r) slot (entry_set_data e 0 (e_data_length e));
    Some ({| r_tail := r_tail r; r_head := u64 (r_head r + 1);
             r_bytes_pending := u64 (r_bytes_pending r - e_data_length e);
             r_capacity := r_capacity r; r_mask := r_mask r;
             r_entries := entries |}, h)
  else
    Some ({| r_tail := r_tail r; r_head := u64 (r_head r + 1);
             r_bytes_pending := r_bytes_pending r;
             r_capacity := r_capacity r; r_mask := r_mask r;
             r_entries := r_entries r |}, h).

(** The pointer handed over and the entry left in its slot. *)
Definition spsc_ring_take_data (e : spsc_entry) : Z * spsc_entry :=
  (e_data_buf e, entry_set_data e 0 0).

(** [spsc_ring_take_data] on the entry [peek] points at. *)
Definition ring_take_head (r : spsc_ring) : option (Z * spsc_ring) :=
  slot ← spsc_ring_peek r;
  e ← r_entries r !! Z.to_nat slot;
  let (p, e) := spsc_ring_take_data e in
  entries ← store_slot (r_entries r) slot e;
  Some (p, {| r_tail := r_tail r; r_head := r_head r;
              r_bytes_pending := r_bytes_pending r; r_capacity := r_capacity r;
              r_mask := r_mask r; r_entries := entries |}).

Definition event_entry (event_type stream_id cnx error_code : Z) : spsc_entry :=
  {| e_stream_id := stream_id; e_event_type := event_type; e_data_length := 0;
     e_is_fin := 0; e_aux := 0; e_data_buf := 0; e_cnx := cnx; e_stream_ctx := 0;
     e_error_code := error_code |}.

Definition spsc_ring_push_event (r : spsc_ring) (h : heap)
    (event_type stream_id cnx error_code : Z) : option (Z * spsc_ring * heap) :=
  spsc_ring_push r h 0 (event_entry event_type stream_id cnx error_code) [].

Definition spsc_ring_push_stream_data (r : spsc_ring) (h : heap) (p : Z)
    (stream_id : Z) (data : list Z) (is_fin : Z) (cnx stream_ctx : Z)
    : option (Z * spsc_ring * heap) :=
  spsc_ring_push r h p
    {| e_stream_id := stream_id;
       e_event_type := if negb (is_fin =? 0) then SPSC_EVT_STREAM_FIN
                       else SPSC_EVT_STREAM_DATA;
       e_data_length := 0; e_is_fin := u8 is_fin; e_aux := 0; e_data_buf := 0;
       e_cnx := cnx; e_stream_ctx := stream_ctx; e_error_code := 0 |} data.

(** ** The overflow list *)

Record spsc_overflow := SpscOverflow {
  o_nodes : list spsc_entry;   (** [head] to [tail] through the [next] links *)
  o_depth : Z;
  o_pushed : Z;
  o_max_depth : Z
}.

Definition spsc_overflow_init : spsc_overflow := SpscOverflow [] 0 0 0.

Fixpoint free_nodes (ns : list spsc_entry) (h : heap) : option heap :=
  match ns with
  | [] => Some h
  | e :: ns =>
      h ← (if entry_owns e then c_free h (e_data_buf e) else Some h);
      free_nodes ns h
  end.

Definition spsc_overflow_destroy (o : spsc_overflow) (h : heap)
    : option (spsc_overflow * heap) :=
  h ← free_nodes (o_nodes o) h;
  Some (SpscOverflow [] 0 (o_pushed o) (o_max_depth o), h).

(** What the allocations of one [spsc_ring_push_or_overflow] return. *)
Record push_alloc := PushAlloc {
  pa_ring : Z;    (** payload copy of [spsc_ring_push], 0 on failure *)
  pa_node : bool; (** the overflow node *)
  pa_data : Z     (** payload copy of the node, 0 on failure *)
}.

(** The part of [spsc_ring_push_or_overflow] after the ring declined. *)
Definition overflow_append (o : spsc_overflow) (h : heap) (pa : push_alloc)
    (entry : spsc_entry) (data : list Z) : Z * spsc_overflow * heap :=
  let data_len := zlen data in
  if negb (pa_node pa) then (-2, o, h)
  else if (0 <? data_len) && (pa_data pa =? 0) then (-2, o, h)
  else
    let node := if 0 <? data_len then entry_set_data entry (pa_data pa) data_len
                else entry_set_data entry (e_data_buf entry) 0 in
    let h := if 0 <? data_len then <[pa_data pa := data]> h else h in
    let depth := u64 (o_depth o + 1) in
    (1, {| o_nodes := o_nodes o ++ [node]; o_depth := depth;
           o_pushed := u64 (o_pushed o + 1);
           o_max_depth := if depth >? o_max_depth o then depth else o_max_depth o |}, h).

Definition spsc_ring_push_or_overflow (r : spsc_ring) (o : spsc_overflow) (h : heap)
    (pa : push_alloc) (entry : spsc_entry) (data : list Z)
    : option (Z * spsc_ring * spsc_overflow * heap) :=
  if o_depth o =? 0 then
    '(rc, r, h) ←
      (if 0 <? zlen data then spsc_ring_push r h (pa_ring pa) entry data
       else '(rc, r) ← spsc_ring_push_borrowed r entry; Some (rc, r, h));
    if (rc =? 0) || (rc =? -2) then Some (rc, r, o, h)
    else
      let '(rc, o, h) := overflow_append o h pa entry data in Some (rc, r, o, h)
  else
    let '(rc, o, h) := overflow_append o h pa entry data in Some (rc, r, o, h).

(** The refill loop; it consumes one node a round, so it recurs on the list. *)
Fixpoint refill_loop (nodes : list spsc_entry) (depth moved : Z) (r : spsc_ring)
    : option (Z * spsc_ring * list spsc_entry * Z) :=
  if negb (depth >? 0) then Some (moved, r, nodes, depth)
  else if u64 (r_tail r - r_head r) >=? r_capacity r then Some (moved, r, nodes, depth)
  else
    match nodes with
    | [] => None
    | node :: nodes =>
        entries ← store_slot (r_entries r) (u32 (Z.land (r_tail r) (r_mask r))) node;
        let bytes := if 0 <? e_data_length node
                     then u64 (r_bytes_pending r + e_data_length node)
                     else r_bytes_pending r in
        refill_loop nodes (u64 (depth - 1)) (u32 (moved + 1)) (ring_publish r entries bytes)
    end.

Definition spsc_ring_refill_from_overflow (r : spsc_ring) (o : spsc_overflow)
    : option (Z * spsc_ring * spsc_overflow) :=
  '(moved, r, nodes, depth) ← refill_loop (o_nodes o) (o_depth o) 0 r;
  Some (moved, r, {| o_nodes := nodes; o_depth := depth; o_pushed := o_pushed o;
                     o_max_depth := o_max_depth o |}).

(** ** The ring as a queue of entries *)

(** [head] and [tail] are compared unwrapped by [spsc_ring_peek], so the relation
    asks that fewer than [2^64] events have passed. *)
Record rq_rep (r : spsc_ring) (H : Z) (q : list spsc_entry) : Prop := {
  rq_ring : ring_rep (r_entries r) (r_capacity r) H q;
  rq_pow2 : is_pow2 (r_capacity r);
  rq_mask : r_mask r = r_capacity r - 1;
  rq_head : r_head r = H;
  rq_tail : r_tail r = H + zlen q;
  rq_nowrap : H + zlen q < 2 ^ 64
}.

Section rq.
Context (r : spsc_ring) (H : Z) (q : list spsc_entry) (R : rq_rep r H q).

Lemma rq_cap : 0 < r_capacity r <= 2 ^ 31.
Proof. apply is_pow2_bounds, R. Qed.

Lemma rq_fit : zlen q <= r_capacity r.
Proof. apply R. Qed.

Lemma rq_start : 0 <= H.
Proof. apply R. Qed.

Lemma rq_used : u64 (r_tail r - r_head r) = zlen q.
Proof.
  rewrite (rq_tail _ _ _ R), (rq_head _ _ _ R). pose proof rq_cap. pose proof rq_fit.
  replace (H + zlen q - H) with (zlen q) by lia. apply u64_small. lia.
Qed.

Lemma rq_count : spsc_ring_count r = zlen q.
Proof.
  unfold spsc_ring_count. rewrite rq_used. apply u32_small.
  pose proof rq_cap. pose proof rq_fit. lia.
Qed.

Lemma rq_mask_slot T : Z.land T (r_mask r) = T mod r_capacity r.
Proof.
  destruct (rq_pow2 _ _ _ R) as (k & Hk & E). rewrite (rq_mask _ _ _ R), E.
  apply land_mask. lia.
Qed.

Lemma rq_store_slot x e : store_slot (r_entries r) (x mod r_capacity r) e
  = Some (<[Z.to_nat (x mod r_capacity r) := e]> (r_entries r)).
Proof.
  pose proof rq_cap as [Hc _]. pose proof (slot_lt (r_capacity r) x Hc).
  unfold store_slot. rewrite (ring_rep_length _ _ _ _ (rq_ring _ _ _ R)).
  by rewrite (proj2 (Z.leb_le _ _)), (proj2 (Z.ltb_lt _ _)) by lia.
Qed.

(** Publishing an entry behind the queue. *)
Lemma rq_publish e b : zlen q < r_capacity r -> H + zlen q + 1 < 2 ^ 64 ->
  ∃ es, store_slot (r_entries r) (u32 (Z.land (r_tail r) (r_mask r))) e = Some es ∧
    rq_rep (ring_publish r es b) H (q ++ [e]).
Proof.
  intros Hlt Hw. pose proof rq_cap as [Hc Hc']. pose proof rq_start.
  pose proof (slot_lt (r_capacity r) (H + zlen q) Hc).
  rewrite rq_mask_slot, u32_small
    by (pose proof (slot_lt (r_capacity r) (r_tail r) Hc); lia).
  rewrite rq_store_slot, (rq_tail _ _ _ R). eexists; split; [done|].
  split; cbn; try apply R.
  - by apply ring_rep_snoc; [apply R|].
  - rewrite (rq_tail _ _ _ R), length_app, u64_small by (cbn; lia). cbn. lia.
  - rewrite length_app. cbn. lia.
Qed.

Lemma rq_peek : spsc_ring_peek r
  = match q with [] => None | _ => Some (H mod r_capacity r) end.
Proof.
  unfold spsc_ring_peek.
  rewrite rq_mask_slot, (rq_head _ _ _ R), (rq_tail _ _ _ R), Z.geb_leb.
  destruct q; case_bool; cbn in *; (done || lia).
Qed.
End rq.

Lemma rq_head_entry r H e q : rq_rep r H (e :: q) ->
  r_entries r !! Z.to_nat (H mod r_capacity r) = Some e.
Proof. intros R. by apply ring_rep_head with q, R. Qed.

Lemma rq_pop r H e q h : rq_rep r H (e :: q) ->
  (entry_owns e = true -> is_Some (h !! e_data_buf e)) ->
  ∃ r', spsc_ring_pop r h
    = Some (r', if entry_owns e then delete (e_data_buf e) h else h) ∧
    rq_rep r' (H + 1) q ∧ r_capacity r' = r_capacity r ∧
    r_bytes_pending r' = if entry_owns e then u64 (r_bytes_pending r - e_data_length e)
                         else r_bytes_pending r.
Proof.
  intros R Hown. pose proof (rq_start _ _ _ R). pose proof (rq_nowrap _ _ _ R) as Hw.
  cbn [length] in Hw.
  unfold spsc_ring_pop. rewrite (rq_mask_slot _ _ _ R), (rq_head _ _ _ R).
  rewrite (rq_head_entry _ _ _ _ R). cbn.
  rewrite (u64_small (H + 1)) by lia.
  destruct (entry_owns e) eqn:Eo.
  - destruct (Hown eq_refl) as [bs Hbs]. unfold c_free.
    unfold entry_owns in Eo. apply andb_true_iff in Eo as [Eo _].
    apply negb_true_iff in Eo. rewrite Eo, Hbs. cbn.
    rewrite (rq_store_slot _ _ _ R). cbn.
    eexists; split; [done|]. split; [|done].
    split; cbn; try apply R.
    + eapply ring_rep_tail. apply (ring_rep_set_head _ _ _ _ _ _ (rq_ring _ _ _ R)).
    + done.
    + rewrite (rq_tail _ _ _ R). cbn. lia.
    + lia.
  - eexists; split; [done|]. split; [|done].
    split; cbn; try apply R.
    + eapply ring_rep_tail, R.
    + done.
    + rewrite (rq_tail _ _ _ R). cbn. lia.
    + lia.
Qed.

Lemma spsc_ring_create_spec capacity : is_pow2 capacity ->
  ∃ r, spsc_ring_create true true capacity = Some r ∧ rq_rep r 0 [] ∧
    r_capacity r = capacity ∧ r_bytes_pending r = 0.
Proof.
  intros Hp. pose proof (is_pow2_bounds _ Hp). destruct Hp as (k & Hk & ->).
  unfold spsc_ring_create. rewrite (u32_small (2 ^ k - 1)) by lia.
  rewrite land_mask, Z.mod_same by lia.
  eexists; split; [done|]. split; [|done].
  split; cbn; try done; [|by exists k].
  assert (E : zlen (replicate (Z.to_nat (2 ^ k)) entry0) = 2 ^ k)
    by (rewrite length_replicate; lia).
  rewrite <- E at 2. apply ring_rep_empty; lia.
Qed.
