(* ===== verification/EventChannel.v ===== *)
(** * The event channel: ring plus overflow (spsc_ring.h)

    [spsc_ring_push_or_overflow], [spsc_ring_refill_from_overflow],
    [spsc_ring_peek]/[spsc_ring_pop] together promise one FIFO channel that
    loses nothing.  [chan_rep] relates the ring, the overflow and the payload
    heap to the list of messages in flight; the theorems state order, ownership
    of payloads and the accounting of [bytes_pending]. *)
From S2P Require Import Prelude Ring StreamBuf SpscRing.

(** ** Messages *)

(** What a consumer sees of an entry: its fields without the payload address,
    and the payload bytes of an owned buffer. *)
Abbreviation msg := (spsc_entry * list Z)%type.

Definition view (h : heap) (e : spsc_entry) : option msg :=
  if entry_owns e then
    bs ← h !! e_data_buf e;
    if zlen bs =? e_data_length e
    then Some (entry_set_data e 0 (e_data_length e), bs) else None
  else Some (e, []).

(** The message a push of [entry] with payload [data] stands for. *)
Definition sent (entry : spsc_entry) (data : list Z) : msg :=
  if 0 <? zlen data then (entry_set_data entry 0 (zlen data), data) else (entry, []).

Definition owned_buf (e : spsc_entry) : option Z :=
  if entry_owns e then Some (e_data_buf e) else None.

(** Addresses owned by a list of entries. *)
Definition owned (es : list spsc_entry) : list Z := omap owned_buf es.

Definition owned_len (e : spsc_entry) : Z :=
  if entry_owns e then e_data_length e else 0.

Definition owned_bytes (es : list spsc_entry) : Z := foldr (λ e s, owned_len e + s) 0 es.

Lemma owned_app xs ys : owned (xs ++ ys) = owned xs ++ owned ys.
Proof. apply omap_app. Qed.

Lemma owned_bytes_app xs ys : owned_bytes (xs ++ ys) = owned_bytes xs + owned_bytes ys.
Proof. unfold owned_bytes. induction xs; cbn in *; lia. Qed.

Lemma owned_bytes_cons e es : owned_bytes (e :: es) = owned_len e + owned_bytes es.
Proof. done. Qed.

Lemma owned_bytes_one e : owned_bytes [e] = owned_len e.
Proof. unfold owned_bytes. cbn. lia. Qed.

Arguments owned_bytes : simpl never.
Arguments owned_len : simpl never.

(** A borrowed push follows the convention: no payload, no length. *)
Definition borrow_ok (entry : spsc_entry) (data : list Z) : Prop :=
  data = [] -> e_data_length entry = 0.

Lemma entry_owns_set_data e p n : entry_owns (entry_set_data e p n)
  = negb (p =? 0) && (0 <? n).
Proof. done. Qed.

Lemma view_sent h entry p data : p <> 0 -> 0 < zlen data -> h !! p = Some data ->
  view h (entry_set_data entry p (zlen data)) = Some (sent entry data).
Proof.
  intros Hp Hd Hh. unfold view, sent. rewrite entry_owns_set_data.
  rewrite (proj2 (Z.eqb_neq p 0)), (proj2 (Z.ltb_lt 0 _)) by lia. cbn.
  rewrite Hh. cbn. by rewrite Z.eqb_refl.
Qed.

Lemma entry_set_data_id e : e_data_length e = 0 ->
  entry_set_data e (e_data_buf e) 0 = e.
Proof. destruct e; cbn; by intros ->. Qed.

Lemma view_unowned h e : entry_owns e = false -> view h e = Some (e, []).
Proof. unfold view. by intros ->. Qed.

Lemma entry_owns_no_length e : e_data_length e = 0 -> entry_owns e = false.
Proof. unfold entry_owns. intros ->. by rewrite andb_false_r. Qed.

Lemma view_insert h p d e m : h !! p = None -> view h e = Some m ->
  view (<[p := d]> h) e = Some m.
Proof.
  unfold view. intros Hp. destruct (entry_owns e); [|done].
  destruct (decide (e_data_buf e = p)) as [->|Hne]; [by rewrite Hp|].
  by rewrite lookup_insert_ne.
Qed.

Lemma view_delete h p e : p ∉ owned [e] -> view (delete p h) e = view h e.
Proof.
  unfold view, owned; cbn; unfold owned_buf.
  destruct (entry_owns e); [|done]. intros Hp.
  rewrite lookup_delete_ne; [done|]. intros ->. apply Hp. constructor.
Qed.

(** ** The representation relation *)

Record chan := Chan {
  c_ring : spsc_ring;
  c_ovf : spsc_overflow;
  c_heap : heap
}.

(** [h0]: the heap outside the channel; [q1]/[q2]: entries in ring/overflow;
    [ms]: the messages they carry. *)
Record chan_rep (h0 : heap) (c : chan) (H : Z) (q1 q2 : list spsc_entry)
    (ms : list msg) : Prop := {
  cr_ring : rq_rep (c_ring c) H q1;
  cr_nodes : o_nodes (c_ovf c) = q2;
  cr_depth : o_depth (c_ovf c) = zlen q2;
  cr_view : Forall2 (λ e m, view (c_heap c) e = Some m) (q1 ++ q2) ms;
  cr_nodup : NoDup (owned (q1 ++ q2));
  cr_frame : ∀ p, p ∉ owned (q1 ++ q2) -> c_heap c !! p = h0 !! p;
  cr_outside : ∀ p, p ∈ owned (q1 ++ q2) -> h0 !! p = None;
  cr_spilled : Forall (λ e, entry_owns e = true ∨ e_data_length e = 0) q2;
  cr_bytes : r_bytes_pending (c_ring c) = u64 (owned_bytes q1);
  cr_total : H + zlen q1 + zlen q2 < 2 ^ 64
}.

(** Addresses [malloc] returns are not those of live blocks. *)
Definition alloc_fresh (h : heap) (pa : push_alloc) : Prop :=
  (pa_ring pa <> 0 -> h !! pa_ring pa = None) ∧
  (pa_data pa <> 0 -> h !! pa_data pa = None).

Section lemmas.
Context {h0 : heap} {c : chan} {H : Z} {q1 q2 : list spsc_entry} {ms : list msg}.
Context (R : chan_rep h0 c H q1 q2 ms).

(** A fresh address lies outside everything the channel owns. *)
Lemma chan_fresh p : c_heap c !! p = None ->
  (p ∉ owned (q1 ++ q2)) ∧ h0 !! p = None.
Proof.
  intros Hp. assert (Hn : p ∉ owned (q1 ++ q2)).
  { unfold owned. intros Hin. apply list_elem_of_omap in Hin as (e & He & Eb).
    unfold owned_buf in Eb. destruct (entry_owns e) eqn:Eo; [|done]. simplify_eq.
    apply list_elem_of_lookup in He as [i Hi].
    destruct (Forall2_lookup_l _ _ _ _ _ (cr_view _ _ _ _ _ _ R) Hi) as (m & _ & Hv).
    unfold view in Hv. by rewrite Eo, Hp in Hv. }
  split; [done|]. by rewrite <- (cr_frame _ _ _ _ _ _ R).
Qed.

Lemma chan_head_block e q1' : q1 = e :: q1' -> entry_owns e = true ->
  is_Some (c_heap c !! e_data_buf e).
Proof.
  intros -> Eo. pose proof (cr_view _ _ _ _ _ _ R) as Hv.
  apply Forall2_cons_inv_l in Hv as (m & ms' & Hv & _ & _).
  unfold view in Hv. rewrite Eo in Hv. destruct (c_heap c !! e_data_buf e); [done|].
  discriminate.
Qed.

(** Entry [e], carrying message [m], comes with heap [h']: nothing new for a
    borrowed pointer, a fresh block for an owned payload. *)
Definition adds (h h' : heap) (e : spsc_entry) (m : msg) : Prop :=
  (entry_owns e = false ∧ h' = h ∧ m = (e, [])) ∨
  (∃ data, entry_owns e = true ∧ h !! e_data_buf e = None ∧
     h' = <[e_data_buf e := data]> h ∧ view h' e = Some m).

(** The heap side of appending an entry behind everything in flight. *)
Lemma chan_adds h' e m : adds (c_heap c) h' e m ->
  Forall2 (λ e m, view h' e = Some m) ((q1 ++ q2) ++ [e]) (ms ++ [m]) ∧
  NoDup (owned ((q1 ++ q2) ++ [e])) ∧
  (∀ p, p ∉ owned ((q1 ++ q2) ++ [e]) -> h' !! p = h0 !! p) ∧
  (∀ p, p ∈ owned ((q1 ++ q2) ++ [e]) -> h0 !! p = None).
Proof.
  rewrite owned_app. intros [(Eo & -> & ->)|(data & Eo & Hf & -> & Hv)];
    cbn; unfold owned_buf; rewrite Eo.
  - rewrite app_nil_r. split_and!; [|apply R..].
    apply Forall2_app; [apply R|]. by repeat constructor; apply view_unowned.
  - destruct (chan_fresh _ Hf) as [Hout Hh0]. split_and!.
    + apply Forall2_app; [|by repeat constructor].
      eapply Forall2_impl; [apply R|]. intros. by apply view_insert.
    + apply NoDup_app. split_and!; [apply R| |apply NoDup_singleton].
      intros p Hp Hp'%list_elem_of_singleton. by subst.
    + intros p [Hp Hne]%not_elem_of_app. rewrite lookup_insert_ne; [by apply R|].
      intros <-. apply Hne. constructor.
    + intros p [Hp|Hp%list_elem_of_singleton]%elem_of_app; [by apply R|by subst].
Qed.
End lemmas.

Lemma adds_owned h entry p data : p <> 0 -> 0 < zlen data -> h !! p = None ->
  adds h (<[p := data]> h) (entry_set_data entry p (zlen data)) (sent entry data).
Proof.
  intros Hp Hd Hf. right. exists data. rewrite entry_owns_set_data.
  rewrite (proj2 (Z.eqb_neq p 0)), (proj2 (Z.ltb_lt 0 _)) by lia.
  split_and!; try done. apply view_sent; try done. apply lookup_insert_eq.
Qed.

Lemma adds_borrowed h entry : e_data_length entry = 0 -> adds h h entry (sent entry []).
Proof. intros. left. by rewrite entry_owns_no_length. Qed.

(** ** The ring branch of a push *)

Lemma chan_ring_append h0 c H q1 ms h' e m b :
  chan_rep h0 c H q1 [] ms -> adds (c_heap c) h' e m ->
  b = u64 (owned_bytes (q1 ++ [e])) ->
  zlen q1 < r_capacity (c_ring c) -> H + zlen q1 + 1 < 2 ^ 64 ->
  ∃ es, store_slot (r_entries (c_ring c))
          (u32 (Z.land (r_tail (c_ring c)) (r_mask (c_ring c)))) e = Some es ∧
    chan_rep h0 (Chan (ring_publish (c_ring c) es b) (c_ovf c) h') H (q1 ++ [e]) []
      (ms ++ [m]).
Proof.
  intros R Ha -> Hlt Hw.
  destruct (rq_publish _ _ _ (cr_ring _ _ _ _ _ _ R) e
    (u64 (owned_bytes (q1 ++ [e]))) Hlt Hw) as (es & -> & R').
  destruct (chan_adds R h' e m Ha) as (H1 & H2 & H3 & H4).
  rewrite app_nil_r in *. exists es. split; [done|].
  split; cbn; rewrite ?app_nil_r; try done; try apply R.
  rewrite length_app. cbn. lia.
Qed.

Lemma chan_ovf_append h0 c H q1 q2 ms h' e m :
  chan_rep h0 c H q1 q2 ms -> adds (c_heap c) h' e m ->
  (entry_owns e = true ∨ e_data_length e = 0) ->
  H + zlen q1 + zlen q2 + 1 < 2 ^ 64 ->
  chan_rep h0 (Chan (c_ring c)
    {| o_nodes := o_nodes (c_ovf c) ++ [e]; o_depth := u64 (o_depth (c_ovf c) + 1);
       o_pushed := u64 (o_pushed (c_ovf c) + 1);
       o_max_depth := if u64 (o_depth (c_ovf c) + 1) >? o_max_depth (c_ovf c)
                      then u64 (o_depth (c_ovf c) + 1) else o_max_depth (c_ovf c) |} h')
    H q1 (q2 ++ [e]) (ms ++ [m]).
Proof.
  intros R Ha He Hw. destruct (chan_adds R h' e m Ha) as (H1 & H2 & H3 & H4).
  pose proof (rq_start _ _ _ (cr_ring _ _ _ _ _ _ R)).
  rewrite <- app_assoc in *. split; cbn; try done; try apply R.
  - f_equal. apply R.
  - rewrite (cr_depth _ _ _ _ _ _ R), u64_small, length_app by lia. cbn. lia.
  - apply Forall_app. split; [apply R|by apply Forall_singleton].
  - rewrite length_app. cbn. lia.
Qed.

(** ** The operations on a channel *)

Definition chan_push (c : chan) (pa : push_alloc) (entry : spsc_entry) (data : list Z)
    : option (Z * chan) :=
  '(rc, r, o, h) ← spsc_ring_push_or_overflow (c_ring c) (c_ovf c) (c_heap c) pa entry data;
  Some (rc, Chan r o h).

Definition chan_refill (c : chan) : option (Z * chan) :=
  '(moved, r, o) ← spsc_ring_refill_from_overflow (c_ring c) (c_ovf c);
  Some (moved, Chan r o (c_heap c)).

(** [spsc_ring_peek] followed by [spsc_ring_pop]: what the consumer saw. *)
Definition chan_pop (c : chan) : option (option msg * chan) :=
  match spsc_ring_peek (c_ring c) with
  | None => Some (None, c)
  | Some slot =>
      e ← r_entries (c_ring c) !! Z.to_nat slot;
      m ← view (c_heap c) e;
      '(r, h) ← spsc_ring_pop (c_ring c) (c_heap c);
      Some (Some m, Chan r (c_ovf c) h)
  end.

(** [spsc_ring_destroy] and [spsc_overflow_destroy]: the heap they leave. *)
Definition chan_destroy (c : chan) : option heap :=
  '(_, h) ← spsc_overflow_destroy (c_ovf c) (c_heap c);
  spsc_ring_destroy (c_ring c) h.

(** Some allocation the push may need fails. *)
Definition alloc_failed (pa : push_alloc) (data : list Z) : Prop :=
  pa_node pa = false ∨ (0 < zlen data ∧ (pa_ring pa = 0 ∨ pa_data pa = 0)).

(** The outcome of a push, by branch. *)
Inductive push_outcome (h0 : heap) (c : chan) (H : Z) (q1 q2 : list spsc_entry)
    (ms : list msg) (pa : push_alloc) (m : msg) (data : list Z) : Z -> chan -> Prop :=
  | push_in_ring c' e :
      q2 = [] -> zlen q1 < r_capacity (c_ring c) ->
      r_capacity (c_ring c') = r_capacity (c_ring c) ->
      chan_rep h0 c' H (q1 ++ [e]) [] (ms ++ [m]) ->
      push_outcome h0 c H q1 q2 ms pa m data 0 c'
  | push_in_overflow c' e :
      q2 <> [] ∨ zlen q1 = r_capacity (c_ring c) ->
      r_capacity (c_ring c') = r_capacity (c_ring c) ->
      chan_rep h0 c' H q1 (q2 ++ [e]) (ms ++ [m]) ->
      push_outcome h0 c H q1 q2 ms pa m data 1 c'
  | push_no_memory :
      alloc_failed pa data -> push_outcome h0 c H q1 q2 ms pa m data (-2) c.

Lemma owned_len_set_data e p n : p <> 0 -> 0 <= n ->
  owned_len (entry_set_data e p n) = n.
Proof.
  intros Hp Hn. unfold owned_len. rewrite entry_owns_set_data.
  rewrite (proj2 (Z.eqb_neq p 0)) by lia. cbn. case_bool; cbn; lia.
Qed.

Lemma owned_len_unowned e : entry_owns e = false -> owned_len e = 0.
Proof. unfold owned_len. by intros ->. Qed.

Lemma overflow_append_spec h0 c H q1 q2 ms pa entry data :
  chan_rep h0 c H q1 q2 ms -> alloc_fresh (c_heap c) pa -> borrow_ok entry data ->
  H + zlen q1 + zlen q2 + 1 < 2 ^ 64 ->
  q2 <> [] ∨ zlen q1 = r_capacity (c_ring c) ->
  ∃ rc o h, overflow_append (c_ovf c) (c_heap c) pa entry data = (rc, o, h) ∧
    push_outcome h0 c H q1 q2 ms pa (sent entry data) data rc (Chan (c_ring c) o h).
Proof.
  intros R [_ Hf] Hb Hw Hc. unfold overflow_append.
  assert (Eta : Chan (c_ring c) (c_ovf c) (c_heap c) = c) by by destruct c.
  destruct (pa_node pa) eqn:En; cbn.
  2: { do 3 eexists. split; [done|]. rewrite Eta. apply push_no_memory. by left. }
  destruct (Z.ltb_spec 0 (zlen data)) as [Hd|Hd]; cbn.
  - destruct (Z.eqb_spec (pa_data pa) 0) as [Hz|Hz].
    { do 3 eexists. split; [done|]. rewrite Eta. apply push_no_memory. right. auto. }
    do 3 eexists. split; [done|].
    eapply push_in_overflow; [done|done|]. apply chan_ovf_append; try done.
    + apply adds_owned; auto.
    + left. rewrite entry_owns_set_data.
      by rewrite (proj2 (Z.eqb_neq _ 0)), (proj2 (Z.ltb_lt 0 _)) by lia.
  - destruct data; [|cbn in Hd; lia]. specialize (Hb eq_refl).
    rewrite entry_set_data_id by done.
    do 3 eexists. split; [done|].
    eapply push_in_overflow; [done|done|]. apply chan_ovf_append; try done.
    + by apply adds_borrowed.
    + by right.
Qed.

Lemma chan_push_spec h0 c H q1 q2 ms pa entry data :
  chan_rep h0 c H q1 q2 ms -> alloc_fresh (c_heap c) pa -> borrow_ok entry data ->
  H + zlen q1 + zlen q2 + 1 < 2 ^ 64 ->
  ∃ rc c', chan_push c pa entry data = Some (rc, c') ∧
    push_outcome h0 c H q1 q2 ms pa (sent entry data) data rc c'.
Proof.
  intros R Hf Hb Hw. unfold chan_push, spsc_ring_push_or_overflow.
  pose proof (cr_ring _ _ _ _ _ _ R) as Rr. pose proof (rq_fit _ _ _ Rr) as Hfit.
  assert (Eta : Chan (c_ring c) (c_ovf c) (c_heap c) = c) by by destruct c.
  rewrite (cr_depth _ _ _ _ _ _ R).
  destruct q2 as [|e2 q2']; cbn -[overflow_append].
  2: { destruct (overflow_append_spec _ _ _ _ _ _ pa entry data R Hf Hb Hw)
         as (rc & o & h & -> & Hout); [by left|]. cbn. eauto. }
  unfold spsc_ring_push, spsc_ring_push_borrowed.
  rewrite (rq_used _ _ _ Rr), Z.geb_leb.
  destruct (Z.leb_spec (r_capacity (c_ring c)) (zlen q1)) as [Hfull|Hroom].
  { (* ring full: the overflow takes it *)
    destruct (overflow_append_spec _ _ _ _ _ _ pa entry data R Hf Hb Hw)
      as (rc & o & h & E & Hout); [right; lia|].
    exists rc, (Chan (c_ring c) o h). split; [|done].
    destruct (0 <? zlen data); cbn -[overflow_append]; by rewrite E. }
  cbn in Hw.
  destruct (Z.ltb_spec 0 (zlen data)) as [Hd|Hd]; cbn -[overflow_append].
  - destruct (Z.eqb_spec (pa_ring pa) 0) as [Hz|Hz]; cbn -[overflow_append].
    { do 2 eexists. split; [done|]. rewrite Eta. apply push_no_memory. right. auto. }
    rewrite (proj2 (Z.ltb_lt 0 _)) by lia.
    destruct (chan_ring_append h0 c H q1 ms (<[pa_ring pa:=data]> (c_heap c))
      (entry_set_data entry (pa_ring pa) (zlen data)) (sent entry data)
      (u64 (r_bytes_pending (c_ring c) + zlen data))) as (es & -> & R');
      [done|apply adds_owned; [done|done|by apply Hf]| |done|lia|].
    { rewrite (cr_bytes _ _ _ _ _ _ R), u64_add_l, owned_bytes_app, owned_bytes_one.
      rewrite owned_len_set_data by lia. done. }
    cbn. do 2 eexists. split; [done|]. eapply push_in_ring; done.
  - destruct data; [|cbn in Hd; lia]. specialize (Hb eq_refl).
    destruct (chan_ring_append h0 c H q1 ms (c_heap c) entry (sent entry [])
      (r_bytes_pending (c_ring c))) as (es & -> & R');
      [done|by apply adds_borrowed| |done|lia|].
    { rewrite owned_bytes_app, owned_bytes_one.
      rewrite owned_len_unowned by (by apply entry_owns_no_length).
      rewrite (cr_bytes _ _ _ _ _ _ R). f_equal. lia. }
    cbn. do 2 eexists. split; [done|]. eapply push_in_ring; done.
Qed.

Lemma owned_cons e es : owned (e :: es)
  = (if entry_owns e then [e_data_buf e] else []) ++ owned es.
Proof. unfold owned; cbn; unfold owned_buf. by destruct (entry_owns e). Qed.

Lemma chan_pop_spec h0 c H e q1 q2 m ms :
  chan_rep h0 c H (e :: q1) q2 (m :: ms) ->
  ∃ c', chan_pop c = Some (Some m, c') ∧ chan_rep h0 c' (H + 1) q1 q2 ms ∧
    r_capacity (c_ring c') = r_capacity (c_ring c).
Proof.
  intros R. pose proof (cr_ring _ _ _ _ _ _ R) as Rr. unfold chan_pop.
  rewrite (rq_peek _ _ _ Rr), (rq_head_entry _ _ _ _ Rr). cbn.
  destruct (proj1 (Forall2_cons _ _ _ _ _) (cr_view _ _ _ _ _ _ R)) as [Hv Hvs].
  rewrite Hv. cbn.
  destruct (rq_pop _ _ _ _ (c_heap c) Rr) as (r' & -> & Rr' & Ec & Eb).
  { by eapply chan_head_block. }
  cbn. eexists; split; [done|]. split; [|done].
  pose proof (cr_nodup _ _ _ _ _ _ R) as Hnd. pose proof (cr_frame _ _ _ _ _ _ R) as Hfr.
  pose proof (cr_outside _ _ _ _ _ _ R) as Hou.
  change ((e :: q1) ++ q2) with (e :: (q1 ++ q2)) in *.
  rewrite owned_cons in Hnd, Hfr, Hou.
  pose proof (cr_bytes _ _ _ _ _ _ R) as Hby.
  rewrite owned_bytes_cons in Hby. unfold owned_len in Hby.
  pose proof (cr_total _ _ _ _ _ _ R) as Ht. cbn in Ht.
  destruct (entry_owns e) eqn:Eo.
  - cbn in *. apply NoDup_cons in Hnd as [Hnin Hnd].
    split; cbn; try done; try apply R; [| | | |lia].
    + apply Forall2_same_length_lookup_2; [by eapply Forall2_length|].
      intros i e' m' He' Hm'. rewrite view_delete; [exact (Forall2_lookup_lr _ _ _ _ _ _ Hvs He' Hm')|].
      unfold owned; cbn. unfold owned_buf. destruct (entry_owns e') eqn:Eo'; [|set_solver].
      intros Heq%list_elem_of_singleton. apply Hnin. rewrite Heq.
      unfold owned. apply list_elem_of_omap. exists e'.
      split; [by eapply list_elem_of_lookup_2|]. unfold owned_buf. by rewrite Eo'.
    + intros p Hp. destruct (decide (p = e_data_buf e)) as [->|Hne].
      * rewrite lookup_delete_eq. symmetry. apply Hou. constructor.
      * rewrite lookup_delete_ne by done. apply Hfr. by apply not_elem_of_cons.
    + intros p Hp. apply Hou. by constructor.
    + rewrite Eb, Hby. unfold u64. rewrite Zminus_mod_idemp_l. f_equal. lia.
  - cbn in *. split; cbn; try done; try apply R; [|lia].
    rewrite Eb, Hby. done.
Qed.

Lemma chan_pop_empty h0 c H q2 ms : chan_rep h0 c H [] q2 ms ->
  chan_pop c = Some (None, c).
Proof.
  intros R. unfold chan_pop. by rewrite (rq_peek _ _ _ (cr_ring _ _ _ _ _ _ R)).
Qed.

(** ** Refill *)

(** How many nodes a refill moves. *)
Definition refill_count (cap : Z) (q1 q2 : list spsc_entry) : Z :=
  Z.min (cap - zlen q1) (zlen q2).

Lemma refill_loop_spec h0 h pu md H ms q2 : ∀ r q1 moved,
  chan_rep h0 (Chan r (SpscOverflow q2 (zlen q2) pu md) h) H q1 q2 ms ->
  0 <= moved -> moved + (r_capacity r - zlen q1) < 2 ^ 32 ->
  let k := refill_count (r_capacity r) q1 q2 in
  let q2' := drop (Z.to_nat k) q2 in
  ∃ r', refill_loop q2 (zlen q2) moved r = Some (moved + k, r', q2', zlen q2') ∧
    chan_rep h0 (Chan r' (SpscOverflow q2' (zlen q2') pu md) h) H
      (q1 ++ take (Z.to_nat k) q2) q2' ms ∧
    r_capacity r' = r_capacity r.
Proof.
  induction q2 as [|e q2 IH]; intros r q1 moved R Hm Hcap k q2'; subst k q2'.
  - exists r. pose proof (rq_fit _ _ _ (cr_ring _ _ _ _ _ _ R)) as Hf. cbn in Hf.
    unfold refill_count. cbn. rewrite Z.min_r by lia. cbn.
    rewrite app_nil_r, Z.add_0_r. done.
  - pose proof (cr_ring _ _ _ _ _ _ R) as Rr. cbn in Rr.
    pose proof (rq_fit _ _ _ Rr) as Hf. cbn in Hf.
    pose proof (cr_total _ _ _ _ _ _ R) as Ht. cbn [length] in Ht.
    pose proof (rq_start _ _ _ Rr) as Hs.
    cbn [refill_loop]. rewrite Z.gtb_ltb, (proj2 (Z.ltb_lt 0 _)) by (cbn; lia).
    rewrite (rq_used _ _ _ Rr), Z.geb_leb. cbn [negb].
    destruct (Z.leb_spec (r_capacity r) (zlen q1)) as [Hfull|Hroom].
    + exists r. unfold refill_count. rewrite Z.min_l by (cbn; lia).
      replace (r_capacity r - zlen q1) with 0 by lia. cbn.
      rewrite app_nil_r, Z.add_0_r. done.
    + set (b := if 0 <? e_data_length e then _ else _).
      destruct (rq_publish _ _ _ Rr e b) as (es & -> & Rr'); [done|lia|]. cbn [mbind option_bind].
      pose proof (cr_spilled _ _ _ _ _ _ R) as Hsp. apply Forall_cons in Hsp as [He Hsp].
      assert (R' : chan_rep h0 (Chan (ring_publish r es b)
                     (SpscOverflow q2 (zlen q2) pu md) h) H (q1 ++ [e]) q2 ms).
      { pose proof (cr_view _ _ _ _ _ _ R) as Hv. pose proof (cr_nodup _ _ _ _ _ _ R) as Hnd.
        pose proof (cr_frame _ _ _ _ _ _ R) as Hfr. pose proof (cr_outside _ _ _ _ _ _ R) as Hou.
        rewrite cons_middle, app_assoc in Hv, Hnd, Hfr, Hou.
        split; cbn; try done.
        - subst b. rewrite owned_bytes_app, owned_bytes_one. unfold owned_len.
          pose proof (cr_bytes _ _ _ _ _ _ R) as Hby. cbn in Hby.
          destruct He as [Eo|Eo].
          + rewrite Eo. unfold entry_owns in Eo. apply andb_true_iff in Eo as [_ Eo].
            by rewrite Eo, Hby, u64_add_l.
          + rewrite (entry_owns_no_length _ Eo), Eo. cbn. rewrite Hby. f_equal. lia.
        - rewrite length_app. cbn. lia. }
      destruct (IH (ring_publish r es b) (q1 ++ [e]) (u32 (moved + 1)) R')
        as (r' & E & R'' & Ec);
        [apply u32_range|rewrite length_app, u32_small; cbn; lia|].
      exists r'. rewrite u64_small by (cbn; lia).
      replace (zlen (e :: q2) - 1) with (zlen q2) by (cbn; lia).
      rewrite E, u32_small by lia. cbn [ring_publish r_capacity] in *.
      unfold refill_count in *. rewrite length_app in *. cbn [length] in *.
      set (k0 := Z.min (r_capacity r - Z.of_nat (length q1 + 1)) (zlen q2)) in *.
      replace (Z.min (r_capacity r - zlen q1) (Z.of_nat (S (length q2)))) with (k0 + 1) by lia.
      replace (Z.to_nat (k0 + 1)) with (S (Z.to_nat k0)) by lia.
      cbn [take drop]. rewrite <- app_assoc in R''. split; [|done].
      do 4 f_equal. lia.
Qed.

Lemma chan_refill_spec h0 c H q1 q2 ms :
  chan_rep h0 c H q1 q2 ms ->
  let k := refill_count (r_capacity (c_ring c)) q1 q2 in
  ∃ c', chan_refill c = Some (k, c') ∧
    chan_rep h0 c' H (q1 ++ take (Z.to_nat k) q2) (drop (Z.to_nat k) q2) ms ∧
    r_capacity (c_ring c') = r_capacity (c_ring c).
Proof.
  intros R k. pose proof (rq_cap _ _ _ (cr_ring _ _ _ _ _ _ R)).
  unfold chan_refill, spsc_ring_refill_from_overflow.
  destruct c as [r [nodes depth pu md] h]. cbn in *.
  pose proof (cr_nodes _ _ _ _ _ _ R) as E1. pose proof (cr_depth _ _ _ _ _ _ R) as E2.
  cbn in E1, E2. subst nodes depth.
  destruct (refill_loop_spec h0 h pu md H ms q2 r q1 0 R) as (r' & -> & R' & Ec); [lia..|].
  cbn. eexists; split; [done|]. done.
Qed.

(** ** Destruction *)

Lemma free_nodes_spec es : ∀ h,
  NoDup (owned es) -> (∀ p, p ∈ owned es -> is_Some (h !! p)) ->
  ∃ h', free_nodes es h = Some h' ∧
    ∀ p, h' !! p = if decide (p ∈ owned es) then None else h !! p.
Proof.
  induction es as [|e es IH]; intros h Hnd Hin; cbn [free_nodes].
  { exists h. split; [done|]. intros p. rewrite decide_False; [done|]. set_solver. }
  rewrite owned_cons in *. unfold c_free.
  destruct (entry_owns e) eqn:Eo; cbn [app] in *.
  - apply NoDup_cons in Hnd as [Hn Hnd].
    destruct (Hin (e_data_buf e)) as [bs Hbs]; [by constructor|].
    unfold entry_owns in Eo. apply andb_true_iff in Eo as [Eo _].
    apply negb_true_iff in Eo. rewrite Eo, Hbs. cbn.
    destruct (IH (delete (e_data_buf e) h)) as (h' & -> & Hh'); [done| |].
    { intros p Hp. rewrite lookup_delete_ne by (intros ?; subst; done).
      apply Hin. by constructor. }
    exists h'. split; [done|]. intros p. rewrite Hh'.
    destruct (decide (p = e_data_buf e)) as [->|Hne].
    + rewrite (decide_False (P := _ ∈ owned es)), lookup_delete_eq by done.
      by rewrite decide_True by constructor.
    + rewrite lookup_delete_ne by done.
      apply decide_ext. rewrite elem_of_cons. clear -Hne. tauto.
  - cbn. by apply IH.
Qed.

(** The loop over the slots frees what the queue owns. *)
Lemma destroy_loop_spec r H q : ∀ h,
  rq_rep r H q -> destroy_loop (length q) r H h = free_nodes q h.
Proof.
  intros h [Rr Hp Hm _ _ Hw]. destruct Hp as (k & Hk & Ek). revert H h Rr Hw.
  induction q as [|e q IH]; intros H h Rr Hw; [done|]. cbn [length destroy_loop free_nodes].
  rewrite Hm, Ek, land_mask, <- Ek by lia.
  rewrite (ring_rep_head _ _ _ _ _ Rr). cbn [mbind option_bind].
  pose proof (rr_start _ _ _ _ Rr). cbn [length] in Hw. rewrite u64_small by lia.
  destruct (if entry_owns e then _ else _) as [h'|]; cbn; [|done].
  apply IH; [by eapply ring_rep_tail|lia].
Qed.

Lemma chan_destroy_spec h0 c H q1 q2 ms : chan_rep h0 c H q1 q2 ms ->
  chan_destroy c = Some h0.
Proof.
  intros R. pose proof (cr_ring _ _ _ _ _ _ R) as Rr.
  pose proof (cr_nodup _ _ _ _ _ _ R) as Hnd. rewrite owned_app in Hnd.
  apply NoDup_app in Hnd as (Hn1 & Hdis & Hn2).
  assert (Hlive : ∀ p, p ∈ owned (q1 ++ q2) -> is_Some (c_heap c !! p)).
  { intros p Hp. destruct (c_heap c !! p) eqn:E; [done|exfalso].
    by destruct (chan_fresh R p E). }
  unfold chan_destroy, spsc_overflow_destroy, spsc_ring_destroy.
  rewrite (cr_nodes _ _ _ _ _ _ R).
  destruct (free_nodes_spec q2 (c_heap c)) as (h2 & -> & E2); [done| |].
  { intros p Hp. apply Hlive. rewrite owned_app. set_solver. }
  cbn. rewrite (rq_tail _ _ _ Rr), (rq_head _ _ _ Rr).
  replace (Z.to_nat (H + zlen q1 - H)) with (length q1) by lia.
  rewrite (destroy_loop_spec _ _ _ _ Rr).
  destruct (free_nodes_spec q1 h2) as (h1 & -> & E1); [done| |].
  { intros p Hp. rewrite E2, decide_False by (by apply Hdis).
    apply Hlive. rewrite owned_app. set_solver. }
  f_equal. apply map_eq. intros p. rewrite E1, E2.
  destruct (decide (p ∈ owned (q1 ++ q2))) as [Hin|Hout].
  - rewrite (cr_outside _ _ _ _ _ _ R p Hin). rewrite owned_app in Hin.
    apply elem_of_app in Hin as [Hin|Hin].
    + by rewrite decide_True.
    + rewrite (decide_True (P := p ∈ owned q2)) by done. by destruct (decide _).
  - rewrite <- (cr_frame _ _ _ _ _ _ R p Hout). rewrite owned_app in Hout.
    rewrite !decide_False by set_solver. done.
Qed.

(** ** Runs of a channel *)

Inductive chan_label :=
  | LPush (entry : spsc_entry) (data : list Z) (rc : Z)
  | LPop (m : option msg)
  | LRefill (moved : Z).

(** One call on the channel; pushes obey the borrowed-pointer convention and
    [malloc] returns fresh blocks or fails. *)
Inductive chan_step (c : chan) : chan_label -> chan -> Prop :=
  | step_push pa entry data rc c' :
      borrow_ok entry data -> alloc_fresh (c_heap c) pa ->
      chan_push c pa entry data = Some (rc, c') ->
      chan_step c (LPush entry data rc) c'
  | step_pop m c' :
      chan_pop c = Some (m, c') -> chan_step c (LPop m) c'
  | step_refill moved c' :
      chan_refill c = Some (moved, c') -> chan_step c (LRefill moved) c'.

Inductive chan_steps : chan -> list chan_label -> chan -> Prop :=
  | steps_nil c : chan_steps c [] c
  | steps_snoc c1 ls c2 l c3 :
      chan_steps c1 ls c2 -> chan_step c2 l c3 -> chan_steps c1 (ls ++ [l]) c3.

(** Messages accepted and delivered along a run. *)
Definition label_pushed (l : chan_label) : list msg :=
  match l with
  | LPush entry data rc => if 0 <=? rc then [sent entry data] else []
  | _ => []
  end.

Definition label_popped (l : chan_label) : list msg :=
  match l with LPop (Some m) => [m] | _ => [] end.

Definition pushed_msgs (ls : list chan_label) : list msg := ls ≫= label_pushed.
Definition popped_msgs (ls : list chan_label) : list msg := ls ≫= label_popped.

(** A channel over a freshly created ring; [h0] is the rest of the heap. *)
Definition chan_new (h0 : heap) (capacity : Z) : option chan :=
  r ← spsc_ring_create true true capacity; Some (Chan r spsc_overflow_init h0).

Lemma chan_new_rep h0 capacity : is_pow2 capacity ->
  ∃ c, chan_new h0 capacity = Some c ∧ chan_rep h0 c 0 [] [] [] ∧
    r_capacity (c_ring c) = capacity.
Proof.
  intros Hp. destruct (spsc_ring_create_spec capacity Hp) as (r & E & R & Ec & Eb).
  unfold chan_new. rewrite E. cbn. eexists; split; [done|]. split; [|done].
  split; cbn; try done; try (by constructor); try lia; set_solver.
Qed.

(** The invariant of a run: what was pushed is what was popped followed by what
    is in flight, and the read cursor counts the deliveries. *)
Definition run_inv (h0 : heap) (cap : Z) (c : chan) (ls : list chan_label) : Prop :=
  ∃ q1 q2 ms, chan_rep h0 c (zlen (popped_msgs ls)) q1 q2 ms ∧
    pushed_msgs ls = popped_msgs ls ++ ms ∧
    r_capacity (c_ring c) = cap ∧ zlen (pushed_msgs ls) <= zlen ls.

Lemma chan_rep_count {h0 c H q1 q2 ms} : chan_rep h0 c H q1 q2 ms ->
  zlen ms = zlen q1 + zlen q2.
Proof.
  intros R. pose proof (Forall2_length _ _ _ (cr_view _ _ _ _ _ _ R)) as E.
  rewrite length_app in E. lia.
Qed.

Lemma msgs_snoc ls l :
  pushed_msgs (ls ++ [l]) = pushed_msgs ls ++ label_pushed l ∧
  popped_msgs (ls ++ [l]) = popped_msgs ls ++ label_popped l.
Proof.
  unfold pushed_msgs, popped_msgs. rewrite !bind_app. cbn. by rewrite !app_nil_r.
Qed.

Lemma run_inv_step h0 cap c ls l c' :
  run_inv h0 cap c ls -> chan_step c l c' -> zlen ls + 1 < 2 ^ 64 ->
  run_inv h0 cap c' (ls ++ [l]).
Proof.
  intros (q1 & q2 & ms & R & Ep & Ec & Hle) Hstep Hw. unfold run_inv.
  destruct (msgs_snoc ls l) as [-> ->].
  pose proof (chan_rep_count R) as Hcnt.
  assert (zlen (pushed_msgs ls) = zlen (popped_msgs ls) + zlen ms)
    by (rewrite Ep, length_app; lia).
  inversion Hstep as [pa entry data rc c'' Hb Hf E|m c'' E|moved c'' E]; subst; cbn.
  - destruct (chan_push_spec _ _ _ _ _ _ pa entry data R Hf Hb ltac:(lia))
      as (rc' & c2 & E' & Hout).
    rewrite E in E'. simplify_eq.
    destruct Hout as [c2 e Hq Hlt Hcap R2|c2 e Hq Hcap R2|Hbad]; cbn.
    + rewrite app_nil_r. exists (q1 ++ [e]), [], (ms ++ [sent entry data]).
      split_and!; [done|by rewrite Ep, app_assoc|done|rewrite ?length_app in *; cbn; lia].
    + rewrite app_nil_r. exists q1, (q2 ++ [e]), (ms ++ [sent entry data]).
      split_and!; [done|by rewrite Ep, app_assoc|done|rewrite ?length_app in *; cbn; lia].
    + rewrite !app_nil_r. exists q1, q2, ms. split_and!; [done..|rewrite ?length_app in *; cbn; lia].
  - destruct q1 as [|e q1].
    + rewrite (chan_pop_empty _ _ _ _ _ R) in E. simplify_eq. cbn.
      rewrite !app_nil_r. exists [], q2, ms. split_and!; [done..|rewrite ?length_app in *; cbn; lia].
    + destruct ms as [|m0 ms]; [cbn in Hcnt; lia|].
      destruct (chan_pop_spec _ _ _ _ _ _ _ _ R) as (c2 & E' & R2 & Hcap).
      rewrite E in E'. simplify_eq. cbn [label_popped].
      exists q1, q2, ms. rewrite app_nil_r, length_app, Nat2Z.inj_add.
      rewrite <- app_assoc. split_and!; [done..|rewrite ?length_app in *; cbn; lia].
  - destruct (chan_refill_spec _ _ _ _ _ _ R) as (c2 & E' & R2 & Hcap).
    rewrite E in E'. simplify_eq. rewrite !app_nil_r.
    do 3 eexists. split_and!; [done..|rewrite ?length_app in *; cbn; lia].
Qed.

Lemma run_inv_steps h0 cap c0 ls c :
  is_pow2 cap -> chan_new h0 cap = Some c0 -> chan_steps c0 ls c ->
  zlen ls < 2 ^ 64 -> run_inv h0 cap c ls.
Proof.
  intros Hp E Hs. induction Hs as [c0|c0 ls c2 l c3 Hs IH Hstep]; intros Hw.
  - destruct (chan_new_rep h0 cap Hp) as (c1 & E1 & R & Ec). simplify_eq.
    by exists [], [], [].
  - rewrite length_app in Hw. cbn in Hw.
    eapply run_inv_step; [apply IH; [done|lia]|done|lia].
Qed.

(** ** Properties *)

(** C8. Lossless FIFO: whatever the interleaving of pushes (ring or overflow),
    refills and pops, the messages accepted are, in order, the messages delivered
    followed by those in flight, and the ring count plus the overflow depth is the
    number in flight. *)
Theorem channel_fifo h0 cap c0 ls c :
  is_pow2 cap -> chan_new h0 cap = Some c0 -> chan_steps c0 ls c ->
  zlen ls < 2 ^ 64 ->
  ∃ rest, pushed_msgs ls = popped_msgs ls ++ rest ∧
    zlen rest = spsc_ring_count (c_ring c) + o_depth (c_ovf c).
Proof.
  intros Hp E Hs Hw. destruct (run_inv_steps h0 cap c0 ls c Hp E Hs Hw)
    as (q1 & q2 & ms & R & Ep & _ & _).
  exists ms. split; [done|]. rewrite (chan_rep_count R), (cr_depth _ _ _ _ _ _ R).
  by rewrite (rq_count _ _ _ (cr_ring _ _ _ _ _ _ R)).
Qed.

(** Memory safety and no leak: in every state a run can reach, each further
    call is defined (no index outside the table, no bad free, no null node), a
    push with memory available is accepted, and destroying the channel returns the
    heap to what it was: every payload freed once, nothing else touched. *)
Theorem channel_memory_safe h0 cap c0 ls c pa entry data :
  is_pow2 cap -> chan_new h0 cap = Some c0 -> chan_steps c0 ls c ->
  zlen ls + 1 < 2 ^ 64 -> borrow_ok entry data -> alloc_fresh (c_heap c) pa ->
  (∃ rc c', chan_push c pa entry data = Some (rc, c') ∧
     (~ alloc_failed pa data -> rc = 0 ∨ rc = 1)) ∧
  (∃ m c', chan_pop c = Some (m, c')) ∧
  (∃ moved c', chan_refill c = Some (moved, c')) ∧
  chan_destroy c = Some h0.
Proof.
  intros Hp E Hs Hw Hb Hf. destruct (run_inv_steps h0 cap c0 ls c Hp E Hs ltac:(lia))
    as (q1 & q2 & ms & R & Ep & _ & Hle).
  pose proof (chan_rep_count R) as Hcnt.
  assert (zlen (pushed_msgs ls) = zlen (popped_msgs ls) + zlen ms)
    by (rewrite Ep, length_app; lia).
  split_and!.
  - destruct (chan_push_spec _ _ _ _ _ _ pa entry data R Hf Hb ltac:(lia))
      as (rc & c' & E' & Hout).
    exists rc, c'. split; [done|]. destruct Hout; [by left|by right|done].
  - destruct q1 as [|e q1]; [eexists _, _; eapply chan_pop_empty, R|].
    destruct ms as [|m ms]; [cbn in Hcnt; lia|].
    destruct (chan_pop_spec _ _ _ _ _ _ _ _ R) as (c' & E' & _). eauto.
  - destruct (chan_refill_spec _ _ _ _ _ _ R) as (c' & E' & _). eauto.
  - by eapply chan_destroy_spec.
Qed.

(** The byte counter: while payloads leave the channel through
    [spsc_ring_pop] alone, [bytes_pending] is the number of payload bytes of the
    entries in the ring, and a drained channel reports 0. *)
Theorem channel_bytes_pending h0 cap c0 ls c :
  is_pow2 cap -> chan_new h0 cap = Some c0 -> chan_steps c0 ls c ->
  zlen ls < 2 ^ 64 ->
  (∃ q, zlen q = spsc_ring_count (c_ring c) ∧
     spsc_ring_bytes_pending (c_ring c) = u64 (owned_bytes q) ∧
     Forall2 (λ e m, view (c_heap c) e = Some m) q
       (take (length q) (drop (length (popped_msgs ls)) (pushed_msgs ls)))) ∧
  (spsc_ring_empty (c_ring c) = true -> spsc_ring_bytes_pending (c_ring c) = 0).
Proof.
  intros Hp E Hs Hw. destruct (run_inv_steps h0 cap c0 ls c Hp E Hs Hw)
    as (q1 & q2 & ms & R & Ep & _ & _).
  pose proof (cr_bytes _ _ _ _ _ _ R) as Hby. unfold spsc_ring_bytes_pending.
  pose proof (rq_count _ _ _ (cr_ring _ _ _ _ _ _ R)) as Hc. split.
  - exists q1. split_and!; [done..|]. rewrite Ep, drop_app_length.
    pose proof (cr_view _ _ _ _ _ _ R) as Hv.
    apply Forall2_app_inv_l in Hv as (m1 & m2 & H1 & _ & ->).
    by rewrite (Forall2_length _ _ _ H1), take_app_length.
  - unfold spsc_ring_empty. rewrite Hc. intros Hz%Z.eqb_eq.
    destruct q1; [by rewrite Hby|cbn in Hz; lia].
Qed.

(** Ownership hand-over: taking the payload of the head entry and popping it
    frees nothing (the block now belongs to the caller) and delivers the rest of
    the queue, but [bytes_pending] keeps counting the payload although the entry is
    no longer in the ring. *)
Theorem take_then_pop_keeps_bytes r H e q h :
  rq_rep r H (e :: q) -> entry_owns e = true ->
  ∃ r1 r2, ring_take_head r = Some (e_data_buf e, r1) ∧
    spsc_ring_pop r1 h = Some (r2, h) ∧ rq_rep r2 (H + 1) q ∧
    spsc_ring_bytes_pending r2 = spsc_ring_bytes_pending r.
Proof.
  intros R Eo. unfold ring_take_head.
  rewrite (rq_peek _ _ _ R). cbn [mbind option_bind].
  rewrite (rq_head_entry _ _ _ _ R). cbn [mbind option_bind spsc_ring_take_data].
  rewrite (rq_store_slot _ _ _ R). cbn [mbind option_bind].
  set (r1 := SpscRing _ _ _ _ _ _).
  assert (R1 : rq_rep r1 H (entry_set_data e 0 0 :: q)).
  { split; try apply R. by apply (ring_rep_set_head _ _ _ e), R. }
  destruct (rq_pop _ _ _ _ h R1) as (r2 & E2 & R2 & _ & Eb); [done|].
  exists r1, r2. cbn in Eb, E2. done.
Qed.

(** A payload-free entry that still announces a length (the DATAGRAM_ACKED and
    DATAGRAM_LOST notifications) keeps it when the ring has room and loses it when
    it is spilled: the overflow node is stored with length 0. *)
Theorem spill_drops_announced_length r H q o h pa entry :
  rq_rep r H q -> H + zlen q + 1 < 2 ^ 64 -> pa_node pa = true ->
  (o_depth o = 0 -> zlen q < r_capacity r ->
   ∃ r', spsc_ring_push_or_overflow r o h pa entry [] = Some (0, r', o, h) ∧
     rq_rep r' H (q ++ [entry])) ∧
  (o_depth o <> 0 ->
   ∃ o', spsc_ring_push_or_overflow r o h pa entry [] = Some (1, r, o', h) ∧
     o_nodes o' = o_nodes o ++ [entry_set_data entry (e_data_buf entry) 0]).
Proof.
  intros R Hw Hn. unfold spsc_ring_push_or_overflow, overflow_append. cbn. rewrite Hn. cbn.
  split.
  - intros -> Hlt. cbn. unfold spsc_ring_push_borrowed.
    rewrite (rq_used _ _ _ R), Z.geb_leb, (proj2 (Z.leb_gt _ _)) by lia.
    destruct (rq_publish _ _ _ R entry (r_bytes_pending r) Hlt Hw) as (es & -> & R').
    cbn. eexists; split; [done|]. done.
  - intros Hd. rewrite (proj2 (Z.eqb_neq _ 0)) by done. eexists; split; [done|]. done.
Qed.

(** ** Witnesses *)

Inductive chan_op :=
  | OpPush (pa : push_alloc) (entry : spsc_entry) (data : list Z)
  | OpPop
  | OpRefill.

Definition alloc_fresh_b (h : heap) (pa : push_alloc) : bool :=
  ((pa_ring pa =? 0) || bool_decide (h !! pa_ring pa = None)) &&
  ((pa_data pa =? 0) || bool_decide (h !! pa_data pa = None)).

Definition borrow_ok_b (entry : spsc_entry) (data : list Z) : bool :=
  (0 <? zlen data) || (e_data_length entry =? 0).

(** An executable run: the labels and the final channel. *)
Fixpoint chan_exec (c : chan) (ops : list chan_op) : option (list chan_label * chan) :=
  match ops with
  | [] => Some ([], c)
  | OpPush pa entry data :: ops =>
      if alloc_fresh_b (c_heap c) pa && borrow_ok_b entry data then
        '(rc, c) ← chan_push c pa entry data;
        '(ls, c) ← chan_exec c ops; Some (LPush entry data rc :: ls, c)
      else None
  | OpPop :: ops =>
      '(m, c) ← chan_pop c; '(ls, c) ← chan_exec c ops; Some (LPop m :: ls, c)
  | OpRefill :: ops =>
      '(n, c) ← chan_refill c; '(ls, c) ← chan_exec c ops; Some (LRefill n :: ls, c)
  end.

Lemma chan_steps_cons c1 l c2 ls c3 :
  chan_step c1 l c2 -> chan_steps c2 ls c3 -> chan_steps c1 (l :: ls) c3.
Proof.
  intros Hl Hs. induction Hs as [c2|c2 ls c3 l' c4 Hs IH Hstep].
  - apply (steps_snoc _ []) with c1; [constructor|done].
  - change (l :: ls ++ [l']) with ((l :: ls) ++ [l']). econstructor; eauto.
Qed.

Lemma alloc_fresh_b_ok h pa : alloc_fresh_b h pa = true -> alloc_fresh h pa.
Proof.
  unfold alloc_fresh_b, alloc_fresh. rewrite andb_true_iff, !orb_true_iff.
  rewrite !Z.eqb_eq, !bool_decide_eq_true. tauto.
Qed.

Lemma chan_exec_steps ops : ∀ c ls c', chan_exec c ops = Some (ls, c') ->
  chan_steps c ls c'.
Proof.
  induction ops as [|[pa entry data| |] ops IH]; intros c ls c' E; cbn in E;
    [simplify_eq; constructor|..].
  - destruct (alloc_fresh_b _ _) eqn:Ef; [|done].
    destruct (borrow_ok_b _ _) eqn:Eb; [|done]. cbn in E.
    destruct (chan_push c pa entry data) as [[rc c1]|] eqn:E1; [|done]. cbn in E.
    destruct (chan_exec c1 ops) as [[ls1 c2]|] eqn:E2; [|done]. simplify_eq/=.
    eapply chan_steps_cons; [|by apply IH].
    apply step_push with pa; [|by apply alloc_fresh_b_ok|done].
    intros ->. apply orb_true_iff in Eb as [?|?%Z.eqb_eq]; done.
  - destruct (chan_pop c) as [[m c1]|] eqn:E1; [|done]. cbn in E.
    destruct (chan_exec c1 ops) as [[ls1 c2]|] eqn:E2; [|done]. simplify_eq/=.
    eapply chan_steps_cons; [by constructor|by apply IH].
  - destruct (chan_refill c) as [[m c1]|] eqn:E1; [|done]. cbn in E.
    destruct (chan_exec c1 ops) as [[ls1 c2]|] eqn:E2; [|done]. simplify_eq/=.
    eapply chan_steps_cons; [by constructor|by apply IH].
Qed.

(** A two-slot channel that spills, delivers, refills and delivers again. *)
Definition demo_alloc (p : Z) : push_alloc := PushAlloc p true p.
Definition demo_entry (t : spsc_event_type) : spsc_entry := event_entry t 4 7 0.

Definition demo_ops : list chan_op :=
  [OpPush (demo_alloc 100) (demo_entry SPSC_EVT_DATAGRAM) [1; 2; 3];
   OpPush (demo_alloc 0) (demo_entry SPSC_EVT_STREAM_DATA) [];
   OpPush (demo_alloc 101) (demo_entry SPSC_EVT_DATAGRAM) [4; 5];
   OpPop; OpRefill].

(** The heap outside the channel: one unrelated block. *)
Definition demo_heap : heap := {[ 9 := [42] ]}.

Lemma is_pow2_2 : is_pow2 2.
Proof. exists 1. lia. Qed.

Lemma chan_exec_length ops : ∀ c ls c', chan_exec c ops = Some (ls, c') ->
  length ls = length ops.
Proof.
  induction ops as [|[pa entry data| |] ops IH]; intros c ls c' E; cbn in E;
    [by simplify_eq|..]; repeat case_match; simplify_option_eq; try done;
    repeat (case_match || simplify_option_eq); simplify_eq/=; f_equal; eauto.
Qed.

Lemma demo_run : ∃ c0 ls c, chan_new demo_heap 2 = Some c0 ∧
  chan_exec c0 demo_ops = Some (ls, c) ∧ chan_steps c0 ls c ∧ zlen ls = 5.
Proof.
  destruct (chan_new demo_heap 2) as [c0|] eqn:E0; [|vm_compute in E0; discriminate].
  destruct (chan_exec c0 demo_ops) as [[ls c]|] eqn:E.
  - exists c0, ls, c. split_and!; [done..|by eapply chan_exec_steps|].
    by rewrite (chan_exec_length _ _ _ _ E).
  - exfalso. injection E0 as <-. vm_compute in E. discriminate.
Qed.

Lemma channel_fifo_witness :
  ∃ c0 ls c, chan_new demo_heap 2 = Some c0 ∧ chan_exec c0 demo_ops = Some (ls, c) ∧
  ∃ rest, pushed_msgs ls = popped_msgs ls ++ rest ∧
    zlen rest = spsc_ring_count (c_ring c) + o_depth (c_ovf c).
Proof.
  destruct demo_run as (c0 & ls & c & E0 & E & Hs & Hl). exists c0, ls, c.
  split; [done|]. split; [done|].
  apply (channel_fifo demo_heap 2 c0 ls c is_pow2_2 E0 Hs). lia.
Defined.

Lemma channel_memory_safe_witness :
  ∃ c0 ls c, chan_new demo_heap 2 = Some c0 ∧ chan_exec c0 demo_ops = Some (ls, c) ∧
  (∃ rc c', chan_push c (demo_alloc 0) (demo_entry SPSC_EVT_READY) [] = Some (rc, c') ∧
     (~ alloc_failed (demo_alloc 0) [] -> rc = 0 ∨ rc = 1)) ∧
  (∃ m c', chan_pop c = Some (m, c')) ∧
  (∃ moved c', chan_refill c = Some (moved, c')) ∧
  chan_destroy c = Some demo_heap.
Proof.
  destruct demo_run as (c0 & ls & c & E0 & E & Hs & Hl). exists c0, ls, c.
  split; [done|]. split; [done|].
  apply (channel_memory_safe demo_heap 2 c0 ls c (demo_alloc 0)
           (demo_entry SPSC_EVT_READY) [] is_pow2_2 E0 Hs); [lia|done|by split].
Defined.

Lemma channel_bytes_pending_witness :
  ∃ c0 ls c, chan_new demo_heap 2 = Some c0 ∧ chan_exec c0 demo_ops = Some (ls, c) ∧
  (∃ q, zlen q = spsc_ring_count (c_ring c) ∧
     spsc_ring_bytes_pending (c_ring c) = u64 (owned_bytes q) ∧
     Forall2 (λ e m, view (c_heap c) e = Some m) q
       (take (length q) (drop (length (popped_msgs ls)) (pushed_msgs ls)))) ∧
  (spsc_ring_empty (c_ring c) = true -> spsc_ring_bytes_pending (c_ring c) = 0).
Proof.
  destruct demo_run as (c0 & ls & c & E0 & E & Hs & Hl). exists c0, ls, c.
  split; [done|]. split; [done|].
  apply (channel_bytes_pending demo_heap 2 c0 ls c is_pow2_2 E0 Hs). lia.
Defined.

(** A two-slot ring holding one 3-byte payload and one bare event. *)
Definition demo_queue : list spsc_entry :=
  [entry_set_data (demo_entry SPSC_EVT_DATAGRAM) 100 3; demo_entry SPSC_EVT_READY].

Definition demo_ring : spsc_ring := SpscRing 2 0 3 2 1 demo_queue.

Lemma demo_ring_rep : rq_rep demo_ring 0 demo_queue.
Proof.
  split; cbn; try lia; [|apply is_pow2_2].
  split; cbn; try lia. intros [|[|i]] x E; cbn in E; done.
Qed.

Lemma take_then_pop_keeps_bytes_witness :
  ∃ r1 r2, ring_take_head demo_ring = Some (100, r1) ∧
    spsc_ring_pop r1 demo_heap = Some (r2, demo_heap) ∧
    rq_rep r2 (0 + 1) [demo_entry SPSC_EVT_READY] ∧
    spsc_ring_bytes_pending r2 = 3.
Proof.
  exact (take_then_pop_keeps_bytes demo_ring 0 _ [demo_entry SPSC_EVT_READY] demo_heap
           demo_ring_rep eq_refl).
Defined.

(** A DATAGRAM_ACKED notification of a 1200-byte datagram meets a non-empty
    overflow. *)
Lemma spill_drops_announced_length_witness :
  let o := SpscOverflow [demo_entry SPSC_EVT_READY] 1 1 1 in
  let e := entry_set_data (demo_entry SPSC_EVT_DATAGRAM_ACKED) 0 1200 in
  ∃ o', spsc_ring_push_or_overflow demo_ring o demo_heap (demo_alloc 0) e []
    = Some (1, demo_ring, o', demo_heap) ∧
    o_nodes o' = o_nodes o ++ [entry_set_data e 0 0].
Proof.
  intros o e.
  apply (spill_drops_announced_length demo_ring 0 demo_queue o demo_heap (demo_alloc 0) e
           demo_ring_rep ltac:(cbn; lia) eq_refl). done.
Defined.
