(* ===== verification/Store.v ===== *)
(** * Stores of reference-counted objects

    Objects shared between the Python thread and the worker (datagram rings,
    stream contexts) live in a [gmap] from addresses to records, each with a
    counter.  [rc_ok] says that the store holds exactly the objects somebody
    refers to and that each counter is the number of references; its three lemmas
    are the cases of taking, dropping and creating a reference.  [msum] sums a
    measure over a map. *)
From S2P Require Import Prelude.

(** ** Sums over a map *)

Section msum.
Context {A : Type}.
Implicit Types (g : A -> Z) (m : gmap Z A).

Definition lsum {B} (g : B -> Z) (l : list B) : Z := foldr (λ x n, g x + n) 0 l.

Definition msum g m : Z := lsum (λ kv, g kv.2) (map_to_list m).

Lemma lsum_cons {B} (g : B -> Z) x l : lsum g (x :: l) = g x + lsum g l.
Proof. done. Qed.

Lemma lsum_perm {B} (g : B -> Z) l k : l ≡ₚ k -> lsum g l = lsum g k.
Proof. induction 1; rewrite ?lsum_cons; [done|lia|lia|lia]. Qed.

Lemma msum_empty g : msum g ∅ = 0.
Proof. unfold msum. by rewrite map_to_list_empty. Qed.

Lemma msum_insert g m k x : m !! k = None -> msum g (<[k := x]> m) = msum g m + g x.
Proof.
  intros Hk. unfold msum. rewrite (lsum_perm _ _ _ (map_to_list_insert m k x Hk)).
  rewrite lsum_cons. cbn. lia.
Qed.

Lemma msum_delete g m k x : m !! k = Some x -> msum g (delete k m) = msum g m - g x.
Proof.
  intros Hk. rewrite <- (insert_delete_id m k x Hk) at 2.
  rewrite msum_insert by apply lookup_delete_eq. lia.
Qed.

Lemma msum_update g m k x y : m !! k = Some x ->
  msum g (<[k := y]> m) = msum g m - g x + g y.
Proof.
  intros Hk. rewrite <- insert_delete_eq.
  rewrite msum_insert, (msum_delete g m k x) by (done || apply lookup_delete_eq). lia.
Qed.

Lemma msum_bounds g m b : (∀ x, 0 <= g x <= b) -> 0 <= msum g m <= Z.of_nat (size m) * b.
Proof.
  intros Hg. unfold msum. rewrite <- length_map_to_list.
  induction (map_to_list m) as [|[k x] l IH]; [unfold lsum; cbn; lia|].
  rewrite lsum_cons. cbn [length snd]. specialize (Hg x). lia.
Qed.
End msum.

(** ** Reference counts *)

(** The counter of an object. *)
Class RefCounted (A : Type) := rc_count : A -> Z.

Record rc_ok {A} `{RefCounted A} (st : gmap Z A) (f : Z -> Z) : Prop := {
  rc_live : ∀ p x, st !! p = Some x -> rc_count x = f p ∧ 0 < f p < 2 ^ 32;
  rc_dead : ∀ p, st !! p = None -> f p = 0;
  rc_null : f 0 = 0
}.

Section rc.
Context {A : Type} `{RefCounted A}.

Lemma rc_ok_ext (st : gmap Z A) f g : (∀ p, f p = g p) -> rc_ok st f -> rc_ok st g.
Proof.
  intros E [H1 H2 H3].
  split; [intros p x; rewrite <- E; apply H1|intros p; rewrite <- E; apply H2
         |by rewrite <- E].
Qed.

Lemma rc_ok_empty f : (∀ p, f p = 0) -> rc_ok (∅ : gmap Z A) f.
Proof. intros Hf. split; [by intros ? ?; rewrite lookup_empty|done|done]. Qed.

Lemma rc_ok_nil (st : gmap Z A) f : rc_ok st f -> (∀ p, f p = 0) -> st = ∅.
Proof.
  intros R Hf. apply map_eq. intros p. rewrite lookup_empty.
  destruct (st !! p) eqn:E; [|done]. apply (rc_live _ _ R) in E as [_ ?].
  specialize (Hf p). lia.
Qed.

Section ok.
Context {st : gmap Z A} {f : Z -> Z} (R : rc_ok st f).

Lemma rc_some p : 0 < f p -> ∃ x, st !! p = Some x ∧ rc_count x = f p.
Proof.
  intros Hp. destruct (st !! p) as [x|] eqn:E.
  - exists x. split; [done|]. by apply (rc_live _ _ R).
  - apply (rc_dead _ _ R) in E. lia.
Qed.

Lemma rc_nonzero p : 0 < f p -> p <> 0.
Proof. intros Hp ->. rewrite (rc_null _ _ R) in Hp. lia. Qed.

(** Replacing an object by one whose counter moved by [d]. *)
Lemma rc_update p x d : 0 < f p -> 0 < f p + d < 2 ^ 32 -> rc_count x = f p + d ->
  rc_ok (<[p := x]> st) (λ q, f q + (if q =? p then d else 0)).
Proof.
  intros Hp Hd Hx. pose proof (rc_nonzero p Hp).
  split.
  - intros q y. rewrite lookup_insert_Some. intros [[<- <-]|[Hne E]].
    + rewrite Z.eqb_refl. done.
    + rewrite (proj2 (Z.eqb_neq _ _)), Z.add_0_r by done. by apply (rc_live _ _ R).
  - intros q. rewrite lookup_insert_None. intros [E Hne].
    rewrite (proj2 (Z.eqb_neq _ _)), Z.add_0_r by done. by apply (rc_dead _ _ R).
  - rewrite (proj2 (Z.eqb_neq _ _)), (rc_null _ _ R) by done. done.
Qed.

(** The same object with other fields changed. *)
Lemma rc_same p x y : st !! p = Some x -> rc_count y = rc_count x ->
  rc_ok (<[p := y]> st) f.
Proof.
  intros E Hy. destruct (rc_live _ _ R _ _ E) as [Hx Hp].
  eapply rc_ok_ext; [|apply (rc_update p y 0); lia].
  intros q. cbn. destruct (q =? p); lia.
Qed.

(** The last reference goes, and the object with it. *)
Lemma rc_free p : f p = 1 ->
  rc_ok (delete p st) (λ q, f q - c_bool (q =? p)).
Proof.
  intros Hp. pose proof (rc_nonzero p ltac:(lia)). split.
  - intros q y. rewrite lookup_delete_Some. intros [Hne E].
    rewrite (proj2 (Z.eqb_neq _ _)) by done. cbn. rewrite Z.sub_0_r. by apply (rc_live _ _ R).
  - intros q. rewrite lookup_delete_None. destruct (Z.eqb_spec q p) as [->|Hne].
    + cbn. lia.
    + intros [->|E]; [done|]. cbn. rewrite Z.sub_0_r. by apply (rc_dead _ _ R).
  - rewrite (proj2 (Z.eqb_neq _ _)), (rc_null _ _ R) by done. done.
Qed.

Lemma rc_new p x : st !! p = None -> p <> 0 -> rc_count x = 1 ->
  rc_ok (<[p := x]> st) (λ q, f q + c_bool (q =? p)).
Proof.
  intros E Hp Hx. pose proof (rc_dead _ _ R _ E) as H0. split.
  - intros q y. rewrite lookup_insert_Some. intros [[<- <-]|[Hne E']].
    + rewrite Z.eqb_refl, Hx. cbn. lia.
    + rewrite (proj2 (Z.eqb_neq _ _)), Z.add_0_r by done. by apply (rc_live _ _ R).
  - intros q. rewrite lookup_insert_None. intros [E' Hne].
    rewrite (proj2 (Z.eqb_neq _ _)), Z.add_0_r by done. by apply (rc_dead _ _ R).
  - rewrite (proj2 (Z.eqb_neq _ _)), (rc_null _ _ R) by done. done.
Qed.
End ok.
End rc.
