(* ===== verification/DgramBuf.v ===== *)
(** * Datagram TX record ring (datagram_buf.h, first half)

    [dgram_buf] is [aiopquic_dgram_buf_t]: the byte ring of Ring.v carrying
    records [u32 length | payload].  The producer's push and the worker's
    peek/pop/drain_take are the operations; what the worker does between the two
    loads of [head] inside a push is an argument of the push.  The specification
    is a bounded queue of records [dq]; [dg_sim] relates the two. *)
From S2P Require Import Prelude Ring StreamBuf.

(** ** Data *)

Definition AIOPQUIC_DGRAM_REC_HDR : Z := 4.

Record dgram_buf := DgramBuf {
  db_buf : list Z;
  db_capacity : Z;
  db_mask : Z;
  db_max_record : Z;
  db_tail : Z;
  db_head : Z;
  db_refcnt : Z;
  db_drain_pending : Z;
  db_records_pushed : Z;
  db_push_full : Z;
  db_push_oversize : Z;
  db_records_popped : Z;
  db_bytes_popped : Z;
  db_head_deferred : Z
}.

Definition db_set_refcnt (db : dgram_buf) (n : Z) : dgram_buf :=
  DgramBuf (db_buf db) (db_capacity db) (db_mask db) (db_max_record db) (db_tail db)
    (db_head db) n (db_drain_pending db) (db_records_pushed db) (db_push_full db)
    (db_push_oversize db) (db_records_popped db) (db_bytes_popped db) (db_head_deferred db).

Definition db_set_buf (db : dgram_buf) (buf : list Z) : dgram_buf :=
  DgramBuf buf (db_capacity db) (db_mask db) (db_max_record db) (db_tail db)
    (db_head db) (db_refcnt db) (db_drain_pending db) (db_records_pushed db)
    (db_push_full db) (db_push_oversize db) (db_records_popped db) (db_bytes_popped db)
    (db_head_deferred db).

Definition db_set_drain (db : dgram_buf) (n : Z) : dgram_buf :=
  DgramBuf (db_buf db) (db_capacity db) (db_mask db) (db_max_record db) (db_tail db)
    (db_head db) (db_refcnt db) n (db_records_pushed db) (db_push_full db)
    (db_push_oversize db) (db_records_popped db) (db_bytes_popped db) (db_head_deferred db).

(** [tail] and the producer's counters. *)
Definition db_set_producer (db : dgram_buf) (tail pushed full oversize : Z) : dgram_buf :=
  DgramBuf (db_buf db) (db_capacity db) (db_mask db) (db_max_record db) tail
    (db_head db) (db_refcnt db) (db_drain_pending db) pushed full oversize
    (db_records_popped db) (db_bytes_popped db) (db_head_deferred db).

(** [head] and the worker's counters. *)
Definition db_set_consumer (db : dgram_buf) (head popped bytes deferred : Z) : dgram_buf :=
  DgramBuf (db_buf db) (db_capacity db) (db_mask db) (db_max_record db) (db_tail db)
    head (db_refcnt db) (db_drain_pending db) (db_records_pushed db) (db_push_full db)
    (db_push_oversize db) popped bytes deferred.

(** ** Operations *)

(** [ok]: whether the [calloc] succeeds; [blk]: the block [malloc] returns.
    [alive] is the process-wide count of live rings. *)
Definition aiopquic_dgram_buf_create (ok : bool) (blk : option (list Z))
    (alive capacity max_record : Z) : option dgram_buf * Z :=
  let capacity := aiopquic_ceil_pow2_u32 capacity in
  if (capacity =? 0) || (max_record =? 0) then (None, alive)
  else
    let need := u32 (2 * u32 (AIOPQUIC_DGRAM_REC_HDR + max_record)) in
    let capacity := if capacity <? need then aiopquic_ceil_pow2_u32 need else capacity in
    if negb ok then (None, alive)
    else
      match blk with
      | None => (None, alive)
      | Some buf =>
          (Some {| db_buf := buf; db_capacity := capacity;
                   db_mask := u32 (capacity - 1); db_max_record := max_record;
                   db_tail := 0; db_head := 0; db_refcnt := 1; db_drain_pending := 0;
                   db_records_pushed := 0; db_push_full := 0; db_push_oversize := 0;
                   db_records_popped := 0; db_bytes_popped := 0;
                   db_head_deferred := 0 |}, alive + 1)
      end.

Definition aiopquic_dgram_buf_addref (db : dgram_buf) : dgram_buf :=
  db_set_refcnt db (u32 (db_refcnt db + 1)).

(** [None] in the first component: the ring was freed. *)
Definition aiopquic_dgram_buf_unref (db : dgram_buf) (alive : Z) : option dgram_buf * Z :=
  if db_refcnt db =? 1 then (None, alive - 1)
  else (Some (db_set_refcnt db (u32 (db_refcnt db - 1))), alive).

Definition aiopquic_dgram_ring_write (db : dgram_buf) (pos : Z) (src : list Z)
    : option dgram_buf :=
  buf ← wrap_write (db_buf db) (db_capacity db) (u32 (Z.land pos (db_mask db))) src;
  Some (db_set_buf db buf).

Definition aiopquic_dgram_ring_read (db : dgram_buf) (pos n : Z) : option (list Z) :=
  wrap_read (db_buf db) (db_capacity db) (u32 (Z.land pos (db_mask db))) n.

(** The four header bytes of a record, and the length they spell. *)
Definition record_hdr (len : Z) : list Z :=
  [u8 (Z.land len 0xff); u8 (Z.land (Z.shiftr len 8) 0xff);
   u8 (Z.land (Z.shiftr len 16) 0xff); u8 (Z.land (Z.shiftr len 24) 0xff)].

Definition hdr_len (hdr : list Z) : Z :=
  let b i := nth i hdr 0 in
  Z.lor (Z.lor (Z.lor (b 0%nat) (u32 (Z.shiftl (b 1%nat) 8)))
    (u32 (Z.shiftl (b 2%nat) 16))) (u32 (Z.shiftl (b 3%nat) 24)).

(** The header and payload stores of a push, and its publishing store. *)
Definition push_write (db : dgram_buf) (tail : Z) (data : list Z) : option dgram_buf :=
  let len := zlen data in
  db ← aiopquic_dgram_ring_write db tail (record_hdr len);
  db ← aiopquic_dgram_ring_write db (u64 (tail + AIOPQUIC_DGRAM_REC_HDR)) data;
  Some (db_set_producer db (u64 (tail + AIOPQUIC_DGRAM_REC_HDR + len))
    (u64 (db_records_pushed db + 1)) (db_push_full db) (db_push_oversize db)).

(** 0 when empty; the outer [None] is an out-of-bounds read. *)
Definition aiopquic_dgram_buf_peek_len (db : dgram_buf) : option Z :=
  if u64 (db_tail db - db_head db) <? AIOPQUIC_DGRAM_REC_HDR then Some 0
  else
    hdr ← aiopquic_dgram_ring_read db (db_head db) AIOPQUIC_DGRAM_REC_HDR;
    Some (hdr_len hdr).

(** The bytes copied to [out] and the new ring. *)
Definition aiopquic_dgram_buf_pop_into (db : dgram_buf) (len : Z)
    : option (list Z * dgram_buf) :=
  let head := db_head db in
  out ← aiopquic_dgram_ring_read db (u64 (head + AIOPQUIC_DGRAM_REC_HDR)) len;
  Some (out, db_set_consumer db (u64 (head + AIOPQUIC_DGRAM_REC_HDR + len))
    (u64 (db_records_popped db + 1)) (u64 (db_bytes_popped db + len)) (db_head_deferred db)).

Definition aiopquic_dgram_buf_used (db : dgram_buf) : Z :=
  u32 (u64 (db_tail db - db_head db)).

Definition aiopquic_dgram_buf_drain_take (db : dgram_buf) : bool * dgram_buf :=
  (db_drain_pending db =? 1, db_set_drain db 0).

(** The worker's moves on a ring: pop the head record if there is one, take the
    drain signal. *)
Inductive worker_op := WPop | WTake.

Inductive worker_out :=
  | WRecord (r : option (list Z))
  | WTaken (b : bool).

Definition worker_step (db : dgram_buf) (w : worker_op) : option (worker_out * dgram_buf) :=
  match w with
  | WPop =>
      len ← aiopquic_dgram_buf_peek_len db;
      if len =? 0 then Some (WRecord None, db)
      else '(r, db) ← aiopquic_dgram_buf_pop_into db len; Some (WRecord (Some r), db)
  | WTake => let (b, db) := aiopquic_dgram_buf_drain_take db in Some (WTaken b, db)
  end.

Fixpoint worker_run (db : dgram_buf) (ws : list worker_op)
    : option (list worker_out * dgram_buf) :=
  match ws with
  | [] => Some ([], db)
  | w :: ws =>
      '(o, db) ← worker_step db w; '(os, db) ← worker_run db ws; Some (o :: os, db)
  end.

(** [during]: what the worker does between the arm and the second load of
    [head]; its outputs come with the result. *)
Definition aiopquic_dgram_buf_push_record (during : list worker_op) (db : dgram_buf)
    (data : list Z) : option (Z * list worker_out * dgram_buf) :=
  let len := zlen data in
  if len >? db_max_record db then
    Some (-1, [], db_set_producer db (db_tail db) (db_records_pushed db)
                    (db_push_full db) (u64 (db_push_oversize db + 1)))
  else
    let tail := db_tail db in
    let free_bytes db := u32 (db_capacity db - u32 (u64 (tail - db_head db))) in
    if free_bytes db <? u32 (AIOPQUIC_DGRAM_REC_HDR + len) then
      '(os, db) ← worker_run (db_set_drain db 1) during;
      if free_bytes db <? u32 (AIOPQUIC_DGRAM_REC_HDR + len) then
        Some (0, os, db_set_producer db (db_tail db) (db_records_pushed db)
                       (u64 (db_push_full db + 1)) (db_push_oversize db))
      else db ← push_write db tail data; Some (1, os, db)
    else db ← push_write db tail data; Some (1, [], db).

(** ** The record header *)

Lemma land_255 x : Z.land x 0xff = x mod 2 ^ 8.
Proof. change 0xff with (Z.ones 8). by apply Z.land_ones. Qed.

Lemma u8_land_255 x : u8 (Z.land x 0xff) = x mod 2 ^ 8.
Proof. rewrite land_255. apply u8_small. apply Z.mod_pos_bound. lia. Qed.

Lemma lor_add_disjoint a b k : 0 <= k -> 0 <= a < 2 ^ k ->
  Z.lor a (Z.shiftl b k) = a + b * 2 ^ k.
Proof.
  intros Hk Ha. rewrite Z.shiftl_mul_pow2 by done.
  assert (E : Z.land a (b * 2 ^ k) = 0).
  { rewrite <- (Z.mod_small a (2 ^ k)), <- Z.land_ones, <- Z.land_assoc by lia.
    rewrite (Z.land_comm (Z.ones k)), Z.land_ones, Z_mod_mult by lia. apply Z.land_0_r. }
  by rewrite Z.add_nocarry_lxor, Z.lxor_lor.
Qed.

Lemma hdr_round_trip len : 0 <= len < 2 ^ 32 -> hdr_len (record_hdr len) = len.
Proof.
  intros H. unfold hdr_len, record_hdr; cbn [nth].
  rewrite !u8_land_255, !Z.shiftr_div_pow2 by lia.
  pose proof (Z.mod_pos_bound len (2 ^ 8)) as B0.
  pose proof (Z.mod_pos_bound (len / 2 ^ 8) (2 ^ 8)) as B1.
  pose proof (Z.mod_pos_bound (len / 2 ^ 16) (2 ^ 8)) as B2.
  pose proof (Z.mod_pos_bound (len / 2 ^ 24) (2 ^ 8)) as B3.
  assert (E : len = len mod 2 ^ 8 + (len / 2 ^ 8) mod 2 ^ 8 * 2 ^ 8
    + (len / 2 ^ 16) mod 2 ^ 8 * 2 ^ 16 + (len / 2 ^ 24) mod 2 ^ 8 * 2 ^ 24)
    by (clear B0 B1 B2 B3; Z.to_euclidean_division_equations; lia).
  rewrite E at 5. revert B0 B1 B2 B3.
  generalize (len mod 2 ^ 8), ((len / 2 ^ 8) mod 2 ^ 8), ((len / 2 ^ 16) mod 2 ^ 8),
    ((len / 2 ^ 24) mod 2 ^ 8). clear. intros b0 b1 b2 b3 B0 B1 B2 B3.
  rewrite (u32_small (Z.shiftl b1 8)), (u32_small (Z.shiftl b2 16)),
    (u32_small (Z.shiftl b3 24)) by (rewrite Z.shiftl_mul_pow2 by lia; lia).
  rewrite (lor_add_disjoint b0 b1), (lor_add_disjoint _ b2), (lor_add_disjoint _ b3); lia.
Qed.

(** ** The representation relation *)

Definition encode_record (r : list Z) : list Z := record_hdr (zlen r) ++ r.
Definition encode (recs : list (list Z)) : list Z := recs ≫= encode_record.

Lemma encode_app xs ys : encode (xs ++ ys) = encode xs ++ encode ys.
Proof. apply bind_app. Qed.

Lemma encode_cons r recs : encode (r :: recs) = record_hdr (zlen r) ++ r ++ encode recs.
Proof. unfold encode. rewrite bind_cons. unfold encode_record. by rewrite app_assoc. Qed.

Lemma encode_length_cons r recs : zlen (encode (r :: recs)) = 4 + zlen r + zlen (encode recs).
Proof. rewrite encode_cons, !length_app. cbn. lia. Qed.

Lemma encode_length_snoc recs r : zlen (encode (recs ++ [r])) = zlen (encode recs) + 4 + zlen r.
Proof. rewrite encode_app, length_app, Nat2Z.inj_add, encode_length_cons. cbn. lia. Qed.

Lemma record_hdr_length n : zlen (record_hdr n) = 4.
Proof. done. Qed.

Arguments encode : simpl never.
Arguments record_hdr : simpl never.

(** A record a push can store: neither empty nor over the cap. *)
Definition record_ok (max : Z) (r : list Z) : Prop := 0 < zlen r <= max.

Record db_rep (db : dgram_buf) (H : Z) (recs : list (list Z)) : Prop := {
  dr_ring : ring_rep (db_buf db) (db_capacity db) H (encode recs);
  dr_pow2 : is_pow2 (db_capacity db);
  dr_mask : db_mask db = db_capacity db - 1;
  dr_head : db_head db = u64 H;
  dr_tail : db_tail db = u64 (H + zlen (encode recs));
  dr_recs : Forall (record_ok (db_max_record db)) recs;
  dr_room : 2 * (4 + db_max_record db) <= db_capacity db
}.

Section rep.
Context {db : dgram_buf} {H : Z} {recs : list (list Z)} (R : db_rep db H recs).

Lemma dr_cap : 0 < db_capacity db <= 2 ^ 31.
Proof. apply is_pow2_bounds, R. Qed.

Lemma dr_fit : zlen (encode recs) <= db_capacity db.
Proof. apply R. Qed.

Lemma dr_start : 0 <= H.
Proof. apply R. Qed.

Lemma dr_distance : u64 (db_tail db - db_head db) = zlen (encode recs).
Proof.
  rewrite (dr_tail _ _ _ R), (dr_head _ _ _ R), u64_sub_u64.
  pose proof dr_cap. pose proof dr_fit. rewrite u64_small; lia.
Qed.

Lemma dr_used : aiopquic_dgram_buf_used db = zlen (encode recs).
Proof.
  unfold aiopquic_dgram_buf_used. rewrite dr_distance. apply u32_small.
  pose proof dr_cap. pose proof dr_fit. lia.
Qed.

Lemma dr_slot T : u32 (Z.land (u64 T) (db_mask db)) = T mod db_capacity db.
Proof.
  destruct (dr_pow2 _ _ _ R) as (k & Hk & E). rewrite (dr_mask _ _ _ R), E.
  apply cursor_slot. lia.
Qed.

Lemma dr_free : u32 (db_capacity db - aiopquic_dgram_buf_used db)
  = db_capacity db - zlen (encode recs).
Proof.
  rewrite dr_used. pose proof dr_cap. pose proof dr_fit. apply u32_small. lia.
Qed.

(** The worker may advance the cursor after the producer loaded [tail]: only
    [head] moves, so the free space is computed against the new queue. *)
Lemma dr_write q src : q = encode recs -> zlen q + zlen src <= db_capacity db ->
  ∃ buf, aiopquic_dgram_ring_write db (u64 (H + zlen q)) src = Some (db_set_buf db buf) ∧
    ring_rep buf (db_capacity db) H (q ++ src).
Proof.
  intros -> Hfit. destruct (ring_rep_write _ _ _ _ _ (dr_ring _ _ _ R) Hfit)
    as (buf & E & Rb).
  exists buf. split; [|done]. unfold aiopquic_dgram_ring_write. rewrite dr_slot, E. done.
Qed.

Lemma dr_read k n : 0 <= k -> 0 <= n -> k + n <= zlen (encode recs) ->
  aiopquic_dgram_ring_read db (u64 (H + k)) n
  = Some (take (Z.to_nat n) (drop (Z.to_nat k) (encode recs))).
Proof.
  intros. unfold aiopquic_dgram_ring_read. rewrite dr_slot.
  apply ring_rep_read; [apply R|lia..].
Qed.

(** The two stores of a push append one record. *)
Lemma push_write_spec data : record_ok (db_max_record db) data ->
  zlen (encode recs) + 4 + zlen data <= db_capacity db ->
  ∃ buf tail, push_write db (db_tail db) data
      = Some (db_set_producer (db_set_buf db buf) tail (u64 (db_records_pushed db + 1))
                (db_push_full db) (db_push_oversize db)) ∧
    db_rep (db_set_producer (db_set_buf db buf) tail (u64 (db_records_pushed db + 1))
                (db_push_full db) (db_push_oversize db)) H (recs ++ [data]).
Proof.
  intros Hok Hfit. pose proof dr_cap. pose proof dr_start. unfold push_write.
  rewrite (dr_tail _ _ _ R).
  destruct (dr_write _ (record_hdr (zlen data)) eq_refl) as (b1 & -> & R1).
  { rewrite record_hdr_length. lia. }
  cbn [mbind option_bind]. unfold aiopquic_dgram_ring_write. cbn.
  rewrite u64_add_l, dr_slot.
  destruct (ring_rep_write _ _ _ _ data R1) as (b2 & E2 & R2).
  { rewrite length_app, Nat2Z.inj_add, record_hdr_length. cbn. lia. }
  rewrite length_app, Nat2Z.inj_add, record_hdr_length in E2.
  rewrite Z.add_assoc in E2. unfold AIOPQUIC_DGRAM_REC_HDR. rewrite E2. cbn.
  rewrite u64_add_l2. do 2 eexists. split; [done|].
  assert (Ee : encode (recs ++ [data])
      = (encode recs ++ record_hdr (zlen data)) ++ data).
  { rewrite encode_app, encode_cons, app_nil_r. by rewrite app_assoc. }
  split; cbn; rewrite ?Ee; try done; try apply R.
  - f_equal. rewrite <- Ee, encode_length_snoc. lia.
  - apply Forall_app. split; [apply R|by apply Forall_singleton].
Qed.

Lemma peek_empty : recs = [] -> aiopquic_dgram_buf_peek_len db = Some 0.
Proof.
  intros E. unfold aiopquic_dgram_buf_peek_len. by rewrite dr_distance, E.
Qed.

Lemma peek_cons r recs' : recs = r :: recs' ->
  aiopquic_dgram_buf_peek_len db = Some (zlen r).
Proof.
  intros E. unfold aiopquic_dgram_buf_peek_len. rewrite dr_distance, E.
  rewrite encode_length_cons. unfold AIOPQUIC_DGRAM_REC_HDR.
  rewrite (proj2 (Z.ltb_ge _ _)) by lia.
  rewrite (dr_head _ _ _ R). rewrite <- (Z.add_0_r H).
  rewrite dr_read by (rewrite ?E, ?encode_length_cons; lia). rewrite E, encode_cons. cbn.
  f_equal. change (hdr_len (record_hdr (zlen r)) = zlen r). apply hdr_round_trip.
  pose proof dr_cap. pose proof dr_fit. rewrite E, encode_length_cons in *. lia.
Qed.

Lemma pop_cons r recs' : recs = r :: recs' ->
  ∃ db', aiopquic_dgram_buf_pop_into db (zlen r) = Some (r, db') ∧
    db' = db_set_consumer db (u64 (H + 4 + zlen r)) (u64 (db_records_popped db + 1))
            (u64 (db_bytes_popped db + zlen r)) (db_head_deferred db) ∧
    db_rep db' (H + 4 + zlen r) recs'.
Proof.
  intros E. pose proof dr_cap. pose proof dr_start.
  unfold aiopquic_dgram_buf_pop_into. rewrite (dr_head _ _ _ R), u64_add_l, u64_add_l2.
  unfold AIOPQUIC_DGRAM_REC_HDR.
  rewrite dr_read by (rewrite ?E, ?encode_length_cons; lia).
  assert (Ed : drop 4 (encode recs) = r ++ encode recs') by (rewrite E, encode_cons; done).
  assert (Ed2 : drop (Z.to_nat (4 + zlen r)) (encode recs) = encode recs').
  { replace (Z.to_nat (4 + zlen r)) with (4 + length r)%nat by lia.
    by rewrite <- drop_drop, Ed, drop_app_length. }
  change (Z.to_nat 4) with 4%nat. rewrite Ed, Nat2Z.id, take_app_length. cbn.
  eexists; split; [done|]. split; [done|].
  split; cbn; try done; try apply R.
  - rewrite <- Ed2, <- Z.add_assoc. apply ring_rep_drop; [apply R|].
    rewrite E, encode_length_cons. lia.
  - rewrite (dr_tail _ _ _ R), E, encode_length_cons. f_equal. lia.
  - pose proof (dr_recs _ _ _ R) as Hr. rewrite E in Hr. by apply Forall_cons in Hr as [].
Qed.
End rep.

(** ** Abstract specification: a bounded queue of records *)

Record dq := Dq {
  dq_cap : Z;
  dq_max : Z;
  dq_recs : list (list Z);
  dq_armed : bool;
  dq_in : list (list Z);    (** every record accepted *)
  dq_out : list (list Z);   (** every record delivered *)
  dq_full : Z;              (** pushes declined, and oversize ones *)
  dq_over : Z
}.

Definition dq_used (recs : list (list Z)) : Z := foldr (λ r n, 4 + zlen r + n) 0 recs.

Definition dq_room (q : dq) (data : list Z) : bool :=
  dq_used (dq_recs q) + 4 + zlen data <=? dq_cap q.

Definition dq_arm (q : dq) (b : bool) : dq :=
  Dq (dq_cap q) (dq_max q) (dq_recs q) b (dq_in q) (dq_out q) (dq_full q) (dq_over q).

Definition dq_add (q : dq) (data : list Z) : dq :=
  Dq (dq_cap q) (dq_max q) (dq_recs q ++ [data]) (dq_armed q) (dq_in q ++ [data])
    (dq_out q) (dq_full q) (dq_over q).

Definition dq_decline (q : dq) (full over : Z) : dq :=
  Dq (dq_cap q) (dq_max q) (dq_recs q) (dq_armed q) (dq_in q) (dq_out q)
    (dq_full q + full) (dq_over q + over).

Definition dq_worker (q : dq) (w : worker_op) : worker_out * dq :=
  match w with
  | WPop =>
      match dq_recs q with
      | [] => (WRecord None, q)
      | r :: recs =>
          (WRecord (Some r), Dq (dq_cap q) (dq_max q) recs (dq_armed q) (dq_in q)
             (dq_out q ++ [r]) (dq_full q) (dq_over q))
      end
  | WTake => (WTaken (dq_armed q), dq_arm q false)
  end.

Fixpoint dq_workers (q : dq) (ws : list worker_op) : list worker_out * dq :=
  match ws with
  | [] => ([], q)
  | w :: ws =>
      let (o, q) := dq_worker q w in let (os, q) := dq_workers q ws in (o :: os, q)
  end.

Definition dq_push (during : list worker_op) (q : dq) (data : list Z)
    : Z * list worker_out * dq :=
  if dq_max q <? zlen data then (-1, [], dq_decline q 0 1)
  else if dq_room q data then (1, [], dq_add q data)
  else
    let (os, q) := dq_workers (dq_arm q true) during in
    if dq_room q data then (1, os, dq_add q data) else (0, os, dq_decline q 1 0).

Lemma dq_used_encode recs : dq_used recs = zlen (encode recs).
Proof.
  induction recs as [|r recs IH]; [done|]. rewrite encode_length_cons, <- IH. done.
Qed.

Record dg_sim (db : dgram_buf) (q : dq) : Prop := {
  dg_rep : ∃ H, db_rep db H (dq_recs q);
  dg_cap : db_capacity db = dq_cap q;
  dg_max : db_max_record db = dq_max q;
  dg_armed : db_drain_pending db = c_bool (dq_armed q);
  dg_hist : dq_in q = dq_out q ++ dq_recs q;
  dg_pushed : db_records_pushed db = u64 (zlen (dq_in q));
  dg_popped : db_records_popped db = u64 (zlen (dq_out q));
  dg_bytes : db_bytes_popped db = u64 (zlen (concat (dq_out q)));
  dg_full : db_push_full db = u64 (dq_full q);
  dg_over : db_push_oversize db = u64 (dq_over q)
}.

Lemma dg_sim_arm db q b : dg_sim db q -> dg_sim (db_set_drain db (c_bool b)) (dq_arm q b).
Proof.
  intros [[H R] ? ? ? ? ? ? ? ? ?]. split; cbn; try done.
  exists H. split; cbn; apply R.
Qed.

Lemma zlen_snoc {A} (l : list A) x : zlen (l ++ [x]) = zlen l + 1.
Proof. rewrite length_app. cbn. lia. Qed.

Lemma dg_sim_worker db q w : dg_sim db q ->
  ∃ db', worker_step db w = Some ((dq_worker q w).1, db') ∧ dg_sim db' (dq_worker q w).2.
Proof.
  intros S. pose proof S as [[H R] Ec Em Ea Eh E1 E2 E3 E4 E5].
  destruct w; unfold worker_step, dq_worker.
  - destruct (dq_recs q) as [|r recs] eqn:Eq.
    { rewrite (peek_empty R) by done. cbn. eauto. }
    rewrite (peek_cons R r recs) by done. cbn [mbind option_bind].
    pose proof (dr_recs _ _ _ R) as [[Hr _] _]%Forall_cons.
    rewrite (proj2 (Z.eqb_neq _ 0)) by lia.
    destruct (pop_cons R r recs eq_refl) as (db' & -> & -> & R'). cbn.
    eexists; split; [done|]. split; cbn; try done.
    + by eexists.
    + by rewrite Eh, <- app_assoc.
    + by rewrite E2, u64_add_l, zlen_snoc.
    + rewrite E3, u64_add_l, concat_app. cbn. rewrite app_nil_r, length_app. f_equal. lia.
  - eexists; split; [|exact (dg_sim_arm db q false S)].
    unfold aiopquic_dgram_buf_drain_take. rewrite Ea. by destruct (dq_armed q).
Qed.

Lemma dg_sim_workers ws : ∀ db q, dg_sim db q ->
  ∃ db', worker_run db ws = Some ((dq_workers q ws).1, db') ∧
    dg_sim db' (dq_workers q ws).2.
Proof.
  induction ws as [|w ws IH]; intros db q S; [by eexists|].
  destruct (dg_sim_worker db q w S) as (db1 & E1 & S1). cbn. rewrite E1. cbn.
  destruct (dq_worker q w) as [o q1]. cbn in *.
  destruct (IH db1 q1 S1) as (db2 & E2 & S2). rewrite E2. cbn.
  destruct (dq_workers q1 ws) as [os q2]. cbn in *. eauto.
Qed.

(** The free-space test of a push, against the abstract queue. *)
Lemma dg_room db q data : dg_sim db q -> zlen data <= db_max_record db ->
  (u32 (db_capacity db - u32 (u64 (db_tail db - db_head db)))
     <? u32 (AIOPQUIC_DGRAM_REC_HDR + zlen data)) = negb (dq_room q data).
Proof.
  intros [[H R] Ec Em _ _ _ _ _ _ _] Hl.
  change (u32 (u64 (db_tail db - db_head db))) with (aiopquic_dgram_buf_used db).
  rewrite (dr_free R), u32_small.
  - unfold dq_room, AIOPQUIC_DGRAM_REC_HDR. rewrite dq_used_encode, Ec.
    rewrite Z.leb_antisym, negb_involutive.
    destruct (Z.ltb_spec (dq_cap q - zlen (encode (dq_recs q))) (4 + zlen data)),
      (Z.ltb_spec (dq_cap q) (zlen (encode (dq_recs q)) + 4 + zlen data)); lia || done.
  - pose proof (dr_cap R). pose proof (dr_room _ _ _ R). unfold AIOPQUIC_DGRAM_REC_HDR. lia.
Qed.

Lemma dg_sim_write db q data : dg_sim db q -> record_ok (db_max_record db) data ->
  dq_room q data = true ->
  ∃ db', push_write db (db_tail db) data = Some db' ∧ dg_sim db' (dq_add q data).
Proof.
  intros [[H R] Ec Em Ea Eh E1 E2 E3 E4 E5] Hok Hroom.
  unfold dq_room in Hroom. rewrite dq_used_encode, Z.leb_le in Hroom.
  destruct (push_write_spec R data Hok ltac:(lia)) as (buf & tail & -> & R').
  eexists; split; [done|]. split; cbn; try done.
  - by eexists.
  - by rewrite Eh, <- app_assoc.
  - by rewrite E1, u64_add_l, zlen_snoc.
Qed.

Lemma dg_sim_decline db q full over f o : dg_sim db q ->
  f = u64 (dq_full q + full) -> o = u64 (dq_over q + over) ->
  dg_sim (db_set_producer db (db_tail db) (db_records_pushed db) f o)
    (dq_decline q full over).
Proof.
  intros [[H R] ? ? ? ? ? ? ? E4 E5] -> ->. split; cbn; try done.
  exists H. split; cbn; apply R.
Qed.

(** The worker's moves leave the producer's cursor alone. *)
Lemma worker_step_tail db w o db' : worker_step db w = Some (o, db') ->
  db_tail db' = db_tail db ∧ db_max_record db' = db_max_record db.
Proof.
  destruct w; cbn -[aiopquic_dgram_buf_peek_len]; unfold aiopquic_dgram_buf_pop_into;
    repeat (case_match || simplify_option_eq || simplify_eq/=); intros;
    repeat (case_match || simplify_option_eq || simplify_eq/=); done.
Qed.

Lemma worker_run_tail ws : ∀ db os db', worker_run db ws = Some (os, db') ->
  db_tail db' = db_tail db ∧ db_max_record db' = db_max_record db.
Proof.
  induction ws as [|w ws IH]; intros db os db' E; [by simplify_eq/=|].
  cbn in E. destruct (worker_step db w) as [[o db1]|] eqn:E1; [|done]. cbn in E.
  destruct (worker_run db1 ws) as [[os' db2]|] eqn:E2; [|done]. simplify_eq/=.
  apply IH in E2 as [-> ->]. by eapply worker_step_tail.
Qed.

Lemma dg_sim_push during db q data : dg_sim db q -> 0 < zlen data < 2 ^ 32 ->
  ∃ db', aiopquic_dgram_buf_push_record during db data
      = Some ((dq_push during q data).1, db') ∧ dg_sim db' (dq_push during q data).2.
Proof.
  intros S Hl. pose proof S as [_ _ Em _ _ _ _ _ Ef Eo].
  unfold aiopquic_dgram_buf_push_record, dq_push. rewrite Z.gtb_ltb, Em.
  destruct (Z.ltb_spec (dq_max q) (zlen data)) as [Hover|Hle].
  { eexists; split; [done|]. apply dg_sim_decline; [done|by rewrite Z.add_0_r|].
    by rewrite Eo, u64_add_l. }
  rewrite (dg_room db q) by (done || lia).
  destruct (dq_room q data) eqn:Er; cbn [negb].
  { destruct (dg_sim_write db q data S) as (db' & -> & S'); [split; lia|done|].
    cbn. eauto. }
  destruct (dg_sim_workers during _ _ (dg_sim_arm db q true S)) as (db1 & E1 & S1).
  cbn [c_bool] in E1. rewrite E1. cbn [mbind option_bind].
  destruct (worker_run_tail _ _ _ _ E1) as [Et Em1]. cbn in Et, Em1.
  destruct (dq_workers (dq_arm q true) during) as [os q1]. cbn [fst snd] in *.
  rewrite <- Et, (dg_room db1 q1) by (done || lia).
  destruct (dq_room q1 data) eqn:Er1; cbn [negb].
  - destruct (dg_sim_write db1 q1 data S1) as (db' & -> & S'); [split; lia|done|].
    cbn. eauto.
  - eexists; split; [done|]. destruct S1 as [? ? ? ? ? ? ? ? Ef1 Eo1].
    apply dg_sim_decline; [done|by rewrite Ef1, u64_add_l|by rewrite Z.add_0_r].
Qed.

(** ** Runs *)

Inductive dg_op :=
  | DgPush (during : list worker_op) (data : list Z)
  | DgWorker (w : worker_op)
  | DgUsed.

Inductive dg_out :=
  | DoPush (rc : Z) (os : list worker_out)
  | DoWorker (o : worker_out)
  | DoUsed (n : Z).

(** Python never queues an empty datagram. *)
Definition dg_op_ok (o : dg_op) : Prop :=
  match o with DgPush _ data => 0 < zlen data < 2 ^ 32 | _ => True end.

Definition dg_step (db : dgram_buf) (o : dg_op) : option (dg_out * dgram_buf) :=
  match o with
  | DgPush during data =>
      '(rc, os, db) ← aiopquic_dgram_buf_push_record during db data;
      Some (DoPush rc os, db)
  | DgWorker w => '(o, db) ← worker_step db w; Some (DoWorker o, db)
  | DgUsed => Some (DoUsed (aiopquic_dgram_buf_used db), db)
  end.

Fixpoint dg_run (db : dgram_buf) (ops : list dg_op) : option (list dg_out * dgram_buf) :=
  match ops with
  | [] => Some ([], db)
  | o :: ops =>
      '(r, db) ← dg_step db o; '(rs, db) ← dg_run db ops; Some (r :: rs, db)
  end.

Definition dq_step (q : dq) (o : dg_op) : dg_out * dq :=
  match o with
  | DgPush during data =>
      let '(rc, os, q) := dq_push during q data in (DoPush rc os, q)
  | DgWorker w => let (o, q) := dq_worker q w in (DoWorker o, q)
  | DgUsed => (DoUsed (dq_used (dq_recs q)), q)
  end.

Fixpoint dq_run (q : dq) (ops : list dg_op) : list dg_out * dq :=
  match ops with
  | [] => ([], q)
  | o :: ops => let (r, q) := dq_step q o in let (rs, q) := dq_run q ops in (r :: rs, q)
  end.

(** The capacity [create] settles on: the request rounded up, or what two
    records of the maximal size need. *)
Definition dgram_capacity (capacity max_record : Z) : Z :=
  Z.max (aiopquic_ceil_pow2_u32 capacity) (aiopquic_ceil_pow2_u32 (2 * (4 + max_record))).

Definition dq_new (capacity max_record : Z) : dq :=
  Dq (dgram_capacity capacity max_record) max_record [] false [] [] 0 0.

Lemma dg_sim_step db q o : dg_sim db q -> dg_op_ok o ->
  ∃ db', dg_step db o = Some ((dq_step q o).1, db') ∧ dg_sim db' (dq_step q o).2.
Proof.
  intros S Hok. destruct o as [during data|w|]; cbn in *.
  - destruct (dg_sim_push during db q data S Hok) as (db' & -> & S').
    destruct (dq_push during q data) as [[rc os] q']. cbn in *. eauto.
  - destruct (dg_sim_worker db q w S) as (db' & -> & S').
    destruct (dq_worker q w). cbn in *. eauto.
  - destruct (dg_rep _ _ S) as [H R]. rewrite (dr_used R), <- dq_used_encode. eauto.
Qed.

Lemma dg_sim_run ops : ∀ db q, dg_sim db q -> Forall dg_op_ok ops ->
  ∃ db', dg_run db ops = Some ((dq_run q ops).1, db') ∧ dg_sim db' (dq_run q ops).2.
Proof.
  induction ops as [|o ops IH]; intros db q S Hok; [by eexists|].
  apply Forall_cons in Hok as [Ho Hok].
  destruct (dg_sim_step db q o S Ho) as (db1 & E1 & S1). cbn. rewrite E1. cbn.
  destruct (dq_step q o) as [r q1]. cbn in *.
  destruct (IH db1 q1 S1 Hok) as (db2 & E2 & S2). rewrite E2. cbn.
  destruct (dq_run q1 ops). cbn in *. eauto.
Qed.

(** [ceil_pow2] is monotone enough: it keeps powers of two and dominates. *)
Lemma ceil_pow2_max capacity need : 0 <= capacity < 2 ^ 32 -> 0 <= need <= 2 ^ 31 ->
  (if aiopquic_ceil_pow2_u32 capacity <? need then aiopquic_ceil_pow2_u32 need
   else aiopquic_ceil_pow2_u32 capacity)
  = Z.max (aiopquic_ceil_pow2_u32 capacity) (aiopquic_ceil_pow2_u32 need).
Proof.
  intros Hc Hn. destruct (ceil_pow2_cases capacity Hc) as (Pc & _ & _ & _).
  destruct (ceil_pow2_cases need ltac:(lia)) as (Pn & Hge & _ & Hlt).
  specialize (Hge ltac:(lia)). case_bool; [lia|].
  destruct (Z.eq_dec need 0) as [->|]; [apply is_pow2_bounds in Pc; cbn; lia|].
  specialize (Hlt ltac:(lia)).
  destruct Pc as (a & Ha & Ea), Pn as (b & Hb & Eb). rewrite Ea, Eb in *.
  rewrite Z.max_l; [done|]. apply Z.pow_le_mono_r; [lia|].
  destruct (Z.le_gt_cases b a) as [|Hab]; [done|exfalso].
  assert (2 ^ (a + 1) <= 2 ^ b) by (apply Z.pow_le_mono_r; lia).
  rewrite Z.pow_add_r in * by lia. lia.
Qed.

Lemma dgram_capacity_spec capacity max_record :
  0 <= capacity < 2 ^ 32 -> 0 < max_record <= 2 ^ 30 - 4 ->
  is_pow2 (dgram_capacity capacity max_record) ∧
  2 * (4 + max_record) <= dgram_capacity capacity max_record.
Proof.
  intros Hc Hm. unfold dgram_capacity.
  destruct (ceil_pow2_cases (2 * (4 + max_record)) ltac:(lia)) as (Pn & Hge & _).
  pose proof (ceil_pow2_is_pow2 capacity Hc) as Pc. split; [|lia].
  destruct (Z.max_spec (aiopquic_ceil_pow2_u32 capacity)
    (aiopquic_ceil_pow2_u32 (2 * (4 + max_record)))) as [[_ ->]|[_ ->]]; done.
Qed.

Lemma dg_sim_create blk alive capacity max_record :
  0 <= capacity < 2 ^ 32 -> 0 < max_record <= 2 ^ 30 - 4 ->
  zlen blk = dgram_capacity capacity max_record ->
  ∃ db, aiopquic_dgram_buf_create true (Some blk) alive capacity max_record
      = (Some db, alive + 1) ∧
    db_refcnt db = 1 ∧ dg_sim db (dq_new capacity max_record).
Proof.
  intros Hc Hm Hb. pose proof (dgram_capacity_spec capacity max_record Hc Hm) as [Hp Hr].
  pose proof (is_pow2_bounds _ (ceil_pow2_is_pow2 capacity Hc)).
  pose proof (is_pow2_bounds _ Hp).
  unfold aiopquic_dgram_buf_create, AIOPQUIC_DGRAM_REC_HDR.
  rewrite (proj2 (Z.eqb_neq (aiopquic_ceil_pow2_u32 capacity) 0)) by lia.
  rewrite (proj2 (Z.eqb_neq max_record 0)) by lia. cbn [orb negb].
  rewrite (u32_small (4 + _)), (u32_small (2 * _)) by lia.
  rewrite ceil_pow2_max by lia. fold (dgram_capacity capacity max_record).
  rewrite u32_small by lia.
  eexists; split; [done|]. split; [done|]. split; cbn; try done.
  exists 0. split; cbn; try done. rewrite <- Hb. apply ring_rep_empty; lia.
Qed.

(** A ring is made empty, with one reference, or not at all. *)
Lemma dgram_create_cases ok blk alive capacity max_record :
  0 <= capacity < 2 ^ 32 -> 0 < max_record <= 2 ^ 30 - 4 ->
  (∀ bs, blk = Some bs -> zlen bs = dgram_capacity capacity max_record) ->
  aiopquic_dgram_buf_create ok blk alive capacity max_record = (None, alive) ∨
  ∃ b H, aiopquic_dgram_buf_create ok blk alive capacity max_record = (Some b, alive + 1) ∧
    db_refcnt b = 1 ∧ db_rep b H [].
Proof.
  intros Hc Hm Hb. destruct ok, blk as [bs|].
  - right. destruct (dg_sim_create bs alive capacity max_record Hc Hm (Hb _ eq_refl))
      as (b & E & Ec & [[H R] _ _ _ _ _ _ _ _ _]). by exists b, H.
  - left. unfold aiopquic_dgram_buf_create. by repeat case_match.
  - left. unfold aiopquic_dgram_buf_create. by repeat case_match.
  - left. unfold aiopquic_dgram_buf_create. by repeat case_match.
Qed.

(** No operation changes the capacity or the record cap. *)
Lemma dq_workers_const ws : ∀ q, dq_max (dq_workers q ws).2 = dq_max q.
Proof.
  induction ws as [|w ws IH]; intros q; [done|]. cbn.
  destruct (dq_worker q w) as [o q1] eqn:E. specialize (IH q1).
  destruct (dq_workers q1 ws) as [os q2]. cbn in *. rewrite IH.
  destruct w; cbn in E; [destruct (dq_recs q)|]; by simplify_eq.
Qed.

(** A worker that starts with the signal armed takes it or leaves it armed. *)
Lemma dq_workers_armed ws : ∀ q, dq_armed q = true ->
  WTaken true ∈ (dq_workers q ws).1 ∨ dq_armed (dq_workers q ws).2 = true.
Proof.
  induction ws as [|w ws IH]; intros q Ha; [by right|]. cbn.
  destruct w; cbn; [|rewrite Ha; destruct (dq_workers _ ws); left; constructor].
  assert (Ha' : dq_armed (dq_worker q WPop).2 = true) by (cbn; by destruct (dq_recs q)).
  specialize (IH _ Ha'). cbn in IH. destruct (dq_recs q); cbn in *;
    destruct (dq_workers _ ws); cbn in *; (destruct IH; [left; by constructor|by right]).
Qed.

Lemma dq_run_max ops : ∀ q, dq_max (dq_run q ops).2 = dq_max q.
Proof.
  induction ops as [|o ops IH]; intros q; [done|]. cbn.
  destruct (dq_step q o) as [r q1] eqn:E. specialize (IH q1).
  destruct (dq_run q1 ops) as [rs q2]. cbn in *. rewrite IH. clear IH.
  destruct o as [during data|w|]; cbn in E; [| |by simplify_eq].
  - unfold dq_push in E. pose proof (dq_workers_const during (dq_arm q true)) as Hw.
    destruct (dq_workers (dq_arm q true) during) as [os q3].
    repeat (case_match; simplify_eq/=); done.
  - pose proof (dq_workers_const [w] q) as Hw. cbn in Hw.
    destruct (dq_worker q w). by simplify_eq/=.
Qed.

(** ** Properties *)

(** C10. Refinement: from its creation, every sequence of pushes (with any worker
    activity between the arm and the re-check), pops, drain-takes and size queries
    on the datagram ring answers exactly as the bounded record queue does: records
    come out whole, in order, once; nothing is read or written out of bounds. *)
Theorem dgram_ring_refines_queue blk alive capacity max_record ops :
  0 <= capacity < 2 ^ 32 -> 0 < max_record <= 2 ^ 30 - 4 ->
  zlen blk = dgram_capacity capacity max_record -> Forall dg_op_ok ops ->
  ∃ db db', aiopquic_dgram_buf_create true (Some blk) alive capacity max_record
      = (Some db, alive + 1) ∧
    dg_run db ops = Some ((dq_run (dq_new capacity max_record) ops).1, db') ∧
    dq_in (dq_run (dq_new capacity max_record) ops).2
      = dq_out (dq_run (dq_new capacity max_record) ops).2
        ++ dq_recs (dq_run (dq_new capacity max_record) ops).2.
Proof.
  intros Hc Hm Hb Hok.
  destruct (dg_sim_create blk alive capacity max_record Hc Hm Hb) as (db & E & _ & S).
  destruct (dg_sim_run ops db _ S Hok) as (db' & Er & S').
  exists db, db'. split_and!; [done..|apply S'].
Qed.

Lemma dgram_ring_refines_queue_witness :
  let ops := [DgPush [] [1; 2; 3]; DgPush [] [4; 5]; DgPush [] [6; 7; 8; 9];
              DgPush [WPop; WTake] [6; 7; 8; 9]; DgPush [] (replicate 9 0);
              DgWorker WPop; DgWorker WPop; DgWorker WPop; DgUsed] in
  ∃ db db', aiopquic_dgram_buf_create true (Some (replicate 16 0)) 0 8 4 = (Some db, 0 + 1) ∧
    dg_run db ops = Some ([DoPush 1 []; DoPush 1 []; DoPush 0 [];
      DoPush 1 [WRecord (Some [1; 2; 3]); WTaken true]; DoPush (-1) [];
      DoWorker (WRecord (Some [4; 5])); DoWorker (WRecord (Some [6; 7; 8; 9]));
      DoWorker (WRecord None); DoUsed 0], db') ∧
    dq_in (dq_run (dq_new 8 4) ops).2
      = dq_out (dq_run (dq_new 8 4) ops).2 ++ dq_recs (dq_run (dq_new 8 4) ops).2.
Proof.
  intros ops. apply (dgram_ring_refines_queue (replicate 16 0) 0 8 4 ops);
    [lia|lia|done|]. repeat constructor; cbn; lia.
Defined.

(** No deadlock on a big record: in every state a ring can reach with at most
    one record queued, a push of any record up to [max_record] is accepted at
    once. *)
Theorem dgram_max_record_fits blk alive capacity max_record db ops outs db' data :
  0 <= capacity < 2 ^ 32 -> 0 < max_record <= 2 ^ 30 - 4 ->
  zlen blk = dgram_capacity capacity max_record ->
  aiopquic_dgram_buf_create true (Some blk) alive capacity max_record = (Some db, alive + 1) ->
  Forall dg_op_ok ops -> dg_run db ops = Some (outs, db') ->
  (length (dq_recs (dq_run (dq_new capacity max_record) ops).2) <= 1)%nat ->
  0 < zlen data <= max_record ->
  ∃ db'', aiopquic_dgram_buf_push_record [] db' data = Some (1, [], db'').
Proof.
  intros Hc Hm Hb E Hok Er Hone Hd.
  destruct (dg_sim_create blk alive capacity max_record Hc Hm Hb) as (db1 & E' & _ & S).
  rewrite E in E'. injection E' as <-. destruct (dg_sim_run ops db _ S Hok) as (db2 & Er' & S'). simplify_eq.
  destruct (dg_rep _ _ S') as [H R].
  destruct (dg_sim_push [] db' _ data S' ltac:(lia)) as (db3 & E3 & _).
  exists db3. rewrite E3. do 2 f_equal. unfold dq_push.
  assert (Em : dq_max (dq_run (dq_new capacity max_record) ops).2 = max_record)
    by apply dq_run_max.
  rewrite Em, (proj2 (Z.ltb_ge _ _)) by lia.
  unfold dq_room. rewrite <- (dg_cap _ _ S').
  pose proof (dr_room _ _ _ R) as Hroom. rewrite (dg_max _ _ S'), Em in Hroom.
  pose proof (dr_recs _ _ _ R) as Hrecs. rewrite (dg_max _ _ S'), Em in Hrecs.
  destruct (dq_recs _) as [|r [|? ?]]; cbn in Hone; [| |lia].
  - cbn. by rewrite (proj2 (Z.leb_le _ _)) by lia.
  - apply Forall_cons in Hrecs as [[_ Hr] _]. cbn.
    by rewrite (proj2 (Z.leb_le _ _)) by lia.
Qed.

Lemma dgram_max_record_fits_witness :
  ∃ db outs db', aiopquic_dgram_buf_create true (Some (replicate 16 0)) 0 8 4
      = (Some db, 0 + 1) ∧
    dg_run db [DgPush [] [1; 2; 3; 4]] = Some (outs, db') ∧
    ∃ db'', aiopquic_dgram_buf_push_record [] db' [5; 6; 7; 8] = Some (1, [], db'').
Proof.
  do 3 eexists. split; [vm_compute; reflexivity|]. split; [vm_compute; reflexivity|].
  apply (dgram_max_record_fits (replicate 16 0) 0 8 4
    (DgramBuf (replicate 16 0) 16 15 4 0 0 1 0 0 0 0 0 0 0) [DgPush [] [1; 2; 3; 4]]
    [DoPush 1 []]);
    [lia|lia|done|vm_compute; reflexivity| |vm_compute; reflexivity
    |apply Nat.leb_le; vm_compute; reflexivity|cbn; lia].
  repeat constructor; cbn; lia.
Defined.

(** No lost wakeup: when a push reports the ring full, either the worker took
    the drain signal during the push (it then posts DATAGRAM_TX_DRAINED), or the
    ring still holds a record, so the worker pops again, and its next pop and
    drain-take find the signal armed. *)
Theorem dgram_full_push_wakes blk alive capacity max_record db ops outs db1 during data os db2 :
  0 <= capacity < 2 ^ 32 -> 0 < max_record <= 2 ^ 30 - 4 ->
  zlen blk = dgram_capacity capacity max_record ->
  aiopquic_dgram_buf_create true (Some blk) alive capacity max_record = (Some db, alive + 1) ->
  Forall dg_op_ok ops -> dg_run db ops = Some (outs, db1) -> 0 < zlen data < 2 ^ 32 ->
  aiopquic_dgram_buf_push_record during db1 data = Some (0, os, db2) ->
  WTaken true ∈ os ∨
  ∃ r db3, worker_run db2 [WPop; WTake] = Some ([WRecord (Some r); WTaken true], db3).
Proof.
  intros Hc Hm Hb E Hok Er Hd Ep.
  destruct (dg_sim_create blk alive capacity max_record Hc Hm Hb) as (db0 & E' & _ & S).
  rewrite E in E'. injection E' as <-. destruct (dg_sim_run ops db _ S Hok) as (db' & Er' & S1). simplify_eq.
  destruct (dg_sim_push during db1 _ data S1 Hd) as (db' & Ep' & S2).
  set (q := (dq_run _ ops).2) in *. rewrite Ep in Ep'. injection Ep' as Ep' <-.
  destruct (dg_sim_workers [WPop; WTake] db2 _ S2) as (db3 & E3 & _). rewrite E3.
  revert Ep' S2. unfold dq_push. destruct (dq_max q <? zlen data) eqn:Hover; [done|].
  destruct (dq_room q data); [done|].
  pose proof (dq_workers_armed during (dq_arm q true) eq_refl) as Ha.
  destruct (dq_workers (dq_arm q true) during) as [os' q'] eqn:Ew.
  destruct (dq_room q' data) eqn:Eroom; [done|]. cbn [fst snd]. intros [= ->] S2.
  destruct Ha as [Ha|Ha]; [by left|]. right. cbn in Ha |- *.
  destruct (dq_recs q') as [|r recs] eqn:Erecs; [exfalso|by rewrite Ha; eauto].
  (* an empty ring has room for any record the cap admits *)
  destruct (dg_rep _ _ S2) as [H R]. pose proof (dr_room _ _ _ R) as Hr.
  rewrite (dg_cap _ _ S2), (dg_max _ _ S2) in Hr. cbn in Hr.
  pose proof (dq_workers_const during (dq_arm q true)) as Hmax. rewrite Ew in Hmax.
  cbn in Hmax. unfold dq_room in Eroom. rewrite Erecs in Eroom. cbn in Eroom.
  apply Z.leb_gt in Eroom. apply Z.ltb_ge in Hover.
  pose proof (dq_run_max ops (dq_new capacity max_record)). fold q in H0. cbn in H0. lia.
Qed.

Lemma dgram_full_push_wakes_witness :
  ∃ db outs db1 os db2, aiopquic_dgram_buf_create true (Some (replicate 16 0)) 0 8 4
      = (Some db, 0 + 1) ∧
    dg_run db [DgPush [] [1; 2; 3; 4]; DgPush [] [5; 6; 7; 8]] = Some (outs, db1) ∧
    aiopquic_dgram_buf_push_record [] db1 [9] = Some (0, os, db2) ∧
    (WTaken true ∈ os ∨
     ∃ r db3, worker_run db2 [WPop; WTake] = Some ([WRecord (Some r); WTaken true], db3)).
Proof.
  do 5 eexists. do 3 (split; [vm_compute; reflexivity|]).
  apply (dgram_full_push_wakes (replicate 16 0) 0 8 4
    (DgramBuf (replicate 16 0) 16 15 4 0 0 1 0 0 0 0 0 0 0)
    [DgPush [] [1; 2; 3; 4]; DgPush [] [5; 6; 7; 8]] [DoPush 1 []; DoPush 1 []]
    (DgramBuf [4; 0; 0; 0; 1; 2; 3; 4; 4; 0; 0; 0; 5; 6; 7; 8] 16 15 4 16 0 1 0 2 0 0 0 0 0)
    [] [9]);
    [lia|lia|done|vm_compute; reflexivity| |vm_compute; reflexivity|cbn; lia
    |vm_compute; reflexivity].
  repeat constructor; cbn; lia.
Defined.
