(* ===== verification/DgramTable.v ===== *)
(** * Connection-to-ring table (datagram_buf.h, second half)

    [dgram_table] is [aiopquic_dgram_table_t], an open-addressing hash table from
    connection pointers to datagram rings, with tombstones.  [ring_store] holds the
    rings with their reference counts: a table entry is a reference, and a ring
    whose last reference goes is freed.  The specification of the table is a finite
    map ([tbl_rep]); [refs_ok] is the ownership invariant of the store. *)
From S2P Require Import Prelude Ring Store StreamBuf DgramBuf.

(** ** Rings and their references *)

Record ring_store := RingStore {
  rs_rings : gmap Z dgram_buf;
  rs_alive : Z     (** [aiopquic_cnt_dgram_rings_alive] *)
}.

(** [None]: the pointer does not name a live ring. *)
Definition rs_addref (st : ring_store) (p : Z) : option ring_store :=
  db ← rs_rings st !! p;
  Some (RingStore (<[p := aiopquic_dgram_buf_addref db]> (rs_rings st)) (rs_alive st)).

Definition rs_unref (st : ring_store) (p : Z) : option ring_store :=
  if p =? 0 then Some st
  else
    db ← rs_rings st !! p;
    match aiopquic_dgram_buf_unref db (rs_alive st) with
    | (None, alive) => Some (RingStore (delete p (rs_rings st)) alive)
    | (Some db, alive) => Some (RingStore (<[p := db]> (rs_rings st)) alive)
    end.

(** ** The table *)

Definition AIOPQUIC_DGRAM_SLOT_TOMBSTONE : Z := 1.

Record dgram_slot := DgramSlot { s_cnx : Z; s_db : Z }.

Record dgram_table := DgramTable {
  t_slots : list dgram_slot;
  t_cap : Z;
  t_mask : Z;
  t_live : Z;
  t_used : Z
}.

Definition dgram_table0 : dgram_table := DgramTable [] 0 0 0 0.

Definition slot0 : dgram_slot := DgramSlot 0 0.
Definition slot_tomb : dgram_slot := DgramSlot AIOPQUIC_DGRAM_SLOT_TOMBSTONE 0.

Definition s32 (x : Z) : Z := (x + 2 ^ 31) mod 2 ^ 32 - 2 ^ 31.

Definition aiopquic_dgram_hash_ptr (p : Z) : Z :=
  let v := Z.lxor p (Z.shiftr p 33) in
  let v := u64 (v * 0xff51afd7ed558ccd) in
  let v := Z.lxor v (Z.shiftr v 33) in
  u32 v.

(** [while (ns[j].cnx != NULL) j = (j + 1) & new_mask]; [None]: out of fuel or
    out of bounds. *)
Fixpoint probe_free (fuel : nat) (ns : list dgram_slot) (mask j : Z) : option Z :=
  match fuel with
  | O => None
  | S fuel =>
      s ← ns !! Z.to_nat j;
      if s_cnx s =? 0 then Some j else probe_free fuel ns mask (Z.land (u32 (j + 1)) mask)
  end.

(** The rehash loop of [aiopquic_dgram_table_grow] over the old slots. *)
Fixpoint rehash (old : list dgram_slot) (ns : list dgram_slot) (mask : Z)
    : option (list dgram_slot) :=
  match old with
  | [] => Some ns
  | s :: old =>
      if (s_cnx s =? 0) || (s_cnx s =? AIOPQUIC_DGRAM_SLOT_TOMBSTONE)
      then rehash old ns mask
      else
        j ← probe_free (length ns) ns mask
              (Z.land (aiopquic_dgram_hash_ptr (s_cnx s)) mask);
        rehash old (<[Z.to_nat j := s]> ns) mask
  end.

(** [ok]: whether [calloc] succeeds. *)
Definition aiopquic_dgram_table_grow (ok : bool) (t : dgram_table)
    : option (Z * dgram_table) :=
  let new_cap := if negb (t_cap t =? 0) then u32 (t_cap t * 2) else 64 in
  if negb ok then Some (-1, t)
  else
    let new_mask := u32 (new_cap - 1) in
    ns ← rehash (t_slots t) (replicate (Z.to_nat new_cap) slot0) new_mask;
    Some (0, DgramTable ns new_cap new_mask (t_live t) (t_live t)).

(** Where the search loop of [put], [get] and [remove_ring] stops: at the key, or
    at a NULL slot with the first tombstone it passed (-1: none; only [put] looks
    at it). *)
Inductive probe_result :=
  | PFound (i : Z)
  | PAbsent (i : Z) (first_tomb : Z).

Fixpoint probe (fuel : nat) (slots : list dgram_slot) (mask cnx i first_tomb : Z)
    : option probe_result :=
  match fuel with
  | O => None
  | S fuel =>
      s ← slots !! Z.to_nat i;
      if s_cnx s =? cnx then Some (PFound i)
      else if s_cnx s =? 0 then Some (PAbsent i first_tomb)
      else
        probe fuel slots mask cnx (Z.land (u32 (i + 1)) mask)
          (if (s_cnx s =? AIOPQUIC_DGRAM_SLOT_TOMBSTONE) && (first_tomb <? 0)
           then s32 i else first_tomb)
  end.

Definition table_probe (t : dgram_table) (cnx : Z) : option probe_result :=
  probe (length (t_slots t)) (t_slots t) (t_mask t) cnx
    (Z.land (aiopquic_dgram_hash_ptr cnx) (t_mask t)) (-1).

Definition aiopquic_dgram_table_put (ok : bool) (t : dgram_table) (st : ring_store)
    (cnx db : Z) : option (Z * dgram_table * ring_store) :=
  '(rc, t) ← (if (t_cap t =? 0) || (u32 (u32 (t_used t + 1) * 10) >=? u32 (t_cap t * 7))
              then aiopquic_dgram_table_grow ok t else Some (0, t));
  if negb (rc =? 0) then Some (-1, t, st)
  else
    r ← table_probe t cnx;
    match r with
    | PFound _ => Some (0, t, st)
    | PAbsent i first_tomb =>
        let j := if first_tomb >=? 0 then u32 first_tomb else i in
        let used := if first_tomb >=? 0 then t_used t else u32 (t_used t + 1) in
        st ← rs_addref st db;
        Some (0, DgramTable (<[Z.to_nat j := DgramSlot cnx db]> (t_slots t)) (t_cap t)
                   (t_mask t) (u32 (t_live t + 1)) used, st)
    end.

(** 0 is NULL. *)
Definition aiopquic_dgram_table_get (t : dgram_table) (cnx : Z) : option Z :=
  if t_cap t =? 0 then Some 0
  else
    r ← table_probe t cnx;
    match r with
    | PFound i => s ← t_slots t !! Z.to_nat i; Some (s_db s)
    | PAbsent _ _ => Some 0
    end.

Definition aiopquic_dgram_table_remove_ring (t : dgram_table) (st : ring_store)
    (cnx db : Z) : option (dgram_table * ring_store) :=
  if (t_cap t =? 0) || (cnx =? 0) then Some (t, st)
  else
    r ← table_probe t cnx;
    match r with
    | PAbsent _ _ => Some (t, st)
    | PFound i =>
        s ← t_slots t !! Z.to_nat i;
        if negb (db =? 0) && negb (s_db s =? db) then Some (t, st)
        else
          st ← rs_unref st (s_db s);
          Some (DgramTable (<[Z.to_nat i := slot_tomb]> (t_slots t)) (t_cap t) (t_mask t)
                  (u32 (t_live t - 1)) (t_used t), st)
    end.

Definition aiopquic_dgram_table_remove (t : dgram_table) (st : ring_store) (cnx : Z)
    : option (dgram_table * ring_store) :=
  aiopquic_dgram_table_remove_ring t st cnx 0.

Fixpoint unref_slots (slots : list dgram_slot) (st : ring_store) : option ring_store :=
  match slots with
  | [] => Some st
  | s :: slots =>
      st ← (if negb (s_cnx s =? 0) && negb (s_cnx s =? AIOPQUIC_DGRAM_SLOT_TOMBSTONE)
            then rs_unref st (s_db s) else Some st);
      unref_slots slots st
  end.

Definition aiopquic_dgram_table_destroy (t : dgram_table) (st : ring_store)
    : option (dgram_table * ring_store) :=
  st ← unref_slots (t_slots t) st; Some (dgram_table0, st).

(** ** Counting slots *)

Definition countb {A} (f : A -> bool) (l : list A) : Z := lsum (λ x, c_bool (f x)) l.

Lemma countb_cons {A} (f : A -> bool) x l : countb f (x :: l) = c_bool (f x) + countb f l.
Proof. done. Qed.

Arguments countb : simpl never.

Lemma countb_insert {A} (f : A -> bool) l : ∀ i x y, l !! i = Some y ->
  countb f (<[i := x]> l) = countb f l - c_bool (f y) + c_bool (f x).
Proof.
  induction l as [|z l IH]; intros [|i] x y E; cbn in *; simplify_eq;
    rewrite !countb_cons; [lia|]. rewrite (IH _ _ _ E). lia.
Qed.

Lemma c_bool_range b : 0 <= c_bool b <= 1.
Proof. destruct b; cbn; lia. Qed.

Lemma countb_range {A} (f : A -> bool) l : 0 <= countb f l <= zlen l.
Proof.
  induction l as [|x l IH]; [unfold countb, lsum; cbn; lia|]. rewrite countb_cons.
  pose proof (c_bool_range (f x)). cbn. lia.
Qed.

Lemma countb_lt {A} (f : A -> bool) l : countb f l < zlen l ->
  ∃ i y, l !! i = Some y ∧ f y = false.
Proof.
  induction l as [|x l IH]; [unfold countb, lsum; cbn; lia|]. rewrite countb_cons. intros Hlt. cbn in Hlt.
  destruct (f x) eqn:Ef; [|by exists 0%nat, x]. cbn in Hlt.
  destruct IH as (i & y & Hi & Hf); [lia|]. by exists (S i), y.
Qed.

Lemma countb_replicate {A} (f : A -> bool) n x : f x = false ->
  countb f (replicate n x) = 0.
Proof.
  intros Hf. induction n; [done|]. cbn [replicate]. by rewrite countb_cons, Hf, IHn.
Qed.

Lemma countb_le {A} (f g : A -> bool) l : (∀ x, f x = true -> g x = true) ->
  countb f l <= countb g l.
Proof.
  intros Hfg. induction l as [|x l IH]; [done|]. rewrite !countb_cons. specialize (Hfg x).
  destruct (f x), (g x); cbn; lia.
Qed.

Definition slot_used (s : dgram_slot) : bool := negb (s_cnx s =? 0).
Definition slot_live (s : dgram_slot) : bool :=
  negb (s_cnx s =? 0) && negb (s_cnx s =? AIOPQUIC_DGRAM_SLOT_TOMBSTONE).

(** ** The slot array as a finite map *)

Definition home (cap cnx : Z) : Z := aiopquic_dgram_hash_ptr cnx mod cap.

(** The [n]-th slot of the probe sequence that starts at [h]. *)
Abbreviation at_probe slots cap h n := (slots !! Z.to_nat ((h + n) mod cap)).

Definition nonnull (slots : list dgram_slot) (cap h n : Z) : Prop :=
  ∃ s, at_probe slots cap h n = Some s ∧ s_cnx s <> 0.

(** Every key sits on its probe sequence with no NULL slot before it. *)
Record slots_ok (cap : Z) (slots : list dgram_slot) (m : gmap Z Z) : Prop := {
  so_pow2 : is_pow2 cap;
  so_len : zlen slots = cap;
  so_map : ∀ c d, m !! c = Some d <-> 2 <= c ∧ ∃ i, slots !! i = Some (DgramSlot c d);
  so_uniq : ∀ i j c d d', 2 <= c -> slots !! i = Some (DgramSlot c d) ->
    slots !! j = Some (DgramSlot c d') -> i = j;
  so_pos : ∀ i c d, slots !! i = Some (DgramSlot c d) -> 0 <= c;
  so_chain : ∀ i c d, 2 <= c -> slots !! i = Some (DgramSlot c d) ->
    ∃ n, 0 <= n < cap ∧ i = Z.to_nat ((home cap c + n) mod cap) ∧
      ∀ e, 0 <= e < n -> nonnull slots cap (home cap c) e
}.

Lemma next_slot cap i : is_pow2 cap -> 0 <= i < cap ->
  Z.land (u32 (i + 1)) (cap - 1) = (i + 1) mod cap.
Proof.
  intros Hp Hi. pose proof (is_pow2_bounds _ Hp). rewrite u32_small by lia.
  destruct Hp as (k & Hk & ->). apply land_mask. lia.
Qed.

Lemma home_mask cap c : is_pow2 cap ->
  Z.land (aiopquic_dgram_hash_ptr c) (cap - 1) = home cap c.
Proof. intros (k & Hk & ->). apply land_mask. lia. Qed.

Lemma probe_free_probe fuel : ∀ ns mask j t,
  probe fuel ns mask 0 j t = option_map PFound (probe_free fuel ns mask j).
Proof.
  induction fuel as [|fuel IH]; intros; [done|]. cbn.
  destruct (ns !! Z.to_nat j) as [s|]; [|done]. cbn. case_match; [done|]. apply IH.
Qed.

(** What a tombstone index returned by a search stands for. *)
Definition tomb_ok (slots : list dgram_slot) (cap h n tomb : Z) : Prop :=
  tomb = -1 ∨ ∃ e s, 0 <= e < n ∧ tomb = (h + e) mod cap ∧
    at_probe slots cap h e = Some s ∧ s_cnx s = AIOPQUIC_DGRAM_SLOT_TOMBSTONE.

(** The search passes [n] occupied slots that are not the key. *)
Lemma probe_skip cap slots cnx h (Hp : is_pow2 cap) : ∀ (n : nat) fuel,
  (∀ e, 0 <= e < Z.of_nat n -> ∃ s, at_probe slots cap h e = Some s ∧
     s_cnx s <> cnx ∧ s_cnx s <> 0) ->
  ∃ tomb, probe (n + fuel) slots (cap - 1) cnx (h mod cap) (-1)
    = probe fuel slots (cap - 1) cnx ((h + Z.of_nat n) mod cap) tomb ∧
    tomb_ok slots cap h (Z.of_nat n) tomb.
Proof.
  induction n as [|n IH]; intros fuel Hocc.
  { exists (-1). rewrite Z.add_0_r. split; [done|by left]. }
  destruct (IH (S fuel)) as (tomb & E & Ht); [intros; apply Hocc; lia|].
  destruct (Hocc (Z.of_nat n) ltac:(lia)) as (s & Es & Hc & H0).
  pose proof (is_pow2_bounds _ Hp). pose proof (slot_lt cap (h + Z.of_nat n) ltac:(lia)).
  replace (S n + fuel)%nat with (n + S fuel)%nat by lia. rewrite E. cbn. rewrite Es. cbn.
  rewrite (proj2 (Z.eqb_neq _ cnx)), (proj2 (Z.eqb_neq _ 0)) by done.
  rewrite next_slot by (done || lia).
  rewrite Zplus_mod_idemp_l, <- Z.add_assoc.
  replace (Z.of_nat n + 1) with (Z.of_nat (S n)) by lia.
  eexists; split; [done|].
  destruct ((s_cnx s =? AIOPQUIC_DGRAM_SLOT_TOMBSTONE) && (tomb <? 0)) eqn:Eb.
  - apply andb_true_iff in Eb as [Eb _]. apply Z.eqb_eq in Eb. right.
    exists (Z.of_nat n), s. split; [lia|]. split; [|done].
    unfold s32. rewrite Z.mod_small by lia. lia.
  - destruct Ht as [->|(e & s' & He & Ht)]; [by left|]. right. exists e, s'. split; [lia|done].
Qed.

(** The least index where a decidable property holds. *)
Lemma least_nat (P : nat -> Prop) `{!∀ n, Decision (P n)} N : P N ->
  ∃ n, (n <= N)%nat ∧ P n ∧ ∀ k, (k < n)%nat -> ~ P k.
Proof.
  induction N as [N IH] using lt_wf_ind. intros HN.
  destruct (decide (Exists P (seq 0 N))) as [He|He].
  - apply Exists_exists in He as (k & Hk & HPk). apply elem_of_seq in Hk.
    destruct (IH k ltac:(lia) HPk) as (n & ? & ? & ?). exists n. split; [lia|done].
  - exists N. split; [done|]. split; [done|]. intros k Hk HPk. apply He, Exists_exists.
    exists k. split; [apply elem_of_seq; lia|done].
Qed.

Definition stops (cnx : Z) (s : option dgram_slot) : bool :=
  match s with Some s => (s_cnx s =? cnx) || (s_cnx s =? 0) | None => false end.

(** With a NULL slot somewhere, every search ends within one round of the table:
    at the first slot that is NULL or holds the key. *)
Lemma probe_total cap slots cnx h z s0 (Hp : is_pow2 cap) :
  zlen slots = cap -> 0 <= h < cap -> slots !! z = Some s0 -> s_cnx s0 = 0 ->
  ∃ n s tomb, 0 <= n < cap ∧
    (∀ e, 0 <= e < n -> ∃ s, at_probe slots cap h e = Some s ∧
       s_cnx s <> cnx ∧ s_cnx s <> 0) ∧
    at_probe slots cap h n = Some s ∧ (s_cnx s = cnx ∨ s_cnx s = 0) ∧
    probe (length slots) slots (cap - 1) cnx h (-1)
      = Some (if s_cnx s =? cnx then PFound ((h + n) mod cap)
              else PAbsent ((h + n) mod cap) tomb) ∧
    tomb_ok slots cap h n tomb.
Proof.
  intros Hl Hh Hz Hz0. pose proof (is_pow2_bounds _ Hp). pose proof (lookup_lt_Some _ _ _ Hz).
  set (P k := stops cnx (at_probe slots cap h (Z.of_nat k)) = true).
  assert (HP : P (Z.to_nat ((Z.of_nat z - h) mod cap))).
  { unfold P. pose proof (slot_lt cap (Z.of_nat z - h) ltac:(lia)).
    rewrite Z2Nat.id, Zplus_mod_idemp_r by lia. replace (h + (Z.of_nat z - h)) with (Z.of_nat z) by lia.
    rewrite Z.mod_small, Nat2Z.id, Hz by lia. cbn. rewrite Hz0. apply orb_true_r. }
  destruct (least_nat P _ HP) as (n & Hn & Pn & Hmin).
  pose proof (slot_lt cap (Z.of_nat z - h) ltac:(lia)).
  assert (Hocc : ∀ e, 0 <= e < Z.of_nat n -> ∃ s, at_probe slots cap h e = Some s ∧
     s_cnx s <> cnx ∧ s_cnx s <> 0).
  { intros e He. specialize (Hmin (Z.to_nat e) ltac:(lia)). unfold P in Hmin.
    rewrite Z2Nat.id in Hmin by lia. pose proof (slot_lt cap (h + e) ltac:(lia)).
    destruct (lookup_lt_is_Some_2 slots (Z.to_nat ((h + e) mod cap))) as [s Es]; [lia|].
    rewrite Es in Hmin |- *. exists s. split; [done|]. cbn in Hmin.
    split; intros E0; apply Hmin; rewrite E0, Z.eqb_refl; [done|apply orb_true_r]. }
  destruct (probe_skip cap slots cnx h Hp n (S (length slots - n - 1)) Hocc)
    as (tomb & E & Ht).
  rewrite (Z.mod_small h) in E by lia.
  replace (n + S (length slots - n - 1))%nat with (length slots) in E by lia.
  unfold P in Pn. destruct (at_probe slots cap h (Z.of_nat n)) as [s|] eqn:Es; [|done].
  exists (Z.of_nat n), s, tomb. split; [lia|]. split; [done|]. split; [done|].
  cbn in Pn. cbn in E. rewrite Es in E. cbn in E. rewrite E.
  destruct (Z.eqb_spec (s_cnx s) cnx); [split_and!; auto|].
  destruct (Z.eqb_spec (s_cnx s) 0); [split_and!; auto|done].
Qed.

Lemma probe_inj cap h a b : 0 < cap -> 0 <= a < cap -> 0 <= b < cap ->
  Z.to_nat ((h + a) mod cap) = Z.to_nat ((h + b) mod cap) -> a = b.
Proof.
  intros Hc Ha Hb E. apply (slot_inj cap h); try done.
  apply Z2Nat.inj; [apply slot_lt; lia..|done].
Qed.

Section slots.
Context {cap : Z} {slots : list dgram_slot} {m : gmap Z Z} (R : slots_ok cap slots m).

Lemma so_cap : 0 < cap <= 2 ^ 31.
Proof. apply is_pow2_bounds, R. Qed.

Lemma home_range c : 0 <= home cap c < cap.
Proof. apply slot_lt, so_cap. Qed.

(** A search that ends on a NULL slot: the key is not in the map. *)
Lemma search_absent cnx n s : 2 <= cnx -> 0 <= n < cap ->
  (∀ e, 0 <= e < n -> ∃ s, at_probe slots cap (home cap cnx) e = Some s ∧
     s_cnx s <> cnx ∧ s_cnx s <> 0) ->
  at_probe slots cap (home cap cnx) n = Some s -> s_cnx s = 0 -> m !! cnx = None.
Proof.
  intros Hc Hn Hocc Hs H0. pose proof so_cap.
  destruct (m !! cnx) as [d|] eqn:E; [exfalso|done].
  apply (so_map _ _ _ R) in E as [_ [i Hi]].
  destruct (so_chain _ _ _ R _ _ _ Hc Hi) as (n' & Hn' & -> & Hch).
  destruct (Z.lt_trichotomy n n') as [Hlt|[->|Hlt]].
  - destruct (Hch n ltac:(lia)) as (s' & Es' & Hs'). congruence.
  - rewrite Hs in Hi. simplify_eq. cbn in H0. lia.
  - destruct (Hocc n' ltac:(lia)) as (s' & Es' & Hs' & _). rewrite Hi in Es'. simplify_eq/=.
Qed.

(** A search that ends on the key returns its entry. *)
Lemma search_found cnx i s : 2 <= cnx -> slots !! i = Some s -> s_cnx s = cnx ->
  m !! cnx = Some (s_db s).
Proof.
  intros Hc Hi <-. apply (so_map _ _ _ R). split; [done|]. exists i. by destruct s.
Qed.

(** Overwriting a slot with something other than NULL keeps the chains. *)
Lemma nonnull_insert j x h e : s_cnx x <> 0 -> nonnull slots cap h e ->
  nonnull (<[j := x]> slots) cap h e.
Proof.
  intros Hx (s & Es & H0). unfold nonnull.
  destruct (decide (Z.to_nat ((h + e) mod cap) = j)) as [<-|Hne].
  - rewrite list_lookup_insert_eq by (by eapply lookup_lt_Some). eauto.
  - rewrite list_lookup_insert_ne by done. eauto.
Qed.

Lemma live_key s : 2 <= s_cnx s -> slot_live s = true.
Proof.
  intros H. unfold slot_live, AIOPQUIC_DGRAM_SLOT_TOMBSTONE.
  by rewrite (proj2 (Z.eqb_neq _ 0)), (proj2 (Z.eqb_neq _ 1)) by lia.
Qed.

(** Storing a new key in a free slot of its probe sequence. *)
Lemma slots_insert cnx d n s : 2 <= cnx -> m !! cnx = None -> 0 <= n < cap ->
  (∀ e, 0 <= e < n -> nonnull slots cap (home cap cnx) e) ->
  at_probe slots cap (home cap cnx) n = Some s -> slot_live s = false ->
  slots_ok cap (<[Z.to_nat ((home cap cnx + n) mod cap) := DgramSlot cnx d]> slots)
    (<[cnx := d]> m).
Proof.
  intros Hc Hm Hn Hocc Hs Hfree.
  set (j := Z.to_nat ((home cap cnx + n) mod cap)) in *.
  assert (Hj : (j < length slots)%nat) by by eapply lookup_lt_Some.
  assert (Hold : ∀ i c d', 2 <= c -> slots !! i = Some (DgramSlot c d') -> j <> i ∧ cnx <> c).
  { intros i c d' H2 Hi. split; intros ->.
    - rewrite Hs in Hi. simplify_eq. by rewrite live_key in Hfree.
    - apply (search_found c i _ Hc) in Hi; [|done]. by rewrite Hm in Hi. }
  split; setoid_rewrite list_lookup_insert_Some || idtac.
  - apply R.
  - rewrite length_insert. apply R.
  - intros c d'. rewrite lookup_insert_Some, (so_map _ _ _ R). split.
    + intros [[<- <-]|(Hne & H2 & i & Hi)]; [split; [done|]; exists j; by left|].
      split; [done|]. exists i. right. split; [by eapply Hold|done].
    + intros (H2 & i & [(<- & E & _)|[Hne Hi]]); [left; by simplify_eq|].
      right. split; [by eapply Hold|eauto].
  - intros i1 i2 c d1 d2 H2 [(<- & E1 & _)|[_ G1]] [(<- & E2 & _)|[_ G2]]; simplify_eq;
      [done|by apply Hold in G2 as []|by apply Hold in G1 as []|by eapply R].
  - intros i c d' [(<- & E1 & _)|[_ G]]; [simplify_eq; lia|by eapply R].
  - intros i c d' H2 [(<- & E1 & _)|[_ G]].
    + simplify_eq. exists n. split_and!; [lia..|done|].
      intros. apply nonnull_insert; [cbn; lia|auto].
    + destruct (so_chain _ _ _ R _ _ _ H2 G) as (n' & Hn' & -> & Hch).
      exists n'. split_and!; [lia..|done|]. intros. apply nonnull_insert; [cbn; lia|auto].
Qed.

(** Replacing an entry by a tombstone. *)
Lemma slots_remove cnx d j : 2 <= cnx -> slots !! j = Some (DgramSlot cnx d) ->
  slots_ok cap (<[j := slot_tomb]> slots) (delete cnx m).
Proof.
  intros Hc Hj.
  assert (Ht : ∀ c d', slot_tomb = DgramSlot c d' -> c = 1) by (by intros ? ? [= <- _]).
  split; setoid_rewrite list_lookup_insert_Some || idtac.
  - apply R.
  - rewrite length_insert. apply R.
  - intros c d'. rewrite lookup_delete_Some, (so_map _ _ _ R). split.
    + intros (Hne & H2 & i & Hi). split; [done|]. exists i. right. split; [|done].
      intros <-. simplify_eq.
    + intros (H2 & i & [(<- & E & _)|[Hne Hi]]); [apply Ht in E; lia|].
      split; [|eauto]. intros ->. apply Hne. by eapply (so_uniq _ _ _ R).
  - intros i1 i2 c d1 d2 H2 [(<- & E1 & _)|[_ G1]] [(<- & E2 & _)|[_ G2]];
      [done|apply Ht in E1; lia|apply Ht in E2; lia|by eapply R].
  - intros i c d' [(<- & E1 & _)|[_ G]]; [apply Ht in E1; lia|by eapply R].
  - intros i c d' H2 [(<- & E1 & _)|[_ G]]; [apply Ht in E1; lia|].
    destruct (so_chain _ _ _ R _ _ _ H2 G) as (n' & Hn' & -> & Hch).
    exists n'. split_and!; [lia..|done|]. intros. by apply nonnull_insert; auto.
Qed.
End slots.

Lemma slots_ok_empty cap : is_pow2 cap ->
  slots_ok cap (replicate (Z.to_nat cap) slot0) ∅.
Proof.
  intros Hp. pose proof (is_pow2_bounds _ Hp).
  split; try done; try setoid_rewrite lookup_replicate; unfold slot0.
  - rewrite length_replicate. lia.
  - intros c d. rewrite lookup_empty. split; [done|]. intros (? & i & ? & ?). simplify_eq. lia.
  - intros ? ? ? ? ? ? [? ?]. simplify_eq. lia.
  - intros ? ? ? [? ?]. simplify_eq. lia.
  - intros ? ? ? ? [? ?]. simplify_eq. lia.
Qed.

Lemma null_slot slots cap : zlen slots = cap -> countb slot_used slots < cap ->
  ∃ z s, slots !! z = Some s ∧ s_cnx s = 0.
Proof.
  intros Hl Hlt. destruct (countb_lt slot_used slots) as (z & s & Hz & Hs); [lia|].
  exists z, s. split; [done|]. unfold slot_used in Hs.
  apply negb_false_iff, Z.eqb_eq in Hs. done.
Qed.

Lemma occupied_nonnull slots cap cnx h n :
  (∀ e, 0 <= e < n -> ∃ s, at_probe slots cap h e = Some s ∧ s_cnx s <> cnx ∧ s_cnx s <> 0) ->
  ∀ e, 0 <= e < n -> nonnull slots cap h e.
Proof. intros Hocc e He. destruct (Hocc e He) as (s & ? & _ & ?). by exists s. Qed.

(** One insertion of the rehash loop. *)
Lemma rehash_one cap ns m0 s : slots_ok cap ns m0 -> countb slot_used ns < cap ->
  2 <= s_cnx s -> m0 !! s_cnx s = None ->
  ∃ j, probe_free (length ns) ns (cap - 1) (Z.land (aiopquic_dgram_hash_ptr (s_cnx s)) (cap - 1))
      = Some j ∧
    slots_ok cap (<[Z.to_nat j := s]> ns) (<[s_cnx s := s_db s]> m0) ∧
    countb slot_used (<[Z.to_nat j := s]> ns) = countb slot_used ns + 1 ∧
    countb slot_live (<[Z.to_nat j := s]> ns) = countb slot_live ns + 1.
Proof.
  intros R Hlt Hc Hm. pose proof (so_pow2 _ _ _ R) as Hp.
  destruct (null_slot ns cap (so_len _ _ _ R) Hlt) as (z & s0 & Hz & Hz0).
  rewrite home_mask by done.
  destruct (probe_total cap ns 0 (home cap (s_cnx s)) z s0 Hp (so_len _ _ _ R)
    (home_range R _) Hz Hz0) as (n & s1 & tomb & Hn & Hocc & Hs1 & Hstop & E & _).
  assert (H0 : s_cnx s1 = 0) by (by destruct Hstop).
  rewrite probe_free_probe, H0 in E. cbn in E.
  destruct (probe_free _ _ _ _) as [j|]; [|done]. cbn in E. simplify_eq.
  eexists; split; [done|]. split; [|split].
  - destruct s as [c d]. eapply (slots_insert R); try done.
    + by eapply occupied_nonnull.
    + unfold slot_live. by rewrite H0.
  - rewrite (countb_insert _ _ _ _ _ Hs1). unfold slot_used at 2 3. rewrite H0.
    rewrite (proj2 (Z.eqb_neq (s_cnx s) 0)) by lia. cbn. lia.
  - rewrite (countb_insert _ _ _ _ _ Hs1), (live_key s) by done.
    unfold slot_live at 2. rewrite H0. cbn. lia.
Qed.

Lemma rehash_spec cap old : ∀ ns m0, slots_ok cap ns m0 ->
  countb slot_used ns + countb slot_live old < cap ->
  countb slot_used ns = countb slot_live ns -> Z.of_nat (size m0) = countb slot_live ns ->
  (∀ i c d, old !! i = Some (DgramSlot c d) -> 0 <= c) ->
  (∀ i j c d d', 2 <= c -> old !! i = Some (DgramSlot c d) ->
     old !! j = Some (DgramSlot c d') -> i = j) ->
  (∀ i c d, 2 <= c -> old !! i = Some (DgramSlot c d) -> m0 !! c = None) ->
  ∃ ns' m', rehash old ns (cap - 1) = Some ns' ∧ slots_ok cap ns' m' ∧
    countb slot_used ns' = countb slot_used ns + countb slot_live old ∧
    countb slot_used ns' = countb slot_live ns' ∧ Z.of_nat (size m') = countb slot_live ns' ∧
    ∀ c d, m' !! c = Some d <->
      m0 !! c = Some d ∨ 2 <= c ∧ ∃ i, old !! i = Some (DgramSlot c d).
Proof.
  induction old as [|s old IH]; intros ns m0 R Hlt Hul Hsz Hpos Huniq Hnew.
  { exists ns, m0. change (countb slot_live []) with 0. split_and!; try done; [lia|].
    intros. split; [auto|]. intros [|(_ & i & Hi)]; [done|]. by rewrite lookup_nil in Hi. }
  rewrite countb_cons in *. cbn [rehash].
  pose proof (countb_range slot_live old).
  assert (El : (s_cnx s =? 0) || (s_cnx s =? AIOPQUIC_DGRAM_SLOT_TOMBSTONE)
    = negb (slot_live s)) by (unfold slot_live; by rewrite negb_andb, !negb_involutive).
  assert (H0 : 0 <= s_cnx s) by (apply (Hpos 0%nat _ (s_db s)); by destruct s).
  assert (Huniq' : ∀ i j c d d', 2 <= c -> old !! i = Some (DgramSlot c d) ->
     old !! j = Some (DgramSlot c d') -> i = j)
    by (intros i j c d d' Hc Hi Hj; by specialize (Huniq (S i) (S j) c d d' Hc Hi Hj) as [=]).
  rewrite El. destruct (slot_live s) eqn:Elive; cbn [negb c_bool] in *.
  - assert (Hc : 2 <= s_cnx s).
    { unfold slot_live, AIOPQUIC_DGRAM_SLOT_TOMBSTONE in Elive.
      apply andb_true_iff in Elive as [E0 E1].
      apply negb_true_iff, Z.eqb_neq in E0. apply negb_true_iff, Z.eqb_neq in E1. lia. }
    assert (Hs : (s :: old) !! 0%nat = Some (DgramSlot (s_cnx s) (s_db s))) by (by destruct s).
    destruct (rehash_one cap ns m0 s R ltac:(lia) Hc (Hnew 0%nat _ _ Hc Hs))
      as (j & -> & R1 & Hu1 & Hl1). cbn [mbind option_bind].
    destruct (IH _ _ R1) as (ns' & m' & -> & R' & Hu' & Hul' & Hsz' & Hm');
      [lia|lia| |by intros i; apply (Hpos (S i))|done| |].
    { rewrite map_size_insert_None by (by apply (Hnew 0%nat _ (s_db s))). lia. }
    { intros i c d Hc' Hi. rewrite lookup_insert_ne by
        (intros <-; by specialize (Huniq 0%nat (S i) _ _ _ Hc' Hs Hi)).
      by apply (Hnew (S i) c d). }
    exists ns', m'. split_and!; try done; [lia|].
    intros c d. rewrite Hm', lookup_insert_Some. split.
    + intros [[[<- <-]|[_ Hd]]|(H2 & i & Hi)]; [right; split; [done|by exists 0%nat]|by left|].
      right. split; [done|by exists (S i)].
    + intros [Hd|(H2 & [|i] & Hi)]; [left; right; split; [|done]| |right; eauto].
      * intros <-. by rewrite (Hnew 0%nat _ _ Hc Hs) in Hd.
      * left; left. by rewrite Hs in Hi; simplify_eq.
  - destruct (IH _ _ R) as (ns' & m' & -> & R' & Hu' & Hul' & Hsz' & Hm');
      [lia|lia|done|by intros i; apply (Hpos (S i))|done|by intros i; apply (Hnew (S i))|].
    exists ns', m'. split_and!; try done.
    intros c d. rewrite Hm'. split.
    + intros [|(H2 & i & Hi)]; [by left|]. right. split; [done|by exists (S i)].
    + intros [|(H2 & [|i] & Hi)]; [by left| |right; eauto].
      cbn in Hi. simplify_eq. by rewrite live_key in Elive.
Qed.

(** ** The table as a finite map *)

Record tbl_full (t : dgram_table) (m : gmap Z Z) : Prop := {
  tf_slots : slots_ok (t_cap t) (t_slots t) m;
  tf_min : 64 <= t_cap t;
  tf_mask : t_mask t = t_cap t - 1;
  tf_live : t_live t = countb slot_live (t_slots t);
  tf_size : Z.of_nat (size m) = t_live t;
  tf_used : t_used t = countb slot_used (t_slots t);
  tf_load : t_used t * 10 < t_cap t * 7
}.

(** Either the table was never used, or its slots hold [m] and a NULL slot is
    left. *)
Definition tbl_rep (t : dgram_table) (m : gmap Z Z) : Prop :=
  (t = dgram_table0 ∧ m = ∅) ∨ tbl_full t m.

Lemma pow2_lt_half c : is_pow2 c -> c < 2 ^ 31 -> is_pow2 (c * 2).
Proof.
  intros (k & Hk & ->) Hlt. exists (k + 1).
  assert (k < 31) by (apply (Z.pow_lt_mono_r_iff 2); lia).
  split; [lia|]. by rewrite Z.pow_add_r by lia.
Qed.

(** Growing keeps the map, drops the tombstones and doubles the capacity. *)
Lemma grow_spec t m : tbl_rep t m -> t_cap t <= 2 ^ 28 ->
  ∃ t', aiopquic_dgram_table_grow true t = Some (0, t') ∧ tbl_full t' m ∧
    t_used t' = t_live t ∧ t_cap t' = (if t_cap t =? 0 then 64 else t_cap t * 2).
Proof.
  intros [[-> ->]|F] Hcap.
  { eexists; split; [by cbn|]. split; [|done]. split; cbn -[replicate]; try done.
    apply (slots_ok_empty 64). by exists 6. }
  pose proof (tf_slots _ _ F) as R. pose proof (so_cap R).
  unfold aiopquic_dgram_table_grow. rewrite (proj2 (Z.eqb_neq (t_cap t) 0)) by lia.
  cbn [negb]. rewrite (u32_small (t_cap t * 2)), u32_small by lia.
  assert (Hp : is_pow2 (t_cap t * 2)) by (apply pow2_lt_half; [apply R|lia]).
  assert (Hlu : t_live t <= t_used t).
  { rewrite (tf_live _ _ F), (tf_used _ _ F). apply countb_le.
    intros s [? _]%andb_true_iff. done. }
  pose proof (tf_load _ _ F). pose proof (tf_min _ _ F).
  pose proof (countb_range slot_live (t_slots t)).
  destruct (rehash_spec (t_cap t * 2) (t_slots t) _ ∅ (slots_ok_empty _ Hp))
    as (ns & m' & -> & R' & Hu & Hul & Hsz & Hm); rewrite ?countb_replicate by done;
    [rewrite <- (tf_live _ _ F); lia|done|done|apply R|apply R|done|].
  rewrite countb_replicate in Hu by done. cbn [mbind option_bind].
  assert (m' = m) as ->.
  { apply map_eq. intros c. apply option_eq. intros d. rewrite Hm, (so_map _ _ _ R).
    rewrite lookup_empty. split; [by intros [|]|by right]. }
  eexists; split; [done|]. split; [|done].
  split; cbn; try done; rewrite (tf_live _ _ F) in *; lia.
Qed.

Lemma hash_start t m cnx : tbl_full t m ->
  Z.land (aiopquic_dgram_hash_ptr cnx) (t_mask t) = home (t_cap t) cnx.
Proof. intros F. rewrite (tf_mask _ _ F). apply home_mask, (tf_slots _ _ F). Qed.

(** Every search of a used table ends, on the key if and only if it is there. *)
Lemma table_probe_spec t m cnx : tbl_full t m -> 2 <= cnx ->
  (∃ i s, table_probe t cnx = Some (PFound i) ∧ t_slots t !! Z.to_nat i = Some s ∧
     s_cnx s = cnx ∧ m !! cnx = Some (s_db s)) ∨
  (∃ n tomb s, table_probe t cnx = Some (PAbsent ((home (t_cap t) cnx + n) mod t_cap t) tomb) ∧
     0 <= n < t_cap t ∧ m !! cnx = None ∧
     (∀ e, 0 <= e < n -> nonnull (t_slots t) (t_cap t) (home (t_cap t) cnx) e) ∧
     at_probe (t_slots t) (t_cap t) (home (t_cap t) cnx) n = Some s ∧ s_cnx s = 0 ∧
     tomb_ok (t_slots t) (t_cap t) (home (t_cap t) cnx) n tomb).
Proof.
  intros F Hc. pose proof (tf_slots _ _ F) as R. pose proof (so_cap R).
  pose proof (tf_load _ _ F). pose proof (tf_used _ _ F).
  pose proof (countb_range slot_used (t_slots t)).
  destruct (null_slot _ _ (so_len _ _ _ R)) as (z & s0 & Hz & Hz0); [lia|].
  destruct (probe_total _ _ cnx _ z s0 (so_pow2 _ _ _ R) (so_len _ _ _ R) (home_range R cnx) Hz Hz0)
    as (n & s & tomb & Hn & Hocc & Hs & Hstop & E & Ht).
  unfold table_probe. rewrite (hash_start _ _ _ F), (tf_mask _ _ F), E.
  destruct (Z.eqb_spec (s_cnx s) cnx) as [Ec|Ec].
  - left. eexists _, s. split_and!; try done. by eapply search_found.
  - right. destruct Hstop as [|Hs0]; [done|]. exists n, tomb, s.
    split_and!; try done; [lia|lia|by eapply search_absent|by eapply occupied_nonnull].
Qed.

(** The slot [put] stores a new key in: the first tombstone passed, else the NULL
    slot; both lie on the key's probe sequence. *)
Lemma put_slot cap slots m cnx n tomb s : slots_ok cap slots m -> 0 <= n < cap ->
  (∀ e, 0 <= e < n -> nonnull slots cap (home cap cnx) e) ->
  at_probe slots cap (home cap cnx) n = Some s -> s_cnx s = 0 ->
  tomb_ok slots cap (home cap cnx) n tomb ->
  ∃ k s', 0 <= k < cap ∧
    (if tomb >=? 0 then u32 tomb else (home cap cnx + n) mod cap) = (home cap cnx + k) mod cap ∧
    (∀ e, 0 <= e < k -> nonnull slots cap (home cap cnx) e) ∧
    at_probe slots cap (home cap cnx) k = Some s' ∧ slot_live s' = false ∧
    c_bool (slot_used s') = c_bool (tomb >=? 0).
Proof.
  intros R Hn Hocc Hs H0 Ht. pose proof (so_cap R) as Hcap. unfold slot_live, slot_used.
  destruct Ht as [->|(e & s' & He & -> & Hs' & Hc')].
  - exists n, s. rewrite H0. split_and!; done || lia.
  - pose proof (slot_lt cap (home cap cnx + e) ltac:(lia)).
    rewrite Z.geb_leb, (proj2 (Z.leb_le 0 _)) by lia.
    exists e, s'. rewrite Hc', u32_small by lia.
    split_and!; try done; [lia|lia|]. intros. apply Hocc. lia.
Qed.

Lemma put_insert t m cnx d n tomb s : tbl_full t m -> 2 <= cnx -> m !! cnx = None ->
  (t_used t + 1) * 10 < t_cap t * 7 -> 0 <= n < t_cap t ->
  (∀ e, 0 <= e < n -> nonnull (t_slots t) (t_cap t) (home (t_cap t) cnx) e) ->
  at_probe (t_slots t) (t_cap t) (home (t_cap t) cnx) n = Some s -> s_cnx s = 0 ->
  tomb_ok (t_slots t) (t_cap t) (home (t_cap t) cnx) n tomb ->
  tbl_full (DgramTable (<[Z.to_nat (if tomb >=? 0 then u32 tomb
                                    else (home (t_cap t) cnx + n) mod t_cap t)
                          := DgramSlot cnx d]> (t_slots t)) (t_cap t) (t_mask t)
              (u32 (t_live t + 1))
              (if tomb >=? 0 then t_used t else u32 (t_used t + 1))) (<[cnx := d]> m).
Proof.
  intros F Hc Hm Hload Hn Hocc Hs H0 Ht. pose proof (tf_slots _ _ F) as R.
  pose proof (so_cap R). pose proof (tf_live _ _ F) as El. pose proof (tf_used _ _ F) as Eu.
  pose proof (so_len _ _ _ R). pose proof (countb_range slot_live (t_slots t)).
  pose proof (countb_range slot_used (t_slots t)).
  destruct (put_slot _ _ _ cnx n tomb s R Hn Hocc Hs H0 Ht)
    as (k & s' & Hk & -> & Hocc' & Hs' & Hlive & Hused).
  assert (Hn1 : slot_used (DgramSlot cnx d) = true)
    by (unfold slot_used; cbn; by rewrite (proj2 (Z.eqb_neq _ 0)) by lia).
  split; cbn [t_slots t_cap t_mask t_live t_used].
  - by eapply slots_insert.
  - apply F.
  - apply F.
  - rewrite (countb_insert _ _ _ _ _ Hs'), Hlive, live_key by done. cbn.
    rewrite u32_small; lia.
  - rewrite map_size_insert_None, u32_small by (done || lia). pose proof (tf_size _ _ F). lia.
  - rewrite (countb_insert _ _ _ _ _ Hs'), Hused, Hn1. cbn.
    destruct (tomb >=? 0); cbn; [lia|]. rewrite u32_small; lia.
  - destruct (tomb >=? 0); [lia|]. rewrite u32_small; lia.
Qed.

(** What [put] answers, whether or not it has to grow the table first. *)
Lemma put_spec t m st cnx db : tbl_rep t m -> t_cap t <= 2 ^ 28 -> 2 <= cnx ->
  is_Some (rs_rings st !! db) ->
  ∃ t' m' st', aiopquic_dgram_table_put true t st cnx db = Some (0, t', st') ∧
    tbl_full t' m' ∧ t_used t' <= t_used t + 1 ∧
    t_cap t' <= Z.max (t_cap t) (Z.max 64 (3 * (t_used t + 1))) ∧
    match m !! cnx with
    | Some _ => m' = m ∧ st' = st
    | None => m' = <[cnx := db]> m ∧ rs_addref st db = Some st'
    end.
Proof.
  intros T Hcap Hc [b Hb]. unfold aiopquic_dgram_table_put.
  assert (G : ∃ t1, (if (t_cap t =? 0) || (u32 (u32 (t_used t + 1) * 10) >=? u32 (t_cap t * 7))
      then aiopquic_dgram_table_grow true t else Some (0, t)) = Some (0, t1) ∧
    tbl_full t1 m ∧ t_used t1 <= t_used t ∧ (t_used t1 + 1) * 10 < t_cap t1 * 7 ∧
    t_cap t1 <= Z.max (t_cap t) (Z.max 64 (3 * (t_used t + 1)))).
  { destruct (grow_spec t m T Hcap) as (t' & -> & F' & Eu & Ec).
    destruct T as [[-> ->]|F].
    { exists t'. cbn in *. split_and!; try done; lia. }
    pose proof (tf_min _ _ F). pose proof (tf_load _ _ F).
    assert (t_live t <= t_used t).
    { rewrite (tf_live _ _ F), (tf_used _ _ F). apply countb_le.
      intros s [? _]%andb_true_iff. done. }
    assert (0 <= t_used t) by (rewrite (tf_used _ _ F); apply countb_range).
    rewrite (proj2 (Z.eqb_neq (t_cap t) 0)) in * by lia. cbn [orb].
    rewrite (u32_small (t_used t + 1)), !u32_small by lia. rewrite Z.geb_leb.
    destruct (Z.leb_spec (t_cap t * 7) ((t_used t + 1) * 10)); eexists; split_and!; done || lia. }
  destruct G as (t1 & -> & F & Hu & Hload & Hc1). cbn [mbind option_bind negb Z.eqb].
  destruct (table_probe_spec t1 m cnx F Hc)
    as [(i & s & -> & Hs & <- & Hm)|(n & tomb & s & -> & Hn & Hm & Hocc & Hs & H0 & Ht)].
  - rewrite Hm. exists t1, m, st. split_and!; done || lia.
  - rewrite Hm. cbn [mbind option_bind]. unfold rs_addref. rewrite Hb. cbn [mbind option_bind].
    do 3 eexists. split; [done|]. split; [by eapply put_insert|].
    cbn. split_and!; try done. pose proof (tf_used _ _ F).
    pose proof (countb_range slot_used (t_slots t1)). pose proof (so_len _ _ _ (tf_slots _ _ F)).
    pose proof (so_cap (tf_slots _ _ F)).
    destruct (tomb >=? 0); [lia|]. rewrite u32_small; lia.
Qed.

Lemma get_spec t m cnx : tbl_rep t m -> 2 <= cnx ->
  aiopquic_dgram_table_get t cnx = Some (default 0 (m !! cnx)).
Proof.
  intros [[-> ->]|F] Hc; [done|]. unfold aiopquic_dgram_table_get.
  pose proof (so_cap (tf_slots _ _ F)). rewrite (proj2 (Z.eqb_neq _ 0)) by lia.
  destruct (table_probe_spec t m cnx F Hc)
    as [(i & s & -> & Hs & _ & ->)|(n & tomb & s & -> & _ & -> & _)]; [|done].
  cbn. by rewrite Hs.
Qed.

(** [remove_ring] releases the entry's reference and leaves a tombstone, unless
    the entry holds another ring than the one named. *)
Lemma remove_spec t m st cnx db : tbl_rep t m -> 2 <= cnx ->
  match m !! cnx with
  | None => aiopquic_dgram_table_remove_ring t st cnx db = Some (t, st)
  | Some d =>
      if negb (db =? 0) && negb (d =? db)
      then aiopquic_dgram_table_remove_ring t st cnx db = Some (t, st)
      else ∀ st', rs_unref st d = Some st' ->
        ∃ t', aiopquic_dgram_table_remove_ring t st cnx db = Some (t', st') ∧
          tbl_full t' (delete cnx m) ∧ t_cap t' = t_cap t ∧ t_used t' = t_used t
  end.
Proof.
  intros [[-> ->]|F] Hc; [done|]. unfold aiopquic_dgram_table_remove_ring.
  pose proof (so_cap (tf_slots _ _ F)).
  rewrite (proj2 (Z.eqb_neq (t_cap t) 0)), (proj2 (Z.eqb_neq cnx 0)) by lia. cbn [orb].
  destruct (table_probe_spec t m cnx F Hc)
    as [(i & s & -> & Hs & Es & Hm)|(n & tomb & s & -> & _ & -> & _)]; [|done].
  rewrite Hm. cbn [mbind option_bind]. rewrite Hs. cbn [mbind option_bind].
  destruct (negb (db =? 0) && negb (s_db s =? db)); [done|].
  intros st' ->. cbn [mbind option_bind]. eexists; split; [done|]. split; [|done].
  pose proof (tf_live _ _ F) as El. pose proof (tf_size _ _ F).
  assert (Hsz : Z.of_nat (size (delete cnx m)) = t_live t - 1).
  { rewrite map_size_delete_Some by done. assert (size m <> 0%nat).
    { intros Hz%map_size_empty_inv. by rewrite Hz in Hm. } lia. }
  assert (t_live t <= t_cap t).
  { rewrite El, <- (so_len _ _ _ (tf_slots _ _ F)). apply countb_range. }
  split; cbn [t_slots t_cap t_mask t_live t_used]; try apply F.
  - apply (slots_remove (tf_slots _ _ F) cnx (s_db s)); [done|]. rewrite Hs, <- Es. by destruct s.
  - rewrite (countb_insert _ _ _ _ _ Hs), (live_key s) by lia. cbn. rewrite u32_small; lia.
  - rewrite u32_small; lia.
  - rewrite (countb_insert _ _ _ _ _ Hs), (tf_used _ _ F). unfold slot_used at 3.
    rewrite (proj2 (Z.eqb_neq (s_cnx s) 0)) by lia. cbn. lia.
Qed.

(** ** Reference counting *)

#[export] Instance dgram_refcounted : RefCounted dgram_buf := db_refcnt.

(** [f p] references to ring [p] exist, and the live-ring counter is exact. *)
Record rs_ok (st : ring_store) (f : Z -> Z) : Prop := {
  ro_refs : rc_ok (rs_rings st) f;
  ro_alive : rs_alive st = Z.of_nat (size (rs_rings st))
}.

Lemma rs_ok_ext st f g : (∀ p, f p = g p) -> rs_ok st f -> rs_ok st g.
Proof. intros E [R Ha]. split; [by eapply rc_ok_ext|done]. Qed.

Section rc.
Context {st : ring_store} {f : Z -> Z} (R : rs_ok st f).

Lemma rs_some p : 0 < f p -> ∃ db, rs_rings st !! p = Some db ∧ db_refcnt db = f p.
Proof. apply rc_some, R. Qed.

Lemma rs_addref_spec p : 0 < f p -> f p + 1 < 2 ^ 32 ->
  ∃ st', rs_addref st p = Some st' ∧ rs_ok st' (λ q, f q + c_bool (q =? p)).
Proof.
  intros Hp Hlt. destruct (rs_some p Hp) as (db & E & Ec). unfold rs_addref. rewrite E.
  eexists; split; [done|]. split; cbn [rs_rings rs_alive].
  - eapply rc_ok_ext; [|apply (rc_update (ro_refs _ _ R) p _ 1); [done|lia|]].
    + intros q. cbn. by destruct (q =? p).
    + cbn. rewrite Ec, u32_small; lia.
  - rewrite map_size_insert_Some by done. apply R.
Qed.

Lemma rs_unref_spec p : 0 < f p ->
  ∃ st', rs_unref st p = Some st' ∧ rs_ok st' (λ q, f q - c_bool (q =? p)).
Proof.
  intros Hp. destruct (rs_some p Hp) as (db & E & Ec).
  pose proof (rc_nonzero (ro_refs _ _ R) p Hp) as Hp0.
  destruct (rc_live _ _ (ro_refs _ _ R) _ _ E) as [_ Hr].
  unfold rs_unref, aiopquic_dgram_buf_unref.
  rewrite (proj2 (Z.eqb_neq p 0)), E by done. cbn [mbind option_bind]. rewrite Ec.
  destruct (Z.eqb_spec (f p) 1) as [E1|E1]; cbn [mbind option_bind];
    (eexists; split; [done|]); split; cbn [rs_rings rs_alive].
  - by apply rc_free; [apply R|].
  - rewrite (ro_alive _ _ R), map_size_delete_Some by done.
    assert (size (rs_rings st) <> 0%nat)
      by (intros Hz%map_size_empty_inv; by rewrite Hz in E). lia.
  - eapply rc_ok_ext; [|apply (rc_update (ro_refs _ _ R) p _ (-1)); [done|lia|]].
    + intros q. cbn. destruct (q =? p); cbn; lia.
    + cbn. rewrite u32_small; lia.
  - rewrite map_size_insert_Some by done. apply R.
Qed.

Lemma rs_new_spec p db : rs_rings st !! p = None -> p <> 0 -> db_refcnt db = 1 ->
  rs_ok (RingStore (<[p := db]> (rs_rings st)) (rs_alive st + 1))
    (λ q, f q + c_bool (q =? p)).
Proof.
  intros E Hp Ec. split; cbn [rs_rings rs_alive].
  - by apply rc_new; [apply R|..].
  - rewrite map_size_insert_None, (ro_alive _ _ R) by done. lia.
Qed.
End rc.

(** References the table holds on ring [p]. *)
Definition refs (m : gmap Z Z) (p : Z) : Z := msum (λ d, c_bool (d =? p)) m.

Lemma refs_insert m c d p : m !! c = None ->
  refs (<[c := d]> m) p = refs m p + c_bool (d =? p).
Proof. apply (msum_insert (λ d, c_bool (d =? p))). Qed.

Lemma refs_delete m c d p : m !! c = Some d ->
  refs (delete c m) p = refs m p - c_bool (d =? p).
Proof. apply (msum_delete (λ d, c_bool (d =? p))). Qed.

Lemma refs_range m p : 0 <= refs m p <= Z.of_nat (size m).
Proof.
  pose proof (msum_bounds (λ d, c_bool (d =? p)) m 1) as Hb. unfold refs.
  rewrite Z.mul_1_r in Hb. apply Hb. intros d. destruct (d =? p); cbn; lia.
Qed.

Lemma refs_pos m c d : m !! c = Some d -> 0 < refs m d.
Proof.
  intros Hm. pose proof (refs_delete m c d d Hm) as E. rewrite Z.eqb_refl in E.
  pose proof (refs_range (delete c m) d). cbn in E. lia.
Qed.

Lemma refs_empty p : refs ∅ p = 0.
Proof. apply msum_empty. Qed.

(** ** Destroying the table releases each entry's reference *)

Definition live_pair (s : dgram_slot) : option (Z * Z) :=
  if slot_live s then Some (s_cnx s, s_db s) else None.

Definition slot_refs (p : Z) (s : dgram_slot) : bool := slot_live s && (s_db s =? p).

Lemma countb_live_pair p slots :
  countb (λ kv, kv.2 =? p) (omap live_pair slots) = countb (slot_refs p) slots.
Proof.
  induction slots as [|s slots IH]; [done|]. rewrite countb_cons, <- IH. cbn.
  unfold live_pair at 1, slot_refs. destruct (slot_live s); [by rewrite countb_cons|done].
Qed.

Lemma elem_live_pair (slots : list dgram_slot) c d : (∀ i c d, slots !! i = Some (DgramSlot c d) -> 0 <= c) ->
  (c, d) ∈ omap live_pair slots <-> 2 <= c ∧ ∃ i, slots !! i = Some (DgramSlot c d).
Proof.
  intros Hpos. rewrite list_elem_of_omap. split.
  - intros (s & Hs & E). apply list_elem_of_lookup in Hs as [i Hi]. unfold live_pair in E.
    destruct s as [c' d']. destruct (slot_live _) eqn:El; [|done]. simplify_eq/=.
    pose proof (Hpos _ _ _ Hi). unfold slot_live, AIOPQUIC_DGRAM_SLOT_TOMBSTONE in El.
    apply andb_true_iff in El as [E0 E1]. cbn in E0, E1.
    apply negb_true_iff, Z.eqb_neq in E0. apply negb_true_iff, Z.eqb_neq in E1.
    split; [lia|eauto].
  - intros (Hc & i & Hi). exists (DgramSlot c d). split; [by eapply list_elem_of_lookup_2|].
    unfold live_pair. by rewrite live_key.
Qed.

Lemma NoDup_live_pair (slots : list dgram_slot) : (∀ i c d, slots !! i = Some (DgramSlot c d) -> 0 <= c) ->
  (∀ i j c d d', 2 <= c -> slots !! i = Some (DgramSlot c d) ->
     slots !! j = Some (DgramSlot c d') -> i = j) ->
  NoDup (omap live_pair slots).
Proof.
  induction slots as [|s slots IH]; intros Hpos Huniq; [constructor|].
  assert (IH' : NoDup (omap live_pair slots)).
  { apply IH; [by intros i; apply (Hpos (S i))|].
    intros i j c d d' Hc Hi Hj. by specialize (Huniq (S i) (S j) c d d' Hc Hi Hj) as [=]. }
  cbn. destruct (live_pair s) as [[c d]|] eqn:E; [|done]. constructor; [|done].
  intros Hin. apply elem_live_pair in Hin as (Hc & i & Hi); [|by intros j; apply (Hpos (S j))].
  unfold live_pair in E. destruct (slot_live s); [|done]. simplify_eq.
  by specialize (Huniq 0%nat (S i) (s_cnx s) (s_db s) (s_db s) Hc ltac:(by destruct s) Hi).
Qed.

Lemma slots_refs cap slots m p : slots_ok cap slots m ->
  countb (slot_refs p) slots = refs m p.
Proof.
  intros R. rewrite <- countb_live_pair. unfold refs, msum, countb. apply lsum_perm. symmetry.
  apply NoDup_Permutation; [apply NoDup_map_to_list|apply NoDup_live_pair; apply R|].
  intros [c d]. rewrite elem_of_map_to_list, elem_live_pair by apply R. apply R.
Qed.

Lemma unref_slots_spec slots : ∀ st f, rs_ok st f ->
  (∀ p, countb (slot_refs p) slots <= f p) ->
  ∃ st', unref_slots slots st = Some st' ∧
    rs_ok st' (λ p, f p - countb (slot_refs p) slots).
Proof.
  induction slots as [|s slots IH]; intros st f R Hle.
  { exists st. split; [done|]. eapply rs_ok_ext; [|exact R].
    intros p. unfold countb, lsum. cbn. lia. }
  cbn. fold (slot_live s). destruct (slot_live s) eqn:El.
  - assert (Hpos : 0 < f (s_db s)).
    { specialize (Hle (s_db s)). rewrite countb_cons in Hle. unfold slot_refs at 1 in Hle.
      rewrite El, Z.eqb_refl in Hle. pose proof (countb_range (slot_refs (s_db s)) slots).
      cbn in Hle. lia. }
    destruct (rs_unref_spec R _ Hpos) as (st1 & -> & R1). cbn [mbind option_bind].
    assert (Hsub : ∀ p, countb (slot_refs p) (s :: slots)
      = c_bool (p =? s_db s) + countb (slot_refs p) slots).
    { intros p. rewrite countb_cons. unfold slot_refs at 1. by rewrite El, Z.eqb_sym. }
    destruct (IH st1 _ R1) as (st2 & E2 & R2).
    { intros p. specialize (Hle p). rewrite Hsub in Hle. lia. }
    exists st2. split; [done|]. eapply rs_ok_ext; [|exact R2].
    intros p. cbn. rewrite Hsub. lia.
  - cbn [mbind option_bind].
    assert (Hsub : ∀ p, countb (slot_refs p) (s :: slots) = countb (slot_refs p) slots).
    { intros p. rewrite countb_cons. unfold slot_refs at 1. by rewrite El. }
    destruct (IH st f R) as (st2 & E2 & R2).
    { intros p. specialize (Hle p). by rewrite Hsub in Hle. }
    exists st2. split; [done|]. eapply rs_ok_ext; [|exact R2].
    intros p. cbn. by rewrite Hsub.
Qed.

Lemma table_destroy_spec t m st f : tbl_rep t m -> rs_ok st f ->
  (∀ p, refs m p <= f p) ->
  ∃ st', aiopquic_dgram_table_destroy t st = Some (dgram_table0, st') ∧
    rs_ok st' (λ p, f p - refs m p).
Proof.
  intros T R Hle. unfold aiopquic_dgram_table_destroy.
  destruct T as [[-> ->]|F].
  - exists st. split; [done|]. eapply rs_ok_ext; [|exact R]. intros p.
    cbn. rewrite refs_empty. lia.
  - destruct (unref_slots_spec (t_slots t) st f R) as (st' & -> & R').
    { intros p. by rewrite (slots_refs _ _ _ p (tf_slots _ _ F)). }
    exists st'. split; [done|]. eapply rs_ok_ext; [|exact R'].
    intros p. cbn. by rewrite (slots_refs _ _ _ p (tf_slots _ _ F)).
Qed.

(** ** Runs *)

(** Calls on the table by the worker, and on rings by Python: a connection creates
    its ring, and drops its own reference once. *)
Inductive tb_op :=
  | TbNew (p capacity max_record : Z) (blk : list Z)
  | TbDrop (p : Z)
  | TbPut (cnx db : Z)
  | TbGet (cnx : Z)
  | TbRemove (cnx db : Z).

Abbreviation tb_state := (dgram_table * ring_store)%type.

(** The answer of a [get], 0 otherwise, and the new state. *)
Definition tb_step (s : tb_state) (o : tb_op) : option (Z * tb_state) :=
  let (t, st) := s in
  match o with
  | TbNew p capacity max_record blk =>
      match aiopquic_dgram_buf_create true (Some blk) (rs_alive st) capacity max_record with
      | (Some db, alive) => Some (0, (t, RingStore (<[p := db]> (rs_rings st)) alive))
      | (None, alive) => Some (0, (t, RingStore (rs_rings st) alive))
      end
  | TbDrop p => st ← rs_unref st p; Some (0, (t, st))
  | TbPut cnx db => '(rc, t, st) ← aiopquic_dgram_table_put true t st cnx db; Some (rc, (t, st))
  | TbGet cnx => d ← aiopquic_dgram_table_get t cnx; Some (d, (t, st))
  | TbRemove cnx db =>
      '(t, st) ← aiopquic_dgram_table_remove_ring t st cnx db; Some (0, (t, st))
  end.

Fixpoint tb_run (s : tb_state) (ops : list tb_op) : option (list Z * tb_state) :=
  match ops with
  | [] => Some ([], s)
  | o :: ops => '(r, s) ← tb_step s o; '(rs, s) ← tb_run s ops; Some (r :: rs, s)
  end.

(** The specification: a finite map, and the set of rings Python still holds. *)
Abbreviation tb_spec := (gmap Z Z * gset Z)%type.

Definition ts_step (a : tb_spec) (o : tb_op) : Z * tb_spec :=
  let (m, ext) := a in
  match o with
  | TbNew p _ _ _ => (0, (m, ext ∪ {[ p ]}))
  | TbDrop p => (0, (m, ext ∖ {[ p ]}))
  | TbPut cnx db =>
      (0, (match m !! cnx with Some _ => m | None => <[cnx := db]> m end, ext))
  | TbGet cnx => (default 0 (m !! cnx), (m, ext))
  | TbRemove cnx db =>
      (0, (match m !! cnx with
           | Some d => if negb (db =? 0) && negb (d =? db) then m else delete cnx m
           | None => m
           end, ext))
  end.

Fixpoint ts_run (a : tb_spec) (ops : list tb_op) : list Z * tb_spec :=
  match ops with
  | [] => ([], a)
  | o :: ops => let (r, a) := ts_step a o in let (rs, a) := ts_run a ops in (r :: rs, a)
  end.

(** Connections are real pointers; a ring is new when created, and one Python
    still holds when it is dropped or put. *)
Definition tb_op_ok (a : tb_spec) (o : tb_op) : Prop :=
  let (m, ext) := a in
  match o with
  | TbNew p capacity max_record _ =>
      p <> 0 ∧ (p ∉ ext) ∧ refs m p = 0 ∧ 0 <= capacity < 2 ^ 32 ∧ max_record <> 0
  | TbDrop p => p ∈ ext
  | TbPut cnx db => 2 <= cnx ∧ db ∈ ext
  | TbGet cnx => 2 <= cnx
  | TbRemove cnx _ => 2 <= cnx
  end.

Fixpoint tb_ops_ok (a : tb_spec) (ops : list tb_op) : Prop :=
  match ops with
  | [] => True
  | o :: ops => tb_op_ok a o ∧ tb_ops_ok (ts_step a o).2 ops
  end.

(** All references to ring [p]: Python's and the table's. *)
Definition all_refs (a : tb_spec) (p : Z) : Z := c_bool (bool_decide (p ∈ a.2)) + refs a.1 p.

Record tb_inv (n : Z) (s : tb_state) (a : tb_spec) : Prop := {
  ti_rep : tbl_rep s.1 a.1;
  ti_refs : rs_ok s.2 (all_refs a);
  ti_cap : t_cap s.1 <= Z.max 64 (3 * n);
  ti_used : t_used s.1 <= n
}.

Lemma tbl_used_le_cap t m : tbl_rep t m ->
  Z.of_nat (size m) <= t_cap t ∧ 0 <= t_used t.
Proof.
  intros [[-> ->]|F]; [by rewrite map_size_empty|].
  pose proof (countb_range slot_live (t_slots t)). pose proof (countb_range slot_used (t_slots t)).
  pose proof (so_len _ _ _ (tf_slots _ _ F)).
  rewrite (tf_size _ _ F), (tf_live _ _ F), (tf_used _ _ F). lia.
Qed.

Lemma create_refcnt blk alive capacity max_record :
  0 <= capacity < 2 ^ 32 -> max_record <> 0 ->
  ∃ db, aiopquic_dgram_buf_create true (Some blk) alive capacity max_record
      = (Some db, alive + 1) ∧ db_refcnt db = 1.
Proof.
  intros Hc Hm. pose proof (is_pow2_bounds _ (ceil_pow2_is_pow2 capacity Hc)).
  unfold aiopquic_dgram_buf_create.
  rewrite (proj2 (Z.eqb_neq _ 0)), (proj2 (Z.eqb_neq max_record 0)) by lia.
  eexists; split; reflexivity.
Qed.

Lemma all_refs_weak m ext p : p ∈ ext -> 0 < all_refs (m, ext) p.
Proof.
  intros Hp. unfold all_refs. cbn. rewrite bool_decide_eq_true_2 by done.
  pose proof (refs_range m p). cbn. lia.
Qed.

Lemma tb_put_step n t st m ext cnx db : tb_inv n (t, st) (m, ext) -> 0 <= n -> n < 2 ^ 26 ->
  2 <= cnx -> db ∈ ext ->
  ∃ s', tb_step (t, st) (TbPut cnx db) = Some (0, s') ∧
    tb_inv (n + 1) s' (ts_step (m, ext) (TbPut cnx db)).2.
Proof.
  intros [T R Hcap Hused] H0 Hn Hc Hdb. cbn [fst snd] in T, R, Hcap, Hused.
  pose proof (all_refs_weak m ext db Hdb) as Hpos.
  destruct (rs_some R db Hpos) as (b & Hb & _).
  destruct (tbl_used_le_cap t m T) as [Hsz _]. pose proof (refs_range m db).
  destruct (put_spec t m st cnx db T ltac:(lia) Hc (ex_intro _ _ Hb))
    as (t' & m' & st' & E & F & Hu & Hc' & Hm).
  cbn -[aiopquic_dgram_table_put]. rewrite E. cbn [mbind option_bind].
  eexists; split; [done|].
  destruct (m !! cnx) as [d|] eqn:Em; destruct Hm as [-> Hst].
  - subst st'. split; cbn [fst snd]; [by right|done|lia|lia].
  - assert (all_refs (m, ext) db + 1 < 2 ^ 32).
    { unfold all_refs. cbn. pose proof (c_bool_range (bool_decide (db ∈ ext))). lia. }
    destruct (rs_addref_spec R db Hpos ltac:(done)) as (st2 & E2 & R2).
    rewrite Hst in E2. simplify_eq. split; cbn [fst snd]; [by right| |lia|lia].
    eapply rs_ok_ext; [|exact R2]. intros p. unfold all_refs. cbn.
    rewrite refs_insert, (Z.eqb_sym db) by done. lia.
Qed.

Lemma tb_remove_step n t st m ext cnx db : tb_inv n (t, st) (m, ext) -> 0 <= n -> 2 <= cnx ->
  ∃ s', tb_step (t, st) (TbRemove cnx db) = Some (0, s') ∧
    tb_inv (n + 1) s' (ts_step (m, ext) (TbRemove cnx db)).2.
Proof.
  intros [T R Hcap Hused] H0 Hc. cbn [fst snd] in T, R, Hcap, Hused.
  pose proof (remove_spec t m st cnx db T Hc) as Hr.
  assert (Hid : tb_inv (n + 1) (t, st) (m, ext)).
  { split; cbn [fst snd]; [done|done|lia|lia]. }
  cbn -[aiopquic_dgram_table_remove_ring].
  destruct (m !! cnx) as [d|] eqn:Em; [|rewrite Hr; by eauto].
  destruct (negb (db =? 0) && negb (d =? db)); [rewrite Hr; by eauto|].
  assert (Hd : 0 < all_refs (m, ext) d).
  { pose proof (refs_pos _ _ _ Em). unfold all_refs. cbn.
    pose proof (c_bool_range (bool_decide (d ∈ ext))). lia. }
  destruct (rs_unref_spec R d Hd) as (st' & Eu & R').
  destruct (Hr st' Eu) as (t' & -> & F & Ec & Eus). cbn [mbind option_bind].
  eexists; split; [done|]. split; cbn [fst snd]; [by right| |lia|lia].
  eapply rs_ok_ext; [|exact R']. intros p. unfold all_refs. cbn.
  rewrite (refs_delete _ _ d), (Z.eqb_sym d) by done. lia.
Qed.

(** Every call is defined and answers as the finite map does. *)
Lemma tb_step_spec n s a o : tb_inv n s a -> 0 <= n < 2 ^ 26 -> tb_op_ok a o ->
  ∃ s', tb_step s o = Some ((ts_step a o).1, s') ∧ tb_inv (n + 1) s' (ts_step a o).2.
Proof.
  intros I Hn Hok. destruct s as [t st], a as [m ext].
  destruct o as [p capacity max_record blk|p|cnx db|cnx|cnx db].
  - destruct Hok as (Hp & Hext & Hrefs & Hc & Hm). destruct I as [T R Hcap Hused].
    destruct (create_refcnt blk (rs_alive st) capacity max_record Hc Hm) as (b & E & Eb).
    cbn -[aiopquic_dgram_buf_create]. rewrite E. eexists; split; [done|].
    cbn [fst snd] in *. split; cbn [fst snd]; [done| |lia|lia].
    assert (E0 : all_refs (m, ext) p = 0).
    { unfold all_refs. cbn. by rewrite bool_decide_eq_false_2. }
    assert (rs_rings st !! p = None).
    { destruct (rs_rings st !! p) eqn:Ep; [|done]. apply (rc_live _ _ (ro_refs _ _ R)) in Ep as [_ ?]. lia. }
    eapply rs_ok_ext; [|by apply (rs_new_spec R p b)]. intros q. unfold all_refs. cbn.
    destruct (Z.eqb_spec q p) as [->|Hne].
    + rewrite bool_decide_eq_false_2, bool_decide_eq_true_2 by set_solver. cbn. lia.
    + rewrite (bool_decide_ext (q ∈ ext ∪ {[p]}) (q ∈ ext)) by set_solver. cbn. lia.
  - destruct I as [T R Hcap Hused]. cbn [fst snd] in *; cbn [tb_step ts_step].
    destruct (rs_unref_spec R p (all_refs_weak m ext p Hok)) as (st' & -> & R').
    eexists; split; [done|]. split; cbn [fst snd]; [done| |lia|lia].
    eapply rs_ok_ext; [|exact R']. intros q. unfold all_refs. cbn.
    destruct (Z.eqb_spec q p) as [->|Hne].
    + rewrite bool_decide_eq_true_2, bool_decide_eq_false_2 by set_solver. cbn. lia.
    + rewrite (bool_decide_ext (q ∈ ext ∖ {[p]}) (q ∈ ext)) by set_solver. cbn. lia.
  - destruct Hok. apply tb_put_step; [done|lia|lia|done|done].
  - destruct I as [T R Hcap Hused]. cbn [fst snd] in T, Hok.
    cbn -[aiopquic_dgram_table_get].
    rewrite (get_spec _ _ _ T Hok). cbn. eexists; split; [done|].
    split; cbn [fst snd] in *; [done|done|lia|lia].
  - apply tb_remove_step; [done|lia|done].
Qed.

Lemma tb_run_spec ops : ∀ n s a, tb_inv n s a -> 0 <= n -> n + zlen ops < 2 ^ 26 ->
  tb_ops_ok a ops ->
  ∃ s', tb_run s ops = Some ((ts_run a ops).1, s') ∧
    tb_inv (n + zlen ops) s' (ts_run a ops).2.
Proof.
  induction ops as [|o ops IH]; intros n s a I H0 Hn Hok.
  { exists s. cbn. by rewrite Z.add_0_r. }
  destruct Hok as [Ho Hok]. cbn [length] in Hn.
  destruct (tb_step_spec n s a o I ltac:(lia) Ho) as (s1 & E1 & I1).
  cbn [tb_run ts_run length]. rewrite E1. destruct (ts_step a o) as [r a1].
  cbn [mbind option_bind fst snd] in *.
  destruct (IH (n + 1) s1 a1 I1 ltac:(lia) ltac:(lia) Hok) as (s2 & -> & I2).
  destruct (ts_run a1 ops) as [rs a2]. cbn [mbind option_bind fst snd] in *.
  exists s2. split; [done|].
  by replace (n + Z.of_nat (S (length ops))) with (n + 1 + zlen ops) by lia.
Qed.

Definition tb_state0 : tb_state := (dgram_table0, RingStore ∅ 0).
Definition tb_spec0 : tb_spec := (∅, ∅).

Lemma tb_inv0 : tb_inv 0 tb_state0 tb_spec0.
Proof.
  split; cbn [fst snd tb_state0 tb_spec0]; [by left| |cbn; lia|cbn; lia].
  split; [|done]. apply rc_ok_empty. intros p. unfold all_refs. cbn [fst snd].
  by rewrite refs_empty.
Qed.

(** Python dropping every reference it still holds. *)
Fixpoint drop_all (ps : list Z) (st : ring_store) : option ring_store :=
  match ps with [] => Some st | p :: ps => st ← rs_unref st p; drop_all ps st end.

Lemma drop_all_spec ps : ∀ st f, rs_ok st f -> NoDup ps -> (∀ p, p ∈ ps -> 0 < f p) ->
  ∃ st', drop_all ps st = Some st' ∧
    rs_ok st' (λ p, f p - c_bool (bool_decide (p ∈ ps))).
Proof.
  induction ps as [|p ps IH]; intros st f R Hnd Hpos.
  { exists st. split; [done|]. eapply rs_ok_ext; [|exact R]. intros q.
    rewrite bool_decide_eq_false_2 by apply not_elem_of_nil. cbn. lia. }
  apply NoDup_cons in Hnd as [Hnin Hnd].
  destruct (rs_unref_spec R p (Hpos p ltac:(by left))) as (st1 & E1 & R1).
  destruct (IH st1 _ R1 Hnd) as (st2 & E2 & R2).
  { intros q Hq. rewrite (proj2 (Z.eqb_neq _ _)) by (by intros ->). cbn.
    specialize (Hpos q ltac:(by right)). lia. }
  exists st2. cbn. rewrite E1. split; [done|]. eapply rs_ok_ext; [|exact R2].
  intros q. cbn. destruct (Z.eqb_spec q p) as [->|Hne].
  - rewrite bool_decide_eq_false_2, bool_decide_eq_true_2 by (done || by left). cbn. lia.
  - rewrite (bool_decide_ext (q ∈ p :: ps) (q ∈ ps)); [cbn; lia|].
    rewrite elem_of_cons. naive_solver.
Qed.

(** ** Properties *)

(** C11. The table is a finite map: from the empty table, every sequence of puts,
    gets and removes answers exactly as the map from connections to rings does,
    through collisions, tombstones and rehashes; every search terminates within
    one round of the slots, and the live counter is the number of entries. *)
Theorem dgram_table_is_map ops :
  zlen ops < 2 ^ 26 -> tb_ops_ok tb_spec0 ops ->
  ∃ t st, tb_run tb_state0 ops = Some ((ts_run tb_spec0 ops).1, (t, st)) ∧
    t_live t = Z.of_nat (size (ts_run tb_spec0 ops).2.1) ∧
    (∀ cnx, 2 <= cnx -> aiopquic_dgram_table_get t cnx
       = Some (default 0 ((ts_run tb_spec0 ops).2.1 !! cnx))).
Proof.
  intros Hn Hok.
  destruct (tb_run_spec ops 0 _ _ tb_inv0 ltac:(lia) ltac:(lia) Hok) as ([t st] & E & I).
  exists t, st. split; [done|]. destruct I as [T _ _ _]. cbn [fst] in T. split.
  - destruct T as [[E1 E2]|F]; [|symmetry; apply F].
    rewrite E1, E2, map_size_empty. done.
  - intros. by apply get_spec.
Qed.

(** Ownership of rings: at every point of such a run a ring is live exactly
    while Python holds it or a table entry names it, its counter is the number of
    those references, and the live-ring counter is exact; destroying the table and
    dropping Python's remaining references frees every ring, once. *)
Theorem dgram_table_refcounts ops t st rs :
  zlen ops < 2 ^ 26 -> tb_ops_ok tb_spec0 ops ->
  tb_run tb_state0 ops = Some (rs, (t, st)) ->
  (∀ p, match rs_rings st !! p with
        | Some db => db_refcnt db = all_refs (ts_run tb_spec0 ops).2 p ∧ 0 < db_refcnt db
        | None => all_refs (ts_run tb_spec0 ops).2 p = 0
        end) ∧
  rs_alive st = Z.of_nat (size (rs_rings st)) ∧
  ∃ st1, aiopquic_dgram_table_destroy t st = Some (dgram_table0, st1) ∧
    drop_all (elements (ts_run tb_spec0 ops).2.2) st1 = Some (RingStore ∅ 0).
Proof.
  intros Hn Hok E.
  destruct (tb_run_spec ops 0 _ _ tb_inv0 ltac:(lia) ltac:(lia) Hok) as (s & E' & I).
  rewrite E in E'. injection E' as _ <-. destruct (ts_run tb_spec0 ops) as [rs' [m ext]].
  destruct I as [T R _ _]. cbn [fst snd] in *. split; [|split].
  - intros p. destruct (rs_rings st !! p) as [db|] eqn:Ep.
    + destruct (rc_live _ _ (ro_refs _ _ R) _ _ Ep) as [Ec ?].
      change (rc_count db) with (db_refcnt db) in Ec. rewrite Ec. split; [done|lia].
    + by apply (rc_dead _ _ (ro_refs _ _ R)).
  - apply R.
  - destruct (table_destroy_spec t m st _ T R) as (st1 & -> & R1).
    { intros p. unfold all_refs. cbn [fst snd].
      pose proof (c_bool_range (bool_decide (p ∈ ext))). lia. }
    exists st1. split; [done|].
    destruct (drop_all_spec (elements ext) st1 _ R1) as (st2 & -> & R2).
    + apply NoDup_elements.
    + intros p Hp%elem_of_elements. unfold all_refs. cbn [fst snd].
      rewrite bool_decide_eq_true_2 by done. cbn. lia.
    + f_equal. destruct st2 as [rings alive]. destruct R2 as [R2 Ea]. cbn in R2, Ea.
      assert (rings = ∅) as ->; [|by rewrite Ea, map_size_empty].
      eapply rc_ok_nil; [exact R2|]. intros p. unfold all_refs. cbn [fst snd].
      rewrite (bool_decide_ext (p ∈ elements ext) (p ∈ ext)) by apply elem_of_elements. lia.
Qed.

(** ** Witnesses *)

(** Two connections that share a home slot, a removal that leaves a tombstone, a
    removal naming the wrong ring, and Python letting go of one ring. *)
Definition demo_tb_ops : list tb_op :=
  [TbNew 100 8 4 (replicate 16 0); TbNew 200 8 4 (replicate 16 0);
   TbPut 5 100; TbPut 86 200; TbPut 5 200; TbGet 5; TbGet 86; TbRemove 5 200; TbGet 5;
   TbRemove 5 100; TbGet 5; TbGet 86; TbDrop 200].

Lemma demo_tb_ok : tb_ops_ok tb_spec0 demo_tb_ops.
Proof.
  unfold demo_tb_ops. repeat split;
    try (apply (bool_decide_eq_true_1 _); vm_compute; reflexivity).
Qed.

Lemma dgram_table_is_map_witness :
  ∃ t st, tb_run tb_state0 demo_tb_ops
      = Some ([0; 0; 0; 0; 0; 100; 200; 0; 100; 0; 0; 200; 0], (t, st)) ∧
    t_live t = 1 ∧
    (∀ cnx, 2 <= cnx -> aiopquic_dgram_table_get t cnx
       = Some (default 0 ((ts_run tb_spec0 demo_tb_ops).2.1 !! cnx))).
Proof.
  apply (dgram_table_is_map demo_tb_ops); [vm_compute; reflexivity|exact demo_tb_ok].
Defined.

Lemma dgram_table_refcounts_witness :
  ∃ rs t st, tb_run tb_state0 demo_tb_ops = Some (rs, (t, st)) ∧
    rs_alive st = Z.of_nat (size (rs_rings st)) ∧
    ∃ st1, aiopquic_dgram_table_destroy t st = Some (dgram_table0, st1) ∧
      drop_all (elements (ts_run tb_spec0 demo_tb_ops).2.2) st1 = Some (RingStore ∅ 0).
Proof.
  destruct (tb_run tb_state0 demo_tb_ops) as [[rs [t st]]|] eqn:E.
  - exists rs, t, st. split; [reflexivity|].
    apply (dgram_table_refcounts demo_tb_ops t st rs);
      [vm_compute; reflexivity|exact demo_tb_ok|exact E].
  - exfalso. vm_compute in E. discriminate.
Defined.
