(* ===== verification/StreamCtx.v ===== *)
(** * Per-stream wrapper (stream_ctx.h)

    [stream_ctx] is [aiopquic_stream_ctx_t]: the two byte rings of a stream, its
    flow-control and wakeup state and its reference count.  Wrappers live in a store
    ([sw_scs]) next to the process-wide counters ([sw_g]); a pointer to a freed
    wrapper is [None], undefined behaviour.  The theorems: sends are
    all-or-nothing and never lose a wakeup, the process-wide queued-bytes counter
    is the number of bytes in live TX rings, wrappers are freed exactly when the
    last reference goes, and a pull never passes a pending reset's reliable size. *)
From S2P Require Import Prelude Ring Store StreamBuf.

(** ** Data *)

Record stream_ctx := StreamCtx {
  sc_tx : option stream_buf;
  sc_rx : option stream_buf;
  sc_rx_consumed : Z;
  sc_bytes_pending_release : Z;
  sc_rx_credit_limit : Z;
  sc_last_fc_push_consumed : Z;
  sc_tx_drain_pending : Z;
  sc_rx_event_pending : Z;
  sc_pending_destroy : Z;
  sc_tx_reset_pending : Z;
  sc_tx_reliable_size : Z;
  sc_cnt_drain_arms : Z;
  sc_cnt_drain_fires : Z;
  sc_cnt_drain_dropped : Z;
  sc_last_drain_arm_ns : Z;
  sc_last_drain_fire_ns : Z;
  sc_refcount : Z
}.

Definition sc_set_tx (x : option stream_buf) (sc : stream_ctx) : stream_ctx :=
  StreamCtx x (sc_rx sc) (sc_rx_consumed sc) (sc_bytes_pending_release sc)
    (sc_rx_credit_limit sc) (sc_last_fc_push_consumed sc) (sc_tx_drain_pending sc)
    (sc_rx_event_pending sc) (sc_pending_destroy sc) (sc_tx_reset_pending sc)
    (sc_tx_reliable_size sc) (sc_cnt_drain_arms sc) (sc_cnt_drain_fires sc)
    (sc_cnt_drain_dropped sc) (sc_last_drain_arm_ns sc) (sc_last_drain_fire_ns sc)
    (sc_refcount sc).
Definition sc_set_rx (x : option stream_buf) (sc : stream_ctx) : stream_ctx :=
  StreamCtx (sc_tx sc) x (sc_rx_consumed sc) (sc_bytes_pending_release sc)
    (sc_rx_credit_limit sc) (sc_last_fc_push_consumed sc) (sc_tx_drain_pending sc)
    (sc_rx_event_pending sc) (sc_pending_destroy sc) (sc_tx_reset_pending sc)
    (sc_tx_reliable_size sc) (sc_cnt_drain_arms sc) (sc_cnt_drain_fires sc)
    (sc_cnt_drain_dropped sc) (sc_last_drain_arm_ns sc) (sc_last_drain_fire_ns sc)
    (sc_refcount sc).
Definition sc_set_rx_consumed (x : Z) (sc : stream_ctx) : stream_ctx :=
  StreamCtx (sc_tx sc) (sc_rx sc) x (sc_bytes_pending_release sc)
    (sc_rx_credit_limit sc) (sc_last_fc_push_consumed sc) (sc_tx_drain_pending sc)
    (sc_rx_event_pending sc) (sc_pending_destroy sc) (sc_tx_reset_pending sc)
    (sc_tx_reliable_size sc) (sc_cnt_drain_arms sc) (sc_cnt_drain_fires sc)
    (sc_cnt_drain_dropped sc) (sc_last_drain_arm_ns sc) (sc_last_drain_fire_ns sc)
    (sc_refcount sc).
Definition sc_set_bytes_pending_release (x : Z) (sc : stream_ctx) : stream_ctx :=
  StreamCtx (sc_tx sc) (sc_rx sc) (sc_rx_consumed sc) x (sc_rx_credit_limit sc)
    (sc_last_fc_push_consumed sc) (sc_tx_drain_pending sc) (sc_rx_event_pending sc)
    (sc_pending_destroy sc) (sc_tx_reset_pending sc) (sc_tx_reliable_size sc)
    (sc_cnt_drain_arms sc) (sc_cnt_drain_fires sc) (sc_cnt_drain_dropped sc)
    (sc_last_drain_arm_ns sc) (sc_last_drain_fire_ns sc) (sc_refcount sc).
Definition sc_set_rx_credit_limit (x : Z) (sc : stream_ctx) : stream_ctx :=
  StreamCtx (sc_tx sc) (sc_rx sc) (sc_rx_consumed sc) (sc_bytes_pending_release sc) x
    (sc_last_fc_push_consumed sc) (sc_tx_drain_pending sc) (sc_rx_event_pending sc)
    (sc_pending_destroy sc) (sc_tx_reset_pending sc) (sc_tx_reliable_size sc)
    (sc_cnt_drain_arms sc) (sc_cnt_drain_fires sc) (sc_cnt_drain_dropped sc)
    (sc_last_drain_arm_ns sc) (sc_last_drain_fire_ns sc) (sc_refcount sc).
Definition sc_set_last_fc_push_consumed (x : Z) (sc : stream_ctx) : stream_ctx :=
  StreamCtx (sc_tx sc) (sc_rx sc) (sc_rx_consumed sc) (sc_bytes_pending_release sc)
    (sc_rx_credit_limit sc) x (sc_tx_drain_pending sc) (sc_rx_event_pending sc)
    (sc_pending_destroy sc) (sc_tx_reset_pending sc) (sc_tx_reliable_size sc)
    (sc_cnt_drain_arms sc) (sc_cnt_drain_fires sc) (sc_cnt_drain_dropped sc)
    (sc_last_drain_arm_ns sc) (sc_last_drain_fire_ns sc) (sc_refcount sc).
Definition sc_set_tx_drain_pending (x : Z) (sc : stream_ctx) : stream_ctx :=
  StreamCtx (sc_tx sc) (sc_rx sc) (sc_rx_consumed sc) (sc_bytes_pending_release sc)
    (sc_rx_credit_limit sc) (sc_last_fc_push_consumed sc) x (sc_rx_event_pending sc)
    (sc_pending_destroy sc) (sc_tx_reset_pending sc) (sc_tx_reliable_size sc)
    (sc_cnt_drain_arms sc) (sc_cnt_drain_fires sc) (sc_cnt_drain_dropped sc)
    (sc_last_drain_arm_ns sc) (sc_last_drain_fire_ns sc) (sc_refcount sc).
Definition sc_set_rx_event_pending (x : Z) (sc : stream_ctx) : stream_ctx :=
  StreamCtx (sc_tx sc) (sc_rx sc) (sc_rx_consumed sc) (sc_bytes_pending_release sc)
    (sc_rx_credit_limit sc) (sc_last_fc_push_consumed sc) (sc_tx_drain_pending sc) x
    (sc_pending_destroy sc) (sc_tx_reset_pending sc) (sc_tx_reliable_size sc)
    (sc_cnt_drain_arms sc) (sc_cnt_drain_fires sc) (sc_cnt_drain_dropped sc)
    (sc_last_drain_arm_ns sc) (sc_last_drain_fire_ns sc) (sc_refcount sc).
Definition sc_set_pending_destroy (x : Z) (sc : stream_ctx) : stream_ctx :=
  StreamCtx (sc_tx sc) (sc_rx sc) (sc_rx_consumed sc) (sc_bytes_pending_release sc)
    (sc_rx_credit_limit sc) (sc_last_fc_push_consumed sc) (sc_tx_drain_pending sc)
    (sc_rx_event_pending sc) x (sc_tx_reset_pending sc) (sc_tx_reliable_size sc)
    (sc_cnt_drain_arms sc) (sc_cnt_drain_fires sc) (sc_cnt_drain_dropped sc)
    (sc_last_drain_arm_ns sc) (sc_last_drain_fire_ns sc) (sc_refcount sc).
Definition sc_set_tx_reset_pending (x : Z) (sc : stream_ctx) : stream_ctx :=
  StreamCtx (sc_tx sc) (sc_rx sc) (sc_rx_consumed sc) (sc_bytes_pending_release sc)
    (sc_rx_credit_limit sc) (sc_last_fc_push_consumed sc) (sc_tx_drain_pending sc)
    (sc_rx_event_pending sc) (sc_pending_destroy sc) x (sc_tx_reliable_size sc)
    (sc_cnt_drain_arms sc) (sc_cnt_drain_fires sc) (sc_cnt_drain_dropped sc)
    (sc_last_drain_arm_ns sc) (sc_last_drain_fire_ns sc) (sc_refcount sc).
Definition sc_set_tx_reliable_size (x : Z) (sc : stream_ctx) : stream_ctx :=
  StreamCtx (sc_tx sc) (sc_rx sc) (sc_rx_consumed sc) (sc_bytes_pending_release sc)
    (sc_rx_credit_limit sc) (sc_last_fc_push_consumed sc) (sc_tx_drain_pending sc)
    (sc_rx_event_pending sc) (sc_pending_destroy sc) (sc_tx_reset_pending sc) x
    (sc_cnt_drain_arms sc) (sc_cnt_drain_fires sc) (sc_cnt_drain_dropped sc)
    (sc_last_drain_arm_ns sc) (sc_last_drain_fire_ns sc) (sc_refcount sc).
Definition sc_set_cnt_drain_arms (x : Z) (sc : stream_ctx) : stream_ctx :=
  StreamCtx (sc_tx sc) (sc_rx sc) (sc_rx_consumed sc) (sc_bytes_pending_release sc)
    (sc_rx_credit_limit sc) (sc_last_fc_push_consumed sc) (sc_tx_drain_pending sc)
    (sc_rx_event_pending sc) (sc_pending_destroy sc) (sc_tx_reset_pending sc)
    (sc_tx_reliable_size sc) x (sc_cnt_drain_fires sc) (sc_cnt_drain_dropped sc)
    (sc_last_drain_arm_ns sc) (sc_last_drain_fire_ns sc) (sc_refcount sc).
Definition sc_set_cnt_drain_fires (x : Z) (sc : stream_ctx) : stream_ctx :=
  StreamCtx (sc_tx sc) (sc_rx sc) (sc_rx_consumed sc) (sc_bytes_pending_release sc)
    (sc_rx_credit_limit sc) (sc_last_fc_push_consumed sc) (sc_tx_drain_pending sc)
    (sc_rx_event_pending sc) (sc_pending_destroy sc) (sc_tx_reset_pending sc)
    (sc_tx_reliable_size sc) (sc_cnt_drain_arms sc) x (sc_cnt_drain_dropped sc)
    (sc_last_drain_arm_ns sc) (sc_last_drain_fire_ns sc) (sc_refcount sc).
Definition sc_set_cnt_drain_dropped (x : Z) (sc : stream_ctx) : stream_ctx :=
  StreamCtx (sc_tx sc) (sc_rx sc) (sc_rx_consumed sc) (sc_bytes_pending_release sc)
    (sc_rx_credit_limit sc) (sc_last_fc_push_consumed sc) (sc_tx_drain_pending sc)
    (sc_rx_event_pending sc) (sc_pending_destroy sc) (sc_tx_reset_pending sc)
    (sc_tx_reliable_size sc) (sc_cnt_drain_arms sc) (sc_cnt_drain_fires sc) x
    (sc_last_drain_arm_ns sc) (sc_last_drain_fire_ns sc) (sc_refcount sc).
Definition sc_set_last_drain_arm_ns (x : Z) (sc : stream_ctx) : stream_ctx :=
  StreamCtx (sc_tx sc) (sc_rx sc) (sc_rx_consumed sc) (sc_bytes_pending_release sc)
    (sc_rx_credit_limit sc) (sc_last_fc_push_consumed sc) (sc_tx_drain_pending sc)
    (sc_rx_event_pending sc) (sc_pending_destroy sc) (sc_tx_reset_pending sc)
    (sc_tx_reliable_size sc) (sc_cnt_drain_arms sc) (sc_cnt_drain_fires sc)
    (sc_cnt_drain_dropped sc) x (sc_last_drain_fire_ns sc) (sc_refcount sc).
Definition sc_set_last_drain_fire_ns (x : Z) (sc : stream_ctx) : stream_ctx :=
  StreamCtx (sc_tx sc) (sc_rx sc) (sc_rx_consumed sc) (sc_bytes_pending_release sc)
    (sc_rx_credit_limit sc) (sc_last_fc_push_consumed sc) (sc_tx_drain_pending sc)
    (sc_rx_event_pending sc) (sc_pending_destroy sc) (sc_tx_reset_pending sc)
    (sc_tx_reliable_size sc) (sc_cnt_drain_arms sc) (sc_cnt_drain_fires sc)
    (sc_cnt_drain_dropped sc) (sc_last_drain_arm_ns sc) x (sc_refcount sc).
Definition sc_set_refcount (x : Z) (sc : stream_ctx) : stream_ctx :=
  StreamCtx (sc_tx sc) (sc_rx sc) (sc_rx_consumed sc) (sc_bytes_pending_release sc)
    (sc_rx_credit_limit sc) (sc_last_fc_push_consumed sc) (sc_tx_drain_pending sc)
    (sc_rx_event_pending sc) (sc_pending_destroy sc) (sc_tx_reset_pending sc)
    (sc_tx_reliable_size sc) (sc_cnt_drain_arms sc) (sc_cnt_drain_fires sc)
    (sc_cnt_drain_dropped sc) (sc_last_drain_arm_ns sc) (sc_last_drain_fire_ns sc) x.

(** [calloc]'d wrapper. *)
Definition stream_ctx0 : stream_ctx := StreamCtx None None 0 0 0 0 0 0 0 0 0 0 0 0 0 0 0.

(** The process-wide counters. *)
Inductive sc_counter :=
  | CNT_SC_CREATED | CNT_SC_DESTROYED | CNT_CHUNKS_ALIVE
  | CNT_TX_DATA_BYTES_PUSHED | CNT_TX_DATA_BYTES_PULLED | CNT_TX_DATA_BYTES_DISCARDED
  | CNT_SC_REF_CHUNK_WRAP | CNT_SC_DESTROY_CHUNK_DEALLOC | CNT_SC_DESTROY_RX_EVENT
  | CNT_SC_CREATE_PYTHON_HELPER | CNT_SC_DESTROY_PYTHON_HELPER
  | CNT_SC_RX_BYTES_PUSHED | CNT_SC_RX_BYTES_POPPED.

#[export] Instance sc_counter_eq_dec : EqDecision sc_counter.
Proof. solve_decision. Defined.

Abbreviation sc_counters := (sc_counter -> Z).

(** [atomic_fetch_add] on a 64-bit counter. *)
Definition bump (c : sc_counter) (n : Z) (g : sc_counters) : sc_counters :=
  λ c', if decide (c = c') then u64 (g c' + n) else g c'.

Lemma bump_eq c n g : bump c n g c = u64 (g c + n).
Proof. unfold bump. by rewrite decide_True. Qed.

Lemma bump_ne c c' n g : c <> c' -> bump c n g c' = g c'.
Proof. intros. unfold bump. by rewrite decide_False. Qed.

(** The signed counter: [atomic_fetch_add] and [_sub] wrap in two's complement. *)
Definition s64 (x : Z) : Z := (x + 2 ^ 63) mod 2 ^ 64 - 2 ^ 63.
Definition bump_signed (c : sc_counter) (n : Z) (g : sc_counters) : sc_counters :=
  λ c', if decide (c = c') then s64 (g c' + n) else g c'.

Definition aiopquic_chunks_alive_inc := bump_signed CNT_CHUNKS_ALIVE 1.
Definition aiopquic_chunks_alive_dec := bump_signed CNT_CHUNKS_ALIVE (-1).
Definition aiopquic_cnt_chunks_alive_load (g : sc_counters) := g CNT_CHUNKS_ALIVE.
Definition aiopquic_tx_data_bytes_pushed_add (n : Z) := bump CNT_TX_DATA_BYTES_PUSHED n.
Definition aiopquic_tx_data_bytes_pulled_add (n : Z) := bump CNT_TX_DATA_BYTES_PULLED n.
Definition aiopquic_tx_data_bytes_pushed_load (g : sc_counters) := g CNT_TX_DATA_BYTES_PUSHED.
Definition aiopquic_tx_data_bytes_pulled_load (g : sc_counters) := g CNT_TX_DATA_BYTES_PULLED.
Definition aiopquic_tx_data_bytes_discarded_load (g : sc_counters) :=
  g CNT_TX_DATA_BYTES_DISCARDED.

Definition aiopquic_tx_data_bytes_queued (g : sc_counters) : Z :=
  let consumed := u64 (aiopquic_tx_data_bytes_pulled_load g
                       + aiopquic_tx_data_bytes_discarded_load g) in
  let pushed := aiopquic_tx_data_bytes_pushed_load g in
  if pushed >? consumed then pushed - consumed else 0.

Definition aiopquic_cnt_sc_created_load (g : sc_counters) := g CNT_SC_CREATED.
Definition aiopquic_cnt_sc_destroyed_load (g : sc_counters) := g CNT_SC_DESTROYED.
Definition aiopquic_cnt_sc_ref_chunk_wrap_inc := bump CNT_SC_REF_CHUNK_WRAP 1.
Definition aiopquic_cnt_sc_destroy_chunk_dealloc_inc := bump CNT_SC_DESTROY_CHUNK_DEALLOC 1.
Definition aiopquic_cnt_sc_destroy_rx_event_inc := bump CNT_SC_DESTROY_RX_EVENT 1.
Definition aiopquic_cnt_sc_create_python_helper_inc := bump CNT_SC_CREATE_PYTHON_HELPER 1.
Definition aiopquic_cnt_sc_destroy_python_helper_inc := bump CNT_SC_DESTROY_PYTHON_HELPER 1.
Definition aiopquic_sc_rx_bytes_pushed_add (n : Z) := bump CNT_SC_RX_BYTES_PUSHED n.
Definition aiopquic_sc_rx_bytes_popped_add (n : Z) := bump CNT_SC_RX_BYTES_POPPED n.
Definition aiopquic_cnt_sc_rx_bytes_pushed_load (g : sc_counters) := g CNT_SC_RX_BYTES_PUSHED.
Definition aiopquic_cnt_sc_rx_bytes_popped_load (g : sc_counters) := g CNT_SC_RX_BYTES_POPPED.

(** ** The store of wrappers *)

Record sc_world := ScWorld {
  sw_scs : gmap Z stream_ctx;
  sw_g : sc_counters
}.

Definition sc_world0 : sc_world := ScWorld ∅ (λ _, 0).

(** Apply [f] to the wrapper at [p]; [None]: [p] is not a live wrapper. *)
Definition sc_update (p : Z) (f : stream_ctx -> stream_ctx) (w : sc_world)
    : option sc_world :=
  sc ← sw_scs w !! p; Some (ScWorld (<[p := f sc]> (sw_scs w)) (sw_g w)).

(** [if (!sc) return;] followed by an update. *)
Definition sc_update_nn (p : Z) (f : stream_ctx -> stream_ctx) (w : sc_world)
    : option sc_world :=
  if p =? 0 then Some w else sc_update p f w.

(** [p]: the address [calloc] returns, 0 on failure. *)
Definition aiopquic_stream_ctx_create (p : Z) (w : sc_world) : Z * sc_world :=
  if p =? 0 then (0, w)
  else (p, ScWorld (<[p := sc_set_refcount 1 stream_ctx0]> (sw_scs w))
             (bump CNT_SC_CREATED 1 (sw_g w))).

Definition aiopquic_stream_ctx_ref (p : Z) (w : sc_world) : option sc_world :=
  sc_update_nn p (λ sc, sc_set_refcount (u32 (sc_refcount sc + 1)) sc) w.

(** Counter, timestamp and flag of an arm. *)
Definition sc_arm (now : Z) (sc : stream_ctx) : stream_ctx :=
  sc_set_tx_drain_pending 1 (sc_set_last_drain_arm_ns now
    (sc_set_cnt_drain_arms (u64 (sc_cnt_drain_arms sc + 1)) sc)).

Definition aiopquic_set_tx_data_drain_pending (now p : Z) (w : sc_world) : option sc_world :=
  sc_update_nn p (sc_arm now) w.

Definition aiopquic_clear_tx_data_drain_pending (p : Z) (w : sc_world) : option sc_world :=
  sc_update_nn p (sc_set_tx_drain_pending 0) w.

Definition aiopquic_stream_ctx_tx_drain_take (sc : stream_ctx) : bool * stream_ctx :=
  (sc_tx_drain_pending sc =? 1, sc_set_tx_drain_pending 0 sc).

(** What a ring allocation meets: the AIOPQUIC_TX_HASH variable, whether [calloc]
    succeeds, the block [malloc] returns. *)
Record buf_alloc := BufAlloc {
  ba_env : option string;
  ba_ok : bool;
  ba_blk : option (list Z)
}.

Definition buf_create (a : buf_alloc) (capacity : Z) : option stream_buf :=
  aiopquic_stream_buf_create (ba_env a) (ba_ok a) (ba_blk a) capacity.

Definition aiopquic_stream_ctx_ensure_tx (a : buf_alloc) (capacity p : Z) (w : sc_world)
    : option (Z * sc_world) :=
  if p =? 0 then Some (-1, w)
  else
    sc ← sw_scs w !! p;
    match sc_tx sc with
    | Some _ => Some (0, w)
    | None =>
        let tx := buf_create a capacity in
        w ← sc_update p (sc_set_tx tx) w;
        Some (if tx is Some _ then 0 else -1, w)
    end.

Definition aiopquic_stream_ctx_ensure_rx (a : buf_alloc) (capacity p : Z) (w : sc_world)
    : option (Z * sc_world) :=
  if p =? 0 then Some (-1, w)
  else
    sc ← sw_scs w !! p;
    match sc_rx sc with
    | Some _ => Some (0, w)
    | None =>
        let rx := buf_create a capacity in
        w ← sc_update p (sc_set_rx rx) w;
        Some (if rx is Some _ then 0 else -1, w)
    end.

Definition aiopquic_stream_ctx_destroy (p : Z) (w : sc_world) : option sc_world :=
  if p =? 0 then Some w
  else
    sc ← sw_scs w !! p;
    if negb (sc_refcount sc =? 1)
    then sc_update p (sc_set_refcount (u32 (sc_refcount sc - 1))) w
    else
      let g :=
        match sc_tx sc with
        | Some tx =>
            let remaining := aiopquic_stream_buf_used tx in
            if remaining >? 0 then bump CNT_TX_DATA_BYTES_DISCARDED remaining (sw_g w)
            else sw_g w
        | None => sw_g w
        end in
      Some (ScWorld (delete p (sw_scs w)) (bump CNT_SC_DESTROYED 1 g)).

Definition aiopquic_stream_ctx_tx_abandon (p : Z) (w : sc_world) : option sc_world :=
  if p =? 0 then Some w
  else
    sc ← sw_scs w !! p;
    match sc_tx sc with
    | None => Some w
    | Some tx =>
        if sb_tail tx >? sb_head tx then
          Some (ScWorld (<[p := sc_set_tx (Some (sb_set_head tx (sb_tail tx))) sc]> (sw_scs w))
                  (bump CNT_TX_DATA_BYTES_DISCARDED (u64 (sb_tail tx - sb_head tx)) (sw_g w)))
        else Some w
    end.

(** [None]: [sc->tx] is NULL and a reset is pending. *)
Definition aiopquic_stream_ctx_tx_sendable (sc : stream_ctx) (avail : Z) : option Z :=
  if sc_tx_reset_pending sc =? 0 then Some avail
  else
    tx ← sc_tx sc;
    let head := sb_head tx in
    let left := if sc_tx_reliable_size sc >? head then u64 (sc_tx_reliable_size sc - head)
                else 0 in
    Some (if left <? avail then u32 left else avail).

Definition aiopquic_stream_ctx_rx_consumed_load (sc : stream_ctx) : Z := sc_rx_consumed sc.
Definition aiopquic_stream_ctx_rx_consumed_add (delta : Z) (sc : stream_ctx) : stream_ctx :=
  sc_set_rx_consumed (u64 (sc_rx_consumed sc + delta)) sc.
Definition aiopquic_stream_ctx_rx_credit_load (sc : stream_ctx) : Z := sc_rx_credit_limit sc.
Definition aiopquic_stream_ctx_rx_credit_store (v : Z) : stream_ctx -> stream_ctx :=
  sc_set_rx_credit_limit v.

Definition aiopquic_stream_ctx_pending_add (p n : Z) (w : sc_world) : option sc_world :=
  if (p =? 0) || (n =? 0) then Some w
  else sc_update p (λ sc, sc_set_bytes_pending_release
                            (u64 (sc_bytes_pending_release sc + n)) sc) w.

Definition aiopquic_stream_ctx_pending_sub (p n : Z) (w : sc_world) : option sc_world :=
  if (p =? 0) || (n =? 0) then Some w
  else sc_update p (λ sc, sc_set_bytes_pending_release
                            (u64 (sc_bytes_pending_release sc - n)) sc) w.

Definition aiopquic_stream_ctx_pending_load (p : Z) (w : sc_world) : option Z :=
  if p =? 0 then Some 0 else sc ← sw_scs w !! p; Some (sc_bytes_pending_release sc).

Definition aiopquic_stream_ctx_last_fc_push_consumed_load (p : Z) (w : sc_world) : option Z :=
  if p =? 0 then Some 0 else sc ← sw_scs w !! p; Some (sc_last_fc_push_consumed sc).

Definition aiopquic_stream_ctx_last_fc_push_consumed_store (p v : Z) (w : sc_world)
    : option sc_world :=
  sc_update_nn p (sc_set_last_fc_push_consumed v) w.

Definition aiopquic_stream_ctx_rx_event_pending_arm (sc : stream_ctx) : bool * stream_ctx :=
  (sc_rx_event_pending sc =? 0, sc_set_rx_event_pending 1 sc).

Definition aiopquic_stream_ctx_rx_event_pending_clear (sc : stream_ctx) : stream_ctx :=
  sc_set_rx_event_pending 0 sc.

(** ** The worker's side of a TX ring *)

(** The pull of both prepare_to_send handlers: what may be sent, capped by the
    packet's room, popped and counted. *)
Definition sc_pull (p want : Z) (w : sc_world) : option (list Z * sc_world) :=
  sc ← sw_scs w !! p;
  match sc_tx sc with
  | None => Some ([], w)
  | Some tx =>
      let avail := aiopquic_stream_buf_used tx in
      sendable ← aiopquic_stream_ctx_tx_sendable sc avail;
      let to_send := if sendable <? want then sendable else want in
      if to_send >? 0 then
        '(bs, tx) ← aiopquic_stream_buf_pop tx to_send;
        Some (bs, ScWorld (<[p := sc_set_tx (Some tx) sc]> (sw_scs w))
                    (aiopquic_tx_data_bytes_pulled_add to_send (sw_g w)))
      else Some ([], w)
  end.

Inductive tx_worker := PullBytes (want : Z) | TakeDrain.

Inductive tx_out := Pulled (bs : list Z) | Took (b : bool).

Definition tx_worker_step (p : Z) (o : tx_worker) (w : sc_world)
    : option (tx_out * sc_world) :=
  match o with
  | PullBytes want => '(bs, w) ← sc_pull p want w; Some (Pulled bs, w)
  | TakeDrain =>
      sc ← sw_scs w !! p;
      let (b, sc) := aiopquic_stream_ctx_tx_drain_take sc in
      Some (Took b, ScWorld (<[p := sc]> (sw_scs w)) (sw_g w))
  end.

Fixpoint tx_worker_run (p : Z) (os : list tx_worker) (w : sc_world)
    : option (list tx_out * sc_world) :=
  match os with
  | [] => Some ([], w)
  | o :: os => '(r, w) ← tx_worker_step p o w; '(rs, w) ← tx_worker_run p os w; Some (r :: rs, w)
  end.

(** ** The send fast path *)

(** [sc->tx = tx] once something was stored in the ring. *)
Definition sc_put_tx (p : Z) (sc : stream_ctx) (tx : stream_buf) (w : sc_world) : sc_world :=
  ScWorld (<[p := sc_set_tx (Some tx) sc]> (sw_scs w)) (sw_g w).

(** From the push to the return: [rs] is what the worker did meanwhile. *)
Definition send_commit (p : Z) (data : list Z) (set_fin : bool) (rs : list tx_out)
    (w : sc_world) : option (Z * list tx_out * sc_world) :=
  sc ← sw_scs w !! p; tx ← sc_tx sc;
  '(accepted, tx) ← (if zlen data >? 0 then aiopquic_stream_buf_push tx data else Some (0, tx));
  if negb (accepted =? zlen data) then Some (0, rs, sc_put_tx p sc tx w)
  else
    let tx := if set_fin then aiopquic_stream_buf_set_fin tx else tx in
    Some (1, rs, sc_put_tx p sc tx w).

(** [during]: what the worker does between the arm and the re-check. *)
Definition aiopquic_stream_ctx_send_data (a : buf_alloc) (now : Z) (during : list tx_worker)
    (p : Z) (data : list Z) (capacity : Z) (set_fin : bool) (w : sc_world)
    : option (Z * list tx_out * sc_world) :=
  if p =? 0 then Some (-1, [], w)
  else
    sc ← sw_scs w !! p;
    let sc := match sc_tx sc with Some _ => sc | None => sc_set_tx (buf_create a capacity) sc end in
    let w := ScWorld (<[p := sc]> (sw_scs w)) (sw_g w) in
    match sc_tx sc with
    | None => Some (-1, [], w)
    | Some tx =>
        let len := zlen data in
        let tail := sb_tail tx in
        let free_bytes tx := u32 (sb_capacity tx - u32 (u64 (tail - sb_head tx))) in
        if len >? sb_capacity tx then Some (-2, [], w)
        else if (len >? 0) && (free_bytes tx <? len) then
          w ← sc_update p (sc_arm now) w;
          '(rs, w) ← tx_worker_run p during w;
          sc ← sw_scs w !! p; tx ← sc_tx sc;
          if free_bytes tx <? len then Some (0, rs, w)
          else send_commit p data set_fin rs w
        else send_commit p data set_fin [] w
    end.

(** ** Pulls *)

(** The bytes the worker may still take: all of the queue, or what a pending
    reset's reliable size leaves. *)
Definition tx_limit (sc : stream_ctx) (H : Z) (q : list Z) : Z :=
  if sc_tx_reset_pending sc =? 0 then zlen q
  else Z.min (zlen q) (Z.max 0 (sc_tx_reliable_size sc - H)).

Lemma tx_limit_range sc H q : 0 <= tx_limit sc H q <= zlen q.
Proof. unfold tx_limit. case_bool; lia. Qed.

Lemma sb_head_small tx H q : sb_rep tx H q -> H + zlen q < 2 ^ 64 ->
  sb_head tx = H ∧ sb_tail tx = H + zlen q ∧ 0 <= H.
Proof.
  intros R Hw. pose proof (rr_start _ _ _ _ (sr_ring _ _ _ R)).
  rewrite (sr_head _ _ _ R), (sr_tail _ _ _ R), !u64_small by lia. done.
Qed.

Lemma tx_sendable_spec sc tx H q : sc_tx sc = Some tx -> sb_rep tx H q ->
  H + zlen q < 2 ^ 64 -> 0 <= sc_tx_reliable_size sc < 2 ^ 64 ->
  aiopquic_stream_ctx_tx_sendable sc (zlen q) = Some (tx_limit sc H q).
Proof.
  intros Et R Hw Hr. destruct (sb_head_small _ _ _ R Hw) as (Eh & _ & H0).
  pose proof (sb_rep_cap _ _ _ R). pose proof (sb_rep_fit _ _ _ R).
  unfold aiopquic_stream_ctx_tx_sendable, tx_limit. case_bool; [done|].
  rewrite Et. cbn [mbind option_bind]. rewrite Eh, Z.gtb_ltb. f_equal.
  destruct (Z.ltb_spec H (sc_tx_reliable_size sc)).
  - rewrite u64_small by lia. case_bool; [rewrite u32_small by lia|]; lia.
  - case_bool; [rewrite u32_small by lia|]; lia.
Qed.

(** The ring after the worker took a prefix. *)
Record pulled_from (tx tx' : stream_buf) (H : Z) (q : list Z) (n : Z) : Prop := {
  pf_rep : sb_rep tx' (H + n) (drop (Z.to_nat n) q);
  pf_cap : sb_capacity tx' = sb_capacity tx;
  pf_fin : sb_fin_pending tx' = sb_fin_pending tx;
  pf_tail : sb_tail tx' = sb_tail tx
}.

Lemma pulled_from_refl tx H q : sb_rep tx H q -> pulled_from tx tx H q 0.
Proof. intros R. split; rewrite ?Z.add_0_r; done. Qed.

Lemma pulled_from_trans tx tx1 tx2 H q n m : 0 <= n -> 0 <= m ->
  pulled_from tx tx1 H q n -> pulled_from tx1 tx2 (H + n) (drop (Z.to_nat n) q) m ->
  pulled_from tx tx2 H q (n + m).
Proof.
  intros Hn Hm [R1 C1 F1 T1] [R2 C2 F2 T2]. split; [|congruence..].
  rewrite drop_drop, <- Z.add_assoc in R2.
  by replace (Z.to_nat (n + m)) with (Z.to_nat n + Z.to_nat m)%nat by lia.
Qed.

Lemma pop_tail tx m bs tx' : aiopquic_stream_buf_pop tx m = Some (bs, tx') ->
  sb_tail tx' = sb_tail tx.
Proof.
  unfold aiopquic_stream_buf_pop. case_match; [by intros [= _ <-]|].
  destruct (wrap_read _ _ _ _); [|done]. by intros [= _ <-].
Qed.

Lemma sc_pull_spec w p sc tx H q want : sw_scs w !! p = Some sc -> sc_tx sc = Some tx ->
  sb_rep tx H q -> H + zlen q < 2 ^ 64 -> 0 <= sc_tx_reliable_size sc < 2 ^ 64 ->
  0 <= want ->
  let n := Z.min want (tx_limit sc H q) in
  ∃ tx' g', sc_pull p want w = Some (take (Z.to_nat n) q,
      ScWorld (<[p := sc_set_tx (Some tx') sc]> (sw_scs w)) g') ∧
    pulled_from tx tx' H q n ∧
    g' = (if n =? 0 then sw_g w else aiopquic_tx_data_bytes_pulled_add n (sw_g w)).
Proof.
  intros E Et R Hw Hr Hwant n. unfold sc_pull. rewrite E. cbn [mbind option_bind].
  rewrite Et, (sb_used_eq _ _ _ R), (tx_sendable_spec _ _ _ _ Et R Hw Hr).
  cbn [mbind option_bind]. pose proof (tx_limit_range sc H q).
  assert (En : (if tx_limit sc H q <? want then tx_limit sc H q else want) = n)
    by (case_bool; lia).
  rewrite En, Z.gtb_ltb. destruct (Z.ltb_spec 0 n).
  - destruct (stream_buf_pop_spec tx H q n R ltac:(lia)) as (tx' & Ep & R' & Ec & Ef & _).
    replace (Z.min n (zlen q)) with n in Ep, R' by lia.
    exists tx'. eexists. rewrite Ep. cbn [mbind option_bind]. split; [done|].
    split; [|by rewrite (proj2 (Z.eqb_neq n 0)) by lia].
    split; try done. by eapply pop_tail.
  - assert (n = 0) as -> by lia. exists tx, (sw_g w). split; [|split; [|done]].
    + cbn. do 2 f_equal. destruct w as [scs g]. cbn in *. f_equal.
      rewrite insert_id; [done|]. rewrite E. f_equal. destruct sc. cbn in *. by subst.
    + by apply pulled_from_refl.
Qed.

Lemma tx_limit_after sc sc' H q n : 0 <= n <= tx_limit sc H q ->
  sc_tx_reset_pending sc' = sc_tx_reset_pending sc ->
  sc_tx_reliable_size sc' = sc_tx_reliable_size sc ->
  tx_limit sc' (H + n) (drop (Z.to_nat n) q) = tx_limit sc H q - n.
Proof.
  intros Hn E1 E2. pose proof (tx_limit_range sc H q). unfold tx_limit in *.
  rewrite E1, E2, length_drop. case_bool; lia.
Qed.

(** Bytes handed to the packet builder by a run of worker moves. *)
Definition tx_delivered (rs : list tx_out) : list Z :=
  rs ≫= λ r, match r with Pulled bs => bs | Took _ => [] end.

(** Only the pulled-bytes counter moved, by [n]. *)
Definition only_pulled (g g' : sc_counters) (n : Z) : Prop :=
  (∀ c, c <> CNT_TX_DATA_BYTES_PULLED -> g' c = g c) ∧
  (0 <= g CNT_TX_DATA_BYTES_PULLED < 2 ^ 64 ->
   g' CNT_TX_DATA_BYTES_PULLED = u64 (g CNT_TX_DATA_BYTES_PULLED + n)).

Lemma only_pulled_refl g : only_pulled g g 0.
Proof. split; [done|]. intros. by rewrite Z.add_0_r, u64_small. Qed.

Lemma only_pulled_add g n :
  only_pulled g (if n =? 0 then g else aiopquic_tx_data_bytes_pulled_add n g) n.
Proof.
  case_bool; [subst; apply only_pulled_refl|].
  split; unfold aiopquic_tx_data_bytes_pulled_add, bump.
  - intros c Hc. by rewrite decide_False.
  - intros. by rewrite decide_True.
Qed.

Lemma only_pulled_trans g1 g2 g3 n m :
  only_pulled g1 g2 n -> only_pulled g2 g3 m -> only_pulled g1 g3 (n + m).
Proof.
  intros [A1 B1] [A2 B2]. split; [intros c Hc; by rewrite A2, A1|].
  intros Hr. specialize (B1 Hr). rewrite B2 by (rewrite B1; apply u64_range).
  rewrite B1, u64_add_l. f_equal. lia.
Qed.

Definition tx_worker_ok (o : tx_worker) : Prop :=
  match o with PullBytes want => 0 <= want | TakeDrain => True end.

(** The state of wrapper [p] after the worker took [n] bytes and maybe the drain
    signal: every other field and every other wrapper is as it was. *)
Record worker_moved (p : Z) (w w' : sc_world) (sc : stream_ctx) (tx : stream_buf)
    (H : Z) (q : list Z) (n d : Z) (tx' : stream_buf) : Prop := {
  wm_scs : sw_scs w' = <[p := sc_set_tx_drain_pending d (sc_set_tx (Some tx') sc)]> (sw_scs w);
  wm_n : 0 <= n <= tx_limit sc H q;
  wm_tx : pulled_from tx tx' H q n;
  wm_g : only_pulled (sw_g w) (sw_g w') n
}.

Lemma tx_worker_run_spec p os : ∀ w sc tx H q, sw_scs w !! p = Some sc ->
  sc_tx sc = Some tx -> sb_rep tx H q -> H + zlen q < 2 ^ 64 ->
  0 <= sc_tx_reliable_size sc < 2 ^ 64 -> Forall tx_worker_ok os ->
  ∃ rs w' tx' n d, tx_worker_run p os w = Some (rs, w') ∧
    worker_moved p w w' sc tx H q n d tx' ∧
    tx_delivered rs = take (Z.to_nat n) q ∧
    (sc_tx_drain_pending sc = 1 -> Took true ∈ rs ∨ d = 1).
Proof.
  induction os as [|o os IH]; intros w sc tx H q E Et R Hw Hr Hok.
  { exists [], w, tx, 0, (sc_tx_drain_pending sc). split; [done|].
    pose proof (tx_limit_range sc H q). split; [|by auto]. split; [|lia|by apply pulled_from_refl
      |apply only_pulled_refl].
    rewrite insert_id; [done|]. rewrite E. f_equal. destruct sc. cbn in *. by subst. }
  apply Forall_cons in Hok as [Ho Hok]. cbn [tx_worker_run].
  destruct o as [want|]; cbn [tx_worker_step].
  - destruct (sc_pull_spec w p sc tx H q want E Et R Hw Hr Ho) as (tx1 & g1 & -> & P1 & Eg).
    cbn [mbind option_bind]. set (n1 := Z.min want (tx_limit sc H q)) in *.
    pose proof (tx_limit_range sc H q). cbn in Ho.
    assert (Hn1 : 0 <= n1 <= tx_limit sc H q) by lia.
    set (sc1 := sc_set_tx (Some tx1) sc). set (w1 := ScWorld _ g1).
    destruct (IH w1 sc1 tx1 (H + n1) (drop (Z.to_nat n1) q)) as
      (rs & w2 & tx2 & n2 & d & E2 & [M1 M2 M3 M4] & Hd & Harm).
    { by apply lookup_insert_eq. } { done. } { apply P1. }
    { rewrite length_drop. lia. } { done. } { done. }
    exists (Pulled (take (Z.to_nat n1) q) :: rs), w2, tx2, (n1 + n2), d.
    rewrite E2. split; [done|]. rewrite (tx_limit_after sc) in M2 by (done || lia).
    split; [split|split].
    + rewrite M1. unfold w1. cbn [sw_scs]. by rewrite insert_insert_eq.
    + lia.
    + by eapply pulled_from_trans; [lia|lia| |].
    + eapply only_pulled_trans; [|exact M4]. cbn. rewrite Eg. apply only_pulled_add.
    + change (take (Z.to_nat n1) q ++ tx_delivered rs = take (Z.to_nat (n1 + n2)) q).
      rewrite Hd. replace (Z.to_nat (n1 + n2)) with (Z.to_nat n1 + Z.to_nat n2)%nat by lia.
      by rewrite take_take_drop.
    + intros Ha. destruct (Harm Ha); [left; by right|by right].
  - rewrite E. cbn [mbind option_bind aiopquic_stream_ctx_tx_drain_take].
    set (sc1 := sc_set_tx_drain_pending 0 sc).
    destruct (IH (ScWorld (<[p := sc1]> (sw_scs w)) (sw_g w)) sc1 tx H q) as
      (rs & w2 & tx2 & n2 & d & E2 & [M1 M2 M3 M4] & Hd & Harm); try done.
    { by apply lookup_insert_eq. }
    exists (Took (sc_tx_drain_pending sc =? 1) :: rs), w2, tx2, n2, d.
    rewrite E2. split; [done|]. split; [split|split]; try done.
    + rewrite M1. cbn [sw_scs]. by rewrite insert_insert_eq.
    + intros ->. left. by left.
Qed.

(** ** Sending *)

(** The fields a send leaves alone. *)
Record send_frame (sc sc' : stream_ctx) : Prop := {
  fr_refcount : sc_refcount sc' = sc_refcount sc;
  fr_rx : sc_rx sc' = sc_rx sc;
  fr_reset : sc_tx_reset_pending sc' = sc_tx_reset_pending sc;
  fr_reliable : sc_tx_reliable_size sc' = sc_tx_reliable_size sc
}.

(** What a send on ring [tx], holding [q] from cursor [H], may answer; the worker
    took [n] bytes meanwhile. *)
Inductive send_outcome (tx tx' : stream_buf) (H : Z) (q data : list Z) (set_fin : bool)
    (n : Z) (woken : Prop) : Z -> Prop :=
  | sent_all :
      sb_rep tx' (H + n) (drop (Z.to_nat n) q ++ data) ->
      sb_fin_pending tx' = (if set_fin then 1 else sb_fin_pending tx) ->
      send_outcome tx tx' H q data set_fin n woken 1
  | sent_full :
      sb_rep tx' (H + n) (drop (Z.to_nat n) q) ->
      sb_fin_pending tx' = sb_fin_pending tx ->
      sb_capacity tx - (zlen q - n) < zlen data -> woken ->
      send_outcome tx tx' H q data set_fin n woken 0
  | sent_never :
      tx' = tx -> n = 0 -> sb_capacity tx < zlen data ->
      send_outcome tx tx' H q data set_fin n woken (-2).

Lemma send_commit_spec p data set_fin rs w sc tx H q : sw_scs w !! p = Some sc ->
  sc_tx sc = Some tx -> sb_rep tx H q -> zlen q + zlen data <= sb_capacity tx ->
  ∃ tx', send_commit p data set_fin rs w = Some (1, rs, sc_put_tx p sc tx' w) ∧
    sb_rep tx' H (q ++ data) ∧ sb_capacity tx' = sb_capacity tx ∧
    sb_fin_pending tx' = if set_fin then 1 else sb_fin_pending tx.
Proof.
  intros E Et R Hfit. unfold send_commit. rewrite E. cbn [mbind option_bind].
  rewrite Et. cbn [mbind option_bind]. rewrite Z.gtb_ltb.
  assert (P : ∃ tx1, (if 0 <? zlen data then aiopquic_stream_buf_push tx data
      else Some (0, tx)) = Some (zlen data, tx1) ∧ sb_rep tx1 H (q ++ data) ∧
      sb_capacity tx1 = sb_capacity tx ∧ sb_fin_pending tx1 = sb_fin_pending tx).
  { destruct (Z.ltb_spec 0 (zlen data)).
    - pose proof (sb_rep_cap _ _ _ R).
      destruct (stream_buf_push_spec tx H q data R ltac:(lia)) as (tx1 & -> & R1 & Ec & Ef & _).
      unfold accepted in *. exists tx1. rewrite Z.min_l in * by lia.
      by rewrite Nat2Z.id, firstn_all in R1.
    - exists tx. destruct data; [|cbn in *; lia]. by rewrite app_nil_r. }
  destruct P as (tx1 & -> & R1 & Ec & Ef). cbn [mbind option_bind].
  rewrite Z.eqb_refl. cbn [negb]. eexists; split; [done|].
  destruct set_fin; [|done]. split; [by apply stream_buf_set_fin_spec|done].
Qed.

(** The free-space test of a send, with the tail loaded before the worker moved. *)
Lemma send_free tx tx' H q n : pulled_from tx tx' H q n -> 0 <= n <= zlen q ->
  u32 (sb_capacity tx' - u32 (u64 (sb_tail tx - sb_head tx')))
  = sb_capacity tx - (zlen q - n).
Proof.
  intros [R Ec Ef <-] Hn. change (u32 (u64 (sb_tail tx' - sb_head tx')))
    with (aiopquic_stream_buf_used tx').
  pose proof (sb_rep_cap _ _ _ R). pose proof (sb_rep_fit _ _ _ R).
  rewrite (sb_used_eq _ _ _ R), <- Ec. rewrite length_drop in *. rewrite u32_small; lia.
Qed.

Lemma send_data_spec a now during p data capacity set_fin w sc tx H q :
  p <> 0 -> sw_scs w !! p = Some sc ->
  match sc_tx sc with Some tx0 => Some tx0 | None => buf_create a capacity end = Some tx ->
  sb_rep tx H q -> H + zlen q < 2 ^ 64 -> 0 <= sc_tx_reliable_size sc < 2 ^ 64 ->
  Forall tx_worker_ok during ->
  ∃ rc rs w' sc' tx' n,
    aiopquic_stream_ctx_send_data a now during p data capacity set_fin w = Some (rc, rs, w') ∧
    sw_scs w' = <[p := sc']> (sw_scs w) ∧ sc_tx sc' = Some tx' ∧ send_frame sc sc' ∧
    sb_capacity tx' = sb_capacity tx ∧ 0 <= n <= zlen q ∧
    tx_delivered rs = take (Z.to_nat n) q ∧ only_pulled (sw_g w) (sw_g w') n ∧
    send_outcome tx tx' H q data set_fin n
      (Took true ∈ rs ∨ sc_tx_drain_pending sc' = 1) rc.
Proof.
  intros Hp E Etx R Hw Hr Hok. unfold aiopquic_stream_ctx_send_data.
  rewrite (proj2 (Z.eqb_neq p 0)) by done. rewrite E. cbn [mbind option_bind].
  set (sc1 := match sc_tx sc with Some _ => sc | None => sc_set_tx (buf_create a capacity) sc end).
  assert (Et1 : sc_tx sc1 = Some tx).
  { unfold sc1. destruct (sc_tx sc) eqn:E1; [congruence|]. exact Etx. }
  assert (F1 : send_frame sc sc1) by (unfold sc1; destruct (sc_tx sc); by split).
  rewrite Et1. clearbody sc1. pose proof (sb_rep_cap _ _ _ R).
  pose proof (sb_rep_fit _ _ _ R). rewrite !Z.gtb_ltb.
  assert (Hr1 : 0 <= sc_tx_reliable_size sc1 < 2 ^ 64) by (by rewrite (fr_reliable _ _ F1)).
  set (w1 := ScWorld (<[p := sc1]> (sw_scs w)) (sw_g w)).
  assert (E1 : sw_scs w1 !! p = Some sc1) by apply lookup_insert_eq.
  destruct (Z.ltb_spec (sb_capacity tx) (zlen data)).
  { do 3 eexists. exists sc1, tx, 0. split; [done|]. split_and!; try done; [lia|apply only_pulled_refl|].
    by apply sent_never. }
  pose proof (send_free _ _ _ _ 0 (pulled_from_refl _ _ _ R) ltac:(lia)) as Efree.
  rewrite Efree.
  destruct ((0 <? zlen data) && (sb_capacity tx - (zlen q - 0) <? zlen data)) eqn:Efull.
  - unfold sc_update. rewrite E1. cbn [mbind option_bind].
    set (w2 := ScWorld _ _).
    destruct (tx_worker_run_spec p during w2 (sc_arm now sc1) tx H q) as
      (rs & w3 & tx3 & n & d & -> & [M1 M2 M3 M4] & Hd & Ha); try done.
    { by apply lookup_insert_eq. }
    cbn [mbind option_bind]. set (sc3 := sc_set_tx_drain_pending d _) in M1.
    pose proof (tx_limit_range (sc_arm now sc1) H q) as Hlim.
    assert (E3 : sw_scs w3 !! p = Some sc3) by (rewrite M1; apply lookup_insert_eq).
    rewrite E3. cbn [mbind option_bind]. change (sc_tx sc3) with (Some tx3).
    cbn [mbind option_bind]. rewrite (send_free _ _ _ _ _ M3 ltac:(lia)).
    assert (Hscs : ∀ sc', <[p := sc']> (sw_scs w3) = <[p := sc']> (sw_scs w)).
    { intros sc'. rewrite M1. unfold w2, w1. cbn [sw_scs]. by rewrite !insert_insert_eq. }
    assert (F3 : send_frame sc sc3) by (by destruct F1).
    destruct (Z.ltb_spec (sb_capacity tx - (zlen q - n)) (zlen data)).
    + do 3 eexists. exists sc3, tx3, n. split; [done|].
      split; [by rewrite <- (Hscs sc3), insert_id|].
      split_and!; try done; [apply M3|lia|lia|].
      apply sent_full; [apply M3|apply M3|lia|].
      destruct (Ha eq_refl); [by left|by right].
    + destruct (send_commit_spec p data set_fin rs w3 sc3 tx3 (H + n)
        (drop (Z.to_nat n) q) E3 eq_refl (pf_rep _ _ _ _ _ M3)) as (tx4 & -> & R4 & Ec4 & Ef4).
      { rewrite length_drop, (pf_cap _ _ _ _ _ M3). lia. }
      do 3 eexists. exists (sc_set_tx (Some tx4) sc3), tx4, n. split; [done|].
      split; [apply Hscs|]. split_and!; try done.
      * destruct F3. by split.
      * rewrite Ec4. apply M3.
      * lia.
      * lia.
      * apply sent_all; [done|]. rewrite Ef4. destruct set_fin; [done|apply M3].
  - destruct (send_commit_spec p data set_fin [] w1 sc1 tx H q E1 Et1 R) as (tx4 & -> & R4 & Ec4 & Ef4).
    { apply andb_false_iff in Efull as [Hz|Hz]; apply Z.ltb_ge in Hz; lia. }
    do 3 eexists. exists (sc_set_tx (Some tx4) sc1), tx4, 0. split; [done|].
    split; [unfold sc_put_tx, w1; cbn [sw_scs]; by rewrite insert_insert_eq|].
    split_and!; try done; [by destruct F1|lia|apply only_pulled_refl|].
    apply sent_all; rewrite ?Z.add_0_r; done.
Qed.

(** ** Accounting *)

#[export] Instance stream_ctx_refcounted : RefCounted stream_ctx := sc_refcount.

Definition tx_used (sc : stream_ctx) : Z :=
  match sc_tx sc with Some tx => aiopquic_stream_buf_used tx | None => 0 end.

(** The TX ring of a wrapper is sound and saw at most [T] bytes. *)
Definition tx_ok (T : Z) (sc : stream_ctx) : Prop :=
  0 <= sc_tx_reliable_size sc < 2 ^ 64 ∧
  ∀ tx, sc_tx sc = Some tx -> ∃ H q, sb_rep tx H q ∧ H + zlen q <= T.

(** [T] bytes were accepted from Python so far; [f p] references to wrapper [p]
    exist. *)
Record sc_inv (T : Z) (f : Z -> Z) (w : sc_world) : Prop := {
  si_refs : rc_ok (sw_scs w) f;
  si_tx : ∀ p sc, sw_scs w !! p = Some sc -> tx_ok T sc;
  si_total : 0 <= T < 2 ^ 64;
  si_pushed : sw_g w CNT_TX_DATA_BYTES_PUSHED = T;
  si_pulled : 0 <= sw_g w CNT_TX_DATA_BYTES_PULLED;
  si_discarded : 0 <= sw_g w CNT_TX_DATA_BYTES_DISCARDED;
  si_flow : sw_g w CNT_TX_DATA_BYTES_PULLED + sw_g w CNT_TX_DATA_BYTES_DISCARDED
            + msum tx_used (sw_scs w) = T;
  si_alive : sw_g w CNT_SC_CREATED
             = u64 (sw_g w CNT_SC_DESTROYED + Z.of_nat (size (sw_scs w)))
}.

Lemma tx_ok_mono T T' sc : tx_ok T sc -> T <= T' -> tx_ok T' sc.
Proof.
  intros [Hr Ht] Hle. split; [done|]. intros tx Et.
  destruct (Ht tx Et) as (H & q & R & Hq). exists H, q. split; [done|lia].
Qed.

Lemma tx_used_ok T sc : tx_ok T sc -> 0 <= tx_used sc.
Proof.
  intros [_ Ht]. unfold tx_used. destruct (sc_tx sc) as [tx|]; [|lia].
  destruct (Ht tx eq_refl) as (H & q & R & _). rewrite (sb_used_eq _ _ _ R). lia.
Qed.

Lemma msum_used_nonneg T (scs : gmap Z stream_ctx) :
  (∀ p sc, scs !! p = Some sc -> tx_ok T sc) -> 0 <= msum tx_used scs.
Proof.
  induction scs as [|p sc scs Hp IH] using map_ind; intros Hok; [by rewrite msum_empty|].
  rewrite msum_insert by done.
  pose proof (tx_used_ok T sc (Hok p sc (lookup_insert_eq _ _ _))).
  assert (0 <= msum tx_used scs); [|lia].
  apply IH. intros p' sc' E. apply (Hok p'). rewrite lookup_insert_ne; [done|congruence].
Qed.

(** One wrapper changes, keeping its counter. *)
Lemma sc_inv_change T T' f w p sc sc' g' : sc_inv T f w -> sw_scs w !! p = Some sc ->
  sc_refcount sc' = sc_refcount sc -> tx_ok T' sc' -> T <= T' < 2 ^ 64 ->
  g' CNT_TX_DATA_BYTES_PUSHED = T' -> 0 <= g' CNT_TX_DATA_BYTES_PULLED ->
  0 <= g' CNT_TX_DATA_BYTES_DISCARDED ->
  g' CNT_TX_DATA_BYTES_PULLED + g' CNT_TX_DATA_BYTES_DISCARDED + tx_used sc'
    = sw_g w CNT_TX_DATA_BYTES_PULLED + sw_g w CNT_TX_DATA_BYTES_DISCARDED
      + tx_used sc + (T' - T) ->
  g' CNT_SC_CREATED = sw_g w CNT_SC_CREATED ->
  g' CNT_SC_DESTROYED = sw_g w CNT_SC_DESTROYED ->
  sc_inv T' f (ScWorld (<[p := sc']> (sw_scs w)) g').
Proof.
  intros [R Ht HT Hp Hpu Hd Hf Ha] E Ec Hok HT' E1 E2 E3 E4 E5 E6.
  split; cbn [sw_scs sw_g]; try done; [| |lia| |].
  - by eapply rc_same.
  - intros p' sc''. rewrite lookup_insert_Some. intros [[<- <-]|[Hne E']]; [done|].
    eapply tx_ok_mono; [by eapply Ht|lia].
  - rewrite (msum_update _ _ _ _ _ E). lia.
  - rewrite E5, E6, map_size_insert_Some by done. done.
Qed.

(** Within the totals, no counter wraps. *)
Lemma sc_inv_bounds T f w p sc : sc_inv T f w -> sw_scs w !! p = Some sc ->
  0 <= tx_used sc ∧
  sw_g w CNT_TX_DATA_BYTES_PULLED + sw_g w CNT_TX_DATA_BYTES_DISCARDED + tx_used sc <= T.
Proof.
  intros [R Ht HT Hp Hpu Hd Hf Ha] E.
  pose proof (tx_used_ok T sc (Ht _ _ E)). split; [done|].
  pose proof (msum_delete tx_used _ _ _ E).
  assert (0 <= msum tx_used (delete p (sw_scs w))); [|lia].
  apply (msum_used_nonneg T). intros p' sc' [_ E']%lookup_delete_Some. by eapply Ht.
Qed.

(** ** Runs *)

(** Everything that happens to wrappers: Python and the worker take and drop
    references and create wrappers; Python sends and counts what was accepted; the
    worker pulls, takes the drain signal, abandons a reset stream's queue or holds
    it to a reliable size. *)
Inductive sc_op :=
  | ScCreate (p : Z)
  | ScRef (p : Z)
  | ScDestroy (p : Z)
  | ScSend (a : buf_alloc) (now : Z) (during : list tx_worker) (p : Z) (data : list Z)
      (capacity : Z) (set_fin : bool)
  | ScWork (p : Z) (o : tx_worker)
  | ScAbandon (p : Z)
  | ScHold (p reliable_size : Z).

Definition sc_step (o : sc_op) (w : sc_world) : option sc_world :=
  match o with
  | ScCreate p => Some (aiopquic_stream_ctx_create p w).2
  | ScRef p => aiopquic_stream_ctx_ref p w
  | ScDestroy p => aiopquic_stream_ctx_destroy p w
  | ScSend a now during p data capacity set_fin =>
      '(rc, _, w) ← aiopquic_stream_ctx_send_data a now during p data capacity set_fin w;
      Some (if rc =? 1
            then ScWorld (sw_scs w) (aiopquic_tx_data_bytes_pushed_add (zlen data) (sw_g w))
            else w)
  | ScWork p o => '(_, w) ← tx_worker_step p o w; Some w
  | ScAbandon p => aiopquic_stream_ctx_tx_abandon p w
  | ScHold p n =>
      sc_update p (λ sc, sc_set_tx_reset_pending 1 (sc_set_tx_reliable_size n sc)) w
  end.

Fixpoint sc_run (ops : list sc_op) (w : sc_world) : option sc_world :=
  match ops with [] => Some w | o :: ops => w ← sc_step o w; sc_run ops w end.

(** References after an operation. *)
Definition op_refs (o : sc_op) (f : Z -> Z) : Z -> Z :=
  match o with
  | ScCreate p => λ q, f q + (if p =? 0 then 0 else c_bool (q =? p))
  | ScRef p => λ q, f q + c_bool (q =? p)
  | ScDestroy p => λ q, f q - c_bool (q =? p)
  | _ => f
  end.

Definition run_refs (ops : list sc_op) (f : Z -> Z) : Z -> Z :=
  fold_left (λ f o, op_refs o f) ops f.

(** A block [malloc] returns has the size asked for. *)
Definition alloc_ok (a : buf_alloc) (capacity : Z) : Prop :=
  0 <= capacity < 2 ^ 32 ∧
  ∀ blk, ba_blk a = Some blk -> zlen blk = aiopquic_ceil_pow2_u32 capacity.

(** Each caller holds a reference; fresh wrappers get fresh addresses. *)
Definition sc_op_ok (o : sc_op) (f : Z -> Z) : Prop :=
  match o with
  | ScCreate p => f p = 0
  | ScRef p => 0 < f p ∧ f p + 1 < 2 ^ 32
  | ScDestroy p => 0 < f p
  | ScSend a _ during p data capacity _ =>
      0 < f p ∧ alloc_ok a capacity ∧ Forall tx_worker_ok during
  | ScWork p o => 0 < f p ∧ tx_worker_ok o
  | ScAbandon p => 0 < f p
  | ScHold p n => 0 < f p ∧ 0 <= n < 2 ^ 64
  end.

Fixpoint sc_ops_ok (ops : list sc_op) (f : Z -> Z) : Prop :=
  match ops with [] => True | o :: ops => sc_op_ok o f ∧ sc_ops_ok ops (op_refs o f) end.

Definition op_bytes (o : sc_op) : Z :=
  match o with ScSend _ _ _ _ data _ _ => zlen data | _ => 0 end.

Definition run_bytes (ops : list sc_op) : Z := lsum op_bytes ops.

Lemma buf_create_cases a capacity : alloc_ok a capacity ->
  buf_create a capacity = None ∨ ∃ tx, buf_create a capacity = Some tx ∧ sb_rep tx 0 [].
Proof.
  intros [Hc Hb]. unfold buf_create. destruct (ba_ok a) eqn:Eo.
  - destruct (ba_blk a) as [blk|] eqn:Eb.
    + right. destruct (stream_buf_create_spec (ba_env a) blk capacity Hc (Hb _ eq_refl))
        as (tx & E & R & _). eauto.
    + left. unfold aiopquic_stream_buf_create. by case_match.
  - left. unfold aiopquic_stream_buf_create. by case_match.
Qed.

Section step.
Context {T : Z} {f : Z -> Z} {w : sc_world} (I : sc_inv T f w).

Lemma sc_live p : 0 < f p -> ∃ sc, sw_scs w !! p = Some sc ∧ p <> 0 ∧ tx_ok T sc.
Proof.
  intros Hp. destruct (rc_some (si_refs _ _ _ I) p Hp) as (sc & E & _). exists sc.
  split; [done|]. split; [by eapply (rc_nonzero (si_refs _ _ _ I))|by eapply I].
Qed.

(** A change of one wrapper that moves no byte. *)
Lemma sc_inv_quiet p sc sc' : sw_scs w !! p = Some sc ->
  sc_refcount sc' = sc_refcount sc -> sc_tx sc' = sc_tx sc ->
  0 <= sc_tx_reliable_size sc' < 2 ^ 64 ->
  sc_inv T f (ScWorld (<[p := sc']> (sw_scs w)) (sw_g w)).
Proof.
  intros E Ec Et Hr. pose proof I as [R Ht HT Hp Hpu Hd Hf Ha].
  eapply sc_inv_change; try done; [|lia|unfold tx_used; rewrite Et; lia].
  split; [done|]. rewrite Et. apply (Ht _ _ E).
Qed.

Lemma sc_ref_step p : 0 < f p -> f p + 1 < 2 ^ 32 ->
  ∃ w', aiopquic_stream_ctx_ref p w = Some w' ∧ sc_inv T (op_refs (ScRef p) f) w'.
Proof.
  intros Hp Hlt. destruct (sc_live p Hp) as (sc & E & Hp0 & Ht).
  destruct (rc_live _ _ (si_refs _ _ _ I) _ _ E) as [Ec _].
  change (rc_count sc) with (sc_refcount sc) in Ec.
  unfold aiopquic_stream_ctx_ref, sc_update_nn, sc_update.
  rewrite (proj2 (Z.eqb_neq p 0)), E by done. cbn [mbind option_bind].
  eexists; split; [done|]. set (sc' := sc_set_refcount _ sc).
  split; cbn [sw_scs sw_g]; try apply I.
  - eapply rc_ok_ext; [|apply (rc_update (si_refs _ _ _ I) p sc' 1); [done|lia|]].
    + intros q. cbn. by destruct (q =? p).
    + change (u32 (sc_refcount sc + 1) = f p + 1). rewrite Ec, u32_small; lia.
  - intros q sc''. rewrite lookup_insert_Some. intros [[<- <-]|[_ E']]; [exact Ht|by eapply I].
  - rewrite (msum_update _ _ _ _ _ E). change (tx_used sc') with (tx_used sc).
    pose proof (si_flow _ _ _ I). lia.
  - rewrite map_size_insert_Some by done. apply I.
Qed.

Lemma sc_create_step p : f p = 0 ->
  sc_inv T (op_refs (ScCreate p) f) (aiopquic_stream_ctx_create p w).2.
Proof.
  intros Hp. unfold aiopquic_stream_ctx_create. cbn [op_refs].
  destruct (Z.eqb_spec p 0) as [->|Hp0].
  { destruct I as [R ? ? ? ? ? ? ?]. split; try done.
    eapply rc_ok_ext; [|exact R]. intros q. cbn. lia. }
  assert (E : sw_scs w !! p = None).
  { destruct (sw_scs w !! p) eqn:E; [|done].
    apply (rc_live _ _ (si_refs _ _ _ I)) in E as [_ ?]. lia. }
  pose proof I as [R Ht HT Hpu Hpl Hd Hf Ha].
  split; cbn [sw_scs sw_g fst snd]; try (rewrite !bump_ne by done); try done.
  - by apply rc_new.
  - intros q sc''. rewrite lookup_insert_Some. intros [[<- <-]|[_ E']]; [|by eapply Ht].
    split; [cbn; lia|done].
  - rewrite msum_insert by done. cbn. lia.
  - rewrite bump_eq, bump_ne, map_size_insert_None, Ha, u64_add_l by done. f_equal. lia.
Qed.

(** The last reference frees the wrapper and credits what its TX ring held. *)
Lemma sc_destroy_step p : 0 < f p ->
  ∃ w', aiopquic_stream_ctx_destroy p w = Some w' ∧ sc_inv T (op_refs (ScDestroy p) f) w'.
Proof.
  intros Hp. destruct (sc_live p Hp) as (sc & E & Hp0 & Ht).
  destruct (rc_live _ _ (si_refs _ _ _ I) _ _ E) as [Ec Hr].
  change (rc_count sc) with (sc_refcount sc) in Ec.
  unfold aiopquic_stream_ctx_destroy. rewrite (proj2 (Z.eqb_neq p 0)), E by done.
  cbn [mbind option_bind]. rewrite Ec. pose proof I as [R Htx HT Hpu Hpl Hd Hf Ha].
  destruct (Z.eqb_spec (f p) 1) as [E1|E1]; cbn [negb].
  - eexists; split; [done|]. pose proof (sc_inv_bounds _ _ _ _ _ I E) as [Hu Hb].
    set (g := match sc_tx sc with Some _ => _ | None => _ end).
    assert (Eg : g CNT_TX_DATA_BYTES_DISCARDED
        = sw_g w CNT_TX_DATA_BYTES_DISCARDED + tx_used sc ∧
      ∀ c, c <> CNT_TX_DATA_BYTES_DISCARDED -> g c = sw_g w c).
    { unfold g, tx_used in *. destruct (sc_tx sc) as [tx|]; [|split; [lia|done]].
      rewrite Z.gtb_ltb. destruct (Z.ltb_spec 0 (aiopquic_stream_buf_used tx)).
      - split; [rewrite bump_eq, u64_small; lia|]. intros c Hc. by rewrite bump_ne.
      - split; [lia|done]. }
    destruct Eg as [Eg1 Eg2]. clearbody g.
    split; cbn [sw_scs sw_g]; try (rewrite !bump_ne by done);
      rewrite ?Eg2 by done; try done.
    + cbn [op_refs]. by apply rc_free.
    + intros q sc' [_ E']%lookup_delete_Some. by eapply Htx.
    + rewrite Eg1. lia.
    + rewrite Eg1, (msum_delete _ _ _ _ E). lia.
    + rewrite bump_eq, Eg2, map_size_delete_Some by done.
      assert (size (sw_scs w) <> 0%nat)
        by (intros Hz%map_size_empty_inv; by rewrite Hz in E).
      rewrite Ha, u64_add_l. f_equal. lia.
  - unfold sc_update. rewrite E. cbn [mbind option_bind]. eexists; split; [done|].
    set (sc' := sc_set_refcount _ sc). split; cbn [sw_scs sw_g]; try done.
    + eapply rc_ok_ext; [|apply (rc_update R p sc' (-1)); [done|lia|]].
      * intros q. cbn. destruct (q =? p); cbn; lia.
      * change (u32 (f p - 1) = f p + -1). rewrite u32_small; lia.
    + intros q sc''. rewrite lookup_insert_Some. intros [[<- <-]|[_ E']]; [exact Ht|by eapply Htx].
    + rewrite (msum_update _ _ _ _ _ E). change (tx_used sc') with (tx_used sc). lia.
    + rewrite map_size_insert_Some by done. done.
Qed.

(** The worker's moves: what leaves the ring is counted as pulled. *)
Lemma worker_moved_inv p sc tx H q n d tx' g' w' : sw_scs w !! p = Some sc ->
  sc_tx sc = Some tx -> sb_rep tx H q -> H + zlen q <= T ->
  worker_moved p w w' sc tx H q n d tx' -> g' = sw_g w' -> sc_inv T f w'.
Proof.
  intros E Et R Hq [M1 M2 M3 [M4 M5]] ->.
  pose proof (sc_inv_bounds _ _ _ _ _ I E) as [Hu Hb].
  pose proof (si_tx _ _ _ I _ _ E) as [Hr _].
  unfold tx_used in Hu, Hb. rewrite Et, (sb_used_eq _ _ _ R) in Hu, Hb.
  pose proof (tx_limit_range sc H q). pose proof (pf_rep _ _ _ _ _ M3) as R'.
  pose proof (si_total _ _ _ I). pose proof (si_pulled _ _ _ I). pose proof (si_discarded _ _ _ I).
  rewrite u64_small in M5 by lia. specialize (M5 ltac:(lia)).
  destruct w' as [scs' g']. cbn [sw_scs sw_g] in *. subst scs'.
  eapply sc_inv_change; try done; try lia;
    [|rewrite M4 by done; apply I|rewrite M4 by done; lia| |by apply M4|by apply M4].
  - split; [done|]. intros tx2 [= <-]. exists (H + n), (drop (Z.to_nat n) q).
    split; [done|]. rewrite length_drop. lia.
  - unfold tx_used. cbn [sc_tx sc_set_tx_drain_pending sc_set_tx].
    rewrite Et, (sb_used_eq _ _ _ R), (sb_used_eq _ _ _ R'), M5, M4 by done.
    rewrite length_drop. lia.
Qed.

Lemma sc_work_step p o : 0 < f p -> tx_worker_ok o ->
  ∃ r w', tx_worker_step p o w = Some (r, w') ∧ sc_inv T f w'.
Proof.
  intros Hp Ho. destruct (sc_live p Hp) as (sc & E & Hp0 & [Hr Ht]).
  destruct (sc_tx sc) as [tx|] eqn:Et.
  - destruct (Ht tx eq_refl) as (H & q & R & Hq). pose proof (si_total _ _ _ I).
    destruct (tx_worker_run_spec p [o] w sc tx H q E Et R ltac:(lia) Hr) as
      (rs & w' & tx' & n & d & Er & M & _); [by repeat constructor|].
    cbn [tx_worker_run] in Er. destruct (tx_worker_step p o w) as [[r w1]|] eqn:Es; [|done].
    cbn in Er. simplify_eq. eexists _, _. split; [done|]. by eapply worker_moved_inv.
  - destruct o; cbn [tx_worker_step]; unfold sc_pull; rewrite E; cbn [mbind option_bind].
    + rewrite Et. cbn. by eauto.
    + cbn. do 2 eexists. split; [done|]. by eapply sc_inv_quiet.
Qed.

Lemma sc_abandon_step p : 0 < f p ->
  ∃ w', aiopquic_stream_ctx_tx_abandon p w = Some w' ∧ sc_inv T f w'.
Proof.
  intros Hp. destruct (sc_live p Hp) as (sc & E & Hp0 & [Hr Ht]).
  unfold aiopquic_stream_ctx_tx_abandon. rewrite (proj2 (Z.eqb_neq p 0)), E by done.
  cbn [mbind option_bind]. destruct (sc_tx sc) as [tx|] eqn:Et; [|by eauto].
  destruct (Ht tx eq_refl) as (H & q & R & Hq). pose proof (si_total _ _ _ I).
  destruct (sb_head_small _ _ _ R ltac:(lia)) as (Eh & Etl & Hh0).
  pose proof (sc_inv_bounds _ _ _ _ _ I E) as [Hu Hb]. unfold tx_used in Hu, Hb.
  rewrite Et, (sb_used_eq _ _ _ R) in Hu, Hb.
  rewrite Eh, Etl, Z.gtb_ltb. destruct (Z.ltb_spec H (H + zlen q)); [|by eauto].
  eexists; split; [done|]. pose proof (si_pulled _ _ _ I). pose proof (si_discarded _ _ _ I).
  assert (R' : sb_rep (sb_set_head tx (H + zlen q)) (H + zlen q) []).
  { destruct R as [R1 R2 R3 R4 R5]. split; cbn; try done.
    - pose proof (ring_rep_drop _ _ _ _ (zlen q) R1 ltac:(lia)) as Rd.
      by rewrite Nat2Z.id, drop_all in Rd.
    - rewrite u64_small; lia.
    - rewrite R5. f_equal. lia. }
  replace (H + zlen q - H) with (zlen q) by lia. rewrite (u64_small (zlen q)) by lia.
  eapply sc_inv_change; try done; try (rewrite bump_ne by done); try apply I; try lia.
  - split; [done|]. intros tx2 [= <-]. exists (H + zlen q), []. split; [done|]. cbn. lia.
  - rewrite bump_eq. apply u64_range.
  - unfold tx_used. cbn [sc_tx sc_set_tx].
    rewrite Et, (sb_used_eq _ _ _ R), (sb_used_eq _ _ _ R'), bump_eq, u64_small by lia.
    cbn. lia.
Qed.

Lemma sc_hold_step p n : 0 < f p -> 0 <= n < 2 ^ 64 ->
  ∃ w', sc_step (ScHold p n) w = Some w' ∧ sc_inv T f w'.
Proof.
  intros Hp Hn. destruct (sc_live p Hp) as (sc & E & _ & _).
  cbn. unfold sc_update. rewrite E. cbn. eexists; split; [done|]. by eapply sc_inv_quiet.
Qed.

(** A send changed one wrapper: its ring holds [q'] and [T'] bytes were accepted. *)
Lemma sc_inv_sent p sc sc1 tx1 H' q' T' g1 : sw_scs w !! p = Some sc ->
  send_frame sc sc1 -> sc_tx sc1 = Some tx1 -> sb_rep tx1 H' q' ->
  H' + zlen q' <= T' -> T <= T' < 2 ^ 64 -> g1 CNT_TX_DATA_BYTES_PUSHED = T' ->
  0 <= g1 CNT_TX_DATA_BYTES_PULLED ->
  g1 CNT_TX_DATA_BYTES_PULLED + zlen q'
    = sw_g w CNT_TX_DATA_BYTES_PULLED + tx_used sc + (T' - T) ->
  (∀ c, c <> CNT_TX_DATA_BYTES_PULLED -> c <> CNT_TX_DATA_BYTES_PUSHED ->
     g1 c = sw_g w c) ->
  sc_inv T' f (ScWorld (<[p := sc1]> (sw_scs w)) g1).
Proof.
  intros E F Et1 R1 Hq HT Epu Hpl Hsum Hother. pose proof (si_discarded _ _ _ I).
  pose proof (si_tx _ _ _ I _ _ E) as [Hr _].
  eapply sc_inv_change; try done; try (rewrite Hother by done); try done; [apply F| |].
  - split; [by rewrite (fr_reliable _ _ F)|]. intros tx2. rewrite Et1. intros [= <-]. eauto.
  - unfold tx_used at 1. rewrite Et1, (sb_used_eq _ _ _ R1). rewrite (Hother CNT_TX_DATA_BYTES_DISCARDED) by done. lia.
Qed.

(** Python's push site: a send, and the bytes counted when it was accepted. *)
Lemma sc_send_step a now during p data capacity set_fin : 0 < f p -> alloc_ok a capacity ->
  Forall tx_worker_ok during -> T + zlen data < 2 ^ 64 ->
  ∃ w' T', sc_step (ScSend a now during p data capacity set_fin) w = Some w' ∧
    T <= T' <= T + zlen data ∧ sc_inv T' f w'.
Proof.
  intros Hp Ha Hd HT. destruct (sc_live p Hp) as (sc & E & Hp0 & [Hr Ht]).
  pose proof (si_total _ _ _ I) as HT0. cbn [sc_step].
  assert (C : (∃ tx H q, match sc_tx sc with Some tx0 => Some tx0
        | None => buf_create a capacity end = Some tx ∧ sb_rep tx H q ∧ H + zlen q <= T ∧
        zlen q = tx_used sc) ∨ sc_tx sc = None ∧ buf_create a capacity = None).
  { unfold tx_used. destruct (sc_tx sc) as [tx|] eqn:Et.
    - left. destruct (Ht tx eq_refl) as (H & q & R & Hq). exists tx, H, q.
      by rewrite (sb_used_eq _ _ _ R).
    - destruct (buf_create_cases a capacity Ha) as [|(tx & Eb & R)]; [by right|].
      left. exists tx, 0, []. split; [done|]. split; [done|]. cbn. lia. }
  destruct C as [(tx & H & q & Etx & R & Hq & Eu)|[Et Eb]].
  - destruct (send_data_spec a now during p data capacity set_fin w sc tx H q Hp0 E Etx R
      ltac:(lia) Hr Hd) as (rc & rs & w1 & sc1 & tx1 & n & -> & M1 & Et1 & F & Ec & Hn & _ & [G1 G2] & Out).
    cbn [mbind option_bind]. destruct w1 as [scs1 g1]. cbn [sw_scs sw_g] in *. subst scs1.
    pose proof (sc_inv_bounds _ _ _ _ _ I E) as [Hu Hb].
    pose proof (si_pulled _ _ _ I). pose proof (si_discarded _ _ _ I).
    rewrite u64_small in G2 by lia. specialize (G2 ltac:(lia)).
    pose proof (si_pushed _ _ _ I) as Epu.
    destruct Out as [R1 _|R1 _ _ _| -> -> _]; cbn [Z.eqb Pos.eqb].
    + eexists _, (T + zlen data). split; [done|]. split; [lia|].
      unfold aiopquic_tx_data_bytes_pushed_add.
      eapply sc_inv_sent; try done; rewrite ?bump_eq, ?bump_ne by done;
        rewrite ?length_app, ?length_drop; try lia.
      * rewrite G1, Epu, u64_small; done || lia.
      * intros c Hc1 Hc2. rewrite bump_ne by done. by apply G1.
    + eexists _, T. split; [done|]. split; [lia|].
      eapply sc_inv_sent; try done; rewrite ?length_drop; try lia; [by rewrite G1|].
      intros c Hc1 Hc2. by apply G1.
    + eexists _, T. split; [done|]. split; [lia|].
      eapply sc_inv_sent; try done; try lia; [by rewrite G1|].
      intros c Hc1 Hc2. by apply G1.
  - unfold aiopquic_stream_ctx_send_data. rewrite (proj2 (Z.eqb_neq p 0)), E by done.
    cbn [mbind option_bind]. rewrite Et, Eb. cbn. eexists _, T. split; [done|].
    split; [lia|]. eapply sc_inv_quiet; try done.
Qed.
End step.

Lemma sc_step_spec T f w o : sc_inv T f w -> sc_op_ok o f -> T + op_bytes o < 2 ^ 64 ->
  ∃ w' T', sc_step o w = Some w' ∧ T <= T' <= T + op_bytes o ∧ sc_inv T' (op_refs o f) w'.
Proof.
  intros I Hok HT. destruct o as [p|p|p|a now during p data capacity set_fin|p o|p|p n];
    cbn [op_bytes op_refs] in *.
  - eexists _, T. split; [done|]. split; [lia|]. by apply sc_create_step.
  - destruct Hok. destruct (sc_ref_step I p) as (w' & E & I'); [done..|].
    exists w', T. split_and!; done || lia.
  - destruct (sc_destroy_step I p Hok) as (w' & E & I'). exists w', T. split_and!; done || lia.
  - destruct Hok as (Hp & Ha & Hd).
    destruct (sc_send_step I a now during p data capacity set_fin Hp Ha Hd HT)
      as (w' & T' & E & HT' & I'). by exists w', T'.
  - destruct Hok as [Hp Ho]. destruct (sc_work_step I p o Hp Ho) as (r & w' & E & I').
    exists w', T. cbn [sc_step]. rewrite E. split_and!; done || lia.
  - destruct (sc_abandon_step I p Hok) as (w' & E & I'). exists w', T. split_and!; done || lia.
  - destruct Hok as [Hp Hn]. destruct (sc_hold_step I p n Hp Hn) as (w' & E & I').
    exists w', T. split_and!; done || lia.
Qed.

Lemma run_bytes_cons o ops : run_bytes (o :: ops) = op_bytes o + run_bytes ops.
Proof. done. Qed.

Lemma op_bytes_nonneg o : 0 <= op_bytes o.
Proof. destruct o; cbn; lia. Qed.

Lemma run_bytes_nonneg ops : 0 <= run_bytes ops.
Proof.
  induction ops as [|o ops IH]; [done|]. rewrite run_bytes_cons.
  pose proof (op_bytes_nonneg o). lia.
Qed.

Lemma sc_run_spec ops : ∀ T f w, sc_inv T f w -> sc_ops_ok ops f ->
  T + run_bytes ops < 2 ^ 64 ->
  ∃ w' T', sc_run ops w = Some w' ∧ sc_inv T' (run_refs ops f) w'.
Proof.
  induction ops as [|o ops IH]; intros T f w I Hok HT; [by exists w, T|].
  destruct Hok as [Ho Hok]. rewrite run_bytes_cons in HT.
  pose proof (run_bytes_nonneg ops).
  destruct (sc_step_spec T f w o I Ho ltac:(lia)) as (w1 & T1 & E1 & HT1 & I1).
  cbn [sc_run]. rewrite E1. cbn [mbind option_bind].
  apply (IH T1 _ w1 I1 Hok). lia.
Qed.

Lemma sc_inv0 : sc_inv 0 (λ _, 0) sc_world0.
Proof.
  split; cbn [sw_scs sw_g sc_world0]; try done.
Qed.

Lemma queued_exact T f w : sc_inv T f w ->
  aiopquic_tx_data_bytes_queued (sw_g w) = msum tx_used (sw_scs w).
Proof.
  intros [R Ht HT0 Hpu Hpl Hd Hf Ha]. pose proof (msum_used_nonneg T _ Ht).
  unfold aiopquic_tx_data_bytes_queued, aiopquic_tx_data_bytes_pulled_load,
    aiopquic_tx_data_bytes_discarded_load, aiopquic_tx_data_bytes_pushed_load.
  rewrite u64_small, Z.gtb_ltb by lia. case_bool; lia.
Qed.

(** A run of pulls takes exactly what room and limit allow. *)
Lemma pull_run_exact p ws : ∀ w sc tx H q, sw_scs w !! p = Some sc ->
  sc_tx sc = Some tx -> sb_rep tx H q -> H + zlen q < 2 ^ 64 ->
  0 <= sc_tx_reliable_size sc < 2 ^ 64 -> Forall (λ x, 0 <= x) ws ->
  ∃ rs w' n, tx_worker_run p (map PullBytes ws) w = Some (rs, w') ∧
    tx_delivered rs = take (Z.to_nat n) q ∧
    n = Z.min (lsum (λ x, x) ws) (tx_limit sc H q).
Proof.
  induction ws as [|x ws IH]; intros w sc tx H q E Et R Hw Hr Hws.
  { exists [], w, 0. split; [done|]. split; [done|]. pose proof (tx_limit_range sc H q).
    change (lsum (λ x, x) []) with 0. lia. }
  apply Forall_cons in Hws as [Hx Hws]. pose proof (tx_limit_range sc H q).
  destruct (sc_pull_spec w p sc tx H q x E Et R Hw Hr Hx) as (tx1 & g1 & E1 & P1 & _).
  cbn [map tx_worker_run tx_worker_step]. rewrite E1. cbn [mbind option_bind].
  set (n1 := Z.min x (tx_limit sc H q)) in *.
  destruct (IH (ScWorld (<[p := sc_set_tx (Some tx1) sc]> (sw_scs w)) g1)
    (sc_set_tx (Some tx1) sc) tx1 (H + n1) (drop (Z.to_nat n1) q)) as (rs & w2 & n2 & E2 & Hd & En);
    [by apply lookup_insert_eq|done|apply P1|rewrite length_drop; lia|done|done|].
  rewrite (tx_limit_after sc) in En by (done || lia).
  rewrite E2. exists (Pulled (take (Z.to_nat n1) q) :: rs), w2, (n1 + n2).
  split; [done|]. rewrite lsum_cons.
  assert (0 <= lsum (λ x, x) ws).
  { clear -Hws. induction Hws; [done|]. rewrite lsum_cons. lia. }
  split; [|lia].
  change (take (Z.to_nat n1) q ++ tx_delivered rs = take (Z.to_nat (n1 + n2)) q).
  rewrite Hd. replace (Z.to_nat (n1 + n2)) with (Z.to_nat n1 + Z.to_nat n2)%nat by lia.
  by rewrite take_take_drop.
Qed.

(** ** Properties *)

(** C20. Sends are all-or-nothing and wake their waiter: 1 means the whole payload
    is queued behind what the worker left (and FIN set if asked), 0 that nothing
    was queued because it does not fit and that the drain signal is armed or was
    taken by the worker meanwhile, -2 that it can never fit; the worker's share is
    a prefix of the queue, and nothing else of the wrapper changes. *)
Theorem send_data_all_or_nothing a now during p data capacity set_fin w sc tx H q :
  p <> 0 -> sw_scs w !! p = Some sc ->
  match sc_tx sc with Some tx0 => Some tx0 | None => buf_create a capacity end = Some tx ->
  sb_rep tx H q -> H + zlen q < 2 ^ 64 -> 0 <= sc_tx_reliable_size sc < 2 ^ 64 ->
  Forall tx_worker_ok during ->
  ∃ rc rs w' sc' tx' n,
    aiopquic_stream_ctx_send_data a now during p data capacity set_fin w = Some (rc, rs, w') ∧
    sw_scs w' = <[p := sc']> (sw_scs w) ∧ sc_tx sc' = Some tx' ∧ send_frame sc sc' ∧
    0 <= n <= zlen q ∧ tx_delivered rs = take (Z.to_nat n) q ∧
    send_outcome tx tx' H q data set_fin n
      (Took true ∈ rs ∨ sc_tx_drain_pending sc' = 1) rc.
Proof.
  intros Hp E Etx R Hw Hr Hok.
  destruct (send_data_spec a now during p data capacity set_fin w sc tx H q Hp E Etx R Hw Hr Hok)
    as (rc & rs & w' & sc' & tx' & n & E1 & E2 & E3 & F & _ & Hn & Hd & _ & Out).
  exists rc, rs, w', sc', tx', n. split_and!; done || lia.
Qed.

(** C28. The process-wide queued-bytes counter is exact: after any sequence of
    creates, references, sends, pulls, drains, abandons and final frees (fewer than
    2^64 bytes sent), every call was defined and pushed - pulled - discarded is the
    number of bytes sitting in live TX rings. *)
Theorem queued_bytes_exact ops :
  sc_ops_ok ops (λ _, 0) -> run_bytes ops < 2 ^ 64 ->
  ∃ w, sc_run ops sc_world0 = Some w ∧
    aiopquic_tx_data_bytes_queued (sw_g w) = msum tx_used (sw_scs w).
Proof.
  intros Hok HT. destruct (sc_run_spec ops 0 _ _ sc_inv0 Hok ltac:(lia)) as (w & T & E & I).
  exists w. split; [done|]. by eapply queued_exact.
Qed.

(** C21. Lifetime of wrappers: in every such run a wrapper is live exactly while
    references to it remain, its counter is their number, created - destroyed is
    the number of live wrappers, and once every reference is dropped none is left
    and no byte is still counted as queued. *)
Theorem stream_ctx_lifetime ops w :
  sc_ops_ok ops (λ _, 0) -> run_bytes ops < 2 ^ 64 -> sc_run ops sc_world0 = Some w ->
  (∀ p, match sw_scs w !! p with
        | Some sc => sc_refcount sc = run_refs ops (λ _, 0) p ∧ 0 < sc_refcount sc
        | None => run_refs ops (λ _, 0) p = 0
        end) ∧
  aiopquic_cnt_sc_created_load (sw_g w)
    = u64 (aiopquic_cnt_sc_destroyed_load (sw_g w) + Z.of_nat (size (sw_scs w))) ∧
  ((∀ p, run_refs ops (λ _, 0) p = 0) ->
   sw_scs w = ∅ ∧ aiopquic_tx_data_bytes_queued (sw_g w) = 0).
Proof.
  intros Hok HT E. destruct (sc_run_spec ops 0 _ _ sc_inv0 Hok ltac:(lia)) as (w1 & T & E1 & I).
  rewrite E in E1. injection E1 as <-. pose proof (queued_exact _ _ _ I) as Eq.
  split; [|split].
  - intros p. destruct (sw_scs w !! p) as [sc|] eqn:Ep.
    + destruct (rc_live _ _ (si_refs _ _ _ I) _ _ Ep) as [Ec ?].
      change (rc_count sc) with (sc_refcount sc) in Ec. rewrite Ec. split; [done|lia].
    + by apply (rc_dead _ _ (si_refs _ _ _ I)).
  - apply I.
  - intros Hz. pose proof (rc_ok_nil _ _ (si_refs _ _ _ I) Hz) as Es.
    split; [done|]. by rewrite Eq, Es, msum_empty.
Qed.

(** C35. A pending reset holds the stream to its reliable size: whatever the
    packets' room, the bytes the worker hands over are exactly the first ones of
    the queue, never past byte [tx_reliable_size] of the stream, and once the
    room suffices all of the reliable bytes that are queued. *)
Theorem reset_reliable_bound p ws w sc tx H q :
  sw_scs w !! p = Some sc -> sc_tx sc = Some tx -> sb_rep tx H q -> H + zlen q < 2 ^ 64 ->
  0 <= sc_tx_reliable_size sc < 2 ^ 64 -> sc_tx_reset_pending sc <> 0 ->
  Forall (λ x, 0 <= x) ws ->
  ∃ rs w' n, tx_worker_run p (map PullBytes ws) w = Some (rs, w') ∧
    tx_delivered rs = take (Z.to_nat n) q ∧
    n = Z.min (lsum (λ x, x) ws) (Z.min (zlen q) (Z.max 0 (sc_tx_reliable_size sc - H))) ∧
    (H <= sc_tx_reliable_size sc -> H + n <= sc_tx_reliable_size sc).
Proof.
  intros E Et R Hw Hr Hp Hws.
  destruct (pull_run_exact p ws w sc tx H q E Et R Hw Hr Hws) as (rs & w' & n & Er & Hd & ->).
  exists rs, w'. eexists. split; [done|]. split; [done|].
  unfold tx_limit. rewrite (proj2 (Z.eqb_neq _ 0)) by done. split; [done|lia].
Qed.

(** ** Witnesses *)

Definition demo_tx : stream_buf :=
  StreamBuf [1; 2; 3; 0] 4 3 3 0 0 false AIOPQUIC_FNV1A_INIT AIOPQUIC_FNV1A_INIT.

Lemma demo_tx_rep : sb_rep demo_tx 0 [1; 2; 3].
Proof.
  split; try done; [|by exists 2]. split; try done.
  intros i x Hi. do 3 (destruct i as [|i]; [by injection Hi as <-|]). done.
Qed.

Definition demo_sc : stream_ctx := sc_set_tx (Some demo_tx) (sc_set_refcount 1 stream_ctx0).
Definition demo_world (sc : stream_ctx) : sc_world := ScWorld {[ 4 := sc ]} (λ _, 0).

(** A full ring; the worker frees two bytes between the arm and the re-check. *)
Lemma send_data_all_or_nothing_witness :
  ∃ rc rs w' sc' tx' n,
    aiopquic_stream_ctx_send_data (BufAlloc None false None) 99 [PullBytes 2; TakeDrain] 4
      [7; 8] 4 true (demo_world demo_sc) = Some (rc, rs, w') ∧
    sw_scs w' = <[4 := sc']> (sw_scs (demo_world demo_sc)) ∧ sc_tx sc' = Some tx' ∧
    send_frame demo_sc sc' ∧ 0 <= n <= 3 ∧ tx_delivered rs = take (Z.to_nat n) [1; 2; 3] ∧
    send_outcome demo_tx tx' 0 [1; 2; 3] [7; 8] true n
      (Took true ∈ rs ∨ sc_tx_drain_pending sc' = 1) rc.
Proof.
  apply (send_data_all_or_nothing (BufAlloc None false None) 99 [PullBytes 2; TakeDrain] 4
    [7; 8] 4 true (demo_world demo_sc) demo_sc demo_tx 0 [1; 2; 3]);
    [done|reflexivity|reflexivity|exact demo_tx_rep|cbn; lia|cbn; lia|].
  repeat constructor. cbn. lia.
Defined.

Definition demo_alloc4 : buf_alloc := BufAlloc None true (Some [0; 0; 0; 0]).

(** Two streams; one is reset with bytes queued, one is freed with bytes queued. *)
Definition demo_sc_ops : list sc_op :=
  [ScCreate 4; ScCreate 8; ScSend demo_alloc4 1 [] 4 [1; 2; 3] 4 false; ScRef 4;
   ScSend demo_alloc4 2 [] 8 [5; 6] 4 true; ScWork 4 (PullBytes 2);
   ScSend demo_alloc4 3 [PullBytes 1] 4 [7; 8; 9; 10] 4 false; ScDestroy 4;
   ScAbandon 8; ScWork 4 TakeDrain].

Lemma demo_sc_ok : sc_ops_ok demo_sc_ops (λ _, 0).
Proof.
  cbn. repeat split; try lia; try (by intros blk [= <-]); repeat constructor; cbn; lia.
Qed.

Lemma queued_bytes_exact_witness :
  ∃ w, sc_run demo_sc_ops sc_world0 = Some w ∧
    aiopquic_tx_data_bytes_queued (sw_g w) = msum tx_used (sw_scs w).
Proof.
  apply (queued_bytes_exact demo_sc_ops); [exact demo_sc_ok|vm_compute; reflexivity].
Defined.

Lemma demo_sc_freed_ok : sc_ops_ok (demo_sc_ops ++ [ScDestroy 4; ScDestroy 8]) (λ _, 0).
Proof.
  cbn. repeat split; try lia; try (by intros blk [= <-]); repeat constructor; cbn; lia.
Qed.

Lemma stream_ctx_lifetime_witness :
  ∃ w, sc_run (demo_sc_ops ++ [ScDestroy 4; ScDestroy 8]) sc_world0 = Some w ∧
    sw_scs w = ∅ ∧ aiopquic_tx_data_bytes_queued (sw_g w) = 0.
Proof.
  destruct (sc_run_spec _ 0 _ _ sc_inv0 demo_sc_freed_ok ltac:(vm_compute; reflexivity))
    as (w & T & E & _).
  exists w. split; [exact E|].
  apply (stream_ctx_lifetime (demo_sc_ops ++ [ScDestroy 4; ScDestroy 8]) w);
    [exact demo_sc_freed_ok|vm_compute; reflexivity|exact E|].
  intros p; cbn; destruct (p =? 4), (p =? 8); reflexivity.
Defined.

(** Three queued bytes held to a reliable size of two. *)
Lemma reset_reliable_bound_witness :
  let sc := sc_set_tx_reset_pending 1 (sc_set_tx_reliable_size 2 demo_sc) in
  ∃ rs w' n, tx_worker_run 4 (map PullBytes [1; 5; 5]) (demo_world sc) = Some (rs, w') ∧
    tx_delivered rs = take (Z.to_nat n) [1; 2; 3] ∧ n = 2 ∧ (0 <= 2 -> 0 + n <= 2).
Proof.
  intros sc. apply (reset_reliable_bound 4 [1; 5; 5] (demo_world sc) sc demo_tx 0 [1; 2; 3]);
    [reflexivity|reflexivity|exact demo_tx_rep|cbn; lia|cbn; lia|done|].
  repeat constructor; lia.
Defined.
