(* ===== verification/WtState.v ===== *)
(** * The memory of the WebTransport half (h3wt_callback.h)

    Sessions and links, the two objects this repository hands to h3zero as callback
    context, and the part of h3zero's own structs the code reads and writes.  Both live
    in stores: an object's kind tag is its constructor, a freed object is not in the
    store. *)
From S2P Require Import Prelude.

(** ** Sessions and links *)

(** [picowt_capsule_t]: the four fields the code reads, and what picoquic accumulates. *)
Record wt_capsule := WtCapsule {
  wc_is_stored : Z;
  wc_capsule_type : Z;
  wc_error_code : Z;
  wc_error_msg : list Z;
  wc_acc : list Z
}.
Definition wt_capsule0 : wt_capsule := WtCapsule 0 0 0 [] [].

(** [aiopquic_wt_session_t] less its kind tag and its pointer to the one bridge. *)
Record wt_session := WtSession {
  ws_cnx : Z;
  ws_h3_ctx : Z;
  ws_control_stream : Z;
  ws_control_stream_id : Z;
  ws_capsule : wt_capsule;
  ws_session_ready : Z;
  ws_session_closing : Z;
  ws_fin_sent : Z;
  ws_peer_fin : Z;
  ws_close_deadline : Z;
  ws_cleanup_done : Z;
  ws_wt_protocol : option (list Z);
  ws_connect_authority : option (list Z);
  ws_connect_path : option (list Z);
  ws_connect_protocols : option (list Z);
  ws_dgram_ring : Z
}.

(** [aiopquic_wt_stream_link_t]. *)
Record wt_link := WtLink { wl_session : Z; wl_sc : Z; wl_stream_id : Z }.

(** AIOPQUIC_WT_CTX_SESSION and AIOPQUIC_WT_CTX_LINK. *)
Inductive wt_obj := ObjSession (s : wt_session) | ObjLink (l : wt_link).

(** ** h3zero's structs *)

(** A picohttp_post_data_cb_fn. *)
Inductive path_fn := FnNull | FnWtPath | FnOther (n : Z).

#[export] Instance path_fn_eq_dec : EqDecision path_fn.
Proof. solve_decision. Defined.

(** [h3zero_stream_ctx_t]. *)
Record h3_stream := H3Stream {
  hs_stream_id : Z;
  hs_path_callback : path_fn;
  hs_path_callback_ctx : Z;
  hs_is_fin_sent : Z;
  hs_control_stream_id : Z;
  hs_status : Z;
  hs_wt_protocol : option (list Z);             (** ps.stream_state.wt_protocol *)
  hs_header_wt_protocol : option (list Z);      (** ...header.wt_protocol *)
  hs_available_protocols : option (list Z)      (** ...header.wt_available_protocols *)
}.

(** [h3zero_stream_prefix_t]. *)
Record h3_prefix := H3Prefix { px_function_call : path_fn; px_function_ctx : Z }.

(** The CONNECT's :protocol, picowt_connect_protocol_legacy and ..._h3. *)
Inductive connect_protocol := ConnectLegacy | ConnectH3.

(** [h3zero_callback_ctx_t]: its prefixes and streams in the order of its walks. *)
Record h3_ctx := H3Ctx {
  hc_stream_prefixes : list Z;
  hc_h3_stream_tree : list Z;
  hc_webtransport_enabled : Z;
  hc_wt_connect_protocol : connect_protocol;
  hc_no_print : Z
}.

Record h3_mem := H3Mem {
  hm_streams : gmap Z h3_stream;
  hm_prefixes : gmap Z h3_prefix;
  hm_ctxs : gmap Z h3_ctx
}.

Record wt_state := WtState { wt_objs : gmap Z wt_obj; wt_h3 : h3_mem }.

Definition wt_state0 : wt_state := WtState ∅ (H3Mem ∅ ∅ ∅).

(** ** Field updates *)

Definition ws_set_cnx (x : Z) (s : wt_session) : wt_session :=
  WtSession x (ws_h3_ctx s) (ws_control_stream s) (ws_control_stream_id s)
    (ws_capsule s) (ws_session_ready s) (ws_session_closing s) (ws_fin_sent s)
    (ws_peer_fin s) (ws_close_deadline s) (ws_cleanup_done s) (ws_wt_protocol s)
    (ws_connect_authority s) (ws_connect_path s) (ws_connect_protocols s)
    (ws_dgram_ring s).
Definition ws_set_h3_ctx (x : Z) (s : wt_session) : wt_session :=
  WtSession (ws_cnx s) x (ws_control_stream s) (ws_control_stream_id s) (ws_capsule s)
    (ws_session_ready s) (ws_session_closing s) (ws_fin_sent s) (ws_peer_fin s)
    (ws_close_deadline s) (ws_cleanup_done s) (ws_wt_protocol s)
    (ws_connect_authority s) (ws_connect_path s) (ws_connect_protocols s)
    (ws_dgram_ring s).
Definition ws_set_control_stream (x : Z) (s : wt_session) : wt_session :=
  WtSession (ws_cnx s) (ws_h3_ctx s) x (ws_control_stream_id s) (ws_capsule s)
    (ws_session_ready s) (ws_session_closing s) (ws_fin_sent s) (ws_peer_fin s)
    (ws_close_deadline s) (ws_cleanup_done s) (ws_wt_protocol s)
    (ws_connect_authority s) (ws_connect_path s) (ws_connect_protocols s)
    (ws_dgram_ring s).
Definition ws_set_control_stream_id (x : Z) (s : wt_session) : wt_session :=
  WtSession (ws_cnx s) (ws_h3_ctx s) (ws_control_stream s) x (ws_capsule s)
    (ws_session_ready s) (ws_session_closing s) (ws_fin_sent s) (ws_peer_fin s)
    (ws_close_deadline s) (ws_cleanup_done s) (ws_wt_protocol s)
    (ws_connect_authority s) (ws_connect_path s) (ws_connect_protocols s)
    (ws_dgram_ring s).
Definition ws_set_capsule (x : wt_capsule) (s : wt_session) : wt_session :=
  WtSession (ws_cnx s) (ws_h3_ctx s) (ws_control_stream s) (ws_control_stream_id s) x
    (ws_session_ready s) (ws_session_closing s) (ws_fin_sent s) (ws_peer_fin s)
    (ws_close_deadline s) (ws_cleanup_done s) (ws_wt_protocol s)
    (ws_connect_authority s) (ws_connect_path s) (ws_connect_protocols s)
    (ws_dgram_ring s).
Definition ws_set_session_ready (x : Z) (s : wt_session) : wt_session :=
  WtSession (ws_cnx s) (ws_h3_ctx s) (ws_control_stream s) (ws_control_stream_id s)
    (ws_capsule s) x (ws_session_closing s) (ws_fin_sent s) (ws_peer_fin s)
    (ws_close_deadline s) (ws_cleanup_done s) (ws_wt_protocol s)
    (ws_connect_authority s) (ws_connect_path s) (ws_connect_protocols s)
    (ws_dgram_ring s).
Definition ws_set_session_closing (x : Z) (s : wt_session) : wt_session :=
  WtSession (ws_cnx s) (ws_h3_ctx s) (ws_control_stream s) (ws_control_stream_id s)
    (ws_capsule s) (ws_session_ready s) x (ws_fin_sent s) (ws_peer_fin s)
    (ws_close_deadline s) (ws_cleanup_done s) (ws_wt_protocol s)
    (ws_connect_authority s) (ws_connect_path s) (ws_connect_protocols s)
    (ws_dgram_ring s).
Definition ws_set_fin_sent (x : Z) (s : wt_session) : wt_session :=
  WtSession (ws_cnx s) (ws_h3_ctx s) (ws_control_stream s) (ws_control_stream_id s)
    (ws_capsule s) (ws_session_ready s) (ws_session_closing s) x (ws_peer_fin s)
    (ws_close_deadline s) (ws_cleanup_done s) (ws_wt_protocol s)
    (ws_connect_authority s) (ws_connect_path s) (ws_connect_protocols s)
    (ws_dgram_ring s).
Definition ws_set_peer_fin (x : Z) (s : wt_session) : wt_session :=
  WtSession (ws_cnx s) (ws_h3_ctx s) (ws_control_stream s) (ws_control_stream_id s)
    (ws_capsule s) (ws_session_ready s) (ws_session_closing s) (ws_fin_sent s) x
    (ws_close_deadline s) (ws_cleanup_done s) (ws_wt_protocol s)
    (ws_connect_authority s) (ws_connect_path s) (ws_connect_protocols s)
    (ws_dgram_ring s).
Definition ws_set_close_deadline (x : Z) (s : wt_session) : wt_session :=
  WtSession (ws_cnx s) (ws_h3_ctx s) (ws_control_stream s) (ws_control_stream_id s)
    (ws_capsule s) (ws_session_ready s) (ws_session_closing s) (ws_fin_sent s)
    (ws_peer_fin s) x (ws_cleanup_done s) (ws_wt_protocol s) (ws_connect_authority s)
    (ws_connect_path s) (ws_connect_protocols s) (ws_dgram_ring s).
Definition ws_set_cleanup_done (x : Z) (s : wt_session) : wt_session :=
  WtSession (ws_cnx s) (ws_h3_ctx s) (ws_control_stream s) (ws_control_stream_id s)
    (ws_capsule s) (ws_session_ready s) (ws_session_closing s) (ws_fin_sent s)
    (ws_peer_fin s) (ws_close_deadline s) x (ws_wt_protocol s) (ws_connect_authority s)
    (ws_connect_path s) (ws_connect_protocols s) (ws_dgram_ring s).
Definition ws_set_wt_protocol (x : option (list Z)) (s : wt_session) : wt_session :=
  WtSession (ws_cnx s) (ws_h3_ctx s) (ws_control_stream s) (ws_control_stream_id s)
    (ws_capsule s) (ws_session_ready s) (ws_session_closing s) (ws_fin_sent s)
    (ws_peer_fin s) (ws_close_deadline s) (ws_cleanup_done s) x (ws_connect_authority s)
    (ws_connect_path s) (ws_connect_protocols s) (ws_dgram_ring s).
Definition ws_set_connect_authority (x : option (list Z)) (s : wt_session) : wt_session :=
  WtSession (ws_cnx s) (ws_h3_ctx s) (ws_control_stream s) (ws_control_stream_id s)
    (ws_capsule s) (ws_session_ready s) (ws_session_closing s) (ws_fin_sent s)
    (ws_peer_fin s) (ws_close_deadline s) (ws_cleanup_done s) (ws_wt_protocol s) x
    (ws_connect_path s) (ws_connect_protocols s) (ws_dgram_ring s).
Definition ws_set_connect_path (x : option (list Z)) (s : wt_session) : wt_session :=
  WtSession (ws_cnx s) (ws_h3_ctx s) (ws_control_stream s) (ws_control_stream_id s)
    (ws_capsule s) (ws_session_ready s) (ws_session_closing s) (ws_fin_sent s)
    (ws_peer_fin s) (ws_close_deadline s) (ws_cleanup_done s) (ws_wt_protocol s)
    (ws_connect_authority s) x (ws_connect_protocols s) (ws_dgram_ring s).
Definition ws_set_connect_protocols (x : option (list Z)) (s : wt_session) : wt_session :=
  WtSession (ws_cnx s) (ws_h3_ctx s) (ws_control_stream s) (ws_control_stream_id s)
    (ws_capsule s) (ws_session_ready s) (ws_session_closing s) (ws_fin_sent s)
    (ws_peer_fin s) (ws_close_deadline s) (ws_cleanup_done s) (ws_wt_protocol s)
    (ws_connect_authority s) (ws_connect_path s) x (ws_dgram_ring s).
Definition ws_set_dgram_ring (x : Z) (s : wt_session) : wt_session :=
  WtSession (ws_cnx s) (ws_h3_ctx s) (ws_control_stream s) (ws_control_stream_id s)
    (ws_capsule s) (ws_session_ready s) (ws_session_closing s) (ws_fin_sent s)
    (ws_peer_fin s) (ws_close_deadline s) (ws_cleanup_done s) (ws_wt_protocol s)
    (ws_connect_authority s) (ws_connect_path s) (ws_connect_protocols s) x.

Definition hs_set_path_callback (x : path_fn) (st : h3_stream) : h3_stream :=
  H3Stream (hs_stream_id st) x (hs_path_callback_ctx st) (hs_is_fin_sent st)
    (hs_control_stream_id st) (hs_status st) (hs_wt_protocol st)
    (hs_header_wt_protocol st) (hs_available_protocols st).
Definition hs_set_path_callback_ctx (x : Z) (st : h3_stream) : h3_stream :=
  H3Stream (hs_stream_id st) (hs_path_callback st) x (hs_is_fin_sent st)
    (hs_control_stream_id st) (hs_status st) (hs_wt_protocol st)
    (hs_header_wt_protocol st) (hs_available_protocols st).
Definition hs_set_is_fin_sent (x : Z) (st : h3_stream) : h3_stream :=
  H3Stream (hs_stream_id st) (hs_path_callback st) (hs_path_callback_ctx st) x
    (hs_control_stream_id st) (hs_status st) (hs_wt_protocol st)
    (hs_header_wt_protocol st) (hs_available_protocols st).

Definition hc_set_wt_connect_protocol (x : connect_protocol) (h : h3_ctx) : h3_ctx :=
  H3Ctx (hc_stream_prefixes h) (hc_h3_stream_tree h) (hc_webtransport_enabled h) x
    (hc_no_print h).
Definition hc_set_no_print (x : Z) (h : h3_ctx) : h3_ctx :=
  H3Ctx (hc_stream_prefixes h) (hc_h3_stream_tree h) (hc_webtransport_enabled h)
    (hc_wt_connect_protocol h) x.
