(* ===== verification/Bridge.v ===== *)
(** * The bridge context and its world (callback.h, state and helpers)

    [bridge] is [aiopquic_ctx_t].  A [world] is everything a callback can touch: the
    bridge, the wrappers and datagram rings with their references, the payload
    heap, the wake descriptor's counter and the trace of calls made into picoquic.
    Operations run in the state monad [M]; [None] is undefined behaviour.

    picoquic, the allocator, the clock and the file descriptors are not code of
    this repository: they are the parameters of a record [env].  A picoquic call
    is an event of the trace, and its result is any function of the trace so far,
    so a result may depend on every call made before. *)
From S2P Require Import Prelude Ring Store StreamBuf SpscRing DgramBuf DgramTable StreamCtx WtState.

(** ** Calls into picoquic *)

(** The events of a connection callback. *)
Inductive call_back_event :=
  | picoquic_callback_stream_data | picoquic_callback_stream_fin
  | picoquic_callback_stream_reset | picoquic_callback_stop_sending
  | picoquic_callback_stateless_reset | picoquic_callback_close
  | picoquic_callback_application_close | picoquic_callback_prepare_to_send
  | picoquic_callback_almost_ready | picoquic_callback_ready
  | picoquic_callback_datagram | picoquic_callback_request_alpn_list
  | picoquic_callback_pacing_changed | picoquic_callback_prepare_datagram
  | picoquic_callback_datagram_acked | picoquic_callback_datagram_lost
  | picoquic_callback_datagram_spurious | picoquic_callback_path_available
  | picoquic_callback_path_suspended | picoquic_callback_path_deleted
  | picoquic_callback_stream_released | picoquic_callback_app_wakeup
  | picoquic_callback_other (n : Z).   (** the enumerators this repository does not name *)

#[export] Instance call_back_event_eq_dec : EqDecision call_back_event.
Proof. solve_decision. Defined.

(** Fields of [picoquic_tp_t] the bridge reads. *)
Inductive tp_field :=
  | TpMaxDatagramFrameSize | TpResetStreamAt | TpInitialMaxStreamDataUni
  | TpInitialMaxStreamDataBidiLocal | TpInitialMaxStreamDataBidiRemote.

(** The connection callbacks this repository installs. *)
Inductive cnx_fn := FnStreamCb | FnWtCnxCb | FnH3Callback.

Inductive pq_call :=
  | PqIsClient (cnx : Z)
  | PqGetTransportParameters (cnx : Z) (get_local : bool)
  | PqTpRead (cnx : Z) (get_local : bool) (f : tp_field)
  | PqResetStreamAt (cnx stream_id code reliable : Z)
  | PqResetStream (cnx stream_id code : Z)
  | PqStopSending (cnx stream_id code : Z)
  | PqMarkActiveStream (cnx stream_id : Z) (active : bool) (sc : Z)
  | PqMarkActiveStreamV2 (cnx stream_id : Z) (active : bool)
  | PqSetAppStreamCtx (cnx stream_id sc : Z)
  | PqSetAppFlowControl (cnx stream_id use_app : Z)
  | PqOpenFlowControl (cnx stream_id n : Z)
  | PqProvideStreamDataBuffer (bytes n : Z) (is_fin is_still_active : bool)
  | PqProvideDatagramBuffer (bytes n : Z) (active : bool)
  | WriteBuf (buf : Z) (bs : list Z)      (** bytes copied into a buffer of picoquic *)
  | PqMarkDatagramReady (cnx v : Z)
  | PqSetStreamPriority (cnx stream_id pri : Z)
  | PqSetDatagramPriority (cnx pri : Z)
  | PqClose (cnx code : Z)
  | PqCloseEx (cnx code : Z) (reason : list Z)
  | PqCreateCnx (addr : list Z) (now : Z) (sni alpn : option (list Z))
  | PqSetCallback (cnx : Z)
  | PqSetDesiredVersion (cnx v : Z)
  | PqStartClientCnx (cnx : Z)
  | PqDeleteCnx (cnx : Z)
  | PqAdjustMaxConnections (n : Z)
  | PqGetRemoteStreamError (cnx stream_id : Z)
  | PqGetRemoteStopSendingError (cnx stream_id : Z)
  | PqGetApplicationError (cnx : Z)
  | PqGetRemoteError (cnx : Z)
  | PqGetLocalError (cnx : Z)
  | PqGetCnxState (cnx : Z)
  | PqEnableKeepAlive (cnx interval : Z)
  | PqWakeUpNetworkThread (thread_ctx : Z)
  | PqGetQuicTime
  | PqCurrentTime
  | PqAddProposedAlpn (tls : Z) (alpn : list Z)
  | PqAdjustTimerSlack                    (** prctl, packet-loop options: no answer used *)
  | PqTpCopy (cnx : Z) (get_local : bool) (** the parameters copied whole *)
  | PqGetLocalCnxid (cnx : Z)
  | PqGetRemoteCnxid (cnx : Z)
  | PqGetInitialCnxid (cnx : Z)
  | PqGetDefaultPathQuality (cnx : Z)
  | PqGetDataSent (cnx : Z)
  | PqGetDataReceived (cnx : Z)
  | PqTlsIsPskHandshake (cnx : Z)
  | PqSetAppWakeTime (cnx at_time : Z)
  | PqGetCallbackContext (cnx : Z)
  | PqSetCallbackTo (cnx : Z) (fn : cnx_fn) (callback_ctx : Z)
  | PqAddToStream (cnx stream_id : Z) (bs : list Z) (fin : bool)
  | H3Callback (cnx stream_id bytes length : Z) (event : call_back_event) (callback_ctx stream_ctx : Z)
  | H3FindStream (h3 stream_id : Z)
  | H3FindStreamPrefix (h3 stream_id : Z)
  | H3DeclareStreamPrefix (h3 stream_id : Z) (function_ctx : Z)
  | H3DeleteStreamPrefix (cnx h3 stream_id : Z)
  | H3ProvideDatagramBuffer (bytes n : Z) (more : bool)
  | H3SetDatagramReady (cnx stream_id : Z)
  | H3CreateContext (params : Z)
  | H3ProtocolInit (cnx h3 : Z)
  | PicowtPrepareClientCnx (addr : list Z) (now : Z) (sni : list Z)
  | PicowtPrepareOut (i : Z)              (** its out parameters: cnx, h3 context, control stream *)
  | PicowtConnect (cnx h3 control_stream : Z) (authority path : option (list Z)) (s : Z)
      (protocols : option (list Z))
  | PicowtSetControlStream (cnx h3 : Z)
  | PicowtUncountSession (h3 stream_ctx : Z)
  | PicowtReceiveCapsule (cnx : Z) (bs : list Z)
  | PicowtReleaseCapsule (s : Z)
  | PicowtSetWtProtocol (stream_ctx : Z) (protocol : list Z)
  | PicowtCreateLocalStream (cnx : Z) (is_bidir : Z) (h3 control_stream_id : Z)
  | PicowtResetStream (cnx stream_ctx code : Z)
  | PicowtSendCloseSession (cnx control_stream code : Z) (msg : list Z)
  | PicowtSendDrainSession (cnx control_stream : Z)
  | PicowtDeregister (cnx h3 control_stream : Z).

(** What a [struct sockaddr*] points at. *)
Inductive sockaddr :=
  | SaNull
  | SaInet (sin_port : Z) (sin_addr : list Z)      (** 4 bytes *)
  | SaInet6 (sin6_port : Z) (sin6_addr : list Z)   (** 16 bytes *)
  | SaOther.

(** [aiopquic_addr_t]. *)
Record addr := Addr { a_family : Z; a_port : Z; a_addr : list Z }.

(** [aiopquic_cnx_snapshot_t]; picoquic's own structs are the numbers its calls
    answered with. *)
Record cnx_snapshot := CnxSnapshot {
  sn_alpn : list Z;
  sn_has_tp_local : Z;
  sn_has_tp_remote : Z;
  sn_dgram_ceiling : Z;
  sn_tp_local : Z;
  sn_tp_remote : Z;
  sn_cid_local : Z;
  sn_cid_remote : Z;
  sn_cid_initial : Z;
  sn_path_quality : Z;
  sn_data_sent : Z;
  sn_data_received : Z;
  sn_peer_addr : addr;
  sn_local_addr : addr;
  sn_session_resumed : Z
}.

(** ** Bridge state *)

(** [aiopquic_wake_trace_entry_t] and its ring of 128. *)
Record wake_trace_entry := WakeTraceEntry { wt_ts_ns : Z; wt_kind : Z; wt_a : Z; wt_b : Z }.
Record wake_trace := WakeTrace { wt_next : Z; wt_e : list wake_trace_entry }.

Definition AIOPQUIC_WAKE_TRACE_LEN : Z := 128.
Definition AIOPQUIC_WAKE_NOTIFY : Z := 1.
Definition AIOPQUIC_WAKE_CLEAR : Z := 2.
Definition AIOPQUIC_CLEAR_WAS_PENDING : Z := 1.
Definition AIOPQUIC_CLEAR_REARMED : Z := 2.
Definition AIOPQUIC_CLEAR_READ_EMPTY : Z := 4.
Definition AIOPQUIC_CLEAR_REARM_ERR : Z := 8.

Definition wake_trace0 : wake_trace :=
  WakeTrace 0 (replicate (Z.to_nat AIOPQUIC_WAKE_TRACE_LEN) (WakeTraceEntry 0 0 0 0)).

(** [aiopquic_deferred_reset_t]. *)
Record deferred_reset := DeferredReset {
  d_cnx : Z;
  d_sc : Z;
  d_stream_id : Z;
  d_error_code : Z;
  d_preamble : Z;
  d_is_wt : Z
}.

(** The counters of [aiopquic_ctx_t], and its last-seen values. *)
Inductive ctx_counter :=
  | WORKER_MARK_ACTIVE_PROCESSED | WORKER_PREPARE_TO_SEND_CALLS
  | WORKER_PREPARE_TO_SEND_PULLED_BYTES | WORKER_RX_EVENT_DROPS
  | WORKER_RX_EVENT_DROPS_STREAM_DATA | CNT_RX_DATA_EVENT_COALESCED
  | CNT_RX_NOTIFY_FLIPS | CNT_RX_NOTIFY_SKIPS | CNT_RX_NOTIFY_WRITE_ERRS
  | CNT_RX_CLEARS | CNT_RX_CLEAR_READ_EMPTY | CNT_RX_REARMS
  | WORKER_RX_BYTE_RING_OVERFLOW
  | CNT_TX_EVENT_RING_PUSHES | CNT_TX_EVENT_RING_POPS | CNT_TX_EVENT_RING_ARMS
  | CNT_TX_EVENT_RING_FIRES | CNT_TX_EVENT_RING_FIRE_DROPPED
  | CNT_WAKE_CALLS | CNT_WAKE_SKIPPED_COALESCED | CNT_PREPARE_TO_SEND_EMPTY | CNT_LOOP_CB
  | LAST_TX_EVENT_RING_ARM_NS | LAST_TX_EVENT_RING_FIRE_NS
  | CNT_FC_CREDIT_PUSHED | CNT_FC_CREDIT_HANDLED | CNT_FC_CREDIT_DROPPED
  | CNT_SC_CREATE_RAW_QUIC | CNT_SC_REF_FC_CREDIT | CNT_SC_DESTROY_FC_CREDIT_PUSHFAIL
  | CNT_SC_DESTROY_FC_CREDIT_WORKER
  | WORKER_DGRAM_MARK_READY_PROCESSED | WORKER_DGRAM_PREPARE_CALLS
  | WORKER_DGRAM_RECORDS_SENT | WORKER_DGRAM_BYTES_SENT
  | WORKER_SET_PRIORITY_APPLIED | WORKER_SET_PRIORITY_REJECTED | WORKER_SET_PRIORITY_LAST_ERR
  | WORKER_SET_DGRAM_PRIORITY_APPLIED | CNT_TX_EVENT_DROPPED_DEAD_CNX
  | CNT_TX_WRONG_DIRECTION_DROPPED | WORKER_DGRAM_RING_RELEASE_PROCESSED
  | CNT_SC_DESTROY_FC_CREDIT_DEAD_CNX | CNT_TX_REATTACH_AFTER_CLOSE
  | CNT_STREAM_CB_AFTER_CLOSE | CNT_TX_WAKE_LOST
  | CNT_SC_CREATE_WT_LINK | CNT_WT_CALLBACK_FREE_SKIPPED | CNT_WT_CONTROL_RELEASED.

#[export] Instance ctx_counter_eq_dec : EqDecision ctx_counter.
Proof. solve_decision. Defined.

Abbreviation ctx_counters := (ctx_counter -> Z).

Record bridge := Bridge {
  b_rx_event_ring : spsc_ring;
  b_tx_event_ring : spsc_ring;
  b_rx_overflow : spsc_overflow;
  b_quic : Z;
  b_thread_ctx : Z;
  b_rx_data_ring_cap : Z;
  b_rx_notify_pending : Z;
  b_last_rx_notify_errno : Z;
  b_worker_trace : wake_trace;
  b_asyncio_trace : wake_trace;
  b_tx_worker_idle : Z;
  b_tx_event_ring_drain_pending : Z;
  b_tx_event_ring_low_water : Z;
  b_keep_alive_us : Z;
  b_alpn_list : option (list (list Z));
  b_dgram_table : dgram_table;
  b_dgram_release_owed : list (Z * Z);
  b_dgram_release_owed_cap : Z;
  b_deferred_resets : list deferred_reset;
  b_deferred_resets_swept : Z;
  b_tx_worker_armed_at : Z;
  b_close_reasons : list (Z * list Z);
  b_wt_supported_protocols : option (list Z);
  b_dual_wt_params : Z;
  b_cnt : ctx_counters
}.

Definition b_set_rx_event_ring (x : spsc_ring) (b : bridge) : bridge :=
  Bridge x (b_tx_event_ring b) (b_rx_overflow b) (b_quic b) (b_thread_ctx b)
    (b_rx_data_ring_cap b) (b_rx_notify_pending b) (b_last_rx_notify_errno b)
    (b_worker_trace b) (b_asyncio_trace b) (b_tx_worker_idle b)
    (b_tx_event_ring_drain_pending b) (b_tx_event_ring_low_water b) (b_keep_alive_us b)
    (b_alpn_list b) (b_dgram_table b) (b_dgram_release_owed b)
    (b_dgram_release_owed_cap b) (b_deferred_resets b) (b_deferred_resets_swept b)
    (b_tx_worker_armed_at b) (b_close_reasons b) (b_wt_supported_protocols b)
    (b_dual_wt_params b) (b_cnt b).
Definition b_set_tx_event_ring (x : spsc_ring) (b : bridge) : bridge :=
  Bridge (b_rx_event_ring b) x (b_rx_overflow b) (b_quic b) (b_thread_ctx b)
    (b_rx_data_ring_cap b) (b_rx_notify_pending b) (b_last_rx_notify_errno b)
    (b_worker_trace b) (b_asyncio_trace b) (b_tx_worker_idle b)
    (b_tx_event_ring_drain_pending b) (b_tx_event_ring_low_water b) (b_keep_alive_us b)
    (b_alpn_list b) (b_dgram_table b) (b_dgram_release_owed b)
    (b_dgram_release_owed_cap b) (b_deferred_resets b) (b_deferred_resets_swept b)
    (b_tx_worker_armed_at b) (b_close_reasons b) (b_wt_supported_protocols b)
    (b_dual_wt_params b) (b_cnt b).
Definition b_set_rx_overflow (x : spsc_overflow) (b : bridge) : bridge :=
  Bridge (b_rx_event_ring b) (b_tx_event_ring b) x (b_quic b) (b_thread_ctx b)
    (b_rx_data_ring_cap b) (b_rx_notify_pending b) (b_last_rx_notify_errno b)
    (b_worker_trace b) (b_asyncio_trace b) (b_tx_worker_idle b)
    (b_tx_event_ring_drain_pending b) (b_tx_event_ring_low_water b) (b_keep_alive_us b)
    (b_alpn_list b) (b_dgram_table b) (b_dgram_release_owed b)
    (b_dgram_release_owed_cap b) (b_deferred_resets b) (b_deferred_resets_swept b)
    (b_tx_worker_armed_at b) (b_close_reasons b) (b_wt_supported_protocols b)
    (b_dual_wt_params b) (b_cnt b).
Definition b_set_quic (x : Z) (b : bridge) : bridge :=
  Bridge (b_rx_event_ring b) (b_tx_event_ring b) (b_rx_overflow b) x (b_thread_ctx b)
    (b_rx_data_ring_cap b) (b_rx_notify_pending b) (b_last_rx_notify_errno b)
    (b_worker_trace b) (b_asyncio_trace b) (b_tx_worker_idle b)
    (b_tx_event_ring_drain_pending b) (b_tx_event_ring_low_water b) (b_keep_alive_us b)
    (b_alpn_list b) (b_dgram_table b) (b_dgram_release_owed b)
    (b_dgram_release_owed_cap b) (b_deferred_resets b) (b_deferred_resets_swept b)
    (b_tx_worker_armed_at b) (b_close_reasons b) (b_wt_supported_protocols b)
    (b_dual_wt_params b) (b_cnt b).
Definition b_set_thread_ctx (x : Z) (b : bridge) : bridge :=
  Bridge (b_rx_event_ring b) (b_tx_event_ring b) (b_rx_overflow b) (b_quic b) x
    (b_rx_data_ring_cap b) (b_rx_notify_pending b) (b_last_rx_notify_errno b)
    (b_worker_trace b) (b_asyncio_trace b) (b_tx_worker_idle b)
    (b_tx_event_ring_drain_pending b) (b_tx_event_ring_low_water b) (b_keep_alive_us b)
    (b_alpn_list b) (b_dgram_table b) (b_dgram_release_owed b)
    (b_dgram_release_owed_cap b) (b_deferred_resets b) (b_deferred_resets_swept b)
    (b_tx_worker_armed_at b) (b_close_reasons b) (b_wt_supported_protocols b)
    (b_dual_wt_params b) (b_cnt b).
Definition b_set_rx_data_ring_cap (x : Z) (b : bridge) : bridge :=
  Bridge (b_rx_event_ring b) (b_tx_event_ring b) (b_rx_overflow b) (b_quic b)
    (b_thread_ctx b) x (b_rx_notify_pending b) (b_last_rx_notify_errno b)
    (b_worker_trace b) (b_asyncio_trace b) (b_tx_worker_idle b)
    (b_tx_event_ring_drain_pending b) (b_tx_event_ring_low_water b) (b_keep_alive_us b)
    (b_alpn_list b) (b_dgram_table b) (b_dgram_release_owed b)
    (b_dgram_release_owed_cap b) (b_deferred_resets b) (b_deferred_resets_swept b)
    (b_tx_worker_armed_at b) (b_close_reasons b) (b_wt_supported_protocols b)
    (b_dual_wt_params b) (b_cnt b).
Definition b_set_rx_notify_pending (x : Z) (b : bridge) : bridge :=
  Bridge (b_rx_event_ring b) (b_tx_event_ring b) (b_rx_overflow b) (b_quic b)
    (b_thread_ctx b) (b_rx_data_ring_cap b) x (b_last_rx_notify_errno b)
    (b_worker_trace b) (b_asyncio_trace b) (b_tx_worker_idle b)
    (b_tx_event_ring_drain_pending b) (b_tx_event_ring_low_water b) (b_keep_alive_us b)
    (b_alpn_list b) (b_dgram_table b) (b_dgram_release_owed b)
    (b_dgram_release_owed_cap b) (b_deferred_resets b) (b_deferred_resets_swept b)
    (b_tx_worker_armed_at b) (b_close_reasons b) (b_wt_supported_protocols b)
    (b_dual_wt_params b) (b_cnt b).
Definition b_set_last_rx_notify_errno (x : Z) (b : bridge) : bridge :=
  Bridge (b_rx_event_ring b) (b_tx_event_ring b) (b_rx_overflow b) (b_quic b)
    (b_thread_ctx b) (b_rx_data_ring_cap b) (b_rx_notify_pending b) x (b_worker_trace b)
    (b_asyncio_trace b) (b_tx_worker_idle b) (b_tx_event_ring_drain_pending b)
    (b_tx_event_ring_low_water b) (b_keep_alive_us b) (b_alpn_list b) (b_dgram_table b)
    (b_dgram_release_owed b) (b_dgram_release_owed_cap b) (b_deferred_resets b)
    (b_deferred_resets_swept b) (b_tx_worker_armed_at b) (b_close_reasons b) (b_wt_supported_protocols b)
    (b_dual_wt_params b) (b_cnt b).
Definition b_set_worker_trace (x : wake_trace) (b : bridge) : bridge :=
  Bridge (b_rx_event_ring b) (b_tx_event_ring b) (b_rx_overflow b) (b_quic b)
    (b_thread_ctx b) (b_rx_data_ring_cap b) (b_rx_notify_pending b)
    (b_last_rx_notify_errno b) x (b_asyncio_trace b) (b_tx_worker_idle b)
    (b_tx_event_ring_drain_pending b) (b_tx_event_ring_low_water b) (b_keep_alive_us b)
    (b_alpn_list b) (b_dgram_table b) (b_dgram_release_owed b)
    (b_dgram_release_owed_cap b) (b_deferred_resets b) (b_deferred_resets_swept b)
    (b_tx_worker_armed_at b) (b_close_reasons b) (b_wt_supported_protocols b)
    (b_dual_wt_params b) (b_cnt b).
Definition b_set_asyncio_trace (x : wake_trace) (b : bridge) : bridge :=
  Bridge (b_rx_event_ring b) (b_tx_event_ring b) (b_rx_overflow b) (b_quic b)
    (b_thread_ctx b) (b_rx_data_ring_cap b) (b_rx_notify_pending b)
    (b_last_rx_notify_errno b) (b_worker_trace b) x (b_tx_worker_idle b)
    (b_tx_event_ring_drain_pending b) (b_tx_event_ring_low_water b) (b_keep_alive_us b)
    (b_alpn_list b) (b_dgram_table b) (b_dgram_release_owed b)
    (b_dgram_release_owed_cap b) (b_deferred_resets b) (b_deferred_resets_swept b)
    (b_tx_worker_armed_at b) (b_close_reasons b) (b_wt_supported_protocols b)
    (b_dual_wt_params b) (b_cnt b).
Definition b_set_tx_worker_idle (x : Z) (b : bridge) : bridge :=
  Bridge (b_rx_event_ring b) (b_tx_event_ring b) (b_rx_overflow b) (b_quic b)
    (b_thread_ctx b) (b_rx_data_ring_cap b) (b_rx_notify_pending b)
    (b_last_rx_notify_errno b) (b_worker_trace b) (b_asyncio_trace b) x
    (b_tx_event_ring_drain_pending b) (b_tx_event_ring_low_water b) (b_keep_alive_us b)
    (b_alpn_list b) (b_dgram_table b) (b_dgram_release_owed b)
    (b_dgram_release_owed_cap b) (b_deferred_resets b) (b_deferred_resets_swept b)
    (b_tx_worker_armed_at b) (b_close_reasons b) (b_wt_supported_protocols b)
    (b_dual_wt_params b) (b_cnt b).
Definition b_set_tx_event_ring_drain_pending (x : Z) (b : bridge) : bridge :=
  Bridge (b_rx_event_ring b) (b_tx_event_ring b) (b_rx_overflow b) (b_quic b)
    (b_thread_ctx b) (b_rx_data_ring_cap b) (b_rx_notify_pending b)
    (b_last_rx_notify_errno b) (b_worker_trace b) (b_asyncio_trace b)
    (b_tx_worker_idle b) x (b_tx_event_ring_low_water b) (b_keep_alive_us b)
    (b_alpn_list b) (b_dgram_table b) (b_dgram_release_owed b)
    (b_dgram_release_owed_cap b) (b_deferred_resets b) (b_deferred_resets_swept b)
    (b_tx_worker_armed_at b) (b_close_reasons b) (b_wt_supported_protocols b)
    (b_dual_wt_params b) (b_cnt b).
Definition b_set_tx_event_ring_low_water (x : Z) (b : bridge) : bridge :=
  Bridge (b_rx_event_ring b) (b_tx_event_ring b) (b_rx_overflow b) (b_quic b)
    (b_thread_ctx b) (b_rx_data_ring_cap b) (b_rx_notify_pending b)
    (b_last_rx_notify_errno b) (b_worker_trace b) (b_asyncio_trace b)
    (b_tx_worker_idle b) (b_tx_event_ring_drain_pending b) x (b_keep_alive_us b)
    (b_alpn_list b) (b_dgram_table b) (b_dgram_release_owed b)
    (b_dgram_release_owed_cap b) (b_deferred_resets b) (b_deferred_resets_swept b)
    (b_tx_worker_armed_at b) (b_close_reasons b) (b_wt_supported_protocols b)
    (b_dual_wt_params b) (b_cnt b).
Definition b_set_keep_alive_us (x : Z) (b : bridge) : bridge :=
  Bridge (b_rx_event_ring b) (b_tx_event_ring b) (b_rx_overflow b) (b_quic b)
    (b_thread_ctx b) (b_rx_data_ring_cap b) (b_rx_notify_pending b)
    (b_last_rx_notify_errno b) (b_worker_trace b) (b_asyncio_trace b)
    (b_tx_worker_idle b) (b_tx_event_ring_drain_pending b) (b_tx_event_ring_low_water b)
    x (b_alpn_list b) (b_dgram_table b) (b_dgram_release_owed b)
    (b_dgram_release_owed_cap b) (b_deferred_resets b) (b_deferred_resets_swept b)
    (b_tx_worker_armed_at b) (b_close_reasons b) (b_wt_supported_protocols b)
    (b_dual_wt_params b) (b_cnt b).
Definition b_set_alpn_list (x : option (list (list Z))) (b : bridge) : bridge :=
  Bridge (b_rx_event_ring b) (b_tx_event_ring b) (b_rx_overflow b) (b_quic b)
    (b_thread_ctx b) (b_rx_data_ring_cap b) (b_rx_notify_pending b)
    (b_last_rx_notify_errno b) (b_worker_trace b) (b_asyncio_trace b)
    (b_tx_worker_idle b) (b_tx_event_ring_drain_pending b) (b_tx_event_ring_low_water b)
    (b_keep_alive_us b) x (b_dgram_table b) (b_dgram_release_owed b)
    (b_dgram_release_owed_cap b) (b_deferred_resets b) (b_deferred_resets_swept b)
    (b_tx_worker_armed_at b) (b_close_reasons b) (b_wt_supported_protocols b)
    (b_dual_wt_params b) (b_cnt b).
Definition b_set_dgram_table (x : dgram_table) (b : bridge) : bridge :=
  Bridge (b_rx_event_ring b) (b_tx_event_ring b) (b_rx_overflow b) (b_quic b)
    (b_thread_ctx b) (b_rx_data_ring_cap b) (b_rx_notify_pending b)
    (b_last_rx_notify_errno b) (b_worker_trace b) (b_asyncio_trace b)
    (b_tx_worker_idle b) (b_tx_event_ring_drain_pending b) (b_tx_event_ring_low_water b)
    (b_keep_alive_us b) (b_alpn_list b) x (b_dgram_release_owed b)
    (b_dgram_release_owed_cap b) (b_deferred_resets b) (b_deferred_resets_swept b)
    (b_tx_worker_armed_at b) (b_close_reasons b) (b_wt_supported_protocols b)
    (b_dual_wt_params b) (b_cnt b).
Definition b_set_dgram_release_owed (x : list (Z * Z)) (b : bridge) : bridge :=
  Bridge (b_rx_event_ring b) (b_tx_event_ring b) (b_rx_overflow b) (b_quic b)
    (b_thread_ctx b) (b_rx_data_ring_cap b) (b_rx_notify_pending b)
    (b_last_rx_notify_errno b) (b_worker_trace b) (b_asyncio_trace b)
    (b_tx_worker_idle b) (b_tx_event_ring_drain_pending b) (b_tx_event_ring_low_water b)
    (b_keep_alive_us b) (b_alpn_list b) (b_dgram_table b) x (b_dgram_release_owed_cap b)
    (b_deferred_resets b) (b_deferred_resets_swept b) (b_tx_worker_armed_at b)
    (b_close_reasons b) (b_wt_supported_protocols b) (b_dual_wt_params b) (b_cnt b).
Definition b_set_dgram_release_owed_cap (x : Z) (b : bridge) : bridge :=
  Bridge (b_rx_event_ring b) (b_tx_event_ring b) (b_rx_overflow b) (b_quic b)
    (b_thread_ctx b) (b_rx_data_ring_cap b) (b_rx_notify_pending b)
    (b_last_rx_notify_errno b) (b_worker_trace b) (b_asyncio_trace b)
    (b_tx_worker_idle b) (b_tx_event_ring_drain_pending b) (b_tx_event_ring_low_water b)
    (b_keep_alive_us b) (b_alpn_list b) (b_dgram_table b) (b_dgram_release_owed b) x
    (b_deferred_resets b) (b_deferred_resets_swept b) (b_tx_worker_armed_at b)
    (b_close_reasons b) (b_wt_supported_protocols b) (b_dual_wt_params b) (b_cnt b).
Definition b_set_deferred_resets (x : list deferred_reset) (b : bridge) : bridge :=
  Bridge (b_rx_event_ring b) (b_tx_event_ring b) (b_rx_overflow b) (b_quic b)
    (b_thread_ctx b) (b_rx_data_ring_cap b) (b_rx_notify_pending b)
    (b_last_rx_notify_errno b) (b_worker_trace b) (b_asyncio_trace b)
    (b_tx_worker_idle b) (b_tx_event_ring_drain_pending b) (b_tx_event_ring_low_water b)
    (b_keep_alive_us b) (b_alpn_list b) (b_dgram_table b) (b_dgram_release_owed b)
    (b_dgram_release_owed_cap b) x (b_deferred_resets_swept b) (b_tx_worker_armed_at b)
    (b_close_reasons b) (b_wt_supported_protocols b) (b_dual_wt_params b) (b_cnt b).
Definition b_set_deferred_resets_swept (x : Z) (b : bridge) : bridge :=
  Bridge (b_rx_event_ring b) (b_tx_event_ring b) (b_rx_overflow b) (b_quic b)
    (b_thread_ctx b) (b_rx_data_ring_cap b) (b_rx_notify_pending b)
    (b_last_rx_notify_errno b) (b_worker_trace b) (b_asyncio_trace b)
    (b_tx_worker_idle b) (b_tx_event_ring_drain_pending b) (b_tx_event_ring_low_water b)
    (b_keep_alive_us b) (b_alpn_list b) (b_dgram_table b) (b_dgram_release_owed b)
    (b_dgram_release_owed_cap b) (b_deferred_resets b) x (b_tx_worker_armed_at b)
    (b_close_reasons b) (b_wt_supported_protocols b) (b_dual_wt_params b) (b_cnt b).
Definition b_set_tx_worker_armed_at (x : Z) (b : bridge) : bridge :=
  Bridge (b_rx_event_ring b) (b_tx_event_ring b) (b_rx_overflow b) (b_quic b)
    (b_thread_ctx b) (b_rx_data_ring_cap b) (b_rx_notify_pending b)
    (b_last_rx_notify_errno b) (b_worker_trace b) (b_asyncio_trace b)
    (b_tx_worker_idle b) (b_tx_event_ring_drain_pending b) (b_tx_event_ring_low_water b)
    (b_keep_alive_us b) (b_alpn_list b) (b_dgram_table b) (b_dgram_release_owed b)
    (b_dgram_release_owed_cap b) (b_deferred_resets b) (b_deferred_resets_swept b) x
    (b_close_reasons b) (b_wt_supported_protocols b) (b_dual_wt_params b) (b_cnt b).
Definition b_set_close_reasons (x : list (Z * list Z)) (b : bridge) : bridge :=
  Bridge (b_rx_event_ring b) (b_tx_event_ring b) (b_rx_overflow b) (b_quic b)
    (b_thread_ctx b) (b_rx_data_ring_cap b) (b_rx_notify_pending b)
    (b_last_rx_notify_errno b) (b_worker_trace b) (b_asyncio_trace b)
    (b_tx_worker_idle b) (b_tx_event_ring_drain_pending b) (b_tx_event_ring_low_water b)
    (b_keep_alive_us b) (b_alpn_list b) (b_dgram_table b) (b_dgram_release_owed b)
    (b_dgram_release_owed_cap b) (b_deferred_resets b) (b_deferred_resets_swept b)
    (b_tx_worker_armed_at b) x (b_wt_supported_protocols b) (b_dual_wt_params b) (b_cnt b).
Definition b_set_cnt (x : ctx_counters) (b : bridge) : bridge :=
  Bridge (b_rx_event_ring b) (b_tx_event_ring b) (b_rx_overflow b) (b_quic b)
    (b_thread_ctx b) (b_rx_data_ring_cap b) (b_rx_notify_pending b)
    (b_last_rx_notify_errno b) (b_worker_trace b) (b_asyncio_trace b)
    (b_tx_worker_idle b) (b_tx_event_ring_drain_pending b) (b_tx_event_ring_low_water b)
    (b_keep_alive_us b) (b_alpn_list b) (b_dgram_table b) (b_dgram_release_owed b)
    (b_dgram_release_owed_cap b) (b_deferred_resets b) (b_deferred_resets_swept b)
    (b_tx_worker_armed_at b) (b_close_reasons b) (b_wt_supported_protocols b)
    (b_dual_wt_params b) x.

(** ** The world *)

Record world := World {
  w_ctx : bridge;
  w_sc : sc_world;
  w_rs : ring_store;
  w_heap : heap;
  w_fd : Z;
  w_rx_log_cached : Z;
  w_fc_raw_cached : Z;
  w_tick : nat;
  w_trace : list (pq_call * Z);
  w_wt : wt_state
}.

Definition w_set_ctx (x : bridge) (w : world) : world :=
  World x (w_sc w) (w_rs w) (w_heap w) (w_fd w) (w_rx_log_cached w) (w_fc_raw_cached w)
    (w_tick w) (w_trace w) (w_wt w).
Definition w_set_sc (x : sc_world) (w : world) : world :=
  World (w_ctx w) x (w_rs w) (w_heap w) (w_fd w) (w_rx_log_cached w) (w_fc_raw_cached w)
    (w_tick w) (w_trace w) (w_wt w).
Definition w_set_rs (x : ring_store) (w : world) : world :=
  World (w_ctx w) (w_sc w) x (w_heap w) (w_fd w) (w_rx_log_cached w) (w_fc_raw_cached w)
    (w_tick w) (w_trace w) (w_wt w).
Definition w_set_heap (x : heap) (w : world) : world :=
  World (w_ctx w) (w_sc w) (w_rs w) x (w_fd w) (w_rx_log_cached w) (w_fc_raw_cached w)
    (w_tick w) (w_trace w) (w_wt w).
Definition w_set_fd (x : Z) (w : world) : world :=
  World (w_ctx w) (w_sc w) (w_rs w) (w_heap w) x (w_rx_log_cached w) (w_fc_raw_cached w)
    (w_tick w) (w_trace w) (w_wt w).
Definition w_set_rx_log_cached (x : Z) (w : world) : world :=
  World (w_ctx w) (w_sc w) (w_rs w) (w_heap w) (w_fd w) x (w_fc_raw_cached w) (w_tick w)
    (w_trace w) (w_wt w).
Definition w_set_fc_raw_cached (x : Z) (w : world) : world :=
  World (w_ctx w) (w_sc w) (w_rs w) (w_heap w) (w_fd w) (w_rx_log_cached w) x (w_tick w)
    (w_trace w) (w_wt w).
Definition w_set_tick (x : nat) (w : world) : world :=
  World (w_ctx w) (w_sc w) (w_rs w) (w_heap w) (w_fd w) (w_rx_log_cached w)
    (w_fc_raw_cached w) x (w_trace w) (w_wt w).
Definition w_set_trace (x : list (pq_call * Z)) (w : world) : world :=
  World (w_ctx w) (w_sc w) (w_rs w) (w_heap w) (w_fd w) (w_rx_log_cached w)
    (w_fc_raw_cached w) (w_tick w) x (w_wt w).
Definition w_set_wt (x : wt_state) (w : world) : world :=
  World (w_ctx w) (w_sc w) (w_rs w) (w_heap w) (w_fd w) (w_rx_log_cached w)
    (w_fc_raw_cached w) (w_tick w) (w_trace w) x.

(** What the world outside the repository answers.  [ev_cnxs] is the walk of
    picoquic_get_first_cnx / picoquic_get_next_cnx; the outcomes of allocations,
    clock reads and descriptor writes are numbered by [w_tick]. *)
Record env := Env {
  ev_pq : list (pq_call * Z) -> pq_call -> Z;
  ev_cnxs : list (pq_call * Z) -> list Z;
  ev_reason : list (pq_call * Z) -> Z -> option (list Z);  (** picoquic_get_remote_error_reason *)
  ev_error_name : Z -> option (list Z);                    (** picoquic_error_name *)
  ev_alpn : list (pq_call * Z) -> Z -> option (list Z);    (** picoquic_tls_get_negotiated_alpn *)
  ev_peer_addr : list (pq_call * Z) -> Z -> sockaddr;      (** picoquic_get_peer_addr *)
  ev_local_addr : list (pq_call * Z) -> Z -> sockaddr;     (** picoquic_get_local_addr *)
  ev_snapshot : cnx_snapshot -> list Z;                    (** the struct's bytes *)
  ev_alloc : nat -> heap -> push_alloc;   (** the allocations of one ring push, next to the live blocks *)
  ev_buf : nat -> Z -> buf_alloc;    (** those of creating one stream ring of a capacity *)
  ev_sc : nat -> gmap Z stream_ctx -> Z;  (** [calloc] of a wrapper next to the live ones: its address, 0 on failure *)
  ev_ok : nat -> bool;               (** any other allocation *)
  (** h3zero's and picowt's effect on h3zero's structs, on a session's capsule; the
      contexts a call into h3zero hands a deregister to before it returns *)
  ev_h3 : list (pq_call * Z) -> pq_call -> h3_mem -> h3_mem;
  ev_capsule : list (pq_call * Z) -> list Z -> wt_capsule -> wt_capsule;
  ev_deregisters : list (pq_call * Z) -> pq_call -> list Z;
  ev_wt : nat -> gmap Z wt_obj -> Z;  (** [calloc] of a session or a link: its address, 0 on failure *)
  ev_now : nat -> Z;                 (** CLOCK_MONOTONIC in ns *)
  ev_errno : nat -> Z;               (** errno of a write to the wake descriptor, 0 for none *)
  ev_getenv : string -> option string;
  (** picoquic's stream-id macros and constants *)
  ev_is_client_stream_id : Z -> bool;
  ev_is_bidir_stream_id : Z -> bool;
  ev_state_disconnecting : Z;
  ev_error_offset_too_big : Z;
  ev_error_illegal_transport_extension : Z;
  ev_error_invalid_stream_id : Z;
  ev_error_memory : Z;
  ev_storage_len : Z                 (** sizeof(struct sockaddr_storage) *)
}.

(** ** The monad *)

Definition M (A : Type) : Type := world -> option (A * world).

Definition ret {A} (x : A) : M A := λ w, Some (x, w).
Definition bind {A B} (m : M A) (k : A -> M B) : M B :=
  λ w, match m w with Some (x, w') => k x w' | None => None end.
(** Undefined behaviour. *)
Definition ub {A} : M A := λ _, None.

#[export] Instance M_ret : MRet M := @ret.
#[export] Instance M_bind : MBind M := λ A B k m, bind m k.

Definition gets {A} (f : world -> A) : M A := λ w, Some (f w, w).
Definition getb {A} (f : bridge -> A) : M A := λ w, Some (f (w_ctx w), w).
Definition setb (f : bridge -> bridge) : M unit := λ w, Some (tt, w_set_ctx (f (w_ctx w)) w).

(** [if (b) m;] *)
Definition when (b : bool) (m : M unit) : M unit := if b then m else ret tt.

(** A call on the wrappers, on the datagram rings. *)
Definition on_sc (f : sc_world -> option sc_world) : M unit :=
  λ w, s ← f (w_sc w); Some (tt, w_set_sc s w).
Definition on_sc_val {A} (f : sc_world -> option (A * sc_world)) : M A :=
  λ w, '(x, s) ← f (w_sc w); Some (x, w_set_sc s w).
Definition read_sc {A} (p : Z) (f : stream_ctx -> A) : M A :=
  λ w, sc ← sw_scs (w_sc w) !! p; Some (f sc, w).
Definition upd_sc (p : Z) (f : stream_ctx -> stream_ctx) : M unit := on_sc (sc_update p f).
Definition on_g (f : sc_counters -> sc_counters) : M unit :=
  λ w, Some (tt, w_set_sc (ScWorld (sw_scs (w_sc w)) (f (sw_g (w_sc w)))) w).
Definition on_rs (f : ring_store -> option ring_store) : M unit :=
  λ w, s ← f (w_rs w); Some (tt, w_set_rs s w).

(** [ctx->c += n] and [ctx->c = v]. *)
Definition bump_cnt (c : ctx_counter) (n : Z) (g : ctx_counters) : ctx_counters :=
  λ c', if decide (c = c') then u64 (g c' + n) else g c'.
Definition put_cnt (c : ctx_counter) (v : Z) (g : ctx_counters) : ctx_counters :=
  λ c', if decide (c = c') then v else g c'.
Definition count_n (c : ctx_counter) (n : Z) : M unit := setb (λ b, b_set_cnt (bump_cnt c n (b_cnt b)) b).
Definition count (c : ctx_counter) : M unit := count_n c 1.
Definition set_cnt (c : ctx_counter) (v : Z) : M unit := setb (λ b, b_set_cnt (put_cnt c v (b_cnt b)) b).

Section ops.
Context (ev : env).

(** A call into picoquic: its result, and the call on the trace. *)
Definition pq (c : pq_call) : M Z :=
  λ w, let r := ev_pq ev (w_trace w) c in Some (r, w_set_trace (w_trace w ++ [(c, r)]) w).
Definition pq_ (c : pq_call) : M unit := pq c ;; ret tt.

Definition next_tick : M nat := λ w, Some (w_tick w, w_set_tick (S (w_tick w)) w).
Definition aiopquic_now_ns : M Z := t ← next_tick; ret (ev_now ev t).

(** The walk over picoquic's list of connections. *)
Fixpoint cnx_walk (cur : list Z) (cnx : Z) : bool :=
  match cur with [] => false | c :: cur => if c =? cnx then true else cnx_walk cur cnx end.

Definition aiopquic_cnx_is_alive (cnx : Z) : M bool :=
  gets (λ w, cnx_walk (ev_cnxs ev (w_trace w)) cnx).

(** ** Stream directions *)

Definition aiopquic_stream_is_local (cnx stream_id : Z) : M bool :=
  c ← pq (PqIsClient cnx);
  ret (Bool.eqb (ev_is_client_stream_id ev stream_id) (negb (c =? 0))).

Definition aiopquic_stream_can_send (cnx stream_id : Z) : M bool :=
  if ev_is_bidir_stream_id ev stream_id then ret true
  else aiopquic_stream_is_local cnx stream_id.

Definition aiopquic_stream_can_receive (cnx stream_id : Z) : M bool :=
  if ev_is_bidir_stream_id ev stream_id then ret true
  else l ← aiopquic_stream_is_local cnx stream_id; ret (negb l).

(** ** Cached environment flags *)

Definition aiopquic_rx_log_enabled : M bool :=
  v ← gets w_rx_log_cached;
  if v <? 0 then
    let v := c_bool (env_flag (ev_getenv ev "AIOPQUIC_RX_LOG")) in
    (λ w, Some (negb (v =? 0), w_set_rx_log_cached v w)) : M bool
  else ret (negb (v =? 0)).

Definition aiopquic_fc_raw_enabled : M bool :=
  v ← gets w_fc_raw_cached;
  if v <? 0 then
    let v := c_bool (env_flag (ev_getenv ev "AIOPQUIC_FC_RAW")) in
    (λ w, Some (negb (v =? 0), w_set_fc_raw_cached v w)) : M bool
  else ret (negb (v =? 0)).

(** ** Wake-protocol trace *)

Definition aiopquic_wake_trace_add (t : wake_trace) (ts kind a b : Z) : option wake_trace :=
  let n := wt_next t in
  let slot := n mod AIOPQUIC_WAKE_TRACE_LEN in
  if slot <? zlen (wt_e t)
  then Some (WakeTrace (u64 (n + 1)) (<[Z.to_nat slot := WakeTraceEntry ts kind a b]> (wt_e t)))
  else None.

Definition worker_trace_add (kind a b : Z) : M unit :=
  ts ← aiopquic_now_ns;
  (λ w, t ← aiopquic_wake_trace_add (b_worker_trace (w_ctx w)) ts kind a b;
        Some (tt, w_set_ctx (b_set_worker_trace t (w_ctx w)) w)) : M unit.

Definition asyncio_trace_add (kind a b : Z) : M unit :=
  ts ← aiopquic_now_ns;
  (λ w, t ← aiopquic_wake_trace_add (b_asyncio_trace (w_ctx w)) ts kind a b;
        Some (tt, w_set_ctx (b_set_asyncio_trace t (w_ctx w)) w)) : M unit.

Definition aiopquic_wake_trace_next (t : wake_trace) : Z := wt_next t.

(** ** Waking asyncio *)

(** [write(wake_write_fd)]: the errno, and the descriptor's counter. *)
Definition wake_write : M Z :=
  t ← next_tick;
  let err := ev_errno ev t in
  (λ w, Some (err, if err =? 0 then w_set_fd (w_fd w + 1) w else w)) : M Z.

(** [read(eventfd)]: the counter, reset; 0 is EAGAIN. *)
Definition wake_read : M Z := λ w, Some (w_fd w, w_set_fd 0 w).

Definition aiopquic_notify_rx : M unit :=
  was ← getb b_rx_notify_pending;
  setb (b_set_rx_notify_pending 1) ;;
  if negb (was =? 0) then count CNT_RX_NOTIFY_SKIPS
  else
    err ← wake_write;
    count CNT_RX_NOTIFY_FLIPS ;;
    when (negb (err =? 0))
      (count CNT_RX_NOTIFY_WRITE_ERRS ;; setb (b_set_last_rx_notify_errno err)) ;;
    n ← getb (λ b, spsc_ring_count (b_rx_event_ring b));
    worker_trace_add AIOPQUIC_WAKE_NOTIFY (u32 err) n.

Definition rx_refill : M Z :=
  λ w, '(moved, r, o) ← spsc_ring_refill_from_overflow (b_rx_event_ring (w_ctx w))
                          (b_rx_overflow (w_ctx w));
       Some (moved, w_set_ctx (b_set_rx_overflow o (b_set_rx_event_ring r (w_ctx w))) w).

Definition aiopquic_rx_consumed : M Z := getb (λ b, r_head (b_rx_event_ring b)).

Definition aiopquic_clear_rx : M unit :=
  _ ← rx_refill;
  got ← wake_read;
  was ← getb b_rx_notify_pending;
  setb (b_set_rx_notify_pending 0) ;;
  let flags := if negb (was =? 0) then AIOPQUIC_CLEAR_WAS_PENDING else 0 in
  count CNT_RX_CLEARS ;;
  when (got =? 0) (count CNT_RX_CLEAR_READ_EMPTY) ;;
  let flags := if got =? 0 then Z.lor flags AIOPQUIC_CLEAR_READ_EMPTY else flags in
  left ← getb (λ b, spsc_ring_count (b_rx_event_ring b));
  depth ← getb (λ b, o_depth (b_rx_overflow b));
  flags ← (if (left >? 0) || (depth >? 0) then
             err ← wake_write;
             count CNT_RX_REARMS ;;
             let flags := Z.lor flags AIOPQUIC_CLEAR_REARMED in
             ret (if negb (err =? 0) then Z.lor flags AIOPQUIC_CLEAR_REARM_ERR else flags)
           else ret flags);
  asyncio_trace_add AIOPQUIC_WAKE_CLEAR flags
    (Z.lor (u64 (Z.shiftl left 32)) (Z.land got 0xffffffff)).

(** ** Event pushes *)

Definition ring_push_or_overflow (entry : spsc_entry) (data : list Z) : M Z :=
  t ← next_tick;
  (λ w, '(rc, r, o, h) ← spsc_ring_push_or_overflow (b_rx_event_ring (w_ctx w))
                           (b_rx_overflow (w_ctx w)) (w_heap w) (ev_alloc ev t (w_heap w)) entry data;
        Some (rc, w_set_heap h
                    (w_set_ctx (b_set_rx_overflow o (b_set_rx_event_ring r (w_ctx w))) w))) : M Z.

Definition aiopquic_rx_push (entry : spsc_entry) (data : list Z) : M Z :=
  rc ← ring_push_or_overflow entry data;
  if rc <? 0 then count WORKER_RX_EVENT_DROPS ;; ret rc
  else aiopquic_notify_rx ;; ret 0.

(** [spsc_ring_push] on the TX ring. *)
Definition tx_ring_push (entry : spsc_entry) (data : list Z) : M Z :=
  t ← next_tick;
  (λ w, '(rc, r, h) ← spsc_ring_push (b_tx_event_ring (w_ctx w)) (w_heap w)
                        (pa_ring (ev_alloc ev t (w_heap w))) entry data;
        Some (rc, w_set_heap h (w_set_ctx (b_set_tx_event_ring r (w_ctx w)) w))) : M Z.

(** [spsc_ring_pop] on the TX ring. *)
Definition tx_ring_pop : M unit :=
  λ w, '(r, h) ← spsc_ring_pop (b_tx_event_ring (w_ctx w)) (w_heap w);
       Some (tt, w_set_heap h (w_set_ctx (b_set_tx_event_ring r (w_ctx w)) w)).

(** [spsc_ring_peek] on the TX ring, and the entry it points at. *)
Definition tx_ring_peek : M (option spsc_entry) :=
  λ w, let r := b_tx_event_ring (w_ctx w) in
       match spsc_ring_peek r with
       | None => Some (None, w)
       | Some slot => e ← r_entries r !! Z.to_nat slot; Some (Some e, w)
       end.

Definition evt_is (event_type : Z) (t : spsc_event_type) : bool := event_type =? evt_code t.

Definition aiopquic_rx_event_owns_sc (event_type : Z) : bool :=
  evt_is event_type SPSC_EVT_STREAM_DATA || evt_is event_type SPSC_EVT_STREAM_FIN
  || evt_is event_type SPSC_EVT_STREAM_RESET || evt_is event_type SPSC_EVT_STOP_SENDING.

Definition aiopquic_tx_event_owns_sc (event_type : Z) : bool :=
  evt_is event_type SPSC_EVT_TX_STREAM_RESET || evt_is event_type SPSC_EVT_TX_STOP_SENDING
  || evt_is event_type SPSC_EVT_TX_MARK_ACTIVE
  || evt_is event_type SPSC_EVT_TX_OPEN_FLOW_CONTROL.

Definition aiopquic_rx_event_release (e : spsc_entry) : M unit :=
  when (negb (e_stream_ctx e =? 0) && aiopquic_rx_event_owns_sc (e_event_type e))
    (on_sc (aiopquic_stream_ctx_destroy (e_stream_ctx e))).

Definition aiopquic_tx_event_release (e : spsc_entry) : M unit :=
  when (negb (e_stream_ctx e =? 0) && aiopquic_tx_event_owns_sc (e_event_type e))
    (on_sc (aiopquic_stream_ctx_destroy (e_stream_ctx e))).

Definition aiopquic_rx_push_sc (entry : spsc_entry) (data : list Z) : M Z :=
  let owns := negb (e_stream_ctx entry =? 0)
              && aiopquic_rx_event_owns_sc (e_event_type entry) in
  when owns (on_sc (aiopquic_stream_ctx_ref (e_stream_ctx entry))) ;;
  rc ← aiopquic_rx_push entry data;
  when (negb (rc =? 0) && owns) (on_sc (aiopquic_stream_ctx_destroy (e_stream_ctx entry))) ;;
  ret rc.

Definition aiopquic_tx_push_sc (entry : spsc_entry) (data : list Z) : M Z :=
  let owns := negb (e_stream_ctx entry =? 0)
              && aiopquic_tx_event_owns_sc (e_event_type entry) in
  when owns (on_sc (aiopquic_stream_ctx_ref (e_stream_ctx entry))) ;;
  rc ← tx_ring_push entry data;
  when (negb (rc =? 0) && owns) (on_sc (aiopquic_stream_ctx_destroy (e_stream_ctx entry))) ;;
  ret rc.

(** [e->stream_ctx = NULL] in slot [i] of the TX ring. *)
Definition tx_slot_clear_ctx (i : Z) : M unit :=
  λ w, let r := b_tx_event_ring (w_ctx w) in
       e ← r_entries r !! Z.to_nat (Z.land i (r_mask r));
       es ← store_slot (r_entries r) (Z.land i (r_mask r))
              {| e_stream_id := e_stream_id e; e_event_type := e_event_type e;
                 e_data_length := e_data_length e; e_is_fin := e_is_fin e;
                 e_aux := e_aux e; e_data_buf := e_data_buf e; e_cnx := e_cnx e;
                 e_stream_ctx := 0; e_error_code := e_error_code e |};
       Some (tt, w_set_ctx (b_set_tx_event_ring
         (SpscRing (r_tail r) (r_head r) (r_bytes_pending r) (r_capacity r) (r_mask r) es)
         (w_ctx w)) w).

Definition tx_slot (i : Z) : M spsc_entry :=
  λ w, let r := b_tx_event_ring (w_ctx w) in
       e ← r_entries r !! Z.to_nat (Z.land i (r_mask r)); Some (e, w).

(** The sweep from slot [i], [n] slots to go. *)
Fixpoint sc_sweep (n : nat) (i : Z) : M unit :=
  match n with
  | O => ret tt
  | S n =>
      e ← tx_slot i;
      aiopquic_tx_event_release e ;;
      when (aiopquic_tx_event_owns_sc (e_event_type e)) (tx_slot_clear_ctx i) ;;
      sc_sweep n (u64 (i + 1))
  end.

Definition aiopquic_tx_sc_release_undrained : M unit :=
  r ← getb b_tx_event_ring;
  sc_sweep (Z.to_nat (r_tail r - r_head r)) (r_head r).

(** ** Resets *)

Definition aiopquic_reset_stream_at_negotiated (cnx : Z) : M bool :=
  lt ← pq (PqGetTransportParameters cnx true);
  rt ← pq (PqGetTransportParameters cnx false);
  if (lt =? 0) || (rt =? 0) then ret false
  else
    l ← pq (PqTpRead cnx true TpResetStreamAt);
    if l =? 0 then ret false
    else r ← pq (PqTpRead cnx false TpResetStreamAt); ret (negb (r =? 0)).

Definition aiopquic_reset_reliable_size (cnx sc requested : Z) : M Z :=
  if (requested =? 0) || (sc =? 0) then ret 0
  else
    tx ← read_sc sc sc_tx;
    match tx with
    | None => ret 0
    | Some tx =>
        n ← aiopquic_reset_stream_at_negotiated cnx;
        if negb n then ret 0
        else
          let written := sb_tail tx in
          ret (if requested <? written then requested else written)
    end.

Definition aiopquic_reset_stream_reliable (cnx stream_id code reliable : Z) : M Z :=
  if reliable >? 0 then
    rr ← pq (PqResetStreamAt cnx stream_id code reliable);
    if negb (rr =? ev_error_offset_too_big ev)
       && negb (rr =? ev_error_illegal_transport_extension ev)
    then ret rr
    else pq (PqResetStream cnx stream_id code)
  else pq (PqResetStream cnx stream_id code).

Definition aiopquic_deferred_reset_free (d : deferred_reset) : M unit :=
  upd_sc (d_sc d) (sc_set_tx_reset_pending 0) ;;
  on_sc (aiopquic_stream_ctx_destroy (d_sc d)).

(** The walk of [aiopquic_deferred_resets_drop_cnx]: [kept] lies before [pp]. *)
Fixpoint drop_walk (kept ds : list deferred_reset) (cnx : Z) : M unit :=
  match ds with
  | [] => ret tt
  | d :: ds =>
      if d_cnx d =? cnx then
        setb (b_set_deferred_resets (kept ++ ds)) ;;
        aiopquic_deferred_reset_free d ;;
        drop_walk kept ds cnx
      else drop_walk (kept ++ [d]) ds cnx
  end.

Definition aiopquic_deferred_resets_drop_cnx (cnx : Z) : M unit :=
  ds ← getb b_deferred_resets; drop_walk [] ds cnx.

Definition aiopquic_defer_reset (cnx sc stream_id code reliable preamble : Z) (is_wt : Z)
    : M Z :=
  t ← next_tick;
  if negb (ev_ok ev t) then ret (-1)
  else
    on_sc (aiopquic_stream_ctx_ref sc) ;;
    upd_sc sc (λ c, sc_set_tx_reliable_size reliable (sc_set_tx_reset_pending 1 c)) ;;
    let d := DeferredReset cnx sc stream_id code preamble (u8 is_wt) in
    setb (λ b, b_set_deferred_resets (d :: b_deferred_resets b) b) ;;
    ret 0.

(** ** Close reasons *)

(** A C string in a buffer of at least its length. *)
Fixpoint c_str (bs : list Z) : list Z :=
  match bs with [] => [] | b :: bs => if b =? 0 then [] else b :: c_str bs end.

Fixpoint find_reason (rs : list (Z * list Z)) (cnx : Z) : option (list Z) :=
  match rs with
  | [] => None
  | (c, text) :: rs => if c =? cnx then Some text else find_reason rs cnx
  end.

(** [data]: the bytes of the entry's payload, [None] for a null pointer.  The
    text held is [data] and a terminating zero. *)
Definition aiopquic_close_reason_hold (cnx : Z) (data : option (list Z)) (len : Z)
    : M (option (list Z)) :=
  match data with
  | None => ret None
  | Some bs =>
      if len =? 0 then ret None
      else
        rs ← getb b_close_reasons;
        match find_reason rs cnx with
        | Some text => ret (Some text)
        | None =>
            t ← next_tick;
            if negb (ev_ok ev t) then ret None
            else
              let text := take (Z.to_nat len) bs ++ [0] in
              setb (λ b, b_set_close_reasons ((cnx, text) :: b_close_reasons b) b) ;;
              ret (Some text)
        end
  end.

(** The first entry of [cnx] unlinked. *)
Fixpoint drop_reason (rs : list (Z * list Z)) (cnx : Z) : list (Z * list Z) :=
  match rs with
  | [] => []
  | (c, text) :: rs => if c =? cnx then rs else (c, text) :: drop_reason rs cnx
  end.

Definition aiopquic_close_reason_drop (cnx : Z) : M unit :=
  setb (λ b, b_set_close_reasons (drop_reason (b_close_reasons b) cnx) b).

(** ** The state of a connection, as sent to asyncio *)

Definition aiopquic_datagram_payload_ceiling (cnx : Z) : M Z :=
  if cnx =? 0 then ret 0
  else
    lt ← pq (PqGetTransportParameters cnx true);
    rt ← pq (PqGetTransportParameters cnx false);
    if (lt =? 0) || (rt =? 0) then ret 0
    else
      cap ← pq (PqTpRead cnx true TpMaxDatagramFrameSize);
      r ← pq (PqTpRead cnx false TpMaxDatagramFrameSize);
      let cap := if r <? cap then r else cap in
      if cap =? 0 then ret 0
      else ret (if cap >? 1200 then 1200 else cap).

Definition aiopquic_initial_rx_window (cnx stream_id : Z) : M Z :=
  tp ← pq (PqGetTransportParameters cnx true);
  if tp =? 0 then ret 0
  else if negb (Z.land stream_id 2 =? 0) then pq (PqTpRead cnx true TpInitialMaxStreamDataUni)
  else
    c ← pq (PqIsClient cnx);
    let local := Z.land stream_id 1 =? (if negb (c =? 0) then 0 else 1) in
    pq (PqTpRead cnx true (if local then TpInitialMaxStreamDataBidiLocal
                           else TpInitialMaxStreamDataBidiRemote)).

Definition ntohs (x : Z) : Z := Z.lor (Z.shiftr x 8) (u16 (Z.shiftl x 8)).

Definition aiopquic_addr_fill (sa : sockaddr) (a : addr) : addr :=
  match sa with
  | SaNull => a
  | SaInet port bs => Addr 4 (ntohs port) (bs ++ drop (length bs) (a_addr a))
  | SaInet6 port bs => Addr 6 (ntohs port) (bs ++ drop (length bs) (a_addr a))
  | SaOther => a
  end.

Definition addr0 : addr := Addr 0 0 (replicate 16 0).

Definition aiopquic_cnx_snapshot_fill (cnx : Z) : M cnx_snapshot :=
  alpn ← gets (λ w, ev_alpn ev (w_trace w) cnx);
  lt ← pq (PqGetTransportParameters cnx true);
  rt ← pq (PqGetTransportParameters cnx false);
  tl ← (if lt =? 0 then ret 0 else pq (PqTpCopy cnx true));
  tr ← (if rt =? 0 then ret 0 else pq (PqTpCopy cnx false));
  ceiling ← aiopquic_datagram_payload_ceiling cnx;
  cl ← pq (PqGetLocalCnxid cnx);
  cr ← pq (PqGetRemoteCnxid cnx);
  ci ← pq (PqGetInitialCnxid cnx);
  quality ← pq (PqGetDefaultPathQuality cnx);
  sent ← pq (PqGetDataSent cnx);
  received ← pq (PqGetDataReceived cnx);
  psk ← pq (PqTlsIsPskHandshake cnx);
  peer ← gets (λ w, ev_peer_addr ev (w_trace w) cnx);
  local ← gets (λ w, ev_local_addr ev (w_trace w) cnx);
  ret {| sn_alpn := match alpn with Some s => take 31 s | None => [] end;
         sn_has_tp_local := c_bool (negb (lt =? 0));
         sn_has_tp_remote := c_bool (negb (rt =? 0));
         sn_dgram_ceiling := ceiling;
         sn_tp_local := tl; sn_tp_remote := tr;
         sn_cid_local := cl; sn_cid_remote := cr; sn_cid_initial := ci;
         sn_path_quality := quality; sn_data_sent := sent; sn_data_received := received;
         sn_peer_addr := aiopquic_addr_fill peer addr0;
         sn_local_addr := aiopquic_addr_fill local addr0;
         sn_session_resumed := c_bool (negb (psk =? 0)) |}.

(** ** Waking the worker *)

Definition aiopquic_tx_wake_needed : M bool :=
  idle ← getb b_tx_worker_idle;
  if idle =? 0 then count CNT_WAKE_SKIPPED_COALESCED ;; ret false
  else
    was ← getb b_tx_worker_idle;
    setb (b_set_tx_worker_idle 0) ;;
    if was =? 0 then count CNT_WAKE_SKIPPED_COALESCED ;; ret false
    else count CNT_WAKE_CALLS ;; ret true.

Definition aiopquic_tx_worker_idle_arm : M bool :=
  setb (b_set_tx_worker_idle 1) ;;
  e ← tx_ring_peek;
  match e with
  | None => ret false
  | Some _ => setb (b_set_tx_worker_idle 0) ;; ret true
  end.

(** ** The TX ring's drain signal *)

Definition aiopquic_arm_tx_event_ring_drain_pending : M bool :=
  count CNT_TX_EVENT_RING_ARMS ;;
  now ← aiopquic_now_ns;
  set_cnt LAST_TX_EVENT_RING_ARM_NS now ;;
  setb (b_set_tx_event_ring_drain_pending 1) ;;
  getb (λ b, spsc_ring_count (b_tx_event_ring b) >? b_tx_event_ring_low_water b).

Definition aiopquic_clear_tx_event_ring_drain_pending : M unit :=
  setb (b_set_tx_event_ring_drain_pending 0).

Definition aiopquic_maybe_fire_tx_event_ring_drained : M unit :=
  pending ← getb b_tx_event_ring_drain_pending;
  if negb (pending =? 1) then ret tt
  else
    n ← getb (λ b, spsc_ring_count (b_tx_event_ring b));
    low ← getb b_tx_event_ring_low_water;
    if n >? low then ret tt
    else
      expected ← getb b_tx_event_ring_drain_pending;
      if negb (expected =? 1) then ret tt
      else
        setb (b_set_tx_event_ring_drain_pending 0) ;;
        rc ← aiopquic_rx_push (event_entry SPSC_EVT_TX_EVENT_RING_DRAINED 0 0 0) [];
        if rc =? 0 then
          count CNT_TX_EVENT_RING_FIRES ;;
          now ← aiopquic_now_ns;
          set_cnt LAST_TX_EVENT_RING_FIRE_NS now
        else
          count CNT_TX_EVENT_RING_FIRE_DROPPED ;;
          setb (b_set_tx_event_ring_drain_pending 1).

Definition aiopquic_tx_event_ring_drained_final : M unit :=
  aiopquic_maybe_fire_tx_event_ring_drained.

(** ** Flow-control credit *)

(** [event_entry] with a context. *)
Definition sc_entry (event_type stream_id cnx stream_ctx error_code : Z) : spsc_entry :=
  {| e_stream_id := stream_id; e_event_type := event_type; e_data_length := 0;
     e_is_fin := 0; e_aux := 0; e_data_buf := 0; e_cnx := cnx; e_stream_ctx := stream_ctx;
     e_error_code := error_code |}.

Definition wake_up_worker : M unit :=
  t ← getb b_thread_ctx; pq_ (PqWakeUpNetworkThread t).

Definition aiopquic_push_fc_credit (cnx stream_id sc : Z) : M unit :=
  if (cnx =? 0) || (sc =? 0) then ret tt
  else
    on_sc (aiopquic_stream_ctx_ref sc) ;;
    count CNT_SC_REF_FC_CREDIT ;;
    rc ← tx_ring_push (sc_entry SPSC_EVT_TX_OPEN_FLOW_CONTROL stream_id cnx sc 0) [];
    if rc =? 0 then
      count CNT_TX_EVENT_RING_PUSHES ;;
      count CNT_FC_CREDIT_PUSHED ;;
      t ← getb b_thread_ctx;
      if t =? 0 then ret tt
      else n ← aiopquic_tx_wake_needed; when n wake_up_worker
    else
      count CNT_FC_CREDIT_DROPPED ;;
      count CNT_SC_DESTROY_FC_CREDIT_PUSHFAIL ;;
      on_sc (aiopquic_stream_ctx_destroy sc).

(** ** Releasing datagram rings *)

Definition table_op {A} (f : dgram_table -> ring_store -> option (A * dgram_table * ring_store))
    : M A :=
  λ w, '(x, t, st) ← f (b_dgram_table (w_ctx w)) (w_rs w);
       Some (x, w_set_rs st (w_set_ctx (b_set_dgram_table t (w_ctx w)) w)).

Definition table_remove_ring (cnx db : Z) : M unit :=
  table_op (λ t st, '(t, st) ← aiopquic_dgram_table_remove_ring t st cnx db; Some (tt, t, st)).
Definition table_remove (cnx : Z) : M unit :=
  table_op (λ t st, '(t, st) ← aiopquic_dgram_table_remove t st cnx; Some (tt, t, st)).
Definition table_put (cnx db : Z) : M Z :=
  t ← next_tick; table_op (λ tb st, aiopquic_dgram_table_put (ev_ok ev t) tb st cnx db).

Definition aiopquic_dgram_ring_drop (cnx db : Z) : M unit :=
  table_remove_ring cnx db ;; on_rs (λ st, rs_unref st db).

Definition aiopquic_dgram_ring_release_post (cnx db : Z) : M Z :=
  rc ← tx_ring_push (sc_entry SPSC_EVT_TX_DGRAM_RING_RELEASE 0 cnx db 0) [];
  if negb (rc =? 0) then ret (-1)
  else
    count CNT_TX_EVENT_RING_PUSHES ;;
    n ← aiopquic_tx_wake_needed;
    when n wake_up_worker ;;
    ret 0.

(** The posts of one round: how many of [owed] went out. *)
Fixpoint post_owed (owed : list (Z * Z)) : M nat :=
  match owed with
  | [] => ret O
  | (cnx, db) :: owed =>
      rc ← aiopquic_dgram_ring_release_post cnx db;
      if rc =? 0 then n ← post_owed owed; ret (S n) else ret O
  end.

(** The [for (;;)] of the flush, [fuel] rounds. *)
Fixpoint flush_loop (fuel : nat) : M unit :=
  match fuel with
  | O => ub
  | S fuel =>
      owed ← getb b_dgram_release_owed;
      i ← post_owed owed;
      setb (b_set_dgram_release_owed (drop i owed)) ;;
      if (length owed =? i)%nat then ret tt
      else
        wait ← aiopquic_arm_tx_event_ring_drain_pending;
        if (wait : bool) then ret tt else flush_loop fuel
  end.

Definition aiopquic_dgram_ring_release_flush : M unit :=
  t ← getb b_thread_ctx;
  if t =? 0 then ret tt
  else owed ← getb b_dgram_release_owed; flush_loop (S (S (length owed))).

Definition aiopquic_dgram_ring_release (cnx db : Z) : M unit :=
  if db =? 0 then ret tt
  else
    t ← getb b_thread_ctx;
    if t =? 0 then on_rs (λ st, rs_unref st db)
    else
      rc ← aiopquic_dgram_ring_release_post cnx db;
      if rc =? 0 then ret tt
      else
        owed ← getb b_dgram_release_owed;
        cap ← getb b_dgram_release_owed_cap;
        ok ← (if zlen owed =? cap then
                tk ← next_tick;
                if ev_ok ev tk then
                  setb (b_set_dgram_release_owed_cap (if negb (cap =? 0) then u32 (2 * cap) else 8)) ;;
                  ret true
                else ret false
              else ret true);
        if (ok : bool) then
          setb (b_set_dgram_release_owed (owed ++ [(cnx, db)])) ;;
          aiopquic_dgram_ring_release_flush
        else ret tt.

Fixpoint dgram_sweep (n : nat) (i : Z) : M unit :=
  match n with
  | O => ret tt
  | S n =>
      e ← tx_slot i;
      when ((e_event_type e =? SPSC_EVT_TX_DGRAM_RING_RELEASE) && negb (e_stream_ctx e =? 0))
        (aiopquic_dgram_ring_drop (e_cnx e) (e_stream_ctx e) ;; tx_slot_clear_ctx i) ;;
      dgram_sweep n (u64 (i + 1))
  end.

Fixpoint drop_owed (owed : list (Z * Z)) : M unit :=
  match owed with
  | [] => ret tt
  | (cnx, db) :: owed => aiopquic_dgram_ring_drop cnx db ;; drop_owed owed
  end.

Definition aiopquic_dgram_ring_release_undrained : M unit :=
  r ← getb b_tx_event_ring;
  dgram_sweep (Z.to_nat (r_tail r - r_head r)) (r_head r) ;;
  owed ← getb b_dgram_release_owed;
  drop_owed owed ;;
  setb (b_set_dgram_release_owed []).

(** ** The life of a bridge *)

Fixpoint free_deferred (ds : list deferred_reset) : M unit :=
  match ds with
  | [] => ret tt
  | d :: ds => setb (b_set_deferred_resets ds) ;; aiopquic_deferred_reset_free d ;; free_deferred ds
  end.

Fixpoint unref_owed (owed : list (Z * Z)) : M unit :=
  match owed with
  | [] => ret tt
  | (_, db) :: owed => on_rs (λ st, rs_unref st db) ;; unref_owed owed
  end.

Definition on_heap (f : bridge -> heap -> option heap) : M unit :=
  λ w, h ← f (w_ctx w) (w_heap w); Some (tt, w_set_heap h w).

(** Destroying frees the bridge: what is left of [w_ctx] is not read again. *)
Definition aiopquic_ctx_destroy : M unit :=
  (λ w, '(o, h) ← spsc_overflow_destroy (b_rx_overflow (w_ctx w)) (w_heap w);
        Some (tt, w_set_heap h (w_set_ctx (b_set_rx_overflow o (w_ctx w)) w)) : option (unit * world)) ;;
  on_heap (λ b, spsc_ring_destroy (b_rx_event_ring b)) ;;
  on_heap (λ b, spsc_ring_destroy (b_tx_event_ring b)) ;;
  table_op (λ t st, '(t, st) ← aiopquic_dgram_table_destroy t st; Some (tt, t, st)) ;;
  ds ← getb b_deferred_resets;
  free_deferred ds ;;
  setb (b_set_close_reasons []) ;;
  owed ← getb b_dgram_release_owed;
  unref_owed owed ;;
  setb (b_set_alpn_list None).
End ops.

Definition AIOPQUIC_RX_DATA_RING_CAP_DEFAULT : Z := 2 ^ 22.
Definition AIOPQUIC_TX_EVENT_RING_CAP_DEFAULT : Z := 2048.
Definition AIOPQUIC_RX_EVENT_RING_CAP_DEFAULT : Z := 16384.
Definition AIOPQUIC_TX_RING_WAKE_PCT_DEFAULT : Z := 50.

Definition is_digit (c : ascii) : bool :=
  (48 <=? Z.of_nat (nat_of_ascii c)) && (Z.of_nat (nat_of_ascii c) <=? 57).
Definition is_space (c : ascii) : bool :=
  let n := Z.of_nat (nat_of_ascii c) in (n =? 32) || ((9 <=? n) && (n <=? 13)).

Fixpoint atoi_digits (acc : Z) (s : string) : Z :=
  match s with
  | String c s =>
      if is_digit c then atoi_digits (10 * acc + (Z.of_nat (nat_of_ascii c) - 48)) s else acc
  | EmptyString => acc
  end.

(** [atoi]: white space, a sign, digits. *)
Fixpoint atoi (s : string) : Z :=
  match s with
  | String c s' =>
      if is_space c then atoi s'
      else if Ascii.eqb c "-" then - atoi_digits 0 s'
      else if Ascii.eqb c "+" then atoi_digits 0 s'
      else atoi_digits 0 s
  | EmptyString => 0
  end.

(** What the calls of one [aiopquic_ctx_create] meet. *)
Record ctx_alloc := CtxAlloc {
  ca_ctx : bool;
  ca_rx_ring : bool;
  ca_rx_entries : bool;
  ca_tx_ring : bool;
  ca_tx_entries : bool;
  ca_eventfd : bool;             (** [eventfd] / [pipe] succeeds *)
  ca_wake_pct : option string    (** getenv AIOPQUIC_TX_RING_WAKE_PCT *)
}.

Definition tx_low_water (a : ctx_alloc) (tx_cap low_water_pct : Z) : Z :=
  let pct :=
    match ca_wake_pct a with
    | Some (String _ _ as s) =>
        let v := atoi s in if (v >? 0) && (v <? 100) then v else low_water_pct
    | _ => low_water_pct
    end in
  u32 (tx_cap * pct) / 100.

Definition aiopquic_ctx_create (a : ctx_alloc) (tx_cap rx_cap low_water_pct : Z)
    : option bridge :=
  let tx_cap := if tx_cap =? 0 then AIOPQUIC_TX_EVENT_RING_CAP_DEFAULT else tx_cap in
  let rx_cap := if rx_cap =? 0 then AIOPQUIC_RX_EVENT_RING_CAP_DEFAULT else rx_cap in
  let low_water_pct := if (low_water_pct =? 0) || (low_water_pct >=? 100)
                       then AIOPQUIC_TX_RING_WAKE_PCT_DEFAULT else low_water_pct in
  if negb (ca_ctx a) then None
  else
    match spsc_ring_create (ca_rx_ring a) (ca_rx_entries a) rx_cap,
          spsc_ring_create (ca_tx_ring a) (ca_tx_entries a) tx_cap with
    | Some rx, Some tx =>
        if negb (ca_eventfd a) then None
        else
          Some {| b_rx_event_ring := rx; b_tx_event_ring := tx;
                  b_rx_overflow := spsc_overflow_init; b_quic := 0; b_thread_ctx := 0;
                  b_rx_data_ring_cap := 0; b_rx_notify_pending := 0;
                  b_last_rx_notify_errno := 0; b_worker_trace := wake_trace0;
                  b_asyncio_trace := wake_trace0; b_tx_worker_idle := 0;
                  b_tx_event_ring_drain_pending := 0;
                  b_tx_event_ring_low_water := tx_low_water a tx_cap low_water_pct;
                  b_keep_alive_us := 0; b_alpn_list := None; b_dgram_table := dgram_table0;
                  b_dgram_release_owed := []; b_dgram_release_owed_cap := 0;
                  b_deferred_resets := []; b_deferred_resets_swept := 0;
                  b_tx_worker_armed_at := 0; b_close_reasons := [];
                  b_wt_supported_protocols := None; b_dual_wt_params := 0; b_cnt := λ _, 0 |}
    | _, _ => None
    end.

(** ** A concrete world, for evaluation *)

(** An address above [lo] and above every key. *)
Definition fresh_addr {A} (lo : Z) (m : gmap Z A) : Z :=
  1 + foldr (λ kv n, Z.max kv.1 n) lo (map_to_list m).

(** Connections 100 and 101 live, every picoquic call answers 0 unless [answer]
    says otherwise, allocations succeed at fresh addresses. *)
Definition demo_env (answer : pq_call -> Z) : env := {|
  ev_pq := λ _ c, answer c;
  ev_cnxs := λ _, [100; 101];
  ev_reason := λ _ _, None;
  ev_error_name := λ _, None;
  ev_alpn := λ _ _, None;
  ev_peer_addr := λ _ _, SaNull;
  ev_local_addr := λ _ _, SaNull;
  ev_snapshot := λ s, [sn_has_tp_local s; sn_dgram_ceiling s];
  ev_alloc := λ _ h, PushAlloc (fresh_addr 1000 h) true (fresh_addr 1000 h);
  ev_buf := λ _ capacity, BufAlloc None true
              (Some (replicate (Z.to_nat (aiopquic_ceil_pow2_u32 capacity)) 0));
  ev_sc := λ _ scs, fresh_addr 5000 scs;
  ev_ok := λ _, true;
  ev_h3 := λ _ _ m, m;
  ev_capsule := λ _ _ c, c;
  ev_deregisters := λ _ _, [];
  ev_wt := λ _ objs, fresh_addr 9000 objs;
  ev_now := λ t, Z.of_nat t;
  ev_errno := λ _, 0;
  ev_getenv := λ _, None;
  ev_is_client_stream_id := λ id, Z.land id 1 =? 0;
  ev_is_bidir_stream_id := λ id, Z.land id 2 =? 0;
  ev_state_disconnecting := 11;
  ev_error_offset_too_big := 1070;
  ev_error_illegal_transport_extension := 1071;
  ev_error_invalid_stream_id := 1072;
  ev_error_memory := 1029;
  ev_storage_len := 128
|}.

Definition demo_alloc : ctx_alloc := CtxAlloc true true true true true true None.

(** A fresh bridge with rings of 8 and 4 slots; the network thread runs. *)
Definition demo_world : option world :=
  b ← aiopquic_ctx_create demo_alloc 8 4 50;
  Some (World (b_set_thread_ctx 77 (b_set_rx_data_ring_cap 64 b)) sc_world0
          (RingStore ∅ 0) ∅ 0 (-1) (-1) 0 [] wt_state0).
