(* ===== verification/Alpn.v ===== *)
(** * ALPN lists (callback.h)

    The tokenizer of the ALPN allowlist, the list it builds on the bridge, and the
    server's selection.  C strings are byte lists without their terminator.  The
    theorems: the tokenizer is "split at separators, strip the quotes", selection
    follows the server's order of preference. *)
From S2P Require Import Prelude Ring Store StreamBuf SpscRing DgramBuf DgramTable StreamCtx WtState Bridge.

(** ** Tokens *)

Definition is_sep (c : Z) : bool := (c =? 32) || (c =? 9) || (c =? 44).
Definition is_quote (c : Z) : bool := c =? 34.

Fixpoint skip_seps (p : list Z) : list Z :=
  match p with c :: p' => if is_sep c then skip_seps p' else p | [] => [] end.

(** The token loop: [out] holds the [n] bytes copied so far. *)
Fixpoint token_loop (outsz : Z) (p : list Z) (n : Z) (out : list Z) : Z * list Z * list Z :=
  match p with
  | [] => (n, out, [])
  | c :: p' =>
      if is_sep c then (n, out, p)
      else if negb (is_quote c) && (n + 1 <? outsz) then token_loop outsz p' (n + 1) (out ++ [c])
      else token_loop outsz p' n out
  end.

(** The token's length, its bytes, the cursor behind it. *)
Definition aiopquic_alpn_next_token (outsz : Z) (cursor : list Z) : Z * list Z * list Z :=
  token_loop outsz (skip_seps cursor) 0 [].

(** ** The list on the bridge *)

Section list.
Context (ev : env).

(** The token loop of [aiopquic_ctx_set_alpn_list], [room] slots left; [None]: an
    allocation failed. *)
Fixpoint alpn_tokens (room : nat) (cursor : list Z) (arr : list (list Z))
    : M (option (list (list Z))) :=
  match room with
  | O => ret (Some arr)
  | S room =>
      let '(tlen, tok, cursor) := aiopquic_alpn_next_token 256 cursor in
      if tlen >? 0 then
        t ← next_tick;
        if negb (ev_ok ev t) then ret None else alpn_tokens room cursor (arr ++ [tok])
      else ret (Some arr)
  end.

Definition aiopquic_ctx_set_alpn_list (csv : option (list Z)) : M unit :=
  setb (b_set_alpn_list None) ;;
  match csv with
  | None | Some [] => ret tt
  | Some csv =>
      t ← next_tick;
      if negb (ev_ok ev t) then ret tt
      else
        arr ← alpn_tokens (S (length csv)) csv [];
        match arr with
        | None | Some [] => ret tt
        | Some arr => setb (b_set_alpn_list (Some arr))
        end
  end.
End list.

(** ** Selection *)

(** The scan of the client's list for one of our names. *)
Fixpoint find_offer (offers : list (list Z)) (name : list Z) (i : Z) : option Z :=
  match offers with
  | [] => None
  | o :: offers =>
      if (zlen o =? zlen name) && bool_decide (o = name) then Some i
      else find_offer offers name (i + 1)
  end.

Fixpoint select_loop (names offers : list (list Z)) : Z :=
  match names with
  | [] => zlen offers
  | name :: names =>
      match find_offer offers name 0 with Some i => i | None => select_loop names offers end
  end.

Definition aiopquic_alpn_select_cb (bridge : option bridge) (offers : list (list Z)) : Z :=
  match bridge with
  | None => zlen offers
  | Some b => match b_alpn_list b with
              | None => zlen offers
              | Some names => select_loop names offers
              end
  end.

(** ** What a list should parse to *)

(** Maximal runs of bytes that are not separators, empty ones included. *)
Fixpoint split_seps (p : list Z) : list (list Z) :=
  match p with
  | [] => [[]]
  | c :: p =>
      if is_sep c then [] :: split_seps p
      else match split_seps p with w :: ws => (c :: w) :: ws | [] => [[c]] end
  end.

Definition nonempty {A} (l : list A) : bool := match l with [] => false | _ => true end.
Definition words (p : list Z) : list (list Z) := List.filter nonempty (split_seps p).

(** A word without its quotes, cut to the token buffer. *)
Definition unquote (w : list Z) : list Z := take 255 (List.filter (λ c, negb (is_quote c)) w).

Fixpoint take_while {A} (f : A -> bool) (l : list A) : list A :=
  match l with x :: l => if f x then x :: take_while f l else [] | [] => [] end.

(** The names in a list: parsing stops at a word that is only quotes. *)
Definition alpn_names (csv : list Z) : list (list Z) := take_while nonempty (map unquote (words csv)).

(** ** The tokenizer *)

Fixpoint word_of (p : list Z) : list Z :=
  match p with c :: p => if is_sep c then [] else c :: word_of p | [] => [] end.
Fixpoint after_word (p : list Z) : list Z :=
  match p with c :: p' => if is_sep c then p else after_word p' | [] => [] end.

Lemma token_loop_spec outsz p : ∀ n out, 0 <= n < outsz ->
  let tok := take (Z.to_nat (outsz - 1 - n)) (List.filter (λ c, negb (is_quote c)) (word_of p)) in
  token_loop outsz p n out = (n + zlen tok, out ++ tok, after_word p).
Proof.
  induction p as [|c p IH]; intros n out Hn; cbn [token_loop word_of after_word List.filter].
  { by rewrite take_nil, Z.add_0_r, app_nil_r. }
  destruct (is_sep c); cbn [List.filter].
  { by rewrite take_nil, Z.add_0_r, app_nil_r. }
  destruct (is_quote c); cbn [negb andb]; [by apply IH|].
  destruct (Z.ltb_spec (n + 1) outsz).
  - rewrite IH by lia. replace (Z.to_nat (outsz - 1 - n)) with (S (Z.to_nat (outsz - 1 - (n + 1)))) by lia.
    cbn [take length]. rewrite <- app_assoc. cbn [app]. f_equal. f_equal. lia.
  - rewrite IH by lia. replace (Z.to_nat (outsz - 1 - n)) with O by lia.
    by rewrite !take_0.
Qed.

Lemma skip_seps_first p : match skip_seps p with c :: _ => is_sep c = false | [] => True end.
Proof. induction p as [|c p IH]; cbn; [done|]. destruct (is_sep c) eqn:E; [done|by rewrite E]. Qed.

Lemma next_token_spec p :
  aiopquic_alpn_next_token 256 p
  = (zlen (unquote (word_of (skip_seps p))), unquote (word_of (skip_seps p)),
     after_word (skip_seps p)).
Proof. unfold aiopquic_alpn_next_token. by rewrite token_loop_spec. Qed.

Lemma split_seps_word p : split_seps p = word_of p ::
  match after_word p with [] => [] | _ :: q => split_seps q end.
Proof.
  induction p as [|c p IH]; [done|]. cbn [split_seps word_of after_word].
  destruct (is_sep c); [done|]. by rewrite IH.
Qed.

Lemma words_skip p : words p = words (skip_seps p).
Proof.
  induction p as [|c p IH]; [done|]. cbn [skip_seps]. destruct (is_sep c) eqn:E; [|done].
  rewrite <- IH. unfold words. cbn [split_seps]. by rewrite E.
Qed.

Lemma words_unfold p : words p =
  match skip_seps p with [] => [] | q => word_of q :: words (after_word q) end.
Proof.
  rewrite words_skip. pose proof (skip_seps_first p) as Hs. destruct (skip_seps p) as [|c q]; [done|].
  unfold words at 1. rewrite split_seps_word. cbn [word_of after_word]. rewrite Hs.
  cbn [List.filter nonempty]. f_equal.
  destruct (after_word q) as [|c' q'] eqn:Ea; [done|].
  assert (Hc : is_sep c' = true).
  { clear -Ea. induction q as [|d q IH]; [done|]. cbn in Ea. destruct (is_sep d) eqn:E; [congruence|auto]. }
  unfold words. cbn [split_seps]. by rewrite Hc.
Qed.

Lemma after_word_length p : (length (after_word p) <= length p)%nat.
Proof. induction p as [|c p IH]; [done|]. cbn. destruct (is_sep c); cbn; lia. Qed.

Lemma skip_seps_length p : (length (skip_seps p) <= length p)%nat.
Proof. induction p as [|c p IH]; [done|]. cbn. destruct (is_sep c); cbn; lia. Qed.

(** ** The list built *)

Section spec.
Context (ev : env).

(** Only the allocation clock moved. *)
Definition ticked (w w' : world) : Prop := ∃ t, w' = w_set_tick t w.

Lemma alpn_tokens_spec room : ∀ cursor arr w, (length cursor < room)%nat ->
  ∃ r w', alpn_tokens ev room cursor arr w = Some (r, w') ∧ ticked w w' ∧
    (r = Some (arr ++ alpn_names cursor) ∨ (r = None ∧ ∃ t, ev_ok ev t = false)).
Proof.
  induction room as [|room IH]; intros cursor arr w Hlen; [lia|].
  cbn [alpn_tokens]. rewrite next_token_spec. unfold alpn_names. rewrite words_unfold.
  pose proof (skip_seps_length cursor) as Hs. pose proof (skip_seps_first cursor) as Hf.
  assert (Tw : ticked w w) by (exists (w_tick w); by destruct w).
  destruct (skip_seps cursor) as [|c q].
  { eexists _, w. cbn. rewrite app_nil_r. split; [reflexivity|]. auto. }
  cbn [map take_while]. set (tok := unquote (word_of (c :: q))).
  rewrite Z.gtb_ltb. destruct (Z.ltb_spec 0 (zlen tok)) as [Ht|Ht].
  2: { destruct tok; [|cbn in Ht; lia]. eexists _, w. cbn. rewrite app_nil_r.
       split; [reflexivity|]. auto. }
  unfold mbind, M_bind, bind, next_tick, ret. destruct (ev_ok ev (w_tick w)) eqn:Eo; cbn [negb].
  - destruct (IH (after_word (c :: q)) (arr ++ [tok]) (w_set_tick (S (w_tick w)) w))
      as (r & w' & -> & [t ->] & Hr).
    { cbn [after_word]. rewrite Hf. pose proof (after_word_length q). cbn in Hs. lia. }
    eexists _, _. split; [done|]. split; [by exists t|]. destruct Hr as [->|Hr]; [left|by right].
    rewrite <- app_assoc. destruct tok; [cbn in Ht; lia|done].
  - eexists _, _. split; [reflexivity|]. split; [by eexists|]. right. eauto.
Qed.

Lemma alpn_list_spec csv w :
  ∃ w' r, aiopquic_ctx_set_alpn_list ev csv w = Some (tt, w') ∧
    ticked (w_set_ctx (b_set_alpn_list r (w_ctx w)) w) w' ∧
    let names := match csv with Some csv => alpn_names csv | None => [] end in
    (r = (if nonempty names then Some names else None) ∨
     (r = None ∧ ∃ t, ev_ok ev t = false)).
Proof.
  unfold aiopquic_ctx_set_alpn_list, setb, mbind, M_bind, bind, ret, next_tick. cbn [w_ctx].
  assert (Tw : ∀ w, ticked w w) by (intros v; exists (w_tick v); by destruct v).
  destruct csv as [[|c csv]|].
  1, 3: eexists _, None; split; [reflexivity|]; split; [by apply Tw|by left].
  set (v := w_set_ctx _ w). destruct (ev_ok ev (w_tick v)) eqn:Eo; cbn [negb].
  2: { eexists _, None. split; [reflexivity|]. split; [by eexists|]. eauto. }
  destruct (alpn_tokens_spec (S (length (c :: csv))) (c :: csv) [] (w_set_tick (S (w_tick v)) v))
    as (r & w' & -> & [t ->] & Hr); [lia|]. cbn [app] in Hr.
  destruct Hr as [->|[-> Hf]].
  - destruct (alpn_names (c :: csv)) as [|n ns].
    + eexists _, None. split; [reflexivity|]. split; [by exists t|by left].
    + eexists _, (Some (n :: ns)). split; [reflexivity|]. split; [by exists t|by left].
  - eexists _, None. split; [reflexivity|]. split; [by exists t|]. eauto.
Qed.

(** C26. Parsing an ALPN list stores on the bridge exactly its words, quotes removed
    and cut to 255 bytes, up to a word made of quotes only; an empty result and a
    failed allocation both leave no list, never part of one, and nothing else of
    the bridge changes. *)
Theorem alpn_list_is_names csv w :
  ∃ w' r, aiopquic_ctx_set_alpn_list ev csv w = Some (tt, w') ∧
    ticked (w_set_ctx (b_set_alpn_list r (w_ctx w)) w) w' ∧
    let names := match csv with Some csv => alpn_names csv | None => [] end in
    (r = (if nonempty names then Some names else None) ∨
     (r = None ∧ ∃ t, ev_ok ev t = false)).
Proof. apply alpn_list_spec. Qed.
End spec.

(** ** Round trip *)

Definition name_ok (s : list Z) : Prop :=
  0 < zlen s <= 255 ∧ Forall (λ c, is_sep c = false ∧ is_quote c = false) s.

(** Names joined by commas. *)
Fixpoint join (names : list (list Z)) : list Z :=
  match names with [] => [] | [n] => n | n :: ns => n ++ 44 :: join ns end.

Lemma split_seps_name s p : Forall (λ c, is_sep c = false ∧ is_quote c = false) s ->
  split_seps (s ++ 44 :: p) = s :: split_seps p.
Proof.
  induction 1 as [|c s [Hc _] _ IH]; [done|]. cbn [app split_seps]. by rewrite Hc, IH.
Qed.

Lemma split_seps_last s : Forall (λ c, is_sep c = false ∧ is_quote c = false) s -> split_seps s = [s].
Proof. induction 1 as [|c s [Hc _] _ IH]; [done|]. cbn [split_seps]. by rewrite Hc, IH. Qed.

Lemma split_seps_join names : names <> [] -> Forall name_ok names -> split_seps (join names) = names.
Proof.
  intros Hne Hok. induction Hok as [|n ns [_ Hn] Hns IH]; [done|].
  destruct ns as [|n' ns]; [by apply split_seps_last|].
  change (join (n :: n' :: ns)) with (n ++ 44 :: join (n' :: ns)).
  by rewrite split_seps_name, IH.
Qed.

Lemma unquote_name s : name_ok s -> unquote s = s.
Proof.
  intros [Hl Hs]. unfold unquote.
  assert (E : List.filter (λ c, negb (is_quote c)) s = s).
  { clear Hl. induction Hs as [|c s [_ Hc] _ IH]; [done|]. cbn. by rewrite Hc, IH. }
  rewrite E. apply take_ge. lia.
Qed.

Lemma alpn_names_join names : Forall name_ok names -> alpn_names (join names) = names.
Proof.
  intros Hok. destruct (decide (names = [])) as [->|Hne]; [done|].
  unfold alpn_names, words. rewrite split_seps_join by done. clear Hne.
  induction Hok as [|n ns Hn Hns IH]; [done|]. cbn [List.filter].
  destruct n as [|c n0]; [destruct Hn as [? _]; cbn in *; lia|].
  cbn [nonempty map take_while]. rewrite unquote_name by done. cbn [nonempty]. by rewrite IH.
Qed.

(** A list of well-formed names written with commas is parsed back to itself, in
    order, when the allocations succeed. *)
Theorem alpn_list_roundtrip ev names w : (∀ t, ev_ok ev t = true) ->
  names <> [] -> Forall name_ok names ->
  ∃ w', aiopquic_ctx_set_alpn_list ev (Some (join names)) w = Some (tt, w') ∧
    b_alpn_list (w_ctx w') = Some names.
Proof.
  intros Ho Hne Hok.
  destruct (alpn_list_spec ev (Some (join names)) w) as (w' & r & -> & [t ->] & [->|[_ [t' Hf]]]).
  - eexists; split; [done|]. cbn. rewrite alpn_names_join by done. by destruct names.
  - by rewrite Ho in Hf.
Qed.

(** The bytes of "moqt-18" and of "moqt-16". *)
Definition moqt_18 : list Z := [109; 111; 113; 116; 45; 49; 56].
Definition moqt_16 : list Z := [109; 111; 113; 116; 45; 49; 54].

Definition demo_alpn_world : world := default (World (Bridge (SpscRing 0 0 0 0 0 [])
  (SpscRing 0 0 0 0 0 []) spsc_overflow_init 0 0 0 0 0 wake_trace0 wake_trace0 0 0 0 0 None
  dgram_table0 [] 0 [] 0 0 [] None 0 (λ _, 0)) sc_world0 (RingStore ∅ 0) ∅ 0 0 0 0 [] wt_state0)
  demo_world.

Lemma alpn_list_roundtrip_witness :
  ∃ w', aiopquic_ctx_set_alpn_list (demo_env (λ _, 0)) (Some (moqt_18 ++ 44 :: moqt_16))
          demo_alpn_world = Some (tt, w') ∧
    b_alpn_list (w_ctx w') = Some [moqt_18; moqt_16].
Proof.
  apply (alpn_list_roundtrip (demo_env (λ _, 0)) [moqt_18; moqt_16]); [done|done|].
  repeat constructor; cbn; try lia; reflexivity.
Defined.

(** ** Selection *)

Lemma find_offer_spec offers name : ∀ i,
  match find_offer offers name i with
  | Some r => i <= r < i + zlen offers ∧ offers !! Z.to_nat (r - i) = Some name ∧
      ∀ j, (j < Z.to_nat (r - i))%nat -> offers !! j <> Some name
  | None => name ∉ offers
  end.
Proof.
  induction offers as [|o offers IH]; intros i; cbn [find_offer]; [by intros ?%elem_of_nil|].
  destruct (bool_decide_reflect (o = name)) as [->|Hne].
  - rewrite Z.eqb_refl. cbn [andb length]. split; [lia|]. rewrite Z.sub_diag. split; [done|]. lia.
  - rewrite andb_false_r. specialize (IH (i + 1)). destruct (find_offer offers name (i + 1)) as [r|].
    + destruct IH as (Hr & E & Hj). cbn [length]. split; [lia|].
      replace (Z.to_nat (r - i)) with (S (Z.to_nat (r - (i + 1)))) by lia. split; [done|].
      intros [|j] Hlt; [cbn; congruence|]. cbn. apply Hj. lia.
    + apply not_elem_of_cons. split; [congruence|done].
Qed.

(** C27. The server selects the client's first offer of the most preferred name of its
    own list that the client offers at all, and rejects the handshake exactly when
    no name of its list is offered. *)
Theorem alpn_select_server_preference b names offers : b_alpn_list b = Some names ->
  let r := aiopquic_alpn_select_cb (Some b) offers in
  0 <= r <= zlen offers ∧
  (r = zlen offers ↔ ∀ name, name ∈ names -> name ∉ offers) ∧
  (r < zlen offers -> ∃ k name, names !! k = Some name ∧
     offers !! Z.to_nat r = Some name ∧
     (∀ j name', (j < k)%nat -> names !! j = Some name' -> name' ∉ offers) ∧
     (∀ j, (j < Z.to_nat r)%nat -> offers !! j <> Some name)).
Proof.
  intros E. cbn -[select_loop]. rewrite E. clear E b.
  induction names as [|name names IH]; cbn [select_loop].
  { split; [lia|]. split; [|lia]. split; [by intros _ n ?%elem_of_nil|done]. }
  pose proof (find_offer_spec offers name 0) as Hf. destruct (find_offer offers name 0) as [r|].
  - destruct Hf as (Hr & Eo & Hj). rewrite Z.sub_0_r in *. split; [lia|]. split.
    + split; [lia|]. intros Hn. exfalso. apply (Hn name); [by left|]. by eapply list_elem_of_lookup_2.
    + intros _. exists O, name. split_and!; try done. lia.
  - destruct IH as (Hr & Hiff & Hlt). split; [done|]. split.
    + rewrite Hiff. split.
      * intros Hn n [->|Hin]%elem_of_cons; [done|auto].
      * intros Hn n Hin. apply Hn. by right.
    + intros Hl. destruct (Hlt Hl) as (k & n & En & Eo & Hk & Hj). exists (S k), n.
      split_and!; try done. intros [|j] n' Hjk; cbn; [by intros [= <-]|]. apply Hk. lia.
Qed.

Lemma alpn_select_server_preference_witness :
  let b := b_set_alpn_list (Some [moqt_18; moqt_16]) (w_ctx demo_alpn_world) in
  aiopquic_alpn_select_cb (Some b) [moqt_16; moqt_18] = 1 ∧
  (1 = zlen [moqt_16; moqt_18] ↔ ∀ name, name ∈ [moqt_18; moqt_16] -> name ∉ [moqt_16; moqt_18]).
Proof.
  split; [vm_compute; reflexivity|].
  exact (proj1 (proj2 (alpn_select_server_preference
    (b_set_alpn_list (Some [moqt_18; moqt_16]) (w_ctx demo_alpn_world)) [moqt_18; moqt_16]
    [moqt_16; moqt_18] eq_refl))).
Defined.

(** A word that is only quotes ends the list: what follows it is not offered. *)
Theorem alpn_empty_quotes_end_list ev w : (∀ t, ev_ok ev t = true) ->
  ∃ w', aiopquic_ctx_set_alpn_list ev (Some (moqt_18 ++ [44; 34; 34; 44] ++ moqt_16)) w
      = Some (tt, w') ∧ b_alpn_list (w_ctx w') = Some [moqt_18].
Proof.
  intros Ho.
  destruct (alpn_list_spec ev (Some (moqt_18 ++ [44; 34; 34; 44] ++ moqt_16)) w)
    as (w' & r & -> & [t ->] & [->|[_ [t' Hf]]]); [by eexists|by rewrite Ho in Hf].
Qed.

Lemma alpn_empty_quotes_end_list_witness :
  ∃ w', aiopquic_ctx_set_alpn_list (demo_env (λ _, 0))
      (Some (moqt_18 ++ [44; 34; 34; 44] ++ moqt_16)) demo_alpn_world = Some (tt, w') ∧
    b_alpn_list (w_ctx w') = Some [moqt_18].
Proof. apply alpn_empty_quotes_end_list. done. Defined.
