(* ===== verification/Callback.v ===== *)
(** * The worker's callbacks (callback.h)

    [aiopquic_stream_cb], the callback picoquic makes for stream and connection
    events, [aiopquic_run_deferred_resets], and [aiopquic_loop_cb], the packet-loop
    callback that drains the TX event ring, one definition per event.  The
    WebTransport half of the dispatch is reached through the class [WtHandler]. *)
From S2P Require Import Prelude Ring Store StreamBuf SpscRing DgramBuf DgramTable StreamCtx Bridge.

(** ** Events of picoquic *)

Definition aiopquic_map_event (ev : call_back_event) : Z :=
  match ev with
  | picoquic_callback_stream_data => SPSC_EVT_STREAM_DATA
  | picoquic_callback_stream_fin => SPSC_EVT_STREAM_FIN
  | picoquic_callback_stream_reset => SPSC_EVT_STREAM_RESET
  | picoquic_callback_stop_sending => SPSC_EVT_STOP_SENDING
  | picoquic_callback_close => SPSC_EVT_CLOSE
  | picoquic_callback_application_close => SPSC_EVT_APP_CLOSE
  | picoquic_callback_ready => SPSC_EVT_READY
  | picoquic_callback_almost_ready => SPSC_EVT_ALMOST_READY
  | picoquic_callback_datagram => SPSC_EVT_DATAGRAM
  | picoquic_callback_datagram_acked => SPSC_EVT_DATAGRAM_ACKED
  | picoquic_callback_datagram_lost => SPSC_EVT_DATAGRAM_LOST
  | picoquic_callback_datagram_spurious => SPSC_EVT_DATAGRAM_ACKED
  | picoquic_callback_path_available => SPSC_EVT_PATH_AVAILABLE
  | picoquic_callback_path_suspended => SPSC_EVT_PATH_SUSPENDED
  | picoquic_callback_path_deleted => SPSC_EVT_PATH_DELETED
  | picoquic_callback_pacing_changed => SPSC_EVT_PACING_CHANGED
  | _ => -1
  end.

Definition is_event (e e' : call_back_event) : bool := bool_decide (e = e').

Definition AIOPQUIC_CLOSE_LOCAL : Z := 0x80.
Definition AIOPQUIC_TX_WAKE_LOST_US : Z := 50000.

(** [entry.is_fin = v], [entry.error_code = v], [entry.stream_ctx = v],
    [entry.data_length = v]. *)
Definition entry_set (stream_ctx error_code is_fin data_length : Z) (e : spsc_entry)
    : spsc_entry :=
  {| e_stream_id := e_stream_id e; e_event_type := e_event_type e;
     e_data_length := data_length; e_is_fin := is_fin; e_aux := e_aux e;
     e_data_buf := e_data_buf e; e_cnx := e_cnx e; e_stream_ctx := stream_ctx;
     e_error_code := error_code |}.

(** ** Ring operations on a wrapper *)

(** [aiopquic_stream_buf_pop(sc->tx, buf, n)], counted as pulled. *)
Definition sc_pop_tx (sc n : Z) : M (list Z) :=
  on_sc_val (λ s, c ← sw_scs s !! sc; tx ← sc_tx c;
    '(bs, tx) ← aiopquic_stream_buf_pop tx n;
    Some (bs, ScWorld (<[sc := sc_set_tx (Some tx) c]> (sw_scs s))
                (aiopquic_tx_data_bytes_pulled_add n (sw_g s)))).

Definition sc_push_rx (sc : Z) (data : list Z) : M Z :=
  on_sc_val (λ s, c ← sw_scs s !! sc; rx ← sc_rx c;
    '(n, rx) ← aiopquic_stream_buf_push rx data;
    Some (n, ScWorld (<[sc := sc_set_rx (Some rx) c]> (sw_scs s)) (sw_g s))).

(** A field access through [sc->tx] or [sc->rx]. *)
Definition read_tx {A} (sc : Z) (f : stream_buf -> A) : M A :=
  λ w, c ← sw_scs (w_sc w) !! sc; tx ← sc_tx c; Some (f tx, w).
Definition read_rx {A} (sc : Z) (f : stream_buf -> A) : M A :=
  λ w, c ← sw_scs (w_sc w) !! sc; rx ← sc_rx c; Some (f rx, w).

Definition drain_take (sc : Z) : M bool :=
  on_sc_val (λ s, c ← sw_scs s !! sc;
    let (b, c) := aiopquic_stream_ctx_tx_drain_take c in
    Some (b, ScWorld (<[sc := c]> (sw_scs s)) (sw_g s))).

Definition rx_event_pending_arm (sc : Z) : M bool :=
  on_sc_val (λ s, c ← sw_scs s !! sc;
    let (b, c) := aiopquic_stream_ctx_rx_event_pending_arm c in
    Some (b, ScWorld (<[sc := c]> (sw_scs s)) (sw_g s))).

(** A datagram ring. *)
Definition on_db {A} (db : Z) (f : dgram_buf -> option (A * dgram_buf)) : M A :=
  λ w, b ← rs_rings (w_rs w) !! db; '(x, b) ← f b;
       Some (x, w_set_rs (RingStore (<[db := b]> (rs_rings (w_rs w))) (rs_alive (w_rs w))) w).

Section cb.
Context (ev : env).

Definition aiopquic_cnx_closing (cnx : Z) : M bool :=
  s ← pq ev (PqGetCnxState cnx); ret (s >=? ev_state_disconnecting ev).

(** ** The stream and connection callback, by event *)

Fixpoint offer_alpns (tls : Z) (names : list (list Z)) : M unit :=
  match names with
  | [] => ret tt
  | n :: names => pq_ ev (PqAddProposedAlpn tls n) ;; offer_alpns tls names
  end.

(** The drain signal of [sc], fired as one event. *)
Definition fire_stream_drained (cnx stream_id sc : Z) : M unit :=
  take ← drain_take sc;
  when take
    (rc ← aiopquic_rx_push ev (event_entry SPSC_EVT_STREAM_TX_DRAINED stream_id cnx 0) [];
     if rc =? 0 then
       upd_sc sc (λ c, sc_set_cnt_drain_fires (u64 (sc_cnt_drain_fires c + 1)) c) ;;
       now ← aiopquic_now_ns ev;
       upd_sc sc (sc_set_last_drain_fire_ns now)
     else
       upd_sc sc (λ c, sc_set_cnt_drain_dropped (u64 (sc_cnt_drain_dropped c + 1)) c) ;;
       upd_sc sc (sc_set_tx_drain_pending 1)).

(** [race]: what the producer does between the loads of FIN and of the tail. *)
Definition prepare_to_send (race : list sc_op) (cnx stream_id bytes length stream_ctx : Z)
    : M Z :=
  count WORKER_PREPARE_TO_SEND_CALLS ;;
  if stream_ctx =? 0 then
    pq_ ev (PqProvideStreamDataBuffer bytes 0 false false) ;; ret 0
  else
    sb ← read_sc stream_ctx sc_tx;
    match sb with
    | None => pq_ ev (PqProvideStreamDataBuffer bytes 0 false false) ;; ret 0
    | Some sb =>
        let want := u32 length in
        let fin_after := aiopquic_stream_buf_fin_pending sb in
        on_sc (sc_run race) ;;
        avail ← read_tx stream_ctx aiopquic_stream_buf_used;
        sendable ← (λ w, c ← sw_scs (w_sc w) !! stream_ctx;
                         n ← aiopquic_stream_ctx_tx_sendable c avail; Some (n, w) : option (Z * world));
        let to_send := if sendable <? want then sendable else want in
        pending ← read_sc stream_ctx sc_tx_reset_pending;
        let is_fin := negb (fin_after =? 0) && (pending =? 0) && (to_send =? avail) in
        let is_still_active := sendable >? to_send in
        buf ← pq ev (PqProvideStreamDataBuffer bytes to_send is_fin is_still_active);
        (if negb (buf =? 0) && (to_send >? 0) then
           bs ← sc_pop_tx stream_ctx to_send;
           pq_ ev (WriteBuf buf bs) ;;
           count_n WORKER_PREPARE_TO_SEND_PULLED_BYTES to_send
         else count CNT_PREPARE_TO_SEND_EMPTY) ;;
        fire_stream_drained cnx stream_id stream_ctx ;;
        ret 0
    end.

Definition prepare_datagram (cnx bytes length : Z) : M Z :=
  count WORKER_DGRAM_PREPARE_CALLS ;;
  db ← (λ w, d ← aiopquic_dgram_table_get (b_dgram_table (w_ctx w)) cnx;
             Some (d, w) : option (Z * world));
  rec ← (if db =? 0 then ret 0
         else on_db db (λ b, n ← aiopquic_dgram_buf_peek_len b; Some (n, b)));
  if rec =? 0 then pq_ ev (PqProvideDatagramBuffer bytes 0 false) ;; ret 0
  else if rec <=? u32 length then
    used ← on_db db (λ b, Some (aiopquic_dgram_buf_used b, b));
    let still := used >? u32 (AIOPQUIC_DGRAM_REC_HDR + rec) in
    buf ← pq ev (PqProvideDatagramBuffer bytes rec still);
    when (negb (buf =? 0))
      (bs ← on_db db (λ b, aiopquic_dgram_buf_pop_into b rec);
       pq_ ev (WriteBuf buf bs) ;;
       count WORKER_DGRAM_RECORDS_SENT ;;
       count_n WORKER_DGRAM_BYTES_SENT rec ;;
       take ← on_db db (λ b, Some (aiopquic_dgram_buf_drain_take b));
       when take
         (rc ← aiopquic_rx_push ev (event_entry SPSC_EVT_DATAGRAM_TX_DRAINED 0 cnx 0) [];
          when (negb (rc =? 0)) (on_db db (λ b, Some (tt, db_set_drain b 1))))) ;;
    ret 0
  else
    on_db db (λ b, Some (tt, db_set_consumer b (db_head b) (db_records_popped b)
                               (db_bytes_popped b) (u64 (db_head_deferred b + 1)))) ;;
    pq_ ev (PqProvideDatagramBuffer bytes 0 true) ;; ret 0.

(** The payload block of the data and FIN branch: the wrapper, made on first
    touch, and its ring.  [inr]: the callback returns at once with that value. *)
Definition rx_payload (fin_or_event : call_back_event) (cnx stream_id length : Z)
    (data : list Z) (entry : spsc_entry) : M (spsc_entry * Z + Z) :=
  ring_cap ← getb b_rx_data_ring_cap;
  let advertise_cap := if ring_cap >? 0 then ring_cap else AIOPQUIC_RX_DATA_RING_CAP_DEFAULT in
  sc ← (if e_stream_ctx entry =? 0 then
          t ← next_tick;
          sc ← (λ w, let (p, s) := aiopquic_stream_ctx_create (ev_sc ev t (sw_scs (w_sc w))) (w_sc w) in
                     Some (p, w_set_sc s w) : option (Z * world));
          (if sc =? 0 then ret 0
           else
             count CNT_SC_CREATE_RAW_QUIC ;;
             pq_ ev (PqSetAppStreamCtx cnx stream_id sc) ;;
             ret sc)
        else ret (e_stream_ctx entry));
  if sc =? 0 then ret (inr (-1))
  else
    let entry := entry_set sc (e_error_code entry) (e_is_fin entry) (e_data_length entry) entry in
    rx ← read_sc sc sc_rx;
    let rx_first_touch := if rx is None then true else false in
    when rx_first_touch (pq_ ev (PqSetAppFlowControl cnx stream_id 1)) ;;
    t ← next_tick;
    rc ← on_sc_val (aiopquic_stream_ctx_ensure_rx (ev_buf ev t advertise_cap) advertise_cap sc);
    if negb (rc =? 0) then ret (inr (-1))
    else
      pushed ← sc_push_rx sc (take (Z.to_nat (u32 length)) data);
      when (pushed >? 0) (on_g (aiopquic_sc_rx_bytes_pushed_add pushed)) ;;
      if negb (pushed =? length) then
        count WORKER_RX_BYTE_RING_OVERFLOW ;;
        _ ← aiopquic_rx_log_enabled ev;
        ret (inr (-1))
      else
        when (is_event fin_or_event picoquic_callback_stream_fin)
          (upd_sc sc (λ c, sc_set_rx (aiopquic_stream_buf_set_fin <$> sc_rx c) c)) ;;
        when rx_first_touch
          (when (negb (is_event fin_or_event picoquic_callback_stream_fin))
             (window ← aiopquic_initial_rx_window ev cnx stream_id;
              when (window <? advertise_cap)
                (buf_free ← read_rx sc aiopquic_stream_buf_free;
                 pq_ ev (PqOpenFlowControl cnx stream_id buf_free))) ;;
           upd_sc sc (aiopquic_stream_ctx_rx_credit_store advertise_cap)) ;;
        ret (inl (entry, sc)).

(** After the push: what a lost notification leaves. *)
Definition rx_push_failed (has_payload : bool) (coalesce_sc : Z) : M unit :=
  when has_payload (count WORKER_RX_EVENT_DROPS_STREAM_DATA) ;;
  when (negb (coalesce_sc =? 0)) (upd_sc coalesce_sc aiopquic_stream_ctx_rx_event_pending_clear) ;;
  _ ← aiopquic_rx_log_enabled ev;
  ret tt.

(** [bytes] points at [data]; [length] is the callback's [size_t]. *)
Definition c_bytes (bytes : Z) (length : Z) (data : list Z) : list Z :=
  if bytes =? 0 then [] else take (Z.to_nat (u32 length)) data.

(** The events with an error code, and the datagram table on a close. *)
Definition close_codes (fin_or_event : call_back_event) (cnx stream_id : Z)
    (entry : spsc_entry) : M spsc_entry :=
  let set code fin :=
    entry_set (e_stream_ctx entry) code fin (e_data_length entry) entry in
  match fin_or_event with
  | picoquic_callback_stream_reset =>
      c ← pq ev (PqGetRemoteStreamError cnx stream_id); ret (set c (e_is_fin entry))
  | picoquic_callback_stop_sending =>
      c ← pq ev (PqGetRemoteStopSendingError cnx stream_id); ret (set c (e_is_fin entry))
  | picoquic_callback_application_close =>
      c ← pq ev (PqGetApplicationError cnx);
      table_remove cnx ;;
      ret (set c (e_is_fin entry))
  | picoquic_callback_close =>
      c ← pq ev (PqGetRemoteError cnx);
      e ← (if c =? 0 then
             l ← pq ev (PqGetLocalError cnx);
             if negb (l =? 0) then
               l ← pq ev (PqGetLocalError cnx); ret (set l AIOPQUIC_CLOSE_LOCAL)
             else ret (set c (e_is_fin entry))
           else ret (set c (e_is_fin entry)));
      table_remove cnx ;;
      ret e
  | _ => ret entry
  end.

(** The event pushed to asyncio. *)
Definition push_event (fin_or_event : call_back_event) (cnx stream_id bytes length : Z)
    (data : list Z) (entry : spsc_entry) : M Z :=
  let has_payload := (is_event fin_or_event picoquic_callback_stream_data
                      || is_event fin_or_event picoquic_callback_stream_fin)
                     && negb (bytes =? 0) && (length >? 0) in
  if has_payload then
    r ← rx_payload fin_or_event cnx stream_id length data entry;
    match r with
    | inr rc => ret rc
    | inl (entry, sc) =>
        win ← (if e_event_type entry =? SPSC_EVT_STREAM_DATA then rx_event_pending_arm sc
               else ret true);
        if negb win then count CNT_RX_DATA_EVENT_COALESCED ;; ret 0
        else
          rc ← aiopquic_rx_push_sc ev entry [];
          when (negb (rc =? 0))
            (rx_push_failed true
               (if e_event_type entry =? SPSC_EVT_STREAM_DATA then sc else 0)) ;;
          ret 0
    end
  else
    rc ← (if (e_event_type entry =? SPSC_EVT_DATAGRAM_ACKED)
             || (e_event_type entry =? SPSC_EVT_DATAGRAM_LOST) then
            aiopquic_rx_push ev
              (entry_set (e_stream_ctx entry) (e_error_code entry) (e_is_fin entry)
                 (u32 length) entry) []
          else
            client ← (if is_event fin_or_event picoquic_callback_almost_ready
                      then pq ev (PqIsClient cnx) else ret 1);
            if is_event fin_or_event picoquic_callback_ready
               || (is_event fin_or_event picoquic_callback_almost_ready && (client =? 0)) then
              snap ← aiopquic_cnx_snapshot_fill ev cnx;
              aiopquic_rx_push ev entry (ev_snapshot ev snap)
            else if is_event fin_or_event picoquic_callback_close
                    || is_event fin_or_event picoquic_callback_application_close then
              reason ← (if negb (Z.land (e_is_fin entry) AIOPQUIC_CLOSE_LOCAL =? 0)
                        then ret (ev_error_name ev (e_error_code entry))
                        else gets (λ w, ev_reason ev (w_trace w) cnx));
              aiopquic_rx_push_sc ev entry (default [] reason)
            else aiopquic_rx_push_sc ev entry (c_bytes bytes length data));
    when (negb (rc =? 0)) (rx_push_failed false 0) ;;
    ret 0.

Definition is_stream_event (e : call_back_event) : bool :=
  is_event e picoquic_callback_stream_data || is_event e picoquic_callback_stream_fin
  || is_event e picoquic_callback_stream_reset || is_event e picoquic_callback_stop_sending
  || is_event e picoquic_callback_stream_released.

(** What is left of the callback once the closing guard let it through. *)
Definition stream_cb_open (cnx stream_id bytes length : Z) (data : list Z)
    (fin_or_event : call_back_event) (stream_ctx : Z) : M Z :=
  if is_event fin_or_event picoquic_callback_stream_released then
    when (negb (stream_ctx =? 0))
      (rc ← aiopquic_rx_push ev (sc_entry SPSC_EVT_STREAM_DESTROY stream_id cnx stream_ctx 0) [];
       ret tt) ;;
    ret 0
  else
    keep_alive ← getb b_keep_alive_us;
    when (is_event fin_or_event picoquic_callback_ready && (keep_alive >? 0))
      (pq_ ev (PqEnableKeepAlive cnx keep_alive)) ;;
    if is_event fin_or_event picoquic_callback_prepare_datagram
    then prepare_datagram cnx bytes length
    else
      ds ← getb b_deferred_resets;
      when ((if ds is [] then false else true)
            && (is_event fin_or_event picoquic_callback_close
                || is_event fin_or_event picoquic_callback_application_close
                || is_event fin_or_event picoquic_callback_stateless_reset))
        (aiopquic_deferred_resets_drop_cnx cnx) ;;
      rs ← getb b_close_reasons;
      when ((if rs is [] then false else true)
            && (is_event fin_or_event picoquic_callback_close
                || is_event fin_or_event picoquic_callback_stateless_reset))
        (aiopquic_close_reason_drop cnx) ;;
      let evt := aiopquic_map_event fin_or_event in
      if evt <? 0 then ret 0
      else
        entry ← close_codes fin_or_event cnx stream_id
                  (sc_entry (u32 evt) stream_id cnx stream_ctx 0);
        push_event fin_or_event cnx stream_id bytes length data entry.

Definition aiopquic_stream_cb (race : list sc_op) (cnx stream_id bytes length : Z)
    (data : list Z) (fin_or_event : call_back_event) (stream_ctx : Z) : M Z :=
  if is_event fin_or_event picoquic_callback_request_alpn_list then
    names ← getb b_alpn_list;
    offer_alpns bytes (default [] names) ;; ret 0
  else if is_event fin_or_event picoquic_callback_prepare_to_send then
    prepare_to_send race cnx stream_id bytes length stream_ctx
  else
    closing ← (if is_stream_event fin_or_event then aiopquic_cnx_closing cnx else ret false);
    if (closing : bool) then count CNT_STREAM_CB_AFTER_CLOSE ;; ret 0
    else stream_cb_open cnx stream_id bytes length data fin_or_event stream_ctx.

(** ** Putting a wrapper back *)

Definition aiopquic_stream_reattach_sc (cnx stream_id sc rc : Z) : M Z :=
  if (sc =? 0) || (rc =? ev_error_invalid_stream_id ev) then ret 0
  else
    closing ← aiopquic_cnx_closing cnx;
    if (closing : bool) then count CNT_TX_REATTACH_AFTER_CLOSE ;; ret 0
    else pq_ ev (PqSetAppStreamCtx cnx stream_id sc) ;; ret sc.

Definition aiopquic_stream_reattach (cnx : Z) (entry : spsc_entry) (rc : Z) : M Z :=
  aiopquic_stream_reattach_sc cnx (e_stream_id entry) (e_stream_ctx entry) rc.
End cb.

(** ** The WebTransport half *)

(** What h3wt_callback.h gives this file: the handler of WT entries and of held WT
    resets. *)
Class WtHandler := {
  aiopquic_wt_handle_tx : spsc_entry -> M Z;
  aiopquic_wt_deferred_reset : deferred_reset -> M unit
}.

Section loop.
Context (ev : env) `{WtHandler}.

(** ** Held resets *)

(** A held reset that is due, or whose connection went away. *)
Definition deferred_reset_fire (d : deferred_reset) : M unit :=
  upd_sc (d_sc d) (sc_set_tx_reset_pending 0) ;;
  if negb (d_is_wt d =? 0) then aiopquic_wt_deferred_reset d
  else
    reliable ← read_sc (d_sc d) sc_tx_reliable_size;
    rr ← aiopquic_reset_stream_reliable ev (d_cnx d) (d_stream_id d) (d_error_code d) reliable;
    sc ← aiopquic_stream_reattach_sc ev (d_cnx d) (d_stream_id d) (d_sc d) rr;
    on_sc (aiopquic_stream_ctx_tx_abandon sc).

(** The walk: [kept] lies before [pp]. *)
Fixpoint deferred_walk (sweep : bool) (kept ds : list deferred_reset) : M unit :=
  match ds with
  | [] => ret tt
  | d :: ds =>
      head ← read_tx (d_sc d) sb_head;
      reliable ← read_sc (d_sc d) sc_tx_reliable_size;
      let ready := head >=? reliable in
      if negb ready && negb sweep then deferred_walk sweep (kept ++ [d]) ds
      else
        alive ← aiopquic_cnx_is_alive ev (d_cnx d);
        if alive && negb ready then deferred_walk sweep (kept ++ [d]) ds
        else
          setb (b_set_deferred_resets (kept ++ ds)) ;;
          open ← (if (alive : bool) then c ← aiopquic_cnx_closing ev (d_cnx d); ret (negb c)
                  else ret false);
          when open (deferred_reset_fire d) ;;
          aiopquic_deferred_reset_free d ;;
          deferred_walk sweep kept ds
  end.

Definition aiopquic_run_deferred_resets : M unit :=
  now ← pq ev PqGetQuicTime;
  swept ← getb b_deferred_resets_swept;
  let sweep := u64 (now - swept) >=? 1000000 in
  when sweep (setb (b_set_deferred_resets_swept now)) ;;
  ds ← getb b_deferred_resets;
  deferred_walk sweep [] ds.

(** ** The TX ring's entries, by event *)

(** Bytes [off..off+n) of a block; [None]: outside it. *)
Definition block_read (bs : list Z) (off n : Z) : option (list Z) :=
  if (0 <=? off) && (0 <=? n) && (off + n <=? zlen bs)
  then Some (take (Z.to_nat n) (drop (Z.to_nat off) bs)) else None.

(** The integer spelled by little-endian bytes. *)
Fixpoint le_bytes (bs : list Z) : Z :=
  match bs with [] => 0 | b :: bs => u8 b + 2 ^ 8 * le_bytes bs end.

Definition payload (e : spsc_entry) : M (option (list Z)) :=
  λ w, if e_data_buf e =? 0 then Some (None, w)
       else bs ← w_heap w !! e_data_buf e; Some (Some bs, w).

(** [aiopquic_connect_params_t] and the two strings behind it. *)
Record connect_params := ConnectParams {
  cp_addr : list Z;
  cp_desired_version : Z;
  cp_sni : option (list Z);
  cp_alpn : option (list Z)
}.

Definition connect_params_size : Z := ev_storage_len ev + 8.

Definition parse_connect (raw : list Z) (data_length : Z) : option connect_params :=
  let s := ev_storage_len ev in
  addr ← block_read raw 0 s;
  version ← block_read raw s 4;
  sni_len ← block_read raw (s + 4) 2;
  alpn_len ← block_read raw (s + 6) 2;
  let sni_len := le_bytes sni_len in
  let alpn_len := le_bytes alpn_len in
  let offset := connect_params_size in
  '(sni, offset) ←
    (if (sni_len >? 0) && (sni_len <? 256) && (offset + sni_len <=? data_length)
     then s ← block_read raw offset sni_len; Some (Some s, offset + sni_len)
     else Some (None, offset));
  alpn ←
    (if (alpn_len >? 0) && (alpn_len <? 64) && (offset + alpn_len <=? data_length)
     then a ← block_read raw offset alpn_len; Some (Some a)
     else Some None);
  Some (ConnectParams addr (le_bytes version) sni alpn).

Definition tx_connect (e : spsc_entry) : M unit :=
  raw ← payload e;
  match raw with
  | None => ret tt
  | Some raw =>
      if e_data_length e >=? connect_params_size then
        p ← (λ w, p ← parse_connect raw (e_data_length e); Some (p, w) : option (connect_params * world));
        now ← pq ev PqCurrentTime;
        new_cnx ← pq ev (PqCreateCnx (cp_addr p) now (c_str <$> cp_sni p) (c_str <$> cp_alpn p));
        new_cnx ← (if negb (new_cnx =? 0) then
                     pq_ ev (PqSetCallback new_cnx) ;;
                     when (negb (cp_desired_version p =? 0))
                       (pq_ ev (PqSetDesiredVersion new_cnx (cp_desired_version p))) ;;
                     rc ← pq ev (PqStartClientCnx new_cnx);
                     if negb (rc =? 0) then pq_ ev (PqDeleteCnx new_cnx) ;; ret 0
                     else ret new_cnx
                   else ret 0);
        when (negb (new_cnx =? 0))
          (rc ← aiopquic_rx_push ev (event_entry SPSC_EVT_ALMOST_READY 0 new_cnx 0) []; ret tt)
      else ret tt
  end.

Definition tx_dgram_ring_release (e : spsc_entry) : M unit :=
  when (negb (e_stream_ctx e =? 0)) (aiopquic_dgram_ring_drop (e_cnx e) (e_stream_ctx e)) ;;
  count WORKER_DGRAM_RING_RELEASE_PROCESSED.

Definition tx_dead_cnx (e : spsc_entry) : M unit :=
  count CNT_TX_EVENT_DROPPED_DEAD_CNX ;;
  when (evt_is (e_event_type e) SPSC_EVT_TX_OPEN_FLOW_CONTROL && negb (e_stream_ctx e =? 0))
    (count CNT_SC_DESTROY_FC_CREDIT_DEAD_CNX) ;;
  aiopquic_tx_event_release e.

Definition tx_mark_active (e : spsc_entry) : M unit :=
  (if negb (e_stream_ctx e =? 0) then
     closing ← aiopquic_cnx_closing ev (e_cnx e);
     if (closing : bool) then count CNT_TX_REATTACH_AFTER_CLOSE
     else pq_ ev (PqMarkActiveStream (e_cnx e) (e_stream_id e) true (e_stream_ctx e))
   else pq_ ev (PqMarkActiveStreamV2 (e_cnx e) (e_stream_id e) true)) ;;
  aiopquic_tx_event_release e ;;
  count WORKER_MARK_ACTIVE_PROCESSED.

Definition tx_mark_datagram_ready (e : spsc_entry) : M unit :=
  when (negb (e_stream_ctx e =? 0))
    (rc ← table_put ev (e_cnx e) (e_stream_ctx e);
     pq_ ev (PqMarkDatagramReady (e_cnx e) 1)) ;;
  count WORKER_DGRAM_MARK_READY_PROCESSED.

Definition tx_set_stream_priority (e : spsc_entry) : M unit :=
  pri_ret ← pq ev (PqSetStreamPriority (e_cnx e) (e_stream_id e) (u8 (e_error_code e)));
  if pri_ret =? 0 then count WORKER_SET_PRIORITY_APPLIED
  else
    count WORKER_SET_PRIORITY_REJECTED ;;
    set_cnt WORKER_SET_PRIORITY_LAST_ERR (u64 pri_ret).

Definition tx_set_datagram_priority (e : spsc_entry) : M unit :=
  pq_ ev (PqSetDatagramPriority (e_cnx e) (u8 (e_error_code e))) ;;
  count WORKER_SET_DGRAM_PRIORITY_APPLIED.

Definition tx_cnx_refresh (e : spsc_entry) : M unit :=
  snap ← aiopquic_cnx_snapshot_fill ev (e_cnx e);
  rc ← aiopquic_rx_push ev (event_entry SPSC_EVT_CNX_SNAPSHOT 0 (e_cnx e) 0) (ev_snapshot ev snap);
  ret tt.

Definition tx_close (e : spsc_entry) : M unit :=
  data ← payload e;
  reason ← aiopquic_close_reason_hold ev (e_cnx e) data (e_data_length e);
  match reason with
  | Some text => pq_ ev (PqCloseEx (e_cnx e) (e_error_code e) (c_str text))
  | None => pq_ ev (PqClose (e_cnx e) (e_error_code e))
  end.

Definition tx_stream_reset (e : spsc_entry) : M unit :=
  let sc := e_stream_ctx e in
  pending ← (if sc =? 0 then ret 0 else read_sc sc sc_tx_reset_pending);
  (if negb (sc =? 0) && negb (pending =? 0) then ret tt
   else
     can ← aiopquic_stream_can_send ev (e_cnx e) (e_stream_id e);
     if (can : bool) then
       reliable ← aiopquic_reset_reliable_size ev (e_cnx e) sc (e_aux e);
       held ← (if reliable >? 0 then
                 head ← read_tx sc sb_head;
                 if reliable >? head then
                   rc ← aiopquic_defer_reset ev (e_cnx e) sc (e_stream_id e) (e_error_code e)
                          reliable 0 0;
                   ret (rc =? 0)
                 else ret false
               else ret false);
       if (held : bool)
       then pq_ ev (PqMarkActiveStream (e_cnx e) (e_stream_id e) true sc)
       else
         rr ← aiopquic_reset_stream_reliable ev (e_cnx e) (e_stream_id e) (e_error_code e)
                reliable;
         sc' ← aiopquic_stream_reattach ev (e_cnx e) e rr;
         on_sc (aiopquic_stream_ctx_tx_abandon sc')
     else count CNT_TX_WRONG_DIRECTION_DROPPED) ;;
  aiopquic_tx_event_release e.

Definition tx_stop_sending (e : spsc_entry) : M unit :=
  can ← aiopquic_stream_can_receive ev (e_cnx e) (e_stream_id e);
  (if (can : bool) then
     rr ← pq ev (PqStopSending (e_cnx e) (e_stream_id e) (e_error_code e));
     sc ← aiopquic_stream_reattach ev (e_cnx e) e rr;
     ret tt
   else count CNT_TX_WRONG_DIRECTION_DROPPED) ;;
  aiopquic_tx_event_release e.

Definition fc_grant (buf_free pending : Z) (raw : bool) : Z :=
  if raw then buf_free
  else if pending >=? buf_free then 0 else u32 (buf_free - pending).

Definition tx_open_flow_control (e : spsc_entry) : M unit :=
  count CNT_FC_CREDIT_HANDLED ;;
  let sc := e_stream_ctx e in
  rx ← (if sc =? 0 then ret None else read_sc sc sc_rx);
  match rx with
  | Some rx =>
      if aiopquic_stream_buf_fin_pending rx =? 0 then
        let buf_free := aiopquic_stream_buf_free rx in
        raw ← aiopquic_fc_raw_enabled ev;
        pending ← (if (raw : bool) then ret 0
                   else λ w, n ← aiopquic_stream_ctx_pending_load sc (w_sc w); Some (n, w));
        let grant := fc_grant buf_free pending raw in
        when (grant >? 0) (pq_ ev (PqOpenFlowControl (e_cnx e) (e_stream_id e) grant))
      else ret tt
  | None => ret tt
  end ;;
  when (negb (sc =? 0))
    (count CNT_SC_DESTROY_FC_CREDIT_WORKER ;; on_sc (aiopquic_stream_ctx_destroy sc)).

Definition tx_set_app_flow_control (e : spsc_entry) : M unit :=
  pq_ ev (PqSetAppFlowControl (e_cnx e) (e_stream_id e) (e_is_fin e)).

(** Entries whose [cnx] is a WebTransport session. *)
Definition is_wt_event (t : Z) : bool :=
  ((t >=? SPSC_EVT_TX_WT_OPEN) && (t <=? SPSC_EVT_TX_WT_STOP_SENDING))
  || (t =? SPSC_EVT_TX_WT_SESSION_CLEANUP) || (t =? SPSC_EVT_TX_MARK_WT_DATAGRAM_READY)
  || (t =? SPSC_EVT_TX_WT_SET_STREAM_PRIORITY) || (t =? SPSC_EVT_TX_WT_SET_DATAGRAM_PRIORITY)
  || (t =? SPSC_EVT_TX_WT_FIN).

(** The [switch] behind the stale-connection guard. *)
Definition tx_switch (e : spsc_entry) : M unit :=
  let t := e_event_type e in
  if evt_is t SPSC_EVT_TX_MARK_ACTIVE then tx_mark_active e
  else if evt_is t SPSC_EVT_TX_MARK_DATAGRAM_READY then tx_mark_datagram_ready e
  else if evt_is t SPSC_EVT_TX_SET_STREAM_PRIORITY then tx_set_stream_priority e
  else if evt_is t SPSC_EVT_TX_SET_DATAGRAM_PRIORITY then tx_set_datagram_priority e
  else if evt_is t SPSC_EVT_TX_CNX_REFRESH then tx_cnx_refresh e
  else if evt_is t SPSC_EVT_TX_CLOSE then tx_close e
  else if evt_is t SPSC_EVT_TX_STREAM_RESET then tx_stream_reset e
  else if evt_is t SPSC_EVT_TX_STOP_SENDING then tx_stop_sending e
  else if evt_is t SPSC_EVT_TX_OPEN_FLOW_CONTROL then tx_open_flow_control e
  else if evt_is t SPSC_EVT_TX_SET_APP_FLOW_CONTROL then tx_set_app_flow_control e
  else rc ← aiopquic_wt_handle_tx e; ret tt.

Definition tx_dispatch (e : spsc_entry) : M unit :=
  let t := e_event_type e in
  if evt_is t SPSC_EVT_TX_CONNECT then tx_connect e
  else if evt_is t SPSC_EVT_TX_SET_MAX_CONNECTIONS
  then pq_ ev (PqAdjustMaxConnections (u32 (e_error_code e)))
  else if evt_is t SPSC_EVT_TX_DGRAM_RING_RELEASE then tx_dgram_ring_release e
  else if is_wt_event t then rc ← aiopquic_wt_handle_tx e; ret tt
  else
    alive ← (if e_cnx e =? 0 then ret false else aiopquic_cnx_is_alive ev (e_cnx e));
    if (alive : bool) then tx_switch e else tx_dead_cnx e.

(** What ends every branch. *)
Definition tx_entry_done : M unit :=
  count CNT_TX_EVENT_RING_POPS ;;
  tx_ring_pop ;;
  aiopquic_maybe_fire_tx_event_ring_drained ev.

(** The [while (1)] over the ring, [fuel] rounds. *)
Fixpoint tx_drain (fuel : nat) : M unit :=
  match fuel with
  | O => ub
  | S fuel =>
      entry ← tx_ring_peek;
      match entry with
      | None => ret tt
      | Some e => tx_dispatch e ;; tx_entry_done ;; tx_drain fuel
      end
  end.

(** ** The packet-loop callback *)

Inductive packet_loop_cb :=
  | picoquic_packet_loop_ready
  | picoquic_packet_loop_time_check (delta_t current_time : Z)
  | picoquic_packet_loop_wake_up
  | picoquic_packet_loop_after_send
  | picoquic_packet_loop_other.

(** The head of the callback: the worker runs. *)
Definition loop_running : M unit :=
  count CNT_LOOP_CB ;;
  idle ← getb b_tx_worker_idle;
  when (negb (idle =? 0))
    (armed_at ← getb b_tx_worker_armed_at;
     if armed_at =? 0 then setb (b_set_tx_worker_idle 0)
     else
       was ← getb b_tx_worker_idle;
       setb (b_set_tx_worker_idle 0) ;;
       when (negb (was =? 0))
         (now ← pq ev PqCurrentTime;
          when (u64 (now - armed_at) >=? AIOPQUIC_TX_WAKE_LOST_US)
            (e ← tx_ring_peek;
             when (if e is Some _ then true else false) (count CNT_TX_WAKE_LOST)))).

Definition loop_wake_up (fuel : nat) : M unit :=
  tx_drain fuel ;; aiopquic_tx_event_ring_drained_final ev.

(** The result is [tc->delta_t]; the callback itself always returns 0. *)
Definition aiopquic_loop_cb (fuel : nat) (cb_mode : packet_loop_cb) : M Z :=
  loop_running ;;
  match cb_mode with
  | picoquic_packet_loop_ready =>
      setb (b_set_quic 1) ;;
      pq_ ev PqAdjustTimerSlack ;;
      rc ← aiopquic_rx_push ev (event_entry SPSC_EVT_READY 0 0 0) [];
      ret 0
  | picoquic_packet_loop_time_check delta_t current_time =>
      when (delta_t >? 0)
        (setb (b_set_tx_worker_armed_at
           (if delta_t >=? AIOPQUIC_TX_WAKE_LOST_US then current_time else 0))) ;;
      queued ← (if delta_t >? 0 then aiopquic_tx_worker_idle_arm
                else e ← tx_ring_peek; ret (if e is Some _ then true else false));
      if negb queued then ret delta_t else loop_wake_up fuel ;; ret 0
  | picoquic_packet_loop_wake_up => loop_wake_up fuel ;; ret 0
  | picoquic_packet_loop_after_send =>
      ds ← getb b_deferred_resets;
      when (if ds is [] then false else true) aiopquic_run_deferred_resets ;;
      ret 0
  | picoquic_packet_loop_other => ret 0
  end.
End loop.
