(* ===== verification/Runs.v ===== *)
(** * Reading runs of the monad

    Partial reasoning on a call that returned: inversion of a bind, what a call keeps
    of the world ([keeps]), [silent] for a call that makes no call into picoquic, and
    concrete runs for the witnesses. *)
From S2P Require Import Prelude Ring Store StreamBuf SpscRing DgramBuf DgramTable.
From S2P Require Import StreamCtx WtState Bridge Callback.

Lemma bind_some {A B} (m : M A) (k : A -> M B) w y w2 : (x ← m; k x) w = Some (y, w2) ->
  ∃ x w1, m w = Some (x, w1) ∧ k x w1 = Some (y, w2).
Proof.
  unfold mbind, M_bind, bind. destruct (m w) as [[x w1]|]; [|done]. eauto.
Qed.

Ltac minv E := let x := fresh "x" in let w := fresh "w" in let E1 := fresh "E" in
  apply bind_some in E as (x & w & E1 & E).

(** [m] keeps what [f] reads of the world. *)
Definition keeps {B} (f : world -> B) {A} (m : M A) : Prop :=
  ∀ w x w', m w = Some (x, w') -> f w' = f w.

Abbreviation silent := (keeps w_trace).

(** Components of the world that are not the bridge's. *)
Class Aside {B} (f : world -> B) : Prop := {
  as_ctx : ∀ b w, f (w_set_ctx b w) = f w;
  as_tick : ∀ t w, f (w_set_tick t w) = f w;
  as_fd : ∀ n w, f (w_set_fd n w) = f w;
  as_heap : ∀ h w, f (w_set_heap h w) = f w;
  as_raw : ∀ v w, f (w_set_fc_raw_cached v w) = f w
}.

#[export] Instance aside_trace : Aside w_trace.
Proof. by split. Qed.
#[export] Instance aside_rs : Aside w_rs.
Proof. by split. Qed.
#[export] Instance aside_sc : Aside w_sc.
Proof. by split. Qed.
#[export] Instance aside_wt : Aside w_wt.
Proof. by split. Qed.

Create HintDb keeps.

Section keeps.
Context {B : Type} {f : world -> B} `{!Aside f}.

Lemma keeps_ret {A} (x : A) : keeps f (ret x).
Proof using Type. by intros w y w' [= _ <-]. Qed.

Lemma keeps_bind {A C} (m : M A) (k : A -> M C) :
  keeps f m -> (∀ x, keeps f (k x)) -> keeps f (x ← m; k x).
Proof using Type. intros Hm Hk w y w' E. minv E. rewrite (Hk _ _ _ _ E). by apply Hm in E0. Qed.

Lemma keeps_if {A} (b : bool) (m m' : M A) : keeps f m -> keeps f m' -> keeps f (if b then m else m').
Proof using Type. by destruct b. Qed.

Lemma keeps_when b m : keeps f m -> keeps f (when b m).
Proof using Type. intros. apply keeps_if; [done|apply keeps_ret]. Qed.

Lemma keeps_gets {A} (g : world -> A) : keeps f (gets g).
Proof using Type. by intros w y w' [= _ <-]. Qed.

Lemma keeps_getb {A} (g : bridge -> A) : keeps f (getb g).
Proof using Type. by intros w y w' [= _ <-]. Qed.

Lemma keeps_setb g : keeps f (setb g).
Proof using Aside0. intros w y w' [= _ <-]. apply as_ctx. Qed.

Lemma keeps_tick : keeps f next_tick.
Proof using Aside0. intros w y w' [= _ <-]. apply as_tick. Qed.

Lemma keeps_count c : keeps f (count c).
Proof using Aside0. apply keeps_setb. Qed.

Lemma keeps_set_cnt c v : keeps f (set_cnt c v).
Proof using Aside0. apply keeps_setb. Qed.

Lemma keeps_read_sc {A} p (g : stream_ctx -> A) : keeps f (read_sc p g).
Proof using Type. intros w y w' E. unfold read_sc in E. destruct (_ !! p); [|done]. by injection E as _ <-. Qed.
End keeps.

#[export] Hint Resolve keeps_ret keeps_gets keeps_getb keeps_setb keeps_tick keeps_count
  keeps_set_cnt keeps_read_sc : keeps.

Ltac keeps_step :=
  match goal with
  | |- keeps _ (mbind _ _) => apply keeps_bind; [|intros]
  | |- keeps _ (when _ _) => apply keeps_when
  | |- keeps _ (if _ then _ else _) => apply keeps_if
  | |- keeps _ (let '_ := ?x in _) => destruct x
  | |- keeps _ (match ?x with _ => _ end) => destruct x
  | |- keeps _ _ => solve [eauto with keeps typeclass_instances]
  | |- keeps _ _ => progress cbn zeta
  end.
Ltac keeps_tac := repeat keeps_step.

Section push.
Context (ev : env) {B : Type} {f : world -> B} `{!Aside f}.

Lemma keeps_now : keeps f (aiopquic_now_ns ev).
Proof using Aside0. unfold aiopquic_now_ns. keeps_tac. Qed.

Lemma keeps_wake_write : keeps f (wake_write ev).
Proof using Aside0.
  unfold wake_write. keeps_tac. intros w y w' [= _ <-]. case_match; [apply as_fd|done].
Qed.

Lemma keeps_worker_trace kind a b : keeps f (worker_trace_add ev kind a b).
Proof using Aside0.
  unfold worker_trace_add. pose proof keeps_now. keeps_tac. intros w y w' E. cbn in E.
  destruct (aiopquic_wake_trace_add _ _ _ _ _); [|done]. injection E as _ <-. apply as_ctx.
Qed.

(** A push to asyncio reaches no wrapper, no datagram ring and not picoquic. *)
Lemma keeps_rx_push e data : keeps f (aiopquic_rx_push ev e data).
Proof using Aside0.
  unfold aiopquic_rx_push, aiopquic_notify_rx, ring_push_or_overflow.
  pose proof keeps_wake_write. pose proof keeps_worker_trace. keeps_tac.
  intros w y w' E. cbn in E. destruct (spsc_ring_push_or_overflow _ _ _ _ _ _) as [[[[]]]|]; [|done].
  injection E as _ <-. rewrite as_heap. apply as_ctx.
Qed.

Lemma keeps_fc_raw : keeps f (aiopquic_fc_raw_enabled ev).
Proof using Aside0.
  unfold aiopquic_fc_raw_enabled. keeps_tac. intros w y w' [= _ <-]. apply as_raw.
Qed.
End push.

#[export] Hint Resolve keeps_now keeps_wake_write keeps_worker_trace keeps_rx_push keeps_fc_raw : keeps.

Lemma silent_on_sc f : silent (on_sc f).
Proof. intros w y w' E. unfold on_sc in E. destruct (f (w_sc w)); [|done]. by injection E as _ <-. Qed.

Lemma silent_upd_sc p f : silent (upd_sc p f).
Proof. apply silent_on_sc. Qed.

Lemma silent_on_sc_val {A} (f : sc_world -> option (A * sc_world)) : silent (on_sc_val f).
Proof.
  intros w y w' E. unfold on_sc_val in E. destruct (f (w_sc w)) as [[]|]; [|done]. by injection E as _ <-.
Qed.

#[export] Hint Resolve silent_on_sc silent_upd_sc silent_on_sc_val : keeps.

(** A concrete call that runs to its end. *)
Definition ran {A} (o : option (A * world)) : bool := match o with Some _ => true | None => false end.

Lemma ran_some {A} (o : option (A * world)) : ran o = true -> ∃ x w, o = Some (x, w).
Proof. destruct o as [[x w]|]; [eauto|done]. Qed.

(** One call. *)
Lemma pq_some ev c w r w' : pq ev c w = Some (r, w') ->
  r = ev_pq ev (w_trace w) c ∧ w' = w_set_trace (w_trace w ++ [(c, r)]) w.
Proof. by intros [= <- <-]. Qed.

Lemma pq_unit_some ev c w r w' : pq_ ev c w = Some (r, w') ->
  ∃ a, w' = w_set_trace (w_trace w ++ [(c, a)]) w.
Proof. intros E. minv E. apply pq_some in E0 as [_ ->]. injection E as _ <-. eauto. Qed.
