(* ===== verification/World.v ===== *)
(** * Invariants of the bridge's world

    A program logic for the monad of Bridge.v ([wp]: defined, and the result
    satisfies a postcondition), the resources an operation may touch ([res]), and
    the invariant [inv] they satisfy: the two event rings and the overflow are
    sound queues, payload blocks belong to exactly one queued entry, every wrapper's
    reference count is what Python ([x]), queued events and held resets hold, every
    datagram ring's is what Python ([xd]), queued and owed releases and the table
    hold.  The lemmas give each primitive's effect on it. *)
From S2P Require Import Prelude Ring Store StreamBuf SpscRing EventChannel DgramBuf DgramTable.
From S2P Require Import StreamCtx Bridge Callback.

#[global] Arguments lsum : simpl never.

(** ** Program logic *)

Definition wp {A} (m : M A) (Φ : A -> world -> Prop) (w : world) : Prop :=
  ∃ x w', m w = Some (x, w') ∧ Φ x w'.

Lemma wp_ret {A} (x : A) Φ w : Φ x w -> wp (ret x) Φ w.
Proof. intros. by exists x, w. Qed.

Lemma wp_mono {A} (m : M A) Φ Ψ w : wp m Φ w -> (∀ x w', Φ x w' -> Ψ x w') -> wp m Ψ w.
Proof. intros (x & w' & E & H) HΦ. exists x, w'. auto. Qed.

Lemma wp_bind {A B} (m : M A) (k : A -> M B) Φ w :
  wp m (λ x w', wp (k x) Φ w') w -> wp (x ← m; k x) Φ w.
Proof.
  intros (x & w' & E & y & w'' & E' & H). exists y, w''. split; [|done].
  unfold mbind, M_bind, bind. by rewrite E.
Qed.

Lemma wp_when (b : bool) (m : M unit) Φ w :
  (b = true -> wp m Φ w) -> (b = false -> Φ tt w) -> wp (when b m) Φ w.
Proof. intros Ht Hf. destruct b; [auto|]. by apply wp_ret, Hf. Qed.

Lemma wp_get {A} (f : world -> A) Φ w : Φ (f w) w -> wp (gets f) Φ w.
Proof. intros. by exists (f w), w. Qed.

Lemma wp_getb {A} (f : bridge -> A) Φ w : Φ (f (w_ctx w)) w -> wp (getb f) Φ w.
Proof. intros. by exists (f (w_ctx w)), w. Qed.

Lemma wp_setb f Φ w : Φ tt (w_set_ctx (f (w_ctx w)) w) -> wp (setb f) Φ w.
Proof. intros. by exists tt, (w_set_ctx (f (w_ctx w)) w). Qed.

(** ** Resources *)

Record res := Res {
  s_sc : sc_world;
  s_rs : ring_store;
  s_heap : heap;
  s_rx : spsc_ring;
  s_tx : spsc_ring;
  s_ovf : spsc_overflow;
  s_def : list deferred_reset;
  s_tab : dgram_table;
  s_owed : list (Z * Z);
  s_traces : nat * nat;         (** lengths of the two wake traces *)
  s_rx_cap : Z;
  s_low : Z                     (** the TX ring's low water mark *)
}.

Definition res_of (w : world) : res :=
  let b := w_ctx w in
  Res (w_sc w) (w_rs w) (w_heap w) (b_rx_event_ring b) (b_tx_event_ring b) (b_rx_overflow b)
    (b_deferred_resets b) (b_dgram_table b) (b_dgram_release_owed b)
    (length (wt_e (b_worker_trace b)), length (wt_e (b_asyncio_trace b)))
    (b_rx_data_ring_cap b) (b_tx_event_ring_low_water b).

(** What the model assumes of the world outside: [malloc] and [calloc] never return
    a live block, and a ring's block has the size asked for. *)
Record env_ok (ev : env) : Prop := {
  eo_alloc : ∀ t h, alloc_fresh h (ev_alloc ev t h);
  eo_sc : ∀ t scs, ev_sc ev t scs = 0 ∨ scs !! ev_sc ev t scs = None;
  eo_buf : ∀ t capacity, 0 <= capacity < 2 ^ 32 -> alloc_ok (ev_buf ev t capacity) capacity;
  eo_storage : 0 <= ev_storage_len ev
}.

(** An operation that leaves the resources alone. *)
Definition idle {A} (m : M A) : Prop :=
  ∀ w Φ, (∀ x w', res_of w' = res_of w -> Φ x w') -> wp m Φ w.

Create HintDb idle.

Lemma idle_ret {A} (x : A) : idle (ret x).
Proof. intros w Φ H. apply wp_ret. by apply H. Qed.

Lemma idle_bind {A B} (m : M A) (k : A -> M B) :
  idle m -> (∀ x, idle (k x)) -> idle (x ← m; k x).
Proof.
  intros Hm Hk w Φ H. apply wp_bind. apply Hm. intros x w1 E1.
  apply Hk. intros y w2 E2. apply H. by rewrite E2.
Qed.

Lemma idle_if {A} (b : bool) (m m' : M A) : idle m -> idle m' -> idle (if b then m else m').
Proof. by destruct b. Qed.

Lemma idle_when b m : idle m -> idle (when b m).
Proof. intros. apply idle_if; [done|apply idle_ret]. Qed.

Lemma idle_get {A} (f : world -> A) : idle (gets f).
Proof. intros w Φ H. by apply wp_get, H. Qed.

Lemma idle_getb {A} (f : bridge -> A) : idle (getb f).
Proof. intros w Φ H. by apply wp_getb, H. Qed.

Lemma idle_count_n c n : idle (count_n c n).
Proof. intros w Φ H. apply wp_setb, H. done. Qed.

Lemma idle_count c : idle (count c).
Proof. apply idle_count_n. Qed.

Lemma idle_set_cnt c v : idle (set_cnt c v).
Proof. intros w Φ H. apply wp_setb, H. done. Qed.

Lemma idle_pq ev c : idle (pq ev c).
Proof. intros w Φ H. eexists _, _. split; [done|]. by apply H. Qed.

Lemma idle_pq_ ev c : idle (pq_ ev c).
Proof. apply idle_bind; [apply idle_pq|intros; apply idle_ret]. Qed.

Lemma idle_tick : idle next_tick.
Proof. intros w Φ H. eexists _, _. split; [done|]. by apply H. Qed.

Lemma idle_now ev : idle (aiopquic_now_ns ev).
Proof. apply idle_bind; [apply idle_tick|intros; apply idle_ret]. Qed.

#[export] Hint Resolve idle_ret idle_get idle_getb idle_count_n idle_count idle_set_cnt
  idle_pq idle_pq_ idle_tick idle_now : idle.

Ltac idle_step :=
  match goal with
  | |- idle (mbind _ _) => apply idle_bind; [|intros]
  | |- idle (when _ _) => apply idle_when
  | |- idle (if _ then _ else _) => apply idle_if
  | |- idle (let '_ := ?x in _) => destruct x
  | |- idle (match ?x with _ => _ end) => destruct x
  | |- idle _ => solve [eauto with idle]
  | |- idle _ => progress cbn zeta
  end.
Ltac idle_tac := repeat idle_step.

Section idle.
Context (ev : env).

Lemma idle_alive cnx : idle (aiopquic_cnx_is_alive ev cnx).
Proof. unfold aiopquic_cnx_is_alive. idle_tac. Qed.

Lemma idle_local cnx id : idle (aiopquic_stream_is_local ev cnx id).
Proof. unfold aiopquic_stream_is_local. idle_tac. Qed.

Lemma idle_can_send cnx id : idle (aiopquic_stream_can_send ev cnx id).
Proof. unfold aiopquic_stream_can_send. pose proof idle_local. idle_tac. Qed.

Lemma idle_can_receive cnx id : idle (aiopquic_stream_can_receive ev cnx id).
Proof. unfold aiopquic_stream_can_receive. pose proof idle_local. idle_tac. Qed.

Lemma idle_rx_log : idle (aiopquic_rx_log_enabled ev).
Proof.
  unfold aiopquic_rx_log_enabled. idle_tac. intros w Φ H. eexists _, _. split; [done|]. by apply H.
Qed.

Lemma idle_fc_raw : idle (aiopquic_fc_raw_enabled ev).
Proof.
  unfold aiopquic_fc_raw_enabled. idle_tac. intros w Φ H. eexists _, _. split; [done|]. by apply H.
Qed.

Lemma idle_closing cnx : idle (aiopquic_cnx_closing ev cnx).
Proof. unfold aiopquic_cnx_closing. idle_tac. Qed.

Lemma idle_negotiated cnx : idle (aiopquic_reset_stream_at_negotiated ev cnx).
Proof. unfold aiopquic_reset_stream_at_negotiated. idle_tac. Qed.

Lemma idle_reset_reliable cnx id code n : idle (aiopquic_reset_stream_reliable ev cnx id code n).
Proof. unfold aiopquic_reset_stream_reliable. idle_tac. Qed.

Lemma idle_ceiling cnx : idle (aiopquic_datagram_payload_ceiling ev cnx).
Proof. unfold aiopquic_datagram_payload_ceiling. idle_tac. Qed.

Lemma idle_window cnx id : idle (aiopquic_initial_rx_window ev cnx id).
Proof. unfold aiopquic_initial_rx_window. idle_tac. Qed.

Lemma idle_snapshot cnx : idle (aiopquic_cnx_snapshot_fill ev cnx).
Proof. unfold aiopquic_cnx_snapshot_fill. pose proof idle_ceiling. idle_tac. Qed.

Lemma idle_setb f : (∀ b, b_rx_event_ring (f b) = b_rx_event_ring b ∧
    b_tx_event_ring (f b) = b_tx_event_ring b ∧ b_rx_overflow (f b) = b_rx_overflow b ∧
    b_deferred_resets (f b) = b_deferred_resets b ∧ b_dgram_table (f b) = b_dgram_table b ∧
    b_dgram_release_owed (f b) = b_dgram_release_owed b ∧
    b_worker_trace (f b) = b_worker_trace b ∧ b_asyncio_trace (f b) = b_asyncio_trace b ∧
    b_rx_data_ring_cap (f b) = b_rx_data_ring_cap b ∧
    b_tx_event_ring_low_water (f b) = b_tx_event_ring_low_water b) ->
  idle (setb f).
Proof.
  intros Hf w Φ H. apply wp_setb, H. destruct (Hf (w_ctx w)) as (H1 & H2 & H3 & H4 & H5 & H6 & H7 & H8 & H9 & H10).
  unfold res_of. cbn. by rewrite H1, H2, H3, H4, H5, H6, H7, H8, H9, H10.
Qed.

Lemma idle_close_reason_hold cnx data len : idle (aiopquic_close_reason_hold ev cnx data len).
Proof.
  unfold aiopquic_close_reason_hold. idle_tac. by apply idle_setb.
Qed.

Lemma idle_offer tls names : idle (offer_alpns ev tls names).
Proof. induction names; cbn [offer_alpns]; idle_tac. Qed.

Lemma idle_wake_needed : idle aiopquic_tx_wake_needed.
Proof. unfold aiopquic_tx_wake_needed. idle_tac. by apply idle_setb. Qed.

Lemma idle_wake_up : idle (wake_up_worker ev).
Proof. unfold wake_up_worker. idle_tac. Qed.

Lemma idle_reattach cnx id sc rc : idle (aiopquic_stream_reattach_sc ev cnx id sc rc).
Proof. unfold aiopquic_stream_reattach_sc. pose proof idle_closing. idle_tac. Qed.
End idle.

#[export] Hint Resolve idle_alive idle_local idle_can_send idle_can_receive idle_rx_log idle_fc_raw
  idle_closing idle_negotiated idle_reset_reliable idle_ceiling idle_window idle_snapshot
  idle_close_reason_hold idle_offer idle_wake_needed idle_wake_up idle_reattach : idle.

(** ** Waking asyncio *)

(** A step that leaves the resources alone when the traces have their length. *)
Definition idle_t {A} (m : M A) : Prop :=
  ∀ w Φ, s_traces (res_of w) = (128, 128)%nat ->
    (∀ x w', res_of w' = res_of w -> Φ x w') -> wp m Φ w.

Lemma idle_t_idle {A} (m : M A) : idle m -> idle_t m.
Proof. intros Hm w Φ _. apply Hm. Qed.

Lemma idle_t_bind {A B} (m : M A) (k : A -> M B) :
  idle_t m -> (∀ x, idle_t (k x)) -> idle_t (x ← m; k x).
Proof.
  intros Hm Hk w Φ Ht H. apply wp_bind. apply Hm; [done|]. intros x w1 E1.
  apply Hk; [by rewrite E1|]. intros y w2 E2. apply H. by rewrite E2.
Qed.

Lemma idle_t_if {A} (b : bool) (m m' : M A) : idle_t m -> idle_t m' -> idle_t (if b then m else m').
Proof. by destruct b. Qed.

Lemma wake_trace_add_some t ts kind a b : length (wt_e t) = 128%nat ->
  ∃ t', aiopquic_wake_trace_add t ts kind a b = Some t' ∧ length (wt_e t') = 128%nat.
Proof.
  intros Hl. unfold aiopquic_wake_trace_add, AIOPQUIC_WAKE_TRACE_LEN. rewrite Hl.
  pose proof (Z.mod_pos_bound (wt_next t) 128).
  rewrite (proj2 (Z.ltb_lt _ _)) by lia. eexists; split; [done|]. cbn. by rewrite length_insert.
Qed.

Section wake.
Context (ev : env).

Lemma idle_t_worker_trace kind a b : idle_t (worker_trace_add ev kind a b).
Proof.
  intros w Φ Ht H. unfold worker_trace_add. apply wp_bind, idle_now. intros ts w1 E1.
  assert (Ht1 := Ht). rewrite <- E1 in Ht1. unfold res_of in Ht1. cbn in Ht1.
  injection Ht1 as Hw Ha.
  destruct (wake_trace_add_some (b_worker_trace (w_ctx w1)) ts kind a b Hw) as (t' & E & Hl).
  eexists _, _. split; [by rewrite E|]. apply H. rewrite <- E1. unfold res_of. cbn.
  by rewrite Hl, Hw.
Qed.

Lemma idle_t_asyncio_trace kind a b : idle_t (asyncio_trace_add ev kind a b).
Proof.
  intros w Φ Ht H. unfold asyncio_trace_add. apply wp_bind, idle_now. intros ts w1 E1.
  assert (Ht1 := Ht). rewrite <- E1 in Ht1. unfold res_of in Ht1. cbn in Ht1.
  injection Ht1 as Hw Ha.
  destruct (wake_trace_add_some (b_asyncio_trace (w_ctx w1)) ts kind a b Ha) as (t' & E & Hl).
  eexists _, _. split; [by rewrite E|]. apply H. rewrite <- E1. unfold res_of. cbn.
  by rewrite Hl, Ha.
Qed.

Lemma idle_wake_write : idle (wake_write ev).
Proof.
  unfold wake_write. idle_tac. intros w Φ H. eexists _, _. split; [done|]. apply H.
  by case_match.
Qed.

Lemma idle_wake_read : idle wake_read.
Proof. intros w Φ H. eexists _, _. split; [done|]. by apply H. Qed.

Lemma idle_t_notify : idle_t (aiopquic_notify_rx ev).
Proof.
  unfold aiopquic_notify_rx. pose proof idle_wake_write.
  apply idle_t_bind; [apply idle_t_idle; idle_tac|]. intros was.
  apply idle_t_bind; [by apply idle_t_idle, idle_setb|]. intros _.
  apply idle_t_if; [apply idle_t_idle; idle_tac|].
  apply idle_t_bind; [by apply idle_t_idle|]. intros err.
  apply idle_t_bind; [apply idle_t_idle; idle_tac|]. intros _.
  apply idle_t_bind; [apply idle_t_idle; idle_tac; by apply idle_setb|]. intros _.
  apply idle_t_bind; [apply idle_t_idle; idle_tac|]. intros n.
  apply idle_t_worker_trace.
Qed.
End wake.

(** ** Payload blocks *)

(** Blocks belong to the entries that own them, one each, and no other block is
    left. *)
Record heap_ok (h : heap) (es : list spsc_entry) : Prop := {
  ho_nodup : NoDup (owned es);
  ho_only : ∀ p, is_Some (h !! p) -> p ∈ owned es;
  ho_block : ∀ e, e ∈ es -> entry_owns e = true ->
    ∃ bs, h !! e_data_buf e = Some bs ∧ zlen bs = e_data_length e
}.

Lemma owned_elem p es : p ∈ owned es ↔ ∃ e, e ∈ es ∧ entry_owns e = true ∧ e_data_buf e = p.
Proof.
  unfold owned. rewrite list_elem_of_omap. unfold owned_buf. split.
  - intros (e & He & Ho). exists e. destruct (entry_owns e) eqn:E; [by simplify_eq|done].
  - intros (e & He & E & <-). exists e. by rewrite E.
Qed.

Lemma owned_perm es es' : es ≡ₚ es' -> owned es ≡ₚ owned es'.
Proof. apply omap_Permutation. Qed.

Lemma heap_ok_perm h es es' : es ≡ₚ es' -> heap_ok h es -> heap_ok h es'.
Proof.
  intros Hp [H1 H2 H3]. pose proof (owned_perm _ _ Hp) as Ho. split.
  - by rewrite <- Ho.
  - intros p Hs. rewrite <- Ho. auto.
  - intros e He. apply H3. by rewrite Hp.
Qed.

Lemma heap_ok_unowned h es e : entry_owns e = false -> heap_ok h es -> heap_ok h (e :: es).
Proof.
  intros Eo [H1 H2 H3]. assert (E : owned (e :: es) = owned es) by (rewrite owned_cons, Eo; done).
  split; rewrite ?E; try done. intros e' [->|He]%elem_of_cons; [congruence|auto].
Qed.

Lemma heap_ok_new h es e p data : p <> 0 -> 0 < zlen data -> h !! p = None -> heap_ok h es ->
  heap_ok (<[p := data]> h) (entry_set_data e p (zlen data) :: es).
Proof.
  intros Hp Hd Hf [H1 H2 H3].
  assert (Eo : entry_owns (entry_set_data e p (zlen data)) = true).
  { rewrite entry_owns_set_data, (proj2 (Z.eqb_neq p 0)), (proj2 (Z.ltb_lt 0 _)) by done. done. }
  assert (E : owned (entry_set_data e p (zlen data) :: es) = p :: owned es)
    by (rewrite owned_cons, Eo; done).
  split; rewrite ?E.
  - apply NoDup_cons. split; [|done]. rewrite owned_elem. intros (e' & He & Eo' & <-).
    destruct (H3 e' He Eo') as (bs & Eb & _). congruence.
  - intros q. rewrite lookup_insert_is_Some. rewrite elem_of_cons. intros [<-|[_ Hq]]; auto.
  - intros e' [->|He]%elem_of_cons Eo'.
    + exists data. cbn. by rewrite lookup_insert_eq.
    + destruct (H3 e' He Eo') as (bs & Eb & El). exists bs. split; [|done].
      rewrite lookup_insert_ne; [done|congruence].
Qed.

Lemma heap_ok_free h e es : heap_ok h (e :: es) ->
  (entry_owns e = true -> is_Some (h !! e_data_buf e)) ∧
  heap_ok (if entry_owns e then delete (e_data_buf e) h else h) es.
Proof.
  intros [H1 H2 H3]. split.
  { intros Eo. destruct (H3 e) as (bs & Eb & _); [by left|done|eauto]. }
  rewrite owned_cons in H1, H2. destruct (entry_owns e) eqn:Eo; cbn in *.
  - apply NoDup_cons in H1 as [Hn H1]. split; [done| |].
    + intros p [bs [Hne Hp]%lookup_delete_Some].
      destruct (proj1 (elem_of_cons _ _ _) (H2 p (ex_intro _ _ Hp))) as [->|]; done.
    + intros e' He Eo'. destruct (H3 e') as (bs & Eb & El); [by right|done|].
      exists bs. split; [|done]. rewrite lookup_delete_ne; [done|].
      intros Heq. apply Hn. rewrite Heq. apply owned_elem. eauto.
  - split; [done|done|]. intros e' He. apply H3. by right.
Qed.

(** ** Pushes, pops and refills on queues of entries *)

(** The queued entry is the pushed one up to its payload fields. *)
Definition e_like (e e' : spsc_entry) : Prop := ∃ p n, e' = entry_set_data e p n.

Lemma e_like_refl e : e_like e e.
Proof. exists (e_data_buf e), (e_data_length e). by destruct e. Qed.

Lemma no_buf_unowned e : e_data_buf e = 0 -> entry_owns e = false.
Proof. unfold entry_owns. by intros ->. Qed.

(** A payload pointer comes with its length. *)
Definition buf_owned (e : spsc_entry) : Prop := e_data_buf e = 0 ∨ entry_owns e = true.

Section queues.
Context {r : spsc_ring} {H : Z} {q : list spsc_entry} (R : rq_rep r H q).
Context {h : heap} {es : list spsc_entry} (Hh : heap_ok h es).

(** The ring with [e'] behind its queue, and the heap it needs. *)
Definition pushed (r' : spsc_ring) (h' : heap) (entry e' : spsc_entry) : Prop :=
  r_capacity r' = r_capacity r ∧ e_like entry e' ∧ rq_rep r' H (q ++ [e']) ∧ heap_ok h' (e' :: es).

Lemma ring_push_raw p entry data : (p <> 0 -> h !! p = None) -> H + zlen q + 1 < 2 ^ 64 ->
  ∃ rc r' h', spsc_ring_push r h p entry data = Some (rc, r', h') ∧
    ((rc = 0 ∧ ∃ e', pushed r' h' entry e' ∧ buf_owned e') ∨
     ((rc = -1 ∧ zlen q = r_capacity r ∨ rc = -2 ∧ 0 < zlen data) ∧ r' = r ∧ h' = h)).
Proof using R Hh.
  intros Hp Hw. unfold spsc_ring_push. rewrite (rq_used _ _ _ R), Z.geb_leb.
  pose proof (rq_fit _ _ _ R).
  destruct (Z.leb_spec (r_capacity r) (zlen q)).
  { do 3 eexists. split; [done|]. right. split; [left; lia|done]. }
  destruct (Z.ltb_spec 0 (zlen data)) as [Hd|Hd]; cbn [andb].
  - destruct (Z.eqb_spec p 0) as [->|Hp0].
    { do 3 eexists. split; [done|]. right. auto. }
    cbn [negb].
    destruct (rq_publish _ _ _ R (entry_set_data entry p (zlen data))
      (if 0 <? zlen data then u64 (r_bytes_pending r + zlen data) else r_bytes_pending r))
      as (es' & -> & R'); [lia..|].
    cbn [mbind option_bind]. do 3 eexists. split; [done|]. left. split; [done|].
    eexists. split; [split; [done|]; split; [by eexists _, _|]; split; [exact R'|]|].
    { by apply heap_ok_new; auto. }
    right. rewrite entry_owns_set_data.
    by rewrite (proj2 (Z.eqb_neq p 0)), (proj2 (Z.ltb_lt 0 _)).
  - cbn [negb Z.eqb].
    destruct (rq_publish _ _ _ R (entry_set_data entry 0 0) (r_bytes_pending r))
      as (es' & -> & R'); [lia..|].
    cbn [mbind option_bind]. do 3 eexists. split; [done|]. left. split; [done|].
    eexists. split; [split; [done|]; split; [by eexists _, _|]; split; [exact R'|]|by left].
    by apply heap_ok_unowned.
Qed.

Lemma ring_push_borrowed_raw entry : entry_owns entry = false -> H + zlen q + 1 < 2 ^ 64 ->
  ∃ rc r', spsc_ring_push_borrowed r entry = Some (rc, r') ∧
    ((rc = 0 ∧ pushed r' h entry entry) ∨ (rc = -1 ∧ zlen q = r_capacity r ∧ r' = r)).
Proof using R Hh.
  intros Hb Hw. unfold spsc_ring_push_borrowed. rewrite (rq_used _ _ _ R), Z.geb_leb.
  pose proof (rq_fit _ _ _ R).
  destruct (Z.leb_spec (r_capacity r) (zlen q)).
  { do 2 eexists. split; [done|]. right. split_and!; [done|lia|done]. }
  destruct (rq_publish _ _ _ R entry (r_bytes_pending r)) as (es' & -> & R'); [lia..|].
  cbn [mbind option_bind]. do 2 eexists. split; [done|]. left. split; [done|]. split; [done|].
  split; [apply e_like_refl|]. split; [exact R'|]. by apply heap_ok_unowned.
Qed.
End queues.

Lemma overflow_append_raw o h es q2 pa entry data : heap_ok h es -> alloc_fresh h pa ->
  o_nodes o = q2 -> o_depth o = zlen q2 -> zlen q2 + 1 < 2 ^ 64 ->
  ∃ rc o' h', overflow_append o h pa entry data = (rc, o', h') ∧
    ((rc = 1 ∧ ∃ e', e_like entry e' ∧ o_nodes o' = q2 ++ [e'] ∧ o_depth o' = zlen (q2 ++ [e']) ∧
        heap_ok h' (e' :: es)) ∨
     (rc = -2 ∧ o' = o ∧ h' = h)).
Proof.
  intros Hh [_ Hf] En Ed Hw. unfold overflow_append.
  destruct (pa_node pa); cbn [negb]; [|do 3 eexists; split; [done|]; by right].
  destruct (Z.ltb_spec 0 (zlen data)) as [Hd|Hd]; cbn [andb].
  - destruct (Z.eqb_spec (pa_data pa) 0) as [Hz|Hz]; [do 3 eexists; split; [done|]; by right|].
    do 3 eexists. split; [done|]. left. split; [done|]. eexists. split; [by eexists _, _|].
    cbn [o_nodes o_depth]. rewrite En, Ed. split; [done|]. split.
    + rewrite length_app, u64_small by lia. cbn. lia.
    + apply heap_ok_new; auto.
  - do 3 eexists. split; [done|]. left. split; [done|]. eexists. split; [by eexists _, _|].
    cbn [o_nodes o_depth]. rewrite En, Ed. split; [done|]. split.
    + rewrite length_app, u64_small by lia. cbn. lia.
    + apply heap_ok_unowned; [|done]. by rewrite entry_owns_set_data, andb_false_r.
Qed.

(** Where the next entry goes: the ring while nothing overflowed and a slot is free. *)
Definition placed (cap : Z) (q1 q2 : list spsc_entry) (e : spsc_entry)
    : list spsc_entry * list spsc_entry :=
  if (zlen q2 =? 0) && (zlen q1 <? cap) then (q1 ++ [e], q2) else (q1, q2 ++ [e]).

Lemma placed_app cap q1 q2 e :
  (placed cap q1 q2 e).1 ++ (placed cap q1 q2 e).2 = (q1 ++ q2) ++ [e].
Proof.
  unfold placed. destruct (Z.eqb_spec (zlen q2) 0) as [Hz|]; cbn [andb].
  - destruct q2; [|cbn in Hz; lia]. destruct (zlen q1 <? cap); cbn; by rewrite ?app_nil_r.
  - cbn. by rewrite app_assoc.
Qed.

Lemma push_or_overflow_raw r H q1 q2 o h es pa entry data : rq_rep r H q1 ->
  o_nodes o = q2 -> o_depth o = zlen q2 -> heap_ok h es -> alloc_fresh h pa ->
  (data = [] -> entry_owns entry = false) -> H + zlen q1 + zlen q2 + 1 < 2 ^ 64 ->
  ∃ rc r' o' h', spsc_ring_push_or_overflow r o h pa entry data = Some (rc, r', o', h') ∧
    ((0 <= rc ∧ ∃ e', e_like entry e' ∧ let q := placed (r_capacity r) q1 q2 e' in
        rq_rep r' H q.1 ∧ r_capacity r' = r_capacity r ∧ o_nodes o' = q.2 ∧
        o_depth o' = zlen q.2 ∧ heap_ok h' (e' :: es)) ∨
     (rc = -2 ∧ r' = r ∧ o' = o ∧ h' = h)).
Proof.
  intros R En Ed Hh Hf Hb Hw. pose proof (rq_start _ _ _ R).
  unfold spsc_ring_push_or_overflow.
  assert (A : zlen q2 <> 0 ∨ r_capacity r <= zlen q1 ->
    ∃ rc o' h', overflow_append o h pa entry data = (rc, o', h') ∧
    ((0 <= rc ∧ ∃ e', e_like entry e' ∧ let q := placed (r_capacity r) q1 q2 e' in
        rq_rep r H q.1 ∧ r_capacity r = r_capacity r ∧ o_nodes o' = q.2 ∧
        o_depth o' = zlen q.2 ∧ heap_ok h' (e' :: es)) ∨
     (rc = -2 ∧ r = r ∧ o' = o ∧ h' = h))).
  { intros Hp. assert (Ep : ∀ e, placed (r_capacity r) q1 q2 e = (q1, q2 ++ [e])).
    { intros e. unfold placed. destruct (Z.eqb_spec (zlen q2) 0); [|done].
      destruct (Z.ltb_spec (zlen q1) (r_capacity r)); [lia|done]. }
    destruct (overflow_append_raw o h es q2 pa entry data Hh Hf En Ed ltac:(lia))
      as (rc & o' & h' & -> & [(-> & e' & He & En' & Ed' & Hh')|(-> & -> & ->)]).
    - do 3 eexists. split; [done|]. left. split; [lia|].
      exists e'. split; [done|]. by rewrite Ep.
    - do 3 eexists. split; [done|]. by right. }
  rewrite Ed. destruct (Z.eqb_spec (zlen q2) 0) as [Hz|Hz].
  2: { destruct (A (or_introl Hz)) as (rca & oa & ha & -> & Ha). do 4 eexists. split; [done|]. exact Ha. }
  destruct q2 as [|? ?]; [|cbn in Hz; lia].
  assert (P : ∃ rc r' h',
    (if 0 <? zlen data then spsc_ring_push r h (pa_ring pa) entry data
     else '(rc, r) ← spsc_ring_push_borrowed r entry; Some (rc, r, h)) = Some (rc, r', h') ∧
    ((rc = 0 ∧ ∃ e', pushed (r := r) (H := H) (q := q1) (es := es) r' h' entry e') ∨
     ((rc = -1 ∧ zlen q1 = r_capacity r ∨ rc = -2) ∧ r' = r ∧ h' = h))).
  { destruct (Z.ltb_spec 0 (zlen data)) as [Hd|Hd].
    - destruct (ring_push_raw R Hh (pa_ring pa) entry data (proj1 Hf) ltac:(lia))
        as (rc & r' & h' & -> & [(? & e' & ? & _)|([[? ?]|[? _]] & ?)]); do 3 eexists;
        (split; [done|]); eauto.
    - assert (Hn : entry_owns entry = false) by (apply Hb; destruct data; [done|cbn in Hd; lia]).
      destruct (ring_push_borrowed_raw R Hh entry Hn ltac:(lia)) as (rc & r' & -> & Hr).
      cbn [mbind option_bind]. do 3 eexists. split; [done|].
      destruct Hr as [[? ?]|(? & ? & ?)]; eauto 6. }
  destruct P as (rc & r' & h' & -> & [(-> & e' & Ec & He & R' & Hh')|([[-> Hfull]| ->] & -> & ->)]);
    cbn [mbind option_bind Z.eqb Pos.eqb orb].
  - pose proof (rq_fit _ _ _ R') as Hfit. rewrite length_app in Hfit. cbn in Hfit.
    do 4 eexists. split; [done|]. left. split; [done|]. exists e'. split; [done|].
    unfold placed. rewrite (proj2 (Z.eqb_eq _ _) Hz), (proj2 (Z.ltb_lt _ _)) by lia. by cbn.
  - destruct (A (or_intror (Z.eq_le_incl _ _ (eq_sym Hfull)))) as (rca & oa & ha & -> & Ha).
    do 4 eexists. split; [done|]. exact Ha.
  - do 4 eexists. split; [done|]. by right.
Qed.

Lemma refill_raw r H q1 q2 o : rq_rep r H q1 -> o_nodes o = q2 -> o_depth o = zlen q2 ->
  H + zlen q1 + zlen q2 < 2 ^ 64 ->
  ∃ r' o' q1' q2', spsc_ring_refill_from_overflow r o
      = Some (Z.min (zlen q2) (r_capacity r - zlen q1), r', o') ∧
    rq_rep r' H q1' ∧ o_nodes o' = q2' ∧ o_depth o' = zlen q2' ∧ q1' ++ q2' = q1 ++ q2 ∧
    zlen q1' = zlen q1 + Z.min (zlen q2) (r_capacity r - zlen q1) ∧ r_capacity r' = r_capacity r.
Proof.
  intros R En Ed Hw. unfold spsc_ring_refill_from_overflow. rewrite En, Ed. clear En Ed.
  assert (L : ∀ moved, 0 <= moved -> moved + (r_capacity r - zlen q1) < 2 ^ 32 ->
    ∃ r' q1' q2', refill_loop q2 (zlen q2) moved r
      = Some (moved + Z.min (zlen q2) (r_capacity r - zlen q1), r', q2', zlen q2') ∧
      rq_rep r' H q1' ∧ q1' ++ q2' = q1 ++ q2 ∧
      zlen q1' = zlen q1 + Z.min (zlen q2) (r_capacity r - zlen q1) ∧ r_capacity r' = r_capacity r).
  { revert r q1 R Hw. induction q2 as [|e q2 IH]; intros r q1 R Hw moved H0 Hm; pose proof (rq_fit _ _ _ R).
    { exists r, q1, []. cbn [length refill_loop Z.of_nat]. rewrite Z.min_l, !Z.add_0_r by lia. done. }
    cbn [refill_loop]. rewrite Z.gtb_ltb, (proj2 (Z.ltb_lt 0 _)) by (cbn; lia). cbn [negb].
    pose proof (rq_start _ _ _ R). cbn [length] in Hw.
    rewrite (rq_used _ _ _ R), Z.geb_leb. destruct (Z.leb_spec (r_capacity r) (zlen q1)).
    { exists r, q1, (e :: q2). assert (Hz : r_capacity r - zlen q1 = 0) by lia.
      rewrite Hz, Z.min_r, !Z.add_0_r by (cbn [length]; lia). done. }
    set (b := if 0 <? e_data_length e then _ else _).
    destruct (rq_publish _ _ _ R e b) as (es' & -> & R'); [lia..|].
    cbn [mbind option_bind].
    rewrite (u64_small (_ - 1)), (u32_small (moved + 1)) by (cbn [length]; lia).
    replace (zlen (e :: q2) - 1) with (zlen q2) by (cbn [length]; lia).
    destruct (IH (ring_publish r es' b) (q1 ++ [e]) R') with (moved := moved + 1)
      as (r' & q1' & q2' & E & R2 & Eq & El & Ec);
      [rewrite length_app; cbn; lia|lia|rewrite length_app; cbn; lia|].
    rewrite length_app in E, El. cbn [length ring_publish r_capacity] in E, El, Ec |- *. rewrite E.
    exists r', q1', q2'. split; [do 4 f_equal; lia|]. split; [done|]. split; [by rewrite Eq, <- app_assoc|split; [lia|done]]. }
  pose proof (rq_cap _ _ _ R).
  destruct (L 0) as (r' & q1' & q2' & -> & R' & Eq & El & Ec); [lia..|]. cbn [mbind option_bind].
  do 2 eexists. exists q1', q2'. split_and!; done.
Qed.

(** ** Wrappers *)

Definition rx_sound (sc : stream_ctx) : Prop := ∀ rx, sc_rx sc = Some rx -> ∃ H q, sb_rep rx H q.

(** [sc_inv], sound RX rings, and a TX ring in every wrapper of [D]. *)
Record wraps (T : Z) (f : Z -> Z) (D : list Z) (s : sc_world) : Prop := {
  wr_inv : sc_inv T f s;
  wr_rx : ∀ p sc, sw_scs s !! p = Some sc -> rx_sound sc;
  wr_held : ∀ p, p ∈ D -> ∃ sc, sw_scs s !! p = Some sc ∧ is_Some (sc_tx sc)
}.

Lemma sc_inv_ext T f g s : (∀ p, f p = g p) -> sc_inv T f s -> sc_inv T g s.
Proof. intros E [R ? ? ? ? ? ? ?]. split; try done. by eapply rc_ok_ext. Qed.

Lemma wraps_ext T f g D s : (∀ p, f p = g p) -> wraps T f D s -> wraps T g D s.
Proof. intros E [I ? ?]. split; try done. by eapply sc_inv_ext. Qed.

Lemma wraps_sub T f D D' s : (∀ p, p ∈ D' -> p ∈ D) -> wraps T f D s -> wraps T f D' s.
Proof. intros Hs [I ? Hd]. split; auto. Qed.

(** How one wrapper may change. *)
Definition keeps (sc sc' : stream_ctx) : Prop :=
  (rx_sound sc -> rx_sound sc') ∧ (is_Some (sc_tx sc) -> is_Some (sc_tx sc')).

Lemma keeps_same sc sc' : sc_rx sc' = sc_rx sc -> (is_Some (sc_tx sc) -> is_Some (sc_tx sc')) ->
  keeps sc sc'.
Proof. intros E Ht. split; [|done]. unfold rx_sound. by rewrite E. Qed.

Section wraps.
Context {T : Z} {f : Z -> Z} {D : list Z} {s : sc_world} (W : wraps T f D s).

Lemma wraps_live p : 0 < f p -> ∃ sc, sw_scs s !! p = Some sc ∧ p <> 0 ∧ tx_ok T sc ∧ rx_sound sc.
Proof using W.
  intros Hp. destruct (sc_live (wr_inv _ _ _ _ W) p Hp) as (sc & E & Hp0 & Ht).
  exists sc. split_and!; try done. by eapply W.
Qed.

Lemma wraps_insert T' f' s' p sc sc' : sc_inv T' f' s' -> sw_scs s !! p = Some sc ->
  sw_scs s' = <[p := sc']> (sw_scs s) -> keeps sc sc' -> wraps T' f' D s'.
Proof using W.
  intros I E Es [K1 K2]. split; [done| |]; rewrite Es.
  - intros q c. rewrite lookup_insert_Some. intros [[<- <-]|[_ Eq]]; [apply K1|]; by eapply W.
  - intros q Hq. destruct (wr_held _ _ _ _ W q Hq) as (c & Eq & Hc).
    destruct (decide (p = q)) as [<-|Hne].
    + exists sc'. rewrite lookup_insert_eq. split; [done|]. apply K2. congruence.
    + exists c. by rewrite lookup_insert_ne.
Qed.

Lemma wraps_delete T' f' s' p : sc_inv T' f' s' -> sw_scs s' = delete p (sw_scs s) ->
  p ∉ D -> wraps T' f' D s'.
Proof using W.
  intros I Es Hp. split; [done| |]; rewrite Es.
  - intros q c [_ Eq]%lookup_delete_Some. by eapply W.
  - intros q Hq. destruct (wr_held _ _ _ _ W q Hq) as (c & Eq & Hc). exists c.
    rewrite lookup_delete_ne; [done|]. by intros ->.
Qed.

(** A change of fields that move no byte and no reference. *)
Lemma wraps_update p F : 0 < f p -> (∀ sc, tx_ok T sc -> rx_sound sc ->
    sc_refcount (F sc) = sc_refcount sc ∧ sc_tx (F sc) = sc_tx sc ∧ rx_sound (F sc) ∧
    0 <= sc_tx_reliable_size (F sc) < 2 ^ 64) ->
  ∃ sc s', sw_scs s !! p = Some sc ∧ sc_update p F s = Some s' ∧
    s' = ScWorld (<[p := F sc]> (sw_scs s)) (sw_g s) ∧ wraps T f D s'.
Proof using W.
  intros Hp HF. destruct (wraps_live p Hp) as (sc & E & _ & Ht & Hr).
  destruct (HF sc Ht Hr) as (F1 & F2 & F3 & F4). unfold sc_update. rewrite E. cbn [mbind option_bind].
  eexists _, _. split; [done|]. split; [done|]. split; [done|].
  eapply wraps_insert; [by eapply sc_inv_quiet; [apply W|..]|done|done|].
  split; [done|]. by rewrite F2.
Qed.

Lemma wraps_ref p : 0 < f p -> f p + 1 < 2 ^ 32 ->
  ∃ s', aiopquic_stream_ctx_ref p s = Some s' ∧ wraps T (λ q, f q + c_bool (q =? p)) D s'.
Proof using W.
  intros Hp Hlt. destruct (sc_ref_step (wr_inv _ _ _ _ W) p Hp Hlt) as (s' & E' & I').
  exists s'. split; [done|]. destruct (wraps_live p Hp) as (sc & E & Hp0 & _).
  unfold aiopquic_stream_ctx_ref, sc_update_nn, sc_update in E'.
  rewrite (proj2 (Z.eqb_neq p 0)), E in E' by done. cbn [mbind option_bind] in E'.
  injection E' as <-. eapply wraps_insert; [exact I'|exact E|done|]. by apply keeps_same.
Qed.

Lemma wraps_destroy p : 0 < f p -> (∀ d, d ∈ D -> 0 < f d - c_bool (d =? p)) ->
  ∃ s', aiopquic_stream_ctx_destroy p s = Some s' ∧ wraps T (λ q, f q - c_bool (q =? p)) D s'.
Proof using W.
  intros Hp HD. destruct (sc_destroy_step (wr_inv _ _ _ _ W) p Hp) as (s' & E' & I').
  exists s'. split; [done|]. destruct (wraps_live p Hp) as (sc & E & Hp0 & _).
  destruct (rc_live _ _ (si_refs _ _ _ (wr_inv _ _ _ _ W)) _ _ E) as [Ec _].
  change (rc_count sc) with (sc_refcount sc) in Ec.
  unfold aiopquic_stream_ctx_destroy in E'.
  rewrite (proj2 (Z.eqb_neq p 0)), E in E' by done. cbn [mbind option_bind] in E'. rewrite Ec in E'.
  destruct (Z.eqb_spec (f p) 1) as [E1|E1]; cbn [negb] in E'.
  - injection E' as <-. eapply wraps_delete; [exact I'|done|].
    intros Hin. specialize (HD p Hin). rewrite Z.eqb_refl in HD. cbn in HD. lia.
  - unfold sc_update in E'. rewrite E in E'. cbn [mbind option_bind] in E'. injection E' as <-.
    eapply wraps_insert; [exact I'|exact E|done|]. by apply keeps_same.
Qed.

Lemma wraps_create p : f p = 0 ->
  wraps T (λ q, f q + (if p =? 0 then 0 else c_bool (q =? p))) D (aiopquic_stream_ctx_create p s).2.
Proof using W.
  intros Hp. pose proof (sc_create_step (wr_inv _ _ _ _ W) p Hp) as I'.
  assert (E : sw_scs s !! p = None).
  { destruct (sw_scs s !! p) eqn:E; [|done].
    apply (rc_live _ _ (si_refs _ _ _ (wr_inv _ _ _ _ W))) in E as [_ ?]. lia. }
  split; [exact I'| |]; unfold aiopquic_stream_ctx_create; destruct (p =? 0); try apply W;
    cbn [snd sw_scs].
  - intros q c. rewrite lookup_insert_Some. intros [[<- <-]|[_ Eq]]; [done|by eapply W].
  - intros q Hq. destruct (wr_held _ _ _ _ W q Hq) as (c & Eq & Hc). exists c.
    rewrite lookup_insert_ne; [done|congruence].
Qed.

Lemma wraps_abandon p : p = 0 ∨ 0 < f p ->
  ∃ s', aiopquic_stream_ctx_tx_abandon p s = Some s' ∧ wraps T f D s'.
Proof using W.
  intros [->|Hp]; [by exists s|].
  destruct (sc_abandon_step (wr_inv _ _ _ _ W) p Hp) as (s' & E' & I'). exists s'. split; [done|].
  destruct (wraps_live p Hp) as (sc & E & Hp0 & _).
  unfold aiopquic_stream_ctx_tx_abandon in E'.
  rewrite (proj2 (Z.eqb_neq p 0)), E in E' by done. cbn [mbind option_bind] in E'.
  destruct (sc_tx sc) as [tx|] eqn:Et; [|by simplify_eq].
  destruct (sb_tail tx >? sb_head tx); [|by simplify_eq].
  injection E' as <-. eapply wraps_insert; [exact I'|exact E|done|].
  apply keeps_same; [done|]. by eexists.
Qed.

(** The RX ring of a wrapper: created when missing, and pushed to. *)
Lemma wraps_ensure_rx a capacity p : 0 < f p -> alloc_ok a capacity ->
  ∃ rc s', aiopquic_stream_ctx_ensure_rx a capacity p s = Some (rc, s') ∧ wraps T f D s' ∧
    (rc = 0 -> ∃ sc, sw_scs s' !! p = Some sc ∧ is_Some (sc_rx sc)).
Proof using W.
  intros Hp Ha. destruct (wraps_live p Hp) as (sc & E & Hp0 & [Ht1 Ht2] & Hr).
  unfold aiopquic_stream_ctx_ensure_rx. rewrite (proj2 (Z.eqb_neq p 0)), E by done.
  cbn [mbind option_bind]. destruct (sc_rx sc) as [rx|] eqn:Erx.
  { do 2 eexists. split; [done|]. split; [done|]. intros _. exists sc. by rewrite Erx. }
  assert (Hb : ∀ rx, buf_create a capacity = Some rx -> ∃ H q, sb_rep rx H q).
  { intros rx Eb. destruct (buf_create_cases a capacity Ha) as [?|(tx & Etx & R)]; [congruence|].
    simplify_eq. eauto. }
  destruct (wraps_update p (sc_set_rx (buf_create a capacity)) Hp) as (sc' & s' & E' & -> & -> & W').
  { intros c [Hc _] _. split_and!; try done; first [exact Hb|apply Hc]. }
  rewrite E in E'. injection E' as <-. cbn [mbind option_bind]. do 2 eexists. split; [done|].
  split; [done|]. intros Hz. exists (sc_set_rx (buf_create a capacity) sc). cbn [sw_scs].
  rewrite lookup_insert_eq. split; [done|]. cbn [sc_rx sc_set_rx].
  destruct (buf_create a capacity); [by eexists|done].
Qed.

Lemma wraps_push_rx p data : 0 < f p ->
  (∃ sc, sw_scs s !! p = Some sc ∧ is_Some (sc_rx sc)) -> zlen data < 2 ^ 32 ->
  ∃ sc rx n rx', sw_scs s !! p = Some sc ∧ sc_rx sc = Some rx ∧
    aiopquic_stream_buf_push rx data = Some (n, rx') ∧ 0 <= n ∧
    wraps T f D (ScWorld (<[p := sc_set_rx (Some rx') sc]> (sw_scs s)) (sw_g s)).
Proof using W.
  intros Hp (sc & E & [rx Erx]) Hd. destruct (wraps_live p Hp) as (sc2 & E2 & Hp0 & [Ht _] & Hr).
  rewrite E in E2. injection E2 as <-. destruct (Hr rx Erx) as (H & q & R).
  destruct (stream_buf_push_spec rx H q data R Hd) as (rx' & Ep & R' & _).
  pose proof (sb_rep_fit _ _ _ R). exists sc, rx. do 2 eexists. split_and!; try done.
  { unfold accepted. lia. }
  eapply wraps_insert; [by eapply sc_inv_quiet; [apply W|..]|done|done|].
  split; [|done]. intros _ rx2 [= <-]. eauto.
Qed.
End wraps.

(** The worker's pull, as the callback writes it. *)
Definition pop_tx (sc n : Z) (s : sc_world) : option (list Z * sc_world) :=
  c ← sw_scs s !! sc; tx ← sc_tx c;
  '(bs, tx) ← aiopquic_stream_buf_pop tx n;
  Some (bs, ScWorld (<[sc := sc_set_tx (Some tx) c]> (sw_scs s))
              (aiopquic_tx_data_bytes_pulled_add n (sw_g s))).

Lemma pop_tx_is_pull s p sc tx n m : sw_scs s !! p = Some sc -> sc_tx sc = Some tx ->
  aiopquic_stream_ctx_tx_sendable sc (aiopquic_stream_buf_used tx) = Some m ->
  0 < n <= m -> pop_tx p n s = sc_pull p n s.
Proof.
  intros E Et Es Hn. unfold pop_tx, sc_pull. rewrite E. cbn [mbind option_bind]. rewrite Et.
  cbn [mbind option_bind]. rewrite Es. cbn [mbind option_bind].
  assert (En : (if m <? n then m else n) = n) by (case_bool; lia).
  by rewrite En, Z.gtb_ltb, (proj2 (Z.ltb_lt 0 n)) by lia.
Qed.

Lemma wraps_pop_tx T f D s p sc tx n m : wraps T f D s -> 0 < f p ->
  sw_scs s !! p = Some sc -> sc_tx sc = Some tx ->
  aiopquic_stream_ctx_tx_sendable sc (aiopquic_stream_buf_used tx) = Some m -> 0 < n <= m ->
  ∃ bs s', pop_tx p n s = Some (bs, s') ∧ wraps T f D s'.
Proof.
  intros W Hp E Et Es Hn. rewrite (pop_tx_is_pull _ _ _ _ _ _ E Et Es Hn).
  destruct (sc_work_step (wr_inv _ _ _ _ W) p (PullBytes n) Hp) as (r & s' & Ew & I'); [cbn; lia|].
  cbn [tx_worker_step] in Ew. destruct (sc_pull p n s) as [[bs s2]|] eqn:Ep; [|done].
  cbn in Ew. simplify_eq. exists bs, s'. split; [done|].
  rewrite <- (pop_tx_is_pull _ _ _ _ _ _ E Et Es Hn) in Ep. unfold pop_tx in Ep.
  rewrite E in Ep. cbn [mbind option_bind] in Ep. rewrite Et in Ep. cbn [mbind option_bind] in Ep.
  destruct (aiopquic_stream_buf_pop tx n) as [[b tx']|]; [|done]. cbn in Ep. simplify_eq.
  eapply wraps_insert; [exact W|exact I'|exact E|done|]. apply keeps_same; [done|]. by eexists.
Qed.

Lemma wraps_drain_take T f D s p : wraps T f D s -> 0 < f p ->
  ∃ sc s', sw_scs s !! p = Some sc ∧
    s' = ScWorld (<[p := sc_set_tx_drain_pending 0 sc]> (sw_scs s)) (sw_g s) ∧ wraps T f D s'.
Proof.
  intros W Hp. destruct (wraps_update W p (sc_set_tx_drain_pending 0) Hp) as (sc & s' & E & _ & -> & W').
  { intros c [Hc _] Hr. split_and!; try done; apply Hc. }
  eauto.
Qed.

(** Python's sends. *)
Definition is_send (x : Z -> Z) (o : sc_op) : Prop :=
  match o with
  | ScSend a _ during p _ capacity _ => 0 < x p ∧ alloc_ok a capacity ∧ during = []
  | _ => False
  end.

Lemma is_send_mono x y o : (∀ p, x p <= y p) -> is_send x o -> is_send y o.
Proof. intros H. destruct o; try done. intros (Hp & ? & ?). specialize (H p). cbn. split; [lia|done]. Qed.

Lemma wraps_send T f D s o : wraps T f D s -> is_send f o -> T + op_bytes o < 2 ^ 64 ->
  ∃ s' T', sc_step o s = Some s' ∧ T <= T' <= T + op_bytes o ∧ wraps T' f D s'.
Proof.
  intros W Ho HT. destruct o as [| | |a now during p data capacity set_fin| | |]; try done.
  destruct Ho as (Hp & Ha & ->).
  destruct (sc_send_step (wr_inv _ _ _ _ W) a now [] p data capacity set_fin Hp Ha)
    as (s' & T' & Es & HT' & I'); [done..|].
  exists s', T'. split; [done|]. split; [done|].
  destruct (wraps_live W p Hp) as (sc & E & Hp0 & _).
  cbn [sc_step] in Es. unfold aiopquic_stream_ctx_send_data in Es.
  rewrite (proj2 (Z.eqb_neq p 0)), E in Es by done. cbn [mbind option_bind] in Es.
  (* every outcome leaves [p] with another wrapper of the same RX ring *)
  assert (K : ∃ sc', sw_scs s' = <[p := sc']> (sw_scs s) ∧ sc_rx sc' = sc_rx sc ∧
    (is_Some (sc_tx sc) -> is_Some (sc_tx sc'))).
  { set (sc1 := match sc_tx sc with Some _ => sc | None => _ end) in Es.
    assert (E1 : sc_rx sc1 = sc_rx sc ∧ (is_Some (sc_tx sc) -> is_Some (sc_tx sc1))).
    { unfold sc1. destruct (sc_tx sc) eqn:E0; (split; [done|]); [by rewrite E0|by intros [? [=]]]. }
    destruct E1 as [E1 E1']. clearbody sc1.
    destruct (sc_tx sc1) as [tx|] eqn:Et; [|cbn in Es; simplify_eq; exists sc1; by rewrite Et].
    destruct (zlen data >? sb_capacity tx); [cbn in Es; simplify_eq; exists sc1; by rewrite Et|].
    assert (C : ∀ g sc2 rc rs s2, sc_rx sc2 = sc_rx sc -> send_commit p data set_fin []
      (ScWorld (<[p := sc2]> (sw_scs s)) g) = Some (rc, rs, s2) ->
      ∃ sc', sw_scs s2 = <[p := sc']> (sw_scs s) ∧ sc_rx sc' = sc_rx sc ∧
      (is_Some (sc_tx sc) -> is_Some (sc_tx sc'))).
    { intros g sc2 rc rs s2 Hrx. unfold send_commit. cbn [sw_scs]. rewrite lookup_insert_eq.
      cbn [mbind option_bind]. destruct (sc_tx sc2) as [tx2|]; [|done]. cbn [mbind option_bind].
      destruct (if zlen data >? 0 then _ else _) as [[acc tx3]|]; [|done]. cbn [mbind option_bind].
      destruct (negb (acc =? zlen data)); intros [= _ _ <-]; unfold sc_put_tx; cbn [sw_scs];
        (eexists; split; [by rewrite insert_insert_eq|]; split; [done|]; by eexists). }
    destruct ((zlen data >? 0) && _).
    - cbn [tx_worker_run mbind option_bind] in Es. unfold sc_update in Es. cbn [sw_scs sw_g] in Es.
      rewrite lookup_insert_eq in Es. cbn [mbind option_bind sw_scs] in Es. rewrite insert_insert_eq in Es.
      rewrite lookup_insert_eq in Es. cbn [mbind option_bind sc_arm sc_set_tx_drain_pending
        sc_set_last_drain_arm_ns sc_set_cnt_drain_arms sc_tx] in Es. rewrite Et in Es.
      cbn [mbind option_bind] in Es. destruct (_ <? zlen data).
      + cbn in Es. simplify_eq. eexists. split; [done|]. split; [done|]. cbn. by rewrite Et.
      + destruct (send_commit p data set_fin [] _) as [[[rc rs] s2]|] eqn:Ec; [|done].
        apply C in Ec as (sc' & Es' & K); [|done]. cbn in Es.
        exists sc'. by destruct (rc =? 1); simplify_eq.
    - destruct (send_commit p data set_fin [] _) as [[[rc rs] s2]|] eqn:Ec; [|done].
      apply C in Ec as (sc' & Es' & K); [|done]. cbn in Es.
      exists sc'. by destruct (rc =? 1); simplify_eq. }
  destruct K as (sc' & Es' & K1 & K2).
  eapply wraps_insert; [exact W|exact I'|exact E|exact Es'|]. by apply keeps_same.
Qed.

Lemma wraps_race ops : ∀ T f D s, wraps T f D s -> Forall (is_send f) ops ->
  T + run_bytes ops < 2 ^ 64 ->
  ∃ s' T', sc_run ops s = Some s' ∧ T <= T' <= T + run_bytes ops ∧ wraps T' f D s'.
Proof.
  induction ops as [|o ops IH]; intros T f D s W Ho HT.
  { exists s, T. split; [done|]. split; [unfold run_bytes, lsum; cbn; lia|done]. }
  apply Forall_cons in Ho as [Ho Hos]. rewrite run_bytes_cons in *.
  pose proof (run_bytes_nonneg ops).
  destruct (wraps_send T f D s o W Ho ltac:(lia)) as (s1 & T1 & E1 & HT1 & W1).
  destruct (IH T1 f D s1 W1 Hos ltac:(lia)) as (s2 & T2 & E2 & HT2 & W2).
  exists s2, T2. cbn [sc_run]. rewrite E1. split; [done|]. split; [lia|done].
Qed.

(** ** Datagram rings *)

Definition db_sound (b : dgram_buf) : Prop := ∃ H recs, db_rep b H recs.

Lemma db_sound_refcnt b n : db_sound b -> db_sound (db_set_refcnt b n).
Proof. intros (H & recs & R). exists H, recs. by destruct R. Qed.

(** The rings, the table and [X]: the references outside the table; [n] puts so
    far. *)
Record rings (X : Z -> Z) (n : Z) (t : dgram_table) (st : ring_store) : Prop := {
  rg_map : ∃ m, tbl_rep t m ∧ rs_ok st (λ p, X p + refs m p);
  rg_cap : t_cap t <= Z.max 64 (3 * n);
  rg_used : t_used t <= n;
  rg_n : 0 <= n;
  rg_sound : ∀ p b, rs_rings st !! p = Some b -> db_sound b
}.

Lemma rings_ext X Y n t st : (∀ p, X p = Y p) -> rings X n t st -> rings Y n t st.
Proof.
  intros E [(m & R & O) ? ? ? ?]. split; try done. exists m. split; [done|].
  eapply rs_ok_ext; [|exact O]. intros p. cbn. by rewrite E.
Qed.

(** References move, rings stay as they are. *)
Definition rings_from (st st' : ring_store) : Prop :=
  ∀ p b', rs_rings st' !! p = Some b' -> ∃ b n, rs_rings st !! p = Some b ∧ b' = db_set_refcnt b n.

Lemma db_set_refcnt_id b : b = db_set_refcnt b (db_refcnt b).
Proof. by destruct b. Qed.

Lemma unref_from st p st' : rs_unref st p = Some st' -> rings_from st st'.
Proof.
  unfold rs_unref, rings_from. destruct (p =? 0); [intros [= <-]; eauto using db_set_refcnt_id|].
  destruct (rs_rings st !! p) as [b|] eqn:E; [|done]. cbn [mbind option_bind].
  unfold aiopquic_dgram_buf_unref. destruct (db_refcnt b =? 1); intros [= <-] q b'; cbn [rs_rings].
  - intros [_ Eq]%lookup_delete_Some. eauto using db_set_refcnt_id.
  - rewrite lookup_insert_Some. intros [[<- <-]|[_ Eq]]; [by eauto|]. eauto using db_set_refcnt_id.
Qed.

Lemma addref_from st p st' : rs_addref st p = Some st' -> rings_from st st'.
Proof.
  unfold rs_addref, rings_from. destruct (rs_rings st !! p) as [b|] eqn:E; [|done].
  intros [= <-] q b'; cbn [rs_rings]. rewrite lookup_insert_Some.
  intros [[<- <-]|[_ Eq]]; [by eauto|]. eauto using db_set_refcnt_id.
Qed.

Lemma rings_from_sound st st' : rings_from st st' ->
  (∀ p b, rs_rings st !! p = Some b -> db_sound b) -> ∀ p b, rs_rings st' !! p = Some b -> db_sound b.
Proof.
  intros Hf Hs p b' E. destruct (Hf p b' E) as (b & n & Eb & ->).
  apply db_sound_refcnt. by eapply Hs.
Qed.

Section rings.
Context {X : Z -> Z} {n : Z} {t : dgram_table} {st : ring_store} (G : rings X n t st).
Context (X0 : ∀ p, 0 <= X p).

Lemma rings_unref p : 0 < X p ->
  ∃ st', rs_unref st p = Some st' ∧ rings (λ q, X q - c_bool (q =? p)) n t st'.
Proof using G.
  intros Hp. destruct G as [(m & R & O) Hc Hu Hn Hs]. pose proof (refs_range m p).
  destruct (rs_unref_spec O p ltac:(lia)) as (st' & E & O'). exists st'. split; [done|].
  split; try done.
  - exists m. split; [done|]. eapply rs_ok_ext; [|exact O']. intros q. cbn. lia.
  - eapply rings_from_sound; [by eapply unref_from|done].
Qed.

Lemma rings_remove cnx db : cnx = 0 ∨ 2 <= cnx ->
  ∃ t' st', aiopquic_dgram_table_remove_ring t st cnx db = Some (t', st') ∧ rings X n t' st'.
Proof using G X0.
  intros [->|Hc].
  { exists t, st. split; [|done]. unfold aiopquic_dgram_table_remove_ring.
    rewrite Z.eqb_refl, orb_true_r. done. }
  destruct G as [(m & R & O) Hcap Hu Hn Hs]. pose proof (remove_spec t m st cnx db R Hc) as Hr.
  destruct (m !! cnx) as [d|] eqn:Em; [|by eauto].
  destruct (negb (db =? 0) && negb (d =? db)); [by eauto|].
  pose proof (refs_pos m cnx d Em) as Hd. specialize (X0 d).
  destruct (rs_unref_spec O d ltac:(lia)) as (st' & E & O').
  destruct (Hr st' E) as (t' & -> & F' & Ec & Eu). do 2 eexists. split; [done|].
  split; try lia.
  - exists (delete cnx m). split; [by right|]. eapply rs_ok_ext; [|exact O']. intros q. cbn.
    rewrite (refs_delete _ _ d) by done. rewrite (Z.eqb_sym d q). lia.
  - eapply rings_from_sound; [by eapply unref_from|done].
Qed.

Lemma rings_put ok cnx db : 2 <= cnx -> 0 < X db < 2 ^ 31 -> n < 2 ^ 26 ->
  ∃ rc t' st', aiopquic_dgram_table_put ok t st cnx db = Some (rc, t', st') ∧
    rings X (n + 1) t' st'.
Proof using G X0.
  intros Hc Hd Hn26. destruct G as [(m & R & O) Hcap Hu Hn Hs].
  destruct (tbl_used_le_cap t m R) as [Hsz _]. pose proof (refs_range m db).
  destruct (rs_some O db ltac:(lia)) as (b & Hb & _).
  assert (P : aiopquic_dgram_table_put ok t st cnx db = Some (-1, t, st) ∨
    aiopquic_dgram_table_put ok t st cnx db = aiopquic_dgram_table_put true t st cnx db).
  { destruct ok; [by right|]. unfold aiopquic_dgram_table_put.
    destruct ((t_cap t =? 0) || _); [left|by right].
    unfold aiopquic_dgram_table_grow. cbn. by repeat case_match. }
  destruct P as [->| ->].
  { do 3 eexists. split; [done|]. split; [by eauto|lia..|done]. }
  destruct (put_spec t m st cnx db R ltac:(lia) Hc (ex_intro _ _ Hb))
    as (t' & m' & st' & -> & F & Hu' & Hc' & Hm).
  do 3 eexists. split; [done|]. destruct (m !! cnx) as [d|] eqn:Em; destruct Hm as [-> Hst].
  - subst st'. split; try lia; [|done]. exists m. split; [by right|done].
  - destruct (rs_addref_spec O db ltac:(lia) ltac:(lia)) as (st2 & E2 & O2).
    assert (st2 = st') as -> by congruence. split; try lia.
    + exists (<[cnx := db]> m). split; [by right|]. eapply rs_ok_ext; [|exact O2]. intros p. cbn.
      rewrite refs_insert, (Z.eqb_sym db) by done. lia.
    + eapply rings_from_sound; [by eapply addref_from|done].
Qed.

(** A ring found in the table is live. *)
Lemma rings_get cnx : 2 <= cnx ->
  ∃ d, aiopquic_dgram_table_get t cnx = Some d ∧
    (d <> 0 -> ∃ b, rs_rings st !! d = Some b ∧ db_sound b).
Proof using G X0.
  intros Hc. destruct G as [(m & R & O) Hcap Hu Hn Hs]. rewrite (get_spec t m cnx R Hc).
  eexists. split; [done|]. destruct (m !! cnx) as [d|] eqn:Em; [|done]. intros _. cbn.
  pose proof (refs_pos m cnx d Em). specialize (X0 d).
  destruct (rs_some O d ltac:(lia)) as (b & Hb & _). exists b. split; [done|]. by eapply Hs.
Qed.

Lemma rings_update p b b' : rs_rings st !! p = Some b -> db_refcnt b' = db_refcnt b ->
  db_sound b' -> rings X n t (RingStore (<[p := b']> (rs_rings st)) (rs_alive st)).
Proof using G.
  intros E Ec Hb. destruct G as [(m & R & [O Ha]) Hcap Hu Hn Hs]. split; try done.
  - exists m. split; [done|]. split; cbn [rs_rings rs_alive].
    + by eapply rc_same.
    + by rewrite map_size_insert_Some.
  - intros q c. cbn [rs_rings]. rewrite lookup_insert_Some. intros [[<- <-]|[_ Eq]]; [done|by eapply Hs].
Qed.

Lemma rings_drop p cnx : 0 < X p -> cnx = 0 ∨ 2 <= cnx ->
  ∃ t' st1 st', aiopquic_dgram_table_remove_ring t st cnx p = Some (t', st1) ∧
    rs_unref st1 p = Some st' ∧ rings (λ q, X q - c_bool (q =? p)) n t' st'.
Proof using G X0.
  intros Hp Hc. destruct (rings_remove cnx p Hc) as (t' & st1 & E1 & G1).
  destruct G1 as [(m & R & O) Hcap Hu Hn Hs]. pose proof (refs_range m p).
  destruct (rs_unref_spec O p ltac:(lia)) as (st' & E2 & O'). exists t', st1, st'.
  split_and!; try done. split; try done.
  - exists m. split; [done|]. eapply rs_ok_ext; [|exact O']. intros q. cbn. lia.
  - eapply rings_from_sound; [by eapply unref_from|done].
Qed.
End rings.

(** ** The invariant *)

(** TX events of the raw QUIC stack. *)
Definition raw_tx_types : list spsc_event_type :=
  [SPSC_EVT_TX_CLOSE; SPSC_EVT_TX_STREAM_RESET; SPSC_EVT_TX_STOP_SENDING;
   SPSC_EVT_TX_MARK_ACTIVE; SPSC_EVT_TX_CONNECT; SPSC_EVT_TX_OPEN_FLOW_CONTROL;
   SPSC_EVT_TX_SET_APP_FLOW_CONTROL; SPSC_EVT_TX_MARK_DATAGRAM_READY;
   SPSC_EVT_TX_CNX_REFRESH; SPSC_EVT_TX_SET_STREAM_PRIORITY; SPSC_EVT_TX_DGRAM_RING_RELEASE;
   SPSC_EVT_TX_SET_DATAGRAM_PRIORITY; SPSC_EVT_TX_SET_MAX_CONNECTIONS].

(** Those of WebTransport. *)
Definition wt_tx_types : list spsc_event_type :=
  [SPSC_EVT_TX_WT_OPEN; SPSC_EVT_TX_WT_CREATE_STREAM; SPSC_EVT_TX_WT_CLOSE; SPSC_EVT_TX_WT_DRAIN;
   SPSC_EVT_TX_WT_RESET_STREAM; SPSC_EVT_TX_WT_DEREGISTER; SPSC_EVT_TX_WT_STOP_SENDING;
   SPSC_EVT_TX_WT_SESSION_CLEANUP; SPSC_EVT_TX_MARK_WT_DATAGRAM_READY;
   SPSC_EVT_TX_WT_SET_STREAM_PRIORITY; SPSC_EVT_TX_WT_FIN; SPSC_EVT_TX_WT_SET_DATAGRAM_PRIORITY].

Definition raw_type (n : Z) : Prop := ∃ t, t ∈ raw_tx_types ∧ n = evt_code t.
Definition wt_type (n : Z) : Prop := ∃ t, t ∈ wt_tx_types ∧ n = evt_code t.

(** Pointers to connections are null or above the table's two reserved keys. *)
Record tx_good (wt : bool) (e : spsc_entry) : Prop := {
  tg_type : raw_type (e_event_type e) ∨ (wt = true ∧ wt_type (e_event_type e));
  tg_aux : 0 <= e_aux e < 2 ^ 64;
  tg_cnx : e_cnx e = 0 ∨ 2 <= e_cnx e
}.

(** References to wrapper [p] held by queued entries, to ring [p] by queued
    releases. *)
Definition holds (owns : Z -> bool) (p : Z) (e : spsc_entry) : Z :=
  c_bool (negb (e_stream_ctx e =? 0) && owns (e_event_type e) && (e_stream_ctx e =? p)).
Definition tx_ref := holds aiopquic_tx_event_owns_sc.
Definition rx_ref := holds aiopquic_rx_event_owns_sc.
Definition is_release (t : Z) : bool := t =? SPSC_EVT_TX_DGRAM_RING_RELEASE.
Definition rel_ref := holds is_release.
Definition def_ref (p : Z) (d : deferred_reset) : Z := c_bool (d_sc d =? p).
Definition owed_ref (p : Z) (o : Z * Z) : Z := c_bool (o.2 =? p).

(** What the two queues, the two lists and the counters stand for. *)
Record ghost := Ghost {
  g_ht : Z;                    (** TX events taken off so far *)
  g_tx : list spsc_entry;      (** TX events queued *)
  g_hr : Z;                    (** RX events taken off so far *)
  g_rx : list spsc_entry;      (** RX events queued, in the ring or the overflow *)
  g_def : list deferred_reset;
  g_owed : list (Z * Z);
  g_puts : Z;                  (** registrations of datagram rings so far *)
  g_T : Z;                     (** stream bytes accepted so far *)
  g_wt : bool                  (** whether WebTransport is in use *)
}.

Definition sc_refs (x : Z -> Z) (g : ghost) (p : Z) : Z :=
  x p + lsum (tx_ref p) (g_tx g) + lsum (rx_ref p) (g_rx g) + lsum (def_ref p) (g_def g).
Definition db_refs (xd : Z -> Z) (g : ghost) (p : Z) : Z :=
  xd p + lsum (rel_ref p) (g_tx g) + lsum (owed_ref p) (g_owed g).

(** [x p], [xd p]: the references Python holds on wrapper, datagram ring [p]. *)
Record inv (x xd : Z -> Z) (g : ghost) (r : res) : Prop := {
  iv_tx : rq_rep (s_tx r) (g_ht g) (g_tx g);
  iv_rx : ∃ q1 q2, rq_rep (s_rx r) (g_hr g) q1 ∧ o_nodes (s_ovf r) = q2 ∧
            o_depth (s_ovf r) = zlen q2 ∧ g_rx g = q1 ++ q2;
  iv_heap : heap_ok (s_heap r) (g_rx g ++ g_tx g);
  iv_def : s_def r = g_def g;
  iv_owed : s_owed r = g_owed g;
  iv_sc : wraps (g_T g) (sc_refs x g) (map d_sc (g_def g)) (s_sc r);
  iv_db : rings (db_refs xd g) (g_puts g) (s_tab r) (s_rs r);
  iv_good : Forall (tx_good (g_wt g)) (g_tx g);
  iv_bufs : Forall buf_owned (g_tx g);
  iv_raw : g_wt g = false -> Forall (λ d, d_is_wt d = 0) (g_def g);
  iv_x : ∀ p, 0 <= x p + lsum (tx_ref p) (g_tx g);
  iv_xd : ∀ p, 0 <= xd p + lsum (rel_ref p) (g_tx g);
  iv_traces : s_traces r = (128, 128)%nat;
  iv_cap : 0 <= s_rx_cap r < 2 ^ 32;
  iv_low : s_low r < r_capacity (s_tx r)
}.

(** What the worker's steps do to the queues: at most [k] RX events and [n]
    registrations more, nothing else. *)
Record grows (k n : Z) (g g' : ghost) : Prop := {
  gr_ht : g_ht g' = g_ht g;
  gr_tx : g_tx g' = g_tx g;
  gr_hr : g_hr g' = g_hr g;
  gr_owed : g_owed g' = g_owed g;
  gr_rx : zlen (g_rx g) <= zlen (g_rx g') <= zlen (g_rx g) + k;
  gr_puts : g_puts g <= g_puts g' <= g_puts g + n;
  gr_T : g_T g' = g_T g;
  gr_wt : g_wt g' = g_wt g
}.

Lemma grows_refl g : grows 0 0 g g.
Proof. split; done || lia. Qed.

Lemma grows_trans k n k' n' g1 g2 g3 : grows k n g1 g2 -> grows k' n' g2 g3 ->
  grows (k + k') (n + n') g1 g3.
Proof. intros [] []. split; congruence || lia. Qed.

Lemma grows_mono k n k' n' g g' : grows k n g g' -> k <= k' -> n <= n' -> grows k' n' g g'.
Proof. intros []. split; done || lia. Qed.

Lemma lsum_nonneg {A} (f : A -> Z) l : (∀ a, 0 <= f a) -> 0 <= lsum f l.
Proof. intros Hf. induction l; [done|]. rewrite lsum_cons. specialize (Hf a). lia. Qed.

Lemma lsum_app {A} (f : A -> Z) l k : lsum f (l ++ k) = lsum f l + lsum f k.
Proof. induction l; [done|]. cbn [app]. rewrite !lsum_cons. lia. Qed.

Lemma lsum_one {A} (f : A -> Z) a : lsum f [a] = f a.
Proof. unfold lsum. cbn. lia. Qed.

Lemma c_bool_nonneg b : 0 <= c_bool b.
Proof. destruct b; cbn; lia. Qed.

Lemma holds_like owns p e e' : e_like e e' -> holds owns p e' = holds owns p e.
Proof. by intros (q & n & ->). Qed.

Lemma tx_good_like wt e e' : e_like e e' -> tx_good wt e -> tx_good wt e'.
Proof. intros (q & n & ->) []. by split. Qed.

(** A raw event is fit for any queue. *)
Lemma tx_good_raw wt e : tx_good false e -> tx_good wt e.
Proof. intros [[?|[[=] _]] ? ?]. split; auto. Qed.

Lemma holds_range owns p e : 0 <= holds owns p e <= 1.
Proof. unfold holds. apply c_bool_range. Qed.

(** An entry holds a reference on its own context only. *)
Lemma holds_self owns e q : negb (e_stream_ctx e =? 0) && owns (e_event_type e) = true ->
  holds owns q e = c_bool (q =? e_stream_ctx e).
Proof. unfold holds. intros ->. cbn. by rewrite Z.eqb_sym. Qed.

Lemma holds_none owns e q : negb (e_stream_ctx e =? 0) && owns (e_event_type e) = false ->
  holds owns q e = 0.
Proof. unfold holds. by intros ->. Qed.

Section inv.
Context {x xd : Z -> Z} {g : ghost}.

Lemma inv_ext y yd r : (∀ p, x p = y p) -> (∀ p, xd p = yd p) -> inv x xd g r -> inv y yd g r.
Proof.
  intros E Ed []. split; try done.
  - eapply wraps_ext; [|done]. intros p. unfold sc_refs. by rewrite E.
  - eapply rings_ext; [|done]. intros p. unfold db_refs. by rewrite Ed.
  - intros p. by rewrite <- E.
  - intros p. by rewrite <- Ed.
Qed.

Lemma inv_def_pos r d : inv x xd g r -> d ∈ g_def g -> 0 < sc_refs x g (d_sc d).
Proof.
  intros I Hd. unfold sc_refs. pose proof (iv_x _ _ _ _ I (d_sc d)).
  pose proof (lsum_nonneg (rx_ref (d_sc d)) (g_rx g) (λ e, proj1 (holds_range _ _ e))).
  assert (0 < lsum (def_ref (d_sc d)) (g_def g)); [|lia].
  apply elem_of_Permutation in Hd as [ds Hp]. rewrite (lsum_perm _ _ _ Hp), lsum_cons.
  unfold def_ref at 1. rewrite Z.eqb_refl. cbn.
  pose proof (lsum_nonneg (def_ref (d_sc d)) ds (λ e, c_bool_nonneg _)). lia.
Qed.

Lemma db_refs_nonneg r p : inv x xd g r -> 0 <= db_refs xd g p.
Proof.
  intros I. unfold db_refs. pose proof (iv_xd _ _ _ _ I p).
  pose proof (lsum_nonneg (owed_ref p) (g_owed g) (λ e, c_bool_nonneg _)). lia.
Qed.
End inv.

Definition inc (x : Z -> Z) (p : Z) : Z -> Z := λ q, x q + c_bool (q =? p).
Definition dec (x : Z -> Z) (p : Z) : Z -> Z := λ q, x q - c_bool (q =? p).

(** Room for one more reference anywhere. *)
Definition few_refs (x : Z -> Z) (g : ghost) : Prop := ∀ p, sc_refs x g p + 1 < 2 ^ 32.

Section prims.
Context {x xd : Z -> Z} {g : ghost} {w : world} (I : inv x xd g (res_of w)).

(** *** Wrappers *)

Lemma inv_set_sc y s' : wraps (g_T g) (sc_refs y g) (map d_sc (g_def g)) s' ->
  (∀ p, 0 <= y p + lsum (tx_ref p) (g_tx g)) -> inv y xd g (res_of (w_set_sc s' w)).
Proof using I. intros W Hy. destruct I. by split. Qed.

Lemma inv_sc_same s' : wraps (g_T g) (sc_refs x g) (map d_sc (g_def g)) s' ->
  inv x xd g (res_of (w_set_sc s' w)).
Proof using I. intros W. apply inv_set_sc; [done|]. apply I. Qed.

Lemma sp_ref p : 0 < sc_refs x g p -> sc_refs x g p + 1 < 2 ^ 32 ->
  wp (on_sc (aiopquic_stream_ctx_ref p)) (λ _ w', inv (inc x p) xd g (res_of w')) w.
Proof using I.
  intros Hp Hlt. destruct (wraps_ref (iv_sc _ _ _ _ I) p Hp Hlt) as (s' & E & W).
  eexists _, _. split; [unfold on_sc; change (s_sc (res_of w)) with (w_sc w) in E; by rewrite E|].
  apply inv_set_sc.
  - eapply wraps_ext; [|exact W]. intros q. unfold sc_refs, inc. lia.
  - intros q. pose proof (iv_x _ _ _ _ I q). unfold inc. pose proof (c_bool_nonneg (q =? p)). lia.
Qed.

Lemma sp_destroy p : 0 < x p + lsum (tx_ref p) (g_tx g) ->
  wp (on_sc (aiopquic_stream_ctx_destroy p)) (λ _ w', inv (dec x p) xd g (res_of w')) w.
Proof using I.
  intros Hp.
  pose proof (lsum_nonneg (rx_ref p) (g_rx g) (λ e, proj1 (holds_range _ _ e))).
  pose proof (lsum_nonneg (def_ref p) (g_def g) (λ e, c_bool_nonneg _)).
  destruct (wraps_destroy (iv_sc _ _ _ _ I) p) as (s' & E & W).
  - unfold sc_refs. lia.
  - intros d (r & -> & Hd)%list_elem_of_fmap. destruct (Z.eqb_spec (d_sc r) p) as [Ep|Hne].
    + cbn. unfold sc_refs. rewrite Ep.
      assert (0 < lsum (def_ref p) (g_def g)); [|lia].
      apply elem_of_Permutation in Hd as [ds Hperm]. rewrite (lsum_perm _ _ _ Hperm), lsum_cons.
      unfold def_ref at 1. rewrite Ep, Z.eqb_refl. cbn.
      pose proof (lsum_nonneg (def_ref p) ds (λ e, c_bool_nonneg _)). lia.
    + cbn. pose proof (inv_def_pos _ _ I Hd). lia.
  - eexists _, _. split; [unfold on_sc; change (s_sc (res_of w)) with (w_sc w) in E; by rewrite E|].
    apply inv_set_sc.
    + eapply wraps_ext; [|exact W]. intros q. unfold sc_refs, dec. lia.
    + intros q. pose proof (iv_x _ _ _ _ I q). unfold dec.
      destruct (Z.eqb_spec q p) as [->|]; cbn; lia.
Qed.

Lemma sp_update p F : 0 < sc_refs x g p -> (∀ sc, tx_ok (g_T g) sc -> rx_sound sc ->
    sc_refcount (F sc) = sc_refcount sc ∧ sc_tx (F sc) = sc_tx sc ∧ rx_sound (F sc) ∧
    0 <= sc_tx_reliable_size (F sc) < 2 ^ 64) ->
  wp (upd_sc p F) (λ _ w', inv x xd g (res_of w')) w.
Proof using I.
  intros Hp HF. destruct (wraps_update (iv_sc _ _ _ _ I) p F Hp HF) as (sc & s' & _ & E & _ & W).
  eexists _, _. split; [unfold upd_sc, on_sc; change (s_sc (res_of w)) with (w_sc w) in E; by rewrite E|].
  by apply inv_sc_same.
Qed.

Lemma sp_abandon p : p = 0 ∨ 0 < sc_refs x g p ->
  wp (on_sc (aiopquic_stream_ctx_tx_abandon p)) (λ _ w', inv x xd g (res_of w')) w.
Proof using I.
  intros Hp. destruct (wraps_abandon (iv_sc _ _ _ _ I) p Hp) as (s' & E & W).
  eexists _, _. split; [unfold on_sc; change (s_sc (res_of w)) with (w_sc w) in E; by rewrite E|].
  by apply inv_sc_same.
Qed.

Lemma sp_read {A} p (f : stream_ctx -> A) Φ : 0 < sc_refs x g p ->
  (∀ sc, sw_scs (w_sc w) !! p = Some sc -> tx_ok (g_T g) sc -> Φ (f sc) w) ->
  wp (read_sc p f) Φ w.
Proof using I.
  intros Hp H. destruct (wraps_live (iv_sc _ _ _ _ I) p Hp) as (sc & E & _ & Ht & _).
  exists (f sc), w. unfold read_sc. change (s_sc (res_of w)) with (w_sc w) in E. rewrite E.
  split; [done|]. by apply H.
Qed.

(** *** Datagram rings *)

Lemma inv_set_db y n t st : rings (db_refs y g) n t st ->
  (∀ p, 0 <= y p + lsum (rel_ref p) (g_tx g)) ->
  inv x y (Ghost (g_ht g) (g_tx g) (g_hr g) (g_rx g) (g_def g) (g_owed g) n (g_T g) (g_wt g))
    (res_of (w_set_rs st (w_set_ctx (b_set_dgram_table t (w_ctx w)) w))).
Proof using I. intros G Hy. destruct I. by split. Qed.

Lemma ghost_eta : Ghost (g_ht g) (g_tx g) (g_hr g) (g_rx g) (g_def g) (g_owed g) (g_puts g) (g_T g) (g_wt g) = g.
Proof. by destruct g. Qed.

Lemma sp_ring_drop cnx db : 0 < xd db + lsum (rel_ref db) (g_tx g) -> cnx = 0 ∨ 2 <= cnx ->
  wp (aiopquic_dgram_ring_drop cnx db) (λ _ w', inv x (dec xd db) g (res_of w')) w.
Proof using I.
  intros Hp Hc. pose proof (lsum_nonneg (owed_ref db) (g_owed g) (λ e, c_bool_nonneg _)).
  destruct (rings_drop (iv_db _ _ _ _ I) (λ p, db_refs_nonneg _ p I) db cnx) as (t' & st1 & st' & E1 & E2 & G);
    [unfold db_refs; lia|done|].
  eexists _, _. split.
  - unfold aiopquic_dgram_ring_drop, table_remove_ring, table_op, on_rs, mbind, M_bind, bind.
    change (s_tab (res_of w)) with (b_dgram_table (w_ctx w)) in E1.
    change (s_rs (res_of w)) with (w_rs w) in E1. rewrite E1. cbn [mbind option_bind w_rs w_set_rs].
    rewrite E2. done.
  - cbn [mbind option_bind]. rewrite <- ghost_eta. eapply (inv_set_db (dec xd db) (g_puts g) t' st').
    + eapply rings_ext; [|exact G]. intros q. unfold db_refs, dec. lia.
    + intros q. pose proof (iv_xd _ _ _ _ I q). unfold dec.
      destruct (Z.eqb_spec q db) as [->|]; cbn; lia.
Qed.

Lemma sp_table_remove cnx : 2 <= cnx ->
  wp (table_remove cnx) (λ _ w', inv x xd g (res_of w')) w.
Proof using I.
  intros Hc.
  destruct (rings_remove (iv_db _ _ _ _ I) (λ p, db_refs_nonneg _ p I) cnx 0) as (t' & st' & E & G); [by right|].
  eexists _, _. split.
  - unfold table_remove, table_op, aiopquic_dgram_table_remove.
    change (s_tab (res_of w)) with (b_dgram_table (w_ctx w)) in E.
    change (s_rs (res_of w)) with (w_rs w) in E. rewrite E. done.
  - rewrite <- ghost_eta. eapply (inv_set_db xd (g_puts g) t' st'); [done|apply I].
Qed.

Lemma sp_table_put ev cnx db : 2 <= cnx -> 0 < db_refs xd g db < 2 ^ 31 -> g_puts g < 2 ^ 26 ->
  wp (table_put ev cnx db) (λ _ w', ∃ g', inv x xd g' (res_of w') ∧ grows 0 1 g g' ∧
    g_rx g' = g_rx g ∧ g_def g' = g_def g) w.
Proof using I.
  intros Hc Hd Hn. unfold table_put. apply wp_bind. apply idle_tick. intros t w1 E1.
  destruct (rings_put (iv_db _ _ _ _ I) (λ p, db_refs_nonneg _ p I) (ev_ok ev t) cnx db Hc Hd Hn)
    as (rc & t' & st' & E & G).
  rewrite <- E1 in E. eexists _, _. split; [unfold table_op|].
  - change (s_tab (res_of w1)) with (b_dgram_table (w_ctx w1)) in E.
    change (s_rs (res_of w1)) with (w_rs w1) in E. rewrite E. done.
  - exists (Ghost (g_ht g) (g_tx g) (g_hr g) (g_rx g) (g_def g) (g_owed g) (g_puts g + 1) (g_T g) (g_wt g)).
    split; [|split; [|done]]; [|split; cbn; lia || done].
    rewrite <- E1 in I. destruct I. by split.
Qed.
End prims.

(** *** Events to asyncio *)

(** [e] queued behind the RX events. *)
Definition rx_add (g : ghost) (e : spsc_entry) : ghost :=
  Ghost (g_ht g) (g_tx g) (g_hr g) (g_rx g ++ [e]) (g_def g) (g_owed g) (g_puts g) (g_T g) (g_wt g).

Lemma grows_rx_add g e : grows 1 0 g (rx_add g e).
Proof. split; cbn; try done; rewrite ?length_app; cbn; lia. Qed.

Definition rx_room (g : ghost) (k : Z) : Prop := g_hr g + zlen (g_rx g) + k < 2 ^ 64.

Section events.
Context {ev : env} (Eok : env_ok ev) {x xd : Z -> Z} {g : ghost} {w : world}.
Context (I : inv x xd g (res_of w)).

(** Wrappers and datagram rings untouched. *)
Definition frame (w w' : world) : Prop := w_rs w' = w_rs w ∧ w_sc w' = w_sc w.

Lemma frame_res w1 w2 : res_of w2 = res_of w1 -> frame w1 w2.
Proof.
  intros E. split; [change (w_rs w2) with (s_rs (res_of w2))|change (w_sc w2) with (s_sc (res_of w2))];
    by rewrite E.
Qed.

Lemma frame_trans w1 w2 w3 : frame w1 w2 -> frame w2 w3 -> frame w1 w3.
Proof. intros [A1 B1] [A2 B2]. split; congruence. Qed.

(** Outcomes of an RX push: queued, the reference the entry holds going with it, or
    out of memory and nothing changed. *)
Definition rx_pushed (e : spsc_entry) (rc : Z) (w' : world) : Prop :=
  frame w w' ∧
  ((rc = 0 ∧ ∃ e', e_like e e' ∧ inv (λ p, x p - rx_ref p e) xd (rx_add g e') (res_of w')) ∨
   (rc <> 0 ∧ inv x xd g (res_of w'))).

Lemma sp_rx_push e data : (data = [] -> entry_owns e = false) -> rx_room g 1 ->
  (∀ p, rx_ref p e <= x p + lsum (tx_ref p) (g_tx g)) ->
  wp (aiopquic_rx_push ev e data) (rx_pushed e) w.
Proof using I Eok.
  intros Hb Hroom Hown. unfold aiopquic_rx_push, ring_push_or_overflow.
  apply wp_bind, wp_bind, idle_tick. intros t w1 E1.
  destruct (iv_rx _ _ _ _ I) as (q1 & q2 & R & En & Ed & Eq).
  destruct (push_or_overflow_raw _ _ _ _ _ _ _ (ev_alloc ev t (s_heap (res_of w))) e data
    R En Ed (iv_heap _ _ _ _ I) (eo_alloc _ Eok _ _) Hb) as (rc & r' & o' & h' & E & Hcase).
  { unfold rx_room in Hroom. rewrite Eq, length_app in Hroom. lia. }
  rewrite <- E1 in E. eexists _, _. split.
  { change (s_rx (res_of w1)) with (b_rx_event_ring (w_ctx w1)) in E.
    change (s_ovf (res_of w1)) with (b_rx_overflow (w_ctx w1)) in E.
    change (s_heap (res_of w1)) with (w_heap w1) in E. rewrite E. done. }
  destruct Hcase as [(Hrc & e' & He & R' & _ & En' & Ed' & Hh')|(-> & -> & -> & ->)].
  - rewrite (proj2 (Z.ltb_ge rc 0)) by lia.
    apply wp_bind, (idle_t_notify ev).
    { cbn. change (s_traces (res_of w1) = (128, 128)%nat). rewrite E1. apply I. }
    intros _ w2 E2. apply wp_ret. split.
    { apply (frame_trans w w1); [by apply frame_res|]. apply frame_res in E2. by destruct E2. }
    left. split; [done|]. exists e'. split; [done|]. rewrite E2.
    assert (Hrx : ∀ p, rx_ref p e' = rx_ref p e) by (intros; by apply holds_like).
    rewrite <- E1 in I. destruct I. split; try done; cbn [rx_add g_tx g_rx g_def g_T].
    + eexists _, _. split_and!; [exact R'|exact En'|exact Ed'|]. by rewrite placed_app, Eq.
    + cbn. eapply heap_ok_perm; [|exact Hh']. by rewrite <- app_assoc, Permutation_middle.
    + eapply wraps_ext; [|done]. intros p. unfold sc_refs. cbn [rx_add g_tx g_rx g_def].
      rewrite lsum_app, lsum_one, Hrx. lia.
    + intros p. specialize (Hown p). lia.
  - cbn [Z.ltb Z.compare]. apply wp_bind, idle_count. intros _ w2 E2. apply wp_ret.
    split. { apply (frame_trans w w1); [by apply frame_res|]. apply frame_res in E2. by destruct E2. }
    right. split; [done|]. rewrite E2. clear E2. rewrite <- E1 in I |- *. destruct I. by split.
Qed.
End events.

(** No event or held reset took or dropped a reference. *)
Definition same_refs (g g' : ghost) : Prop := ∀ y p, sc_refs y g' p = sc_refs y g p.

(** A push that moves no reference. *)
Lemma sp_rx_push_free ev x xd g w e data : env_ok ev -> inv x xd g (res_of w) ->
  (data = [] -> entry_owns e = false) -> rx_room g 1 ->
  negb (e_stream_ctx e =? 0) && aiopquic_rx_event_owns_sc (e_event_type e) = false ->
  wp (aiopquic_rx_push ev e data) (λ _ w', frame w w' ∧ ∃ g', inv x xd g' (res_of w') ∧
    grows 1 0 g g' ∧ g_def g' = g_def g ∧ same_refs g g') w.
Proof.
  intros Eok I Hb Hroom Hn. pose proof (λ p, holds_none _ e p Hn) as Hz.
  eapply wp_mono; [apply (sp_rx_push Eok I e data Hb Hroom)|].
  - intros p. unfold rx_ref. rewrite Hz. apply I.
  - intros rc w' [Fr [(_ & e' & He & I')|[_ I']]]; (split; [done|]).
    + exists (rx_add g e'). split; [|split; [apply grows_rx_add|split; [done|]]].
      * eapply inv_ext; [| |exact I']; [|done]. intros p. cbn. unfold rx_ref. rewrite Hz. lia.
      * intros y p. unfold sc_refs. cbn [rx_add g_tx g_rx g_def].
        rewrite lsum_app, lsum_one. unfold rx_ref at 2. rewrite (holds_like _ _ e e'), Hz by done. lia.
    + exists g. split; [done|]. split; [|done]. eapply grows_mono; [apply grows_refl|lia..].
Qed.

(** A push of an entry that may carry a wrapper the caller has a reference to. *)
Lemma sp_rx_push_sc ev x xd g w e data : env_ok ev -> inv x xd g (res_of w) ->
  e_data_buf e = 0 -> rx_room g 1 ->
  (negb (e_stream_ctx e =? 0) && aiopquic_rx_event_owns_sc (e_event_type e) = true ->
     0 < sc_refs x g (e_stream_ctx e) ∧ sc_refs x g (e_stream_ctx e) + 1 < 2 ^ 32) ->
  wp (aiopquic_rx_push_sc ev e data)
    (λ _ w', ∃ g', inv x xd g' (res_of w') ∧ grows 1 0 g g' ∧ g_def g' = g_def g ∧
       ∀ q, sc_refs x g q <= sc_refs x g' q ∧ (sc_refs x g q = 0 -> sc_refs x g' q = 0)) w.
Proof.
  intros Eok I Hb Hroom Hown. pose proof (λ _ : data = [], no_buf_unowned _ Hb) as Hn. unfold aiopquic_rx_push_sc.
  destruct (negb (e_stream_ctx e =? 0) && aiopquic_rx_event_owns_sc (e_event_type e)) eqn:Eo.
  - destruct (Hown eq_refl) as [Hp Hlt]. apply wp_bind. cbn [when].
    eapply wp_mono; [by apply (sp_ref I)|]. intros [] w1 I1.
    assert (Hself : ∀ p, rx_ref p e = c_bool (p =? e_stream_ctx e)) by (intros; by apply holds_self).
    apply wp_bind. eapply wp_mono; [apply (sp_rx_push Eok I1 e data Hn Hroom)|].
    { intros p. rewrite Hself. pose proof (iv_x _ _ _ _ I p). unfold inc. lia. }
    intros rc w2 [_ [(-> & e' & He & I2)|[Hrc I2]]].
    + apply wp_bind, wp_ret, wp_ret. exists (rx_add g e').
      split; [|split; [apply grows_rx_add|split; [done|]]].
      * eapply inv_ext; [| |exact I2]; [|done]. intros p. cbn. rewrite Hself. unfold inc. lia.
      * intros p. unfold sc_refs in *. cbn [rx_add g_tx g_rx g_def].
        assert (Hlike : rx_ref p e' = rx_ref p e) by (by apply holds_like).
        rewrite lsum_app, lsum_one, Hlike, Hself.
        destruct (Z.eqb_spec p (e_stream_ctx e)) as [->|]; cbn; lia.
    + rewrite (proj2 (Z.eqb_neq rc 0)) by done. cbn [negb andb when]. apply wp_bind.
      eapply wp_mono.
      { apply (sp_destroy I2 (e_stream_ctx e)). pose proof (iv_x _ _ _ _ I (e_stream_ctx e)).
        unfold inc. rewrite Z.eqb_refl. cbn. lia. }
      intros [] w3 I3. apply wp_ret. exists g. split.
      * eapply inv_ext; [| |exact I3]; [|done]. intros p. unfold inc, dec. lia.
      * split; [|done]. eapply grows_mono; [apply grows_refl|lia..].
  - apply wp_bind, wp_ret, wp_bind.
    eapply wp_mono; [by apply (sp_rx_push_free ev x xd g w e data)|].
    intros rc w' (_ & g' & I' & G' & D' & S'). rewrite andb_false_r. apply wp_bind, wp_ret, wp_ret.
    exists g'. split_and!; try done. intros p. by rewrite (S' x p).
Qed.

Lemma def_ref_self p d : def_ref p d = c_bool (p =? d_sc d).
Proof. unfold def_ref. by rewrite Z.eqb_sym. Qed.

(** *** The TX ring *)

Definition with_tx (g : ghost) (ht : Z) (q : list spsc_entry) : ghost :=
  Ghost ht q (g_hr g) (g_rx g) (g_def g) (g_owed g) (g_puts g) (g_T g) (g_wt g).
Definition with_def (g : ghost) (ds : list deferred_reset) : ghost :=
  Ghost (g_ht g) (g_tx g) (g_hr g) (g_rx g) ds (g_owed g) (g_puts g) (g_T g) (g_wt g).
Definition with_owed (g : ghost) (owed : list (Z * Z)) : ghost :=
  Ghost (g_ht g) (g_tx g) (g_hr g) (g_rx g) (g_def g) owed (g_puts g) (g_T g) (g_wt g).

Section tx.
Context {x xd : Z -> Z} {g : ghost} {w : world} (I : inv x xd g (res_of w)).

Lemma sp_tx_peek Φ :
  match g_tx g with
  | [] => Φ None w
  | e :: _ => Φ (Some e) w
  end -> wp tx_ring_peek Φ w.
Proof using I.
  intros H. pose proof (iv_tx _ _ _ _ I) as R. unfold tx_ring_peek.
  change (s_tx (res_of w)) with (b_tx_event_ring (w_ctx w)) in R.
  unfold wp. rewrite (rq_peek _ _ _ R).
  destruct (g_tx g) as [|e q] eqn:E; [by exists None, w|].
  rewrite (rq_head_entry _ _ _ _ R). cbn. by exists (Some e), w.
Qed.

(** The head entry leaves, what it held with it. *)
Lemma sp_tx_pop e q : g_tx g = e :: q -> 
  wp tx_ring_pop (λ _ w', inv (λ p, x p + tx_ref p e) (λ p, xd p + rel_ref p e)
    (with_tx g (g_ht g + 1) q) (res_of w')) w.
Proof using I.
  intros Eq. pose proof (iv_tx _ _ _ _ I) as R. rewrite Eq in R.
  assert (Hh : heap_ok (w_heap w) (e :: (g_rx g ++ q))).
  { eapply heap_ok_perm; [|exact (iv_heap _ _ _ _ I)]. rewrite Eq. by rewrite Permutation_middle. }
  destruct (heap_ok_free _ _ _ Hh) as [Hlive Hh'].
  destruct (rq_pop _ _ _ _ (w_heap w) R Hlive) as (r' & E & R' & Ecap & _).
  eexists _, _. split; [unfold tx_ring_pop|].
  { change (s_tx (res_of w)) with (b_tx_event_ring (w_ctx w)) in E. by rewrite E. }
  pose proof (iv_good _ _ _ _ I) as Hg. rewrite Eq in Hg. apply Forall_cons in Hg as [_ Hg].
  pose proof (iv_bufs _ _ _ _ I) as Hb. rewrite Eq in Hb. apply Forall_cons in Hb as [_ Hb].
  assert (Hx : ∀ p, lsum (tx_ref p) (g_tx g) = tx_ref p e + lsum (tx_ref p) q)
    by (intros; by rewrite Eq).
  assert (Hxd : ∀ p, lsum (rel_ref p) (g_tx g) = rel_ref p e + lsum (rel_ref p) q)
    by (intros; by rewrite Eq).
  destruct I. split; try done; cbn [with_tx g_tx g_rx g_def g_T g_owed g_puts].
  - eapply wraps_ext; [|exact iv_sc0]. intros p. unfold sc_refs. cbn [with_tx g_tx g_rx g_def].
    rewrite Hx. lia.
  - eapply rings_ext; [|exact iv_db0]. intros p. unfold db_refs. cbn [with_tx g_tx g_owed].
    rewrite Hxd. lia.
  - intros p. specialize (iv_x0 p). rewrite Hx in iv_x0. lia.
  - intros p. specialize (iv_xd0 p). rewrite Hxd in iv_xd0. lia.
  - cbn in *. by rewrite Ecap.
Qed.

(** A push by Python: the entry queued with the references it holds, or the ring
    full or memory short and nothing changed. *)
Lemma sp_tx_push ev e data : env_ok ev -> tx_good (g_wt g) e ->
  g_ht g + zlen (g_tx g) + 1 < 2 ^ 64 ->
  wp (tx_ring_push ev e data) (λ rc w',
    (rc = 0 ∧ ∃ e', e_like e e' ∧ inv (λ p, x p - tx_ref p e) (λ p, xd p - rel_ref p e)
       (with_tx g (g_ht g) (g_tx g ++ [e'])) (res_of w')) ∨
    (rc <> 0 ∧ inv x xd g (res_of w') ∧
       (data = [] -> zlen (g_tx g) = r_capacity (s_tx (res_of w'))))) w.
Proof using I.
  intros Eok Hgood Hroom. unfold tx_ring_push. apply wp_bind, idle_tick. intros t w1 E1.
  assert (Hh : heap_ok (s_heap (res_of w)) (g_rx g ++ g_tx g)) by apply I.
  destruct (ring_push_raw (iv_tx _ _ _ _ I) Hh (pa_ring (ev_alloc ev t (s_heap (res_of w)))) e data)
    as (rc & r' & h' & E & Hcase); [apply (eo_alloc _ Eok)|lia|].
  rewrite <- E1 in E. eexists _, _. split.
  { change (s_tx (res_of w1)) with (b_tx_event_ring (w_ctx w1)) in E.
    change (s_heap (res_of w1)) with (w_heap w1) in E. by rewrite E. }
  destruct Hcase as [(-> & e' & (Ecap & He & R' & Hh') & Hbuf)|(Hrc & -> & ->)].
  - left. split; [done|]. exists e'. split; [done|].
    assert (Hr1 : ∀ p, tx_ref p e' = tx_ref p e) by (intros; by apply holds_like).
    assert (Hr2 : ∀ p, rel_ref p e' = rel_ref p e) by (intros; by apply holds_like).
    rewrite <- E1 in I. destruct I. split; try done; cbn [with_tx g_tx g_rx g_def g_T g_owed g_puts].
    + eapply heap_ok_perm; [|exact Hh']. by rewrite app_assoc, <- Permutation_cons_append.
    + eapply wraps_ext; [|exact iv_sc0]. intros p. unfold sc_refs. cbn [with_tx g_tx g_rx g_def].
      rewrite lsum_app, lsum_one, Hr1. lia.
    + eapply rings_ext; [|exact iv_db0]. intros p. unfold db_refs. cbn [with_tx g_tx g_owed].
      rewrite lsum_app, lsum_one, Hr2. lia.
    + apply Forall_app. split; [done|]. apply Forall_singleton. by eapply tx_good_like.
    + apply Forall_app. split; [done|]. by apply Forall_singleton.
    + intros p. rewrite lsum_app, lsum_one, Hr1. specialize (iv_x0 p). lia.
    + intros p. rewrite lsum_app, lsum_one, Hr2. specialize (iv_xd0 p). lia.
    + rewrite <- E1 in Ecap. cbn in *. by rewrite Ecap.
  - right. split; [lia|]. split; [rewrite <- E1 in I |- *; destruct I; by split|].
    intros ->.
    destruct Hrc as [[_ ?]|[_ ?]]; cbn in *; [|lia]. by rewrite <- E1 in *.
Qed.

(** *** Held resets *)

Lemma inv_def_push d : (g_wt g = false -> d_is_wt d = 0) -> 1 <= x (d_sc d) + lsum (tx_ref (d_sc d)) (g_tx g) ->
  (∃ sc, sw_scs (w_sc w) !! d_sc d = Some sc ∧ is_Some (sc_tx sc)) ->
  inv (dec x (d_sc d)) xd (with_def g (d :: g_def g))
    (res_of (w_set_ctx (b_set_deferred_resets (d :: b_deferred_resets (w_ctx w)) (w_ctx w)) w)).
Proof using I.
  intros Hwt Hp Hlive. destruct I. split; try done; cbn [with_def g_tx g_rx g_def g_T].
  - cbn in *. by rewrite iv_def0.
  - split.
    + apply (sc_inv_ext _ (sc_refs x g)); [|apply iv_sc0]. intros p. unfold sc_refs, dec, with_def.
      cbn [g_tx g_rx g_def]. rewrite lsum_cons, (def_ref_self p d). lia.
    + apply iv_sc0.
    + intros p [->|Hin]%elem_of_cons; [done|]. by apply iv_sc0.
  - intros Hw. constructor; auto.
  - intros p. specialize (iv_x0 p). unfold dec. destruct (Z.eqb_spec p (d_sc d)) as [->|]; cbn; lia.
Qed.

(** A held reset is unlinked: its reference is the caller's to drop. *)
Lemma inv_def_pop k d ds : g_def g = k ++ d :: ds ->
  inv (inc x (d_sc d)) xd (with_def g (k ++ ds))
    (res_of (w_set_ctx (b_set_deferred_resets (k ++ ds) (w_ctx w)) w)).
Proof using I.
  intros Ed. destruct I. split; try done; cbn [with_def g_tx g_rx g_def g_T].
  - eapply wraps_sub; [|eapply wraps_ext; [|exact iv_sc0]].
    + intros p. rewrite Ed, !fmap_app, fmap_cons, !elem_of_app, elem_of_cons. tauto.
    + intros p. unfold sc_refs, inc, with_def. cbn [g_tx g_rx g_def].
      rewrite Ed, !lsum_app, lsum_cons. rewrite (def_ref_self p d). lia.
  - intros Hw. specialize (iv_raw0 Hw). rewrite Ed in iv_raw0.
    apply Forall_app in iv_raw0 as [H1 H2]. apply Forall_cons in H2 as [_ H2]. by apply Forall_app.
  - intros p. specialize (iv_x0 p). unfold inc. pose proof (c_bool_nonneg (p =? d_sc d)). lia.
Qed.
End tx.
