(* ===== verification/BridgeSafe.v ===== *)
(** * Safety of the raw QUIC bridge

    Every operation of the bridge and of the worker's callbacks, run from a state
    satisfying the invariant of World.v, is defined (no freed wrapper, datagram
    ring or payload is touched, no index leaves its array) and satisfies it again:
    here the helpers and the packet-loop callback, entry by entry. *)
From S2P Require Import Prelude Ring Store StreamBuf SpscRing EventChannel DgramBuf DgramTable.
From S2P Require Import StreamCtx Bridge Callback World.

Section worker.
Context {ev : env} (Eok : env_ok ev) `{WtHandler}.

(** ** Small operations *)

Lemma wp_idle {A B} (m : M A) (k : A -> M B) Φ w : idle m ->
  (∀ x w', res_of w' = res_of w -> wp (k x) Φ w') -> wp (x ← m; k x) Φ w.
Proof. intros Hm Hk. apply wp_bind, Hm. auto. Qed.

Lemma sp_maybe_fire x xd g w : inv x xd g (res_of w) -> rx_room g 1 ->
  wp (aiopquic_maybe_fire_tx_event_ring_drained ev) (λ _ w', ∃ g', inv x xd g' (res_of w') ∧
    grows 1 0 g g' ∧ g_def g' = g_def g ∧ same_refs g g') w.
Proof using Eok.
  intros I Hroom. unfold aiopquic_maybe_fire_tx_event_ring_drained.
  assert (D : ∀ w', res_of w' = res_of w -> ∃ g', inv x xd g' (res_of w') ∧
    grows 1 0 g g' ∧ g_def g' = g_def g ∧ same_refs g g').
  { intros w' ->. exists g. split; [done|]. split; [|done]. eapply grows_mono; [apply grows_refl|lia..]. }
  apply wp_idle; [idle_tac|]. intros pending w1 E1. case_match; [by apply wp_ret, D|].
  apply wp_idle; [idle_tac|]. intros n w2 E2. apply wp_idle; [idle_tac|]. intros low w3 E3.
  case_match; [apply wp_ret, D; congruence|].
  apply wp_idle; [idle_tac|]. intros expected w4 E4. case_match; [apply wp_ret, D; congruence|].
  apply wp_idle; [by apply idle_setb|]. intros [] w5 E5.
  apply wp_bind. eapply wp_mono.
  { apply (sp_rx_push_free ev x xd g w5 _ []); try done. by rewrite E5, E4, E3, E2, E1. }
  intros rc w6 (_ & g' & I' & G' & D' & S'). case_match.
  - apply wp_idle; [idle_tac|]. intros [] w7 E7. apply wp_idle; [idle_tac|]. intros now w8 E8.
    apply idle_set_cnt. intros [] w9 E9. exists g'. by rewrite E9, E8, E7.
  - apply wp_idle; [idle_tac|]. intros [] w7 E7. apply idle_setb; [done|].
    intros [] w8 E8. exists g'. by rewrite E8, E7.
Qed.

(** Dropping what a held reset holds, its entry already unlinked. *)
Lemma sp_deferred_free x xd g w d : inv (inc x (d_sc d)) xd g (res_of w) -> (∀ p, 0 <= x p) ->
  wp (aiopquic_deferred_reset_free d) (λ _ w', inv x xd g (res_of w')) w.
Proof using Type.
  intros I X0. unfold aiopquic_deferred_reset_free.
  assert (Hp : 0 < inc x (d_sc d) (d_sc d) + lsum (tx_ref (d_sc d)) (g_tx g)).
  { pose proof (lsum_nonneg (tx_ref (d_sc d)) (g_tx g) (λ e, proj1 (holds_range _ _ e))).
    unfold inc. rewrite Z.eqb_refl. cbn. specialize (X0 (d_sc d)). lia. }
  apply wp_bind. eapply wp_mono.
  { apply (sp_update I (d_sc d)).
    - pose proof (lsum_nonneg (rx_ref (d_sc d)) (g_rx g) (λ e, proj1 (holds_range _ _ e))).
      pose proof (lsum_nonneg (def_ref (d_sc d)) (g_def g) (λ e, c_bool_nonneg _)).
      unfold sc_refs. lia.
    - intros sc [Hr _] Hrx. split_and!; try done; apply Hr. }
  intros [] w1 I1. eapply wp_mono; [by apply (sp_destroy I1)|]. intros [] w2 I2.
  eapply inv_ext; [| |exact I2]; [|done]. intros p. unfold inc, dec. lia.
Qed.

(** Some held resets may be gone; nothing else moved. *)
Definition fewer_def (g g' : ghost) : Prop :=
  ∃ ds, g' = with_def g ds ∧ ∀ p, lsum (def_ref p) ds <= lsum (def_ref p) (g_def g).

Lemma fewer_def_refl g : fewer_def g g.
Proof. exists (g_def g). by destruct g. Qed.

Lemma fewer_def_trans g1 g2 g3 : fewer_def g1 g2 -> fewer_def g2 g3 -> fewer_def g1 g3.
Proof.
  intros (d1 & -> & H1) (d2 & -> & H2). exists d2. split; [done|].
  intros p. specialize (H1 p). specialize (H2 p). cbn in H2. lia.
Qed.

Lemma fewer_def_pop g k d ds : g_def g = k ++ d :: ds -> fewer_def g (with_def g (k ++ ds)).
Proof.
  intros E. exists (k ++ ds). split; [done|]. intros p. rewrite E, !lsum_app, lsum_cons.
  pose proof (c_bool_nonneg (d_sc d =? p)) as Hc.
  change (c_bool (d_sc d =? p)) with (def_ref p d) in Hc. lia.
Qed.

Lemma sp_drop_walk x xd cnx ds : (∀ p, 0 <= x p) -> ∀ k g w, inv x xd g (res_of w) ->
  g_def g = k ++ ds ->
  wp (drop_walk k ds cnx) (λ _ w', ∃ g', inv x xd g' (res_of w') ∧ fewer_def g g') w.
Proof using Type.
  intros X0. induction ds as [|d ds IH]; intros k g w I Ed; cbn [drop_walk].
  { apply wp_ret. exists g. split; [done|]. apply fewer_def_refl. }
  case_match.
  - apply wp_bind, wp_setb. pose proof (inv_def_pop I k d ds Ed) as I1. apply wp_bind.
    eapply wp_mono; [by apply (sp_deferred_free x xd _ _ d I1 X0)|]. intros [] w2 I2.
    eapply wp_mono; [by apply (IH k _ w2 I2)|]. intros _ w3 (g' & I3 & F).
    exists g'. split; [done|]. eapply fewer_def_trans; [by apply (fewer_def_pop g k d ds)|done].
  - apply (IH (k ++ [d])); [done|]. by rewrite <- app_assoc.
Qed.

Lemma sp_drop_cnx x xd cnx g w : (∀ p, 0 <= x p) -> inv x xd g (res_of w) ->
  wp (aiopquic_deferred_resets_drop_cnx cnx) (λ _ w', ∃ g', inv x xd g' (res_of w') ∧ fewer_def g g') w.
Proof using Type.
  intros X0 I. unfold aiopquic_deferred_resets_drop_cnx. apply wp_bind, wp_getb.
  apply sp_drop_walk; try done. cbn. symmetry. apply I.
Qed.

(** ** The reliable size, and holding a reset back *)

(** The reliable size is 0 or at most what was written to an existing TX ring. *)
Lemma sp_reliable_size x xd g w cnx p requested Φ : inv x xd g (res_of w) ->
  p = 0 ∨ 0 < sc_refs x g p -> 0 <= requested < 2 ^ 64 ->
  (∀ n w', res_of w' = res_of w -> 0 <= n < 2 ^ 64 ->
     (0 < n -> p <> 0 ∧ ∃ sc, sw_scs (w_sc w') !! p = Some sc ∧ is_Some (sc_tx sc)) -> Φ n w') ->
  wp (aiopquic_reset_reliable_size ev cnx p requested) Φ w.
Proof using Type.
  intros I Hp Hreq HΦ. unfold aiopquic_reset_reliable_size.
  destruct (requested =? 0); cbn [orb]; [by apply wp_ret, HΦ|].
  destruct (Z.eqb_spec p 0) as [Hz|Hz]; [by apply wp_ret, HΦ|]. destruct Hp as [?|Hp]; [done|].
  apply wp_bind, (sp_read I); [done|]. intros sc Esc [_ Ht].
  destruct (sc_tx sc) as [tx|] eqn:Et; [|by apply wp_ret, HΦ].
  apply wp_idle; [idle_tac|]. intros n w2 E2. destruct n; cbn [negb]; [|apply wp_ret, HΦ; [done|lia|lia]].
  apply wp_ret, HΦ; [done| |].
  - destruct (Ht tx eq_refl) as (H0 & q0 & R & _). rewrite (sr_tail _ _ _ R).
    pose proof (u64_range (H0 + zlen q0)). case_match; lia.
  - intros _. split; [done|]. exists sc. change (w_sc w2) with (s_sc (res_of w2)). rewrite E2.
    split; [done|]. by rewrite Et.
Qed.

Lemma sp_defer_reset x xd g w cnx p id code reliable preamble wt : inv x xd g (res_of w) ->
  (∀ q, 0 <= x q) -> (g_wt g = false -> u8 wt = 0) -> few_refs x g -> 0 < sc_refs x g p ->
  0 <= reliable < 2 ^ 64 -> (∃ sc, sw_scs (w_sc w) !! p = Some sc ∧ is_Some (sc_tx sc)) ->
  wp (aiopquic_defer_reset ev cnx p id code reliable preamble wt)
    (λ rc w', (rc = 0 ∧ ∃ g', inv x xd g' (res_of w') ∧ grows 0 0 g g' ∧
         ∀ q, sc_refs x g' q <= sc_refs x g q + c_bool (q =? p)) ∨
       (rc <> 0 ∧ res_of w' = res_of w)) w.
Proof using Type.
  intros I X0 Hwt Hfew Hp Hrel (sc & Esc & Htx). unfold aiopquic_defer_reset.
  apply wp_idle; [idle_tac|]. intros t w2 E2.
  assert (I2 : inv x xd g (res_of w2)) by (by rewrite E2).
  destruct (negb (ev_ok ev t)).
  { apply wp_ret. by right. }
  set (F := λ c, sc_set_tx_reliable_size reliable (sc_set_tx_reset_pending 1 c)).
  assert (W2 : wraps (g_T g) (sc_refs x g) (p :: map d_sc (g_def g)) (w_sc w2)).
  { destruct (iv_sc _ _ _ _ I2) as [W W' W'']. split; [done|done|].
    intros d [->|Hd]%elem_of_cons; [|by apply W'']. exists sc.
    change (w_sc w2) with (s_sc (res_of w2)). by rewrite E2. }
  destruct (wraps_ref W2 p Hp (Hfew p)) as (s3 & Er & W3).
  destruct (wraps_update W3 p F) as (sc4 & s4 & _ & Eu & _ & W4); [cbn; rewrite Z.eqb_refl; cbn; lia|done|].
  apply wp_bind. eexists tt, (w_set_sc s3 w2). split; [unfold on_sc; by rewrite Er|].
  apply wp_bind. eexists tt, (w_set_sc s4 (w_set_sc s3 w2)).
  split; [unfold upd_sc, on_sc; cbn [w_sc w_set_sc]; by rewrite Eu|].
  set (w4 := w_set_sc s4 (w_set_sc s3 w2)).
  assert (I4 : inv (inc x p) xd g (res_of w4)).
  { apply (inv_set_sc I2).
    - eapply wraps_sub; [|eapply wraps_ext; [|exact W4]]; [intros d Hd; by right|].
      intros d. unfold sc_refs, inc. lia.
    - intros d. pose proof (iv_x _ _ _ _ I d). unfold inc. pose proof (c_bool_nonneg (d =? p)). lia. }
  assert (Hlive : ∃ sc, sw_scs (w_sc w4) !! p = Some sc ∧ is_Some (sc_tx sc))
    by (apply (wr_held _ _ _ _ W4); by left).
  apply wp_bind, wp_setb, wp_ret.
  set (d := DeferredReset cnx p id code preamble (u8 wt)).
  left. split; [done|]. exists (with_def g (d :: g_def g)). split; [|split].
  - eapply inv_ext; [| |apply (inv_def_push I4 d)]; try done.
    + intros c. cbn. unfold dec, inc. lia.
    + cbn. unfold inc. rewrite Z.eqb_refl. cbn. specialize (X0 p).
      pose proof (lsum_nonneg (tx_ref p) (g_tx g) (λ e, proj1 (holds_range _ _ e))). lia.
  - split; cbn; done || lia.
  - intros c. unfold sc_refs. cbn [with_def g_tx g_rx g_def]. rewrite lsum_cons, def_ref_self.
    cbn [d_sc d]. lia.
Qed.

(** ** Entries of the TX ring *)

(** Registrations of a datagram ring. *)
Definition mark_of (e : spsc_entry) : Z := c_bool (e_event_type e =? SPSC_EVT_TX_MARK_DATAGRAM_READY).

Lemma mark_nonneg e : 0 <= mark_of e.
Proof. apply c_bool_nonneg. Qed.

(** The state after the head entry's handler: what the entry held is released. *)
Definition handled (x xd : Z -> Z) (g : ghost) (e : spsc_entry) (w' : world) : Prop :=
  ∃ g', inv (λ p, x p - tx_ref p e) (λ p, xd p - rel_ref p e) g' (res_of w') ∧ grows 1 (mark_of e) g g' ∧
    ∀ p, sc_refs (λ p, x p - tx_ref p e) g' p <= sc_refs x g p.

Section entry.
Context {x xd : Z -> Z} {g : ghost} {w : world} {e : spsc_entry} {q : list spsc_entry}.
Context (I : inv x xd g (res_of w)) (Eq : g_tx g = e :: q).
Context (X0 : ∀ p, 0 <= x p) (XD0 : ∀ p, 0 <= xd p) (Hroom : rx_room g 1).

(** A handler whose entry holds nothing. *)
Lemma handled_plain g' w' : inv x xd g' (res_of w') -> grows 1 (mark_of e) g g' -> same_refs g g' ->
  negb (e_stream_ctx e =? 0) && aiopquic_tx_event_owns_sc (e_event_type e) = false ->
  is_release (e_event_type e) = false -> handled x xd g e w'.
Proof using Type.
  intros I' G S Hn Hr. exists g'. split; [|split; [done|]].
  - eapply inv_ext; [| |exact I'].
    + intros p. unfold tx_ref. rewrite (holds_none _ _ _ Hn). lia.
    + intros p. unfold rel_ref, holds. rewrite Hr, andb_false_r. cbn. lia.
  - intros p. unfold sc_refs. unfold tx_ref at 1. rewrite (holds_none _ _ _ Hn).
    specialize (S x p). unfold sc_refs in S. lia.
Qed.

Lemma handled_idle m : idle m ->
  negb (e_stream_ctx e =? 0) && aiopquic_tx_event_owns_sc (e_event_type e) = false ->
  is_release (e_event_type e) = false -> wp m (λ (_ : unit) w', handled x xd g e w') w.
Proof using I.
  intros Hm Hn Hr. apply Hm. intros [] w' E'. apply (handled_plain g); try done; [by rewrite E'|].
  eapply grows_mono; [apply grows_refl|(lia || apply mark_nonneg)..].
Qed.

(** The wrapper a queued entry refers to is live. *)
Lemma entry_live :
  negb (e_stream_ctx e =? 0) && aiopquic_tx_event_owns_sc (e_event_type e) = true ->
  0 < x (e_stream_ctx e) + lsum (tx_ref (e_stream_ctx e)) (g_tx g) ∧
  0 < sc_refs x g (e_stream_ctx e).
Proof using Eq X0.
  intros Ho. assert (Hp : 0 < x (e_stream_ctx e) + lsum (tx_ref (e_stream_ctx e)) (g_tx g)).
  { rewrite Eq, lsum_cons. unfold tx_ref at 1. rewrite holds_self, Z.eqb_refl by done. cbn.
    specialize (X0 (e_stream_ctx e)).
    pose proof (lsum_nonneg (tx_ref (e_stream_ctx e)) q (λ e, proj1 (holds_range _ _ e))). lia. }
  split; [done|]. unfold sc_refs.
  pose proof (lsum_nonneg (rx_ref (e_stream_ctx e)) (g_rx g) (λ e, proj1 (holds_range _ _ e))).
  pose proof (lsum_nonneg (def_ref (e_stream_ctx e)) (g_def g) (λ e, c_bool_nonneg _)). lia.
Qed.

(** Releasing the entry, whatever the handler did before. *)
Lemma sp_entry_release g1 w1 : inv x xd g1 (res_of w1) -> g_tx g1 = g_tx g ->
  wp (aiopquic_tx_event_release e) (λ _ w', inv (λ p, x p - tx_ref p e) xd g1 (res_of w')) w1.
Proof using Eq X0.
  intros I1 Etx. unfold aiopquic_tx_event_release. apply wp_when; intros Ho.
  - destruct (entry_live Ho) as [Hp _]. rewrite <- Etx in Hp.
    eapply wp_mono; [by apply (sp_destroy I1)|]. intros [] w2 I2.
    eapply inv_ext; [| |exact I2]; [|done]. intros p. cbn. unfold tx_ref, dec.
    by rewrite holds_self.
  - eapply inv_ext; [| |exact I1]; [|done]. intros p. cbn. unfold tx_ref.
    rewrite holds_none by done. lia.
Qed.

(** A handler that ends with the release. *)
Lemma handled_release g1 w1 (k : unit -> M unit) : inv x xd g1 (res_of w1) -> grows 1 (mark_of e) g g1 ->
  (∀ p, sc_refs x g1 p - tx_ref p e <= sc_refs x g p) -> is_release (e_event_type e) = false ->
  (∀ u, idle (k u)) ->
  wp (u ← aiopquic_tx_event_release e; k u) (λ _ w', handled x xd g e w') w1.
Proof using Eq X0.
  intros I1 G1 S1 Hr Hk. apply wp_bind. eapply wp_mono; [apply (sp_entry_release g1 w1 I1), G1|].
  intros u w2 I2. apply Hk. intros u' w3 E3. exists g1. rewrite E3. split; [|split; [done|]].
  - eapply inv_ext; [| |exact I2]; [done|]. intros p. unfold rel_ref, holds.
    rewrite Hr, andb_false_r. cbn. lia.
  - intros p. specialize (S1 p). unfold sc_refs in *. lia.
Qed.

Lemma release_same g1 p : same_refs g g1 -> sc_refs x g1 p - tx_ref p e <= sc_refs x g p.
Proof using Type.
  intros S. rewrite (S x p). pose proof (holds_range aiopquic_tx_event_owns_sc p e) as Hh.
  change (holds aiopquic_tx_event_owns_sc p e) with (tx_ref p e) in Hh. lia.
Qed.

(** Handlers that push at most one event and hold nothing. *)
Lemma handled_push m : negb (e_stream_ctx e =? 0) && aiopquic_tx_event_owns_sc (e_event_type e) = false ->
  is_release (e_event_type e) = false ->
  wp m (λ (_ : unit) w', ∃ g', inv x xd g' (res_of w') ∧ grows 1 0 g g' ∧ g_def g' = g_def g ∧
    same_refs g g') w -> wp m (λ _ w', handled x xd g e w') w.
Proof using Type.
  intros Hn Hr Hm. eapply wp_mono; [exact Hm|]. intros [] w' (g' & I' & G' & _ & S').
  apply (handled_plain g'); try done. eapply grows_mono; [done|(lia || apply mark_nonneg)..].
Qed.

(** ** The handlers *)

Lemma block_read_some bs off n : 0 <= off -> 0 <= n -> off + n <= zlen bs ->
  ∃ out, block_read bs off n = Some out.
Proof using Type.
  intros H1 H2 H3. unfold block_read.
  rewrite (proj2 (Z.leb_le 0 off)), (proj2 (Z.leb_le 0 n)), (proj2 (Z.leb_le _ (zlen bs))) by done.
  by eexists.
Qed.

Lemma parse_connect_some raw n : n = zlen raw -> connect_params_size ev <= n ->
  ∃ p, parse_connect ev raw n = Some p.
Proof using Eok.
  intros -> Hn. unfold connect_params_size in Hn. pose proof (eo_storage _ Eok) as Hs.
  unfold parse_connect.
  destruct (block_read_some raw 0 (ev_storage_len ev)) as [? ->]; [lia..|]. cbn [mbind option_bind].
  destruct (block_read_some raw (ev_storage_len ev) 4) as [? ->]; [lia..|]. cbn [mbind option_bind].
  destruct (block_read_some raw (ev_storage_len ev + 4) 2) as [sl ->]; [lia..|]. cbn [mbind option_bind].
  destruct (block_read_some raw (ev_storage_len ev + 6) 2) as [al ->]; [lia..|]. cbn [mbind option_bind].
  unfold connect_params_size.
  assert (S : ∃ sni off, (if (le_bytes sl >? 0) && (le_bytes sl <? 256)
      && (ev_storage_len ev + 8 + le_bytes sl <=? zlen raw)
    then s ← block_read raw (ev_storage_len ev + 8) (le_bytes sl);
         Some (Some s, ev_storage_len ev + 8 + le_bytes sl)
    else Some (None, ev_storage_len ev + 8)) = Some (sni, off) ∧ 0 <= off).
  { destruct (_ && _) eqn:E; [|do 2 eexists; split; [done|lia]].
    apply andb_true_iff in E as [[E1 _]%andb_true_iff E2].
    rewrite Z.gtb_ltb in E1. apply Z.ltb_lt in E1. apply Z.leb_le in E2.
    destruct (block_read_some raw (ev_storage_len ev + 8) (le_bytes sl)) as [? ->]; [lia..|].
    do 2 eexists. split; [done|lia]. }
  destruct S as (sni & off & -> & Hoff). cbn [mbind option_bind].
  destruct (_ && _) eqn:E; [|by eexists].
  apply andb_true_iff in E as [[E1 _]%andb_true_iff E2].
  rewrite Z.gtb_ltb in E1. apply Z.ltb_lt in E1. apply Z.leb_le in E2.
  destruct (block_read_some raw off (le_bytes al)) as [? ->]; [lia..|]. by eexists.
Qed.

(** The payload of the head entry. *)
Lemma sp_payload Φ : (e_data_buf e = 0 -> Φ None w) ->
  (∀ bs, zlen bs = e_data_length e -> Φ (Some bs) w) -> wp (payload e) Φ w.
Proof using I Eq.
  intros H1 H2. unfold payload. pose proof (iv_bufs _ _ _ _ I) as Hb. rewrite Eq in Hb.
  apply Forall_cons in Hb as [[Hb|Hb] _].
  - exists None, w. rewrite Hb. cbn. auto.
  - destruct (ho_block _ _ (iv_heap _ _ _ _ I) e) as (bs & E & El);
      [rewrite Eq; apply elem_of_app; right; by left|done|].
    assert (Hn : e_data_buf e <> 0) by (intros Hz; by rewrite (no_buf_unowned _ Hz) in Hb).
    exists (Some bs), w. rewrite (proj2 (Z.eqb_neq _ 0)) by done.
    change (s_heap (res_of w)) with (w_heap w) in E. rewrite E. auto.
Qed.

Lemma same_refs_refl : same_refs g g.
Proof using Type. done. Qed.

Lemma push_nothing : ∃ g', inv x xd g' (res_of w) ∧ grows 1 0 g g' ∧ g_def g' = g_def g ∧ same_refs g g'.
Proof using I.
  exists g. split; [done|]. split; [|done]. eapply grows_mono; [apply grows_refl|(lia || apply mark_nonneg)..].
Qed.

Lemma sp_tx_connect : wp (tx_connect ev e) (λ _ w', ∃ g', inv x xd g' (res_of w') ∧
  grows 1 0 g g' ∧ g_def g' = g_def g ∧ same_refs g g') w.
Proof using I Eq Eok Hroom.
  unfold tx_connect. apply wp_bind, sp_payload; [intros _; by apply wp_ret, push_nothing|].
  intros raw El. rewrite Z.geb_leb.
  destruct (Z.leb_spec (connect_params_size ev) (e_data_length e)) as [Hs|]; [|by apply wp_ret, push_nothing].
  destruct (parse_connect_some raw (e_data_length e) (eq_sym El) Hs) as [p Ep].
  apply wp_bind. eexists p, w. split; [by rewrite Ep|].
  apply wp_idle; [idle_tac|]. intros now w1 E1. apply wp_idle; [idle_tac|]. intros c w2 E2.
  apply wp_idle; [idle_tac|]. intros c' w3 E3.
  assert (I3 : inv x xd g (res_of w3)) by (by rewrite E3, E2, E1).
  apply wp_when; intros _; [|exists g; split; [done|]; split; [|done];
    eapply grows_mono; [apply grows_refl|(lia || apply mark_nonneg)..]].
  apply wp_bind. eapply wp_mono; [by apply (sp_rx_push_free ev x xd g w3 _ [])|].
  intros rc w4 [_ Hg]. by apply wp_ret.
Qed.

Lemma sp_tx_cnx_refresh : wp (tx_cnx_refresh ev e) (λ _ w', ∃ g', inv x xd g' (res_of w') ∧
  grows 1 0 g g' ∧ g_def g' = g_def g ∧ same_refs g g') w.
Proof using I Eok Hroom.
  unfold tx_cnx_refresh. apply wp_idle; [idle_tac|]. intros snap w1 E1. apply wp_bind.
  eapply wp_mono; [apply (sp_rx_push_free ev x xd g w1 _ (ev_snapshot ev snap)); by try rewrite E1|].
  intros rc w4 [_ Hg]. by apply wp_ret.
Qed.

Lemma sp_tx_dgram_release : e_event_type e = SPSC_EVT_TX_DGRAM_RING_RELEASE ->
  e_cnx e = 0 ∨ 2 <= e_cnx e -> wp (tx_dgram_ring_release e) (λ _ w', handled x xd g e w') w.
Proof using I Eq XD0.
  intros Et Hc. unfold tx_dgram_ring_release.
  assert (Hn : negb (e_stream_ctx e =? 0) && aiopquic_tx_event_owns_sc (e_event_type e) = false)
    by (rewrite Et; by rewrite andb_false_r).
  assert (F : ∀ g' w', inv x (λ p, xd p - rel_ref p e) g' (res_of w') -> g' = g ->
    handled x xd g e w').
  { intros g' w' I' ->. exists g. split; [|split].
    - eapply inv_ext; [| |exact I']; [|done]. intros p. unfold tx_ref. rewrite holds_none by done. lia.
    - eapply grows_mono; [apply grows_refl|(lia || apply mark_nonneg)..].
    - intros p. unfold sc_refs. unfold tx_ref at 1. rewrite holds_none by done. lia. }
  assert (Hrel : ∀ p, rel_ref p e = if e_stream_ctx e =? 0 then 0 else c_bool (p =? e_stream_ctx e)).
  { intros p. unfold rel_ref, holds. rewrite Et. destruct (e_stream_ctx e =? 0); [done|].
    cbn. by rewrite Z.eqb_sym. }
  apply wp_bind. destruct (e_stream_ctx e =? 0) eqn:Ez; cbn [negb when].
  - apply wp_ret. apply idle_count. intros [] w1 E1. apply (F g); [|done]. rewrite E1.
    eapply inv_ext; [| |exact I]; [done|]. intros p. rewrite Hrel. lia.
  - eapply wp_mono.
    + apply (sp_ring_drop I (e_cnx e) (e_stream_ctx e)); [|done].
      rewrite Eq, lsum_cons, Hrel, Z.eqb_refl. cbn. specialize (XD0 (e_stream_ctx e)).
      pose proof (lsum_nonneg (rel_ref (e_stream_ctx e)) q (λ e, proj1 (holds_range _ _ e))). lia.
    + intros [] w1 I1. apply idle_count. intros [] w2 E2. apply (F g); [|done]. rewrite E2.
      eapply inv_ext; [| |exact I1]; [done|]. intros p. rewrite Hrel. done.
Qed.

Lemma sp_tx_mark_datagram : e_event_type e = SPSC_EVT_TX_MARK_DATAGRAM_READY -> 2 <= e_cnx e ->
  (e_stream_ctx e <> 0 -> 0 < db_refs xd g (e_stream_ctx e) < 2 ^ 31) ->
  g_puts g + mark_of e <= 2 ^ 26 ->
  wp (tx_mark_datagram_ready ev e) (λ _ w', handled x xd g e w') w.
Proof using I.
  intros Et Hc Hd Hn. unfold tx_mark_datagram_ready.
  assert (Em : mark_of e = 1) by (unfold mark_of; by rewrite Et).
  assert (Hn1 : negb (e_stream_ctx e =? 0) && aiopquic_tx_event_owns_sc (e_event_type e) = false)
    by (rewrite Et; by rewrite andb_false_r).
  assert (Hr : is_release (e_event_type e) = false) by (by rewrite Et).
  apply wp_bind, wp_when.
  - intros Hz%negb_true_iff%Z.eqb_neq. apply wp_bind.
    eapply wp_mono; [apply (sp_table_put I ev); auto; lia|].
    intros rc w1 (g1 & I1 & G1 & E1 & E2). apply idle_pq_. intros [] w2 E2'.
    apply idle_count. intros [] w3 E3. apply (handled_plain g1); try done.
    + by rewrite E3, E2'.
    + eapply grows_mono; [done|lia..].
    + intros y p. unfold sc_refs. by rewrite (gr_tx _ _ _ _ G1), E1, E2.
  - intros _. by apply handled_idle; [idle_tac|..].
Qed.

Lemma sp_tx_dead : is_release (e_event_type e) = false ->
  wp (tx_dead_cnx e) (λ _ w', handled x xd g e w') w.
Proof using I Eq X0.
  intros Hr. unfold tx_dead_cnx. apply wp_idle; [idle_tac|]. intros [] w1 E1.
  apply wp_idle; [idle_tac|]. intros [] w2 E2.
  assert (I2 : inv x xd g (res_of w2)) by (by rewrite E2, E1).
  eapply wp_mono; [by apply (sp_entry_release g w2)|]. intros [] w3 I3. exists g. split; [|split].
  - eapply inv_ext; [| |exact I3]; [done|]. intros p. unfold rel_ref, holds.
    rewrite Hr, andb_false_r. cbn. lia.
  - eapply grows_mono; [apply grows_refl|(lia || apply mark_nonneg)..].
  - intros p. pose proof (release_same g p same_refs_refl). unfold sc_refs in *. lia.
Qed.

Lemma sp_tx_mark_active : e_event_type e = SPSC_EVT_TX_MARK_ACTIVE ->
  wp (tx_mark_active ev e) (λ _ w', handled x xd g e w') w.
Proof using I Eq X0.
  intros Et. unfold tx_mark_active. apply wp_idle; [idle_tac|]. intros [] w1 E1.
  apply (handled_release g); [by rewrite E1|eapply grows_mono; [apply grows_refl|(lia || apply mark_nonneg)..]| |by rewrite Et|].
  - intros p. by apply release_same.
  - intros []. idle_tac.
Qed.

Lemma idle_reattach_entry cnx rr : idle (aiopquic_stream_reattach ev cnx e rr).
Proof using Type. apply idle_reattach. Qed.

Lemma sp_tx_stop_sending : e_event_type e = SPSC_EVT_TX_STOP_SENDING ->
  wp (tx_stop_sending ev e) (λ _ w', handled x xd g e w') w.
Proof using I Eq X0.
  intros Et. unfold tx_stop_sending. pose proof idle_reattach_entry as Hre.
  apply wp_idle; [idle_tac|]. intros can w0 E0.
  apply wp_idle; [idle_tac|]. intros [] w1 E1.
  eapply wp_mono; [apply (sp_entry_release g w1); [by rewrite E1, E0|done]|].
  intros [] w2 I2. exists g. split; [|split].
  - eapply inv_ext; [| |exact I2]; [done|]. intros p. unfold rel_ref, holds.
    rewrite Et, andb_false_r. cbn. lia.
  - eapply grows_mono; [apply grows_refl|(lia || apply mark_nonneg)..].
  - intros p. pose proof (release_same g p same_refs_refl). unfold sc_refs in *. lia.
Qed.

(** The wrapper of the head entry, when it names one. *)
Lemma read_entry_sc {A} (f : stream_ctx -> A) w1 Φ : res_of w1 = res_of w ->
  e_stream_ctx e <> 0 -> aiopquic_tx_event_owns_sc (e_event_type e) = true ->
  (∀ sc, sw_scs (w_sc w1) !! e_stream_ctx e = Some sc -> tx_ok (g_T g) sc -> Φ (f sc) w1) ->
  wp (read_sc (e_stream_ctx e) f) Φ w1.
Proof using I Eq X0.
  intros E1 Hz Ho HΦ. assert (I1 : inv x xd g (res_of w1)) by (by rewrite E1).
  apply (sp_read I1); [|done]. apply entry_live. rewrite Ho. by rewrite (proj2 (Z.eqb_neq _ 0)).
Qed.

Lemma sp_tx_open_flow_control : e_event_type e = SPSC_EVT_TX_OPEN_FLOW_CONTROL ->
  wp (tx_open_flow_control ev e) (λ _ w', handled x xd g e w') w.
Proof using I Eq X0.
  intros Et. unfold tx_open_flow_control.
  assert (Ho : aiopquic_tx_event_owns_sc (e_event_type e) = true) by (by rewrite Et).
  apply wp_idle; [idle_tac|]. intros [] w1 E1.
  apply wp_bind. apply (wp_mono _ (λ _ w', res_of w' = res_of w)).
  { destruct (Z.eqb_spec (e_stream_ctx e) 0); [by apply wp_ret|].
    by apply read_entry_sc; [|done..|]. }
  intros rx w2 E2. apply wp_bind. apply (wp_mono _ (λ _ w', res_of w' = res_of w)).
  { destruct rx as [rx|]; [|by apply wp_ret]. case_match; [|by apply wp_ret].
    destruct (Z.eqb_spec (e_stream_ctx e) 0) as [Hz|Hz].
    - apply wp_idle; [idle_tac|]. intros raw w3 E3. apply wp_bind.
      destruct raw.
      + apply wp_ret. apply idle_when; [idle_tac|]. intros. congruence.
      + eexists 0, w3. rewrite Hz. split; [done|]. apply idle_when; [idle_tac|]. intros. congruence.
    - apply wp_idle; [idle_tac|]. intros raw w3 E3. apply wp_bind. destruct raw.
      + apply wp_ret. apply idle_when; [idle_tac|]. intros. congruence.
      + destruct (entry_live) as [_ Hp]; [by rewrite Ho, (proj2 (Z.eqb_neq _ 0))|].
        assert (I3 : inv x xd g (res_of w3)) by (by rewrite E3, E2).
        destruct (wraps_live (iv_sc _ _ _ _ I3) _ Hp) as (sc & Esc & _).
        change (s_sc (res_of w3)) with (w_sc w3) in Esc.
        eexists _, w3. split.
        * unfold aiopquic_stream_ctx_pending_load. rewrite (proj2 (Z.eqb_neq _ 0)) by done.
          rewrite Esc. done.
        * apply idle_when; [idle_tac|]. intros. congruence. }
  intros [] w3 E3. assert (I3 : inv x xd g (res_of w3)) by (by rewrite E3).
  assert (F : ∀ w', inv (λ p, x p - tx_ref p e) xd g (res_of w') -> handled x xd g e w').
  { intros w' I'. exists g. split; [|split].
    - eapply inv_ext; [| |exact I']; [done|]. intros p. unfold rel_ref, holds.
      rewrite Et, andb_false_r. cbn. lia.
    - eapply grows_mono; [apply grows_refl|(lia || apply mark_nonneg)..].
    - intros p. pose proof (release_same g p same_refs_refl). unfold sc_refs in *. lia. }
  apply wp_when; intros Hz.
  - apply wp_idle; [idle_tac|]. intros [] w4 E4.
    assert (I4 : inv x xd g (res_of w4)) by (by rewrite E4).
    destruct entry_live as [Hp _]; [by rewrite Ho, Hz|].
    eapply wp_mono; [by apply (sp_destroy I4)|]. intros [] w5 I5. apply F.
    eapply inv_ext; [| |exact I5]; [|done]. intros p. unfold tx_ref, dec.
    rewrite holds_self; [done|]. by rewrite Ho, Hz.
  - apply F. eapply inv_ext; [| |exact I3]; [|done]. intros p. unfold tx_ref.
    rewrite holds_none; [lia|]. by rewrite Hz.
Qed.

(** The reset itself: the stream is reset, the wrapper put back, its queue
    discarded. *)
Lemma sp_reset_now cnx reliable w1 : res_of w1 = res_of w ->
  aiopquic_tx_event_owns_sc (e_event_type e) = true ->
  wp (rr ← aiopquic_reset_stream_reliable ev cnx (e_stream_id e) (e_error_code e) reliable;
      sc ← aiopquic_stream_reattach ev cnx e rr;
      on_sc (aiopquic_stream_ctx_tx_abandon sc)) (λ _ w', inv x xd g (res_of w')) w1.
Proof using I Eq X0.
  intros E1 Ho. apply wp_idle; [idle_tac|]. intros rr w2 E2.
  unfold aiopquic_stream_reattach, aiopquic_stream_reattach_sc.
  assert (Z0 : ∀ w3, res_of w3 = res_of w ->
    wp (on_sc (aiopquic_stream_ctx_tx_abandon 0)) (λ _ w', inv x xd g (res_of w')) w3).
  { intros w3 E3. assert (I3 : inv x xd g (res_of w3)) by (by rewrite E3).
    apply (sp_abandon I3). by left. }
  apply wp_bind. destruct ((e_stream_ctx e =? 0) || _) eqn:Ez.
  { apply wp_ret, Z0. congruence. }
  apply wp_idle; [idle_tac|]. intros closing w3 E3. destruct closing.
  { apply wp_idle; [idle_tac|]. intros [] w4 E4. apply wp_ret, Z0. congruence. }
  apply wp_idle; [idle_tac|]. intros [] w4 E4. apply wp_ret.
  assert (I4 : inv x xd g (res_of w4)) by (rewrite E4, E3, E2, E1; done).
  apply (sp_abandon I4). right. apply entry_live. rewrite Ho.
  apply orb_false_iff in Ez as [-> _]. done.
Qed.

Lemma sp_tx_stream_reset : e_event_type e = SPSC_EVT_TX_STREAM_RESET -> 0 <= e_aux e < 2 ^ 64 ->
  few_refs x g -> wp (tx_stream_reset ev e) (λ _ w', handled x xd g e w') w.
Proof using I Eq X0.
  intros Et Haux Hfew. unfold tx_stream_reset.
  assert (Ho : aiopquic_tx_event_owns_sc (e_event_type e) = true) by (by rewrite Et).
  assert (F : ∀ g1 w1, inv x xd g1 (res_of w1) -> grows 1 (mark_of e) g g1 ->
    (∀ p, sc_refs x g1 p - tx_ref p e <= sc_refs x g p) ->
    wp (aiopquic_tx_event_release e) (λ _ w', handled x xd g e w') w1).
  { intros g1 w1 I1 G1 S1. eapply wp_mono; [apply (sp_entry_release g1 w1 I1), G1|].
    intros [] w2 I2. exists g1. split; [|split; [done|]].
    - eapply inv_ext; [| |exact I2]; [done|]. intros p. unfold rel_ref, holds.
      rewrite Et, andb_false_r. cbn. lia.
    - intros p. specialize (S1 p). unfold sc_refs in *. lia. }
  assert (F0 : ∀ w1, inv x xd g (res_of w1) -> wp (aiopquic_tx_event_release e) (λ _ w', handled x xd g e w') w1).
  { intros w1 I1. apply (F g); [done|eapply grows_mono; [apply grows_refl|(lia || apply mark_nonneg)..]|].
    intros p. by apply release_same. }
  apply wp_bind. apply (wp_mono _ (λ _ w', res_of w' = res_of w)).
  { destruct (Z.eqb_spec (e_stream_ctx e) 0); [by apply wp_ret|].
    by apply read_entry_sc; [|done..|]. }
  intros pending w1 E1. destruct (_ && _).
  { apply wp_bind, wp_ret, F0. by rewrite E1. }
  apply wp_bind. apply wp_idle; [idle_tac|]. intros can w2 E2. destruct can.
  2: { apply idle_count. intros [] w3 E3. apply F0. by rewrite E3, E2, E1. }
  assert (I2 : inv x xd g (res_of w2)) by (by rewrite E2, E1).
  assert (Hlive : e_stream_ctx e = 0 ∨ 0 < sc_refs x g (e_stream_ctx e)).
  { destruct (Z.eqb_spec (e_stream_ctx e) 0) as [|Hz]; [by left|right]. apply entry_live.
    by rewrite Ho, (proj2 (Z.eqb_neq _ 0)). }
  apply wp_bind. apply (sp_reliable_size x xd g w2 _ _ (e_aux e) _ I2); [done|done|].
  intros reliable w3 E3 Hrel Hsc. apply wp_bind. rewrite <- E3 in I2.
  assert (E3' : res_of w3 = res_of w) by congruence.
  rewrite Z.gtb_ltb. destruct (Z.ltb_spec 0 reliable) as [Hpos|].
  - destruct (Hsc Hpos) as (Hz & sc & Esc & tx & Etx). apply wp_bind.
    eexists _, w3. split; [unfold read_tx; rewrite Esc; cbn [mbind option_bind]; by rewrite Etx|].
    destruct (reliable >? sb_head tx).
    + destruct Hlive as [?|Hp]; [done|]. apply wp_bind.
      eapply wp_mono; [apply (sp_defer_reset x xd g w3 (e_cnx e) (e_stream_ctx e) (e_stream_id e)
        (e_error_code e) reliable 0 0 I2 X0); by eauto|].
      intros rc w4 [(-> & g4 & I4 & G4 & S4)|[Hrc E4]]; apply wp_ret; [|rewrite E3' in E4].
      * cbn [Z.eqb]. apply idle_pq_. intros [] w5 E5. apply (F g4); [by rewrite E5|eapply grows_mono; [exact G4|(lia || apply mark_nonneg)..]|].
        intros p. specialize (S4 p). unfold tx_ref.
        rewrite holds_self by (by rewrite Ho, (proj2 (Z.eqb_neq _ 0))). lia.
      * rewrite (proj2 (Z.eqb_neq rc 0)) by done.
        eapply wp_mono; [by apply sp_reset_now|]. intros [] w5 I5. by apply F0.
    + apply wp_ret. eapply wp_mono; [by apply sp_reset_now|]. intros [] w4 I4. by apply F0.
  - apply wp_ret. eapply wp_mono; [by apply sp_reset_now|]. intros [] w4 I4. by apply F0.
Qed.

Lemma sp_tx_close : e_event_type e = SPSC_EVT_TX_CLOSE ->
  wp (tx_close ev e) (λ _ w', handled x xd g e w') w.
Proof using I Eq.
  intros Et. assert (F : ∀ w', res_of w' = res_of w -> handled x xd g e w').
  { intros w' E'. apply (handled_plain g); rewrite ?Et, ?andb_false_r; try done; [by rewrite E'|].
    eapply grows_mono; [apply grows_refl|(lia || apply mark_nonneg)..]. }
  unfold tx_close.
  assert (K : ∀ data, wp (reason ← aiopquic_close_reason_hold ev (e_cnx e) data (e_data_length e);
    match reason with
    | Some text => pq_ ev (PqCloseEx (e_cnx e) (e_error_code e) (c_str text))
    | None => pq_ ev (PqClose (e_cnx e) (e_error_code e))
    end) (λ _ w', handled x xd g e w') w).
  { intros data. apply wp_idle; [idle_tac|]. intros reason w1 E1.
    destruct reason; apply idle_pq_; intros [] w2 E2; apply F; congruence. }
  apply wp_bind, sp_payload; intros; apply K.
Qed.

(** *** The dispatch *)

Lemma sp_tx_dispatch : raw_type (e_event_type e) -> few_refs x g -> g_puts g + mark_of e <= 2 ^ 26 ->
  (e_event_type e = SPSC_EVT_TX_MARK_DATAGRAM_READY -> e_stream_ctx e <> 0 ->
     0 < db_refs xd g (e_stream_ctx e) < 2 ^ 31) ->
  wp (tx_dispatch ev e) (λ _ w', handled x xd g e w') w.
Proof using I Eq X0 XD0 Hroom Eok.
  intros (t & Ht & Et) Hfew Hputs Hmark. pose proof (iv_good _ _ _ _ I) as Hg. rewrite Eq in Hg.
  apply Forall_cons in Hg as [[_ Haux Hcnx] _].
  assert (L : e_event_type e <> SPSC_EVT_TX_CONNECT ->
    e_event_type e <> SPSC_EVT_TX_SET_MAX_CONNECTIONS -> is_release (e_event_type e) = false ->
    is_wt_event (e_event_type e) = false -> (e_cnx e <> 0 -> wp (tx_switch ev e) (λ _ w', handled x xd g e w') w) ->
    wp (tx_dispatch ev e) (λ _ w', handled x xd g e w') w).
  { intros H1 H2 H3 H4 Hsw. unfold tx_dispatch, evt_is. unfold is_release in H3.
    rewrite (proj2 (Z.eqb_neq _ _) H1), (proj2 (Z.eqb_neq _ _) H2), H3, H4.
    destruct (Z.eqb_spec (e_cnx e) 0).
    - apply wp_bind, wp_ret. by apply sp_tx_dead.
    - apply wp_bind, wp_get. cbn. case_match; [by apply Hsw|]. by apply sp_tx_dead. }
  assert (Hno : ∀ b, negb (e_stream_ctx e =? 0) && false = b -> b = false)
    by (intros b <-; apply andb_false_r).
  unfold raw_tx_types in Ht. rewrite !elem_of_cons in Ht.
  repeat destruct Ht as [->|Ht]; [..|by apply elem_of_nil in Ht];
    rewrite Et in L; try (apply L; [done..|intros Hc; unfold tx_switch; rewrite Et; cbn -[tx_mark_active tx_close]]; clear L).
  - (* close *) by apply sp_tx_close.
  - (* stream reset *) by apply sp_tx_stream_reset.
  - by apply sp_tx_stop_sending.
  - by apply sp_tx_mark_active.
  - (* connect *) unfold tx_dispatch. rewrite Et. cbn [evt_is evt_code Z.eqb Pos.eqb].
    apply handled_push; [by rewrite Et; apply (Hno _ eq_refl)|by rewrite Et|].
    apply sp_tx_connect.
  - by apply sp_tx_open_flow_control.
  - (* app flow control *) apply handled_idle; [|by rewrite Et; apply (Hno _ eq_refl)|by rewrite Et].
    unfold tx_set_app_flow_control. idle_tac.
  - (* mark datagram *) apply sp_tx_mark_datagram; auto. destruct Hcnx; [done|done].
  - (* refresh *) apply handled_push; [by rewrite Et; apply (Hno _ eq_refl)|by rewrite Et|].
    apply sp_tx_cnx_refresh.
  - (* stream priority *) apply handled_idle; [|by rewrite Et; apply (Hno _ eq_refl)|by rewrite Et].
    unfold tx_set_stream_priority. idle_tac.
  - (* ring release *) unfold tx_dispatch. rewrite Et. cbn [evt_is evt_code Z.eqb Pos.eqb].
    by apply sp_tx_dgram_release.
  - (* datagram priority *) apply handled_idle; [|by rewrite Et; apply (Hno _ eq_refl)|by rewrite Et].
    unfold tx_set_datagram_priority. idle_tac.
  - (* max connections *) unfold tx_dispatch. rewrite Et. cbn [evt_is evt_code Z.eqb Pos.eqb].
    apply handled_idle; [idle_tac|by rewrite Et; apply (Hno _ eq_refl)|by rewrite Et].
Qed.
End entry.

(** ** The drain loop *)

(** Every registration of a datagram ring still queued refers to a ring somebody
    will release later: Python itself, a release queued behind it or one owed. *)
Fixpoint marks_ok (xd : Z -> Z) (owed : list (Z * Z)) (q : list spsc_entry) : Prop :=
  match q with
  | [] => True
  | e :: q =>
      (e_event_type e = SPSC_EVT_TX_MARK_DATAGRAM_READY -> e_stream_ctx e <> 0 ->
         0 < xd (e_stream_ctx e) + lsum (rel_ref (e_stream_ctx e)) q
             + lsum (owed_ref (e_stream_ctx e)) owed) ∧
      marks_ok xd owed q
  end.

(** Counts leave room for [k] RX events and [n] registrations. *)
Record room (x xd : Z -> Z) (g : ghost) (k n : Z) : Prop := {
  rm_rx : rx_room g k;
  rm_puts : g_puts g + n <= 2 ^ 26;
  rm_sc : few_refs x g;
  rm_db : ∀ p, db_refs xd g p < 2 ^ 31;
  rm_raw : g_wt g = false
}.

(** After a drain. *)
Record drained (x : Z -> Z) (g g' : ghost) : Prop := {
  dr_tx : g_tx g' = [];
  dr_ht : g_ht g' = g_ht g + zlen (g_tx g);
  dr_hr : g_hr g' = g_hr g;
  dr_rx : zlen (g_rx g) <= zlen (g_rx g') <= zlen (g_rx g) + 2 * zlen (g_tx g);
  dr_owed : g_owed g' = g_owed g;
  dr_puts : g_puts g <= g_puts g' <= g_puts g + lsum mark_of (g_tx g);
  dr_T : g_T g' = g_T g;
  dr_sc : ∀ p, sc_refs x g' p <= sc_refs x g p;
  dr_wt : g_wt g' = g_wt g
}.

Lemma sp_entry_done x xd g w e q : inv (λ p, x p - tx_ref p e) (λ p, xd p - rel_ref p e) g (res_of w) ->
  g_tx g = e :: q -> rx_room g 1 ->
  wp (tx_entry_done ev) (λ _ w', ∃ g', inv x xd g' (res_of w') ∧
    grows 1 0 (with_tx g (g_ht g + 1) q) g' ∧ same_refs (with_tx g (g_ht g + 1) q) g') w.
Proof using Eok.
  intros I Eq Hroom. unfold tx_entry_done. apply wp_idle; [idle_tac|]. intros [] w1 E1.
  assert (I1 : inv (λ p, x p - tx_ref p e) (λ p, xd p - rel_ref p e) g (res_of w1)) by (by rewrite E1).
  apply wp_bind. eapply wp_mono; [by apply (sp_tx_pop I1 e q)|]. intros [] w2 I2.
  assert (I3 : inv x xd (with_tx g (g_ht g + 1) q) (res_of w2)).
  { eapply inv_ext; [| |exact I2]; intros p; cbn; lia. }
  eapply wp_mono; [by apply (sp_maybe_fire x xd _ w2 I3)|].
  intros [] w3 (g' & I' & G' & _ & S'). exists g'. auto.
Qed.

Lemma sp_tx_drain x xd q : (∀ p, 0 <= x p) -> (∀ p, 0 <= xd p) -> ∀ fuel g w,
  inv x xd g (res_of w) -> g_tx g = q -> marks_ok xd (g_owed g) q ->
  room x xd g (2 * zlen q) (lsum mark_of q) -> (length q < fuel)%nat ->
  wp (tx_drain ev fuel) (λ _ w', ∃ g', inv x xd g' (res_of w') ∧ drained x g g') w.
Proof using Eok.
  intros X0 XD0. induction q as [|e q IH]; intros fuel g w I Eq Hm [Hr Hp Hs Hd Hraw] Hf;
    (destruct fuel as [|fuel]; [lia|]); cbn [tx_drain]; apply wp_bind, (sp_tx_peek I); rewrite Eq.
  { apply wp_ret. exists g. split; [done|]. split; rewrite ?Eq; unfold lsum; cbn; done || lia. }
  destruct Hm as [Hme Hm]. cbn [length] in *.
  assert (Ht : raw_type (e_event_type e)).
  { pose proof (iv_good _ _ _ _ I) as Hg. rewrite Eq in Hg. apply Forall_cons in Hg as [[[?|[Ew _]] _ _] _]; congruence. }
  assert (Hr1 : rx_room g 1) by (unfold rx_room in *; lia). rewrite lsum_cons in Hp.
  pose proof (lsum_nonneg mark_of q mark_nonneg).
  apply wp_bind. eapply wp_mono.
  { apply (sp_tx_dispatch I Eq X0 XD0 Hr1 Ht Hs ltac:(lia)). intros Et Hz. split; [|by apply Hd].
    specialize (Hme Et Hz). unfold db_refs. rewrite Eq, lsum_cons.
    pose proof (holds_range is_release (e_stream_ctx e) e) as Hh.
    change (holds is_release (e_stream_ctx e) e) with (rel_ref (e_stream_ctx e) e) in Hh. lia. }
  intros [] w1 (g1 & I1 & G1 & S1). apply wp_bind.
  assert (Eq1 : g_tx g1 = e :: q) by (rewrite (gr_tx _ _ _ _ G1); done).
  pose proof (gr_rx _ _ _ _ G1). pose proof (gr_hr _ _ _ _ G1) as Ehr1. pose proof (gr_puts _ _ _ _ G1).
  eapply wp_mono; [apply (sp_entry_done x xd g1 w1 e q I1 Eq1); unfold rx_room in *; lia|].
  intros [] w2 (g2 & I2 & G2 & S2). 
  pose proof (gr_rx _ _ _ _ G2) as Hrx2. pose proof (gr_hr _ _ _ _ G2) as Ehr2.
  pose proof (gr_puts _ _ _ _ G2) as Hp2. cbn [with_tx g_rx g_hr g_puts] in Hrx2, Ehr2, Hp2.
  assert (Hsc : ∀ p, sc_refs x g2 p <= sc_refs x g p).
  { intros p. rewrite (S2 x p). specialize (S1 p). unfold sc_refs in *.
    cbn [with_tx g_tx g_rx g_def]. rewrite Eq1, lsum_cons in S1. lia. }
  assert (Eow : g_owed g2 = g_owed g).
  { rewrite (gr_owed _ _ _ _ G2). cbn. apply (gr_owed _ _ _ _ G1). }
  assert (Eq2 : g_tx g2 = q) by (rewrite (gr_tx _ _ _ _ G2); done).
  assert (Ewt : g_wt g2 = g_wt g) by (rewrite (gr_wt _ _ _ _ G2); apply (gr_wt _ _ _ _ G1)).
  eapply wp_mono; [apply (IH fuel g2 w2 I2)|].
  - done.
  - by rewrite Eow.
  - split.
    + unfold rx_room in *. lia.
    + lia.
    + intros p. specialize (Hsc p). specialize (Hs p). lia.
    + intros p. specialize (Hd p). unfold db_refs in *. rewrite Eow, Eq2.
      rewrite Eq, lsum_cons in Hd.
      pose proof (holds_range is_release p e) as Hh.
      change (holds is_release p e) with (rel_ref p e) in Hh. lia.
    + by rewrite Ewt.
  - lia.
  - intros [] w3 (g3 & I3 & [D1 D2 D3 D4 D5 D6 D7 D8 D9]). exists g3. split; [done|].
    rewrite Eq2 in D2, D4, D6. split; rewrite ?Eq; try done; try congruence; rewrite ?lsum_cons; cbn [length]; try lia.
    + rewrite D2, (gr_ht _ _ _ _ G2). cbn [with_tx g_ht]. rewrite (gr_ht _ _ _ _ G1). lia.
    + rewrite D7, (gr_T _ _ _ _ G2). apply (gr_T _ _ _ _ G1).
    + intros p. specialize (D8 p). specialize (Hsc p). lia.
Qed.

(** ** Held resets *)

Lemma sp_reattach cnx id sc rc w Φ :
  (∀ r w', res_of w' = res_of w -> r = 0 ∨ r = sc -> Φ r w') ->
  wp (aiopquic_stream_reattach_sc ev cnx id sc rc) Φ w.
Proof using Type.
  intros HΦ. unfold aiopquic_stream_reattach_sc. destruct (_ || _); [apply wp_ret, HΦ; auto|].
  apply wp_idle; [idle_tac|]. intros closing w1 E1. destruct closing.
  - apply wp_idle; [idle_tac|]. intros [] w2 E2. apply wp_ret, HΦ; [congruence|by left].
  - apply wp_idle; [idle_tac|]. intros [] w2 E2. apply wp_ret, HΦ; [congruence|by right].
Qed.

(** A held reset, its entry unlinked, is sent. *)
Lemma sp_reset_fire x xd g w d : inv (inc x (d_sc d)) xd g (res_of w) -> (∀ p, 0 <= x p) ->
  d_is_wt d = 0 ->
  wp (deferred_reset_fire ev d) (λ _ w', inv (inc x (d_sc d)) xd g (res_of w')) w.
Proof using Type.
  intros I X0 Hwt. unfold deferred_reset_fire. rewrite Hwt. cbn [Z.eqb negb].
  assert (Hp : 0 < sc_refs (inc x (d_sc d)) g (d_sc d)).
  { unfold sc_refs, inc. rewrite Z.eqb_refl. cbn. specialize (X0 (d_sc d)).
    pose proof (lsum_nonneg (tx_ref (d_sc d)) (g_tx g) (λ e, proj1 (holds_range _ _ e))).
    pose proof (lsum_nonneg (rx_ref (d_sc d)) (g_rx g) (λ e, proj1 (holds_range _ _ e))).
    pose proof (lsum_nonneg (def_ref (d_sc d)) (g_def g) (λ e, c_bool_nonneg _)). lia. }
  apply wp_bind. eapply wp_mono.
  { apply (sp_update I (d_sc d)); [done|]. intros sc [Hr _] Hrx. split_and!; try done; apply Hr. }
  intros [] w1 I1. apply wp_bind, (sp_read I1); [done|]. intros sc _ _.
  apply wp_idle; [idle_tac|]. intros rr w2 E2. apply wp_bind, sp_reattach. intros r w3 E3 Hr.
  assert (I3 : inv (inc x (d_sc d)) xd g (res_of w3)) by (by rewrite E3, E2).
  apply (sp_abandon I3). destruct Hr as [->| ->]; auto.
Qed.

Lemma held_reads x xd g w d : inv x xd g (res_of w) -> d ∈ g_def g ->
  ∃ sc tx, sw_scs (w_sc w) !! d_sc d = Some sc ∧ sc_tx sc = Some tx.
Proof using Type.
  intros I Hd. destruct (wr_held _ _ _ _ (iv_sc _ _ _ _ I) (d_sc d)) as (sc & E & tx & Et).
  { apply list_elem_of_fmap. by exists d. }
  exists sc, tx. done.
Qed.

Lemma sp_deferred_walk x xd sweep ds : (∀ p, 0 <= x p) -> ∀ k g w, inv x xd g (res_of w) -> g_wt g = false ->
  g_def g = k ++ ds ->
  wp (deferred_walk ev sweep k ds) (λ _ w', ∃ g', inv x xd g' (res_of w') ∧ fewer_def g g') w.
Proof using Type.
  intros X0. induction ds as [|d ds IH]; intros k g w I Hg Ed; cbn [deferred_walk].
  { apply wp_ret. exists g. split; [done|]. apply fewer_def_refl. }
  assert (Hd : d ∈ g_def g) by (rewrite Ed; apply elem_of_app; right; by left).
  destruct (held_reads x xd g w d I Hd) as (sc & tx & Esc & Etx).
  assert (Hskip : ∀ w', res_of w' = res_of w -> wp (deferred_walk ev sweep (k ++ [d]) ds)
    (λ _ w', ∃ g', inv x xd g' (res_of w') ∧ fewer_def g g') w').
  { intros w' E'. apply (IH (k ++ [d])); [by rewrite E'|done|]. by rewrite <- app_assoc. }
  apply wp_bind. eexists _, w. split; [unfold read_tx; rewrite Esc; cbn [mbind option_bind]; by rewrite Etx|].
  apply wp_bind. eexists _, w. split; [unfold read_sc; by rewrite Esc|].
  destruct (_ && _); [by apply Hskip|].
  apply wp_idle; [idle_tac|]. intros alive w1 E1. destruct (_ && _); [by apply Hskip|].
  assert (I1 : inv x xd g (res_of w1)) by (by rewrite E1).
  apply wp_bind, wp_setb. pose proof (inv_def_pop I1 k d ds Ed) as I2.
  assert (Hwt : d_is_wt d = 0).
  { pose proof (iv_raw _ _ _ _ I Hg) as Hraw. rewrite Forall_forall in Hraw. by apply Hraw. }
  apply wp_idle; [idle_tac|]. intros open w3 E3. rewrite <- E3 in I2.
  apply wp_bind. apply (wp_mono _ (λ _ w', inv (inc x (d_sc d)) xd (with_def g (k ++ ds)) (res_of w'))).
  { apply wp_when; intros _; [by apply sp_reset_fire|done]. }
  intros [] w4 I4. apply wp_bind. eapply wp_mono; [by apply (sp_deferred_free x xd _ _ d I4 X0)|].
  intros [] w5 I5. eapply wp_mono; [by apply (IH k _ w5 I5)|]. intros _ w6 (g' & I6 & F).
  exists g'. split; [done|]. eapply fewer_def_trans; [by apply (fewer_def_pop g k d ds)|done].
Qed.

Lemma sp_run_deferred x xd g w : (∀ p, 0 <= x p) -> inv x xd g (res_of w) -> g_wt g = false ->
  wp (aiopquic_run_deferred_resets ev) (λ _ w', ∃ g', inv x xd g' (res_of w') ∧ fewer_def g g') w.
Proof using Type.
  intros X0 I Hg. unfold aiopquic_run_deferred_resets. apply wp_idle; [idle_tac|]. intros now w1 E1.
  apply wp_idle; [idle_tac|]. intros swept w2 E2. apply wp_idle.
  { apply idle_when. by apply idle_setb. }
  intros [] w3 E3. apply wp_bind, wp_getb.
  assert (I3 : inv x xd g (res_of w3)) by (by rewrite E3, E2, E1).
  apply sp_deferred_walk; try done. cbn. symmetry. apply I3.
Qed.

(** ** The packet-loop callback *)

(** A peek that nothing follows up on. *)
Lemma sp_peek_idle x xd g w Φ : inv x xd g (res_of w) ->
  (∀ o w', w' = w -> (o = None ↔ g_tx g = []) -> Φ o w') -> wp tx_ring_peek Φ w.
Proof using Type.
  intros I HΦ. apply (sp_tx_peek I). destruct (g_tx g); apply HΦ; done.
Qed.

Lemma sp_loop_running x xd g w : inv x xd g (res_of w) ->
  wp (loop_running ev) (λ _ w', res_of w' = res_of w) w.
Proof using Type.
  intros I. unfold loop_running. apply wp_idle; [idle_tac|]. intros [] w1 E1.
  apply wp_idle; [idle_tac|]. intros idle w2 E2. apply wp_when; intros _; [|congruence].
  apply wp_idle; [idle_tac|]. intros armed w3 E3. destruct (armed =? 0).
  { apply idle_setb; [done|]. intros. congruence. }
  apply wp_idle; [idle_tac|]. intros was w4 E4. apply wp_idle; [by apply idle_setb|]. intros [] w5 E5.
  apply wp_when; intros _; [|congruence].
  apply wp_idle; [idle_tac|]. intros now w6 E6. apply wp_when; intros _; [|congruence].
  assert (I6 : inv x xd g (res_of w6)) by (by rewrite E6, E5, E4, E3, E2, E1).
  apply wp_bind, (sp_peek_idle x xd g w6 _ I6). intros o w7 -> _.
  apply idle_when; [idle_tac|]. intros. congruence.
Qed.

(** What one call of the loop callback may have done. *)
Record looped (x : Z -> Z) (g g' : ghost) : Prop := {
  lp_tx : (g_tx g' = g_tx g ∧ g_ht g' = g_ht g) ∨
          (g_tx g' = [] ∧ g_ht g' = g_ht g + zlen (g_tx g));
  lp_hr : g_hr g' = g_hr g;
  lp_rx : zlen (g_rx g) <= zlen (g_rx g') <= zlen (g_rx g) + 2 * zlen (g_tx g) + 1;
  lp_owed : g_owed g' = g_owed g;
  lp_puts : g_puts g' + lsum mark_of (g_tx g') <= g_puts g + lsum mark_of (g_tx g);
  lp_T : g_T g' = g_T g;
  lp_sc : ∀ p, sc_refs x g' p <= sc_refs x g p;
  lp_wt : g_wt g' = g_wt g
}.

Lemma marks_nonneg q : 0 <= lsum mark_of q.
Proof. apply lsum_nonneg, mark_nonneg. Qed.

Lemma looped_refl x g : looped x g g.
Proof. split; try lia; auto. Qed.

Lemma looped_grows x g g' : grows 1 0 g g' -> same_refs g g' -> looped x g g'.
Proof.
  intros [? E ? ? ? ? ? ?] S. split; rewrite ?E; try lia; auto. intros p. rewrite (S x p). lia.
Qed.

Lemma fewer_def_looped x g g' : fewer_def g g' -> looped x g g'.
Proof.
  intros (ds & -> & H0). split; cbn; try lia; auto.
  intros p. specialize (H0 p). unfold sc_refs. cbn [with_def g_tx g_rx g_def]. lia.
Qed.

Definition drains (mode : packet_loop_cb) (q : list spsc_entry) : Prop :=
  match mode with
  | picoquic_packet_loop_wake_up => True
  | picoquic_packet_loop_time_check _ _ => q <> []
  | _ => False
  end.

Lemma sp_loop_cb x xd g w fuel mode : (∀ p, 0 <= x p) -> (∀ p, 0 <= xd p) ->
  inv x xd g (res_of w) -> marks_ok xd (g_owed g) (g_tx g) ->
  room x xd g (2 * zlen (g_tx g) + 1) (lsum mark_of (g_tx g)) -> (length (g_tx g) < fuel)%nat ->
  wp (aiopquic_loop_cb ev fuel mode) (λ _ w', ∃ g', inv x xd g' (res_of w') ∧ looped x g g' ∧
    (drains mode (g_tx g) -> g_tx g' = [])) w.
Proof using Eok.
  intros X0 XD0 I Hm [Hr Hp Hs Hd Hraw] Hf. unfold aiopquic_loop_cb.
  apply wp_bind. eapply wp_mono; [by apply (sp_loop_running x xd g)|]. intros [] w1 E1.
  assert (I1 : inv x xd g (res_of w1)) by (by rewrite E1).
  assert (Hwake : ∀ w2 (r : Z), inv x xd g (res_of w2) ->
    wp (loop_wake_up ev fuel ;; ret r) (λ _ w', ∃ g', inv x xd g' (res_of w') ∧ looped x g g' ∧
      g_tx g' = []) w2).
  { intros w2 r I2. apply wp_bind. unfold loop_wake_up. apply wp_bind.
    eapply wp_mono; [apply (sp_tx_drain x xd (g_tx g) X0 XD0 fuel g w2 I2); try done|].
    { split; try done. unfold rx_room in *. lia. }
    intros [] w3 (g3 & I3 & [D1 D2 D3 D4 D5 D6 D7 D8 D9]).
    eapply wp_mono; [apply (sp_maybe_fire x xd g3 w3 I3); unfold rx_room in *; lia|].
    intros [] w4 (g4 & I4 & [G1 G2 G3 G4 G5 G6 G7 G8] & _ & S4). apply wp_ret. exists g4.
    split; [done|]. split; [|congruence]. split; rewrite ?G2, ?D1; [|congruence|lia|congruence| |congruence| |congruence].
    - right. split; [congruence|lia].
    - change (lsum mark_of []) with 0. lia.
    - intros p. rewrite (S4 x p). apply D8. }
  assert (Hweak : ∀ m, wp m (λ _ w', ∃ g', inv x xd g' (res_of w') ∧ looped x g g' ∧ g_tx g' = []) w1 ->
    wp m (λ (_ : Z) w', ∃ g', inv x xd g' (res_of w') ∧ looped x g g' ∧ (drains mode (g_tx g) -> g_tx g' = [])) w1).
  { intros m Hw. eapply wp_mono; [exact Hw|]. intros r w' (g' & ? & ? & ?). eauto 6. }
  destruct mode as [|delta now| | |].
  - apply wp_idle; [by apply idle_setb|]. intros [] w2 E2. apply wp_idle; [idle_tac|]. intros [] w3 E3.
    assert (I3 : inv x xd g (res_of w3)) by (by rewrite E3, E2).
    apply wp_bind. eapply wp_mono.
    { apply (sp_rx_push_free ev x xd g w3 _ []); try done. unfold rx_room in *. lia. }
    intros rc w4 (_ & g4 & I4 & G4 & _ & S4). apply wp_ret. exists g4. split; [done|].
    split; [by apply looped_grows|done].
  - apply wp_idle; [apply idle_when; by apply idle_setb|]. intros [] w2 E2.
    assert (I2 : inv x xd g (res_of w2)) by (by rewrite E2).
    apply wp_bind. apply (wp_mono _ (λ (b : bool) w', res_of w' = res_of w ∧ (b = false -> g_tx g = []))).
    + destruct (delta >? 0).
      * unfold aiopquic_tx_worker_idle_arm. apply wp_idle; [by apply idle_setb|]. intros [] w3 E3.
        assert (I3 : inv x xd g (res_of w3)) by (by rewrite E3).
        apply wp_bind, (sp_peek_idle x xd g w3 _ I3). intros o w4 -> Ho. destruct o as [e|].
        -- apply wp_idle; [by apply idle_setb|]. intros [] w5 E5. apply wp_ret. split; [congruence|done].
        -- apply wp_ret. split; [congruence|]. intros _. by apply Ho.
      * apply wp_bind, (sp_peek_idle x xd g w2 _ I2). intros o w4 -> Ho. apply wp_ret.
        split; [congruence|]. destruct o; [done|]. intros _. by apply Ho.
    + intros b w3 [E3 Hb]. assert (I3 : inv x xd g (res_of w3)) by (by rewrite E3).
      destruct b; cbn [negb].
      * eapply wp_mono; [by apply (Hwake w3)|]. intros r w' (g' & ? & ? & ?). eauto 6.
      * apply wp_ret. exists g. split; [done|]. split; [apply looped_refl|]. intros Hne.
        cbn in Hne. by destruct (Hne (Hb eq_refl)).
  - by apply Hweak, Hwake.
  - apply wp_bind, wp_getb. apply wp_bind.
    apply (wp_mono _ (λ _ w', ∃ g', inv x xd g' (res_of w') ∧ fewer_def g g')).
    + apply wp_when; intros _; [by apply sp_run_deferred|]. exists g. split; [done|apply fewer_def_refl].
    + intros [] w2 (g2 & I2 & F2). apply wp_ret. exists g2. split; [done|].
      split; [by apply fewer_def_looped|done].
  - apply wp_ret. exists g. split; [done|]. split; [apply looped_refl|done].
Qed.
End worker.
