(* ===== verification/StreamCb.v ===== *)
(** * Safety of the stream callback

    [aiopquic_stream_cb], run from a state satisfying the invariant of World.v for
    any picoquic event, is defined and satisfies it again.  A stream event on a
    connection that is closing may come with a dangling wrapper: the guard keeps the
    callback from touching it. *)
From S2P Require Import Prelude Ring Store StreamBuf SpscRing EventChannel DgramBuf DgramTable.
From S2P Require Import StreamCtx Bridge Callback World BridgeSafe.

(** ** What one callback may have done *)

(** The wrapper a stream's first payload makes. *)
Definition made (x : Z -> Z) (g : ghost) (x' : Z -> Z) : Prop :=
  (∀ p, x' p = x p) ∨
  ∃ p, p <> 0 ∧ sc_refs x g p = 0 ∧ ∀ q, x' q = x q + c_bool (q =? p).

Record cb_done (x : Z -> Z) (g : ghost) (B : Z) (x' : Z -> Z) (g' : ghost) : Prop := {
  cd_tx : g_tx g' = g_tx g;
  cd_ht : g_ht g' = g_ht g;
  cd_hr : g_hr g' = g_hr g;
  cd_rx : zlen (g_rx g) <= zlen (g_rx g') <= zlen (g_rx g) + 1;
  cd_owed : g_owed g' = g_owed g;
  cd_puts : g_puts g' = g_puts g;
  cd_T : g_T g <= g_T g' <= g_T g + B;
  cd_made : made x g x';
  cd_gone : ∀ p, sc_refs x g p = 0 -> x' p = x p -> sc_refs x' g' p = 0;
  cd_wt : g_wt g' = g_wt g
}.

Definition with_T (g : ghost) (T : Z) : ghost :=
  Ghost (g_ht g) (g_tx g) (g_hr g) (g_rx g) (g_def g) (g_owed g) (g_puts g) T (g_wt g).

Lemma made_refl x g : made x g x.
Proof. by left. Qed.

Lemma sc_refs_made x g x' p : made x g x' ->
  sc_refs x' g p = sc_refs x g p ∨ (sc_refs x g p = 0 ∧ sc_refs x' g p = 1).
Proof.
  intros [E|(q & Hq & Hz & E)]; unfold sc_refs in *; rewrite E; [by left|].
  destruct (Z.eqb_spec p q) as [->|]; cbn; [right; lia|left; lia].
Qed.

Lemma made_few x g x' : made x g x' -> few_refs x g -> few_refs x' g.
Proof.
  intros M Hf p. specialize (Hf p). destruct (sc_refs_made x g x' p M) as [->|[_ ->]]; [done|lia].
Qed.

(** References are counted by non-negative numbers. *)
Lemma sc_refs_nonneg {x xd g r} p : inv x xd g r -> 0 <= sc_refs x g p.
Proof.
  intros I. unfold sc_refs. pose proof (iv_x _ _ _ _ I p).
  pose proof (lsum_nonneg (rx_ref p) (g_rx g) (λ e, proj1 (holds_range _ _ e))).
  pose proof (lsum_nonneg (def_ref p) (g_def g) (λ e, c_bool_nonneg _)). lia.
Qed.

Lemma sc_refs_own {x xd g r} p : inv x xd g r -> 0 < x p -> 0 < sc_refs x g p.
Proof.
  intros I Hp. unfold sc_refs.
  pose proof (lsum_nonneg (tx_ref p) (g_tx g) (λ e, proj1 (holds_range _ _ e))).
  pose proof (lsum_nonneg (rx_ref p) (g_rx g) (λ e, proj1 (holds_range _ _ e))).
  pose proof (lsum_nonneg (def_ref p) (g_def g) (λ e, c_bool_nonneg _)). lia.
Qed.

Lemma cb_done_same x g B g' : 0 <= B -> grows 1 0 g g' ->
  (∀ p, sc_refs x g p = 0 -> sc_refs x g' p = 0) -> cb_done x g B x g'.
Proof. intros HB [] S. split; auto using made_refl; lia. Qed.

Lemma cb_done_refl x g B : 0 <= B -> cb_done x g B x g.
Proof. intros HB. apply cb_done_same; [done| |done]. eapply grows_mono; [apply grows_refl|lia..]. Qed.

Section cb.
Context {ev : env} (Eok : env_ok ev) {xd : Z -> Z}.

(** ** Datagram rings *)

Lemma sp_on_db {A} x g w db b b' (f : dgram_buf -> option (A * dgram_buf)) (a : A) Φ :
  inv x xd g (res_of w) -> rs_rings (w_rs w) !! db = Some b -> f b = Some (a, b') ->
  db_refcnt b' = db_refcnt b -> db_sound b' ->
  (∀ w', inv x xd g (res_of w') -> rs_rings (w_rs w') !! db = Some b' -> Φ a w') ->
  wp (on_db db f) Φ w.
Proof using Type.
  intros I E Ef Ec Hb HΦ. eexists _, _. split.
  { unfold on_db. rewrite E. cbn [mbind option_bind]. rewrite Ef. done. }
  apply HΦ; [|apply lookup_insert_eq].
  rewrite <- (ghost_eta I).
  exact (inv_set_db I xd (g_puts g) (b_dgram_table (w_ctx w)) _
    (rings_update (iv_db _ _ _ _ I) db b b' E Ec Hb) (iv_xd _ _ _ _ I)).
Qed.

Lemma db_rep_drain b H recs n : db_rep b H recs -> db_rep (db_set_drain b n) H recs.
Proof using Type. by intros []. Qed.

Lemma db_rep_counters b H recs popped bytes deferred : db_rep b H recs ->
  db_rep (db_set_consumer b (db_head b) popped bytes deferred) H recs.
Proof using Type. by intros []. Qed.

Lemma frame_ring db b w w' : frame w w' -> rs_rings (w_rs w) !! db = Some b ->
  rs_rings (w_rs w') !! db = Some b.
Proof using Type. by intros [-> _]. Qed.

Lemma res_ring db b w w' : res_of w' = res_of w -> rs_rings (w_rs w) !! db = Some b ->
  rs_rings (w_rs w') !! db = Some b.
Proof using Type. intros E. apply frame_ring. by apply frame_res. Qed.

(** Outcome of a handler that moves no reference. *)
Definition quiet (x : Z -> Z) (g : ghost) (w' : world) : Prop :=
  ∃ g', inv x xd g' (res_of w') ∧ grows 1 0 g g' ∧ same_refs g g'.

Lemma quiet_refl x g w : inv x xd g (res_of w) -> quiet x g w.
Proof using Type.
  intros I. exists g. split; [done|]. split; [|done]. eapply grows_mono; [apply grows_refl|lia..].
Qed.

Lemma sp_dgram_signal x g w db b H recs cnx : inv x xd g (res_of w) -> rx_room g 1 ->
  rs_rings (w_rs w) !! db = Some b -> db_rep b H recs ->
  wp (take ← on_db db (λ b, Some (aiopquic_dgram_buf_drain_take b));
      when take
        (rc ← aiopquic_rx_push ev (event_entry SPSC_EVT_DATAGRAM_TX_DRAINED 0 cnx 0) [];
         when (negb (rc =? 0)) (on_db db (λ b, Some (tt, db_set_drain b 1)))))
    (λ _ w', quiet x g w') w.
Proof using Eok.
  intros I Hroom E R. apply wp_bind. eapply sp_on_db; [done..| |].
  { exists H, recs. by apply db_rep_drain. }
  intros w1 I1 E1. apply wp_when; intros _; [|by apply quiet_refl].
  apply wp_bind. eapply wp_mono; [by apply (sp_rx_push_free ev x xd g w1 _ [])|].
  intros rc w2 (Fr & g2 & I2 & G2 & _ & S2). apply wp_when; intros _; [|by exists g2].
  eapply (sp_on_db _ _ _ _ _ _ _ _ _ I2 (frame_ring _ _ _ _ Fr E1)); [done|done| |].
  { exists H, recs. by do 2 apply db_rep_drain. }
  intros w3 I3 _. by exists g2.
Qed.

Lemma sp_prepare_datagram x g w cnx bytes length : inv x xd g (res_of w) -> rx_room g 1 ->
  2 <= cnx -> wp (prepare_datagram ev cnx bytes length) (λ _ w', quiet x g w') w.
Proof using Eok.
  intros I Hroom Hc. unfold prepare_datagram. apply wp_idle; [idle_tac|]. intros [] w1 E1.
  rewrite <- E1 in I. assert (Q : ∀ w', res_of w' = res_of w1 -> quiet x g w').
  { intros w' E'. apply quiet_refl. by rewrite E'. }
  destruct (rings_get (iv_db _ _ _ _ I) (λ p, db_refs_nonneg _ p I) cnx Hc) as (d & Eg & Hd).
  apply wp_bind. eexists d, w1. split.
  { change (s_tab (res_of w1)) with (b_dgram_table (w_ctx w1)) in Eg. by rewrite Eg. }
  destruct (Z.eqb_spec d 0) as [Hz|Hz].
  { apply wp_bind, wp_ret. cbn [Z.eqb]. apply wp_idle; [idle_tac|]. intros [] w2 E2. apply wp_ret. by apply Q. }
  destruct (Hd Hz) as (b & Eb & H & recs & R).
  change (s_rs (res_of w1)) with (w_rs w1) in Eb.
  destruct recs as [|r recs].
  { apply wp_bind. eapply (sp_on_db _ _ _ _ b b); [done|done|by rewrite (peek_empty R)|done|by exists H, []|].
    intros w2 I2 E2. cbn [Z.eqb]. apply wp_idle; [idle_tac|]. intros [] w3 E3. apply wp_ret.
    apply quiet_refl. by rewrite E3. }
  assert (Hr : 0 < zlen r) by (pose proof (dr_recs _ _ _ R) as Hf; apply Forall_cons in Hf as [Hf _]; apply Hf).
  apply wp_bind. eapply (sp_on_db _ _ _ _ b b); [done|done|by rewrite (peek_cons R r recs)|done|by exists H, (r :: recs)|].
  intros w2 I2 E2. rewrite (proj2 (Z.eqb_neq (zlen r) 0)) by lia.
  destruct (zlen r <=? u32 length).
  - apply wp_bind. eapply (sp_on_db _ _ _ _ b b); [done|done|done|done|by exists H, (r :: recs)|].
    intros w3 I3 E3. apply wp_idle; [idle_tac|]. intros buf w4 E4. rewrite <- E4 in I3.
    apply wp_bind. apply (wp_mono _ (λ _ w', quiet x g w')); [|intros [] w' Hq; by apply wp_ret].
    apply wp_when; intros _; [|by apply quiet_refl].
    destruct (pop_cons R r recs eq_refl) as (b' & Ep & Eb' & R').
    apply wp_bind. eapply (sp_on_db _ _ _ _ b b'); [done|by apply (res_ring _ _ w3)|exact Ep|by rewrite Eb'|by exists (H + 4 + zlen r), recs|].
    intros w5 I5 E5. apply wp_idle; [idle_tac|]. intros [] w6 E6. apply wp_idle; [idle_tac|]. intros [] w7 E7.
    apply wp_idle; [idle_tac|]. intros [] w8 E8.
    assert (E58 : res_of w8 = res_of w5) by congruence.
    eapply sp_dgram_signal; [by rewrite E58|done|by apply (res_ring _ _ w5)|exact R'].
  - apply wp_bind. eapply (sp_on_db _ _ _ _ b); [done|done|done|done|exists H, (r :: recs); by apply db_rep_counters|].
    intros w3 I3 E3. apply wp_idle; [idle_tac|]. intros [] w4 E4. apply wp_ret. apply quiet_refl. by rewrite E4.
Qed.

(** ** Wrappers *)

(** One wrapper's flags change and something is read off it. *)
Lemma sp_sc_val {A} x g w p (f : stream_ctx -> A * stream_ctx) : inv x xd g (res_of w) ->
  0 < sc_refs x g p -> (∀ sc, tx_ok (g_T g) sc -> rx_sound sc ->
    sc_refcount (f sc).2 = sc_refcount sc ∧ sc_tx (f sc).2 = sc_tx sc ∧ rx_sound (f sc).2 ∧
    0 <= sc_tx_reliable_size (f sc).2 < 2 ^ 64) ->
  wp (on_sc_val (λ s, c ← sw_scs s !! p; let (b, c) := f c in
        Some (b, ScWorld (<[p := c]> (sw_scs s)) (sw_g s))))
    (λ _ w', inv x xd g (res_of w')) w.
Proof using Type.
  intros I Hp Hf. destruct (wraps_update (iv_sc _ _ _ _ I) p (λ sc, (f sc).2) Hp Hf)
    as (sc & s' & E & _ & Es & W).
  change (s_sc (res_of w)) with (w_sc w) in E, Es.
  subst s'. eexists (f sc).1, (w_set_sc _ w). split; [|exact (inv_sc_same I _ W)].
  unfold on_sc_val. rewrite E. cbn [mbind option_bind]. by destruct (f sc).
Qed.

Lemma keeps_flags (F : stream_ctx -> stream_ctx) T sc : tx_ok T sc -> rx_sound sc ->
  sc_refcount (F sc) = sc_refcount sc -> sc_tx (F sc) = sc_tx sc -> sc_rx (F sc) = sc_rx sc ->
  sc_tx_reliable_size (F sc) = sc_tx_reliable_size sc ->
  sc_refcount (F sc) = sc_refcount sc ∧ sc_tx (F sc) = sc_tx sc ∧ rx_sound (F sc) ∧
    0 <= sc_tx_reliable_size (F sc) < 2 ^ 64.
Proof using Type.
  intros [Hr _] Hx E1 E2 E3 E4. split_and!; try done; [unfold rx_sound; by rewrite E3|by rewrite E4; apply Hr..].
Qed.

(** A wrapper's flag is set. *)
Lemma sp_flag x g w p F Φ : inv x xd g (res_of w) -> 0 < sc_refs x g p ->
  (∀ sc, sc_refcount (F sc) = sc_refcount sc ∧ sc_tx (F sc) = sc_tx sc ∧ sc_rx (F sc) = sc_rx sc ∧
    sc_tx_reliable_size (F sc) = sc_tx_reliable_size sc) ->
  (∀ w', inv x xd g (res_of w') -> Φ tt w') -> wp (upd_sc p F) Φ w.
Proof using Type.
  intros I Hp HF HΦ. eapply wp_mono; [apply (sp_update I p F Hp)|].
  - intros sc Ht Hr. destruct (HF sc) as (?&?&?&?). by eapply keeps_flags.
  - intros [] w' I'. by apply HΦ.
Qed.

Lemma sp_fire_drained x g w cnx id p : inv x xd g (res_of w) -> rx_room g 1 ->
  0 < sc_refs x g p -> wp (fire_stream_drained ev cnx id p) (λ _ w', quiet x g w') w.
Proof using Eok.
  intros I Hroom Hp. unfold fire_stream_drained. apply wp_bind.
  eapply wp_mono; [apply (sp_sc_val x g w p aiopquic_stream_ctx_tx_drain_take I Hp)|].
  { intros sc Ht Hr. by apply (keeps_flags (sc_set_tx_drain_pending 0) (g_T g)). }
  intros take w1 I1. apply wp_when; intros _; [|by apply quiet_refl].
  apply wp_bind. eapply wp_mono; [by apply (sp_rx_push_free ev x xd g w1 _ [])|].
  intros rc w2 (_ & g2 & I2 & G2 & _ & S2).
  assert (Hp2 : 0 < sc_refs x g2 p) by (by rewrite (S2 x p)). case_match.
  - apply wp_bind. apply (sp_flag x g2); [done..|]. intros w3 I3.
    apply wp_idle; [idle_tac|]. intros now w4 E4. rewrite <- E4 in I3.
    apply (sp_flag x g2); [done..|]. intros w5 I5. by exists g2.
  - apply wp_bind. apply (sp_flag x g2); [done..|]. intros w3 I3.
    apply (sp_flag x g2); [done..|]. intros w5 I5. by exists g2.
Qed.

(** The state after Python's sends between the callback's loads. *)
Lemma sp_race x g w p race : inv x xd g (res_of w) -> Forall (is_send x) race ->
  (∃ sc, sw_scs (w_sc w) !! p = Some sc ∧ is_Some (sc_tx sc)) ->
  g_T g + run_bytes race < 2 ^ 64 ->
  wp (on_sc (sc_run race)) (λ _ w', ∃ T, inv x xd (with_T g T) (res_of w') ∧
    g_T g <= T <= g_T g + run_bytes race ∧
    ∃ sc, sw_scs (w_sc w') !! p = Some sc ∧ is_Some (sc_tx sc)) w.
Proof using Type.
  intros I Hrace Hlive HT.
  assert (W : wraps (g_T g) (sc_refs x g) (p :: map d_sc (g_def g)) (w_sc w)).
  { destruct (iv_sc _ _ _ _ I) as [W W' W'']. split; [done|done|].
    intros d [->|Hd]%elem_of_cons; [done|by apply W'']. }
  destruct (wraps_race race _ _ _ _ W) as (s' & T' & E & HT' & W'); [|done|].
  { eapply Forall_impl; [exact Hrace|]. intros o Ho. destruct o; try done.
    destruct Ho as (Hp & ?). split; [by eapply sc_refs_own|done]. }
  eexists tt, (w_set_sc s' w). split; [unfold on_sc; by rewrite E|].
  exists T'. split; [|split; [done|apply (wr_held _ _ _ _ W'); by left]].
  destruct I. split; try done. cbn. eapply wraps_sub; [|exact W']. intros d Hd. by right.
Qed.

Lemma grows_with_T g T g' : grows 1 0 (with_T g T) g' ->
  g_tx g' = g_tx g ∧ g_ht g' = g_ht g ∧ g_hr g' = g_hr g ∧ g_owed g' = g_owed g ∧
  zlen (g_rx g) <= zlen (g_rx g') <= zlen (g_rx g) + 1 ∧ g_puts g' = g_puts g ∧ g_T g' = T ∧ g_wt g' = g_wt g.
Proof using Type. intros []. cbn in *. split_and!; try done; lia. Qed.

Definition sent_some (x : Z -> Z) (g : ghost) (B : Z) (w' : world) : Prop :=
  ∃ g', inv x xd g' (res_of w') ∧ cb_done x g B x g'.

Lemma quiet_sent x g T B w' : g_T g <= T <= g_T g + B -> quiet x (with_T g T) w' -> sent_some x g B w'.
Proof using Type.
  intros HT (g' & I & G & S). exists g'. split; [done|].
  destruct (grows_with_T g T g' G) as (?&?&?&?&?&?&?&?). split; try done; try lia; [apply made_refl|].
  intros p Hz _. by rewrite (S x p).
Qed.

Lemma quiet_sent0 x g B w' : 0 <= B -> quiet x g w' -> sent_some x g B w'.
Proof using Type. intros HB Q. apply (quiet_sent x g (g_T g)); [lia|]. by destruct g. Qed.

Lemma sp_sc_pop_tx x g w p sc tx n m : inv x xd g (res_of w) -> 0 < sc_refs x g p ->
  sw_scs (w_sc w) !! p = Some sc -> sc_tx sc = Some tx ->
  aiopquic_stream_ctx_tx_sendable sc (aiopquic_stream_buf_used tx) = Some m -> 0 < n <= m ->
  wp (sc_pop_tx p n) (λ _ w', inv x xd g (res_of w')) w.
Proof using Type.
  intros I Hp E Et Es Hn.
  destruct (wraps_pop_tx _ _ _ _ _ _ _ _ _ (iv_sc _ _ _ _ I) Hp E Et Es Hn) as (bs & s' & Ep & W).
  eexists bs, (w_set_sc s' w). split; [|by apply inv_sc_same].
  change (on_sc_val (pop_tx p n) w = Some (bs, w_set_sc s' w)). unfold on_sc_val.
  change (s_sc (res_of w)) with (w_sc w) in Ep. by rewrite Ep.
Qed.

Lemma same_sc p (sc : stream_ctx) w w' : res_of w' = res_of w -> sw_scs (w_sc w) !! p = Some sc ->
  sw_scs (w_sc w') !! p = Some sc.
Proof using Type. intros E. change (w_sc w') with (s_sc (res_of w')). by rewrite E. Qed.

(** The pull behind the callback's loads. *)
Lemma sp_pull x g w cnx id bytes want (fin_after : Z) p sc tx : inv x xd g (res_of w) -> rx_room g 1 ->
  0 < sc_refs x g p -> sw_scs (w_sc w) !! p = Some sc -> sc_tx sc = Some tx ->
  wp (avail ← read_tx p aiopquic_stream_buf_used;
      sendable ← (λ w, c ← sw_scs (w_sc w) !! p;
                       n ← aiopquic_stream_ctx_tx_sendable c avail; Some (n, w) : option (Z * world));
      let to_send := if sendable <? want then sendable else want in
      pending ← read_sc p sc_tx_reset_pending;
      let is_fin := negb (fin_after =? 0) && (pending =? 0) && (to_send =? avail) in
      let is_still_active := sendable >? to_send in
      buf ← pq ev (PqProvideStreamDataBuffer bytes to_send is_fin is_still_active);
      (if negb (buf =? 0) && (to_send >? 0) then
         bs ← sc_pop_tx p to_send;
         pq_ ev (WriteBuf buf bs) ;;
         count_n WORKER_PREPARE_TO_SEND_PULLED_BYTES to_send
       else count CNT_PREPARE_TO_SEND_EMPTY) ;;
      fire_stream_drained ev cnx id p ;;
      ret 0) (λ _ w', quiet x g w') w.
Proof using Eok.
  intros I Hroom Hp E Et. apply wp_bind. eexists (aiopquic_stream_buf_used tx), w.
  split; [unfold read_tx; rewrite E; cbn [mbind option_bind]; by rewrite Et|].
  assert (S : ∃ m, aiopquic_stream_ctx_tx_sendable sc (aiopquic_stream_buf_used tx) = Some m).
  { unfold aiopquic_stream_ctx_tx_sendable. case_match; [by eexists|]. rewrite Et. by eexists. }
  destruct S as [m Es]. apply wp_bind. eexists m, w.
  split; [rewrite E; cbn [mbind option_bind]; by rewrite Es|].
  cbv zeta. set (to_send := if m <? want then m else want).
  assert (Hle : to_send <= m) by (unfold to_send; case_bool; lia).
  apply wp_bind. eexists _, w. split; [unfold read_sc; by rewrite E|].
  apply wp_idle; [idle_tac|]. intros buf w1 E1. rewrite <- E1 in I.
  pose proof (same_sc p sc w w1 E1 E) as E'. apply wp_bind.
  apply (wp_mono _ (λ _ w', inv x xd g (res_of w'))).
  - destruct (_ && _) eqn:Hb.
    + apply andb_true_iff in Hb as [_ Hb]. rewrite Z.gtb_ltb in Hb. apply Z.ltb_lt in Hb.
      apply wp_bind. eapply wp_mono; [by apply (sp_sc_pop_tx x g w1 p sc tx to_send m)|].
      intros bs w2 I2. apply wp_idle; [idle_tac|]. intros [] w3 E3.
      apply idle_count_n. intros [] w4 E4. by rewrite E4, E3.
    + apply idle_count. intros [] w2 E2. by rewrite E2.
  - intros [] w2 I2. apply wp_bind. eapply wp_mono; [by apply (sp_fire_drained x g w2)|].
    intros [] w3 Q. by apply wp_ret.
Qed.

Lemma sp_prepare_to_send x g w race cnx id bytes length p : inv x xd g (res_of w) -> rx_room g 1 ->
  p = 0 ∨ 0 < sc_refs x g p -> Forall (is_send x) race -> g_T g + run_bytes race < 2 ^ 64 ->
  wp (prepare_to_send ev race cnx id bytes length p) (λ _ w', sent_some x g (run_bytes race) w') w.
Proof using Eok.
  intros I Hroom Hp Hrace HT. pose proof (run_bytes_nonneg race).
  unfold prepare_to_send. apply wp_idle; [idle_tac|]. intros [] w1 E1. rewrite <- E1 in I.
  assert (Q : ∀ w', res_of w' = res_of w1 -> sent_some x g (run_bytes race) w').
  { intros w' E'. apply quiet_sent0; [done|]. apply quiet_refl. by rewrite E'. }
  destruct (Z.eqb_spec p 0) as [Hz|Hz].
  { apply wp_idle; [idle_tac|]. intros [] w2 E2. by apply wp_ret, Q. }
  destruct Hp as [?|Hp]; [done|]. apply wp_bind, (sp_read I); [done|]. intros sc E Ht.
  destruct (sc_tx sc) as [tx|] eqn:Et.
  2: { apply wp_idle; [idle_tac|]. intros [] w2 E2. by apply wp_ret, Q. }
  cbv zeta. apply wp_bind. eapply wp_mono; [apply (sp_race x g w1 p race I Hrace)|]; [|done|].
  { exists sc. by rewrite Et. }
  intros [] w2 (T & I2 & HT2 & sc2 & E2 & tx2 & Et2).
  eapply wp_mono; [by eapply (sp_pull x (with_T g T))|]. intros r w3 Q3. by eapply quiet_sent.
Qed.

(** ** Received data *)

(** The count of received bytes is not one the accounting of StreamCtx.v reads. *)
Lemma sp_rx_bytes x g w n Φ : inv x xd g (res_of w) ->
  (∀ w', inv x xd g (res_of w') -> sw_scs (w_sc w') = sw_scs (w_sc w) -> Φ tt w') ->
  wp (on_g (aiopquic_sc_rx_bytes_pushed_add n)) Φ w.
Proof using Type.
  intros I HΦ. eexists tt, _. split; [done|]. apply HΦ; [|done].
  apply (inv_sc_same I). destruct (iv_sc _ _ _ _ I) as [[R Ht HT Hp Hpu Hd Hf Ha] Hr Hh].
  change (s_sc (res_of w)) with (w_sc w) in *.
  split; [split|..]; cbn [sw_scs sw_g]; unfold aiopquic_sc_rx_bytes_pushed_add;
    rewrite ?bump_ne by done; done.
Qed.

Definition has_rx (p : Z) (w : world) : Prop :=
  ∃ sc, sw_scs (w_sc w) !! p = Some sc ∧ is_Some (sc_rx sc).

Lemma has_rx_same p w w' : res_of w' = res_of w -> has_rx p w -> has_rx p w'.
Proof using Type. intros E (sc & Hsc & Hr). exists sc. split; [|done]. by eapply same_sc. Qed.

Lemma sp_ensure_rx x g w a capacity p : inv x xd g (res_of w) -> 0 < sc_refs x g p ->
  alloc_ok a capacity ->
  wp (on_sc_val (aiopquic_stream_ctx_ensure_rx a capacity p))
    (λ rc w', inv x xd g (res_of w') ∧ (rc = 0 -> has_rx p w')) w.
Proof using Type.
  intros I Hp Ha. destruct (wraps_ensure_rx (iv_sc _ _ _ _ I) a capacity p Hp Ha) as (rc & s' & E & W & Hrx).
  eexists rc, (w_set_sc s' w). split; [|split; [by apply inv_sc_same|done]].
  unfold on_sc_val. change (s_sc (res_of w)) with (w_sc w) in E. by rewrite E.
Qed.

Lemma sp_push_rx x g w p data : inv x xd g (res_of w) -> 0 < sc_refs x g p -> has_rx p w ->
  zlen data < 2 ^ 32 ->
  wp (sc_push_rx p data) (λ n w', inv x xd g (res_of w') ∧ has_rx p w' ∧ 0 <= n) w.
Proof using Type.
  intros I Hp Hrx Hd.
  destruct (wraps_push_rx (iv_sc _ _ _ _ I) p data Hp Hrx Hd) as (sc & rx & n & rx' & E & Er & Ep & Hn & W).
  change (s_sc (res_of w)) with (w_sc w) in E, W. eexists n, (w_set_sc _ w). split.
  { unfold sc_push_rx, on_sc_val. rewrite E. cbn [mbind option_bind]. rewrite Er. cbn [mbind option_bind].
    rewrite Ep. done. }
  split; [by apply inv_sc_same|]. split; [|done]. eexists. split; [apply lookup_insert_eq|by eexists].
Qed.

Lemma sp_create x g w p : inv x xd g (res_of w) -> p = 0 ∨ sw_scs (w_sc w) !! p = None ->
  wp (λ w, let (p, s) := aiopquic_stream_ctx_create p (w_sc w) in
           Some (p, w_set_sc s w) : option (Z * world))
    (λ q w', q = p ∧ ((p = 0 ∧ inv x xd g (res_of w')) ∨
       (p <> 0 ∧ sc_refs x g p = 0 ∧ inv (inc x p) xd g (res_of w')))) w.
Proof using Type.
  intros I Hp. destruct (Z.eqb_spec p 0) as [->|Hz].
  { eexists 0, (w_set_sc (w_sc w) w). split; [done|]. split; [done|]. left. split; [done|]. by destruct w. }
  destruct Hp as [?|Hp]; [done|].
  assert (Hf : sc_refs x g p = 0).
  { pose proof (sc_refs_nonneg p I). destruct (Z.eq_dec (sc_refs x g p) 0); [done|].
    destruct (wraps_live (iv_sc _ _ _ _ I) p) as (sc & E & _); [lia|].
    change (s_sc (res_of w)) with (w_sc w) in E. congruence. }
  pose proof (wraps_create (iv_sc _ _ _ _ I) p Hf) as W. change (s_sc (res_of w)) with (w_sc w) in W.
  rewrite (proj2 (Z.eqb_neq p 0)) in W by done.
  exists p, (w_set_sc (aiopquic_stream_ctx_create p (w_sc w)).2 w).
  split; [by unfold aiopquic_stream_ctx_create; rewrite (proj2 (Z.eqb_neq p 0))|].
  split; [done|]. right. split; [done|]. split; [done|]. apply (inv_set_sc I).
  - eapply wraps_ext; [|exact W]. intros q. unfold sc_refs, inc. lia.
  - intros q. pose proof (iv_x _ _ _ _ I q). unfold inc. pose proof (c_bool_nonneg (q =? p)). lia.
Qed.

Lemma rx_sound_fin sc : rx_sound sc -> rx_sound (sc_set_rx (aiopquic_stream_buf_set_fin <$> sc_rx sc) sc).
Proof using Type.
  intros Hr rx. cbn. destruct (sc_rx sc) as [b|] eqn:E; [|done]. intros [= <-].
  destruct (Hr b E) as (H & q & R). exists H, q. by destruct R.
Qed.

(** The state behind the payload block: a wrapper may be new. *)
Definition payload_done (x : Z -> Z) (g : ghost) (entry : spsc_entry)
    (r : spsc_entry * Z + Z) (w' : world) : Prop :=
  ∃ x', made x g x' ∧ inv x' xd g (res_of w') ∧
    match r with
    | inr _ => True
    | inl (e, sc) => 0 < sc_refs x' g sc ∧ e = entry_set sc (e_error_code entry) (e_is_fin entry)
                                               (e_data_length entry) entry
    end.

(** The RX ring is there: the bytes go in. *)
Lemma sp_rx_payload_push x g w x1 fe cnx id length data entry p cap first :
  made x g x1 -> inv x1 xd g (res_of w) -> 0 < sc_refs x1 g p -> has_rx p w ->
  wp (pushed ← sc_push_rx p (take (Z.to_nat (u32 length)) data);
      when (pushed >? 0) (on_g (aiopquic_sc_rx_bytes_pushed_add pushed)) ;;
      if negb (pushed =? length) then
        count WORKER_RX_BYTE_RING_OVERFLOW ;;
        _ ← aiopquic_rx_log_enabled ev;
        ret (inr (-1))
      else
        when (is_event fe picoquic_callback_stream_fin)
          (upd_sc p (λ c, sc_set_rx (aiopquic_stream_buf_set_fin <$> sc_rx c) c)) ;;
        when first
          (when (negb (is_event fe picoquic_callback_stream_fin))
             (window ← aiopquic_initial_rx_window ev cnx id;
              when (window <? cap)
                (buf_free ← read_rx p aiopquic_stream_buf_free;
                 pq_ ev (PqOpenFlowControl cnx id buf_free))) ;;
           upd_sc p (aiopquic_stream_ctx_rx_credit_store cap)) ;;
        ret (inl (entry_set p (e_error_code entry) (e_is_fin entry) (e_data_length entry) entry, p)))
    (payload_done x g entry) w.
Proof using Type.
  intros M I Hp Hrx. apply wp_bind. eapply wp_mono; [apply (sp_push_rx x1 g w p _ I Hp Hrx)|].
  { rewrite length_take. pose proof (u32_range length). lia. }
  intros n w1 (I1 & Hrx1 & Hn). apply wp_bind.
  apply (wp_mono _ (λ _ w', inv x1 xd g (res_of w') ∧ has_rx p w')).
  { apply wp_when; intros _; [|done]. apply (sp_rx_bytes x1 g w1 n _ I1). intros w2 I2 Es.
    split; [done|]. unfold has_rx. by rewrite Es. }
  intros [] w2 (I2 & Hrx2).
  destruct (negb (n =? length)).
  { apply wp_idle; [idle_tac|]. intros [] w3 E3. apply wp_idle; [idle_tac|]. intros ? w4 E4.
    apply wp_ret. exists x1. rewrite E4, E3. done. }
  assert (F : ∀ w3, inv x1 xd g (res_of w3) -> payload_done x g entry
    (inl (entry_set p (e_error_code entry) (e_is_fin entry) (e_data_length entry) entry, p)) w3).
  { intros w3 I3. exists x1. done. }
  assert (L : ∀ w3, inv x1 xd g (res_of w3) ->
    wp (upd_sc p (aiopquic_stream_ctx_rx_credit_store cap)) (λ _ w', inv x1 xd g (res_of w')) w3).
  { intros w3 I3. apply (sp_flag x1 g); done. }
  apply wp_bind. destruct (is_event fe picoquic_callback_stream_fin); cbn [when negb].
  - eapply wp_mono; [apply (sp_update I2 p _ Hp)|].
    { intros sc [Ht _] Hr. split_and!; try done; [by apply rx_sound_fin|apply Ht..]. }
    intros [] w3 I3. apply wp_bind. apply (wp_mono _ (λ _ w', inv x1 xd g (res_of w')));
      [|intros [] w4 I4; by apply wp_ret, F].
    apply wp_when; intros _; [|done]. apply wp_bind, wp_ret. by apply L.
  - apply wp_ret. apply wp_bind. apply (wp_mono _ (λ _ w', inv x1 xd g (res_of w')));
      [|intros [] w4 I4; by apply wp_ret, F].
    apply wp_when; intros _; [|done]. apply wp_bind.
    apply wp_idle; [idle_tac|]. intros window w3 E3. rewrite <- E3 in I2.
    apply wp_when; intros _; [|by apply L].
    destruct (has_rx_same p w2 w3 E3 Hrx2) as (sc & Esc & rx & Er).
    apply wp_bind. eexists _, w3. split.
    { unfold read_rx. rewrite Esc. cbn [mbind option_bind]. by rewrite Er. }
    apply idle_pq_. intros [] w4 E4. apply L. by rewrite E4.
Qed.

Lemma sp_rx_payload x g w fe cnx id length data entry : inv x xd g (res_of w) ->
  e_stream_ctx entry = 0 ∨ 0 < sc_refs x g (e_stream_ctx entry) ->
  wp (rx_payload ev fe cnx id length data entry) (payload_done x g entry) w.
Proof using Eok.
  intros I Hp. unfold rx_payload. apply wp_bind, wp_getb.
  set (cap := if b_rx_data_ring_cap (w_ctx w) >? 0 then _ else _). cbv zeta.
  assert (Hcap : 0 <= cap < 2 ^ 32).
  { pose proof (iv_cap _ _ _ _ I) as Hc. cbn in Hc. unfold cap. case_bool; [lia|done]. }
  clearbody cap. apply wp_bind.
  apply (wp_mono _ (λ p w', ∃ x1, made x g x1 ∧ inv x1 xd g (res_of w') ∧ (p = 0 ∨ 0 < sc_refs x1 g p))).
  { destruct (Z.eqb_spec (e_stream_ctx entry) 0) as [Hz|Hz].
    - apply wp_bind. apply idle_tick. intros t w1 E1. rewrite <- E1 in I. apply wp_bind.
      eapply wp_mono; [apply (sp_create x g w1 _ I), (eo_sc _ Eok)|].
      intros q w2 (-> & [(-> & I2)|(Hq & Hf & I2)]).
      + apply wp_ret. exists x. split; [apply made_refl|]. auto.
      + rewrite (proj2 (Z.eqb_neq _ 0)) by done. apply wp_idle; [idle_tac|]. intros [] w3 E3.
        apply wp_idle; [idle_tac|]. intros [] w4 E4. apply wp_ret. eexists.
        split; [right; eexists; split; [exact Hq|]; split; [exact Hf|]; intros r; reflexivity|].
        split; [rewrite E4, E3; exact I2|]. right. unfold sc_refs in *. rewrite Z.eqb_refl. cbn. lia.
    - apply wp_ret. exists x. split; [apply made_refl|]. auto. }
  intros p w1 (x1 & M & I1 & Hp1).
  destruct (Z.eqb_spec p 0) as [Hz|Hz]; [by apply wp_ret; exists x1|].
  destruct Hp1 as [?|Hp1]; [done|]. apply wp_bind, (sp_read I1); [done|]. intros sc _ _.
  apply wp_idle; [apply idle_when; idle_tac|]. intros [] w2 E2. apply wp_idle; [idle_tac|]. intros t w3 E3.
  assert (I3 : inv x1 xd g (res_of w3)) by (by rewrite E3, E2).
  apply wp_bind. eapply wp_mono; [apply (sp_ensure_rx x1 g w3 _ _ p I3 Hp1), (eo_buf _ Eok), Hcap|].
  intros rc w4 (I4 & Hrx). destruct (Z.eqb_spec rc 0) as [Hrc|]; cbn [negb]; [|by apply wp_ret; exists x1].
  apply (sp_rx_payload_push x g w4 x1); auto.
Qed.

(** ** Pushing the event *)

Definition stepped (x : Z -> Z) (g : ghost) (B : Z) (w' : world) : Prop :=
  ∃ x' g', inv x' xd g' (res_of w') ∧ cb_done x g B x' g'.

(** Queues grew by at most one event; no reference to a dead wrapper appeared. *)
Definition settled (x : Z -> Z) (g : ghost) (w' : world) : Prop :=
  ∃ g', inv x xd g' (res_of w') ∧ grows 1 0 g g' ∧
    ∀ q, sc_refs x g q <= sc_refs x g' q ∧ (sc_refs x g q = 0 -> sc_refs x g' q = 0).

Lemma quiet_settled x g w' : quiet x g w' -> settled x g w'.
Proof using Type.
  intros (g' & I & G & S). exists g'. split_and!; try done. intros q. rewrite (S x q). lia.
Qed.

Lemma made_stepped x g x1 w' : made x g x1 -> settled x1 g w' -> stepped x g 0 w'.
Proof using Type.
  intros M (g' & I & [] & S). exists x1, g'. split; [done|]. split; try done; try lia.
  intros p Hz Ex. apply S. unfold sc_refs in *. lia.
Qed.

Lemma sent_stepped x g B w' : sent_some x g B w' -> stepped x g B w'.
Proof using Type. intros (g' & I & C). by exists x, g'. Qed.

Lemma stepped_refl x g w : inv x xd g (res_of w) -> stepped x g 0 w.
Proof using Type. intros I. exists x, g. split; [done|]. by apply cb_done_refl. Qed.

Lemma idle_push_failed b : idle (rx_push_failed ev b 0).
Proof using Type. unfold rx_push_failed. change (negb (0 =? 0)) with false. cbn [when]. idle_tac. Qed.

(** A push of an entry that carries no wrapper. *)
Lemma sp_push_plain x g w e data : inv x xd g (res_of w) -> rx_room g 1 -> e_data_buf e = 0 ->
  aiopquic_rx_event_owns_sc (e_event_type e) = false ->
  wp (aiopquic_rx_push ev e data) (λ _ w', settled x g w') w.
Proof using Eok.
  intros I Hroom Hb Ho. eapply wp_mono.
  { apply (sp_rx_push_free ev x xd g w e data Eok I (λ _, no_buf_unowned _ Hb) Hroom). by rewrite Ho, andb_false_r. }
  intros rc w' (_ & g' & I' & G' & _ & S'). apply quiet_settled. by exists g'.
Qed.

Lemma sp_push_held x g w e data : inv x xd g (res_of w) -> rx_room g 1 -> few_refs x g ->
  e_data_buf e = 0 ->
  (aiopquic_rx_event_owns_sc (e_event_type e) = true ->
     e_stream_ctx e = 0 ∨ 0 < sc_refs x g (e_stream_ctx e)) ->
  wp (aiopquic_rx_push_sc ev e data) (λ _ w', settled x g w') w.
Proof using Eok.
  intros I Hroom Hfew Hb Ho. eapply wp_mono.
  { apply (sp_rx_push_sc ev x xd g w e data Eok I Hb Hroom).
    intros [Hz%negb_true_iff%Z.eqb_neq Hown]%andb_true_iff. split; [|apply Hfew].
    by destruct (Ho Hown). }
  intros rc w' (g' & I' & G' & _ & S'). by exists g'.
Qed.

Definition pays (fe : call_back_event) (bytes length : Z) : bool :=
  (is_event fe picoquic_callback_stream_data || is_event fe picoquic_callback_stream_fin)
  && negb (bytes =? 0) && (length >? 0).

(** The entry is still the one the callback built for its event. *)
Definition entry_for (fe : call_back_event) (stream_ctx : Z) (e : spsc_entry) : Prop :=
  e_data_buf e = 0 ∧ e_event_type e = u32 (aiopquic_map_event fe) ∧ e_stream_ctx e = stream_ctx.

(** The wrapper of an event that will carry it is null or live. *)
Definition ctx_live (x : Z -> Z) (g : ghost) (fe : call_back_event) (p : Z) : Prop :=
  aiopquic_rx_event_owns_sc (u32 (aiopquic_map_event fe)) = true -> p = 0 ∨ 0 < sc_refs x g p.

Lemma sp_push_event_plain x g w fe cnx id bytes length data entry p :
  inv x xd g (res_of w) -> rx_room g 1 -> few_refs x g -> entry_for fe p entry ->
  ctx_live x g fe p -> pays fe bytes length = false ->
  wp (push_event ev fe cnx id bytes length data entry) (λ _ w', settled x g w') w.
Proof using Eok.
  intros I Hroom Hfew (Hb & Et & Ec) Ho Hpay. unfold ctx_live in Ho. rewrite <- Et, <- Ec in Ho.
  unfold push_event. cbv zeta.
  unfold pays in Hpay. rewrite Hpay. clear Hpay. apply wp_bind. apply (wp_mono _ (λ _ w', settled x g w')).
  2: { intros rc w1 S1. apply wp_bind. pose proof (idle_push_failed false).
       apply idle_when; [done|]. intros [] w2 E2. apply wp_ret.
       destruct S1 as (g1 & I1 & ?). exists g1. by rewrite E2. }
  destruct ((e_event_type entry =? SPSC_EVT_DATAGRAM_ACKED)
           || (e_event_type entry =? SPSC_EVT_DATAGRAM_LOST)) eqn:Ea.
  { apply sp_push_plain; [done..|]. cbn [entry_set e_event_type].
    apply orb_true_iff in Ea as [->%Z.eqb_eq| ->%Z.eqb_eq]; done. }
  apply wp_idle; [idle_tac|]. intros client w1 E1. rewrite <- E1 in I.
  destruct (is_event fe picoquic_callback_ready || _) eqn:Er.
  { apply wp_idle; [idle_tac|]. intros snap w2 E2. apply sp_push_plain; [by rewrite E2|done..|].
    rewrite Et. unfold is_event in Er. apply orb_true_iff in Er as [->%bool_decide_eq_true|Er]; [done|].
    by apply andb_true_iff in Er as [->%bool_decide_eq_true _]. }
  destruct (is_event fe picoquic_callback_close || _).
  - apply wp_idle; [idle_tac|]. intros reason w2 E2. by apply sp_push_held; [by rewrite E2|done..].
  - by apply sp_push_held.
Qed.

Lemma sp_push_event x g w fe cnx id bytes length data entry p :
  inv x xd g (res_of w) -> rx_room g 1 -> few_refs x g -> entry_for fe p entry ->
  ctx_live x g fe p ->
  wp (push_event ev fe cnx id bytes length data entry) (λ _ w', stepped x g 0 w') w.
Proof using Eok.
  intros I Hroom Hfew Hent Ho. destruct (pays fe bytes length) eqn:Hpay.
  2: { eapply wp_mono; [by apply (sp_push_event_plain x g w _ _ _ _ _ _ _ p)|].
       intros rc w1 S1. apply (made_stepped x g x); [apply made_refl|done]. }
  destruct Hent as (Hb & Et & Ec). unfold push_event. cbv zeta. unfold pays in Hpay. rewrite Hpay.
  assert (Hown : aiopquic_rx_event_owns_sc (u32 (aiopquic_map_event fe)) = true).
  { apply andb_true_iff in Hpay as [[Hpay _]%andb_true_iff _]. unfold is_event in Hpay.
    apply orb_true_iff in Hpay as [->%bool_decide_eq_true| ->%bool_decide_eq_true]; done. }
  apply wp_bind. eapply wp_mono; [apply (sp_rx_payload x g w fe cnx id length data entry I)|].
  { rewrite Ec. auto. }
  intros r w1 (x1 & M & I1 & Hr). destruct r as [[e q]|rc].
  2: { apply wp_ret. apply (made_stepped x g x1); [done|]. by apply quiet_settled, quiet_refl. }
  destruct Hr as [Hp ->]. pose proof (made_few x g x1 M Hfew) as Hfew1.
  cbn [entry_set e_event_type]. apply wp_bind.
  apply (wp_mono _ (λ _ w', inv x1 xd g (res_of w'))).
  { case_match; [|by apply wp_ret].
    apply (sp_sc_val x1 g w1 q aiopquic_stream_ctx_rx_event_pending_arm I1 Hp).
    intros sc Ht Hrx. by apply (keeps_flags (sc_set_rx_event_pending 1) (g_T g)). }
  intros win w2 I2. destruct win; cbn [negb].
  2: { apply wp_idle; [idle_tac|]. intros [] w3 E3. apply wp_ret.
       apply (made_stepped x g x1); [done|]. apply quiet_settled, quiet_refl. by rewrite E3. }
  apply wp_bind. eapply wp_mono; [apply (sp_push_held x1 g w2); [done..|]|].
  { intros _. by right. }
  intros rc w3 S3. pose proof S3 as (g3 & I3 & G3 & R3). apply wp_bind.
  apply (wp_mono _ (λ _ w', settled x1 g w')); [|intros [] w4 S4; by apply wp_ret, (made_stepped x g x1)].
  apply wp_when; intros _; [|done]. unfold rx_push_failed. apply wp_idle; [idle_tac|]. intros [] w4 E4.
  rewrite <- E4 in I3. apply wp_bind.
  apply (wp_mono _ (λ _ w', settled x1 g w')).
  - apply wp_when; intros Hc; [|by exists g3]. case_match; [|done].
    apply (sp_flag x1 g3); [done|specialize (R3 q); lia|done|]. intros w5 I5. by exists g3.
  - intros [] w5 S5. apply wp_idle; [idle_tac|]. intros l w6 E6. apply wp_ret.
    destruct S5 as (g5 & I5 & ?). exists g5. by rewrite E6.
Qed.

Lemma sp_close_codes x g w fe cnx id entry p : inv x xd g (res_of w) -> 2 <= cnx ->
  entry_for fe p entry ->
  wp (close_codes ev fe cnx id entry) (λ e w', inv x xd g (res_of w') ∧ entry_for fe p e) w.
Proof using Type.
  intros I Hc Hent.
  assert (R : ∀ w' c f, inv x xd g (res_of w') ->
    inv x xd g (res_of w') ∧ entry_for fe p (entry_set (e_stream_ctx entry) c f (e_data_length entry) entry)).
  { intros w' c f I'. split; [done|exact Hent]. }
  assert (D : ∀ w' c f, inv x xd g (res_of w') ->
    wp (table_remove cnx ;; ret (entry_set (e_stream_ctx entry) c f (e_data_length entry) entry))
      (λ e w', inv x xd g (res_of w') ∧ entry_for fe p e) w').
  { intros w' c f I'. apply wp_bind. eapply wp_mono; [by apply (sp_table_remove I')|].
    intros [] w2 I2. by apply wp_ret, R. }
  unfold close_codes. destruct fe; try by apply wp_ret.
  - apply wp_idle; [idle_tac|]. intros c w1 E1. rewrite <- E1 in I. destruct (c =? 0).
    + apply wp_bind. apply wp_idle; [idle_tac|]. intros l w2 E2. destruct (negb (l =? 0)).
      * apply wp_idle; [idle_tac|]. intros l2 w3 E3. apply wp_ret. apply D. by rewrite E3, E2.
      * apply wp_ret. apply D. by rewrite E2.
    + apply wp_bind, wp_ret. by apply D.
  - apply wp_idle; [idle_tac|]. intros c w1 E1. apply D. by rewrite E1.
Qed.

(** ** The whole callback *)

Definition is_close (fe : call_back_event) : bool :=
  is_event fe picoquic_callback_close || is_event fe picoquic_callback_application_close
  || is_event fe picoquic_callback_stateless_reset.

Lemma is_close_spec fe : is_close fe = true ->
  fe = picoquic_callback_close ∨ fe = picoquic_callback_application_close
  ∨ fe = picoquic_callback_stateless_reset.
Proof using Type.
  unfold is_close, is_event. intros [[->%bool_decide_eq_true| ->%bool_decide_eq_true]%orb_true_iff
    | ->%bool_decide_eq_true]%orb_true_iff; auto.
Qed.

Lemma fewer_settled x g g1 w1 w' : inv x xd g1 (res_of w1) -> fewer_def g g1 -> settled x g1 w' ->
  stepped x g 0 w'.
Proof using Type.
  intros I1 (ds & -> & Hds) (g' & I' & [] & S). exists x, g'. split; [done|].
  cbn in *. split; try done; try lia; [apply made_refl|].
  intros p Hz _. apply S. pose proof (sc_refs_nonneg p I1). specialize (Hds p).
  unfold sc_refs in *. cbn in *. lia.
Qed.

Lemma idle_reason_drop cnx : idle (aiopquic_close_reason_drop cnx).
Proof using Type. by apply idle_setb. Qed.

Lemma entry_for_new fe id cnx p : entry_for fe p (sc_entry (u32 (aiopquic_map_event fe)) id cnx p 0).
Proof using Type. done. Qed.

(** Events that end the connection. *)
Lemma sp_open_close x g w cnx id bytes length data fe p (ds : list deferred_reset) :
  inv x xd g (res_of w) -> (∀ p, 0 <= x p) -> rx_room g 1 -> few_refs x g -> 2 <= cnx ->
  is_close fe = true ->
  wp (when ((if ds is [] then false else true) && is_close fe) (aiopquic_deferred_resets_drop_cnx cnx) ;;
      rs ← getb b_close_reasons;
      when ((if rs is [] then false else true)
            && (is_event fe picoquic_callback_close || is_event fe picoquic_callback_stateless_reset))
        (aiopquic_close_reason_drop cnx) ;;
      let evt := aiopquic_map_event fe in
      if evt <? 0 then ret 0
      else
        entry ← close_codes ev fe cnx id (sc_entry (u32 evt) id cnx p 0);
        push_event ev fe cnx id bytes length data entry) (λ _ w', stepped x g 0 w') w.
Proof using Eok.
  intros I X0 Hroom Hfew Hc Hclose. apply wp_bind.
  apply (wp_mono _ (λ _ w', ∃ g', inv x xd g' (res_of w') ∧ fewer_def g g')).
  { apply wp_when; intros _; [by apply sp_drop_cnx|]. exists g. split; [done|apply fewer_def_refl]. }
  intros [] w1 (g1 & I1 & F1). apply wp_idle; [idle_tac|]. intros rs w2 E2. pose proof idle_reason_drop.
  apply wp_idle; [apply idle_when; eauto|]. intros [] w3 E3. cbv zeta.
  assert (I3 : inv x xd g1 (res_of w3)) by (by rewrite E3, E2).
  case_match; [apply wp_ret; eapply fewer_settled; [exact I1|done|by apply quiet_settled, quiet_refl]|].
  apply wp_bind. eapply wp_mono; [apply (sp_close_codes x g1 w3 fe cnx id _ p I3 Hc (entry_for_new fe id cnx p))|].
  intros e w4 [I4 Hent]. eapply wp_mono; [apply (sp_push_event_plain x g1 w4 fe _ _ _ _ _ _ p I4); try done|].
  - destruct F1 as (d & -> & _). done.
  - intros q. destruct F1 as (d & -> & Hd). specialize (Hd q). specialize (Hfew q).
    unfold sc_refs in *. cbn in *. lia.
  - intros Ho. by apply is_close_spec in Hclose as [-> |[-> | ->]].
  - by apply is_close_spec in Hclose as [-> |[-> | ->]].
  - intros r w5 S5. eapply fewer_settled; [exact I1|done|done].
Qed.

Lemma sp_open x g w cnx id bytes length data fe p :
  inv x xd g (res_of w) -> (∀ p, 0 <= x p) -> rx_room g 1 -> few_refs x g -> 2 <= cnx ->
  ctx_live x g fe p ->
  wp (stream_cb_open ev cnx id bytes length data fe p) (λ _ w', stepped x g 0 w') w.
Proof using Eok.
  intros I X0 Hroom Hfew Hc Hctx. unfold stream_cb_open.
  destruct (is_event fe picoquic_callback_stream_released).
  { apply wp_bind. apply (wp_mono _ (λ _ w', settled x g w')).
    - apply wp_when; intros _; [|by apply quiet_settled, quiet_refl]. apply wp_bind.
      eapply wp_mono; [by apply (sp_push_plain x g w _ [])|]. intros rc w1 S1. by apply wp_ret.
    - intros [] w1 S1. apply wp_ret. apply (made_stepped x g x); [apply made_refl|done]. }
  apply wp_idle; [idle_tac|]. intros ka w1 E1. apply wp_idle; [apply idle_when; idle_tac|]. intros [] w2 E2.
  assert (I2 : inv x xd g (res_of w2)) by (by rewrite E2, E1).
  destruct (is_event fe picoquic_callback_prepare_datagram).
  { eapply wp_mono; [by apply (sp_prepare_datagram x g w2)|]. intros r w3 Q.
    apply (made_stepped x g x); [apply made_refl|by apply quiet_settled]. }
  apply wp_idle; [idle_tac|]. intros ds w3 E3. rewrite <- E3 in I2.
  destruct (is_close fe) eqn:Hclose.
  { pose proof (sp_open_close x g w3 cnx id bytes length data fe p ds I2 X0 Hroom Hfew Hc Hclose) as Hw.
    exact Hw. }
  unfold is_close in Hclose. apply wp_bind. rewrite Hclose, andb_false_r. apply wp_ret.
  apply wp_idle; [idle_tac|]. intros rs w4 E4. pose proof idle_reason_drop.
  apply wp_idle; [apply idle_when; eauto|]. intros [] w5 E5. cbv zeta.
  assert (I5 : inv x xd g (res_of w5)) by (by rewrite E5, E4).
  case_match; [by apply wp_ret, stepped_refl|].
  apply wp_bind. eapply wp_mono; [apply (sp_close_codes x g w5 fe cnx id _ p I5 Hc (entry_for_new fe id cnx p))|].
  intros e w6 [I6 Hent]. by apply (sp_push_event x g w6 fe _ _ _ _ _ _ p I6).
Qed.

(** Whether the connection is closing, as the guard asks. *)
Definition closing_now (cnx : Z) (w : world) : bool :=
  ev_pq ev (w_trace w) (PqGetCnxState cnx) >=? ev_state_disconnecting ev.

(** What the callback may assume of the wrapper picoquic hands it: live, for a pull,
    and for the events that take a reference to it unless the connection is
    closing. *)
Definition cb_ctx_ok (x : Z -> Z) (g : ghost) (fe : call_back_event) (cnx p : Z) (w : world) : Prop :=
  if is_event fe picoquic_callback_prepare_to_send then p = 0 ∨ 0 < sc_refs x g p
  else closing_now cnx w = true ∨ ctx_live x g fe p.

Lemma sp_stream_cb x g w race cnx id bytes length data fe p :
  inv x xd g (res_of w) -> (∀ p, 0 <= x p) -> rx_room g 1 -> few_refs x g -> 2 <= cnx ->
  cb_ctx_ok x g fe cnx p w -> Forall (is_send x) race -> g_T g + run_bytes race < 2 ^ 64 ->
  wp (aiopquic_stream_cb ev race cnx id bytes length data fe p)
    (λ _ w', stepped x g (run_bytes race) w') w.
Proof using Eok.
  intros I X0 Hroom Hfew Hc Hctx Hrace HT. pose proof (run_bytes_nonneg race) as HB.
  assert (L : ∀ w', stepped x g 0 w' -> stepped x g (run_bytes race) w').
  { intros w' (x' & g' & I' & []). exists x', g'. split; [done|]. split; try done; lia. }
  unfold aiopquic_stream_cb, cb_ctx_ok in *.
  destruct (is_event fe picoquic_callback_request_alpn_list).
  { apply wp_idle; [idle_tac|]. intros names w1 E1. apply wp_idle; [idle_tac|]. intros [] w2 E2.
    apply wp_ret, L, stepped_refl. by rewrite E2, E1. }
  destruct (is_event fe picoquic_callback_prepare_to_send).
  { eapply wp_mono; [by apply sp_prepare_to_send|]. intros r w1. apply sent_stepped. }
  apply wp_bind. destruct (is_stream_event fe) eqn:Es.
  - unfold aiopquic_cnx_closing, pq. apply wp_bind. eexists _, _. split; [done|].
    apply wp_ret. change (_ >=? _) with (closing_now cnx w).
    set (w1 := w_set_trace _ w). assert (I1 : inv x xd g (res_of w1)) by done.
    destruct (closing_now cnx w).
    + apply wp_idle; [idle_tac|]. intros [] w2 E2. apply wp_ret, L, stepped_refl. by rewrite E2.
    + destruct Hctx as [?|Hctx]; [done|]. eapply wp_mono; [by apply (sp_open x g w1)|]. auto.
  - apply wp_ret. eapply wp_mono; [apply (sp_open x g w); try done|by auto].
    intros Ho. exfalso. unfold is_stream_event, is_event in Es.
    destruct fe; try done; cbn in Ho; unfold aiopquic_rx_event_owns_sc, evt_is in Ho; cbn in Ho; done.
Qed.
End cb.
