(* ===== verification/PySide.v ===== *)
(** * Safety of the calls Python makes

    The bridge's entry points the transport calls between the worker's callbacks:
    pushing TX events, taking RX events, flow-control credit, stream wrappers,
    datagram rings.  Each, from a state satisfying the invariant of World.v, is
    defined and satisfies it again; what it does to the references Python holds and
    to the queues is in its postcondition. *)
From S2P Require Import Prelude Ring Store StreamBuf SpscRing EventChannel DgramBuf DgramTable.
From S2P Require Import StreamCtx Bridge Callback World BridgeSafe StreamCb.

(** ** The transport's composed calls *)

(** One round of the transport's drain: peek the RX ring's head, copy it out, pop. *)
Definition rx_take : M (option spsc_entry) :=
  λ w, let r := b_rx_event_ring (w_ctx w) in
       match spsc_ring_peek r with
       | None => Some (None, w)
       | Some slot =>
           e ← r_entries r !! Z.to_nat slot;
           '(r, h) ← spsc_ring_pop r (w_heap w);
           Some (Some e, w_set_heap h (w_set_ctx (b_set_rx_event_ring r (w_ctx w)) w))
       end.

(** [aiopquic_dgram_buf_create], the new ring at address [p]. *)
Definition dgram_create (p : Z) (ok : bool) (blk : option (list Z)) (capacity max_record : Z) : M Z :=
  λ w, let st := w_rs w in
       match aiopquic_dgram_buf_create ok blk (rs_alive st) capacity max_record with
       | (Some db, alive) => Some (p, w_set_rs (RingStore (<[p := db]> (rs_rings st)) alive) w)
       | (None, alive) => Some (0, w_set_rs (RingStore (rs_rings st) alive) w)
       end.

Definition dgram_push (db : Z) (data : list Z) : M Z :=
  on_db db (λ b, '(rc, _, b) ← aiopquic_dgram_buf_push_record [] b data; Some (rc, b)).

(** [aiopquic_stream_buf_pop(sc->rx, buf, n)]. *)
Definition rx_read (sc n : Z) : M (list Z) :=
  on_sc_val (λ s, c ← sw_scs s !! sc; rx ← sc_rx c;
    '(bs, rx) ← aiopquic_stream_buf_pop rx n;
    Some (bs, ScWorld (<[sc := sc_set_rx (Some rx) c]> (sw_scs s)) (sw_g s))).

(** The single-word updates Python makes on a wrapper. *)
Inductive sc_flag :=
  | FlEventClear                (** aiopquic_stream_ctx_rx_event_pending_clear *)
  | FlConsumed (n : Z)          (** aiopquic_stream_ctx_rx_consumed_add *)
  | FlCredit (v : Z)            (** aiopquic_stream_ctx_rx_credit_store *)
  | FlPendingAdd (n : Z) | FlPendingSub (n : Z)
  | FlFcPush (v : Z)            (** aiopquic_stream_ctx_last_fc_push_consumed_store *)
  | FlDrainArm (now : Z) | FlDrainClear.

Definition sc_flag_step (p : Z) (f : sc_flag) : M unit :=
  match f with
  | FlEventClear => upd_sc p aiopquic_stream_ctx_rx_event_pending_clear
  | FlConsumed n => upd_sc p (aiopquic_stream_ctx_rx_consumed_add n)
  | FlCredit v => upd_sc p (aiopquic_stream_ctx_rx_credit_store v)
  | FlPendingAdd n => on_sc (aiopquic_stream_ctx_pending_add p n)
  | FlPendingSub n => on_sc (aiopquic_stream_ctx_pending_sub p n)
  | FlFcPush v => on_sc (aiopquic_stream_ctx_last_fc_push_consumed_store p v)
  | FlDrainArm now => on_sc (aiopquic_set_tx_data_drain_pending now p)
  | FlDrainClear => on_sc (aiopquic_clear_tx_data_drain_pending p)
  end.

(** ** Registrations and releases *)

Lemma marks_mono xd owed xd' owed' q :
  (∀ p, xd p + lsum (owed_ref p) owed <= xd' p + lsum (owed_ref p) owed') ->
  marks_ok xd owed q -> marks_ok xd' owed' q.
Proof.
  intros H. induction q as [|e q IH]; [done|]. intros [He Hq]. split; [|auto].
  intros Et Hz. specialize (He Et Hz). specialize (H (e_stream_ctx e)). lia.
Qed.

Lemma marks_snoc xd owed xd' owed' q e :
  (∀ p, xd p + lsum (owed_ref p) owed <= xd' p + lsum (owed_ref p) owed' + rel_ref p e) ->
  (e_event_type e = SPSC_EVT_TX_MARK_DATAGRAM_READY -> e_stream_ctx e <> 0 ->
     0 < xd' (e_stream_ctx e) + lsum (owed_ref (e_stream_ctx e)) owed') ->
  marks_ok xd owed q -> marks_ok xd' owed' (q ++ [e]).
Proof.
  intros H Hm. induction q as [|e' q IH]; cbn [app].
  - intros _. split; [|done]. intros Et Hz. specialize (Hm Et Hz). unfold lsum at 1. cbn. lia.
  - intros [He Hq]. split; [|auto]. intros Et Hz. specialize (He Et Hz).
    specialize (H (e_stream_ctx e')). rewrite lsum_app, lsum_one. lia.
Qed.

Section py.
Context {ev : env} (Eok : env_ok ev) {x xd : Z -> Z} {g : ghost} {w : world}.
Context (I : inv x xd g (res_of w)).

(** ** TX events *)

Definition tx_add (g : ghost) (e : spsc_entry) : ghost := with_tx g (g_ht g) (g_tx g ++ [e]).

(** The entry is queued, or the push failed and left no trace. *)
Definition tx_pushed (e : spsc_entry) (rc : Z) (w' : world) : Prop :=
  (rc = 0 ∧ ∃ e', e_like e e' ∧ inv x xd (tx_add g e') (res_of w')) ∨
  (rc <> 0 ∧ inv x xd g (res_of w')).

Definition tx_room : Prop := g_ht g + zlen (g_tx g) + 1 < 2 ^ 64.

Lemma rel_none e : is_release (e_event_type e) = false -> ∀ p, rel_ref p e = 0.
Proof using Type. intros Hr p. unfold rel_ref. apply holds_none. by rewrite Hr, andb_false_r. Qed.

(** A push whose references come from one just taken. *)
Lemma sp_tx_push_ref e data w1 : inv (λ p, x p + tx_ref p e) xd g (res_of w1) ->
  tx_good (g_wt g) e -> is_release (e_event_type e) = false -> tx_room ->
  wp (tx_ring_push ev e data) (λ rc w',
    (rc = 0 ∧ ∃ e', e_like e e' ∧ inv x xd (tx_add g e') (res_of w')) ∨
    (rc <> 0 ∧ inv (λ p, x p + tx_ref p e) xd g (res_of w'))) w1.
Proof using Eok.
  intros I1 Hg Hr Hroom. pose proof (rel_none e Hr) as Hz.
  eapply wp_mono; [apply (sp_tx_push I1 ev e data Eok Hg Hroom)|].
  intros rc w2 [(-> & e' & He & I2)|(Hrc & I2 & _)]; [left|by right]. split; [done|].
  exists e'. split; [done|]. eapply inv_ext; [| |exact I2]; intros p; cbn; [lia|]. rewrite Hz. lia.
Qed.

Lemma sp_tx_push_sc e data : tx_good (g_wt g) e -> is_release (e_event_type e) = false -> tx_room ->
  few_refs x g ->
  (aiopquic_tx_event_owns_sc (e_event_type e) = true -> e_stream_ctx e <> 0 -> 0 < x (e_stream_ctx e)) ->
  wp (aiopquic_tx_push_sc ev e data) (tx_pushed e) w.
Proof using Eok I.
  intros Hg Hr Hroom Hfew Hx. unfold aiopquic_tx_push_sc.
  destruct (negb (e_stream_ctx e =? 0) && aiopquic_tx_event_owns_sc (e_event_type e)) eqn:Eo; cbn [when].
  - apply andb_true_iff in Eo as Eo'. destruct Eo' as [Hz%negb_true_iff%Z.eqb_neq Ho].
    assert (Hp : 0 < sc_refs x g (e_stream_ctx e)) by (eapply sc_refs_own; [exact I|auto]).
    assert (Hself : ∀ p, tx_ref p e = c_bool (p =? e_stream_ctx e)) by (intros; by apply holds_self).
    apply wp_bind. eapply wp_mono; [apply (sp_ref I _ Hp), Hfew|]. intros [] w1 I1.
    apply wp_bind. eapply wp_mono; [apply (sp_tx_push_ref e data w1); [|done..]|].
    { eapply inv_ext; [| |exact I1]; [|done]. intros p. unfold inc. by rewrite Hself. }
    intros rc w2 [(-> & e' & He & I2)|(Hrc & I2)].
    + apply wp_bind, wp_ret, wp_ret. left. eauto.
    + rewrite (proj2 (Z.eqb_neq rc 0)) by done. apply wp_bind.
      eapply wp_mono; [apply (sp_destroy I2 (e_stream_ctx e))|].
      { rewrite Hself, Z.eqb_refl. pose proof (iv_x _ _ _ _ I (e_stream_ctx e)). cbn. lia. }
      intros [] w3 I3. apply wp_ret. right. split; [done|].
      eapply inv_ext; [| |exact I3]; [|done]. intros p. unfold dec. rewrite Hself. lia.
  - pose proof (λ p, holds_none _ _ p Eo) as Hz. apply wp_bind, wp_ret, wp_bind.
    eapply wp_mono; [apply (sp_tx_push_ref e data w); [|done..]|].
    { eapply inv_ext; [| |exact I]; [|done]. intros p. unfold tx_ref. rewrite Hz. lia. }
    intros rc w2 H. rewrite andb_false_r. apply wp_bind, wp_ret, wp_ret.
    destruct H as [H|(Hrc & I2)]; [by left|right]. split; [done|].
    eapply inv_ext; [| |exact I2]; [|done]. intros p. cbn. unfold tx_ref. rewrite Hz. lia.
Qed.

(** Credit for the bytes Python consumed: one OPEN_FLOW_CONTROL entry, or nothing. *)
Lemma sp_fc_credit cnx id p : cnx = 0 ∨ 2 <= cnx -> tx_room -> few_refs x g -> p = 0 ∨ 0 < x p ->
  wp (aiopquic_push_fc_credit ev cnx id p) (λ _ w', inv x xd g (res_of w') ∨
    ∃ e', e_like (sc_entry SPSC_EVT_TX_OPEN_FLOW_CONTROL id cnx p 0) e' ∧
      inv x xd (tx_add g e') (res_of w')) w.
Proof using Eok I.
  intros Hc Hroom Hfew Hp. unfold aiopquic_push_fc_credit.
  destruct (Z.eqb_spec cnx 0); cbn [orb]; [apply wp_ret; by left|].
  destruct (Z.eqb_spec p 0) as [|Hz]; [apply wp_ret; by left|]. destruct Hp as [?|Hp]; [done|].
  set (e := sc_entry _ _ _ _ _).
  assert (Hself : ∀ q, tx_ref q e = c_bool (q =? p)).
  { intros q. apply (holds_self _ e). cbn. by rewrite (proj2 (Z.eqb_neq p 0)). }
  assert (Hg : tx_good (g_wt g) e).
  { split; cbn; [|lia|done]. left. exists SPSC_EVT_TX_OPEN_FLOW_CONTROL. split; [|done].
    unfold raw_tx_types. rewrite !elem_of_cons. tauto. }
  apply wp_bind. eapply wp_mono; [apply (sp_ref I p)|]; [by eapply sc_refs_own|apply Hfew|].
  intros [] w1 I1. apply wp_idle; [idle_tac|]. intros [] w2 E2. rewrite <- E2 in I1.
  apply wp_bind. eapply wp_mono; [apply (sp_tx_push_ref e [] w2); [|done..]|].
  { eapply inv_ext; [| |exact I1]; [|done]. intros q. unfold inc. by rewrite Hself. }
  intros rc w3 [(-> & e' & He & I3)|(Hrc & I3)].
  - cbn [Z.eqb]. apply wp_idle; [idle_tac|]. intros [] w4 E4. apply wp_idle; [idle_tac|]. intros [] w5 E5.
    apply wp_idle; [idle_tac|]. intros t w6 E6.
    assert (I6 : inv x xd (tx_add g e') (res_of w6)) by (by rewrite E6, E5, E4).
    case_match; [apply wp_ret; eauto|]. apply wp_idle; [idle_tac|]. intros wk w7 E7.
    apply idle_when; [idle_tac|]. intros [] w8 E8. right. exists e'. by rewrite E8, E7.
  - rewrite (proj2 (Z.eqb_neq rc 0)) by done. apply wp_idle; [idle_tac|]. intros [] w4 E4.
    apply wp_idle; [idle_tac|]. intros [] w5 E5. rewrite <- E4, <- E5 in I3.
    eapply wp_mono; [apply (sp_destroy I3 p)|].
    { rewrite Hself, Z.eqb_refl. pose proof (iv_x _ _ _ _ I p). cbn. lia. }
    intros [] w6 I6. left. eapply inv_ext; [| |exact I6]; [|done]. intros q. unfold dec. rewrite Hself. lia.
Qed.

(** ** RX events *)

Definition rx_popped (g : ghost) (q : list spsc_entry) : ghost :=
  Ghost (g_ht g) (g_tx g) (g_hr g + 1) q (g_def g) (g_owed g) (g_puts g) (g_T g) (g_wt g).

(** The head event comes out with the reference it carries. *)
Lemma sp_rx_take : wp rx_take (λ o w',
  (o = None ∧ w' = w) ∨
  ∃ e q, o = Some e ∧ g_rx g = e :: q ∧ inv (λ p, x p + rx_ref p e) xd (rx_popped g q) (res_of w')) w.
Proof using I.
  destruct (iv_rx _ _ _ _ I) as (q1 & q2 & R & En & Ed & Eq).
  change (s_rx (res_of w)) with (b_rx_event_ring (w_ctx w)) in R.
  unfold wp, rx_take. rewrite (rq_peek _ _ _ R).
  destruct q1 as [|e q1]; [exists None, w; auto|].
  rewrite (rq_head_entry _ _ _ _ R). cbn [mbind option_bind].
  assert (Hh : heap_ok (w_heap w) (e :: ((q1 ++ q2) ++ g_tx g))).
  { pose proof (iv_heap _ _ _ _ I) as Hh. rewrite Eq in Hh. exact Hh. }
  destruct (heap_ok_free _ _ _ Hh) as [Hlive Hh'].
  destruct (rq_pop _ _ _ _ (w_heap w) R Hlive) as (r' & E & R' & _). rewrite E. cbn [mbind option_bind].
  eexists _, _. split; [done|]. right. exists e, (q1 ++ q2). split; [done|]. split; [done|].
  assert (Hx : ∀ p, lsum (rx_ref p) (g_rx g) = rx_ref p e + lsum (rx_ref p) (q1 ++ q2))
    by (intros; by rewrite Eq).
  destruct I. split; try done; cbn [rx_popped g_tx g_rx g_def g_T g_owed g_puts].
  - by exists q1, q2.
  - eapply wraps_ext; [|exact iv_sc]. intros p. unfold sc_refs. cbn [rx_popped g_tx g_rx g_def].
    rewrite Hx. lia.
  - intros p. specialize (iv_x p). pose proof (holds_range aiopquic_rx_event_owns_sc p e) as Hr.
    change (holds aiopquic_rx_event_owns_sc p e) with (rx_ref p e) in Hr. lia.
Qed.

Lemma sp_clear_rx : g_hr g + zlen (g_rx g) < 2 ^ 64 ->
  wp (aiopquic_clear_rx ev) (λ _ w', inv x xd g (res_of w')) w.
Proof using I.
  intros Hroom. unfold aiopquic_clear_rx. apply wp_bind.
  destruct (iv_rx _ _ _ _ I) as (q1 & q2 & R & En & Ed & Eq).
  destruct (refill_raw _ _ _ _ _ R En Ed) as (r' & o' & q1' & q2' & E & R' & En' & Ed' & Eq' & _).
  { rewrite Eq, length_app in Hroom. lia. }
  change (s_rx (res_of w)) with (b_rx_event_ring (w_ctx w)) in E.
  change (s_ovf (res_of w)) with (b_rx_overflow (w_ctx w)) in E.
  eexists _, _. split; [unfold rx_refill; by rewrite E|].
  set (w1 := w_set_ctx _ w).
  assert (I1 : inv x xd g (res_of w1)).
  { destruct I. split; try done. exists q1', q2'. split_and!; try done. by rewrite Eq', Eq. }
  clearbody w1. pose proof idle_wake_read. pose proof (idle_wake_write ev).
  apply wp_idle; [done|]. intros got w2 E2. apply wp_idle; [idle_tac|]. intros was w3 E3.
  apply wp_idle; [by apply idle_setb|]. intros [] w4 E4. cbv zeta.
  apply wp_idle; [idle_tac|]. intros [] w5 E5. apply wp_idle; [apply idle_when; idle_tac|]. intros [] w6 E6.
  apply wp_idle; [idle_tac|]. intros left w7 E7. apply wp_idle; [idle_tac|]. intros depth w8 E8.
  apply wp_idle; [idle_tac|]. intros flags w9 E9.
  assert (I9 : inv x xd g (res_of w9)) by (by rewrite E9, E8, E7, E6, E5, E4, E3, E2).
  apply idle_t_asyncio_trace; [apply I9|]. intros [] w10 E10. by rewrite E10.
Qed.

(** ** Wrappers *)

Lemma sp_sc_create p : p = 0 ∨ sw_scs (w_sc w) !! p = None ->
  wp (on_sc (sc_step (ScCreate p))) (λ _ w',
    inv (λ q, x q + (if p =? 0 then 0 else c_bool (q =? p))) xd g (res_of w')) w.
Proof using I.
  intros Hp. destruct (sp_create x g w p I Hp) as (q & w' & E & -> & H).
  destruct (aiopquic_stream_ctx_create p (w_sc w)) as [q s] eqn:Ec. simplify_eq.
  eexists tt, _. split; [unfold on_sc; cbn [sc_step]; by rewrite Ec|]. cbn [snd].
  destruct H as [(-> & I')|(Hz & _ & I')].
  - eapply inv_ext; [| |exact I']; [|done]. intros q. cbn. lia.
  - rewrite (proj2 (Z.eqb_neq p 0)) by done. exact I'.
Qed.

Lemma sp_sc_ref p : 0 < x p -> few_refs x g ->
  wp (on_sc (sc_step (ScRef p))) (λ _ w', inv (inc x p) xd g (res_of w')) w.
Proof using I. intros Hp Hf. apply (sp_ref I); [by eapply sc_refs_own|apply Hf]. Qed.

Lemma sp_sc_destroy p : 0 < x p ->
  wp (on_sc (sc_step (ScDestroy p))) (λ _ w', inv (dec x p) xd g (res_of w')) w.
Proof using I.
  intros Hp. apply (sp_destroy I).
  pose proof (lsum_nonneg (tx_ref p) (g_tx g) (λ e, proj1 (holds_range _ _ e))). lia.
Qed.

Lemma sp_sc_send o : is_send x o -> g_T g + op_bytes o < 2 ^ 64 ->
  wp (on_sc (sc_step o)) (λ _ w', ∃ T, inv x xd (with_T g T) (res_of w') ∧
    g_T g <= T <= g_T g + op_bytes o) w.
Proof using I.
  intros Ho HT. destruct (wraps_send _ _ _ _ o (iv_sc _ _ _ _ I)) as (s' & T' & E & HT' & W'); [|done|].
  { destruct o; try done. destruct Ho as (Hp & ?). split; [by eapply sc_refs_own|done]. }
  change (s_sc (res_of w)) with (w_sc w) in E.
  eexists tt, (w_set_sc s' w). split; [unfold on_sc; by rewrite E|]. exists T'. split; [|done].
  destruct I. by split.
Qed.

Lemma sp_rx_read p n : 0 < x p -> 0 <= n < 2 ^ 32 -> has_rx p w ->
  wp (rx_read p n) (λ _ w', inv x xd g (res_of w')) w.
Proof using I.
  intros Hp Hn (sc & E & rx & Er).
  destruct (wr_rx _ _ _ _ (iv_sc _ _ _ _ I) p sc E rx Er) as (H & q & R).
  destruct (stream_buf_pop_spec rx H q n R ltac:(lia)) as (rx' & Ep & R').
  eexists _, (w_set_sc _ w). split.
  { unfold rx_read, on_sc_val. rewrite E. cbn [mbind option_bind]. rewrite Er. cbn [mbind option_bind].
    rewrite Ep. done. }
  apply (inv_sc_same I).
  destruct (wraps_live (iv_sc _ _ _ _ I) p) as (sc' & E' & _ & [Hr _] & _); [by eapply sc_refs_own|].
  change (s_sc (res_of w)) with (w_sc w) in E'. assert (sc' = sc) as -> by congruence.
  eapply wraps_insert; [apply I|by eapply sc_inv_quiet; [apply I|..]|done|done|].
  split; [|done]. intros _ rx2 [= <-]. destruct R' as (R' & _). by eauto.
Qed.

Lemma sp_sc_flag p f : 0 < x p -> wp (sc_flag_step p f) (λ _ w', inv x xd g (res_of w')) w.
Proof using I.
  intros Hp. assert (Hr : 0 < sc_refs x g p) by (by eapply sc_refs_own).
  destruct (wraps_live (iv_sc _ _ _ _ I) p Hr) as (sc & E & Hz & _).
  assert (F : ∀ F, (∀ sc, sc_refcount (F sc) = sc_refcount sc ∧ sc_tx (F sc) = sc_tx sc ∧
      sc_rx (F sc) = sc_rx sc ∧ sc_tx_reliable_size (F sc) = sc_tx_reliable_size sc) ->
    wp (upd_sc p F) (λ _ w', inv x xd g (res_of w')) w).
  { intros F HF. by apply (sp_flag (xd := xd) x g). }
  destruct f; cbn [sc_flag_step]; try (by apply F).
  - unfold aiopquic_stream_ctx_pending_add. rewrite (proj2 (Z.eqb_neq p 0)) by done. cbn [orb].
    destruct (n =? 0); [|by apply F]. exists tt, (w_set_sc (w_sc w) w). split; [done|]. by destruct w.
  - unfold aiopquic_stream_ctx_pending_sub. rewrite (proj2 (Z.eqb_neq p 0)) by done. cbn [orb].
    destruct (n =? 0); [|by apply F]. exists tt, (w_set_sc (w_sc w) w). split; [done|]. by destruct w.
  - unfold aiopquic_stream_ctx_last_fc_push_consumed_store, sc_update_nn.
    rewrite (proj2 (Z.eqb_neq p 0)) by done. by apply F.
  - unfold aiopquic_set_tx_data_drain_pending, sc_update_nn. 
    try rewrite (proj2 (Z.eqb_neq p 0)) by done. by apply F.
  - unfold aiopquic_clear_tx_data_drain_pending, sc_update_nn.
    try rewrite (proj2 (Z.eqb_neq p 0)) by done. by apply F.
Qed.
(** ** Datagram rings *)

Lemma dgram_push_sound b data : db_sound b -> 0 < zlen data < 2 ^ 32 ->
  ∃ rc os b', aiopquic_dgram_buf_push_record [] b data = Some (rc, os, b') ∧
    db_refcnt b' = db_refcnt b ∧ db_sound b'.
Proof using Type.
  intros (H & recs & R) Hl. unfold aiopquic_dgram_buf_push_record. rewrite Z.gtb_ltb.
  destruct (Z.ltb_spec (db_max_record b) (zlen data)) as [Hover|Hle].
  { do 3 eexists. split; [done|]. split; [done|]. exists H, recs. by destruct R. }
  change (u32 (u64 (db_tail b - db_head b))) with (aiopquic_dgram_buf_used b). rewrite (dr_free R).
  pose proof (dr_cap R). pose proof (dr_room _ _ _ R). unfold AIOPQUIC_DGRAM_REC_HDR.
  rewrite u32_small by lia.
  destruct (Z.ltb_spec (db_capacity b - zlen (encode recs)) (4 + zlen data)) as [Hfull|Hroom].
  - cbn [worker_run mbind option_bind]. cbn [db_set_drain db_capacity db_tail db_head].
    change (u32 (u64 (db_tail b - db_head b))) with (aiopquic_dgram_buf_used b). rewrite (dr_free R).
    rewrite (proj2 (Z.ltb_lt _ _)) by done. do 3 eexists. split; [done|]. split; [done|].
    exists H, recs. by destruct R.
  - destruct (push_write_spec R data) as (buf & tail & -> & R'); [by split; lia|lia|].
    cbn [mbind option_bind]. do 3 eexists. split; [done|]. split; [done|]. by eexists _, _.
Qed.

Lemma db_refs_own p : 0 < xd p -> 0 < db_refs xd g p.
Proof using Type.
  intros Hp. unfold db_refs.
  pose proof (lsum_nonneg (rel_ref p) (g_tx g) (λ e, proj1 (holds_range _ _ e))).
  pose proof (lsum_nonneg (owed_ref p) (g_owed g) (λ e, c_bool_nonneg _)). lia.
Qed.

(** A ring somebody outside the table holds is live and sound. *)
Lemma ring_live p : 0 < db_refs xd g p ->
  ∃ b, rs_rings (w_rs w) !! p = Some b ∧ db_sound b.
Proof using I.
  intros Hp. destruct (iv_db _ _ _ _ I) as [(m & _ & O) _ _ _ Hs]. pose proof (refs_range m p).
  destruct (rs_some O p) as (b & E & _); [lia|].
  change (s_rs (res_of w)) with (w_rs w) in E, Hs. exists b. split; [done|]. by eapply Hs.
Qed.

Lemma sp_dgram_push p data : 0 < xd p -> 0 < zlen data < 2 ^ 32 ->
  wp (dgram_push p data) (λ _ w', inv x xd g (res_of w')) w.
Proof using I.
  intros Hp Hd. destruct (ring_live p (db_refs_own p Hp)) as (b & E & Hb).
  destruct (dgram_push_sound b data Hb Hd) as (rc & os & b' & Ep & Ec & Hb').
  eapply (sp_on_db x g w p b b'); [done|done|by rewrite Ep|done|done|]. done.
Qed.

Lemma sp_dgram_create p ok blk capacity max_record : p <> 0 -> rs_rings (w_rs w) !! p = None ->
  0 <= capacity < 2 ^ 32 -> 0 < max_record <= 2 ^ 30 - 4 ->
  (∀ bs, blk = Some bs -> zlen bs = dgram_capacity capacity max_record) ->
  wp (dgram_create p ok blk capacity max_record)
    (λ r w', (r = 0 ∧ inv x xd g (res_of w')) ∨ (r = p ∧ inv x (inc xd p) g (res_of w'))) w.
Proof using I.
  intros Hz Hp Hc Hm Hb. unfold dgram_create.
  destruct (dgram_create_cases ok blk (rs_alive (w_rs w)) capacity max_record Hc Hm Hb) as [E|(b & H & E & Ec & R)].
  - eexists 0, _. split; [by rewrite E|]. left. split; [done|].
    assert (Ew : RingStore (rs_rings (w_rs w)) (rs_alive (w_rs w)) = w_rs w) by (by destruct (w_rs w)).
    rewrite Ew. destruct I. by split.
  - eexists p, _. split; [by rewrite E|]. right. split; [done|].
    rewrite <- (ghost_eta I). 
    assert (G : rings (db_refs (inc xd p) g) (g_puts g) (b_dgram_table (w_ctx w))
      (RingStore (<[p := b]> (rs_rings (w_rs w))) (rs_alive (w_rs w) + 1))).
    { destruct (iv_db _ _ _ _ I) as [(m & T & O) Hcap Hu Hn Hsound].
      change (s_rs (res_of w)) with (w_rs w) in *. change (s_tab (res_of w)) with (b_dgram_table (w_ctx w)) in *.
      split; try done.
      - exists m. split; [done|]. eapply rs_ok_ext; [|by apply (rs_new_spec O p b)].
        intros q. unfold db_refs, inc. cbn. lia.
      - intros q c. cbn [rs_rings]. rewrite lookup_insert_Some. intros [[<- <-]|[_ Eq]]; [by eexists _, _|by eapply Hsound]. }
    refine (inv_set_db I (inc xd p) (g_puts g) (b_dgram_table (w_ctx w)) _ G _).
    intros q. pose proof (iv_xd _ _ _ _ I q). unfold inc. pose proof (c_bool_nonneg (q =? p)). lia.
Qed.

(** ** The drain signal's arm *)

Lemma idle_arm : idle (aiopquic_arm_tx_event_ring_drain_pending ev).
Proof using Type. unfold aiopquic_arm_tx_event_ring_drain_pending. idle_tac. by apply idle_setb. Qed.

Lemma sp_arm : wp (aiopquic_arm_tx_event_ring_drain_pending ev) (λ b w',
  res_of w' = res_of w ∧ b = (zlen (g_tx g) >? s_low (res_of w))) w.
Proof using I.
  unfold aiopquic_arm_tx_event_ring_drain_pending.
  apply wp_idle; [idle_tac|]. intros [] w1 E1. apply wp_idle; [idle_tac|]. intros now w2 E2.
  apply wp_idle; [idle_tac|]. intros [] w3 E3. apply wp_idle; [by apply idle_setb|]. intros [] w4 E4.
  assert (E : res_of w4 = res_of w) by congruence. apply wp_getb. split; [done|].
  change (b_tx_event_ring (w_ctx w4)) with (s_tx (res_of w4)).
  change (b_tx_event_ring_low_water (w_ctx w4)) with (s_low (res_of w4)). rewrite E.
  by rewrite (rq_count _ _ _ (iv_tx _ _ _ _ I)).
Qed.
End py.

(** ** Releasing datagram rings *)

Definition owed_good (o : Z * Z) : Prop := (o.1 = 0 ∨ 2 <= o.1) ∧ o.2 <> 0.

(** Release entries for what was owed. *)
Definition releases (es : list spsc_entry) (os : list (Z * Z)) : Prop :=
  Forall (λ e, e_event_type e = SPSC_EVT_TX_DGRAM_RING_RELEASE) es ∧
  length es = length os ∧ ∀ p, lsum (rel_ref p) es = lsum (owed_ref p) os.

Lemma marks_releases xd owed xd' owed' q es :
  (∀ p, xd p + lsum (owed_ref p) owed <= xd' p + lsum (owed_ref p) owed' + lsum (rel_ref p) es) ->
  Forall (λ e, e_event_type e = SPSC_EVT_TX_DGRAM_RING_RELEASE) es ->
  marks_ok xd owed q -> marks_ok xd' owed' (q ++ es).
Proof.
  intros H Hes. induction q as [|e q IH]; cbn [app].
  - intros _. clear H. induction Hes as [|e es He Hes IH]; [done|]. split; [|done].
    rewrite He. done.
  - intros [He Hq]. split; [|auto]. intros Et Hz. specialize (He Et Hz).
    specialize (H (e_stream_ctx e)). rewrite lsum_app. lia.
Qed.

Section release.
Context {ev : env} (Eok : env_ok ev).

Lemma release_ref cnx db p : db <> 0 ->
  rel_ref p (sc_entry SPSC_EVT_TX_DGRAM_RING_RELEASE 0 cnx db 0) = owed_ref p (cnx, db).
Proof using Type. intros Hz. unfold rel_ref, holds. cbn. by rewrite (proj2 (Z.eqb_neq db 0)). Qed.

Lemma sp_release_post x xd g w cnx db : inv x xd g (res_of w) -> owed_good (cnx, db) ->
  g_ht g + zlen (g_tx g) + 1 < 2 ^ 64 ->
  wp (aiopquic_dgram_ring_release_post ev cnx db) (λ rc w',
    (rc = 0 ∧ ∃ e', releases [e'] [(cnx, db)] ∧
       inv x (λ p, xd p - owed_ref p (cnx, db)) (tx_add g e') (res_of w')) ∨
    (rc <> 0 ∧ inv x xd g (res_of w') ∧ zlen (g_tx g) = r_capacity (s_tx (res_of w')))) w.
Proof using Eok.
  intros I [Hc Hz] Hroom. cbn in Hc, Hz. unfold aiopquic_dgram_ring_release_post.
  set (e := sc_entry _ _ _ _ _).
  assert (Hg : tx_good (g_wt g) e).
  { split; cbn; [|lia|done]. left. exists SPSC_EVT_TX_DGRAM_RING_RELEASE. split; [|done].
    unfold raw_tx_types. rewrite !elem_of_cons. tauto. }
  apply wp_bind. eapply wp_mono; [apply (sp_tx_push I ev e [] Eok Hg Hroom)|].
  intros rc w1 [(-> & e' & He & I1)|(Hrc & I1 & Hcap)].
  - cbn [Z.eqb negb]. apply wp_idle; [idle_tac|]. intros [] w2 E2.
    apply wp_idle; [idle_tac|]. intros wk w3 E3. apply wp_idle; [apply idle_when; idle_tac|]. intros [] w4 E4.
    apply wp_ret. left. split; [done|]. exists e'. split.
    + split; [|split; [done|]].
      * apply Forall_singleton. by destruct He as (p & n & ->).
      * intros p. rewrite !lsum_one. unfold rel_ref. rewrite (holds_like _ _ e) by done. by apply release_ref.
    + rewrite E4, E3, E2. eapply inv_ext; [| |exact I1].
      * intros p. unfold tx_ref. cbn beta. rewrite holds_none; [lia|]. cbn. apply andb_false_r.
      * intros p. cbn beta. unfold e. by rewrite (release_ref cnx db p Hz).
  - rewrite (proj2 (Z.eqb_neq rc 0)) by done. apply wp_ret. right. auto.
Qed.

Lemma releases_cons e es o os : releases [e] [o] -> releases es os -> releases (e :: es) (o :: os).
Proof using Type.
  intros (F1 & _ & R1) (F2 & L2 & R2). split; [|split].
  - apply Forall_cons. split; [by inversion F1|done].
  - cbn. by rewrite L2.
  - intros p. specialize (R1 p). rewrite !lsum_one in R1. by rewrite !lsum_cons, R1, R2.
Qed.

Lemma sp_post_owed todo : ∀ x xd g w, inv x xd g (res_of w) -> Forall owed_good todo ->
  g_ht g + zlen (g_tx g) + zlen todo < 2 ^ 64 ->
  wp (post_owed ev todo) (λ n w', ∃ es, releases es (take n todo) ∧ (n <= length todo)%nat ∧
    inv x (λ p, xd p - lsum (owed_ref p) (take n todo)) (with_tx g (g_ht g) (g_tx g ++ es)) (res_of w') ∧
    ((n < length todo)%nat -> zlen (g_tx g ++ es) = r_capacity (s_tx (res_of w')))) w.
Proof using Eok.
  induction todo as [|[cnx db] todo IH]; intros x xd g w I Hgood Hroom; cbn [post_owed].
  - apply wp_ret. exists []. split; [done|]. split; [done|]. split; [|cbn; lia].
    rewrite app_nil_r. destruct g. eapply inv_ext; [| |exact I]; [done|]. intros p. unfold lsum. cbn. lia.
  - apply Forall_cons in Hgood as [Ho Hgood]. cbn [length] in Hroom.
    apply wp_bind. eapply wp_mono; [by apply (sp_release_post x xd g w cnx db I Ho); lia|].
    intros rc w1 [(-> & e & Re & I1)|(Hrc & I1 & Hcap)].
    + cbn [Z.eqb]. apply wp_bind. eapply wp_mono; [apply (IH _ _ _ _ I1 Hgood)|].
      { cbn. rewrite length_app. cbn. lia. }
      intros n w2 (es & Res & Hn & I2 & Hcap). apply wp_ret. exists (e :: es).
      cbn [with_tx tx_add g_tx g_ht] in *. rewrite <- app_assoc in I2, Hcap. cbn [app] in I2, Hcap.
      split; [by apply releases_cons|]. split; [cbn; lia|]. split; [|intros; apply Hcap; cbn in *; lia].
      eapply inv_ext; [| |exact I2]; [done|]. intros p. cbn [take]. rewrite lsum_cons. lia.
    + rewrite (proj2 (Z.eqb_neq rc 0)) by done. apply wp_ret. exists []. split; [done|]. split; [lia|].
      rewrite app_nil_r. split; [|done]. destruct g. eapply inv_ext; [| |exact I1]; [done|].
      intros p. unfold lsum. cbn. lia.
Qed.

(** Releases moved from the owed list to the ring. *)
Definition flushed (g g' : ghost) : Prop :=
  ∃ es n, g' = with_owed (with_tx g (g_ht g) (g_tx g ++ es)) (drop n (g_owed g)) ∧
    releases es (take n (g_owed g)).

Lemma flushed_marks xd g g' : flushed g g' -> marks_ok xd (g_owed g) (g_tx g) ->
  marks_ok xd (g_owed g') (g_tx g').
Proof using Type.
  intros (es & n & -> & Res & _ & Hr). cbn [with_owed with_tx g_tx g_owed]. apply marks_releases; [|done].
  intros p. rewrite Hr. rewrite <- (take_drop n (g_owed g)) at 1. rewrite lsum_app. lia.
Qed.

Lemma inv_set_owed x xd g w n es :
  inv x (λ p, xd p - lsum (owed_ref p) (take n (g_owed g))) (with_tx g (g_ht g) (g_tx g ++ es)) (res_of w) ->
  releases es (take n (g_owed g)) -> (∀ p, 0 <= xd p + lsum (rel_ref p) (g_tx g)) ->
  inv x xd (with_owed (with_tx g (g_ht g) (g_tx g ++ es)) (drop n (g_owed g)))
    (res_of (w_set_ctx (b_set_dgram_release_owed (drop n (g_owed g)) (w_ctx w)) w)).
Proof using Type.
  intros I (Fes & _ & Hr) Hxd. destruct I. split; try done; cbn [with_owed with_tx g_tx g_rx g_def g_T g_owed g_puts] in *.
  - eapply rings_ext; [|exact iv_db]. intros p. unfold db_refs. cbn [with_owed with_tx g_tx g_owed].
    rewrite <- (take_drop n (g_owed g)) at 2. rewrite !lsum_app. lia.
  - intros p. rewrite lsum_app. specialize (Hxd p).
    pose proof (lsum_nonneg (rel_ref p) es (λ e, proj1 (holds_range _ _ e))). lia.
Qed.

(** The flush posts what fits; when the ring is full its drain signal is armed. *)
Lemma sp_flush x xd g w : inv x xd g (res_of w) -> Forall owed_good (g_owed g) ->
  g_ht g + zlen (g_tx g) + zlen (g_owed g) < 2 ^ 64 ->
  wp (aiopquic_dgram_ring_release_flush ev) (λ _ w', ∃ g', inv x xd g' (res_of w') ∧ flushed g g') w.
Proof using Eok.
  intros I Hgood Hroom. unfold aiopquic_dgram_ring_release_flush.
  assert (F0 : flushed g g).
  { exists [], 0%nat. split; [by rewrite app_nil_r, drop_0; destruct g|]. done. }
  apply wp_bind, wp_getb. case_match; [apply wp_ret; by exists g|]. apply wp_bind, wp_getb.
  cbn [flush_loop]. apply wp_bind, wp_getb.
  pose proof (iv_owed _ _ _ _ I) as Eo. change (s_owed (res_of w)) with (b_dgram_release_owed (w_ctx w)) in Eo.
  rewrite Eo. apply wp_bind. eapply wp_mono; [apply (sp_post_owed _ x xd g w I Hgood Hroom)|].
  intros n w1 (es & Res & Hn & I1 & Hcap). apply wp_bind, wp_setb.
  pose proof (inv_set_owed x xd g w1 n es I1 Res (iv_xd _ _ _ _ I)) as I2.
  set (g2 := with_owed _ _) in I2. set (w2 := w_set_ctx _ w1) in *.
  assert (F2 : flushed g g2) by (by exists es, n).
  destruct (Nat.eqb_spec (length (g_owed g)) n) as [Hall|Hne]; [apply wp_ret; by exists g2|].
  apply wp_bind. eapply wp_mono; [apply (sp_arm I2)|]. intros wait w3 [E3 ->].
  assert (Hfull : zlen (g_tx g ++ es) = r_capacity (s_tx (res_of w1))) by (apply Hcap; lia).
  pose proof (iv_low _ _ _ _ I2) as Hlow. change (s_tx (res_of w2)) with (s_tx (res_of w1)) in Hlow.
  rewrite Z.gtb_ltb, (proj2 (Z.ltb_lt _ _)) by (cbn [g2 with_owed with_tx g_tx]; lia).
  apply wp_ret. exists g2. split; [by rewrite E3|done].
Qed.
(** Python's reference to [db] after its release: queued, owed, or (no memory to
    remember it) kept by nobody. *)
Record released (xd : Z -> Z) (g : ghost) (o : Z * Z) (lost : bool) (xd' : Z -> Z) (g' : ghost) : Prop := {
  rl_xd : ∀ p, xd' p = xd p - (if lost then 0 else owed_ref p o);
  rl_ht : g_ht g' = g_ht g;
  rl_hr : g_hr g' = g_hr g;
  rl_rx : g_rx g' = g_rx g;
  rl_def : g_def g' = g_def g;
  rl_puts : g_puts g' = g_puts g;
  rl_T : g_T g' = g_T g;
  rl_tx : ∃ es, g_tx g' = g_tx g ++ es ∧
            Forall (λ e, e_event_type e = SPSC_EVT_TX_DGRAM_RING_RELEASE) es;
  rl_owed : Forall owed_good (g_owed g) -> Forall owed_good (g_owed g');
  rl_marks : ∀ m, marks_ok m (g_owed g) (g_tx g) ->
    marks_ok (λ p, m p - (if lost then 0 else owed_ref p o)) (g_owed g') (g_tx g');
  rl_lost : lost = true -> ∃ t, ev_ok ev t = false;
  rl_wt : g_wt g' = g_wt g
}.

Lemma inv_owe x xd g w o : inv x xd g (res_of w) -> 0 < xd o.2 ->
  inv x (λ p, xd p - owed_ref p o) (with_owed g (g_owed g ++ [o]))
    (res_of (w_set_ctx (b_set_dgram_release_owed (g_owed g ++ [o]) (w_ctx w)) w)).
Proof using Type.
  intros I Hp. destruct I. split; try done; cbn [with_owed g_tx g_rx g_def g_T g_owed g_puts] in *.
  - eapply rings_ext; [|exact iv_db]. intros p. unfold db_refs. cbn [with_owed g_tx g_owed].
    rewrite lsum_app, lsum_one. lia.
  - intros p. specialize (iv_xd p). pose proof (lsum_nonneg (rel_ref p) (g_tx g) (λ e, proj1 (holds_range _ _ e))).
    unfold owed_ref. destruct (Z.eqb_spec o.2 p) as [<-|]; cbn; lia.
Qed.

Lemma sp_release x xd g w cnx db : inv x xd g (res_of w) -> Forall owed_good (g_owed g) ->
  owed_good (cnx, db) -> b_thread_ctx (w_ctx w) <> 0 -> 0 < xd db ->
  g_ht g + zlen (g_tx g) + zlen (g_owed g) + 1 < 2 ^ 64 ->
  wp (aiopquic_dgram_ring_release ev cnx db) (λ _ w', ∃ lost xd' g',
    inv x xd' g' (res_of w') ∧ released xd g (cnx, db) lost xd' g') w.
Proof using Eok.
  intros I Hgood Ho Ht Hxd Hroom. destruct Ho as [Hc Hz]. cbn in Hc, Hz.
  unfold aiopquic_dgram_ring_release. rewrite (proj2 (Z.eqb_neq db 0)) by done.
  apply wp_bind, wp_getb. rewrite (proj2 (Z.eqb_neq _ 0)) by done. apply wp_bind.
  eapply wp_mono; [apply (sp_release_post x xd g w cnx db I); [by split|lia]|].
  intros rc w1 [(-> & e & (Fe & _ & Re) & I1)|(Hrc & I1 & _)].
  { cbn [Z.eqb]. apply wp_ret. exists false. do 2 eexists. split; [exact I1|].
    split; cbn; try done; [by exists [e]|]. intros m. apply marks_releases; [|done].
    intros p. rewrite Re, lsum_one. lia. }
  rewrite (proj2 (Z.eqb_neq rc 0)) by done.
  pose proof (iv_owed _ _ _ _ I1) as Eo. change (s_owed (res_of w1)) with (b_dgram_release_owed (w_ctx w1)) in Eo.
  apply wp_bind, wp_getb. rewrite Eo. apply wp_bind, wp_getb. apply wp_bind.
  apply (wp_mono _ (λ (ok : bool) w', res_of w' = res_of w1 ∧ (ok = false -> ∃ t, ev_ok ev t = false))).
  { case_match; [|by apply wp_ret]. apply wp_bind. exists (w_tick w1), (w_set_tick (S (w_tick w1)) w1).
    split; [done|]. destruct (ev_ok ev (w_tick w1)) eqn:Ek; [|apply wp_ret; split; [done|eauto]].
    apply wp_bind, wp_setb, wp_ret. done. }
  intros ok w2 [E2 Hlost]. rewrite <- E2 in I1. destruct ok.
  2: { apply wp_ret. exists true, xd, g. split; [done|]. split; try done; [intros; lia| | |by auto].
       - exists []. by rewrite app_nil_r.
       - intros m. apply marks_mono. intros p. lia. }
  apply wp_bind, wp_setb. pose proof (inv_owe x xd g w2 (cnx, db) I1 Hxd) as I3.
  eapply wp_mono; [apply (sp_flush x _ _ _ I3)|].
  { cbn. apply Forall_app. split; [done|]. by apply Forall_singleton. }
  { cbn. rewrite length_app. cbn. lia. }
  intros [] w4 (g4 & I4 & F4). exists false. do 2 eexists. split; [exact I4|].
  pose proof (λ m, flushed_marks (λ p, m p - owed_ref p (cnx, db)) _ _ F4) as Hm.
  destruct F4 as (es & n & -> & Fes & _). split; cbn in *; try done.
  - by exists es.
  - intros Hg. apply Forall_drop, Forall_app. split; [done|]. by apply Forall_singleton.
  - intros m Hm0. apply Hm. eapply marks_mono; [|exact Hm0]. intros p. rewrite lsum_app, lsum_one. lia.
Qed.
End release.
