(* ===== verification/System.v ===== *)
(** * The bridge as a system

    Python's calls and the worker's callbacks interleaved: [sys_step] runs one of
    them, [op_ok] is what its caller owes (a reference to what it touches), [reach]
    the states a run can get to.  A run keeps the invariant of World.v, so no call
    in it touches freed memory, and every counter is the number of its holders. *)
From S2P Require Import Prelude Ring Store StreamBuf SpscRing EventChannel DgramBuf DgramTable.
From S2P Require Import StreamCtx WtState Bridge Alpn Callback World BridgeSafe StreamCb PySide.

(** ** States and steps *)

(** The program's state, the references Python holds on wrappers and on datagram
    rings, and two totals: registrations requested, stream bytes submitted. *)
Record sys := Sys {
  y_w : world;
  y_x : Z -> Z;
  y_xd : Z -> Z;
  y_marks : Z;
  y_bytes : Z
}.

Inductive sys_op :=
  | PyPush (e : spsc_entry) (data : list Z)
  | PyTake
  | PyClear
  | PyCredit (cnx id sc : Z)
  | PyFlag (p : Z) (f : sc_flag)
  | PyRead (p n : Z)
  | PySc (o : sc_op)
  | PyRing (p : Z) (ok : bool) (blk : option (list Z)) (capacity max_record : Z)
  | PyRecord (db : Z) (data : list Z)
  | PyRelease (cnx db : Z)
  | PyFlush
  | PyArm
  | PyAlpn (csv : option (list Z))
  | PyThread (t : Z)              (** the network thread is started, or joined *)
  | WkLoop (mode : packet_loop_cb)
  | WkStream (race : list sc_op) (cnx id bytes length : Z) (data : list Z)
      (fe : call_back_event) (p : Z).

Definition is_live (w : world) (p : Z) : bool :=
  match sw_scs (w_sc w) !! p with Some _ => true | None => false end.

(** A wrapper the callback made: Python adopts the first reference to it. *)
Definition created (w w' : world) (p : Z) : Z := c_bool (negb (is_live w p) && is_live w' p).

Definition s_run {A} (s : sys) (m : M A) (k : A -> world -> sys) : option sys :=
  '(a, w) ← m (y_w s); Some (k a w).

Section sys.
Context (ev : env) `{WtHandler}.

Definition sys_step (o : sys_op) (s : sys) : option sys :=
  let x := y_x s in let xd := y_xd s in
  let marks := y_marks s in let bytes := y_bytes s in
  match o with
  | PyPush e data =>
      s_run s (aiopquic_tx_push_sc ev e data) (λ _ w, Sys w x xd (marks + mark_of e) bytes)
  | PyTake =>
      s_run s rx_take (λ o w,
        Sys w (λ p, x p + match o with Some e => rx_ref p e | None => 0 end) xd marks bytes)
  | PyClear => s_run s (aiopquic_clear_rx ev) (λ _ w, Sys w x xd marks bytes)
  | PyCredit cnx id sc =>
      s_run s (aiopquic_push_fc_credit ev cnx id sc) (λ _ w, Sys w x xd marks bytes)
  | PyFlag p f => s_run s (sc_flag_step p f) (λ _ w, Sys w x xd marks bytes)
  | PyRead p n => s_run s (rx_read p n) (λ _ w, Sys w x xd marks bytes)
  | PySc o => s_run s (on_sc (sc_step o)) (λ _ w, Sys w (op_refs o x) xd marks (bytes + op_bytes o))
  | PyRing p ok blk capacity max_record =>
      s_run s (dgram_create p ok blk capacity max_record)
        (λ r w, Sys w x (if r =? 0 then xd else inc xd p) marks bytes)
  | PyRecord db data => s_run s (dgram_push db data) (λ _ w, Sys w x xd marks bytes)
  | PyRelease cnx db =>
      s_run s (aiopquic_dgram_ring_release ev cnx db) (λ _ w, Sys w x (dec xd db) marks bytes)
  | PyFlush => s_run s (aiopquic_dgram_ring_release_flush ev) (λ _ w, Sys w x xd marks bytes)
  | PyArm => s_run s (aiopquic_arm_tx_event_ring_drain_pending ev) (λ _ w, Sys w x xd marks bytes)
  | PyAlpn csv => s_run s (aiopquic_ctx_set_alpn_list ev csv) (λ _ w, Sys w x xd marks bytes)
  | PyThread t => s_run s (setb (b_set_thread_ctx t)) (λ _ w, Sys w x xd marks bytes)
  | WkLoop mode =>
      s_run s (aiopquic_loop_cb ev (S (Z.to_nat (spsc_ring_count (b_tx_event_ring (w_ctx (y_w s)))))) mode)
        (λ _ w, Sys w x xd marks bytes)
  | WkStream race cnx id bts length data fe p =>
      s_run s (aiopquic_stream_cb ev race cnx id bts length data fe p)
        (λ _ w, Sys w (λ q, x q + created (y_w s) w q) xd marks (bytes + run_bytes race))
  end.

(** What a caller owes. *)
Definition op_ok (o : sys_op) (s : sys) : Prop :=
  let w := y_w s in let x := y_x s in let xd := y_xd s in
  let marks := y_marks s in let bytes := y_bytes s in
  match o with
  | PyPush e _ =>
      tx_good false e ∧ is_release (e_event_type e) = false ∧
      (aiopquic_tx_event_owns_sc (e_event_type e) = true -> e_stream_ctx e <> 0 -> 0 < x (e_stream_ctx e)) ∧
      (e_event_type e = SPSC_EVT_TX_MARK_DATAGRAM_READY -> e_stream_ctx e <> 0 -> 0 < xd (e_stream_ctx e)) ∧
      marks + mark_of e <= 2 ^ 26
  | PyCredit cnx _ sc => (cnx = 0 ∨ 2 <= cnx) ∧ (sc = 0 ∨ 0 < x sc)
  | PyFlag p _ => 0 < x p
  | PyRead p n => 0 < x p ∧ 0 <= n < 2 ^ 32 ∧ has_rx p w
  | PySc o =>
      bytes + op_bytes o < 2 ^ 64 ∧
      match o with
      | ScCreate p => p = 0 ∨ is_live w p = false
      | ScRef p | ScDestroy p => 0 < x p
      | _ => is_send x o
      end
  | PyRing p _ blk capacity max_record =>
      p <> 0 ∧ rs_rings (w_rs w) !! p = None ∧ 0 <= capacity < 2 ^ 32 ∧
      0 < max_record <= 2 ^ 30 - 4 ∧
      ∀ bs, blk = Some bs -> zlen bs = dgram_capacity capacity max_record
  | PyRecord db data => 0 < xd db ∧ 0 < zlen data < 2 ^ 32
  | PyRelease cnx db => owed_good (cnx, db) ∧ b_thread_ctx (w_ctx w) <> 0 ∧ 0 < xd db
  | WkStream race cnx _ _ _ _ fe p =>
      2 <= cnx ∧ Forall (is_send x) race ∧ bytes + run_bytes race < 2 ^ 64 ∧
      (p = 0 ∨ is_live w p = true ∨
       (fe <> picoquic_callback_prepare_to_send ∧
        (closing_now (ev := ev) cnx w = true ∨
         aiopquic_rx_event_owns_sc (u32 (aiopquic_map_event fe)) = false)))
  | _ => True
  end.

(** No machine counter is near its width: stream indices of the rings (64 bits),
    reference counts and the owed list (32 bits). *)
Definition below (w : world) : Prop :=
  let b := w_ctx w in
  r_tail (b_tx_event_ring b) + zlen (b_dgram_release_owed b) < 2 ^ 63 ∧
  r_tail (b_rx_event_ring b) + o_depth (b_rx_overflow b) < 2 ^ 63 ∧
  (∀ p c, sw_scs (w_sc w) !! p = Some c -> sc_refcount c < 2 ^ 31) ∧
  (∀ p b, rs_rings (w_rs w) !! p = Some b -> db_refcnt b < 2 ^ 31).

Inductive reach (s0 : sys) : sys -> Prop :=
  | reach_start : reach s0 s0
  | reach_step s o s' : reach s0 s -> below (y_w s) -> op_ok o s -> sys_step o s = Some s' ->
      reach s0 s'.
End sys.

(** A bridge just created, its RX data rings [rx_data_cap] bytes, over empty stores. *)
Definition sys_start (a : ctx_alloc) (tx_cap rx_cap pct rx_data_cap : Z) : option sys :=
  b ← aiopquic_ctx_create a tx_cap rx_cap pct;
  Some (Sys (World (b_set_rx_data_ring_cap rx_data_cap b) sc_world0 (RingStore ∅ 0) ∅ 0 (-1) (-1) 0 [] wt_state0)
          (λ _, 0) (λ _, 0) 0 0).

(** ** The invariant of a run *)

(** [lk]: references to datagram rings lost because no memory was left to owe their
    release.  [ex], [exd]: references to wrappers and datagram rings held neither by
    Python nor by the bridge (WebTransport's links and sessions); [wt]: WebTransport is
    in use. *)
Record sys_inv {wt : bool} {ex exd : Z -> Z} (ev : env) (s : sys) (g : ghost) (lk : Z -> Z) : Prop := {
  yi_lk : ∀ p, 0 <= lk p;
  yi_inv : inv (λ p, y_x s p + ex p) (λ p, y_xd s p + lk p + exd p) g (res_of (y_w s));
  yi_marks : marks_ok (λ p, y_xd s p + lk p) (g_owed g) (g_tx g);
  yi_owed : Forall owed_good (g_owed g);
  yi_x : ∀ p, 0 <= y_x s p;
  yi_xd : ∀ p, 0 <= y_xd s p;
  yi_puts : g_puts g + lsum mark_of (g_tx g) <= y_marks s;
  yi_total : y_marks s <= 2 ^ 26;
  yi_T : g_T g <= y_bytes s;
  yi_lost : (∀ t, ev_ok ev t = true) -> ∀ p, lk p = 0;
  yi_wt : g_wt g = wt
}.

(** What [below] and the invariant give, whatever Python holds. *)
Section held.
Context {x xd : Z -> Z} {g : ghost} {w : world} (I : inv x xd g (res_of w)).

Lemma held_live p : is_live w p = true ↔ 0 < sc_refs x g p.
Proof using I.
  pose proof (iv_sc _ _ _ _ I) as W. change (s_sc (res_of w)) with (w_sc w) in W.
  unfold is_live. split.
  - destruct (sw_scs _ !! p) as [c|] eqn:E; [|done]. intros _.
    apply (rc_live _ _ (si_refs _ _ _ (wr_inv _ _ _ _ W))) in E as [_ ?]. lia.
  - intros Hp. destruct (wraps_live W p Hp) as (c & -> & _). done.
Qed.

Lemma held_few : below w -> few_refs x g.
Proof using I.
  intros Hb p. destruct (Z.lt_trichotomy 0 (sc_refs x g p)) as [Hp|Hp]; [|lia].
  pose proof (iv_sc _ _ _ _ I) as W. change (s_sc (res_of w)) with (w_sc w) in W.
  destruct (rc_some (si_refs _ _ _ (wr_inv _ _ _ _ W)) p Hp) as (c & E & Ec).
  change (rc_count c) with (sc_refcount c) in Ec. destruct Hb as (_ & _ & Hsc & _).
  specialize (Hsc p c E). lia.
Qed.

Lemma held_db p : below w -> db_refs xd g p < 2 ^ 31.
Proof using I.
  intros Hb. pose proof (db_refs_nonneg _ p I). destruct (Z.eq_dec (db_refs xd g p) 0); [lia|].
  destruct (iv_db _ _ _ _ I) as [(m & _ & O) _ _ _ _]. pose proof (refs_range m p).
  destruct (rs_some O p) as (b & E & Ec); [lia|]. destruct Hb as (_ & _ & _ & Hdb).
  specialize (Hdb p b E). lia.
Qed.

Lemma held_room : below w -> rx_room g (2 * zlen (g_tx g) + 1).
Proof using I.
  intros Hb. destruct (iv_rx _ _ _ _ I) as (q1 & q2 & R & En & Ed & Eq).
  pose proof (rq_tail _ _ _ R). pose proof (rq_fit _ _ _ (iv_tx _ _ _ _ I)).
  pose proof (rq_cap _ _ _ (iv_tx _ _ _ _ I)). destruct Hb as (_ & Hb2 & _).
  unfold rx_room. rewrite Eq, length_app. cbn in *. lia.
Qed.

(** The references after a callback are those before it and the ones made. *)
Lemma held_created B x' g' w' q : (∀ p, 0 <= x p) -> inv x' xd g' (res_of w') ->
  cb_done x g B x' g' -> x' q = x q + created w w' q.
Proof using I.
  intros X0 I' C. pose proof (held_live q) as Hl.
  assert (Hl' : is_live w' q = true ↔ 0 < sc_refs x' g' q).
  { pose proof (iv_sc _ _ _ _ I') as W. change (s_sc (res_of w')) with (w_sc w') in W.
    unfold is_live. split.
    - destruct (sw_scs _ !! q) as [c|] eqn:E; [|done]. intros _.
      apply (rc_live _ _ (si_refs _ _ _ (wr_inv _ _ _ _ W))) in E as [_ ?]. lia.
    - intros Hp. destruct (wraps_live W q Hp) as (c & -> & _). done. }
  pose proof (sc_refs_nonneg q I) as H0.
  assert (D : x' q = x q ∨ (sc_refs x g q = 0 ∧ x' q = x q + 1)).
  { destruct (cd_made _ _ _ _ _ C) as [E|(p & _ & Hz & E)]; [by left|]. rewrite E.
    destruct (Z.eqb_spec q p) as [->|]; cbn; [right; lia|left; lia]. }
  unfold created. destruct (is_live w q).
  - destruct D as [->|[Hz _]]; [by cbn; lia|]. destruct Hl as [Hl _]. specialize (Hl eq_refl). lia.
  - assert (Hz : sc_refs x g q = 0) by (destruct (Z.eq_dec (sc_refs x g q) 0); [done|]; assert (false = true) by (apply Hl; lia); done).
    cbn [negb andb]. destruct D as [Ex|[_ Ex]].
    + pose proof (cd_gone _ _ _ _ _ C q Hz Ex) as Hz'. destruct (is_live w' q); cbn; [|lia].
      destruct Hl' as [Hl' _]. specialize (Hl' eq_refl). lia.
    + pose proof (X0 q). assert (0 < sc_refs x' g' q) as Hp by (eapply sc_refs_own; [done|lia]).
      apply Hl' in Hp as ->. done.
Qed.
End held.

Section safe.
Context {ev : env} (Eok : env_ok ev) `{WtHandler}.
Context {wt : bool} {ex exd : Z -> Z} (EX0 : ∀ p, 0 <= ex p) (EXD0 : ∀ p, 0 <= exd p).
Context {s : sys} {g : ghost} {lk : Z -> Z}.
Context (Y : sys_inv (wt := wt) (ex := ex) (exd := exd) ev s g lk) (Hb : below (y_w s)).
#[local] Abbreviation sys_inv := (sys_inv (wt := wt) (ex := ex) (exd := exd)).
#[local] Abbreviation all_x y := (λ p, y_x y p + ex p).
#[local] Abbreviation all_xd y k := (λ p, y_xd y p + k p + exd p).

Lemma below_sc : few_refs (all_x s) g.
Proof using Y Hb. by apply (held_few (yi_inv _ _ _ _ Y)). Qed.

Lemma below_db p : db_refs (all_xd s lk) g p < 2 ^ 31.
Proof using Y Hb. by apply (held_db (yi_inv _ _ _ _ Y)). Qed.

Lemma below_tx : g_ht g + zlen (g_tx g) + zlen (g_owed g) + 1 < 2 ^ 64.
Proof using Y Hb.
  pose proof (yi_inv _ _ _ _ Y) as I. pose proof (rq_tail _ _ _ (iv_tx _ _ _ _ I)) as Ht.
  pose proof (iv_owed _ _ _ _ I) as Eo. destruct Hb as (Hb1 & _). cbn in *. rewrite Eo in Hb1. lia.
Qed.

Lemma below_rx : rx_room g (2 * zlen (g_tx g) + 1).
Proof using Y Hb. by apply (held_room (yi_inv _ _ _ _ Y)). Qed.

Lemma below_rx1 : rx_room g 1.
Proof using Y Hb. pose proof below_rx. unfold rx_room in *. lia. Qed.

Lemma below_T : g_T g <= y_bytes s.
Proof using Y. apply Y. Qed.
(** ** Every step *)

(** The step is defined and some ghost state explains the result. *)
Definition safe_step (r : option sys) : Prop :=
  ∃ s' g' lk', r = Some s' ∧ sys_inv ev s' g' lk'.

Lemma run_safe {A} (m : M A) (k : A -> world -> sys) :
  wp m (λ a w', ∃ g' lk', sys_inv ev (k a w') g' lk') (y_w s) -> safe_step (s_run s m k).
Proof using Type.
  intros (a & w' & E & g' & lk' & Y'). unfold s_run. rewrite E. cbn. by eexists _, g', lk'.
Qed.

(** Nothing but the world changed, and the same ghost state explains it. *)
Lemma same_inv w' : inv (all_x s) (all_xd s lk) g (res_of w') ->
  sys_inv ev (Sys w' (y_x s) (y_xd s) (y_marks s) (y_bytes s)) g lk.
Proof using Y. intros I. destruct Y. by split. Qed.

Lemma like_mark e e' : e_like e e' -> mark_of e' = mark_of e.
Proof using Type. by intros (p & n & ->). Qed.

(** Releases register nothing. *)
Lemma no_marks es : Forall (λ e, e_event_type e = SPSC_EVT_TX_DGRAM_RING_RELEASE) es ->
  lsum mark_of es = 0.
Proof using Type.
  induction 1 as [|e es He _ IH]; [done|]. rewrite lsum_cons, IH. unfold mark_of. by rewrite He.
Qed.

(** One more TX event. *)
Lemma tx_add_inv w' e e' : e_like e e' ->
  inv (all_x s) (all_xd s lk) (tx_add g e') (res_of w') ->
  (e_event_type e = SPSC_EVT_TX_MARK_DATAGRAM_READY -> e_stream_ctx e <> 0 -> 0 < y_xd s (e_stream_ctx e)) ->
  y_marks s + mark_of e <= 2 ^ 26 ->
  sys_inv ev (Sys w' (y_x s) (y_xd s) (y_marks s + mark_of e) (y_bytes s)) (tx_add g e') lk.
Proof using Y EX0 EXD0.
  intros He I Hm Ht. pose proof (like_mark _ _ He) as Em. destruct Y.
  split; cbn [y_w y_x y_xd y_marks y_bytes tx_add with_tx g_tx g_owed g_puts g_T]; try done.
  - eapply marks_snoc; [..|exact yi_marks0].
    + intros p. pose proof (holds_range is_release p e') as Hr.
      change (holds is_release p e') with (rel_ref p e') in Hr. cbn beta. lia.
    + destruct He as (q & n & ->). intros Et Hz. specialize (Hm Et Hz). cbn in *.
      specialize (yi_lk0 (e_stream_ctx e)).
      pose proof (lsum_nonneg (owed_ref (e_stream_ctx e)) (g_owed g) (λ e, c_bool_nonneg _)). lia.
  - rewrite lsum_app, lsum_one, Em. lia.
Qed.

(** The state explained by new ghost queues, Python's holdings as they were. *)
Lemma ghost_inv w' g' bytes : inv (all_x s) (all_xd s lk) g' (res_of w') ->
  marks_ok (λ p, y_xd s p + lk p) (g_owed g') (g_tx g') -> Forall owed_good (g_owed g') ->
  g_puts g' + lsum mark_of (g_tx g') <= g_puts g + lsum mark_of (g_tx g) ->
  g_T g' <= g_T g + bytes -> g_wt g' = g_wt g ->
  sys_inv ev (Sys w' (y_x s) (y_xd s) (y_marks s) (y_bytes s + bytes)) g' lk.
Proof using Y. intros I Hm Ho Hp HT Hw. destruct Y. split; try done; cbn in *; lia || congruence. Qed.

Lemma ghost_inv0 w' g' : inv (all_x s) (all_xd s lk) g' (res_of w') ->
  marks_ok (λ p, y_xd s p + lk p) (g_owed g') (g_tx g') -> Forall owed_good (g_owed g') ->
  g_puts g' + lsum mark_of (g_tx g') <= g_puts g + lsum mark_of (g_tx g) -> g_T g' = g_T g ->
  g_wt g' = g_wt g -> sys_inv ev (Sys w' (y_x s) (y_xd s) (y_marks s) (y_bytes s)) g' lk.
Proof using Y. intros I Hm Ho Hp HT Hw. destruct Y. split; try done; cbn in *; lia || congruence. Qed.

(** A step that leaves the invariant's resources alone. *)
Lemma step_same {A} (m : M A) :
  wp m (λ _ w', inv (all_x s) (all_xd s lk) g (res_of w')) (y_w s) ->
  safe_step (s_run s m (λ _ w, Sys w (y_x s) (y_xd s) (y_marks s) (y_bytes s))).
Proof using Y EX0 EXD0.
  intros Hm. apply run_safe. eapply wp_mono; [exact Hm|]. intros a w' I. exists g, lk. by apply same_inv.
Qed.

Lemma step_idle {A} (m : M A) : idle m ->
  safe_step (s_run s m (λ _ w, Sys w (y_x s) (y_xd s) (y_marks s) (y_bytes s))).
Proof using Y EX0 EXD0. intros Hm. apply step_same, Hm. intros a w' ->. apply Y. Qed.

Lemma push_safe e data : tx_good wt e -> is_release (e_event_type e) = false ->
  (aiopquic_tx_event_owns_sc (e_event_type e) = true -> e_stream_ctx e <> 0 -> 0 < y_x s (e_stream_ctx e)) ->
  (e_event_type e = SPSC_EVT_TX_MARK_DATAGRAM_READY -> e_stream_ctx e <> 0 -> 0 < y_xd s (e_stream_ctx e)) ->
  y_marks s + mark_of e <= 2 ^ 26 -> safe_step (sys_step ev (PyPush e data) s).
Proof using Y Hb Eok EX0 EXD0.
  cbn [sys_step]. intros Hg Hr Hx Hm Ht. rewrite <- (yi_wt _ _ _ _ Y) in Hg. apply run_safe. pose proof below_tx.
  eapply wp_mono; [apply (sp_tx_push_sc Eok (yi_inv _ _ _ _ Y) e data Hg Hr)|]; [|apply below_sc| |].
  { unfold tx_room. lia. }
  { intros Ho Hz. specialize (Hx Ho Hz). specialize (EX0 (e_stream_ctx e)). lia. }
  intros rc w' [(_ & e' & He & I')|(_ & I')].
  - exists (tx_add g e'), lk. by apply tx_add_inv.
  - exists g, lk. apply same_inv in I'. destruct I'. split; try done; cbn in *.
    pose proof (mark_nonneg e). lia.
Qed.

Lemma step_push e data : op_ok ev (PyPush e data) s -> safe_step (sys_step ev (PyPush e data) s).
Proof using Y Hb Eok EX0 EXD0.
  cbn [op_ok]. intros (Hg & Hr & Hx & Hm & Ht). by apply push_safe; [apply tx_good_raw|..].
Qed.

Lemma step_take : safe_step (sys_step ev PyTake s).
Proof using Y EX0 EXD0.
  apply run_safe. eapply wp_mono; [apply (sp_rx_take (yi_inv _ _ _ _ Y))|].
  intros o w' [(-> & ->)|(e & q & -> & Eq & I')].
  - exists g, lk. destruct Y. split; try done; cbn in *.
    + eapply inv_ext; [| |done]; [|done]. intros p. cbn. lia.
    + intros p. specialize (yi_x0 p). lia.
  - exists (rx_popped g q), lk. destruct Y. split; try done; cbn in *.
    { eapply inv_ext; [| |exact I']; [|done]. intros p. cbn. lia. }
    intros p. specialize (yi_x0 p). pose proof (holds_range aiopquic_rx_event_owns_sc p e) as Hr.
    change (holds aiopquic_rx_event_owns_sc p e) with (rx_ref p e) in Hr. lia.
Qed.

Lemma step_credit cnx id p : op_ok ev (PyCredit cnx id p) s -> safe_step (sys_step ev (PyCredit cnx id p) s).
Proof using Y Hb Eok EX0 EXD0.
  cbn [op_ok sys_step]. intros (Hc & Hp). apply run_safe. pose proof below_tx.
  eapply wp_mono; [apply (sp_fc_credit Eok (yi_inv _ _ _ _ Y) cnx id p Hc)|];
    [|apply below_sc|destruct Hp; [by left|right; specialize (EX0 p); lia]|].
  { unfold tx_room. lia. }
  intros [] w' [I'|(e' & He & I')]; [exists g, lk; by apply same_inv|].
  exists (tx_add g e'), lk.
  pose proof (like_mark _ _ He) as Em. change (mark_of (sc_entry _ _ _ _ _)) with 0 in Em.
  apply ghost_inv0; try done; try apply Y; cbn [tx_add with_tx g_tx g_owed g_puts].
  - eapply marks_snoc; [..|apply (yi_marks _ _ _ _ Y)].
    + intros q. pose proof (holds_range is_release q e') as Hr.
      change (holds is_release q e') with (rel_ref q e') in Hr. cbn beta. lia.
    + intros Et. unfold mark_of in Em. rewrite Et in Em. done.
  - rewrite lsum_app, lsum_one, Em. lia.
Qed.

Lemma step_sc o : op_ok ev (PySc o) s -> safe_step (sys_step ev (PySc o) s).
Proof using Y Hb Eok EX0 EXD0.
  cbn [op_ok sys_step]. intros (HB & Ho). apply run_safe.
  pose proof (yi_inv _ _ _ _ Y) as I. pose proof (yi_T _ _ _ _ Y). pose proof (yi_x _ _ _ _ Y) as X0.
  assert (F : ∀ y x' w', inv y (all_xd s lk) g (res_of w') -> (∀ p, y p = x' p + ex p) ->
    (∀ p, 0 <= x' p) -> sys_inv ev (Sys w' x' (y_xd s) (y_marks s) (y_bytes s + 0)) g lk).
  { intros y x' w' I' Ey X'. destruct Y. split; try done; cbn in *; [|lia]. by eapply inv_ext. }
  destruct o as [p|p|p|a now during p data capacity fin| | |]; try done; cbn [op_refs op_bytes] in *.
  - eapply wp_mono; [apply (sp_sc_create I p)|].
    { destruct Ho as [?|Hl]; [by left|right]. unfold is_live in Hl. by destruct (sw_scs _ !! p). }
    intros [] w' I'. exists g, lk. eapply F; [exact I'| |].
    { intros q. cbn beta. destruct (p =? 0); lia. }
    intros q. specialize (X0 q). destruct (p =? 0); [lia|]. pose proof (c_bool_nonneg (q =? p)). lia.
  - pose proof (EX0 p). eapply wp_mono; [apply (sp_sc_ref I p); [lia|apply below_sc]|].
    intros [] w' I'. exists g, lk. eapply F; [exact I'|intros q; unfold inc; lia|]. intros q. specialize (X0 q).
    pose proof (c_bool_nonneg (q =? p)). lia.
  - pose proof (EX0 p). eapply wp_mono; [apply (sp_sc_destroy I p); lia|].
    intros [] w' I'. exists g, lk. eapply F; [exact I'|intros q; unfold dec; lia|]. intros q. specialize (X0 q).
    destruct (Z.eqb_spec q p) as [->|]; cbn; lia.
  - assert (Ho' : is_send (all_x s) (ScSend a now during p data capacity fin)).
    { eapply is_send_mono; [|exact Ho]. intros q. specialize (EX0 q). cbn. lia. }
    eapply wp_mono; [apply (sp_sc_send I _ Ho'); cbn; lia|].
    intros [] w' (T & I' & HT). exists (with_T g T), lk. apply ghost_inv; try done; try apply Y.
    cbn in *. lia.
Qed.

Lemma step_ring p ok blk capacity max_record : op_ok ev (PyRing p ok blk capacity max_record) s ->
  safe_step (sys_step ev (PyRing p ok blk capacity max_record) s).
Proof using Y EX0 EXD0.
  cbn [op_ok sys_step]. intros (Hp & Hfree & Hc & Hm & Hblk). apply run_safe.
  eapply wp_mono; [by apply (sp_dgram_create (yi_inv _ _ _ _ Y))|].
  intros r w' [(-> & I')|(-> & I')]; exists g, lk; cbn [Z.eqb].
  - by apply same_inv.
  - rewrite (proj2 (Z.eqb_neq p 0)) by done. destruct Y. split; try done; cbn [y_w y_x y_xd y_marks y_bytes].
    + eapply inv_ext; [| |exact I']; [done|]. intros q. unfold inc. cbn. lia.
    + eapply marks_mono; [|exact yi_marks0]. intros q. unfold inc. pose proof (c_bool_nonneg (q =? p)). cbn. lia.
    + intros q. specialize (yi_xd0 q). unfold inc. pose proof (c_bool_nonneg (q =? p)). lia.
Qed.

Lemma step_record db data : op_ok ev (PyRecord db data) s -> safe_step (sys_step ev (PyRecord db data) s).
Proof using Y EX0 EXD0.
  cbn [op_ok sys_step]. intros (Hp & Hd). apply step_same.
  apply (sp_dgram_push (yi_inv _ _ _ _ Y)); [|done]. pose proof (yi_lk _ _ _ _ Y db). specialize (EXD0 db). lia.
Qed.

Lemma flushed_inv w' g' : flushed g g' -> inv (all_x s) (all_xd s lk) g' (res_of w') ->
  sys_inv ev (Sys w' (y_x s) (y_xd s) (y_marks s) (y_bytes s)) g' lk.
Proof using Y EX0 EXD0.
  intros F I'. pose proof (flushed_marks _ _ _ F (yi_marks _ _ _ _ Y)) as Hm.
  destruct F as (es & n & -> & Fes & _). cbn in *. apply ghost_inv0; try done; cbn.
  - apply Forall_drop, Y.
  - rewrite lsum_app. rewrite (no_marks es Fes). lia.
Qed.

Lemma step_flush : safe_step (sys_step ev PyFlush s).
Proof using Y Hb Eok EX0 EXD0.
  apply run_safe. pose proof below_tx. eapply wp_mono; [apply (sp_flush Eok _ _ g _ (yi_inv _ _ _ _ Y))|].
  - apply Y.
  - lia.
  - intros [] w' (g' & I' & F). exists g', lk. by apply flushed_inv.
Qed.

Lemma step_release cnx db : op_ok ev (PyRelease cnx db) s -> safe_step (sys_step ev (PyRelease cnx db) s).
Proof using Y Hb Eok EX0 EXD0.
  cbn [op_ok sys_step]. intros (Ho & Ht & Hp). apply run_safe. pose proof below_tx.
  pose proof (yi_lk _ _ _ _ Y db). pose proof (EXD0 db).
  eapply wp_mono; [apply (sp_release Eok _ _ g _ cnx db (yi_inv _ _ _ _ Y)); [apply Y|done|done|lia|lia]|].
  intros [] w' (lost & xd' & g' & I' & R).
  exists g', (λ p, lk p + if lost then owed_ref p (cnx, db) else 0).
  assert (Exd : ∀ p, xd' p = dec (y_xd s) db p + (lk p + if lost then owed_ref p (cnx, db) else 0) + exd p).
  { intros p. rewrite (rl_xd _ _ _ _ _ _ R p). unfold dec, owed_ref. cbn.
    rewrite (Z.eqb_sym db p). destruct lost; lia. }
  pose proof (rl_marks _ _ _ _ _ _ R _ (yi_marks _ _ _ _ Y)) as Hm.
  assert (Em : ∀ p, y_xd s p + lk p - (if lost then 0 else owed_ref p (cnx, db)) =
    dec (y_xd s) db p + (lk p + if lost then owed_ref p (cnx, db) else 0)).
  { intros p. specialize (Exd p). rewrite (rl_xd _ _ _ _ _ _ R p) in Exd. lia. }
  destruct R.
  destruct rl_tx as (es & Etx & Fes). destruct Y. split; cbn [y_w y_x y_xd y_marks y_bytes]; try done; auto.
  - intros p. specialize (yi_lk0 p). destruct lost; [|lia]. pose proof (c_bool_nonneg (db =? p)).
    unfold owed_ref. cbn. lia.
  - eapply inv_ext; [| |exact I']; [done|exact Exd].
  - eapply marks_mono; [|exact Hm]. intros p. cbn beta. rewrite Em. done.
  - intros p. specialize (yi_xd0 p). unfold dec. destruct (Z.eqb_spec p db) as [->|]; cbn; lia.
  - rewrite rl_puts, Etx, lsum_app. rewrite (no_marks es Fes). lia.
  - lia.
  - intros Hall p. rewrite yi_lost0 by done. destruct lost; [|done].
    destruct (rl_lost eq_refl) as [t Et]. by rewrite Hall in Et.
  - congruence.
Qed.

(** Without WebTransport the loop's contract is met. *)
Lemma loop_full mode : wt = false -> ∃ s' g', sys_step ev (WkLoop mode) s = Some s' ∧ sys_inv ev s' g' lk ∧
  looped (all_x s) g g' ∧ (drains mode (g_tx g) -> g_tx g' = []).
Proof using Y Hb Eok EX0 EXD0.
  intros Ew. pose proof (yi_inv _ _ _ _ Y) as I.
  pose proof (rq_count _ _ _ (iv_tx _ _ _ _ I)) as Ec.
  change (s_tx (res_of (y_w s))) with (b_tx_event_ring (w_ctx (y_w s))) in Ec.
  assert (XD0 : ∀ p, 0 <= all_xd s lk p).
  { intros p. pose proof (yi_lk _ _ _ _ Y p). pose proof (yi_xd _ _ _ _ Y p). pose proof (EXD0 p). cbn. lia. }
  assert (X0 : ∀ p, 0 <= all_x s p) by (intros p; pose proof (yi_x _ _ _ _ Y p); specialize (EX0 p); cbn; lia).
  destruct (sp_loop_cb Eok (all_x s) (all_xd s lk) g (y_w s) (S (Z.to_nat (zlen (g_tx g)))) mode X0 XD0 I)
    as (r & w' & E & g' & I' & L & D).
  - eapply marks_mono; [|apply (yi_marks _ _ _ _ Y)]. intros p. pose proof (EXD0 p). cbn. lia.
  - split; [apply below_rx| |apply below_sc|apply below_db|by rewrite (yi_wt _ _ _ _ Y)].
    pose proof (yi_puts _ _ _ _ Y). pose proof (yi_total _ _ _ _ Y). lia.
  - lia.
  - cbn [sys_step]. unfold s_run. rewrite Ec, E. cbn [mbind option_bind].
    eexists _, g'. split; [done|]. split; [|done]. destruct L as [L1 L2 L3 L4 L5 L6 L7 L8].
    apply ghost_inv0; try done.
    + rewrite L4. destruct L1 as [[-> _]|[-> _]]; [by apply Y|done].
    + rewrite L4. apply Y.
Qed.

(** A stream callback, from any state in which the queues and stores are sound. *)
Lemma stream_kept x xd g0 B w race cnx id bytes length data fe p :
  inv x xd g0 (res_of w) -> (∀ p, 0 <= x p) -> below w -> g_T g0 <= B ->
  2 <= cnx -> Forall (is_send x) race -> B + run_bytes race < 2 ^ 64 ->
  (p = 0 ∨ is_live w p = true ∨
   (fe <> picoquic_callback_prepare_to_send ∧
    (closing_now (ev := ev) cnx w = true ∨
     aiopquic_rx_event_owns_sc (u32 (aiopquic_map_event fe)) = false))) ->
  wp (aiopquic_stream_cb ev race cnx id bytes length data fe p) (λ _ w', ∃ x' g',
    inv x' xd g' (res_of w') ∧ (∀ q, x' q = x q + created w w' q) ∧
    cb_done x g0 (run_bytes race) x' g') w.
Proof using Eok.
  intros I X0 Hlow HT Hc Hrace HB Hp. pose proof (held_room I Hlow) as Hr.
  eapply wp_mono; [apply (sp_stream_cb Eok x g0 w race cnx id bytes length data fe p I X0)|].
  - unfold rx_room in *. lia.
  - by apply (held_few I).
  - done.
  - unfold cb_ctx_ok, ctx_live, is_event. case_bool_decide as Hfe.
    + destruct Hp as [?|[Hl|[Hne _]]]; [by left|right; by apply (held_live I)|done].
    + destruct Hp as [?|[Hl|[_ [Hcl|Hown]]]].
      * right. auto.
      * right. intros _. right. by apply (held_live I).
      * by left.
      * right. by rewrite Hown.
  - done.
  - lia.
  - intros r w' (x' & g' & I' & C). exists x', g'. split; [done|]. split; [|done].
    intros q. by eapply (held_created I).
Qed.

Lemma step_stream race cnx id bytes length data fe p : op_ok ev (WkStream race cnx id bytes length data fe p) s ->
  safe_step (sys_step ev (WkStream race cnx id bytes length data fe p) s).
Proof using Y Hb Eok EX0 EXD0.
  cbn [op_ok sys_step]. intros (Hc & Hrace & HB & Hp). apply run_safe.
  pose proof (yi_T _ _ _ _ Y) as HT. pose proof (yi_x _ _ _ _ Y) as X0.
  assert (AX0 : ∀ p, 0 <= all_x s p) by (intros q; specialize (X0 q); specialize (EX0 q); cbn; lia).
  assert (Hrace' : Forall (is_send (all_x s)) race).
  { eapply Forall_impl; [exact Hrace|]. intros o. apply is_send_mono. intros q. specialize (EX0 q). cbn. lia. }
  eapply wp_mono; [by apply (stream_kept _ _ _ _ _ _ _ _ _ _ _ _ _ (yi_inv _ _ _ _ Y) AX0 Hb HT)|].
  intros r w' (x' & g' & I' & Ex & C). exists g', lk.
  destruct C. destruct Y. split; cbn [y_w y_x y_xd y_marks y_bytes]; try done.
  - eapply inv_ext; [| |exact I']; [|done]. intros q. rewrite Ex. cbn. lia.
  - rewrite cd_owed, cd_tx. done.
  - by rewrite cd_owed.
  - intros q. specialize (X0 q). unfold created. pose proof (c_bool_nonneg (negb (is_live (y_w s) q) && is_live w' q)). lia.
  - rewrite cd_tx. lia.
  - lia.
  - congruence.
Qed.

Lemma idle_alpn_tokens room : ∀ cursor arr, idle (alpn_tokens ev room cursor arr).
Proof using Type.
  induction room as [|room IH]; intros cursor arr; cbn [alpn_tokens]; [idle_tac|].
  destruct (aiopquic_alpn_next_token 256 cursor) as [[n tok] c]. idle_tac.
Qed.

Lemma idle_alpn csv : idle (aiopquic_ctx_set_alpn_list ev csv).
Proof using Type.
  unfold aiopquic_ctx_set_alpn_list. pose proof idle_alpn_tokens.
  apply idle_bind; [by apply idle_setb|]. intros []. destruct csv as [[|c csv]|]; [idle_tac| |idle_tac].
  apply idle_bind; [idle_tac|]. intros t. apply idle_if; [idle_tac|].
  apply idle_bind; [auto|]. intros [[|a arr]|]; [idle_tac|by apply idle_setb|idle_tac].
Qed.

(** Any operation its caller may make is defined and keeps the invariant; the loop,
    whose handlers of WebTransport are anything here, without WebTransport. *)
Lemma step_safe o : (∀ mode, o = WkLoop mode -> wt = false) -> op_ok ev o s -> safe_step (sys_step ev o s).
Proof using Y Hb Eok EX0 EXD0.
  pose proof (yi_inv _ _ _ _ Y) as I. destruct o; intros Hw Hok.
  - by apply step_push.
  - apply step_take.
  - apply step_same, (sp_clear_rx I). pose proof below_rx1. unfold rx_room in *. lia.
  - by apply step_credit.
  - cbn in Hok. pose proof (EX0 p). apply step_same, (sp_sc_flag I). lia.
  - destruct Hok as (? & ? & ?). pose proof (EX0 p). apply step_same, (sp_rx_read I); [lia|done..].
  - by apply step_sc.
  - by apply step_ring.
  - by apply step_record.
  - by apply step_release.
  - apply step_flush.
  - apply step_idle, idle_arm.
  - apply step_idle, idle_alpn.
  - apply step_idle. by apply idle_setb.
  - destruct (loop_full mode (Hw _ eq_refl)) as (s' & g' & ? & ? & _). by exists s', g', lk.
  - by apply step_stream.
Qed.
End safe.

(** ** The beginning of a run *)

(** A ring that could be created has a power of two slots. *)
Lemma ring_created ok ok' capacity r : 0 < capacity < 2 ^ 32 ->
  spsc_ring_create ok ok' capacity = Some r -> rq_rep r 0 [] ∧ r_capacity r = capacity.
Proof.
  intros Hc E. assert (Hp : is_pow2 capacity).
  { unfold spsc_ring_create in E. rewrite (u32_small (capacity - 1)) in E by lia.
    destruct (Z.eqb_spec (Z.land capacity (capacity - 1)) 0) as [Hl|]; [|discriminate E].
    apply land_pred_zero in Hl; [|lia]. exists (Z.log2 capacity). split; [|done].
    split; [apply Z.log2_nonneg|].
    pose proof (proj1 (Z.log2_lt_pow2 capacity 32 ltac:(lia)) ltac:(lia)). lia. }
  destruct (spsc_ring_create_spec capacity Hp) as (r' & E' & R & Ec & _).
  unfold spsc_ring_create in E, E'. destruct (negb _); [done|].
  destruct ok, ok'; try discriminate E. cbn [negb] in *.
  injection E as <-. injection E' as <-. done.
Qed.

(** The percentage in force lies between 0 and 100, whatever the arguments and the
    environment say. *)
Lemma low_water_below a cap pct : 0 < cap < 2 ^ 32 -> 0 <= pct < 100 ->
  0 <= tx_low_water a cap pct < cap.
Proof.
  intros Hc Hp.
  assert (∃ v, 0 <= v < 100 ∧ tx_low_water a cap pct = u32 (cap * v) / 100) as (v & Hv & ->).
  { unfold tx_low_water. destruct (ca_wake_pct a) as [[|c s]|]; eauto.
    destruct (Z.gtb_spec (atoi (String c s)) 0); cbn [andb]; eauto.
    destruct (Z.ltb_spec (atoi (String c s)) 100); eexists; (split; [|done]); lia. }
  assert (Hm : 0 <= u32 (cap * v) <= cap * v).
  { unfold u32. split; [apply Z.mod_pos_bound; lia|apply Z.mod_le; nia]. }
  split; [apply Z.div_pos; lia|]. apply Z.div_lt_upper_bound; nia.
Qed.

Lemma ctx_created a tx_cap rx_cap pct b : 0 <= tx_cap < 2 ^ 32 -> 0 <= rx_cap < 2 ^ 32 ->
  0 <= pct -> aiopquic_ctx_create a tx_cap rx_cap pct = Some b ->
  rq_rep (b_tx_event_ring b) 0 [] ∧ rq_rep (b_rx_event_ring b) 0 [] ∧
  0 <= b_tx_event_ring_low_water b < r_capacity (b_tx_event_ring b).
Proof.
  intros Ht Hr Hp. unfold aiopquic_ctx_create.
  set (txc := if tx_cap =? 0 then _ else tx_cap). set (rxc := if rx_cap =? 0 then _ else rx_cap).
  set (p := if (pct =? 0) || _ then _ else pct).
  assert (0 < txc < 2 ^ 32) by (unfold txc; destruct (Z.eqb_spec tx_cap 0); [done|lia]).
  assert (0 < rxc < 2 ^ 32) by (unfold rxc; destruct (Z.eqb_spec rx_cap 0); [done|lia]).
  assert (0 <= p < 100).
  { unfold p. destruct (Z.eqb_spec pct 0); [done|]. cbn. rewrite Z.geb_leb.
    destruct (Z.leb_spec 100 pct); [done|lia]. }
  destruct (ca_ctx a); [|done]. cbn [negb].
  destruct (spsc_ring_create (ca_rx_ring a) _ rxc) as [rx|] eqn:Erx; [|done].
  destruct (spsc_ring_create (ca_tx_ring a) _ txc) as [tx|] eqn:Etx; [|done].
  apply ring_created in Erx as [Rx Crx]; [|done]. apply ring_created in Etx as [Rt Ctx]; [|done].
  destruct (ca_eventfd a); [|done]. intros [= <-]. cbn. split; [done|]. split; [done|].
  rewrite Ctx. by apply low_water_below.
Qed.

Definition ghost0 (wt : bool) : ghost := Ghost 0 [] 0 [] [] [] 0 0 wt.

(** [aiopquic_ctx_create] and the run's other parameters, in their types' range. *)
Record start_ok (tx_cap rx_cap pct rx_data_cap : Z) : Prop := {
  so_tx : 0 <= tx_cap < 2 ^ 32;
  so_rx : 0 <= rx_cap < 2 ^ 32;
  so_pct : 0 <= pct < 2 ^ 32;
  so_data : 0 <= rx_data_cap < 2 ^ 32
}.

Definition nobody : Z -> Z := λ _, 0.

Lemma start_inv wt ev a tx_cap rx_cap pct rx_data_cap s : start_ok tx_cap rx_cap pct rx_data_cap ->
  sys_start a tx_cap rx_cap pct rx_data_cap = Some s ->
  sys_inv (wt := wt) (ex := nobody) (exd := nobody) ev s (ghost0 wt) (λ _, 0).
Proof.
  intros [Ht Hr Hp Hd]. unfold sys_start.
  destruct (aiopquic_ctx_create a tx_cap rx_cap pct) as [b|] eqn:E; [|done].
  pose proof E as E2. apply ctx_created in E2 as (Rt & Rr & Hl); [|lia..].
  cbn [mbind option_bind]. intros [= <-].
  assert (Hb : b_rx_overflow b = spsc_overflow_init ∧ b_deferred_resets b = [] ∧
    b_dgram_table b = dgram_table0 ∧ b_dgram_release_owed b = [] ∧
    b_worker_trace b = wake_trace0 ∧ b_asyncio_trace b = wake_trace0).
  { revert E. unfold aiopquic_ctx_create. destruct (negb (ca_ctx a)); [done|].
    destruct (spsc_ring_create _ _ _); [|done]. destruct (spsc_ring_create _ _ _); [|done].
    destruct (negb _); [done|]. by intros [= <-]. }
  destruct Hb as (Eo & Ed & Et & Ew & E1 & E2). split; cbn; try done; try lia.
  split; cbn; rewrite ?Eo, ?Ed, ?Et, ?Ew, ?E1, ?E2; try done; try (by constructor); try lia.
  - exists [], []. by split_and!.
  - split; [apply NoDup_nil_2|intros p [? Hp']; done|].
    intros e He. by apply elem_of_nil in He.
  - split; [|intros p sc E'; done|intros p Hin; by apply elem_of_nil in Hin].
    eapply sc_inv_ext; [|apply sc_inv0]. intros p. done.
  - split; try (cbn; lia).
    + exists ∅. split; [by left|]. split; [|done]. apply rc_ok_empty. intros p.
      rewrite refs_empty. done.
    + intros p b' E'. done.
Qed.

(** ** Well-formed data *)

(** A buffer of [len] cells with free-running 64-bit cursors: a power of two, its mask,
    and no more between the cursors than it holds. *)
Record cursors_wf (len cap mask head tail : Z) : Prop := {
  cw_len : len = cap;
  cw_pow2 : is_pow2 cap;
  cw_mask : mask = cap - 1;
  cw_head : 0 <= head < 2 ^ 64;
  cw_tail : 0 <= tail < 2 ^ 64;
  cw_used : u64 (tail - head) <= cap
}.

Definition ring_wf (r : spsc_ring) : Prop :=
  cursors_wf (zlen (r_entries r)) (r_capacity r) (r_mask r) (r_head r) (r_tail r).
Definition buf_wf (sb : stream_buf) : Prop :=
  cursors_wf (zlen (sb_buf sb)) (sb_capacity sb) (sb_mask sb) (sb_head sb) (sb_tail sb).
Definition dgram_wf (b : dgram_buf) : Prop :=
  cursors_wf (zlen (db_buf b)) (db_capacity b) (db_mask b) (db_head b) (db_tail b) ∧
  2 * (AIOPQUIC_DGRAM_REC_HDR + db_max_record b) <= db_capacity b.
Definition wrapper_wf (c : stream_ctx) : Prop :=
  0 < sc_refcount c < 2 ^ 32 ∧ 0 <= sc_tx_reliable_size c < 2 ^ 64 ∧
  (∀ tx, sc_tx c = Some tx -> buf_wf tx) ∧ (∀ rx, sc_rx c = Some rx -> buf_wf rx).
(** Room is left in the table, so that a search ends. *)
Definition table_wf (t : dgram_table) : Prop :=
  t = dgram_table0 ∨
  (is_pow2 (t_cap t) ∧ zlen (t_slots t) = t_cap t ∧ t_mask t = t_cap t - 1 ∧
   0 <= t_live t <= t_used t ∧ t_used t * 10 < t_cap t * 7).

Lemma ring_rep_wf r H q : rq_rep r H q -> ring_wf r.
Proof.
  intros R. pose proof (rq_start _ _ _ R). pose proof (rq_nowrap _ _ _ R). pose proof (rq_used _ _ _ R).
  pose proof (rq_fit _ _ _ R). split; [apply (rq_ring _ _ _ R)|apply R|apply R| | |lia].
  - rewrite (rq_head _ _ _ R). lia.
  - rewrite (rq_tail _ _ _ R). lia.
Qed.

Lemma buf_rep_wf sb H q : sb_rep sb H q -> buf_wf sb.
Proof.
  intros R. pose proof (sb_rep_cap _ _ _ R). pose proof (sb_rep_fit _ _ _ R).
  split; [apply (sr_ring _ _ _ R)|apply R|apply R| | |].
  - rewrite (sr_head _ _ _ R). apply u64_range.
  - rewrite (sr_tail _ _ _ R). apply u64_range.
  - rewrite (sr_tail _ _ _ R), (sr_head _ _ _ R), u64_sub_u64.
    rewrite u64_small by lia. lia.
Qed.

Lemma dgram_rep_wf b H recs : db_rep b H recs -> dgram_wf b.
Proof.
  intros R. split; [|apply R]. pose proof (dr_distance R). pose proof (dr_fit R).
  split; [apply (dr_ring _ _ _ R)|apply R|apply R| | |lia].
  - rewrite (dr_head _ _ _ R). apply u64_range.
  - rewrite (dr_tail _ _ _ R). apply u64_range.
Qed.

Lemma table_rep_wf t m : tbl_rep t m -> table_wf t.
Proof.
  intros [[-> _]|[S _ Hm El _ Eu Hl]]; [by left|right]. destruct S as [Hp Hlen _ _ _ _].
  split_and!; try done; rewrite ?El, ?Eu.
  - apply countb_range.
  - apply countb_le. intros s. unfold slot_live, slot_used. by intros [? _]%andb_true_iff.
Qed.

(** ** Runs *)

Section runs.
Context {ev : env} (Eok : env_ok ev) `{WtHandler}.
Context {a : ctx_alloc} {tx_cap rx_cap pct rx_data_cap : Z} {s0 : sys}.
Context (Hok : start_ok tx_cap rx_cap pct rx_data_cap).
Context (Hstart : sys_start a tx_cap rx_cap pct rx_data_cap = Some s0).

Lemma nobody_nonneg p : 0 <= nobody p.
Proof using Type. done. Qed.

Lemma reach_inv s : reach ev s0 s ->
  ∃ g lk, sys_inv (wt := false) (ex := nobody) (exd := nobody) ev s g lk.
Proof using Eok Hok Hstart.
  induction 1 as [|s1 o s2 _ IH Hb Ho Es].
  - exists (ghost0 false), (λ _, 0). by eapply start_inv.
  - destruct IH as (g & lk & Y).
    destruct (step_safe Eok nobody_nonneg nobody_nonneg Y Hb o (λ _ _, eq_refl) Ho) as (s' & g' & lk' & E & Y').
    simplify_eq. eauto.
Qed.

(** The invariant as the raw bridge has it: every reference is Python's or the bridge's. *)
Lemma raw_inv s g lk : sys_inv (wt := false) (ex := nobody) (exd := nobody) ev s g lk ->
  inv (y_x s) (λ p, y_xd s p + lk p) g (res_of (y_w s)).
Proof using Type.
  intros Y. eapply inv_ext; [| |exact (yi_inv _ _ _ _ Y)]; intros p; unfold nobody; lia.
Qed.

(** C1. Memory safety of the bridge.  From creation on, whatever Python calls and
    whatever callbacks picoquic makes, in whatever order, a further call its caller
    may make is defined: no read or write of a freed or foreign block, no counter
    of a freed object touched, no slot or byte outside its array, no loop cut short. *)
Theorem bridge_memory_safe s o : reach ev s0 s -> below (y_w s) -> op_ok ev o s ->
  is_Some (sys_step ev o s).
Proof using Eok Hok Hstart.
  intros Hr Hb Ho. destruct (reach_inv s Hr) as (g & lk & Y).
  destruct (step_safe Eok nobody_nonneg nobody_nonneg Y Hb o (λ _ _, eq_refl) Ho) as (s' & _ & _ & -> & _). eauto.
Qed.

(** Every counter is the number of holders.  In every reachable state each
    wrapper in memory has as its reference count what Python holds plus the queued
    TX and RX events that carry it plus the resets held for it, a wrapper with no
    holder is gone, and the payload blocks in memory are those of the queued
    events, each once and of the announced length. *)
Theorem bridge_references_exact s : reach ev s0 s ->
  ∃ ht hr qt qr, rq_rep (b_tx_event_ring (w_ctx (y_w s))) ht qt ∧
    rq_rep (b_rx_event_ring (w_ctx (y_w s))) hr qr ∧
    let rx := qr ++ o_nodes (b_rx_overflow (w_ctx (y_w s))) in
    let n p := y_x s p + lsum (tx_ref p) qt + lsum (rx_ref p) rx
               + lsum (def_ref p) (b_deferred_resets (w_ctx (y_w s))) in
    (∀ p c, sw_scs (w_sc (y_w s)) !! p = Some c -> sc_refcount c = n p ∧ 0 < n p) ∧
    (∀ p, sw_scs (w_sc (y_w s)) !! p = None -> n p = 0) ∧
    heap_ok (w_heap (y_w s)) (rx ++ qt).
Proof using Eok Hok Hstart.
  intros Hr. destruct (reach_inv s Hr) as (g & lk & Y). destruct (raw_inv _ _ _ Y).
  destruct iv_rx as (q1 & q2 & Rx & En & _ & Eq). cbn in *.
  exists (g_ht g), (g_hr g), (g_tx g), q1. rewrite En, <- Eq, iv_def.
  destruct (si_refs _ _ _ (wr_inv _ _ _ _ iv_sc)) as [Rl Rd _].
  split_and!; [done|done| | |done].
  - intros p c E. destruct (Rl p c E) as [Ec ?]. split; [exact Ec|]. unfold sc_refs in *. lia.
  - intros p E. exact (Rd p E).
Qed.

(** C36. The data stays well formed.  In every reachable state the two event rings, the
    byte rings of every wrapper and every datagram ring have power-of-two buffers of
    their capacity, the right mask, 64-bit cursors and at most their capacity between
    them; a datagram ring has room for two of its largest records; reference counts are
    positive 32-bit words; the connection table keeps room for a search to end; and the
    wake traces have their 128 entries. *)
Theorem bridge_well_formed s : reach ev s0 s -> below (y_w s) ->
  let b := w_ctx (y_w s) in
  ring_wf (b_tx_event_ring b) ∧ ring_wf (b_rx_event_ring b) ∧
  b_tx_event_ring_low_water b < r_capacity (b_tx_event_ring b) ∧
  (∀ p c, sw_scs (w_sc (y_w s)) !! p = Some c -> wrapper_wf c) ∧
  (∀ p d, rs_rings (w_rs (y_w s)) !! p = Some d -> dgram_wf d) ∧
  table_wf (b_dgram_table b) ∧
  length (wt_e (b_worker_trace b)) = 128%nat ∧ length (wt_e (b_asyncio_trace b)) = 128%nat.
Proof using Eok Hok Hstart.
  intros Hr Hb b. destruct (reach_inv s Hr) as (g & lk & Y). pose proof (raw_inv _ _ _ Y) as I.
  destruct (iv_rx _ _ _ _ I) as (q1 & q2 & Rx & _). pose proof (iv_sc _ _ _ _ I) as W.
  destruct (iv_db _ _ _ _ I) as [(m & T & _) _ _ _ Hdb]. pose proof (iv_traces _ _ _ _ I) as Ht.
  injection Ht as Ht1 Ht2. split_and!; try done.
  - eapply ring_rep_wf, (iv_tx _ _ _ _ I).
  - by eapply ring_rep_wf.
  - apply (iv_low _ _ _ _ I).
  - intros p c E. destruct (rc_live _ _ (si_refs _ _ _ (wr_inv _ _ _ _ W)) _ _ E) as [Ec Hp].
    destruct (si_tx _ _ _ (wr_inv _ _ _ _ W) _ _ E) as [Hrel Htx].
    pose proof (wr_rx _ _ _ _ W _ _ E) as Hrx. destruct Hb as (_ & _ & Hsc & _). specialize (Hsc p c E).
    change (rc_count c) with (sc_refcount c) in Ec. split_and!; [lia|lia|lia|lia| |].
    + intros tx Et. destruct (Htx tx Et) as (H1 & q & R & _). by eapply buf_rep_wf.
    + intros rx Er. destruct (Hrx rx Er) as (H1 & q & R). by eapply buf_rep_wf.
  - intros p d E. destruct (Hdb p d E) as (H1 & recs & R). by eapply dgram_rep_wf.
  - by eapply table_rep_wf.
Qed.

(** Datagram rings.  Each ring's reference count is Python's references, the
    releases queued and owed and the entries of the connection table; the ring is
    in memory exactly while that is positive.  (A release is forgotten only when
    the array of owed releases cannot grow.) *)
Theorem bridge_dgram_references_exact s : (∀ t, ev_ok ev t = true) -> reach ev s0 s ->
  ∃ ht qt m, rq_rep (b_tx_event_ring (w_ctx (y_w s))) ht qt ∧
    tbl_rep (b_dgram_table (w_ctx (y_w s))) m ∧
    let n p := y_xd s p + lsum (rel_ref p) qt
               + lsum (owed_ref p) (b_dgram_release_owed (w_ctx (y_w s))) + refs m p in
    (∀ p b, rs_rings (w_rs (y_w s)) !! p = Some b -> db_refcnt b = n p ∧ 0 < n p) ∧
    (∀ p, rs_rings (w_rs (y_w s)) !! p = None -> n p = 0).
Proof using Eok Hok Hstart.
  intros Hall Hr. destruct (reach_inv s Hr) as (g & lk & Y). pose proof (yi_lost _ _ _ _ Y Hall) as Hl.
  destruct (raw_inv _ _ _ Y). destruct iv_db as [(m & T & [[Rl Rd _] _]) _ _ _ _]. cbn in *.
  exists (g_ht g), (g_tx g), m. rewrite iv_owed. split_and!; [done|done| |].
  - intros p b E. destruct (Rl p b E) as [Ec ?]. unfold db_refs in *. rewrite (Hl p) in *.
    change (rc_count b) with (db_refcnt b) in Ec. lia.
  - intros p E. specialize (Rd p E). unfold db_refs in Rd. rewrite (Hl p) in Rd. lia.
Qed.

(** C7. The worker's loop terminates and leaves nothing behind.  A wake-up, or the
    check before a wait, returns after one round per queued event; the TX ring is
    then empty, each entry having been taken off once. *)
Theorem worker_drains_tx_ring s mode : reach ev s0 s -> below (y_w s) ->
  (mode = picoquic_packet_loop_wake_up ∨ ∃ d t, mode = picoquic_packet_loop_time_check d t) ->
  ∃ s', sys_step ev (WkLoop mode) s = Some s' ∧
    spsc_ring_count (b_tx_event_ring (w_ctx (y_w s'))) = 0 ∧
    r_head (b_tx_event_ring (w_ctx (y_w s'))) = r_tail (b_tx_event_ring (w_ctx (y_w s))).
Proof using Eok Hok Hstart.
  intros Hr Hb Hm. destruct (reach_inv s Hr) as (g & lk & Y).
  destruct (loop_full Eok nobody_nonneg nobody_nonneg Y Hb mode eq_refl) as (s' & g' & E & Y' & L & D). exists s'. split; [done|].
  assert (Hnil : g_tx g' = [] ∧ g_ht g' = g_ht g + zlen (g_tx g)).
  { destruct (lp_tx _ _ _ L) as [[E1 E2]|?]; [|done].
    destruct (g_tx g) as [|e q] eqn:Eq; [rewrite E1, E2; cbn; split; [done|lia]|].
    destruct Hm as [->|(d & t & ->)]; rewrite D in E1; done. }
  destruct Hnil as [Hnil Hh]. pose proof (iv_tx _ _ _ _ (raw_inv _ _ _ Y)) as R.
  pose proof (iv_tx _ _ _ _ (raw_inv _ _ _ Y')) as R'. cbn in R, R'. rewrite Hnil in R'.
  split; [by rewrite (rq_count _ _ _ R')|]. by rewrite (rq_head _ _ _ R'), (rq_tail _ _ _ R), Hh.
Qed.
End runs.

(** ** A concrete run *)

Lemma fresh_addr_free {A} lo (m : gmap Z A) : m !! fresh_addr lo m = None.
Proof.
  destruct (m !! fresh_addr lo m) as [x|] eqn:E; [|done]. apply elem_of_map_to_list in E.
  unfold fresh_addr in E. set (k := foldr _ lo _) in E.
  assert (Hk : ∀ l q y, (q, y) ∈ l -> q <= foldr (λ (kv : Z * A) n, Z.max kv.1 n) lo l).
  { induction l as [|[q' y'] l IH]; intros q y Hin; [by apply elem_of_nil in Hin|].
    apply elem_of_cons in Hin as [[= -> ->]|Hin]; cbn; [lia|]. specialize (IH q y Hin). lia. }
  specialize (Hk _ _ _ E). fold k in Hk. lia.
Qed.

Lemma demo_env_ok answer : env_ok (demo_env answer).
Proof.
  split; cbn.
  - intros _ h. split; intros _; apply fresh_addr_free.
  - intros _ scs. right. apply fresh_addr_free.
  - intros _ capacity Hc. split; [done|]. intros blk [= <-]. rewrite length_replicate.
    destruct (ceil_pow2_is_pow2 capacity Hc) as (k & Hk & ->). lia.
  - lia.
Qed.

(** A handler for a bridge without WebTransport. *)
Definition demo_handler : WtHandler :=
  {| aiopquic_wt_handle_tx := λ _, ret 0; aiopquic_wt_deferred_reset := λ _, ret tt |}.

Lemma start_below a tx_cap rx_cap pct cap s : start_ok tx_cap rx_cap pct cap ->
  sys_start a tx_cap rx_cap pct cap = Some s -> below (y_w s).
Proof.
  intros Hok E. pose proof (start_inv false (demo_env (λ _, 0)) _ _ _ _ _ _ Hok E) as Y.
  assert (sw_scs (w_sc (y_w s)) = ∅ ∧ rs_rings (w_rs (y_w s)) = ∅) as [Hsc Hrs].
  { revert E. unfold sys_start. destruct (aiopquic_ctx_create _ _ _ _); [|done].
    cbn [mbind option_bind]. by intros [= <-]. }
  destruct (raw_inv _ _ _ Y). destruct iv_rx as (q1 & q2 & R & _ & Ed & Eq).
  pose proof (rq_tail _ _ _ R) as Er. pose proof (rq_tail _ _ _ iv_tx) as Et.
  symmetry in Eq. apply app_eq_nil in Eq as [-> ->]. cbn in *. unfold below.
  rewrite Er, Ed, Et, iv_owed. cbn. split_and!; [lia|lia| |].
  - intros p c. rewrite Hsc. done.
  - intros p b. rewrite Hrs. done.
Qed.

Lemma demo_start_ok : start_ok 8 4 50 64.
Proof. split; lia. Qed.

Lemma demo_start : ∃ s0, sys_start demo_alloc 8 4 50 64 = Some s0.
Proof. unfold sys_start. destruct (aiopquic_ctx_create demo_alloc 8 4 50) eqn:E; [by eexists|done]. Qed.

(** Python makes wrapper 16 on a fresh bridge. *)
Lemma demo_created ev {W : WtHandler} : ∃ s0 s1, sys_start demo_alloc 8 4 50 64 = Some s0 ∧
  reach ev s0 s1 ∧ below (y_w s1) ∧ y_x s1 = op_refs (ScCreate 16) (λ _, 0) ∧ y_marks s1 = 0.
Proof.
  destruct demo_start as [s0 E]. exists s0.
  pose proof (start_below _ _ _ _ _ _ demo_start_ok E) as Hb.
  exists (Sys (w_set_sc (aiopquic_stream_ctx_create 16 (w_sc (y_w s0))).2 (y_w s0))
            (op_refs (ScCreate 16) (y_x s0)) (y_xd s0) (y_marks s0) (y_bytes s0 + 0)).
  assert (E0 : sw_scs (w_sc (y_w s0)) = ∅ ∧ y_x s0 = (λ _, 0) ∧ y_marks s0 = 0 ∧ y_bytes s0 = 0).
  { revert E. unfold sys_start. destruct (aiopquic_ctx_create _ _ _ _); [|done].
    cbn [mbind option_bind]. by intros [= <-]. }
  destruct E0 as (Es & Ex & Em & Eby). split; [done|]. split_and!; [| |by rewrite <- Ex|done].
  - eapply reach_step with (o := PySc (ScCreate 16)); [apply reach_start|done| |done].
    cbn [op_ok op_bytes]. rewrite Eby. split; [lia|]. right. unfold is_live. by rewrite Es.
  - destruct Hb as (? & ? & Hsc & ?). split_and!; [done|done| |done]. cbn. rewrite Es.
    intros p c. rewrite lookup_insert_Some. intros [[_ <-]|[_ E']]; [done|]. by rewrite lookup_empty in E'.
Qed.

Lemma bridge_memory_safe_witness : ∃ s0 s1,
  @reach (demo_env (λ _, 0)) demo_handler s0 s1 ∧
  is_Some (@sys_step (demo_env (λ _, 0)) demo_handler
             (PyPush (sc_entry SPSC_EVT_TX_MARK_ACTIVE 4 100 16 0) []) s1).
Proof.
  destruct (@demo_created (demo_env (λ _, 0)) demo_handler) as (s0 & s1 & E & Hr & Hb & Ex & Em).
  exists s0, s1. split; [done|].
  refine (bridge_memory_safe (demo_env_ok _) demo_start_ok E s1 _ Hr Hb _).
  cbn [op_ok]. rewrite Ex, Em. split_and!; try done.
  split; [|done|by right]. left. exists SPSC_EVT_TX_MARK_ACTIVE. split; [|done].
  unfold raw_tx_types. set_solver.
Defined.

Lemma bridge_references_exact_witness : ∃ s0 s1,
  @reach (demo_env (λ _, 0)) demo_handler s0 s1 ∧ y_x s1 16 = 1 ∧
  ∃ ht hr qt qr, rq_rep (b_tx_event_ring (w_ctx (y_w s1))) ht qt ∧
    rq_rep (b_rx_event_ring (w_ctx (y_w s1))) hr qr.
Proof.
  destruct (@demo_created (demo_env (λ _, 0)) demo_handler) as (s0 & s1 & E & Hr & Hb & Ex & Em).
  exists s0, s1. split; [done|]. split; [by rewrite Ex|].
  destruct (bridge_references_exact (demo_env_ok _) demo_start_ok E s1 Hr)
    as (ht & hr & qt & qr & ? & ? & _). by exists ht, hr, qt, qr.
Defined.

Lemma bridge_dgram_references_exact_witness : ∃ s0 s1,
  @reach (demo_env (λ _, 0)) demo_handler s0 s1 ∧
  ∃ m, tbl_rep (b_dgram_table (w_ctx (y_w s1))) m.
Proof.
  destruct (@demo_created (demo_env (λ _, 0)) demo_handler) as (s0 & s1 & E & Hr & Hb & Ex & Em).
  exists s0, s1. split; [done|].
  destruct (bridge_dgram_references_exact (demo_env_ok _) demo_start_ok E s1 (λ _, eq_refl) Hr)
    as (ht & qt & m & _ & T & _). by exists m.
Defined.

Lemma worker_drains_tx_ring_witness : ∃ s0 s1 s2,
  @reach (demo_env (λ _, 0)) demo_handler s0 s1 ∧
  @sys_step (demo_env (λ _, 0)) demo_handler (WkLoop picoquic_packet_loop_wake_up) s1 = Some s2 ∧
  spsc_ring_count (b_tx_event_ring (w_ctx (y_w s2))) = 0.
Proof.
  destruct (@demo_created (demo_env (λ _, 0)) demo_handler) as (s0 & s1 & E & Hr & Hb & Ex & Em).
  destruct (worker_drains_tx_ring (demo_env_ok _) demo_start_ok E s1
              picoquic_packet_loop_wake_up Hr Hb (or_introl eq_refl)) as (s2 & ? & ? & _).
  by exists s0, s1, s2.
Defined.

Lemma bridge_well_formed_witness : ∃ s0 s1,
  @reach (demo_env (λ _, 0)) demo_handler s0 s1 ∧
  ring_wf (b_tx_event_ring (w_ctx (y_w s1))) ∧ ring_wf (b_rx_event_ring (w_ctx (y_w s1))).
Proof.
  destruct (@demo_created (demo_env (λ _, 0)) demo_handler) as (s0 & s1 & E & Hr & Hb & Ex & Em).
  exists s0, s1. split; [done|].
  destruct (bridge_well_formed (demo_env_ok _) demo_start_ok E s1 Hr Hb) as (? & ? & _). by split.
Defined.
