(* ===== verification/Wake.v ===== *)
(** * The wake protocols between the two threads

    Four protocols let asyncio and the worker sleep: the RX channel's (notify_rx,
    clear_rx and the overflow's refill), the idle worker's (tx_wake_needed,
    tx_worker_idle_arm), the full TX ring's (arm / maybe_fire / final) and a stream's
    data events (rx_event_pending arm / clear).  Here each is a machine of two threads
    whose steps are the single loads, stores and exchanges of the code, so that every
    interleaving of them is a run.  Runs interleave whole steps (the code's fences and
    exchanges order them); the third machine also lets the worker's store of the ring's
    head be seen late, which is what the fence of
    [aiopquic_tx_event_ring_drained_final] is for. *)
From S2P Require Import Prelude.

(** ** Runs of a machine *)

Section run.
Context {S L : Type} (step : L -> S -> option S).

Inductive runs (s0 : S) : S -> Prop :=
  | runs_start : runs s0 s0
  | runs_step s l s' : runs s0 s -> step l s = Some s' -> runs s0 s'.

Fixpoint run (ls : list L) (s : S) : option S :=
  match ls with [] => Some s | l :: ls => s ← step l s; run ls s end.

Lemma run_app ls ks s : run (ls ++ ks) s = (s ← run ls s; run ks s).
Proof. revert s. induction ls as [|l ls IH]; intros s; [done|]. cbn. destruct (step l s); [apply IH|done]. Qed.

Lemma run_runs ls : ∀ s0 s s', runs s0 s -> run ls s = Some s' -> runs s0 s'.
Proof.
  induction ls as [|l ls IH]; intros s0 s s' R; cbn; [by intros [= <-]|].
  destruct (step l s) as [s1|] eqn:E; [|done]. apply IH. by eapply runs_step.
Qed.

(** What every step keeps holds in every run. *)
Lemma runs_inv (P : S -> Prop) s0 s : P s0 -> (∀ l s s', P s -> step l s = Some s' -> P s') ->
  runs s0 s -> P s.
Proof. intros H0 Hs R. induction R; [done|]. by eapply Hs. Qed.
End run.

(** ** The RX channel and its wake *)

Module RxWake.
Section rx.
Context {A : Type}.

(** Where the worker is in [aiopquic_rx_push]. *)
Inductive prod :=
  | PIdle
  | PRing (a : A)     (** read depth 0: about to push to the ring *)
  | POvf (a : A)      (** about to append to the overflow's list *)
  | PCount            (** about to count the node *)
  | PNotify           (** about to exchange rx_notify_pending *)
  | PWrite.           (** about to write the descriptor *)

(** Where asyncio is; [clear]: the refill is that of [aiopquic_clear_rx]. *)
Inductive cons :=
  | CWait             (** asleep on the descriptor *)
  | CRun              (** draining *)
  | CRefill (clear : bool)
  | CRoom (clear : bool)
  | CTake (clear : bool)
  | CPublish (clear : bool) (a : A)
  | CUncount (clear : bool)
  | CRead             (** about to read the descriptor *)
  | CClear            (** about to exchange rx_notify_pending *)
  | CLeft             (** about to count the ring *)
  | CDepth            (** about to read the overflow's depth *)
  | CRearm.           (** about to write the descriptor *)

Record st := St {
  x_ring : list A;
  x_ovf : list A;
  x_depth : Z;
  x_pend : Z;
  x_fd : Z;
  x_prod : prod;
  x_cons : cons;
  x_sent : list A;     (** published so far *)
  x_got : list A       (** taken by asyncio so far *)
}.

Definition start : st := St [] [] 0 0 0 PIdle CWait [] [].

(** [LPush a]: the worker pushes [a]; [LProd]: its next step; [LOom]: its allocation
    fails.  [LWake], [LPop], [LRefill], [LClear]: what asyncio does next; [LCons]: its
    next step. *)
Inductive label := LPush (a : A) | LProd | LOom | LWake | LPop | LRefill | LClear | LCons.

Definition put (p : prod) (s : st) : st :=
  St (x_ring s) (x_ovf s) (x_depth s) (x_pend s) (x_fd s) p (x_cons s) (x_sent s) (x_got s).
Definition goto (c : cons) (s : st) : st :=
  St (x_ring s) (x_ovf s) (x_depth s) (x_pend s) (x_fd s) (x_prod s) c (x_sent s) (x_got s).

Context (cap : Z).

(** [spsc_ring_push_or_overflow], then [aiopquic_notify_rx]. *)
Definition prod_step (s : st) : option st :=
  let '(St ring ovf depth pend fd p c sent got) := s in
  match p with
  | PIdle => None
  | PRing a =>
      if zlen ring >=? cap then Some (put (POvf a) s)
      else Some (St (ring ++ [a]) ovf depth pend fd PNotify c (sent ++ [a]) got)
  | POvf a => Some (St ring (ovf ++ [a]) depth pend fd PCount c (sent ++ [a]) got)
  | PCount => Some (St ring ovf (depth + 1) pend fd PNotify c sent got)
  | PNotify => Some (St ring ovf depth 1 fd (if pend =? 0 then PWrite else PIdle) c sent got)
  | PWrite => Some (St ring ovf depth pend (fd + 1) PIdle c sent got)
  end.

Definition refill_done (clear : bool) : cons := if clear then CRead else CRun.

(** [spsc_ring_refill_from_overflow] and [aiopquic_clear_rx].  [None]: asleep, or a
    null node dereferenced. *)
Definition cons_step (s : st) : option st :=
  let '(St ring ovf depth pend fd p c sent got) := s in
  match c with
  | CWait | CRun => None
  | CRefill k => Some (goto (if depth >? 0 then CRoom k else refill_done k) s)
  | CRoom k => Some (goto (if zlen ring >=? cap then refill_done k else CTake k) s)
  | CTake k =>
      match ovf with
      | [] => None
      | a :: ovf => Some (St ring ovf depth pend fd p (CPublish k a) sent got)
      end
  | CPublish k a => Some (St (ring ++ [a]) ovf depth pend fd p (CUncount k) sent got)
  | CUncount k => Some (St ring ovf (depth - 1) pend fd p (CRefill k) sent got)
  | CRead => Some (St ring ovf depth pend 0 p CClear sent got)
  | CClear => Some (St ring ovf depth 0 fd p CLeft sent got)
  | CLeft => Some (goto (if zlen ring >? 0 then CRearm else CDepth) s)
  | CDepth => Some (goto (if depth >? 0 then CRearm else CWait) s)
  | CRearm => Some (St ring ovf depth pend (fd + 1) p CWait sent got)
  end.

Definition step (l : label) (s : st) : option st :=
  match l with
  | LPush a =>
      match x_prod s with
      | PIdle => Some (put (if x_depth s =? 0 then PRing a else POvf a) s)
      | _ => None
      end
  | LProd => prod_step s
  | LOom => match x_prod s with PRing _ | POvf _ => Some (put PIdle s) | _ => None end
  | LWake =>
      match x_cons s with
      | CWait => if x_fd s >? 0 then Some (goto CRun s) else None
      | _ => None
      end
  | LPop =>
      match x_cons s, x_ring s with
      | CRun, a :: ring =>
          Some (St ring (x_ovf s) (x_depth s) (x_pend s) (x_fd s) (x_prod s) CRun
                  (x_sent s) (x_got s ++ [a]))
      | _, _ => None
      end
  | LRefill => match x_cons s with CRun => Some (goto (CRefill false) s) | _ => None end
  | LClear => match x_cons s with CRun => Some (goto (CRefill true) s) | _ => None end
  | LCons => cons_step s
  end.

(** ** The invariant *)

(** The entry asyncio holds between list and ring. *)
Definition taken (c : cons) : list A := match c with CPublish _ a => [a] | _ => [] end.

(** Nodes appended and not counted, counted and no longer in the list. *)
Definition lag (p : prod) : Z := match p with PCount => 1 | _ => 0 end.
Definition lead (c : cons) : Z := match c with CPublish _ _ | CUncount _ => 1 | _ => 0 end.

(** The worker is the ring's writer; asyncio is, and has seen room. *)
Definition pushing (p : prod) : bool := match p with PRing _ => true | _ => false end.
Definition pulling (c : cons) : bool := match c with CRoom _ | CTake _ => true | _ => false end.
Definition filling (c : cons) : bool := match c with CTake _ | CPublish _ _ => true | _ => false end.

(** Events asyncio has not taken, and the wakes on their way: written, or sure to be
    written once the worker exchanges a zero flag. *)
Definition waiting (s : st) : Z := zlen (x_ring s) + zlen (taken (x_cons s)) + zlen (x_ovf s).
Definition writing (p : prod) : Z := match p with PWrite => 1 | _ => 0 end.
Definition counting (p : prod) : Z := match p with PCount => 1 | _ => 0 end.
Definition noticing (p : prod) : Z := match p with PNotify => 1 | _ => 0 end.

Definition wake_ok (s : st) : Prop :=
  let set := x_pend s <> 0 -> 0 < x_fd s + writing (x_prod s) in
  match x_cons s with
  | CClear => True
  | CLeft | CRearm => set
  | CDepth => set ∧ (x_pend s = 0 -> 0 < zlen (x_ring s) -> 0 < noticing (x_prod s))
  | _ => set ∧
      (x_pend s = 0 -> 0 < waiting s -> 0 < x_fd s + counting (x_prod s) + noticing (x_prod s))
  end.

Record inv (s : st) : Prop := {
  i_fifo : x_sent s = x_got s ++ x_ring s ++ taken (x_cons s) ++ x_ovf s;
  i_depth : x_depth s = zlen (x_ovf s) - lag (x_prod s) + lead (x_cons s);
  i_push : pushing (x_prod s) = true -> x_depth s = 0;
  i_pull : pulling (x_cons s) = true -> 0 < x_depth s;
  i_cap : zlen (x_ring s) <= cap;
  i_room : filling (x_cons s) = true -> zlen (x_ring s) < cap;
  i_fd : 0 <= x_fd s;
  i_wake : wake_ok s
}.

Lemma inv_start : 0 <= cap -> inv start.
Proof. intros. by split. Qed.

(** Case analysis on a step: the threads' places and the code's tests. *)
Ltac step_cases E :=
  repeat match type of E with
  | context [match ?x with _ => _ end] => destruct x eqn:?; try discriminate E
  end; injection E as <-.

Ltac place :=
  cbn in *; intros; rewrite ?length_app, ?Z.gtb_ltb, ?Z.geb_leb, ?Z.ltb_lt, ?Z.ltb_ge, ?Z.leb_le,
    ?Z.leb_gt, ?Z.eqb_eq, ?Z.eqb_neq in *; cbn [length] in *;
  repeat match goal with
  | H : ?x = ?x -> _ |- _ => specialize (H eq_refl)
  | H : ?b = true -> _, H' : ?b = true |- _ => specialize (H H')
  | H : _ ∧ _ |- _ => destruct H
  end; done || lia || auto.

Lemma rx_inv_step l s s' : inv s -> step l s = Some s' -> inv s'.
Proof.
  destruct s as [ring ovf depth pend fd p c sent got]. intros [F D Pu Pl C R Fd W] E.
  assert (Hd : pushing p = true -> ovf = [] ∧ lead c = 0 ∧ taken c = []).
  { intros Hp. cbn in *. specialize (Pu Hp). destruct p; try discriminate Hp.
    destruct ovf; [|cbn in *; destruct c; cbn in *; lia].
    split; [done|]. destruct c; cbn in *; done || lia. }
  unfold step, prod_step, cons_step, put, goto, refill_done in E.
  cbn in E, F, D, Pu, Pl, C, R, Fd. unfold wake_ok, waiting in W. cbn in W. split.
  - clear -F E Hd. destruct l; step_cases E; cbn in *; rewrite ?F, <- ?app_assoc; cbn; auto.
    destruct (Hd eq_refl) as (-> & _ & ->). cbn. by rewrite ?app_nil_r.
  - clear -D E. destruct l; step_cases E; place.
  - clear -Pu E Hd. destruct l; step_cases E; place.
  - clear -Pl Pu E. destruct l; step_cases E; place.
  - clear -C R E. destruct l; step_cases E; place.
  - clear -C R E Pl Pu Hd. destruct l; step_cases E; place. destruct c; place.
  - clear -Fd E. destruct l; step_cases E; place.
  - clear -W E D Fd Hd Pu. unfold wake_ok, waiting. destruct l; step_cases E; place.
    all: destruct p; try discriminate; destruct c; cbn in *; lia.
Qed.

Lemma runs_ok s : 0 <= cap -> runs step start s -> inv s.
Proof. intros H. apply runs_inv; [by apply inv_start|]. intros l s1 s2. apply rx_inv_step. Qed.
End rx.

(** C12. No RX wake is lost.  However the steps of a push, its notification, the
    refill and asyncio's clear interleave: when asyncio sleeps and the worker is not
    in the middle of a push, an event left in the ring or the overflow has the
    descriptor readable. *)
Theorem rx_no_lost_wake {A} cap (s : @st A) : 0 <= cap -> runs (step cap) start s ->
  x_cons s = CWait -> x_prod s = PIdle -> x_ring s ++ x_ovf s <> [] -> 0 < x_fd s.
Proof.
  intros Hc R Ec Ep Hne. destruct (runs_ok cap s Hc R) as [_ _ _ _ _ _ Fd W].
  unfold wake_ok, waiting in W. rewrite Ec, Ep in W. cbn in W.
  assert (0 < zlen (x_ring s) + zlen (x_ovf s)).
  { destruct (x_ring s), (x_ovf s); cbn; lia || done. }
  destruct W as [W1 W2]. destruct (Z.eq_dec (x_pend s) 0); lia.
Qed.

(** C23. The channel under interleaving.  What asyncio took is a prefix of what the
    worker published, in order, the rest being in the ring, in asyncio's hands and in
    the overflow; the ring never holds more than its slots; and no step of the refill
    finds the list empty that it takes a node from. *)
Theorem rx_fifo_interleaved {A} cap (s : @st A) : 0 <= cap -> runs (step cap) start s ->
  x_sent s = x_got s ++ x_ring s ++ taken (x_cons s) ++ x_ovf s ∧
  zlen (x_ring s) <= cap ∧
  (x_cons s <> CWait -> x_cons s <> CRun -> is_Some (step cap LCons s)) ∧
  (x_prod s <> PIdle -> is_Some (step cap LProd s)).
Proof.
  intros Hc R. destruct (runs_ok cap s Hc R) as [F D _ Pl C _ _ _].
  destruct s as [ring ovf depth pend fd p c sent got]. cbn in *. split; [done|]. split; [done|]. split.
  - intros H1 H2. destruct c; try done; cbn; eauto.
    destruct ovf; [|eauto]. specialize (Pl eq_refl). destruct p; cbn in *; lia.
  - intros H1. destruct p; try done; cbn; eauto. destruct (_ >=? _); eauto.
Qed.

(** One event pushed and notified, asyncio asleep. *)
Definition demo_run : list (@label Z) := [LPush 7; LProd; LProd; LProd].

Lemma rx_no_lost_wake_witness : ∃ s : @st Z, run (step 4) demo_run start = Some s ∧
  x_ring s ++ x_ovf s <> [] ∧ 0 < x_fd s.
Proof.
  eexists. split; [vm_compute; reflexivity|]. split; [discriminate|].
  apply (rx_no_lost_wake 4); [lia| |reflexivity|reflexivity|discriminate].
  eapply (run_runs _ demo_run); [apply runs_start|]. vm_compute. reflexivity.
Defined.

(** A ring of one slot: the second event overflows and is refilled after the first is
    taken. *)
Definition demo_spill : list (@label Z) :=
  [LPush 7; LProd; LProd; LProd; LPush 8; LProd; LProd; LProd; LProd; LWake; LPop; LRefill;
   LCons; LCons; LCons; LCons; LCons].

Lemma rx_fifo_interleaved_witness : ∃ s : @st Z, run (step 1) demo_spill start = Some s ∧
  x_sent s = x_got s ++ x_ring s ++ taken (x_cons s) ++ x_ovf s.
Proof.
  eexists. split; [vm_compute; reflexivity|].
  apply (rx_fifo_interleaved 1); [lia|].
  eapply (run_runs _ demo_spill); [apply runs_start|]. vm_compute. reflexivity.
Defined.
End RxWake.

(** ** The idle worker *)

Module TxIdle.
(** Where asyncio is after a push to the TX ring. *)
Inductive prod := TIdle | TLoad | TXchg | TWake.

(** Where the worker is. *)
Inductive work :=
  | WRun              (** in its loop: draining, or about to wait *)
  | WArm              (** about to store tx_worker_idle *)
  | WPeek             (** about to look at the ring *)
  | WUndo             (** found entries: about to clear the flag *)
  | WWait             (** asleep *)
  | WHead             (** awake: about to read the flag *)
  | WStore.           (** about to clear it *)

Record st := St { t_ring : Z; t_idle : Z; t_wake : Z; t_prod : prod; t_work : work }.

Definition start : st := St 0 0 0 TIdle WRun.

(** [LPush]: asyncio pushes an event; [LProd], [LWork]: the next step of each;
    [LPop]: the worker drains one; [LBlock]: it goes to wait; [LWoken], [LSelf]: it
    wakes because asked to, or on its own. *)
Inductive label := LPush | LProd | LPop | LBlock | LWork | LWoken | LSelf.

(** [aiopquic_tx_wake_needed], and the wake. *)
Definition prod_step (s : st) : option st :=
  let '(St q idle wake p w) := s in
  match p with
  | TIdle => None
  | TLoad => Some (St q idle wake (if idle =? 0 then TIdle else TXchg) w)
  | TXchg => Some (St q 0 wake (if idle =? 0 then TIdle else TWake) w)
  | TWake => Some (St q idle (wake + 1) TIdle w)
  end.

(** [aiopquic_tx_worker_idle_arm], and the head of [aiopquic_loop_cb]. *)
Definition work_step (s : st) : option st :=
  let '(St q idle wake p w) := s in
  match w with
  | WRun | WWait => None
  | WArm => Some (St q 1 wake p WPeek)
  | WPeek => Some (St q idle wake p (if q >? 0 then WUndo else WWait))
  | WUndo => Some (St q 0 wake p WRun)
  | WHead => Some (St q idle wake p (if idle =? 0 then WRun else WStore))
  | WStore => Some (St q 0 wake p WRun)
  end.

Definition step (l : label) (s : st) : option st :=
  let '(St q idle wake p w) := s in
  match l, p, w with
  | LPush, TIdle, _ => Some (St (q + 1) idle wake TLoad w)
  | LProd, _, _ => prod_step s
  | LPop, _, WRun => if q >? 0 then Some (St (q - 1) idle wake p WRun) else None
  | LBlock, _, WRun => Some (St q idle wake p WArm)
  | LWork, _, _ => work_step s
  | LWoken, _, WWait => if wake >? 0 then Some (St q idle 0 p WHead) else None
  | LSelf, _, WWait => Some (St q idle wake p WHead)
  | _, _, _ => None
  end.

Definition waking (p : prod) : Z := match p with TWake => 1 | _ => 0 end.
Definition looking (p : prod) : Z := match p with TLoad | TXchg => 1 | _ => 0 end.

Record inv (s : st) : Prop := {
  i_ring : 0 <= t_ring s;
  i_wake : 0 <= t_wake s;
  i_peek : t_work s = WPeek ∨ t_work s = WWait -> t_idle s = 0 ->
    0 < t_wake s + waking (t_prod s);
  i_wait : t_work s = WWait -> t_idle s <> 0 -> 0 < t_ring s -> 0 < looking (t_prod s)
}.

Lemma tx_inv_step l s s' : inv s -> step l s = Some s' -> inv s'.
Proof.
  destruct s as [q idle wake p w]. intros [Q K P W] E. cbn in *.
  unfold step, prod_step, work_step in E.
  destruct l, p, w; cbn in *; try discriminate E;
    repeat match type of E with context [if ?b then _ else _] => destruct b eqn:? end;
    try discriminate E; injection E as <-; split; cbn in *; intros;
    rewrite ?Z.gtb_ltb, ?Z.ltb_lt, ?Z.ltb_ge, ?Z.eqb_eq, ?Z.eqb_neq in *;
    try (specialize (P (or_intror eq_refl))); try (specialize (P (or_introl eq_refl)));
    try specialize (W eq_refl); destruct_or?; try discriminate; try lia.
Qed.

(** C14. No wake of the worker is lost.  However a push, its look at the idle flag and
    the worker's arm, peek and clear interleave: when the worker sleeps and asyncio is
    not in the middle of a push, entries in the TX ring have a wake-up posted. *)
Theorem tx_no_lost_wake s : runs step start s -> t_work s = WWait -> t_prod s = TIdle ->
  0 < t_ring s -> 0 < t_wake s.
Proof.
  intros R Ew Ep Hq. assert (I : inv s).
  { revert R. apply runs_inv; [|intros l s1 s2; apply tx_inv_step].
    split; cbn; try done. by intros [|]. }
  destruct I as [_ _ P W]. rewrite Ep in P, W. cbn in P, W.
  destruct (Z.eq_dec (t_idle s) 0); [specialize (P (or_intror Ew))|specialize (W Ew)]; lia.
Qed.

(** The worker goes to sleep, then asyncio pushes. *)
Definition demo_sleep : list label := [LBlock; LWork; LWork; LPush; LProd; LProd; LProd].

Lemma tx_no_lost_wake_witness : ∃ s, run step demo_sleep start = Some s ∧ 0 < t_wake s.
Proof.
  eexists. split; [vm_compute; reflexivity|].
  apply tx_no_lost_wake; [|reflexivity|reflexivity|vm_compute; reflexivity].
  eapply (run_runs _ demo_sleep); [apply runs_start|]. vm_compute. reflexivity.
Defined.
End TxIdle.

(** ** The full TX ring *)

Module TxDrain.
(** Where asyncio is: running, armed and about to re-check, waiting for the event. *)
Inductive prod := AIdle | ACheck | AWait.

(** Where the worker is; [final]: in [aiopquic_tx_event_ring_drained_final]. *)
Inductive work :=
  | WLoop                  (** about to peek *)
  | WFence                 (** found the ring empty: about to fence *)
  | WLoad (final : bool)   (** about to read the flag *)
  | WCount (final : bool)  (** about to count the ring *)
  | WSwap (final : bool)   (** about to exchange the flag *)
  | WPost (final : bool)   (** about to push the event *)
  | WWait.                 (** asleep *)

(** [d_ring]: the count asyncio sees; [d_late]: pops whose store of the head it does
    not see yet; [d_fired]: events posted and not taken. *)
Record st := St { d_ring : Z; d_late : Z; d_pend : bool; d_fired : Z; d_prod : prod; d_work : work }.

Definition start : st := St 0 0 false 0 AIdle WLoop.

(** [LPush], [LArm], [LClear], [LCheck], [LTake]: asyncio pushes an event, arms,
    disarms, re-checks, takes a posted event; [LWork]: the worker's next step; [LSeen]:
    one of its pops is seen; [LAwake]: it wakes. *)
Inductive label := LPush | LArm | LClear | LCheck | LTake | LWork | LSeen | LAwake.

Definition back (final : bool) : work := if final then WWait else WLoop.

Section step.
Context (cap low : Z).

(** The drain loop of [aiopquic_loop_cb] with [aiopquic_maybe_fire_tx_event_ring_drained]
    after each pop, then the final check. *)
Definition work_step (s : st) : option st :=
  let '(St n late pend fired p w) := s in
  match w with
  | WLoop =>
      if n - late >? 0 then Some (St n (late + 1) pend fired p (WLoad false))
      else Some (St n late pend fired p WFence)
  | WFence => Some (St (n - late) 0 pend fired p (WLoad true))
  | WLoad f => Some (St n late pend fired p (if pend then WCount f else back f))
  | WCount f => Some (St n late pend fired p (if n - late >? low then back f else WSwap f))
  | WSwap f => Some (St n late false fired p (if pend then WPost f else back f))
  | WPost f => Some (St n late pend (fired + 1) p (back f))
  | WWait => None
  end.

(** [aiopquic_arm_tx_event_ring_drain_pending] is [LArm] then [LCheck]. *)
Definition step (l : label) (s : st) : option st :=
  let '(St n late pend fired p w) := s in
  match l, p with
  | LPush, AIdle => if n >=? cap then None else Some (St (n + 1) late pend fired p w)
  | LArm, AIdle => Some (St n late true fired ACheck w)
  | LClear, AIdle => Some (St n late false fired AIdle w)
  | LCheck, ACheck => Some (St n late pend fired (if n >? low then AWait else AIdle) w)
  | LTake, (AIdle | AWait) => if fired >? 0 then Some (St n late pend (fired - 1) AIdle w) else None
  | LWork, _ => work_step s
  | LSeen, _ => if late >? 0 then Some (St (n - 1) (late - 1) pend fired p w) else None
  | LAwake, _ => match w with WWait => Some (St n late pend fired p WLoop) | _ => None end
  | _, _ => None
  end.

Definition posting (w : work) : Z := match w with WPost _ => 1 | _ => 0 end.
Definition settled (w : work) : bool :=
  match w with WLoad f | WCount f | WSwap f | WPost f => f | WWait => true | _ => false end.
Definition after (w : work) : bool := match w with WPost true | WWait => true | _ => false end.
Definition armed (p : prod) : bool := match p with AIdle => false | _ => true end.
Definition asleep (p : prod) : bool := match p with AWait => true | _ => false end.

Record inv (s : st) : Prop := {
  i_late : 0 <= d_late s;
  i_fired : 0 <= d_fired s;
  i_own : settled (d_work s) = true -> d_late s = 0;
  i_armed : armed (d_prod s) = true -> d_pend s = false -> 0 < d_fired s + posting (d_work s);
  i_high : after (d_work s) = true -> asleep (d_prod s) = true -> d_pend s = true -> low < d_ring s
}.

Lemma drain_inv_step l s s' : inv s -> step l s = Some s' -> inv s'.
Proof.
  destruct s as [n late pend fired p w]. intros [L F O A Hi] E. cbn in *.
  unfold step, work_step, back in E.
  destruct l, p, w as [| |[]|[]|[]|[]|]; cbn in *; try discriminate E;
    repeat match type of E with context [if ?b then _ else _] => destruct b eqn:? end;
    try discriminate E; injection E as <-; split; cbn in *; intros;
    rewrite ?Z.gtb_ltb, ?Z.geb_leb, ?Z.ltb_lt, ?Z.ltb_ge, ?Z.leb_gt in *;
    repeat match goal with
    | H : ?x = ?x -> _ |- _ => specialize (H eq_refl)
    | H : ?b = true -> _, H' : ?b = true |- _ => specialize (H H')
    | H : ?b = false -> _, H' : ?b = false |- _ => specialize (H H')
    end; done || lia || congruence.
Qed.
End step.

(** C13. No wait for room is lost.  However the arm and its re-check interleave with
    the worker's pops and checks, even if asyncio sees those pops late: when asyncio
    waits, the worker sleeps and the ring is at or below its low water mark, the
    event that ends the wait has been posted. *)
Theorem tx_drain_no_lost_wake cap low s : runs (step cap low) start s ->
  d_prod s = AWait -> d_work s = WWait -> d_ring s <= low -> 0 < d_fired s.
Proof.
  intros R Ep Ew Hn. assert (I : inv low s).
  { revert R. apply runs_inv; [by split|]. intros l s1 s2. apply drain_inv_step. }
  destruct I as [_ _ _ A Hi]. rewrite Ep, Ew in A, Hi. cbn in A, Hi.
  specialize (Hi eq_refl eq_refl). destruct (d_pend s); [lia|]. specialize (A eq_refl eq_refl). lia.
Qed.

(** Two slots filled, the arm, the re-check, and the worker draining past them. *)
Definition demo_full : list label :=
  [LPush; LPush; LArm; LCheck; LWork; LWork; LWork; LWork; LWork; LWork; LWork; LWork; LWork; LWork].

Lemma tx_drain_no_lost_wake_witness : ∃ s, run (step 2 1) demo_full start = Some s ∧
  d_prod s = AWait ∧ d_work s = WWait ∧ 0 < d_fired s.
Proof.
  eexists. split; [vm_compute; reflexivity|]. split; [reflexivity|]. split; [reflexivity|].
  apply (tx_drain_no_lost_wake 2 1); [|reflexivity|reflexivity|vm_compute; discriminate].
  eapply (run_runs _ demo_full); [apply runs_start|]. vm_compute. reflexivity.
Defined.
End TxDrain.

(** ** One data event per stream *)

Module RxEvent.
(** Where the worker is with a stream's bytes: idle, arming, pushing the event it armed,
    pushing a FIN's, which it does not arm. *)
Inductive prod := EIdle | EArm | EPush | EFin.

(** Where asyncio is: idle, holding an event and about to clear the flag, about to read
    the ring's fill, about to pop what it read. *)
Inductive cons := DIdle | DClear | DUsed | DPop (n : Z).

(** [b_bytes]: in the stream's RX ring; [b_events]: its data events queued; [b_oom]: an
    allocation failed on either side. *)
Record st := St { b_bytes : Z; b_flag : Z; b_events : Z; b_prod : prod; b_cons : cons; b_oom : bool }.

Definition start : st := St 0 0 0 EIdle DIdle false.

(** [LData n], [LFin n]: [n] bytes arrive, the latter with the end of the stream;
    [LProd], [LCons]: the next step of each; [LLost]: the event push, [LKept]: asyncio's
    allocation, runs out of memory; [LTake]: asyncio takes an event. *)
Inductive label := LData (n : Z) | LFin (n : Z) | LProd | LLost | LTake | LCons | LKept.

(** [aiopquic_stream_ctx_rx_event_pending_arm], then the push. *)
Definition prod_step (s : st) : option st :=
  let '(St b flag k p c oom) := s in
  match p with
  | EIdle => None
  | EArm => Some (St b 1 k (if flag =? 0 then EPush else EIdle) c oom)
  | EPush | EFin => Some (St b flag (k + 1) EIdle c oom)
  end.

(** [aiopquic_stream_ctx_rx_event_pending_clear], then the pop. *)
Definition cons_step (s : st) : option st :=
  let '(St b flag k p c oom) := s in
  match c with
  | DIdle => None
  | DClear => Some (St b 0 k p DUsed oom)
  | DUsed => Some (St b flag k p (if b >? 0 then DPop b else DIdle) oom)
  | DPop n => Some (St (b - n) flag k p DIdle oom)
  end.

Definition step (l : label) (s : st) : option st :=
  let '(St b flag k p c oom) := s in
  match l, p, c with
  | LData n, EIdle, _ => if n >? 0 then Some (St (b + n) flag k EArm c oom) else None
  | LFin n, EIdle, _ => if n >=? 0 then Some (St (b + n) flag k EFin c oom) else None
  | LProd, _, _ => prod_step s
  | LLost, EPush, _ => Some (St b 0 k EIdle c true)
  | LLost, EFin, _ => Some (St b flag k EIdle c true)
  | LTake, _, DIdle => if k >? 0 then Some (St b flag (k - 1) p DClear oom) else None
  | LCons, _, _ => cons_step s
  | LKept, _, DPop _ => Some (St b flag k p DIdle true)
  | _, _, _ => None
  end.

Definition telling (p : prod) : Z := match p with EPush => 1 | _ => 0 end.
Definition clearing (c : cons) : Z := match c with DClear => 1 | _ => 0 end.
Definition claimed (b : Z) (c : cons) : Z := match c with DUsed => b | DPop n => n | _ => 0 end.

Record inv (s : st) : Prop := {
  i_bytes : 0 <= claimed (b_bytes s) (b_cons s) <= b_bytes s;
  i_events : 0 <= b_events s;
  i_flag : b_oom s = false -> b_flag s <> 0 ->
    0 < b_events s + telling (b_prod s) + clearing (b_cons s);
  i_rest : b_oom s = false -> b_flag s = 0 -> claimed (b_bytes s) (b_cons s) < b_bytes s ->
    b_prod s = EArm ∨ b_prod s = EFin ∨ b_cons s = DClear ∨ 0 < b_events s
}.

Lemma event_inv_step l s s' : inv s -> step l s = Some s' -> inv s'.
Proof.
  destruct s as [b flag k p c oom]. intros [B K F R] E. cbn in *.
  unfold step, prod_step, cons_step in E.
  destruct l, p, c; cbn in *; try discriminate E;
    repeat match type of E with context [if ?b then _ else _] => destruct b eqn:? end;
    try discriminate E; injection E as <-;
    rewrite ?Z.gtb_ltb, ?Z.geb_leb, ?Z.leb_le, ?Z.ltb_lt, ?Z.ltb_ge, ?Z.eqb_eq, ?Z.eqb_neq in *;
    split; cbn in *; intros; try specialize (F ltac:(assumption)); try specialize (R ltac:(assumption) ltac:(lia) ltac:(lia));
    auto; try lia; destruct_or?; try discriminate; try lia; auto.
  all: try (right; right; right; lia).
Qed.

(** C37. No bytes are left unannounced.  The worker pushes a data event only when none
    is in flight; however its arm and push interleave with asyncio's clear and pop:
    with both between calls and memory never short, bytes in a stream's RX ring have
    an event queued that will fetch them. *)
Theorem rx_event_announces_bytes s : runs step start s -> b_oom s = false ->
  b_prod s = EIdle -> b_cons s = DIdle -> 0 < b_bytes s -> 0 < b_events s.
Proof.
  intros R Eo Ep Ec Hb. assert (I : inv s).
  { revert R. apply runs_inv; [|intros l s1 s2; apply event_inv_step]. by split. }
  destruct I as [_ _ F Hr]. rewrite Ep, Ec in F, Hr. cbn in F, Hr.
  destruct (Z.eq_dec (b_flag s) 0) as [E|E]; [|specialize (F Eo E); lia].
  by destruct (Hr Eo E Hb) as [?|[?|[?|?]]].
Qed.

(** Bytes arriving between asyncio's clear and its read of the fill, and after it. *)
Definition demo_arrivals : list label :=
  [LData 3; LProd; LProd; LTake; LCons; LData 2; LProd; LCons; LProd; LCons].

Lemma rx_event_announces_bytes_witness : ∃ s,
  run step (demo_arrivals ++ [LData 4; LProd]) start = Some s ∧ 0 < b_bytes s ∧ 0 < b_events s.
Proof.
  eexists. split; [vm_compute; reflexivity|]. split; [vm_compute; reflexivity|].
  apply rx_event_announces_bytes; [|reflexivity|reflexivity|reflexivity|vm_compute; reflexivity].
  eapply (run_runs _ (demo_arrivals ++ [LData 4; LProd])); [apply runs_start|]. vm_compute. reflexivity.
Defined.
End RxEvent.
