(* ===== verification/WakeRefine.v ===== *)
(** * The RX wake machine runs the code (callback.h, spsc_ring.h)

    [aiopquic_clear_rx] and [aiopquic_rx_push], run alone, are runs of the machine of
    Wake.v: each takes the bridge to a state the machine reaches by that thread's
    steps.  So the machine's steps are the code's, in the code's order. *)
From S2P Require Import Prelude Ring Store StreamBuf SpscRing EventChannel DgramBuf DgramTable.
From S2P Require Import StreamCtx Bridge Callback World BridgeSafe StreamCb PySide System Wake.
Import RxWake.

(** The bridge [w] in state [s] of the machine; [H] events were taken so far. *)
Record rx_abs (H : Z) (w : world) (s : @st spsc_entry) : Prop := {
  ra_ring : rq_rep (b_rx_event_ring (w_ctx w)) H (x_ring s);
  ra_ovf : o_nodes (b_rx_overflow (w_ctx w)) = x_ovf s;
  ra_depth : o_depth (b_rx_overflow (w_ctx w)) = zlen (x_ovf s) ∧ x_depth s = zlen (x_ovf s);
  ra_pend : b_rx_notify_pending (w_ctx w) = x_pend s;
  ra_fd : w_fd w = x_fd s;
  ra_worker : length (wt_e (b_worker_trace (w_ctx w))) = 128%nat;
  ra_asyncio : length (wt_e (b_asyncio_trace (w_ctx w))) = 128%nat
}.

Definition rx_cap (w : world) : Z := r_capacity (b_rx_event_ring (w_ctx w)).

(** ** The refill *)

Lemma run_cons (cap : Z) n m (s s1 s2 : @st spsc_entry) :
  run (step cap) (replicate n LCons) s = Some s1 ->
  run (step cap) (replicate m LCons) s1 = Some s2 ->
  run (step cap) (replicate (n + m) LCons) s = Some s2.
Proof. intros E1 E2. rewrite replicate_add, run_app, E1. done. Qed.

Lemma refill_runs cap k pend fd sent got (ovf : list spsc_entry) : ∀ ring, zlen ring <= cap ->
  ∃ n ring' ovf', run (step cap) (replicate n LCons)
      (St ring ovf (zlen ovf) pend fd PIdle (CRefill k) sent got)
      = Some (St ring' ovf' (zlen ovf') pend fd PIdle (refill_done k) sent got) ∧
    ring' ++ ovf' = ring ++ ovf ∧
    zlen ring' = zlen ring + Z.min (zlen ovf) (cap - zlen ring).
Proof.
  induction ovf as [|a ovf IH]; intros ring Hc.
  { exists 1%nat, ring, []. split; [done|]. split; [done|]. cbn. lia. }
  destruct (Z.geb_spec (zlen ring) cap) as [Hf|Hf].
  - exists 2%nat, ring, (a :: ovf). split; [|split; [done|lia]].
    cbn. rewrite Z.geb_leb, (proj2 (Z.leb_le cap _)) by lia. done.
  - destruct (IH (ring ++ [a])) as (n & ring' & ovf' & E & Ea & El).
    { rewrite length_app. cbn. lia. }
    exists (5 + n)%nat, ring', ovf'. split; [|split].
    + eapply run_cons; [|exact E]. replace (zlen ovf) with (zlen (a :: ovf) - 1) by (cbn [length]; lia).
      assert (Hp : (zlen (a :: ovf) >? 0) = true) by (by rewrite Z.gtb_ltb). revert Hp.
      generalize (zlen (a :: ovf)) as d. intros d Hp. cbn. rewrite Hp. cbn.
      by rewrite Z.geb_leb, (proj2 (Z.leb_gt cap _)) by lia.
    + by rewrite Ea, <- app_assoc.
    + rewrite El, length_app. cbn [length]. lia.
Qed.

(** ** What the machine sees of the bridge *)

Definition rx_view (w : world) :=
  (b_rx_event_ring (w_ctx w), b_rx_overflow (w_ctx w), b_rx_notify_pending (w_ctx w), w_fd w,
   length (wt_e (b_worker_trace (w_ctx w))), length (wt_e (b_asyncio_trace (w_ctx w)))).

Lemma rx_abs_view H w w' s : rx_view w' = rx_view w -> rx_abs H w s -> rx_abs H w' s.
Proof. intros E []. unfold rx_view in E. simplify_eq. split; congruence. Qed.

(** Not seen by the machine. *)
Definition unseen {A} (m : M A) : Prop :=
  ∀ w Φ, (∀ x w', rx_view w' = rx_view w -> Φ x w') -> wp m Φ w.

Lemma unseen_count c : unseen (count c).
Proof. intros w Φ H. apply wp_setb. by apply H. Qed.

Lemma unseen_when b m : unseen m -> unseen (when b m).
Proof. intros Hm w Φ H. apply wp_when; intros _; [by apply Hm|by apply H]. Qed.

Section seen.
Context (ev : env) (Hw : ∀ t, ev_errno ev t = 0).

(** A write that succeeds. *)
Lemma write_seen w Φ : (∀ w', rx_view w' = rx_view (w_set_fd (w_fd w + 1) w) -> Φ 0 w') ->
  wp (wake_write ev) Φ w.
Proof using Hw.
  intros H. unfold wake_write. apply wp_bind. eexists _, _. split; [done|].
  rewrite Hw. eexists _, _. split; [done|]. by apply H.
Qed.

Lemma asyncio_trace_unseen kind a b w Φ : length (wt_e (b_asyncio_trace (w_ctx w))) = 128%nat ->
  (∀ w', rx_view w' = rx_view w -> Φ tt w') -> wp (asyncio_trace_add ev kind a b) Φ w.
Proof using Type.
  intros Hl H. unfold asyncio_trace_add. apply wp_bind. eexists _, _. split; [done|].
  destruct (wake_trace_add_some (b_asyncio_trace (w_ctx w)) (ev_now ev (w_tick w)) kind a b Hl) as (t' & E & Hl').
  eexists _, _. split; [cbn; by rewrite E|]. apply H. unfold rx_view. cbn. by rewrite Hl, Hl'.
Qed.

Lemma worker_trace_unseen kind a b w Φ : length (wt_e (b_worker_trace (w_ctx w))) = 128%nat ->
  (∀ w', rx_view w' = rx_view w -> Φ tt w') -> wp (worker_trace_add ev kind a b) Φ w.
Proof using Type.
  intros Hl H. unfold worker_trace_add. apply wp_bind. eexists _, _. split; [done|].
  destruct (wake_trace_add_some (b_worker_trace (w_ctx w)) (ev_now ev (w_tick w)) kind a b Hl) as (t' & E & Hl').
  eexists _, _. split; [cbn; by rewrite E|]. apply H. unfold rx_view. cbn. by rewrite Hl, Hl'.
Qed.

(** What is left of the clear once the refill and the read are done. *)
Lemma clear_tail H w ring ovf pend fd sent got :
  rx_abs H w (St ring ovf (zlen ovf) pend fd PIdle CRead sent got) ->
  wp (got ← wake_read;
      was ← getb b_rx_notify_pending;
      setb (b_set_rx_notify_pending 0) ;;
      let flags := if negb (was =? 0) then AIOPQUIC_CLEAR_WAS_PENDING else 0 in
      count CNT_RX_CLEARS ;;
      when (got =? 0) (count CNT_RX_CLEAR_READ_EMPTY) ;;
      let flags := if got =? 0 then Z.lor flags AIOPQUIC_CLEAR_READ_EMPTY else flags in
      left ← getb (λ b, spsc_ring_count (b_rx_event_ring b));
      depth ← getb (λ b, o_depth (b_rx_overflow b));
      flags ← (if (left >? 0) || (depth >? 0) then
                 err ← wake_write ev;
                 count CNT_RX_REARMS ;;
                 let flags := Z.lor flags AIOPQUIC_CLEAR_REARMED in
                 ret (if negb (err =? 0) then Z.lor flags AIOPQUIC_CLEAR_REARM_ERR else flags)
               else ret flags);
      asyncio_trace_add ev AIOPQUIC_WAKE_CLEAR flags
        (Z.lor (u64 (Z.shiftl left 32)) (Z.land got 0xffffffff)))
    (λ _ w', ∃ n s', run (step (rx_cap w)) (replicate n LCons)
        (St ring ovf (zlen ovf) pend fd PIdle CRead sent got) = Some s' ∧ rx_abs H w' s' ∧
        x_cons s' = CWait ∧ x_prod s' = PIdle ∧ rx_cap w' = rx_cap w) w.
Proof using Hw.
  intros A. destruct A as [R Eo [Ed _] Ep Ef Hlw Hla]. cbn in *.
  apply wp_bind. eexists _, _. split; [done|]. cbn beta. apply wp_bind, wp_getb.
  apply wp_bind, wp_setb. apply wp_bind, unseen_count. intros [] w1 E1.
  apply wp_bind, unseen_when; [apply unseen_count|]. intros [] w2 E2. rewrite E1 in E2. clear E1 w1.
  assert (E2' := E2). unfold rx_view in E2'. cbn in E2'. injection E2' as Er2 Eo2 Ep2 Ef2 Hlw2 Hla2.
  apply wp_bind, wp_getb. rewrite Er2, (rq_count _ _ _ R). apply wp_bind, wp_getb. rewrite Eo2, Ed.
  destruct ((zlen ring >? 0) || (zlen ovf >? 0)) eqn:Et.
  - apply wp_bind, wp_bind, write_seen. intros w3 E3. rewrite Ef2 in E3.
    apply wp_bind, unseen_count. intros [] w4 E4. apply wp_ret.
    assert (E4' := E4). rewrite E3 in E4'. unfold rx_view in E4'. cbn in E4'.
    rewrite Er2, Eo2, Ep2, Hlw2, Hla2 in E4'. injection E4' as Er4 Eo4 Ep4 Ef4 Hlw4 Hla4.
    apply asyncio_trace_unseen; [by rewrite Hla4|]. intros w5 E5.
    unfold rx_view in E5. rewrite Er4, Eo4, Ep4, Ef4, Hlw4, Hla4 in E5.
    injection E5 as Er5 Eo5 Ep5 Ef5 Hlw5 Hla5.
    exists (if zlen ring >? 0 then 4 else 5)%nat, (St ring ovf (zlen ovf) 0 1 PIdle CWait sent got).
    split_and!; [|split; cbn; by rewrite ?Er5, ?Eo5, ?Ep5, ?Ef5, ?Hlw5, ?Hla5|done|done|].
    + destruct (zlen ring >? 0) eqn:Er; cbn; rewrite Er; cbn; [done|]. cbn in Et. by rewrite Et.
    + unfold rx_cap. by rewrite Er5.
  - apply orb_false_iff in Et as [Et1 Et2]. apply wp_bind, wp_ret.
    apply asyncio_trace_unseen; [by rewrite Hla2|]. intros w5 E5.
    unfold rx_view in E5. rewrite Er2, Eo2, Ep2, Ef2, Hlw2, Hla2 in E5.
    injection E5 as Er5 Eo5 Ep5 Ef5 Hlw5 Hla5.
    exists 4%nat, (St ring ovf (zlen ovf) 0 0 PIdle CWait sent got).
    split_and!; [|split; cbn; by rewrite ?Er5, ?Eo5, ?Ep5, ?Ef5, ?Hlw5, ?Hla5|done|done|].
    + cbn. rewrite Et1. cbn. by rewrite Et2.
    + unfold rx_cap. by rewrite Er5.
Qed.
End seen.

(** What the runs below need of the bridge beside its abstraction: payload blocks
    accounted for, cursors far from their width. *)
Record push_ok (ev : env) (H : Z) (w : world) (s : @st spsc_entry) (es : list spsc_entry) : Prop := {
  po_env : env_ok ev;
  po_heap : heap_ok (w_heap w) es;
  po_room : H + zlen (x_ring s) + zlen (x_ovf s) + 1 < 2 ^ 64
}.

(** C19. The clear is a run of asyncio's steps.  [aiopquic_clear_rx], its descriptor
    writes succeeding, takes the bridge where the machine gets from [CRun] by the
    steps refill, read, exchange, count, depth and, if anything is left, write: the
    refill moves the same entries and asyncio sleeps with the same flag and
    descriptor. *)
Theorem clear_rx_runs ev w s H : (∀ t, ev_errno ev t = 0) -> rx_abs H w s ->
  x_cons s = CRun -> x_prod s = PIdle -> H + zlen (x_ring s) + zlen (x_ovf s) < 2 ^ 64 ->
  ∃ w' n s', aiopquic_clear_rx ev w = Some (tt, w') ∧
    run (step (rx_cap w)) (LClear :: replicate n LCons) s = Some s' ∧
    rx_abs H w' s' ∧ x_cons s' = CWait ∧ x_prod s' = PIdle.
Proof.
  intros Hw A Ec Ep Hb. destruct s as [ring ovf depth pend fd p c sent got]. cbn in Ec, Ep, Hb. subst c p.
  pose proof A as [R Eo [Ed Edm] Epd Ef Hlw Hla]. cbn in R, Eo, Ed, Edm, Epd, Ef. subst depth.
  destruct (refill_raw _ _ _ _ _ R Eo Ed Hb) as (r' & o' & q1 & q2 & E & R' & Eo' & Ed' & Eq & El & Ecap).
  destruct (refill_runs (rx_cap w) true pend fd sent got ovf ring (rq_fit _ _ _ R))
    as (n1 & ring1 & ovf1 & Er & Eq1 & El1).
  assert (ring1 = q1 ∧ ovf1 = q2) as [-> ->].
  { apply app_inj_1; [unfold rx_cap in El1; lia|congruence]. }
  set (w1 := w_set_ctx (b_set_rx_overflow o' (b_set_rx_event_ring r' (w_ctx w))) w).
  assert (A1 : rx_abs H w1 (St q1 q2 (zlen q2) pend fd PIdle CRead sent got)) by (split; done).
  destruct (clear_tail ev Hw H w1 q1 q2 pend fd sent got A1)
    as ([] & w' & E' & n2 & s' & Er2 & A' & Ec' & Ep' & _).
  exists w', (n1 + n2)%nat, s'. split_and!; try done.
  - unfold aiopquic_clear_rx. unfold mbind at 1, M_bind, bind at 1, rx_refill at 1. cbn [mbind option_bind].
    rewrite E. exact E'.
  - change (run (step (rx_cap w)) (replicate (n1 + n2) LCons)
      (St ring ovf (zlen ovf) pend fd PIdle (CRefill true) sent got) = Some s').
    eapply run_cons; [exact Er|]. replace (rx_cap w) with (rx_cap w1) by done. exact Er2.
Qed.

(** The notification alone. *)
Lemma notify_runs ev (Hw : ∀ t, ev_errno ev t = 0) H w ring ovf pend fd c sent got :
  rx_abs H w (St ring ovf (zlen ovf) pend fd PNotify c sent got) ->
  wp (aiopquic_notify_rx ev) (λ _ w', ∃ n s', run (step (rx_cap w)) (replicate n LProd)
      (St ring ovf (zlen ovf) pend fd PNotify c sent got) = Some s' ∧ rx_abs H w' s' ∧
      x_prod s' = PIdle ∧ x_cons s' = c ∧ x_sent s' = sent) w.
Proof.
  intros A. pose proof A as [R Eo [Ed _] Ep Ef Hlw Hla]. cbn in *.
  unfold aiopquic_notify_rx. apply wp_bind, wp_getb. rewrite Ep.
  apply wp_bind, wp_setb. destruct (Z.eqb_spec pend 0) as [->|Hp]; cbn [negb].
  - apply wp_bind, (write_seen _ Hw). intros w1 E1. apply wp_bind, unseen_count. intros [] w2 E2.
    rewrite E1 in E2. apply wp_bind. cbn [Z.eqb negb when]. apply wp_ret. rename w2 into w3, E2 into E3.
    clear E1 w1. unfold rx_view in E3. cbn in E3. injection E3 as Er3 Eo3 Ep3 Ef3 Hlw3 Hla3.
    apply wp_bind, wp_getb, worker_trace_unseen; [by rewrite Hlw3|]. intros w4 E4.
    unfold rx_view in E4. rewrite Er3, Eo3, Ep3, Ef3, Hlw3, Hla3 in E4.
    injection E4 as Er4 Eo4 Ep4 Ef4 Hlw4 Hla4.
    exists 2%nat, (St ring ovf (zlen ovf) 1 (fd + 1) PIdle c sent got).
    split; [done|]. split; [|done]. split; cbn; rewrite ?Er4, ?Eo4, ?Ep4, ?Ef4, ?Hlw4, ?Hla4; done || by rewrite Ef.
  - apply unseen_count. intros [] w1 E1. unfold rx_view in E1. cbn in E1.
    injection E1 as Er1 Eo1 Ep1 Ef1 Hlw1 Hla1.
    exists 1%nat, (St ring ovf (zlen ovf) 1 fd PIdle c sent got).
    split; [|split; [|done]]. { cbn. by rewrite (proj2 (Z.eqb_neq pend 0)). }
    split; cbn; by rewrite ?Er1, ?Eo1, ?Ep1, ?Ef1, ?Hlw1, ?Hla1.
Qed.

(** C18. The push is a run of the worker's steps.  [aiopquic_rx_push] takes the bridge
    where the machine gets by pushing the entry (with the block its payload was
    copied to), counting a spilled one and notifying; out of memory, it leaves the
    bridge as it was and says so. *)
Theorem rx_push_runs ev w s H es e data : (∀ t, ev_errno ev t = 0) -> push_ok ev H w s es ->
  rx_abs H w s -> x_prod s = PIdle -> e_data_buf e = 0 ->
  ∃ rc w', aiopquic_rx_push ev e data w = Some (rc, w') ∧
    ((rc = 0 ∧ ∃ e' n s', e_like e e' ∧
        run (step (rx_cap w)) (LPush e' :: replicate n LProd) s = Some s' ∧
        rx_abs H w' s' ∧ x_prod s' = PIdle ∧ x_cons s' = x_cons s ∧ x_sent s' = x_sent s ++ [e']) ∨
     (rc = -2 ∧ rx_abs H w' s)).
Proof.
  intros Hw [Eok Hh Hb] A Ep He. destruct s as [ring ovf depth pend fd p c sent got]. cbn in Ep, Hb. subst p.
  pose proof A as [R Eo [Ed Edm] Epd Ef Hlw Hla]. cbn in R, Eo, Ed, Edm, Epd, Ef. subst depth.
  assert (Hx : wp (aiopquic_rx_push ev e data) (λ rc w',
    (rc = 0 ∧ ∃ e' n s', e_like e e' ∧
        run (step (rx_cap w)) (LPush e' :: replicate n LProd) (St ring ovf (zlen ovf) pend fd PIdle c sent got) = Some s' ∧
        rx_abs H w' s' ∧ x_prod s' = PIdle ∧ x_cons s' = c ∧ x_sent s' = sent ++ [e']) ∨
     (rc = -2 ∧ rx_abs H w' (St ring ovf (zlen ovf) pend fd PIdle c sent got))) w); [|exact Hx].
  unfold aiopquic_rx_push, ring_push_or_overflow. apply wp_bind, wp_bind. eexists _, _. split; [done|].
  destruct (push_or_overflow_raw _ _ _ _ _ _ _ (ev_alloc ev (w_tick w) (w_heap w)) e data
    R Eo Ed Hh (eo_alloc _ Eok _ _) (λ _, no_buf_unowned _ He) Hb) as (rc & r' & o' & h' & E & Hc).
  eexists _, _. split; [cbn; by rewrite E|].
  destruct Hc as [(Hrc & e' & Hl & R' & Ecap & Eo' & Ed' & Hh')|(-> & -> & -> & ->)].
  2: { cbn [Z.ltb Z.compare]. apply wp_bind, unseen_count. intros [] w2 E2. apply wp_ret. right.
       split; [done|]. by eapply rx_abs_view. }
  rewrite (proj2 (Z.ltb_ge rc 0)) by lia.
  set (q := placed _ ring ovf e') in *. set (w1 := w_set_heap h' _).
  assert (A1 : rx_abs H w1 (St q.1 q.2 (zlen q.2) pend fd PNotify c (sent ++ [e']) got)) by (split; done).
  apply wp_bind. eapply wp_mono; [apply (notify_runs ev Hw _ _ _ _ _ _ _ _ _ A1)|].
  intros [] w2 (n & s' & Er & A2 & Ep2 & Ec2 & Es2). apply wp_ret. left. split; [done|].
  change (rx_cap w1) with (r_capacity r') in Er. rewrite Ecap in Er.
  assert (Hm : ∃ m, run (step (rx_cap w)) (LPush e' :: replicate m LProd)
      (St ring ovf (zlen ovf) pend fd PIdle c sent got)
      = Some (St q.1 q.2 (zlen q.2) pend fd PNotify c (sent ++ [e']) got)).
  { unfold q, placed, rx_cap. destruct (zlen ovf =? 0) eqn:Ez.
    - destruct (zlen ring <? r_capacity (b_rx_event_ring (w_ctx w))) eqn:El.
      + exists 1%nat. cbn. rewrite Ez. cbn. by rewrite Z.geb_leb, Z.leb_antisym, El.
      + exists 3%nat. cbn. rewrite Ez. cbn. rewrite Z.geb_leb, Z.leb_antisym, El. cbn.
        rewrite length_app. cbn. do 3 f_equal. lia.
    - exists 2%nat. cbn. rewrite Ez. cbn. rewrite length_app. cbn. do 3 f_equal. lia. }
  destruct Hm as [m Hm]. exists e', (m + n)%nat, s'. split_and!; try done.
  rewrite replicate_add, app_comm_cons, run_app, Hm. exact Er.
Qed.

(** ** A concrete bridge *)

Lemma start_abs a tx_cap rx_cap pct cap s c : start_ok tx_cap rx_cap pct cap ->
  sys_start a tx_cap rx_cap pct cap = Some s ->
  rx_abs 0 (y_w s) (St [] [] 0 0 0 PIdle c [] []) ∧ w_heap (y_w s) = ∅.
Proof.
  intros [Ht Hr Hp Hd]. unfold sys_start.
  destruct (aiopquic_ctx_create a tx_cap rx_cap pct) as [b|] eqn:E; [|done].
  pose proof E as E2. apply ctx_created in E2 as (_ & Rr & _); [|lia..].
  cbn [mbind option_bind]. intros [= <-]. split; [|done].
  assert (Hb : b_rx_overflow b = spsc_overflow_init ∧ b_rx_notify_pending b = 0 ∧
    b_worker_trace b = wake_trace0 ∧ b_asyncio_trace b = wake_trace0).
  { revert E. unfold aiopquic_ctx_create. destruct (negb (ca_ctx a)); [done|].
    destruct (spsc_ring_create _ _ _); [|done]. destruct (spsc_ring_create _ _ _); [|done].
    destruct (negb _); [done|]. by intros [= <-]. }
  destruct Hb as (Eo & Ep & E1 & E2). split; cbn; rewrite ?Eo, ?Ep, ?E1, ?E2; done.
Qed.

Lemma clear_rx_runs_witness : ∃ s0 w' s', sys_start demo_alloc 8 4 50 64 = Some s0 ∧
  aiopquic_clear_rx (demo_env (λ _, 0)) (y_w s0) = Some (tt, w') ∧ rx_abs 0 w' s' ∧ x_cons s' = CWait.
Proof.
  destruct demo_start as [s0 E]. destruct (start_abs _ _ _ _ _ _ CRun demo_start_ok E) as [A _].
  destruct (clear_rx_runs (demo_env (λ _, 0)) (y_w s0) _ 0 (λ _, eq_refl) A eq_refl eq_refl)
    as (w' & n & s' & E1 & _ & A' & Ec & _); [cbn; lia|]. by exists s0, w', s'.
Defined.

Lemma rx_push_runs_witness : ∃ s0 rc w', sys_start demo_alloc 8 4 50 64 = Some s0 ∧
  aiopquic_rx_push (demo_env (λ _, 0)) (event_entry SPSC_EVT_READY 0 0 0) [1; 2; 3] (y_w s0)
    = Some (rc, w') ∧ (rc = 0 ∨ rc = -2).
Proof.
  destruct demo_start as [s0 E]. destruct (start_abs _ _ _ _ _ _ CRun demo_start_ok E) as [A Eh].
  assert (P : push_ok (demo_env (λ _, 0)) 0 (y_w s0) (St [] [] 0 0 0 PIdle CRun [] []) []).
  { split; [apply demo_env_ok| |cbn; lia]. rewrite Eh.
    split; [apply NoDup_nil_2|intros p [? Hp]; done|]. intros e He. by apply elem_of_nil in He. }
  destruct (rx_push_runs (demo_env (λ _, 0)) _ _ _ _ (event_entry SPSC_EVT_READY 0 0 0) [1; 2; 3]
              (λ _, eq_refl) P A eq_refl eq_refl) as (rc & w' & E1 & H).
  exists s0, rc, w'. split; [done|]. split; [done|]. destruct H as [[-> _]|[-> _]]; auto.
Defined.
