(* ===== verification/CallbackSpec.v ===== *)
(** * What the callbacks do (callback.h)

    Functional properties of the worker's callbacks: which calls into picoquic each
    makes, with which arguments, and what it leaves alone; a [silent] step (Runs.v)
    makes no call.  That the callbacks run to their end is System.v's [bridge_memory_safe]. *)
From S2P Require Import Prelude Ring Store StreamBuf SpscRing EventChannel DgramBuf DgramTable.
From S2P Require Import StreamCtx Bridge Alpn Callback World BridgeSafe StreamCb PySide System Runs.

Lemma silent_fire_drained ev cnx id p : silent (fire_stream_drained ev cnx id p).
Proof. unfold fire_stream_drained, drain_take. keeps_tac. Qed.

(** ** Flow-control credit *)


(** ** Connections that are closing, connections that are gone *)

Lemma says_closing ev cnx w : aiopquic_cnx_closing ev cnx w =
  Some (ev_pq ev (w_trace w) (PqGetCnxState cnx) >=? ev_state_disconnecting ev,
        w_set_trace (w_trace w ++ [(PqGetCnxState cnx, ev_pq ev (w_trace w) (PqGetCnxState cnx))]) w).
Proof. done. Qed.

(** C24. From a connection's close on, stream callbacks do nothing.  When picoquic
    still decodes stream frames of a connection in its disconnecting states, the
    callback asks for the state, counts, and returns: no wrapper is made, read,
    written or released, no event is pushed, no ring or table changes. *)
Theorem no_stream_event_after_close ev race cnx id bytes length data fe p w :
  is_stream_event fe = true ->
  ev_state_disconnecting ev <= ev_pq ev (w_trace w) (PqGetCnxState cnx) ->
  ∃ w' s, aiopquic_stream_cb ev race cnx id bytes length data fe p w = Some (0, w') ∧
    res_of w' = res_of w ∧ w_trace w' = w_trace w ++ [(PqGetCnxState cnx, s)] ∧
    b_cnt (w_ctx w') CNT_STREAM_CB_AFTER_CLOSE = u64 (b_cnt (w_ctx w) CNT_STREAM_CB_AFTER_CLOSE + 1).
Proof.
  intros He Hs. unfold aiopquic_stream_cb.
  assert (is_event fe picoquic_callback_request_alpn_list = false) as -> by (by destruct fe).
  assert (is_event fe picoquic_callback_prepare_to_send = false) as -> by (by destruct fe).
  rewrite He. unfold mbind, M_bind, bind. rewrite says_closing.
  rewrite Z.geb_leb, (proj2 (Z.leb_le _ _) Hs). eexists _, _. split; [done|].
  split; [done|]. split; [done|]. cbn. unfold bump_cnt. by rewrite decide_True.
Qed.

Lemma no_stream_event_after_close_witness :
  ∃ w' s, aiopquic_stream_cb (demo_env (λ _, 11)) [] 100 4 1 3 [1; 2; 3] picoquic_callback_stream_data
      0 demo_alpn_world = Some (0, w') ∧
    w_trace w' = w_trace demo_alpn_world ++ [(PqGetCnxState 100, s)].
Proof.
  destruct (no_stream_event_after_close (demo_env (λ _, 11)) [] 100 4 1 3 [1; 2; 3]
    picoquic_callback_stream_data 0 demo_alpn_world) as (w' & s & ? & _ & ? & _);
    [reflexivity|cbn; lia|]. by exists w', s.
Defined.

(** Entries handled whether or not their connection lives. *)
Definition cnx_free (t : Z) : bool :=
  evt_is t SPSC_EVT_TX_CONNECT || evt_is t SPSC_EVT_TX_SET_MAX_CONNECTIONS
  || evt_is t SPSC_EVT_TX_DGRAM_RING_RELEASE || is_wt_event t.

(** C25. An entry of a connection that is gone reaches no connection.  Between
    Python's push and the worker's pop a connection may be freed; the worker then
    makes no picoquic call for the entry, drops the reference it carries, and leaves
    everything else as it is. *)
Theorem dead_connection_untouched ev {W : WtHandler} e w w' : cnx_free (e_event_type e) = false ->
  e_cnx e ∉ ev_cnxs ev (w_trace w) -> tx_dispatch ev e w = Some (tt, w') ->
  w_trace w' = w_trace w ∧ w_rs w' = w_rs w ∧ w_heap w' = w_heap w ∧
  b_rx_event_ring (w_ctx w') = b_rx_event_ring (w_ctx w) ∧
  b_tx_event_ring (w_ctx w') = b_tx_event_ring (w_ctx w) ∧
  b_dgram_table (w_ctx w') = b_dgram_table (w_ctx w) ∧
  b_deferred_resets (w_ctx w') = b_deferred_resets (w_ctx w) ∧
  (if negb (e_stream_ctx e =? 0) && aiopquic_tx_event_owns_sc (e_event_type e)
   then aiopquic_stream_ctx_destroy (e_stream_ctx e) (w_sc w) = Some (w_sc w')
   else w_sc w' = w_sc w).
Proof.
  unfold cnx_free. intros Ht Hd E. apply orb_false_iff in Ht as [Ht H4]. apply orb_false_iff in Ht as [Ht H3].
  apply orb_false_iff in Ht as [H1 H2]. unfold tx_dispatch in E. rewrite H1, H2, H3, H4 in E.
  assert (Hw : ∀ l, e_cnx e ∉ l -> cnx_walk l (e_cnx e) = false).
  { induction l as [|c l IH]; [done|]. intros Hn. apply not_elem_of_cons in Hn as [Hne Hn]. cbn.
    rewrite (proj2 (Z.eqb_neq c _)) by congruence. auto. }
  assert (Ed : tx_dead_cnx e w = Some (tt, w')).
  { destruct (e_cnx e =? 0); [done|]. minv E. injection E0 as <- <-. by rewrite (Hw _ Hd) in E. }
  clear E Hw. unfold tx_dead_cnx in Ed. minv Ed. injection E as _ <-. minv Ed.
  assert (w_trace w0 = w_trace w ∧ w_rs w0 = w_rs w ∧ w_heap w0 = w_heap w ∧ w_sc w0 = w_sc w ∧
    b_rx_event_ring (w_ctx w0) = b_rx_event_ring (w_ctx w) ∧
    b_tx_event_ring (w_ctx w0) = b_tx_event_ring (w_ctx w) ∧
    b_dgram_table (w_ctx w0) = b_dgram_table (w_ctx w) ∧
    b_deferred_resets (w_ctx w0) = b_deferred_resets (w_ctx w)) as (<- & <- & <- & <- & <- & <- & <- & <-).
  { revert E. destruct (_ && _); by intros [= _ <-]. }
  unfold aiopquic_tx_event_release in Ed.
  destruct (negb (e_stream_ctx e =? 0) && aiopquic_tx_event_owns_sc (e_event_type e)); cbn [when] in Ed.
  - unfold on_sc in Ed. destruct (aiopquic_stream_ctx_destroy _ _); [|done]. cbn in Ed.
    injection Ed as Ed. by subst w'.
  - injection Ed as Ed. by subst w'.
Qed.

Lemma dead_connection_untouched_witness : ∃ w',
  @tx_dispatch (demo_env (λ _, 0)) demo_handler (sc_entry SPSC_EVT_TX_STREAM_RESET 4 500 0 7)
    demo_alpn_world = Some (tt, w') ∧ w_trace w' = w_trace demo_alpn_world.
Proof.
  eexists. split; [vm_compute; reflexivity|].
  eapply (dead_connection_untouched (W := demo_handler) (demo_env (λ _, 0))
    (sc_entry SPSC_EVT_TX_STREAM_RESET 4 500 0 7)); [reflexivity| |].
  { cbn. rewrite !not_elem_of_cons. split; [done|]. split; [done|apply not_elem_of_nil]. }
  vm_compute. reflexivity.
Defined.

(** ** Sending on a stream *)

(** C16. FIN goes out with the last byte, never before it.  In one pull, whatever the
    producer does between the worker's loads: the bytes handed to picoquic are the
    next ones of the stream, in order, as many as the packet and a pending reset
    allow; the FIN flag is raised only if it was set before the bytes were counted,
    no reset is pending and every byte accepted so far goes out with it; and the
    stream stays active exactly while sendable bytes remain. *)
Theorem fin_with_the_last_byte ev race cnx id bytes length p w r w' c tx s1 c1 tx1 H q :
  p <> 0 -> sw_scs (w_sc w) !! p = Some c -> sc_tx c = Some tx ->
  sc_run race (w_sc w) = Some s1 -> sw_scs s1 !! p = Some c1 -> sc_tx c1 = Some tx1 ->
  sb_rep tx1 H q -> H + zlen q < 2 ^ 64 -> 0 <= sc_tx_reliable_size c1 < 2 ^ 64 ->
  prepare_to_send ev race cnx id bytes length p w = Some (r, w') ->
  let n := Z.min (tx_limit c1 H q) (u32 length) in
  ∃ fin active buf a,
    w_trace w' = w_trace w ++ (PqProvideStreamDataBuffer bytes n fin active, buf) ::
      (if negb (buf =? 0) && (n >? 0) then [(WriteBuf buf (take (Z.to_nat n) q), a)] else []) ∧
    (fin = true ↔ sb_fin_pending tx <> 0 ∧ sc_tx_reset_pending c1 = 0 ∧ n = zlen q) ∧
    (active = true ↔ n < tx_limit c1 H q).
Proof.
  intros Hp Ec Et Er Ec1 Et1 R Hw Hrel E n. unfold prepare_to_send in E. minv E.
  injection E0 as _ <-. rewrite (proj2 (Z.eqb_neq _ _) Hp) in E. minv E.
  unfold read_sc in E0. cbn in E0. rewrite Ec in E0. injection E0 as <- <-. rewrite Et in E.
  minv E. unfold on_sc in E0. cbn in E0. rewrite Er in E0. injection E0 as _ <-. minv E.
  unfold read_tx in E0. cbn in E0. rewrite Ec1 in E0. cbn in E0. rewrite Et1 in E0.
  injection E0 as <- <-. rewrite (sb_used_eq _ _ _ R) in E. minv E. cbn in E0. rewrite Ec1 in E0.
  cbn in E0. rewrite (tx_sendable_spec _ _ _ _ Et1 R Hw Hrel) in E0. injection E0 as <- <-.
  minv E. unfold read_sc in E0. cbn in E0. rewrite Ec1 in E0. injection E0 as <- <-.
  assert (En : (if tx_limit c1 H q <? u32 length then tx_limit c1 H q else u32 length) = n).
  { unfold n. destruct (Z.ltb_spec (tx_limit c1 H q) (u32 length)); lia. }
  rewrite En in E. clear En.
  pose proof (tx_limit_range c1 H q) as Hlim. pose proof (u32_range length).
  minv E. apply pq_some in E0 as [-> ->]. cbn [w_set_trace w_trace w_set_sc] in E.
  set (fin := negb _ && _ && _) in E. set (active := tx_limit c1 H q >? n) in E.
  set (buf := ev_pq ev _ _) in E.
  assert (Hf : fin = true ↔ sb_fin_pending tx <> 0 ∧ sc_tx_reset_pending c1 = 0 ∧ n = zlen q).
  { unfold fin, aiopquic_stream_buf_fin_pending.
    rewrite !andb_true_iff, negb_true_iff, Z.eqb_neq, !Z.eqb_eq. tauto. }
  assert (Ha : active = true ↔ n < tx_limit c1 H q).
  { unfold active. by rewrite Z.gtb_ltb, Z.ltb_lt. }
  minv E. minv E. injection E as _ <-. apply silent_fire_drained in E1. rewrite E1. clear E1.
  destruct (negb (buf =? 0) && (n >? 0)) eqn:Eb.
  - minv E0. unfold sc_pop_tx, on_sc_val in E. cbn in E. rewrite Ec1 in E. cbn in E. rewrite Et1 in E.
    cbn in E. destruct (stream_buf_pop_spec tx1 H q n R ltac:(lia)) as (tx2 & Epop & _).
    rewrite Z.min_l in Epop by lia. rewrite Epop in E. cbn in E. injection E as <- <-.
    minv E0. injection E0 as _ <-. apply pq_unit_some in E as [a ->].
    exists fin, active, buf, a. rewrite Eb. split; [|done]. cbn. by rewrite <- app_assoc.
  - injection E0 as _ <-. exists fin, active, buf, 0. by rewrite Eb.
Qed.

(** Wrapper 16 with three bytes queued and FIN set behind them. *)
Definition demo_fin_world : world :=
  w_set_sc (ScWorld {[ 16 := sc_set_tx (Some (aiopquic_stream_buf_set_fin demo_tx)) demo_sc ]} (λ _, 0))
    demo_alpn_world.

Lemma fin_with_the_last_byte_witness : ∃ r w' fin active buf a,
  prepare_to_send (demo_env (λ _, 9)) [] 100 4 1 1200 16 demo_fin_world = Some (r, w') ∧
  w_trace w' = w_trace demo_fin_world ++ (PqProvideStreamDataBuffer 1 3 fin active, buf) ::
    (if negb (buf =? 0) && (3 >? 0) then [(WriteBuf buf [1; 2; 3], a)] else []) ∧ fin = true.
Proof.
  assert (R : sb_rep (aiopquic_stream_buf_set_fin demo_tx) 0 [1; 2; 3]).
  { destruct demo_tx_rep. by split. }
  destruct (ran_some (prepare_to_send (demo_env (λ _, 9)) [] 100 4 1 1200 16 demo_fin_world))
    as (r & w' & E); [vm_compute; reflexivity|].
  assert (Hb : 0 + zlen [1; 2; 3] < 2 ^ 64) by (cbn; lia).
  assert (Hn : 16 <> 0) by lia. assert (Hr : 0 <= 0 < 2 ^ 64) by lia.
  destruct (fin_with_the_last_byte (demo_env (λ _, 9)) [] 100 4 1 1200 16 demo_fin_world r w' _
              (aiopquic_stream_buf_set_fin demo_tx) _ _ (aiopquic_stream_buf_set_fin demo_tx) 0
              [1; 2; 3] Hn eq_refl eq_refl eq_refl eq_refl eq_refl R Hb Hr E)
    as (fin & active & buf & a & Etr & Hfin & _).
  exists r, w', fin, active, buf, a. split; [exact E|]. split; [exact Etr|]. by apply Hfin.
Defined.

(** A wrapper whose RX ring of four holds one byte, Python holding one more. *)
Definition demo_rx : stream_buf :=
  StreamBuf [1; 0; 0; 0] 4 3 1 0 0 false AIOPQUIC_FNV1A_INIT AIOPQUIC_FNV1A_INIT.
Definition demo_rx_sc : stream_ctx :=
  sc_set_bytes_pending_release 1 (sc_set_rx (Some demo_rx) (sc_set_refcount 1 stream_ctx0)).
Definition demo_rx_world : world :=
  w_set_fc_raw_cached 0 (w_set_sc (ScWorld {[ 16 := demo_rx_sc ]} (λ _, 0)) demo_alpn_world).


(** ** Sending datagrams *)

Lemma on_db_some {A} db b (f : dgram_buf -> option (A * dgram_buf)) w x w' :
  rs_rings (w_rs w) !! db = Some b -> on_db db f w = Some (x, w') ->
  ∃ b', f b = Some (x, b') ∧
    w' = w_set_rs (RingStore (<[db := b']> (rs_rings (w_rs w))) (rs_alive (w_rs w))) w.
Proof.
  intros Eb E. unfold on_db in E. rewrite Eb in E. cbn in E. destruct (f b) as [[y b']|]; [|done].
  injection E as -> <-. by exists b'.
Qed.

(** Whether anything follows the oldest record is read off the ring's fill. *)
Lemma still_queued b H rec recs : db_rep b H (rec :: recs) ->
  (aiopquic_dgram_buf_used b >? u32 (AIOPQUIC_DGRAM_REC_HDR + zlen rec)) = nonempty recs.
Proof.
  intros R. pose proof (dr_cap R). pose proof (dr_fit R).
  rewrite (dr_used R). rewrite encode_length_cons in *. unfold AIOPQUIC_DGRAM_REC_HDR.
  rewrite u32_small by lia. rewrite Z.gtb_ltb. destruct recs as [|r' recs]; cbn [nonempty].
  - apply Z.ltb_ge. cbn [length encode concat]. change (encode []) with (@nil Z). cbn [length]. lia.
  - apply Z.ltb_lt. rewrite encode_length_cons. lia.
Qed.

(** Reporting the ring drained, the last thing a request does, keeps its records. *)
Lemma drained_keeps_records ev db b H recs cnx w w' :
  rs_rings (w_rs w) !! db = Some b -> db_rep b H recs ->
  (take ← on_db db (λ b, Some (aiopquic_dgram_buf_drain_take b));
   when take
     (rc ← aiopquic_rx_push ev (event_entry SPSC_EVT_DATAGRAM_TX_DRAINED 0 cnx 0) [];
      when (negb (rc =? 0)) (on_db db (λ b, Some (tt, db_set_drain b 1))))) w = Some (tt, w') ->
  w_trace w' = w_trace w ∧ ∃ b', rs_rings (w_rs w') !! db = Some b' ∧ db_rep b' H recs.
Proof.
  intros Eb R E. minv E. apply on_db_some with (b := b) in E0 as (b1 & E0 & ->); [|done].
  assert (R1 : db_rep b1 H recs).
  { injection E0 as _ <-. by apply db_rep_drain. }
  destruct x; cbn [when] in E; [|injection E as <-; split; [done|]; cbn; rewrite lookup_insert_eq; eauto].
  minv E. pose proof (keeps_rx_push ev (f := w_trace) _ _ _ _ _ E1) as Ht.
  pose proof (keeps_rx_push ev (f := w_rs) _ _ _ _ _ E1) as Hr. cbn in Ht, Hr.
  destruct (negb (x =? 0)); cbn [when] in E.
  - assert (El : rs_rings (w_rs w0) !! db = Some b1) by (rewrite Hr; apply lookup_insert_eq).
    apply on_db_some with (b := b1) in E as (b2 & [= <-] & ->); [|done]. split; [done|].
    cbn. rewrite lookup_insert_eq. eexists. split; [done|]. by apply db_rep_drain.
  - injection E as <-. split; [done|]. exists b1. split; [|done]. rewrite Hr. apply lookup_insert_eq.
Qed.

(** C22. One datagram per request, whole and in order.  Asked for a datagram, the worker
    hands over exactly the oldest record when the packet has room for it, saying
    whether more are queued; a larger record stays for a later packet and keeps the
    connection active; with nothing queued, or no ring, it hands over nothing. *)
Theorem datagram_whole_or_later ev cnx bytes length w r w' db b H recs :
  aiopquic_dgram_table_get (b_dgram_table (w_ctx w)) cnx = Some db -> db <> 0 ->
  rs_rings (w_rs w) !! db = Some b -> db_rep b H recs ->
  prepare_datagram ev cnx bytes length w = Some (r, w') ->
  ∃ a a',
    w_trace w' = w_trace w ++
      match recs with
      | [] => [(PqProvideDatagramBuffer bytes 0 false, a)]
      | rec :: recs =>
          if zlen rec <=? u32 length then
            (PqProvideDatagramBuffer bytes (zlen rec) (nonempty recs), a) ::
              (if negb (a =? 0) then [(WriteBuf a rec, a')] else [])
          else [(PqProvideDatagramBuffer bytes 0 true, a)]
      end ∧
    ∃ b' H', rs_rings (w_rs w') !! db = Some b' ∧ db_rep b' H'
      match recs with
      | rec :: recs' => if (zlen rec <=? u32 length) && negb (a =? 0) then recs' else recs
      | [] => []
      end.
Proof.
  intros Et Hd Eb R E. unfold prepare_datagram in E. minv E. injection E0 as _ <-.
  minv E. cbn in E0. rewrite Et in E0. injection E0 as <- <-.
  rewrite (proj2 (Z.eqb_neq _ _) Hd) in E. minv E.
  apply on_db_some with (b := b) in E0 as (b0 & E0 & ->); [|done].
  destruct recs as [|rec recs].
  { rewrite (peek_empty R eq_refl) in E0. injection E0 as <- <-. cbn [Z.eqb] in E.
    minv E. injection E as _ <-. apply pq_unit_some in E0 as [a ->]. exists a, 0. split; [done|].
    cbn. rewrite lookup_insert_eq. by eexists b, H. }
  rewrite (peek_cons R rec recs eq_refl) in E0. injection E0 as <- <-.
  pose proof (dr_recs _ _ _ R) as Hrecs. apply Forall_cons in Hrecs as [[Hrec Hmax] _].
  rewrite (proj2 (Z.eqb_neq (zlen rec) 0)) in E by lia.
  destruct (Z.leb_spec (zlen rec) (u32 length)) as [Hl|Hl]; cbn [andb].
  2: { minv E. apply on_db_some with (b := b) in E0 as (b1 & [= _ <-] & ->); [|apply lookup_insert_eq].
       minv E. injection E as _ <-. apply pq_unit_some in E0 as [a ->]. exists a, 0. split; [done|].
       cbn. rewrite lookup_insert_eq. eexists _, H. split; [done|]. by destruct R. }
  minv E. apply on_db_some with (b := b) in E0 as (b1 & [= <- <-] & ->); [|apply lookup_insert_eq].
  rewrite (still_queued _ _ _ _ R) in E.
  minv E. apply pq_some in E0 as [-> ->]. minv E. injection E as _ <-.
  set (a := ev_pq ev _ _) in E0 |- *. exists a.
  destruct (negb (a =? 0)); cbn [when] in E0.
  2: { injection E0 as _ <-. exists 0. split; [done|]. cbn. rewrite lookup_insert_eq. by eexists b, H. }
  destruct (pop_cons R rec recs eq_refl) as (b1 & Epop & _ & R1).
  minv E0. apply on_db_some with (b := b) in E as (b1' & E & ->); [|apply lookup_insert_eq].
  rewrite Epop in E. injection E as <- <-.
  minv E0. apply pq_unit_some in E as [a' ->]. minv E0. injection E as _ <-.
  minv E0. injection E as _ <-.
  destruct x0. apply drained_keeps_records with (b := b1) (H := H + 4 + zlen rec) (recs := recs) in E0 as [Etr Hb];
    [|apply lookup_insert_eq|done].
  exists a'. split; [|destruct Hb as (b2 & ? & ?); by exists b2, (H + 4 + zlen rec)].
  rewrite Etr. cbn. by rewrite <- app_assoc.
Qed.

(** A ring of two records, that of connection 100. *)
Definition demo_dgram_ring : dgram_buf :=
  DgramBuf [2; 0; 0; 0; 7; 8; 1; 0; 0; 0; 9; 0; 0; 0; 0; 0] 16 15 4 11 0 1 0 2 0 0 0 0 0.

Lemma demo_dgram_ring_rep : db_rep demo_dgram_ring 0 [[7; 8]; [9]].
Proof.
  split; try done; [split; try done|by exists 4|].
  - intros i x Hi. do 11 (destruct i as [|i]; [by injection Hi as <-|]). done.
  - repeat constructor; cbn; lia.
Qed.

Definition demo_dgram_world : world :=
  let t := DgramTable (<[Z.to_nat (home 4 100) := DgramSlot 100 24]> (replicate 4 slot0)) 4 1 0 0 in
  w_set_rs (RingStore {[ 24 := demo_dgram_ring ]} 1)
    (w_set_ctx (b_set_dgram_table t (w_ctx demo_alpn_world)) demo_alpn_world).

Lemma datagram_whole_or_later_witness : ∃ r w' a a',
  prepare_datagram (demo_env (λ _, 9)) 100 1 1200 demo_dgram_world = Some (r, w') ∧
  w_trace w' = w_trace demo_dgram_world ++
    (PqProvideDatagramBuffer 1 2 true, a) :: (if negb (a =? 0) then [(WriteBuf a [7; 8], a')] else []).
Proof.
  destruct (ran_some (prepare_datagram (demo_env (λ _, 9)) 100 1 1200 demo_dgram_world))
    as (r & w' & E); [vm_compute; reflexivity|].
  assert (Et : aiopquic_dgram_table_get (b_dgram_table (w_ctx demo_dgram_world)) 100 = Some 24)
    by (vm_compute; reflexivity).
  assert (Hn : 24 <> 0) by lia.
  destruct (datagram_whole_or_later (demo_env (λ _, 9)) 100 1 1200 demo_dgram_world r w' 24
    demo_dgram_ring 0 _ Et Hn eq_refl demo_dgram_ring_rep E) as (a & a' & Etr & _).
  exists r, w', a, a'. split; [exact E|]. exact Etr.
Defined.
