(* ===== verification/Teardown.v ===== *)
(** * Tearing the bridge down

    What the transport does once its network thread is stopped: the releases and the
    references left in the TX ring are swept, picoquic is freed (making callbacks as
    it goes), the RX events nobody took are released, and aiopquic_ctx_destroy frees
    the rest.  The theorem: from any state the bridge can reach, every step of it is
    defined and nothing stays allocated. *)
From S2P Require Import Prelude Ring Store StreamBuf SpscRing EventChannel DgramBuf DgramTable.
From S2P Require Import StreamCtx Bridge Callback World BridgeSafe StreamCb PySide System.

(** ** The transport's teardown *)

Definition rx_peek : M (option spsc_entry) :=
  λ w, let r := b_rx_event_ring (w_ctx w) in
       match spsc_ring_peek r with
       | None => Some (None, w)
       | Some slot => e ← r_entries r !! Z.to_nat slot; Some (Some e, w)
       end.

Definition rx_pop : M unit :=
  λ w, '(r, h) ← spsc_ring_pop (b_rx_event_ring (w_ctx w)) (w_heap w);
       Some (tt, w_set_heap h (w_set_ctx (b_set_rx_event_ring r (w_ctx w)) w)).

(** The loop over the RX ring and its overflow, [fuel] rounds; [release] is what it does
    to an event before it pops it. *)
Fixpoint release_undrained (release : spsc_entry -> M unit) (fuel : nat) : M unit :=
  match fuel with
  | O => ub
  | S fuel =>
      entry ← rx_peek;
      match entry with
      | None => moved ← rx_refill; if moved =? 0 then ret tt else release_undrained release fuel
      | Some e => release e ;; rx_pop ;; release_undrained release fuel
      end
  end.

(** For the events of raw QUIC (it also frees the link a WebTransport LINK_RELEASE event
    carries: WtTeardown.v). *)
Definition release_undrained_rx : nat -> M unit := release_undrained aiopquic_rx_event_release.

(** Before and after picoquic_free; the network thread is joined, and out of the context. *)
Definition transport_shutdown : M unit :=
  setb (b_set_thread_ctx 0) ;;
  aiopquic_dgram_ring_release_undrained ;; aiopquic_tx_sc_release_undrained.
Definition transport_dealloc (fuel : nat) : M unit :=
  release_undrained_rx fuel ;; aiopquic_ctx_destroy.

(** The callbacks picoquic makes while it is freed. *)
Inductive callbacks (ev : env) `{WtHandler} (s : sys) : sys -> Prop :=
  | callbacks_none : callbacks ev s s
  | callbacks_more s1 s2 race cnx id bytes length data fe p :
      callbacks ev s s1 -> below (y_w s1) ->
      op_ok ev (WkStream race cnx id bytes length data fe p) s1 ->
      sys_step ev (WkStream race cnx id bytes length data fe p) s1 = Some s2 ->
      callbacks ev s s2.

(** ** Clearing a slot *)

Definition clear_ctx (e : spsc_entry) : spsc_entry :=
  {| e_stream_id := e_stream_id e; e_event_type := e_event_type e;
     e_data_length := e_data_length e; e_is_fin := e_is_fin e; e_aux := e_aux e;
     e_data_buf := e_data_buf e; e_cnx := e_cnx e; e_stream_ctx := 0;
     e_error_code := e_error_code e |}.

Lemma ring_rep_set {A} (buf : list A) cap H q i x y : ring_rep buf cap H q -> q !! i = Some x ->
  ring_rep (<[Z.to_nat ((H + Z.of_nat i) mod cap) := y]> buf) cap H (<[i := y]> q).
Proof.
  intros [Hl Hp Hs Hf Ha] Hi. pose proof (lookup_lt_Some _ _ _ Hi) as Hlt.
  pose proof (slot_lt cap (H + Z.of_nat i) Hp).
  split; try done; [by rewrite length_insert|by rewrite length_insert|].
  intros j z Hj. destruct (decide (j = i)) as [->|Hne].
  - rewrite list_lookup_insert_eq in Hj by done. injection Hj as ->.
    by rewrite list_lookup_insert_eq by lia.
  - rewrite list_lookup_insert_ne in Hj by done. pose proof (lookup_lt_Some _ _ _ Hj).
    rewrite list_lookup_insert_ne; [by apply Ha|].
    intros E. apply Z2Nat.inj in E; [|apply slot_lt; lia..]. apply slot_inj in E; lia.
Qed.

Lemma clear_owned done e todo : owned (done ++ clear_ctx e :: todo) = owned (done ++ e :: todo).
Proof. by rewrite !owned_app, !owned_cons. Qed.

Lemma heap_ok_clear h rx done e todo : heap_ok h (rx ++ done ++ e :: todo) ->
  heap_ok h (rx ++ done ++ clear_ctx e :: todo).
Proof.
  assert (Eo : owned (rx ++ done ++ clear_ctx e :: todo) = owned (rx ++ done ++ e :: todo))
    by (rewrite !(owned_app rx), clear_owned; done).
  intros [H1 H2 H3]. split; rewrite ?Eo; try done.
  intros e' He Ho. rewrite !elem_of_app, elem_of_cons in He.
  destruct He as [He|[He|[->|He]]].
  1, 2, 4: apply H3; rewrite ?elem_of_app, ?elem_of_cons; tauto.
  apply (H3 e); [rewrite !elem_of_app, elem_of_cons; tauto|done].
Qed.

Lemma lsum_mid {A} (f : A -> Z) l a k : lsum f (l ++ a :: k) = lsum f l + f a + lsum f k.
Proof. rewrite lsum_app, lsum_cons. lia. Qed.

Section slot.
Context {x xd : Z -> Z} {g : ghost} {w : world} (I : inv x xd g (res_of w)).
Context {done : list spsc_entry} {e : spsc_entry} {todo : list spsc_entry}.
Context (Eq : g_tx g = done ++ e :: todo).

Lemma slot_pos : Z.land (u64 (g_ht g + zlen done)) (r_mask (b_tx_event_ring (w_ctx w)))
  = (g_ht g + zlen done) mod r_capacity (b_tx_event_ring (w_ctx w)).
Proof using I Eq.
  pose proof (iv_tx _ _ _ _ I) as R. change (s_tx (res_of w)) with (b_tx_event_ring (w_ctx w)) in R.
  pose proof (rq_start _ _ _ R). pose proof (rq_nowrap _ _ _ R) as Hw. rewrite Eq, length_app in Hw.
  cbn [length] in Hw. rewrite u64_small by lia. by rewrite (rq_mask_slot _ _ _ R).
Qed.


Lemma tx_slot_read : tx_slot (u64 (g_ht g + zlen done)) w = Some (e, w).
Proof using I Eq.
  pose proof (iv_tx _ _ _ _ I) as R. change (s_tx (res_of w)) with (b_tx_event_ring (w_ctx w)) in R.
  unfold tx_slot. rewrite slot_pos.
  rewrite (rr_at _ _ _ _ (rq_ring _ _ _ R) (length done) e); [done|].
  by rewrite Eq, list_lookup_middle.
Qed.

(** The slot without its wrapper or ring; what it held is Python's again. *)
Lemma sp_slot_clear : wp (tx_slot_clear_ctx (u64 (g_ht g + zlen done)))
  (λ _ w', inv (λ p, x p + tx_ref p e) (λ p, xd p + rel_ref p e)
             (with_tx g (g_ht g) (done ++ clear_ctx e :: todo)) (res_of w')) w.
Proof using I Eq.
  pose proof (iv_tx _ _ _ _ I) as R. change (s_tx (res_of w)) with (b_tx_event_ring (w_ctx w)) in R.
  assert (Hi : g_tx g !! length done = Some e) by (by rewrite Eq, list_lookup_middle).
  unfold wp, tx_slot_clear_ctx. rewrite slot_pos, (rr_at _ _ _ _ (rq_ring _ _ _ R) _ e Hi).
  cbn [mbind option_bind]. rewrite (rq_store_slot _ _ _ R). cbn [mbind option_bind].
  eexists _, _. split; [done|].
  pose proof (ring_rep_set _ _ _ _ _ _ (clear_ctx e) (rq_ring _ _ _ R) Hi) as R'.
  assert (Ei : <[length done := clear_ctx e]> (g_tx g) = done ++ clear_ctx e :: todo).
  { rewrite Eq. by rewrite insert_app_r_alt, Nat.sub_diag by lia. }
  rewrite Ei in R'.
  assert (Hl : zlen (done ++ clear_ctx e :: todo) = zlen (g_tx g))
    by (by rewrite Eq, !length_app).
  assert (Hz : ∀ p, tx_ref p (clear_ctx e) = 0 ∧ rel_ref p (clear_ctx e) = 0) by done.
  assert (Hx : ∀ p, lsum (tx_ref p) (g_tx g)
    = tx_ref p e + lsum (tx_ref p) (done ++ clear_ctx e :: todo)).
  { intros p. rewrite Eq, !lsum_mid. destruct (Hz p). lia. }
  assert (Hxd : ∀ p, lsum (rel_ref p) (g_tx g)
    = rel_ref p e + lsum (rel_ref p) (done ++ clear_ctx e :: todo)).
  { intros p. rewrite Eq, !lsum_mid. destruct (Hz p). lia. }
  destruct I. split; try done; cbn [with_tx g_tx g_rx g_def g_T g_owed g_puts].
  - cbn. destruct R. split; cbn; try done; by rewrite Hl.
  - cbn in *. rewrite Eq in iv_heap. by apply heap_ok_clear.
  - eapply wraps_ext; [|exact iv_sc]. intros p. unfold sc_refs. cbn [with_tx g_tx g_rx g_def].
    rewrite Hx. lia.
  - eapply rings_ext; [|exact iv_db]. intros p. unfold db_refs. cbn [with_tx g_tx g_owed].
    rewrite Hxd. lia.
  - rewrite Eq in iv_good. apply Forall_app in iv_good as [H1 [H2 H3]%Forall_cons].
    apply Forall_app. split; [done|]. apply Forall_cons. split; [|done]. by destruct H2.
  - rewrite Eq in iv_bufs. apply Forall_app in iv_bufs as [H1 [H2 H3]%Forall_cons].
    apply Forall_app. split; [done|]. by apply Forall_cons.
  - intros p. specialize (iv_x p). rewrite Hx in iv_x. lia.
  - intros p. specialize (iv_xd p). rewrite Hxd in iv_xd. lia.
Qed.
End slot.

(** ** The sweeps of the TX ring *)

Definition sweep_rel (e : spsc_entry) : spsc_entry :=
  if (e_event_type e =? SPSC_EVT_TX_DGRAM_RING_RELEASE) && negb (e_stream_ctx e =? 0)
  then clear_ctx e else e.
Definition sweep_sc (e : spsc_entry) : spsc_entry :=
  if aiopquic_tx_event_owns_sc (e_event_type e) then clear_ctx e else e.

Lemma next_slot_index ht (done : list spsc_entry) e :
  u64 (u64 (ht + zlen done) + 1) = u64 (ht + zlen (done ++ [e])).
Proof. rewrite u64_add_l, length_app. f_equal. cbn. lia. Qed.

Lemma with_tx_id g ht : g_ht g = ht -> with_tx g ht (g_tx g) = g.
Proof. by destruct g; intros <-. Qed.

Lemma sp_dgram_sweep todo : ∀ done x xd g w, inv x xd g (res_of w) -> (∀ p, 0 <= xd p) ->
  g_tx g = done ++ todo ->
  wp (dgram_sweep (length todo) (u64 (g_ht g + zlen done)))
    (λ _ w', inv x xd (with_tx g (g_ht g) (done ++ map sweep_rel todo)) (res_of w')) w.
Proof.
  induction todo as [|e todo IH]; intros done x xd g w I X0 Eq; cbn [length dgram_sweep map].
  { apply wp_ret. by rewrite <- Eq, with_tx_id. }
  apply wp_bind. eexists _, _. split; [by apply (tx_slot_read I Eq)|].
  pose proof (iv_good _ _ _ _ I) as Hg. rewrite Eq in Hg. apply Forall_app in Hg as [_ [Hg _]%Forall_cons].
  rewrite (next_slot_index _ _ (sweep_rel e)).
  replace (done ++ sweep_rel e :: map sweep_rel todo) with ((done ++ [sweep_rel e]) ++ map sweep_rel todo)
    by (by rewrite <- app_assoc).
  assert (K : ∀ w', inv x xd (with_tx g (g_ht g) ((done ++ [sweep_rel e]) ++ todo)) (res_of w') ->
    wp (dgram_sweep (length todo) (u64 (g_ht g + zlen (done ++ [sweep_rel e]))))
      (λ _ w', inv x xd (with_tx g (g_ht g) ((done ++ [sweep_rel e]) ++ map sweep_rel todo)) (res_of w')) w')
    by (intros w' I'; by apply (IH _ _ _ _ _ I')).
  apply wp_bind. apply wp_when; intros Hc; [|apply K; unfold sweep_rel; rewrite Hc, <- app_assoc; cbn [app];
    by rewrite <- Eq, with_tx_id].
  assert (Hh : negb (e_stream_ctx e =? 0) && is_release (e_event_type e) = true)
    by (unfold is_release; by rewrite andb_comm).
  apply wp_bind. eapply wp_mono; [apply (sp_ring_drop I); [|apply Hg]|].
  { pose proof (lsum_nonneg (rel_ref (e_stream_ctx e)) done (λ e, proj1 (holds_range _ _ e))).
    pose proof (lsum_nonneg (rel_ref (e_stream_ctx e)) todo (λ e, proj1 (holds_range _ _ e))).
    rewrite Eq, lsum_mid. unfold rel_ref at 2. rewrite holds_self, Z.eqb_refl by done. cbn [c_bool].
    specialize (X0 (e_stream_ctx e)). lia. }
  intros [] w1 I1. eapply wp_mono; [by apply (sp_slot_clear I1 Eq)|]. intros [] w2 I2. apply K.
  unfold sweep_rel. rewrite Hc, <- app_assoc. cbn [app].
  eapply inv_ext; [| |exact I2]; intros p; cbn beta.
  - unfold tx_ref, holds. apply andb_true_iff in Hc as [Ht%Z.eqb_eq _]. rewrite Ht.
    rewrite andb_false_r. cbn. lia.
  - unfold rel_ref, dec. rewrite holds_self by done. lia.
Qed.

Lemma sp_sc_sweep todo : ∀ done x xd g w, inv x xd g (res_of w) -> (∀ p, 0 <= x p) ->
  g_tx g = done ++ todo ->
  wp (sc_sweep (length todo) (u64 (g_ht g + zlen done)))
    (λ _ w', inv x xd (with_tx g (g_ht g) (done ++ map sweep_sc todo)) (res_of w')) w.
Proof.
  induction todo as [|e todo IH]; intros done x xd g w I X0 Eq; cbn [length sc_sweep map].
  { apply wp_ret. by rewrite <- Eq, with_tx_id. }
  apply wp_bind. eexists _, _. split; [by apply (tx_slot_read I Eq)|].
  rewrite (next_slot_index _ _ (sweep_sc e)).
  replace (done ++ sweep_sc e :: map sweep_sc todo) with ((done ++ [sweep_sc e]) ++ map sweep_sc todo)
    by (by rewrite <- app_assoc).
  assert (K : ∀ w', inv x xd (with_tx g (g_ht g) ((done ++ [sweep_sc e]) ++ todo)) (res_of w') ->
    wp (sc_sweep (length todo) (u64 (g_ht g + zlen (done ++ [sweep_sc e]))))
      (λ _ w', inv x xd (with_tx g (g_ht g) ((done ++ [sweep_sc e]) ++ map sweep_sc todo)) (res_of w')) w')
    by (intros w' I'; by apply (IH _ _ _ _ _ I')).
  apply wp_bind. apply (wp_mono _ (λ _ w', inv (λ p, x p - tx_ref p e) xd g (res_of w'))).
  { unfold aiopquic_tx_event_release. apply wp_when; intros Hc.
    - eapply wp_mono; [apply (sp_destroy I)|].
      + pose proof (lsum_nonneg (tx_ref (e_stream_ctx e)) done (λ e, proj1 (holds_range _ _ e))).
        pose proof (lsum_nonneg (tx_ref (e_stream_ctx e)) todo (λ e, proj1 (holds_range _ _ e))).
        rewrite Eq, lsum_mid. unfold tx_ref at 2. rewrite holds_self, Z.eqb_refl by done. cbn [c_bool].
        specialize (X0 (e_stream_ctx e)). lia.
      + intros [] w1 I1. eapply inv_ext; [| |exact I1]; [|done]. intros p. unfold tx_ref, dec.
        by rewrite holds_self.
    - eapply inv_ext; [| |exact I]; [|done]. intros p. unfold tx_ref. rewrite holds_none by done. lia. }
  intros [] w1 I1. apply wp_bind. apply wp_when; intros Hc.
  - eapply wp_mono; [by apply (sp_slot_clear I1 Eq)|]. intros [] w2 I2. apply K.
    unfold sweep_sc. rewrite Hc, <- app_assoc. cbn [app].
    eapply inv_ext; [| |exact I2]; intros p; cbn beta; [lia|].
    assert (Hr : is_release (e_event_type e) = false).
    { unfold is_release. destruct (Z.eqb_spec (e_event_type e) SPSC_EVT_TX_DGRAM_RING_RELEASE) as [E|]; [|done].
      by rewrite E in Hc. }
    unfold rel_ref, holds. rewrite Hr, andb_false_r. cbn. lia.
  - apply K. unfold sweep_sc. rewrite Hc, <- app_assoc. cbn [app]. rewrite <- Eq, with_tx_id by done.
    eapply inv_ext; [| |exact I1]; [|done]. intros p. cbn beta. unfold tx_ref, holds.
    rewrite Hc, andb_false_r. cbn. lia.
Qed.

Lemma swept_refs es p : lsum (tx_ref p) (map sweep_sc (map sweep_rel es)) = 0 ∧
  lsum (rel_ref p) (map sweep_sc (map sweep_rel es)) = 0.
Proof.
  induction es as [|e es [IH1 IH2]]; [done|]. cbn [map]. rewrite !lsum_cons, IH1, IH2.
  assert (H : tx_ref p (sweep_sc (sweep_rel e)) = 0 ∧ rel_ref p (sweep_sc (sweep_rel e)) = 0); [|lia].
  unfold sweep_sc. destruct (aiopquic_tx_event_owns_sc _) eqn:Ho; [done|].
  unfold tx_ref, rel_ref, holds. rewrite Ho, andb_false_r. split; [done|].
  unfold sweep_rel, is_release. destruct ((_ =? _) && negb _) eqn:Hr; [done|].
  rewrite andb_comm in Hr. by rewrite Hr.
Qed.

Lemma drop_owed_spec owed : ∀ w X n, rings X n (b_dgram_table (w_ctx w)) (w_rs w) ->
  (∀ p, 0 <= X p - lsum (owed_ref p) owed) -> Forall owed_good owed ->
  wp (drop_owed owed) (λ _ w', ∃ t st, w' = w_set_rs st (w_set_ctx (b_set_dgram_table t (w_ctx w)) w) ∧
    rings (λ p, X p - lsum (owed_ref p) owed) n t st) w.
Proof.
  induction owed as [|[cnx db] owed IH]; intros w X n G X0 Hgood; cbn [drop_owed].
  { apply wp_ret. exists (b_dgram_table (w_ctx w)), (w_rs w). split; [by destruct w as [[]]|].
    eapply rings_ext; [|exact G]. intros p. unfold lsum. cbn. lia. }
  apply Forall_cons in Hgood as [[Hc _] Hgood]. cbn in Hc.
  assert (Hn : ∀ p, 0 <= lsum (owed_ref p) owed) by (intros; apply lsum_nonneg; intros; apply c_bool_nonneg).
  assert (H1 : ∀ p, 0 <= X p).
  { intros p. specialize (X0 p). rewrite lsum_cons in X0. specialize (Hn p).
    pose proof (c_bool_nonneg (db =? p)). unfold owed_ref at 1 in X0. cbn in X0. lia. }
  destruct (rings_drop G H1 db cnx) as (t & st1 & st & E1 & E2 & G'); [|done|].
  { specialize (X0 db). specialize (Hn db). rewrite lsum_cons in X0. unfold owed_ref at 1 in X0.
    cbn in X0. rewrite Z.eqb_refl in X0. cbn in X0. lia. }
  apply wp_bind. eexists _, _. split.
  { unfold aiopquic_dgram_ring_drop, table_remove_ring, table_op, on_rs, mbind, M_bind, bind.
    rewrite E1. cbn [mbind option_bind w_rs w_set_rs]. rewrite E2. done. }
  cbn [mbind option_bind]. eapply wp_mono.
  - apply (IH _ (λ q, X q - c_bool (q =? db)) n); [exact G'| |done].
    intros p. specialize (X0 p). rewrite lsum_cons in X0. unfold owed_ref at 1 in X0. cbn in X0.
    rewrite (Z.eqb_sym db p) in X0. cbn beta. lia.
  - intros [] w' (t' & st' & -> & G2). exists t', st'. split; [done|].
    eapply rings_ext; [|exact G2]. intros p. rewrite lsum_cons. unfold owed_ref at 2. cbn.
    rewrite (Z.eqb_sym db p). cbn beta. lia.
Qed.

(** What is left once the TX ring holds no reference and nothing is owed. *)
Definition swept (g : ghost) (tx : list spsc_entry) : ghost := with_owed (with_tx g (g_ht g) tx) [].

Lemma sp_shutdown x xd g w : inv x xd g (res_of w) -> (∀ p, 0 <= x p) -> (∀ p, 0 <= xd p) ->
  Forall owed_good (g_owed g) ->
  wp transport_shutdown (λ _ w', inv x xd (swept g (map sweep_sc (map sweep_rel (g_tx g)))) (res_of w')) w.
Proof.
  intros I X0 XD0 Hgood. unfold transport_shutdown, aiopquic_dgram_ring_release_undrained.
  assert (L : ∀ g w, inv x xd g (res_of w) -> let r := b_tx_event_ring (w_ctx w) in
    Z.to_nat (r_tail r - r_head r) = length (g_tx g) ∧ r_head r = u64 (g_ht g + zlen (@nil spsc_entry))).
  { clear. intros g w I r. pose proof (iv_tx _ _ _ _ I) as R. change (s_tx (res_of w)) with r in R.
    pose proof (rq_start _ _ _ R). pose proof (rq_nowrap _ _ _ R).
    rewrite (rq_tail _ _ _ R), (rq_head _ _ _ R), u64_small by (cbn; lia). cbn. lia. }
  apply wp_bind, wp_setb. set (w0 := w_set_ctx _ w).
  assert (I0 : inv x xd g (res_of w0)) by (by destruct I). clearbody w0. clear w I. rename w0 into w, I0 into I.
  apply wp_bind, wp_bind, wp_getb. destruct (L g w I) as [-> ->].
  apply wp_bind. eapply wp_mono; [by apply (sp_dgram_sweep (g_tx g) [] x xd g w)|].
  cbn [app]. set (tx1 := map sweep_rel (g_tx g)). intros [] w1 I1.
  apply wp_bind, wp_getb. apply wp_bind.
  pose proof (iv_owed _ _ _ _ I1) as Eo. change (s_owed (res_of w1)) with (b_dgram_release_owed (w_ctx w1)) in Eo.
  rewrite Eo. change (g_owed (with_tx g (g_ht g) tx1)) with (g_owed g).
  assert (Hd : ∀ p, 0 <= lsum (rel_ref p) tx1).
  { intros p. apply lsum_nonneg. intros e. apply holds_range. }
  eapply wp_mono; [apply (drop_owed_spec (g_owed g) w1 _ _ (iv_db _ _ _ _ I1)); [|done]|].
  { intros p. unfold db_refs. cbn [with_tx g_tx g_owed]. specialize (XD0 p). specialize (Hd p). lia. }
  intros [] w2 (t & st & -> & G). apply wp_setb.
  assert (I2 : inv x xd (swept g tx1)
    (res_of (w_set_rs st (w_set_ctx (b_set_dgram_release_owed [] (b_set_dgram_table t (w_ctx w1))) w1)))).
  { destruct I1. split; try done.
    eapply rings_ext; [|exact G]. intros p. unfold db_refs, swept, with_owed, with_tx. cbn [g_tx g_owed].
    replace (lsum (owed_ref p) []) with 0 by done. lia. }
  change (w_set_ctx _ _) with
    (w_set_rs st (w_set_ctx (b_set_dgram_release_owed [] (b_set_dgram_table t (w_ctx w1))) w1)).
  unfold aiopquic_tx_sc_release_undrained. apply wp_bind, wp_getb. destruct (L _ _ I2) as [-> ->].
  eapply wp_mono; [by apply (sp_sc_sweep tx1 [] x xd (swept g tx1))|]. by intros [] w3 I3.
Qed.

(** ** The RX events nobody took *)

Lemma sp_rx_release x xd g w e q : inv x xd g (res_of w) -> (∀ p, 0 <= x p) -> g_rx g = e :: q ->
  wp (aiopquic_rx_event_release e) (λ _ w', ∃ s', w' = w_set_sc s' w ∧
    wraps (g_T g) (λ p, sc_refs x g p - rx_ref p e) (map d_sc (g_def g)) s') w.
Proof.
  intros I X0 Eq. pose proof (iv_sc _ _ _ _ I) as W. change (s_sc (res_of w)) with (w_sc w) in W.
  unfold aiopquic_rx_event_release. apply wp_when; intros Ho.
  2: { exists (w_sc w). split; [by destruct w|]. eapply wraps_ext; [|exact W]. intros p. unfold rx_ref.
       rewrite holds_none by done. lia. }
  assert (Hown : ∀ p, c_bool (p =? e_stream_ctx e) + lsum (def_ref p) (g_def g) <= sc_refs x g p).
  { intros p. unfold sc_refs. rewrite Eq, lsum_cons. unfold rx_ref at 1. rewrite holds_self by done.
    pose proof (lsum_nonneg (tx_ref p) (g_tx g) (λ e, proj1 (holds_range _ _ e))).
    pose proof (lsum_nonneg (rx_ref p) q (λ e, proj1 (holds_range _ _ e))). specialize (X0 p). lia. }
  destruct (wraps_destroy W (e_stream_ctx e)) as (s' & E & W').
  - specialize (Hown (e_stream_ctx e)). rewrite Z.eqb_refl in Hown. cbn in Hown.
    pose proof (lsum_nonneg (def_ref (e_stream_ctx e)) (g_def g) (λ e, c_bool_nonneg _)). lia.
  - intros d (r & -> & Hd)%list_elem_of_fmap. specialize (Hown (d_sc r)).
    apply elem_of_Permutation in Hd as [ds Hperm]. rewrite (lsum_perm _ _ _ Hperm), lsum_cons in Hown.
    unfold def_ref at 1 in Hown. rewrite Z.eqb_refl in Hown. cbn in Hown.
    pose proof (lsum_nonneg (def_ref (d_sc r)) ds (λ e, c_bool_nonneg _)). lia.
  - eexists _, _. split; [unfold on_sc; rewrite E; done|]. exists s'. split; [done|].
    eapply wraps_ext; [|exact W']. intros p. unfold rx_ref. by rewrite holds_self.
Qed.

(** Peek, release, pop: the head is gone with what it held. *)
Lemma sp_release_pop x xd g w e q1 q2 : inv x xd g (res_of w) -> (∀ p, 0 <= x p) ->
  rq_rep (b_rx_event_ring (w_ctx w)) (g_hr g) (e :: q1) -> o_nodes (b_rx_overflow (w_ctx w)) = q2 ->
  o_depth (b_rx_overflow (w_ctx w)) = zlen q2 -> g_rx g = (e :: q1) ++ q2 ->
  wp (aiopquic_rx_event_release e) (λ _ w1,
    wp rx_pop (λ _ w', inv x xd (rx_popped g (q1 ++ q2)) (res_of w')) w1) w.
Proof.
  intros I X0 R En Ed Eq. eapply wp_mono; [by apply (sp_rx_release _ _ _ _ _ _ I X0 Eq)|].
  intros [] w1 (s' & -> & W). unfold wp, rx_pop. cbn [w_set_sc w_ctx w_heap].
  assert (Hh : heap_ok (w_heap w) (e :: ((q1 ++ q2) ++ g_tx g))).
  { pose proof (iv_heap _ _ _ _ I) as Hh. rewrite Eq in Hh. exact Hh. }
  destruct (heap_ok_free _ _ _ Hh) as [Hlive Hh'].
  destruct (rq_pop _ _ _ _ (w_heap w) R Hlive) as (r' & E & R' & _). rewrite E. cbn [mbind option_bind].
  eexists _, _. split; [done|].
  assert (Hx : ∀ p, lsum (rx_ref p) (g_rx g) = rx_ref p e + lsum (rx_ref p) (q1 ++ q2))
    by (intros; by rewrite Eq).
  destruct I. split; try done; cbn [rx_popped g_tx g_rx g_def g_T g_owed g_puts].
  - by exists q1, q2.
  - eapply wraps_ext; [|exact W]. intros p. unfold sc_refs. cbn [rx_popped g_tx g_rx g_def].
    rewrite Hx. lia.
Qed.

Definition rx_empty (g : ghost) (hr : Z) : ghost :=
  Ghost (g_ht g) (g_tx g) hr [] (g_def g) (g_owed g) (g_puts g) (g_T g) (g_wt g).

Lemma rx_peek_spec w H q : rq_rep (b_rx_event_ring (w_ctx w)) H q ->
  rx_peek w = Some (match q with e :: _ => Some e | [] => None end, w).
Proof.
  intros R. unfold rx_peek. rewrite (rq_peek _ _ _ R). destruct q as [|e q]; [done|].
  by rewrite (rq_head_entry _ _ _ _ R).
Qed.

(** The loop keeps what one round keeps: [P], with the events popped. *)
Section drain.
Context (release : spsc_entry -> M unit) (P : ghost -> world -> Prop).
Context (P_inv : ∀ g w, P g w -> ∃ x xd, inv x xd g (res_of w)).
Context (P_refill : ∀ g w r o,
  let w' := w_set_ctx (b_set_rx_overflow o (b_set_rx_event_ring r (w_ctx w))) w in
  P g w -> (∀ x xd, inv x xd g (res_of w) -> inv x xd g (res_of w')) -> P g w').
Context (P_release : ∀ g w e q1 q2, P g w ->
  rq_rep (b_rx_event_ring (w_ctx w)) (g_hr g) (e :: q1) -> o_nodes (b_rx_overflow (w_ctx w)) = q2 ->
  o_depth (b_rx_overflow (w_ctx w)) = zlen q2 -> g_rx g = (e :: q1) ++ q2 ->
  wp (release e) (λ _ w1, wp rx_pop (λ _ w', P (rx_popped g (q1 ++ q2)) w') w1) w).

Lemma sp_release_undrained n : ∀ g w, P g w -> g_hr g + zlen (g_rx g) < 2 ^ 64 ->
  (2 * length (g_rx g) < n)%nat ->
  wp (release_undrained release n) (λ _ w', ∃ hr, P (rx_empty g hr) w') w.
Proof using P_inv P_refill P_release.
  induction (lt_wf n) as [n _ IH]. intros g w I Hroom Hn.
  assert (K : ∀ n' w e q1 q2, (n' < n)%nat -> P g w ->
    rq_rep (b_rx_event_ring (w_ctx w)) (g_hr g) (e :: q1) -> o_nodes (b_rx_overflow (w_ctx w)) = q2 ->
    o_depth (b_rx_overflow (w_ctx w)) = zlen q2 -> g_rx g = (e :: q1) ++ q2 ->
    (2 * length (q1 ++ q2) < n')%nat ->
    wp (release e ;; rx_pop ;; release_undrained release n') (λ _ w', ∃ hr, P (rx_empty g hr) w') w).
  { clear w I Hn. intros n' w e q1 q2 Hlt I R En Ed Eq Hn. apply wp_bind.
    eapply wp_mono; [by apply (P_release _ _ _ _ _ I R En Ed Eq)|].
    intros [] w1 H1. apply wp_bind. eapply wp_mono; [exact H1|]. intros [] w2 I2.
    eapply wp_mono; [apply (IH n' Hlt _ w2 I2)|].
    - cbn. rewrite Eq in Hroom. cbn [length app] in Hroom. lia.
    - done.
    - intros [] w3 [hr I3]. by exists hr. }
  destruct (P_inv g w I) as (x & xd & Iw). destruct (iv_rx _ _ _ _ Iw) as (q1 & q2 & R & En & Ed & Eq).
  change (s_rx (res_of w)) with (b_rx_event_ring (w_ctx w)) in R.
  change (s_ovf (res_of w)) with (b_rx_overflow (w_ctx w)) in En, Ed.
  destruct n as [|n]; [lia|]. cbn [release_undrained]. apply wp_bind.
  eexists _, _. split; [exact (rx_peek_spec _ _ _ R)|].
  destruct q1 as [|e q1].
  2: { eapply K; try done; [lia|]. rewrite Eq in Hn. cbn [length app] in Hn. lia. }
  apply wp_bind. destruct (refill_raw _ _ _ _ _ R En Ed) as (r' & o' & q1' & q2' & E & R' & En' & Ed' & Eq' & El & _).
  { rewrite Eq in Hroom. cbn in *. lia. }
  eexists _, _. split; [unfold rx_refill; by rewrite E|]. pose proof (rq_cap _ _ _ R).
  set (w1 := w_set_ctx _ w).
  assert (I1 : P g w1).
  { apply P_refill; [done|]. clear x xd Iw. intros x xd Iw. destruct Iw. split; try done. exists q1', q2'.
    split_and!; try done. by rewrite Eq', Eq. }
  destruct q2 as [|e2 q2].
  - cbn [length] in *. rewrite Z.min_l by lia. cbn. apply wp_ret. exists (g_hr g).
    replace (rx_empty g (g_hr g)) with g; [done|]. destruct g. unfold rx_empty. cbn in *. by rewrite Eq.
  - cbn [length] in El |- *. rewrite (proj2 (Z.eqb_neq _ _)) by lia.
    destruct q1' as [|e q1']; [cbn in El; lia|].
    destruct n as [|n]; [rewrite Eq in Hn; cbn in Hn; lia|]. cbn [release_undrained].
    apply wp_bind. eexists _, _. split; [exact (rx_peek_spec w1 _ _ R')|].
    eapply K; try done; [lia|by rewrite Eq', Eq|].
    rewrite Eq, <- Eq' in Hn. cbn [length app] in Hn. lia.
Qed.
End drain.

Lemma sp_release_rx n x xd g w : inv x xd g (res_of w) -> (∀ p, 0 <= x p) ->
  g_hr g + zlen (g_rx g) < 2 ^ 64 -> (2 * length (g_rx g) < n)%nat ->
  wp (release_undrained_rx n) (λ _ w', ∃ hr, inv x xd (rx_empty g hr) (res_of w')) w.
Proof.
  intros I X0. apply (sp_release_undrained _ (λ g w, inv x xd g (res_of w))); [eauto|eauto| |done].
  intros g' w' e q1 q2 I'. by apply sp_release_pop.
Qed.

(** ** Destroying the context *)

Lemma free_deferred_spec ds : ∀ w T f, wraps T f (map d_sc ds) (w_sc w) ->
  (∀ p, lsum (def_ref p) ds <= f p) ->
  wp (free_deferred ds) (λ _ w', wraps T (λ p, f p - lsum (def_ref p) ds) [] (w_sc w') ∧
    w_rs w' = w_rs w ∧ w_heap w' = w_heap w ∧
    b_dgram_release_owed (w_ctx w') = b_dgram_release_owed (w_ctx w)) w.
Proof.
  induction ds as [|d ds IH]; intros w T f W Hf; cbn [free_deferred].
  { apply wp_ret. split; [|done]. eapply wraps_ext; [|exact W].
    intros p. replace (lsum (def_ref p) []) with 0 by done. lia. }
  assert (Hd : ∀ p, lsum (def_ref p) (d :: ds) = c_bool (p =? d_sc d) + lsum (def_ref p) ds).
  { intros p. rewrite lsum_cons. unfold def_ref at 1. by rewrite Z.eqb_sym. }
  assert (Hn : ∀ p, 0 <= lsum (def_ref p) ds) by (intros; apply lsum_nonneg; intros; apply c_bool_nonneg).
  assert (Hp : 0 < f (d_sc d)).
  { specialize (Hf (d_sc d)). specialize (Hn (d_sc d)). rewrite Hd, Z.eqb_refl in Hf. cbn in Hf. lia. }
  apply wp_bind, wp_setb. apply wp_bind. unfold aiopquic_deferred_reset_free. apply wp_bind.
  destruct (wraps_update W (d_sc d) (sc_set_tx_reset_pending 0) Hp) as (sc & s1 & _ & E1 & _ & W1).
  { intros sc0 [Hr _] Hrx. split_and!; try done; apply Hr. }
  eexists _, _. split; [unfold upd_sc, on_sc; cbn [w_sc w_set_ctx]; rewrite E1; done|].
  assert (W2 : wraps T f (map d_sc ds) s1).
  { eapply wraps_sub; [|exact W1]. intros p Hin. cbn [map]. by right. }
  destruct (wraps_destroy W2 (d_sc d) Hp) as (s2 & E2 & W3).
  { intros p (r & -> & Hr)%list_elem_of_fmap. specialize (Hf (d_sc r)). rewrite Hd in Hf.
    apply elem_of_Permutation in Hr as [rs Hperm]. rewrite (lsum_perm _ _ _ Hperm), lsum_cons in Hf.
    unfold def_ref at 1 in Hf. rewrite Z.eqb_refl in Hf. cbn in Hf.
    pose proof (lsum_nonneg (def_ref (d_sc r)) rs (λ e, c_bool_nonneg _)). lia. }
  eexists _, _. split; [unfold on_sc; cbn [w_sc w_set_ctx w_set_sc]; rewrite E2; done|].
  eapply wp_mono.
  { apply (IH _ T (λ q, f q - c_bool (q =? d_sc d))); [exact W3|].
    intros p. specialize (Hf p). rewrite Hd in Hf. cbn beta. lia. }
  intros [] w' (W' & ? & ? & ?). split; [|done].
  eapply wraps_ext; [|exact W']. intros p. rewrite Hd. cbn beta. lia.
Qed.

(** Nothing is allocated: no wrapper, no datagram ring, no payload; and the counters
    of rings alive and of wrappers made and freed say so. *)
Record all_freed (w : world) : Prop := {
  af_sc : sw_scs (w_sc w) = ∅;
  af_rs : w_rs w = RingStore ∅ 0;
  af_heap : w_heap w = ∅;
  af_counts : sw_g (w_sc w) CNT_SC_CREATED = u64 (sw_g (w_sc w) CNT_SC_DESTROYED)
}.

Lemma heap_freed h es : heap_ok h es -> free_nodes es h = Some ∅.
Proof.
  intros [H1 H2 H3]. destruct (free_nodes_spec es h H1) as (h' & E & Hh').
  { intros p (e & He & Ho & <-)%owned_elem. destruct (H3 e He Ho) as (bs & -> & _). done. }
  rewrite E. f_equal. apply map_eq. intros p. rewrite Hh', lookup_empty. case_decide; [done|].
  destruct (h !! p) eqn:Ep; [|done]. exfalso. eauto.
Qed.

(** A table nobody else has references behind frees every ring in it. *)
Lemma table_freed t m st f : tbl_rep t m -> rs_ok st f -> (∀ p, f p = refs m p) ->
  aiopquic_dgram_table_destroy t st = Some (dgram_table0, RingStore ∅ 0).
Proof.
  intros T O Hf. destruct (table_destroy_spec _ m st _ T O) as ([rings alive] & -> & [O1 O2]).
  { intros p. rewrite Hf. lia. }
  do 2 f_equal. cbn in O1, O2. assert (rings = ∅) as ->; [|by rewrite O2, map_size_empty].
  eapply rc_ok_nil; [exact O1|]. intros p. cbn beta. rewrite Hf. lia.
Qed.

Lemma sp_ctx_destroy g hr w : inv (λ _, 0) (λ _, 0) (rx_empty g hr) (res_of w) ->
  (∀ p, lsum (tx_ref p) (g_tx g) = 0 ∧ lsum (rel_ref p) (g_tx g) = 0) -> g_owed g = [] ->
  wp aiopquic_ctx_destroy (λ _ w', all_freed w') w.
Proof.
  intros I Hrefs Ho. destruct (iv_rx _ _ _ _ I) as (q1 & q2 & R & En & Ed & Eq).
  symmetry in Eq. apply app_nil in Eq as [-> ->].
  change (s_rx (res_of w)) with (b_rx_event_ring (w_ctx w)) in R.
  change (s_ovf (res_of w)) with (b_rx_overflow (w_ctx w)) in En.
  pose proof (iv_tx _ _ _ _ I) as Rt. change (s_tx (res_of w)) with (b_tx_event_ring (w_ctx w)) in Rt.
  unfold aiopquic_ctx_destroy. apply wp_bind. eexists _, _. split.
  { unfold spsc_overflow_destroy. rewrite En. done. }
  apply wp_bind. eexists _, _. split.
  { unfold on_heap, spsc_ring_destroy. cbn [w_ctx w_set_ctx w_set_heap w_heap b_set_rx_overflow b_rx_event_ring].
    rewrite (rq_tail _ _ _ R), (rq_head _ _ _ R). cbn [length]. rewrite Z.add_0_r, Z.sub_diag. done. }
  apply wp_bind. eexists _, _. split.
  { unfold on_heap, spsc_ring_destroy. cbn [w_ctx w_set_ctx w_set_heap w_heap b_set_rx_overflow b_tx_event_ring].
    rewrite (rq_tail _ _ _ Rt), (rq_head _ _ _ Rt). replace (Z.to_nat _) with (length (g_tx g)) by (cbn; lia).
    change (g_tx g) with (g_tx (rx_empty g hr)). rewrite (destroy_loop_spec _ _ _ _ Rt).
    pose proof (heap_freed _ _ (iv_heap _ _ _ _ I)) as Eh. cbn in Eh |- *. rewrite Eh. done. }
  destruct (iv_db _ _ _ _ I) as [(m & T & O) _ _ _ _].
  change (s_tab (res_of w)) with (b_dgram_table (w_ctx w)) in T. change (s_rs (res_of w)) with (w_rs w) in O.
  assert (Hdb : ∀ p, db_refs (λ _, 0) (rx_empty g hr) p = 0).
  { intros p. unfold db_refs. cbn [rx_empty g_tx g_owed]. destruct (Hrefs p) as [_ ->]. by rewrite Ho. }
  apply wp_bind. eexists _, _. split.
  { unfold table_op. cbn [w_ctx w_set_ctx w_set_heap w_heap b_set_rx_overflow b_dgram_table w_rs].
    rewrite (table_freed _ m _ _ T O); [done|]. intros p. cbn beta. rewrite Hdb. lia. }
  apply wp_bind, wp_getb. cbn [w_ctx w_set_rs w_set_ctx b_set_dgram_table b_deferred_resets w_set_heap b_set_rx_overflow].
  pose proof (iv_def _ _ _ _ I) as Edf. change (s_def (res_of w)) with (b_deferred_resets (w_ctx w)) in Edf.
  rewrite Edf. cbn [rx_empty g_def]. apply wp_bind. eapply wp_mono.
  { eapply free_deferred_spec; [exact (iv_sc _ _ _ _ I)|]. intros p. unfold sc_refs.
    cbn [rx_empty g_tx g_rx g_def]. destruct (Hrefs p) as [-> _].
    replace (lsum (rx_ref p) []) with 0 by done. lia. }
  intros [] w1 (W1 & Er & Eh & Eow). apply wp_bind, wp_setb, wp_bind, wp_getb.
  cbn [w_ctx w_set_ctx b_set_close_reasons b_dgram_release_owed]. rewrite Eow.
  cbn [w_ctx w_set_rs w_set_ctx b_set_dgram_table b_dgram_release_owed w_set_heap b_set_rx_overflow].
  pose proof (iv_owed _ _ _ _ I) as Eo. change (s_owed (res_of w)) with (b_dgram_release_owed (w_ctx w)) in Eo.
  rewrite Eo. cbn [rx_empty g_owed]. rewrite Ho. cbn [unref_owed]. apply wp_bind, wp_ret, wp_setb.
  assert (Es : sw_scs (w_sc w1) = ∅).
  { eapply rc_ok_nil; [exact (si_refs _ _ _ (wr_inv _ _ _ _ W1))|]. intros p. cbn beta. unfold sc_refs.
    cbn [rx_empty g_tx g_rx g_def]. destruct (Hrefs p) as [-> _].
    replace (lsum (rx_ref p) []) with 0 by done. lia. }
  split; cbn [w_sc w_rs w_heap w_set_ctx]; [done|by rewrite Er|by rewrite Eh|].
  rewrite (si_alive _ _ _ (wr_inv _ _ _ _ W1)), Es, map_size_empty. f_equal. lia.
Qed.

(** ** From any reachable state *)

Section teardown.
Context {ev : env} (Eok : env_ok ev) `{WtHandler}.

(** What callbacks made after the sweep keep. *)
Lemma callbacks_keep s s' xd g : callbacks ev s s' -> inv (y_x s) xd g (res_of (y_w s)) ->
  (∀ p, 0 <= y_x s p) -> g_T g <= y_bytes s ->
  ∃ g', inv (y_x s') xd g' (res_of (y_w s')) ∧ (∀ p, 0 <= y_x s' p) ∧ y_xd s' = y_xd s ∧
    g_T g' <= y_bytes s' ∧ g_tx g' = g_tx g ∧ g_owed g' = g_owed g.
Proof using Eok.
  intros C I X0 HT. induction C as [|s1 s2 race cnx id bytes length data fe p C IH Hb Ho Es].
  { by exists g. }
  destruct IH as (g1 & I1 & X1 & Exd & HT1 & Etx & Eow). destruct Ho as (Hc & Hrace & HB & Hp).
  destruct (stream_kept Eok _ xd g1 _ _ race cnx id bytes length data fe p I1 X1 Hb HT1 Hc Hrace HB Hp)
    as (r & w' & E & x' & g' & I' & Ex & [? _ _ _ ? _ ? _ _]).
  cbn [sys_step] in Es. unfold s_run in Es. rewrite E in Es. injection Es as <-.
  cbn [y_w y_x y_xd y_bytes]. exists g'. split_and!; try congruence; [| |lia].
  - eapply inv_ext; [exact Ex|done|exact I'].
  - intros q. specialize (X1 q). pose proof (c_bool_nonneg (negb (is_live (y_w s1) q) && is_live w' q)).
    unfold created. lia.
Qed.

Context {a : ctx_alloc} {tx_cap rx_cap pct rx_data_cap : Z} {s0 : sys}.
Context (Hok : start_ok tx_cap rx_cap pct rx_data_cap).
Context (Hstart : sys_start a tx_cap rx_cap pct rx_data_cap = Some s0).

(** Nothing leaks.  From any state the bridge can reach, allocations succeeding,
    the teardown is defined at every step: the sweep of the TX ring; then, whatever
    callbacks picoquic makes while it is freed and once Python has dropped what it
    holds, the release of the RX events nobody took and the destruction of the
    context, after which no wrapper, datagram ring or payload block is left and as
    many wrappers were freed as made. *)
Theorem teardown_frees_everything s : reach ev s0 s -> (∀ t, ev_ok ev t = true) ->
  ∃ w1, transport_shutdown (y_w s) = Some (tt, w1) ∧
  ∀ s2 fuel, callbacks ev (Sys w1 (y_x s) (y_xd s) (y_marks s) (y_bytes s)) s2 ->
    below (y_w s2) -> (∀ p, y_x s2 p = 0) -> (∀ p, y_xd s2 p = 0) ->
    2 * (spsc_ring_count (b_rx_event_ring (w_ctx (y_w s2)))
         + o_depth (b_rx_overflow (w_ctx (y_w s2)))) < Z.of_nat fuel ->
    ∃ w3, transport_dealloc fuel (y_w s2) = Some (tt, w3) ∧ all_freed w3.
Proof using Eok Hok Hstart.
  intros Hr Hall. destruct (reach_inv Eok Hok Hstart s Hr) as (g & lk & Y).
  pose proof (yi_lost _ _ _ _ Y Hall) as Hl. pose proof (yi_xd _ _ _ _ Y) as XD0.
  assert (I : inv (y_x s) (y_xd s) g (res_of (y_w s))).
  { eapply inv_ext; [| |exact (raw_inv _ _ _ Y)]; [done|]. intros p. cbn. rewrite Hl. lia. }
  destruct (sp_shutdown _ _ _ _ I (yi_x _ _ _ _ Y) XD0 (yi_owed _ _ _ _ Y)) as ([] & w1 & E1 & I1).
  exists w1. split; [done|]. intros s2 fuel C Hb2 Hx Hxd Hfuel.
  destruct (callbacks_keep _ _ (y_xd s) _ C I1 (yi_x _ _ _ _ Y) (yi_T _ _ _ _ Y))
    as (g2 & I2 & X2 & Exd & _ & Etx & Eow). cbn [y_xd] in Exd.
  assert (I3 : inv (λ _, 0) (λ _, 0) g2 (res_of (y_w s2))).
  { eapply inv_ext; [| |exact I2]; intros p; [done|]. by rewrite <- Exd, Hxd. }
  assert (W : wp (transport_dealloc fuel) (λ _ w3, all_freed w3) (y_w s2)).
  2: { destruct W as ([] & w3 & E3 & F). by exists w3. }
  unfold transport_dealloc. apply wp_bind.
  destruct (iv_rx _ _ _ _ I3) as (q1 & q2 & R & En & Ed & Eq).
  eapply wp_mono; [apply (sp_release_rx fuel _ _ _ _ I3); [done| |]|].
  - pose proof (held_room I3 Hb2) as Hroom. unfold rx_room in Hroom. lia.
  - cbn in R, Ed. rewrite (rq_count _ _ _ R), Ed in Hfuel. rewrite Eq, length_app. lia.
  - intros [] w4 [hr I4]. apply (sp_ctx_destroy g2 hr w4 I4); [|by rewrite Eow].
    intros p. rewrite Etx. apply swept_refs.
Qed.
End teardown.

(** ** A concrete run *)

(** [below], computed. *)
Definition belowb (w : world) : bool :=
  let b := w_ctx w in
  (r_tail (b_tx_event_ring b) + zlen (b_dgram_release_owed b) <? 2 ^ 63)
  && (r_tail (b_rx_event_ring b) + o_depth (b_rx_overflow b) <? 2 ^ 63)
  && forallb (λ kv, sc_refcount kv.2 <? 2 ^ 31) (map_to_list (sw_scs (w_sc w)))
  && forallb (λ kv, db_refcnt kv.2 <? 2 ^ 31) (map_to_list (rs_rings (w_rs w))).

Lemma belowb_below w : belowb w = true -> below w.
Proof.
  unfold belowb, below. rewrite !andb_true_iff, !Z.ltb_lt, !forallb_forall.
  intros [[[? ?] Hs] Hr]. split_and!; [done|done| |]; intros p y E%elem_of_map_to_list.
  - apply list_elem_of_In in E. specialize (Hs _ E). by apply Z.ltb_lt in Hs.
  - apply list_elem_of_In in E. specialize (Hr _ E). by apply Z.ltb_lt in Hr.
Qed.

Definition demo_mark : spsc_entry := sc_entry SPSC_EVT_TX_MARK_ACTIVE 4 100 16 0.
Definition demo_ops : list sys_op := [PySc (ScCreate 16); PyPush demo_mark []; PySc (ScDestroy 16)].
Definition demo_at (n : nat) : option sys :=
  foldl (λ s o, s ← s; @sys_step (demo_env (λ _, 0)) demo_handler o s)
    (sys_start demo_alloc 8 4 50 64) (take n demo_ops).

Lemma demo_step n o s : demo_ops !! n = Some o -> demo_at (S n) = Some s ->
  ∃ s1, demo_at n = Some s1 ∧ @sys_step (demo_env (λ _, 0)) demo_handler o s1 = Some s.
Proof.
  intros Ho. unfold demo_at at 1. rewrite (take_S_r _ _ _ Ho), foldl_app. cbn [foldl].
  fold (demo_at n). destruct (demo_at n) as [s1|]; [|done]. cbn [mbind option_bind]. eauto.
Qed.

Lemma demo_fact {B} (f : sys -> B) n s v : demo_at n = Some s ->
  option_map f (demo_at n) = Some v -> f s = v.
Proof. intros ->. cbn. by intros [=]. Qed.

Lemma demo_below n s : demo_at n = Some s ->
  option_map (λ s, belowb (y_w s)) (demo_at n) = Some true -> below (y_w s).
Proof. intros E Hb. by apply belowb_below, (demo_fact (λ s, belowb (y_w s)) n s). Qed.

(** Python makes wrapper 16, asks for a pull on its stream, and lets go of it: only
    the queued event keeps it. *)
Lemma demo_reached : ∃ s0 s, sys_start demo_alloc 8 4 50 64 = Some s0 ∧ demo_at 3 = Some s ∧
  @reach (demo_env (λ _, 0)) demo_handler s0 s.
Proof.
  assert (E3 : is_Some (demo_at 3)) by (vm_compute; eauto).
  destruct E3 as [s3 E3]. destruct (demo_step 2 _ _ eq_refl E3) as (s2 & E2 & S2).
  destruct (demo_step 1 _ _ eq_refl E2) as (s1 & E1 & S1).
  destruct (demo_step 0 _ _ eq_refl E1) as (s0 & E0 & S0).
  exists s0, s3. split; [exact E0|]. split; [done|].
  pose proof (start_below _ _ _ _ _ _ demo_start_ok E0) as B0.
  assert (B1 : below (y_w s1)) by (apply (demo_below 1 _ E1); vm_compute; done).
  assert (B2 : below (y_w s2)) by (apply (demo_below 2 _ E2); vm_compute; done).
  pose proof (demo_fact y_bytes 0 _ 0 E0 ltac:(vm_compute; done)) as Eb0.
  pose proof (demo_fact (λ s, is_live (y_w s) 16) 0 _ false E0 ltac:(vm_compute; done)) as El.
  pose proof (demo_fact (λ s, y_x s 16) 1 _ 1 E1 ltac:(vm_compute; done)) as Ex1.
  pose proof (demo_fact y_marks 1 _ 0 E1 ltac:(vm_compute; done)) as Em1.
  pose proof (demo_fact (λ s, y_x s 16) 2 _ 1 E2 ltac:(vm_compute; done)) as Ex2.
  pose proof (demo_fact y_bytes 2 _ 0 E2 ltac:(vm_compute; done)) as Eb2.
  eapply reach_step with (o := PySc (ScDestroy 16)); [|exact B2| |exact S2].
  2: { cbn. cbn in Ex2. rewrite Eb2, Ex2. lia. }
  eapply reach_step with (o := PyPush demo_mark []); [|exact B1| |exact S1].
  2: { cbn [op_ok]. cbn in Ex1. rewrite Em1. split_and!; try done; [|intros _ _; cbn; rewrite Ex1; lia].
       split; [|done|by right]. left. exists SPSC_EVT_TX_MARK_ACTIVE. split; [|done].
       unfold raw_tx_types. set_solver. }
  eapply reach_step with (o := PySc (ScCreate 16)); [apply reach_start|exact B0| |exact S0].
  cbn. rewrite Eb0. split; [lia|]. by right.
Qed.

Definition demo_shutdown : option world :=
  match demo_at 3 with
  | Some s => match transport_shutdown (y_w s) with Some (_, w) => Some w | None => None end
  | None => None
  end.

Lemma teardown_frees_everything_witness : ∃ s w1 w3,
  is_live (y_w s) 16 = true ∧ transport_shutdown (y_w s) = Some (tt, w1) ∧
  transport_dealloc 1 w1 = Some (tt, w3) ∧ all_freed w3.
Proof.
  destruct demo_reached as (s0 & s & E0 & E & Hr).
  destruct (teardown_frees_everything (demo_env_ok _) demo_start_ok E0 s Hr (λ _, eq_refl)) as (w1 & E1 & T).
  assert (F : ∀ {B} (f : world -> B) v, option_map f demo_shutdown = Some v -> f w1 = v).
  { intros B f v. unfold demo_shutdown. rewrite E, E1. cbn [option_map]. by intros [=]. }
  assert (Hlive : is_live (y_w s) 16 = true)
    by (apply (demo_fact (λ s, is_live (y_w s) 16) 3 _ true E); vm_compute; done).
  assert (Hb : below w1) by (apply belowb_below, (F _ belowb); vm_compute; done).
  assert (Hx : ∀ p, y_x s p = 0).
  { intros p. rewrite (demo_fact (λ s, y_x s p) 3 _ (op_refs (ScDestroy 16) (op_refs (ScCreate 16) (λ _, 0)) p) E);
      [cbn; destruct (p =? 16); cbn; lia|vm_compute; done]. }
  assert (Hxd : ∀ p, y_xd s p = 0)
    by (intros p; apply (demo_fact (λ s, y_xd s p) 3 _ 0 E); vm_compute; done).
  destruct (T (Sys w1 (y_x s) (y_xd s) (y_marks s) (y_bytes s)) 1%nat) as (w3 & E3 & A);
    [apply callbacks_none|exact Hb|exact Hx|exact Hxd| |].
  { cbn [y_w]. rewrite (F _ (λ w, 2 * (spsc_ring_count (b_rx_event_ring (w_ctx w))
      + o_depth (b_rx_overflow (w_ctx w)))) 0); [lia|vm_compute; done]. }
  exists s, w1, w3. split; [exact Hlive|]. split; [exact E1|]. split; [exact E3|exact A].
Defined.
