(* ===== verification/WtProto.v ===== *)
(** * WebTransport codes and subprotocol lists (h3wt_callback.h)

    The part of the WebTransport half that is pure: the mapping of 32-bit application
    error codes into the HTTP/3 range and back, the tokenizer of the comma-separated
    lists of subprotocols, the server's choice of one from the client's offer, and the
    length of the preamble of a stream.  C strings are byte lists without their
    terminator.  The theorems: the codes round trip and never hit a reserved codepoint;
    the choice is the first protocol of the client's list that the server supports. *)
From S2P Require Import Prelude Alpn.

(** ** Error codes *)

Definition AIOPQUIC_WT_APP_ERROR_FIRST : Z := 0x52e4a40fa8db.
Definition AIOPQUIC_WT_APP_ERROR_LAST : Z := 0x52e5ac983162.

Definition aiopquic_wt_code_to_h3 (code : Z) : Z :=
  if code >? 0xffffffff then code
  else u64 (AIOPQUIC_WT_APP_ERROR_FIRST + code + code / 0x1e).

Definition aiopquic_wt_code_from_h3 (h : Z) : Z :=
  if (h <? AIOPQUIC_WT_APP_ERROR_FIRST) || (h >? AIOPQUIC_WT_APP_ERROR_LAST)
     || (u64 (h - 0x21) mod 0x1f =? 0)
  then h
  else let shifted := u64 (h - AIOPQUIC_WT_APP_ERROR_FIRST) in shifted - shifted / 0x1f.

(** ** Lists of subprotocols *)

Definition is_blank (c : Z) : bool := (c =? 32) || (c =? 9).

(** The bytes before the first [c], and the list from it on. *)
Fixpoint span_to (c : Z) (p : list Z) : list Z * list Z :=
  match p with
  | [] => ([], [])
  | x :: p' => if x =? c then ([], p) else let '(a, b) := span_to c p' in (x :: a, b)
  end.

Fixpoint strip_blanks_right (s : list Z) : list Z :=
  match s with
  | [] => []
  | c :: s' => match strip_blanks_right s' with
               | [] => if is_blank c then [] else [c]
               | t => c :: t
               end
  end.

(** One pair of quotes around the item. *)
Definition strip_quotes (s : list Z) : list Z :=
  match s, last s with
  | c :: s', Some c' =>
      if (2 <=? zlen s) && is_quote c && is_quote c' then removelast s' else s
  | _, _ => s
  end.

(** What the code makes of the bytes between two commas, leading blanks skipped. *)
Definition list_item (word : list Z) : list Z :=
  strip_quotes (strip_blanks_right (fst (span_to 59 word))).

(** The item at the cursor and the cursor behind it, [None] at the end of the list. *)
Definition aiopquic_wt_list_next (p : list Z) : option (list Z * list Z) :=
  match skip_seps p with
  | [] => None
  | p => let '(word, rest) := span_to 44 p in Some (list_item word, rest)
  end.

Definition AIOPQUIC_WT_PROTO_NO_MATCH : Z := -1.
Definition AIOPQUIC_WT_PROTO_NONE_OFFERED : Z := 0.
Definition AIOPQUIC_WT_PROTO_SELECTED : Z := 1.

(** Is there an item of non-zero length?  [None]: out of fuel, as below. *)
Fixpoint offer_loop (fuel : nat) (q : list Z) : option bool :=
  match fuel with
  | O => None
  | S fuel =>
      match aiopquic_wt_list_next q with
      | None => Some false
      | Some (o, q) => if zlen o >? 0 then Some true else offer_loop fuel q
      end
  end.

(** The inner loop: [Some item] when [o] is found and fits [sel]. *)
Fixpoint match_loop (fuel : nat) (o p : list Z) : option (option (list Z)) :=
  match fuel with
  | O => None
  | S fuel =>
      match aiopquic_wt_list_next p with
      | None => Some None
      | Some (sv, p) =>
          if (zlen o =? zlen sv) && bool_decide (o = sv) then
            if zlen sv >=? 256 then Some None else Some (Some sv)
          else match_loop fuel o p
      end
  end.

Section select.
(** picowt_set_wt_protocol, of picoquic's picohttp. *)
Context (picowt_set_wt_protocol : list Z -> Z).

(** The result and the argument picowt_set_wt_protocol was called with, if it was. *)
Fixpoint pick_loop (fuel : nat) (q supported : list Z) : option (Z * option (list Z)) :=
  match fuel with
  | O => None
  | S fuel =>
      match aiopquic_wt_list_next q with
      | None => Some (AIOPQUIC_WT_PROTO_NO_MATCH, None)
      | Some (o, q) =>
          if zlen o =? 0 then pick_loop fuel q supported
          else
            match match_loop (S (length supported)) o supported with
            | None => None
            | Some (Some sel) =>
                Some (if picowt_set_wt_protocol sel =? 0 then AIOPQUIC_WT_PROTO_SELECTED
                      else AIOPQUIC_WT_PROTO_NO_MATCH, Some sel)
            | Some None => pick_loop fuel q supported
            end
      end
  end.

Definition aiopquic_wt_select_protocol (offer : option (list Z)) (supported : list Z)
    : option (Z * option (list Z)) :=
  match offer with
  | None => Some (AIOPQUIC_WT_PROTO_NONE_OFFERED, None)
  | Some offer =>
      match offer_loop (S (length offer)) offer with
      | None => None
      | Some false => Some (AIOPQUIC_WT_PROTO_NONE_OFFERED, None)
      | Some true => pick_loop (S (length offer)) offer supported
      end
  end.
End select.

(** ** The preamble of a stream *)

(** [local]: aiopquic_stream_is_local; [v]: the session's control stream id. *)
Definition aiopquic_wt_preamble_len (local : bool) (v : Z) : Z :=
  if negb local then 0
  else 2 + (if v <? 0x40 then 1 else if v <? 0x4000 then 2 else if v <? 0x40000000 then 4 else 8).

(** ** Theorems on the codes *)

(** A code is [30 q + r], its image [FIRST + 31 q + r]. *)
Lemma code_to_h3_small code : 0 <= code < 2 ^ 32 ->
  aiopquic_wt_code_to_h3 code = AIOPQUIC_WT_APP_ERROR_FIRST + code + code / 30.
Proof.
  intros H. unfold aiopquic_wt_code_to_h3, AIOPQUIC_WT_APP_ERROR_FIRST, u64.
  rewrite Z.gtb_ltb. case_bool; [lia|]. apply Z.mod_small. Z.to_euclidean_division_equations. lia.
Qed.

Lemma code_from_h3_app h : AIOPQUIC_WT_APP_ERROR_FIRST <= h <= AIOPQUIC_WT_APP_ERROR_LAST ->
  (h - 33) mod 31 <> 0 ->
  aiopquic_wt_code_from_h3 h
    = h - AIOPQUIC_WT_APP_ERROR_FIRST - (h - AIOPQUIC_WT_APP_ERROR_FIRST) / 31.
Proof.
  unfold aiopquic_wt_code_from_h3, u64. intros H Hr.
  rewrite Z.gtb_ltb, !(Z.mod_small _ (2 ^ 64))
    by (unfold AIOPQUIC_WT_APP_ERROR_FIRST, AIOPQUIC_WT_APP_ERROR_LAST in *; lia).
  by repeat case_bool; cbn [orb]; try lia.
Qed.

(** C38. A 32-bit application code survives the trip through HTTP/3: its image is in
    the WT_APPLICATION_ERROR range, is not a reserved codepoint, and maps back to the
    code; and every codepoint of the range that is not reserved is the image of the
    32-bit code it maps to.  Any larger code passes [aiopquic_wt_code_to_h3]
    unchanged. *)
Theorem wt_code_roundtrip code : 0 <= code ->
  (code < 2 ^ 32 ->
     AIOPQUIC_WT_APP_ERROR_FIRST <= aiopquic_wt_code_to_h3 code <= AIOPQUIC_WT_APP_ERROR_LAST ∧
     (aiopquic_wt_code_to_h3 code - 0x21) mod 0x1f <> 0 ∧
     aiopquic_wt_code_from_h3 (aiopquic_wt_code_to_h3 code) = code) ∧
  (AIOPQUIC_WT_APP_ERROR_FIRST <= code <= AIOPQUIC_WT_APP_ERROR_LAST ->
     (code - 0x21) mod 0x1f <> 0 ->
     0 <= aiopquic_wt_code_from_h3 code < 2 ^ 32 ∧
     aiopquic_wt_code_to_h3 (aiopquic_wt_code_from_h3 code) = code) ∧
  (2 ^ 32 <= code -> aiopquic_wt_code_to_h3 code = code).
Proof.
  intros H0. split_and!.
  - intros H. rewrite code_to_h3_small by lia.
    assert ((AIOPQUIC_WT_APP_ERROR_FIRST + code + code / 30 - 33) mod 31 <> 0 ∧
      AIOPQUIC_WT_APP_ERROR_FIRST <= AIOPQUIC_WT_APP_ERROR_FIRST + code + code / 30
        <= AIOPQUIC_WT_APP_ERROR_LAST) as [Hr Hb]
      by (unfold AIOPQUIC_WT_APP_ERROR_FIRST, AIOPQUIC_WT_APP_ERROR_LAST;
          Z.to_euclidean_division_equations; lia).
    split_and!; [apply Hb..|done|]. rewrite code_from_h3_app by done.
    Z.to_euclidean_division_equations; lia.
  - intros Hb Hr. rewrite code_from_h3_app by done.
    unfold AIOPQUIC_WT_APP_ERROR_FIRST, AIOPQUIC_WT_APP_ERROR_LAST in *.
    split; [Z.to_euclidean_division_equations; lia|].
    rewrite code_to_h3_small by (Z.to_euclidean_division_equations; lia).
    unfold AIOPQUIC_WT_APP_ERROR_FIRST. Z.to_euclidean_division_equations; lia.
  - intros H. unfold aiopquic_wt_code_to_h3. rewrite Z.gtb_ltb. case_bool; [done|lia].
Qed.

Lemma wt_code_roundtrip_witness :
  aiopquic_wt_code_to_h3 30 = 0x52e4a40fa8fa ∧
  aiopquic_wt_code_from_h3 (aiopquic_wt_code_to_h3 30) = 30.
Proof.
  split; [vm_compute; reflexivity|].
  apply (proj1 (wt_code_roundtrip 30 ltac:(lia))). lia.
Defined.

(** ** Theorems on the lists *)

(** The words between commas. *)
Fixpoint split_commas (p : list Z) : list (list Z) :=
  match p with
  | [] => [[]]
  | c :: p' =>
      if c =? 44 then [] :: split_commas p'
      else match split_commas p' with w :: ws => (c :: w) :: ws | [] => [[c]] end
  end.

(** The items of a list: its words that are not blank, each cleaned. *)
Definition csv_items (p : list Z) : list (list Z) :=
  list_item <$> filter (λ w, w <> []) (skip_seps <$> split_commas p).

Lemma csv_items_sep c p : is_sep c = true -> csv_items (c :: p) = csv_items p.
Proof.
  unfold csv_items. intros Hs. cbn [split_commas]. destruct (Z.eqb_spec c 44) as [->|Hc].
  - done.
  - destruct (split_commas p) as [|w ws] eqn:E; cbn; rewrite Hs; [|done].
    destruct p as [|x p]; [done|]. cbn in E. repeat case_match; done.
Qed.

Lemma csv_items_skip p : csv_items (skip_seps p) = csv_items p.
Proof.
  induction p as [|c p IH]; [done|]. cbn [skip_seps]. destruct (is_sep c) eqn:E; [|done].
  by rewrite csv_items_sep.
Qed.

Lemma split_commas_span p : ∀ w rest, span_to 44 p = (w, rest) ->
  (length rest <= length p)%nat ∧
  split_commas p = w :: match rest with [] => [] | _ :: r => split_commas r end.
Proof.
  induction p as [|c p IH]; intros w rest; cbn [span_to split_commas].
  - by intros [= <- <-].
  - destruct (c =? 44); [by intros [= <- <-]|].
    destruct (span_to 44 p) as [a b]. intros [= <- <-]. destruct (IH a b eq_refl) as [Hl ->].
    cbn. split; [lia|done].
Qed.

Lemma span_to_head p : ∀ w c rest, span_to 44 p = (w, c :: rest) -> c = 44.
Proof.
  induction p as [|x p IH]; intros w c rest; cbn [span_to]; [done|].
  destruct (Z.eqb_spec x 44) as [->|]; [by intros [= _ ->]|].
  destruct (span_to 44 p) as [a b]. intros [= <- ->]. by eapply IH.
Qed.

(** One call takes the first item off the list. *)
Lemma list_next_spec p :
  match aiopquic_wt_list_next p with
  | None => csv_items p = []
  | Some (item, rest) => csv_items p = item :: csv_items rest ∧ (length rest < length p)%nat
  end.
Proof.
  unfold aiopquic_wt_list_next. rewrite <- (csv_items_skip p). pose proof (skip_seps_length p) as Hl.
  pose proof (skip_seps_first p) as Hh. destruct (skip_seps p) as [|c q]; [done|].
  destruct (span_to 44 (c :: q)) as [w rest] eqn:E.
  assert (is_sep c = false) as Hc by done.
  cbn [span_to] in E. destruct (Z.eqb_spec c 44) as [->|Hn]; [done|].
  destruct (span_to 44 q) as [a b] eqn:Eq. injection E as <- <-.
  destruct (split_commas_span q a b Eq) as [Hr Es]. split; [|cbn in Hl; lia].
  assert (csv_items (c :: q) = list_item (c :: a) ::
    match b with [] => [] | _ :: r => csv_items r end) as ->.
  { unfold csv_items at 1. cbn [split_commas]. destruct (Z.eqb_spec c 44); [done|]. rewrite Es. cbn.
    rewrite Hc. cbn. f_equal. by destruct b. }
  f_equal. destruct b as [|d b]; [done|]. by rewrite (span_to_head _ _ _ _ Eq), csv_items_sep.
Qed.

Lemma offer_loop_spec fuel : ∀ q, (length q < fuel)%nat ->
  offer_loop fuel q = Some (bool_decide (Exists (λ o, o <> []) (csv_items q))).
Proof.
  induction fuel as [|fuel IH]; intros q Hf; [lia|]. cbn [offer_loop].
  pose proof (list_next_spec q) as Hn. destruct (aiopquic_wt_list_next q) as [[o q']|].
  - destruct Hn as [-> Hl]. destruct o as [|c o]; cbn [length].
    + cbn. rewrite IH by lia. f_equal. apply bool_decide_ext. rewrite Exists_cons. split; [by right|by intros [?|?]].
    + replace (Z.of_nat (S (length o)) >? 0) with true by (rewrite Z.gtb_ltb; symmetry; apply Z.ltb_lt; lia).
      done.
  - by rewrite Hn.
Qed.

(** A protocol the server can answer with. *)
Definition usable (supported : list (list Z)) (o : list Z) : Prop :=
  o <> [] ∧ o ∈ supported ∧ zlen o < 256.

#[export] Instance usable_dec supported o : Decision (usable supported o) := _.

Lemma match_loop_spec o fuel : ∀ p, (length p < fuel)%nat ->
  match_loop fuel o p =
    Some (if bool_decide (o ∈ csv_items p ∧ zlen o < 256) then Some o else None).
Proof.
  induction fuel as [|fuel IH]; intros p Hf; [lia|]. cbn [match_loop].
  pose proof (list_next_spec p) as Hn. destruct (aiopquic_wt_list_next p) as [[sv p']|].
  - destruct Hn as [-> Hl]. destruct (decide (o = sv)) as [<-|Hne].
    + rewrite Z.eqb_refl, bool_decide_eq_true_2 by done. cbn [andb]. rewrite Z.geb_leb.
      case_bool; case_bool_decide as Hd; try done.
      * destruct Hd. lia.
      * exfalso. apply Hd. split; [by left|lia].
    + rewrite (bool_decide_eq_false_2 (o = sv)), andb_false_r by done. rewrite IH by lia.
      f_equal. rewrite (bool_decide_ext (o ∈ sv :: csv_items p' ∧ zlen o < 256)
        (o ∈ csv_items p' ∧ zlen o < 256)); [done|].
      rewrite elem_of_cons. split; [by intros [[?|?] ?]|by intros [? ?]; auto].
  - rewrite Hn. case_bool_decide as Hd; [|done]. by destruct Hd as [?%elem_of_nil _].
Qed.

(** What follows from the item chosen. *)
Definition answer (set : list Z -> Z) (o : option (list Z)) : Z * option (list Z) :=
  match o with
  | Some sel => (if set sel =? 0 then AIOPQUIC_WT_PROTO_SELECTED
                 else AIOPQUIC_WT_PROTO_NO_MATCH, Some sel)
  | None => (AIOPQUIC_WT_PROTO_NO_MATCH, None)
  end.

Lemma list_find_cons_snd {A} (P : A -> Prop) `{!∀ x, Decision (P x)} x l :
  snd <$> list_find P (x :: l) = if decide (P x) then Some x else snd <$> list_find P l.
Proof. cbn [list_find]. destruct (decide (P x)); [done|]. by destruct (list_find P l) as [[]|]. Qed.

(** The loop takes the first usable item of the offer. *)
Lemma pick_loop_spec set supported fuel : ∀ q, (length q < fuel)%nat ->
  pick_loop set fuel q supported =
    Some (answer set (snd <$> list_find (usable (csv_items supported)) (csv_items q))).
Proof.
  induction fuel as [|fuel IH]; intros q Hf; [lia|]. cbn [pick_loop].
  pose proof (list_next_spec q) as Hn. destruct (aiopquic_wt_list_next q) as [[o q']|];
    [|by rewrite Hn].
  destruct Hn as [-> Hl]. rewrite list_find_cons_snd, match_loop_spec by lia.
  destruct (Z.eqb_spec (zlen o) 0) as [Ho|Ho]; case_decide as Hu.
  - by destruct Hu, o.
  - by apply IH; lia.
  - destruct Hu. by case_bool_decide.
  - case_bool_decide as Hd; [exfalso; apply Hu; split; [by destruct o|done]|]. by apply IH; lia.
Qed.

(** The choice is total. *)
Lemma select_total set offer supported : is_Some (aiopquic_wt_select_protocol set offer supported).
Proof.
  destruct offer as [offer|]; [|by eexists]. unfold aiopquic_wt_select_protocol.
  rewrite offer_loop_spec by lia. case_bool_decide; [|by eexists]. rewrite pick_loop_spec by lia. by eexists.
Qed.

(** C39. The choice of a subprotocol is total and follows the client's order: the name
    handed to picowt_set_wt_protocol is the first non-empty item of the client's offer
    that is an item of the server's list (and shorter than 256 bytes); there is no such
    call, and the offer is refused, exactly when no item qualifies; a missing offer, or
    one without a non-empty item, selects nothing and refuses nothing.  The items of
    either list are its words between commas, blanks, parameters and one pair of quotes
    taken off. *)
Theorem wt_protocol_client_preference set offer supported :
  ∃ r sel, aiopquic_wt_select_protocol set offer supported = Some (r, sel) ∧
  let items := csv_items (default [] offer) in
  (r = AIOPQUIC_WT_PROTO_NONE_OFFERED ↔ Forall (λ o, o = []) items) ∧
  (∀ o, sel = Some o ->
     (∃ k, items !! k = Some o ∧ usable (csv_items supported) o ∧
        ∀ j o', (j < k)%nat -> items !! j = Some o' -> ~ usable (csv_items supported) o') ∧
     r = if set o =? 0 then AIOPQUIC_WT_PROTO_SELECTED else AIOPQUIC_WT_PROTO_NO_MATCH) ∧
  (sel = None ↔ Forall (λ o, ~ usable (csv_items supported) o) items) ∧
  (sel = None -> r <> AIOPQUIC_WT_PROTO_SELECTED).
Proof.
  destruct offer as [offer|]; cbn [aiopquic_wt_select_protocol default].
  2: { eexists _, _. split; [done|]. by split_and!; try done; intros; apply Forall_nil. }
  rewrite offer_loop_spec by lia. set (items := csv_items offer).
  assert (Forall (λ o, o = []) items -> Forall (λ o, ~ usable (csv_items supported) o) items) as Hno
    by (intros H; eapply Forall_impl; [exact H|]; intros o -> [? _]; done).
  case_bool_decide as Hex.
  - assert (~ Forall (λ o, o = []) items) as Hne.
    { intros H. apply Exists_exists in Hex as (o & Hin & Ho). rewrite Forall_forall in H. auto. }
    rewrite pick_loop_spec by lia. fold items. destruct (list_find _ items) as [[k sel]|] eqn:E.
    + apply list_find_Some in E as (Ek & Hu & Hj). eexists _, _. split; [done|].
      split_and!.
      * split; [by repeat case_match|done].
      * intros o [= <-]. split; [|done]. exists k. split_and!; [done..|].
        intros j o' Hlt Ej. by eapply Hj.
      * split; [done|]. rewrite Forall_forall. intros H. exfalso. eapply H; [|done].
        by eapply list_elem_of_lookup_2.
      * done.
    + apply list_find_None in E. eexists _, _. by split_and!.
  - eexists _, _. split; [done|].
    assert (Forall (λ o, o = []) items) as Hall.
    { apply Forall_forall. intros o Hin. destruct o; [done|]. exfalso. apply Hex, Exists_exists. eauto. }
    split_and!; [by split|done|split; auto|done].
Qed.

Lemma wt_protocol_client_preference_witness :
  let offer := [34] ++ moqt_16 ++ [34; 59; 113; 44; 32] ++ moqt_18 in
  let supported := moqt_18 ++ [44] ++ moqt_16 in
  aiopquic_wt_select_protocol (λ _, 0) (Some offer) supported
    = Some (AIOPQUIC_WT_PROTO_SELECTED, Some moqt_16) ∧
  ∃ r sel, aiopquic_wt_select_protocol (λ _, 0) (Some offer) supported = Some (r, sel) ∧
    (sel = None -> r <> AIOPQUIC_WT_PROTO_SELECTED).
Proof.
  intros offer supported. split; [vm_compute; reflexivity|].
  destruct (wt_protocol_client_preference (λ _, 0) (Some offer) supported)
    as (r & sel & E & _ & _ & _ & H).
  exists r, sel. by split.
Defined.
