(* ===== verification/WtSession.v ===== *)
(** * WebTransport sessions (h3wt_callback.h, first half)

    Creating and destroying sessions and links, the events they push to asyncio, the
    protocol that ends a client's connection, the connection callback, and the one
    retry of a refused CONNECT. *)
From S2P Require Import Prelude Ring Store StreamBuf SpscRing DgramBuf DgramTable.
From S2P Require Import StreamCtx WtState Bridge Callback.

(** ** Access through a pointer *)

(** [s->f] of a session, [link->f] of a link; a freed object or one of the other kind
    is undefined. *)
Definition read_s {A} (s : Z) (f : wt_session -> A) : M A :=
  λ w, match wt_objs (w_wt w) !! s with Some (ObjSession x) => Some (f x, w) | _ => None end.
Definition read_link {A} (link : Z) (f : wt_link -> A) : M A :=
  λ w, match wt_objs (w_wt w) !! link with Some (ObjLink x) => Some (f x, w) | _ => None end.

Definition set_objs (o : gmap Z wt_obj) (w : world) : world :=
  w_set_wt (WtState o (wt_h3 (w_wt w))) w.
Definition set_h3 (m : h3_mem) (w : world) : world :=
  w_set_wt (WtState (wt_objs (w_wt w)) m) w.

Definition put_obj (p : Z) (o : wt_obj) : M unit :=
  λ w, Some (tt, set_objs (<[p := o]> (wt_objs (w_wt w))) w).
Definition upd_s (s : Z) (f : wt_session -> wt_session) : M unit :=
  x ← read_s s id; put_obj s (ObjSession (f x)).

(** [free] of a session or a link. *)
Definition free_obj (p : Z) : M unit :=
  λ w, match wt_objs (w_wt w) !! p with
       | Some _ => Some (tt, set_objs (delete p (wt_objs (w_wt w))) w)
       | None => None
       end.

Definition read_st {A} (st : Z) (f : h3_stream -> A) : M A :=
  λ w, x ← hm_streams (wt_h3 (w_wt w)) !! st; Some (f x, w).
Definition upd_st (st : Z) (f : h3_stream -> h3_stream) : M unit :=
  λ w, let m := wt_h3 (w_wt w) in
       x ← hm_streams m !! st;
       Some (tt, set_h3 (H3Mem (<[st := f x]> (hm_streams m)) (hm_prefixes m) (hm_ctxs m)) w).
Definition read_px {A} (p : Z) (f : h3_prefix -> A) : M A :=
  λ w, x ← hm_prefixes (wt_h3 (w_wt w)) !! p; Some (f x, w).
Definition upd_px (p : Z) (f : h3_prefix -> h3_prefix) : M unit :=
  λ w, let m := wt_h3 (w_wt w) in
       x ← hm_prefixes m !! p;
       Some (tt, set_h3 (H3Mem (hm_streams m) (<[p := f x]> (hm_prefixes m)) (hm_ctxs m)) w).
Definition read_h3 {A} (h : Z) (f : h3_ctx -> A) : M A :=
  λ w, x ← hm_ctxs (wt_h3 (w_wt w)) !! h; Some (f x, w).
Definition upd_h3 (h : Z) (f : h3_ctx -> h3_ctx) : M unit :=
  λ w, let m := wt_h3 (w_wt w) in
       x ← hm_ctxs m !! h;
       Some (tt, set_h3 (H3Mem (hm_streams m) (hm_prefixes m) (<[h := f x]> (hm_ctxs m))) w).

Definition AIOPQUIC_WT_CLOSE_DEADLINE_US : Z := 1000000.
Definition AIOPQUIC_WT_CLOSE_GRACE_US : Z := 20000.

Definition AIOPQUIC_WT_CLOSE_SESSION : Z := 0.
Definition AIOPQUIC_WT_CLOSE_APPLICATION : Z := 1.
Definition AIOPQUIC_WT_CLOSE_TRANSPORT : Z := 2.

(** H3_NO_ERROR and H3_REQUEST_CANCELLED (RFC 9114). *)
Definition H3ZERO_NO_ERROR : Z := 0x100.
Definition H3ZERO_REQUEST_CANCELLED : Z := 0x10c.

(** An entry of a session; [data_buf] is a borrowed pointer. *)
Definition wt_entry (s : Z) (cnx : Z) (t : spsc_event_type) (stream_id error_code is_fin
    data_buf : Z) : spsc_entry :=
  {| e_stream_id := stream_id; e_event_type := evt_code t; e_data_length := 0;
     e_is_fin := is_fin; e_aux := 0; e_data_buf := data_buf; e_cnx := cnx; e_stream_ctx := s;
     e_error_code := error_code |}.

Section wt.
Context (ev : env).

(** A call that may change h3zero's structs. *)
Definition h3 (c : pq_call) : M Z :=
  λ w, let r := ev_pq ev (w_trace w) c in
       Some (r, set_h3 (ev_h3 ev (w_trace w) c (wt_h3 (w_wt w)))
                  (w_set_trace (w_trace w ++ [(c, r)]) w)).
Definition h3_ (c : pq_call) : M unit := _ ← h3 c; ret tt.

(** ** Sessions and links *)

Definition aiopquic_wt_strdup (src : option (list Z)) : M (option (list Z)) :=
  match src with
  | None => ret None
  | Some bs => t ← next_tick; ret (if ev_ok ev t then Some (c_str bs) else None)
  end.

Definition wt_session0 : wt_session :=
  WtSession 0 0 0 0 wt_capsule0 0 0 0 0 0 0 None None None None 0.

(** [calloc] of a session or a link; 0 when it fails. *)
Definition wt_calloc : M Z := t ← next_tick; gets (λ w, ev_wt ev t (wt_objs (w_wt w))).

Definition aiopquic_wt_session_create : M Z :=
  s ← wt_calloc;
  if s =? 0 then ret 0 else put_obj s (ObjSession wt_session0) ;; ret s.

Definition aiopquic_wt_drop_retry (s : Z) : M unit :=
  upd_s s (λ x, ws_set_connect_protocols None (ws_set_connect_path None
                  (ws_set_connect_authority None x))).

Definition aiopquic_wt_session_destroy (s : Z) : M unit :=
  if s =? 0 then ret tt
  else
    db ← read_s s ws_dgram_ring;
    when (negb (db =? 0)) (on_rs (λ st, rs_unref st db) ;; upd_s s (ws_set_dgram_ring 0)) ;;
    pq_ ev (PicowtReleaseCapsule s) ;;
    upd_s s (ws_set_wt_protocol None) ;;
    aiopquic_wt_drop_retry s ;;
    free_obj s.

Definition sc_create : M Z :=
  t ← next_tick;
  (λ w, let (p, s) := aiopquic_stream_ctx_create (ev_sc ev t (sw_scs (w_sc w))) (w_sc w) in
        Some (p, w_set_sc s w)) : M Z.

Definition aiopquic_wt_stream_link_create (s stream_id : Z) : M Z :=
  link ← wt_calloc;
  if link =? 0 then ret 0
  else
    sc ← sc_create;
    if sc =? 0 then ret 0
    else
      when (negb (s =? 0)) (count CNT_SC_CREATE_WT_LINK) ;;
      put_obj link (ObjLink (WtLink s sc stream_id)) ;;
      ret link.

Definition aiopquic_wt_stream_link_destroy (link : Z) : M unit :=
  if link =? 0 then ret tt
  else
    sc ← read_link link wl_sc;
    when (negb (sc =? 0)) (on_sc (aiopquic_stream_ctx_destroy sc)) ;;
    free_obj link.

(** [Some (s, link)], or [None] for the result -1.  Memory that holds neither kind is
    memory that was freed: reading its tag is undefined. *)
Definition aiopquic_wt_ctx_resolve (path_app_ctx : Z) : M (option (Z * Z)) :=
  if path_app_ctx =? 0 then ret None
  else
    λ w, match wt_objs (w_wt w) !! path_app_ctx with
         | Some (ObjLink l) => Some (Some (wl_session l, path_app_ctx), w)
         | Some (ObjSession _) => Some (Some (path_app_ctx, 0), w)
         | None => None
         end.

(** The link, and whether it is new. *)
Definition aiopquic_wt_ensure_link (s maybe_link stream_ctx stream_id : Z) : M (Z * bool) :=
  if negb (maybe_link =? 0) then ret (maybe_link, false)
  else
    link ← aiopquic_wt_stream_link_create s stream_id;
    if link =? 0 then ret (0, false)
    else upd_st stream_ctx (hs_set_path_callback_ctx link) ;; ret (link, true).

(** ** Events *)

Definition aiopquic_wt_push_event_with_sc (s : Z) (t : spsc_event_type) (stream_id sc is_fin : Z)
    : M unit :=
  let data := evt_is (evt_code t) SPSC_EVT_WT_STREAM_DATA in
  win ← (if data then rx_event_pending_arm sc else ret true);
  if negb win then count CNT_RX_DATA_EVENT_COALESCED
  else
    cnx ← read_s s ws_cnx;
    rc ← aiopquic_rx_push ev (wt_entry s cnx t stream_id 0 is_fin sc) [];
    when (negb (rc =? 0) && data)
      (count WORKER_RX_EVENT_DROPS_STREAM_DATA ;;
       upd_sc sc aiopquic_stream_ctx_rx_event_pending_clear).

Definition aiopquic_wt_push_event (s : Z) (t : spsc_event_type) (stream_id error_code : Z)
    (data : list Z) : M unit :=
  cnx ← read_s s ws_cnx;
  rc ← aiopquic_rx_push ev (wt_entry s cnx t stream_id error_code 0 0) data;
  when (negb (rc =? 0) && evt_is (evt_code t) SPSC_EVT_WT_STREAM_DATA)
    (count WORKER_RX_EVENT_DROPS_STREAM_DATA).

Definition aiopquic_wt_push_close (s : Z) (t : spsc_event_type) (error_code : Z)
    (reason : option (list Z)) (source : Z) : M unit :=
  id ← read_s s ws_control_stream_id;
  cnx ← read_s s ws_cnx;
  _ ← aiopquic_rx_push ev (wt_entry s cnx t id error_code source 0) (default [] reason);
  ret tt.

Definition aiopquic_wt_push_new_stream (s stream_id sc : Z) : M unit :=
  cnx ← read_s s ws_cnx;
  _ ← aiopquic_rx_push ev (wt_entry s cnx SPSC_EVT_WT_NEW_STREAM stream_id 0 0 sc) [];
  ret tt.

Definition aiopquic_wt_push_stream_destroy (s stream_id : Z) : M Z :=
  cnx ← read_s s ws_cnx;
  aiopquic_rx_push ev (wt_entry s cnx SPSC_EVT_WT_STREAM_DESTROY stream_id 0 0 0) [].

Definition aiopquic_wt_push_link_release (s stream_id link : Z) : M unit :=
  cnx ← read_s s ws_cnx;
  _ ← aiopquic_rx_push ev (wt_entry s cnx SPSC_EVT_WT_STREAM_LINK_RELEASE stream_id 0 0 link) [];
  ret tt.

Definition aiopquic_wt_push_stream_created (s stream_id sc error_code : Z) : M unit :=
  cnx ← read_s s ws_cnx;
  _ ← aiopquic_rx_push ev (wt_entry s cnx SPSC_EVT_WT_STREAM_CREATED stream_id error_code 0 sc) [];
  ret tt.

(** ** The end of a client's connection *)

Definition aiopquic_wt_maybe_close_cnx (s cnx : Z) : M unit :=
  if cnx =? 0 then ret tt
  else
    client ← pq ev (PqIsClient cnx);
    fin_sent ← read_s s ws_fin_sent;
    cleanup_done ← read_s s ws_cleanup_done;
    if (client =? 0) || (fin_sent =? 0) || (cleanup_done =? 0) then ret tt
    else
      now ← pq ev PqGetQuicTime;
      peer_fin ← read_s s ws_peer_fin;
      let at_time := u64 (now + (if negb (peer_fin =? 0) then AIOPQUIC_WT_CLOSE_GRACE_US
                                 else AIOPQUIC_WT_CLOSE_DEADLINE_US)) in
      deadline ← read_s s ws_close_deadline;
      when ((deadline =? 0) || (at_time <? deadline))
        (upd_s s (ws_set_close_deadline at_time) ;; pq_ ev (PqSetAppWakeTime cnx at_time)).

Definition aiopquic_wt_peer_fin (s cnx : Z) : M unit :=
  upd_s s (ws_set_peer_fin 1) ;; aiopquic_wt_maybe_close_cnx s cnx.

Definition aiopquic_wt_fin_sent (s cnx : Z) : M unit :=
  upd_s s (ws_set_fin_sent 1) ;;
  upd_s s (ws_set_session_closing 1) ;;
  aiopquic_wt_maybe_close_cnx s cnx.

(** ** The connection callback *)

(** The walk over [h3->stream_prefixes]. *)
Fixpoint find_wt_prefix (ps : list Z) : M Z :=
  match ps with
  | [] => ret 0
  | p :: ps =>
      fn ← read_px p px_function_call;
      if bool_decide (fn = FnWtPath) then read_px p px_function_ctx else find_wt_prefix ps
  end.

Definition aiopquic_wt_client_session (h : Z) : M Z :=
  ps ← read_h3 h hc_stream_prefixes; find_wt_prefix ps.

Definition wt_app_wakeup (cnx h : Z) (client : bool) : M unit :=
  s ← (if client then aiopquic_wt_client_session h else ret 0);
  deadline ← (if s =? 0 then ret 0 else read_s s ws_close_deadline);
  when (negb (deadline =? 0))
    (upd_s s (ws_set_close_deadline 0) ;; pq_ ev (PqClose cnx H3ZERO_NO_ERROR)).

(** The code, the source and the reason of a connection's end. *)
Definition close_cause (cnx : Z) (event : call_back_event) : M (Z * Z * option (list Z)) :=
  match event with
  | picoquic_callback_application_close =>
      code ← pq ev (PqGetApplicationError cnx);
      reason ← gets (λ w, ev_reason ev (w_trace w) cnx);
      ret (code, AIOPQUIC_WT_CLOSE_APPLICATION, reason)
  | picoquic_callback_close =>
      code ← pq ev (PqGetRemoteError cnx);
      reason ← gets (λ w, ev_reason ev (w_trace w) cnx);
      if code =? 0 then
        l ← pq ev (PqGetLocalError cnx);
        if negb (l =? 0) then
          l ← pq ev (PqGetLocalError cnx);
          ret (l, Z.lor AIOPQUIC_WT_CLOSE_TRANSPORT AIOPQUIC_CLOSE_LOCAL, ev_error_name ev l)
        else ret (code, AIOPQUIC_WT_CLOSE_TRANSPORT, reason)
      else ret (code, AIOPQUIC_WT_CLOSE_TRANSPORT, reason)
  | _ => ret (0, AIOPQUIC_WT_CLOSE_TRANSPORT, None)
  end.

(** One session's share of a connection's end. *)
Definition close_session (cnx : Z) (client final : bool) (code source : Z)
    (reason : option (list Z)) (s : Z) : M unit :=
  ds ← getb b_deferred_resets;
  when (if ds is [] then false else true) (aiopquic_deferred_resets_drop_cnx cnx) ;;
  rs ← getb b_close_reasons;
  when (final && (if rs is [] then false else true)) (aiopquic_close_reason_drop cnx) ;;
  closing ← read_s s ws_session_closing;
  when (closing =? 0)
    (aiopquic_wt_push_close s SPSC_EVT_WT_SESSION_CLOSED code reason source ;;
     upd_s s (ws_set_session_closing 1)) ;;
  if client then
    aiopquic_wt_push_close s SPSC_EVT_WT_CNX_CLOSED code
      (if negb (Z.land source AIOPQUIC_CLOSE_LOCAL =? 0) then reason else None) source
  else
    upd_s s (λ x, ws_set_control_stream 0 (ws_set_h3_ctx 0 (ws_set_cnx 0 x))).

(** The walk over the prefixes of a connection that ends. *)
Fixpoint close_sessions (cnx : Z) (client final : bool) (code source : Z)
    (reason : option (list Z)) (ps : list Z) : M unit :=
  match ps with
  | [] => ret tt
  | p :: ps =>
      fn ← read_px p px_function_call;
      (if bool_decide (fn = FnWtPath) then
         s ← read_px p px_function_ctx;
         close_session cnx client final code source reason s
       else ret tt) ;;
      close_sessions cnx client final code source reason ps
  end.

Definition wt_cnx_ended (cnx h : Z) (client : bool) (event : call_back_event) : M unit :=
  '(code, source, reason) ← close_cause cnx event;
  let final := negb (is_event event picoquic_callback_application_close) in
  ps ← read_h3 h hc_stream_prefixes;
  close_sessions cnx client final code source reason ps.

Definition aiopquic_wt_cnx_cb (cnx stream_id bytes length : Z) (event : call_back_event)
    (callback_ctx v_stream_ctx : Z) : M Z :=
  c ← pq ev (PqIsClient cnx);
  let client := negb (c =? 0) in
  match event with
  | picoquic_callback_app_wakeup => wt_app_wakeup cnx callback_ctx client
  | picoquic_callback_close | picoquic_callback_application_close
  | picoquic_callback_stateless_reset => wt_cnx_ended cnx callback_ctx client event
  | _ => ret tt
  end ;;
  h3 (H3Callback cnx stream_id bytes length event callback_ctx v_stream_ctx).

(** ** The retry of a refused CONNECT *)

(** The refused CONNECT unhooked and its prefix dropped. *)
Definition unhook_connect (cnx h stream_ctx old_id : Z) : M unit :=
  h3_ (PicowtUncountSession h stream_ctx) ;;
  upd_st stream_ctx (hs_set_path_callback FnNull) ;;
  upd_st stream_ctx (hs_set_path_callback_ctx 0) ;;
  prefix ← h3 (H3FindStreamPrefix h old_id);
  when (negb (prefix =? 0)) (upd_px prefix (λ p, H3Prefix FnNull (px_function_ctx p))) ;;
  h3_ (H3DeleteStreamPrefix cnx h old_id).

(** The CONNECT on a new stream. *)
Definition second_connect (s cnx h : Z) : M Z :=
  control ← h3 (PicowtSetControlStream cnx h);
  if control =? 0 then ret (-1)
  else
    upd_s s (ws_set_control_stream control) ;;
    id ← read_st control hs_stream_id;
    upd_s s (ws_set_control_stream_id id) ;;
    upd_h3 h (hc_set_wt_connect_protocol ConnectH3) ;;
    authority ← read_s s ws_connect_authority;
    path ← read_s s ws_connect_path;
    protocols ← read_s s ws_connect_protocols;
    h3 (PicowtConnect cnx h control authority path s protocols).

(** Behind the guards. *)
Definition retry_connect_go (s cnx h stream_ctx : Z) : M unit :=
  old_id ← read_s s ws_control_stream_id;
  unhook_connect cnx h stream_ctx old_id ;;
  pq_ ev (PqResetStream cnx old_id H3ZERO_REQUEST_CANCELLED) ;;
  control_stream ← read_s s ws_control_stream;
  when (control_stream =? stream_ctx) (upd_s s (ws_set_control_stream 0)) ;;
  rc ← second_connect s cnx h;
  aiopquic_wt_drop_retry s ;;
  when (negb (rc =? 0))
    (id ← read_s s ws_control_stream_id;
     aiopquic_wt_push_event s SPSC_EVT_WT_SESSION_REFUSED id 5 []).

Definition aiopquic_wt_retry_connect (s cnx stream_ctx : Z) : M bool :=
  h ← read_s s ws_h3_ctx;
  authority ← read_s s ws_connect_authority;
  ready ← read_s s ws_session_ready;
  closing ← read_s s ws_session_closing;
  if (if authority is None then true else false) || negb (ready =? 0) || negb (closing =? 0)
     || (h =? 0) || (stream_ctx =? 0)
  then ret false
  else
    id ← read_st stream_ctx hs_stream_id;
    control_id ← read_s s ws_control_stream_id;
    if negb (id =? control_id) then ret false
    else
      enabled ← read_h3 h hc_webtransport_enabled;
      if enabled =? 0 then ret false else retry_connect_go s cnx h stream_ctx ;; ret true.
End wt.
