(* ===== verification/WtPath.v ===== *)
(** * WebTransport path callbacks (h3wt_callback.h, second half)

    What h3zero calls for a session: aiopquic_wt_path_callback, one definition per event,
    with the data streams' payload path, and the server's callback that accepts a
    CONNECT. *)
From S2P Require Import Prelude Ring Store StreamBuf SpscRing DgramBuf DgramTable.
From S2P Require Import StreamCtx WtState Bridge Alpn Callback WtProto WtSession.

(** picohttp_call_back_event_t. *)
Inductive path_event :=
  | picohttp_callback_connecting | picohttp_callback_connect
  | picohttp_callback_connect_accepted | picohttp_callback_connect_refused
  | picohttp_callback_drain | picohttp_callback_post_data | picohttp_callback_post_fin
  | picohttp_callback_provide_data | picohttp_callback_post_datagram
  | picohttp_callback_provide_datagram | picohttp_callback_reset
  | picohttp_callback_stop_sending | picohttp_callback_deregister | picohttp_callback_free
  | picohttp_callback_other (n : Z).   (** the enumerators this repository does not name *)

#[export] Instance path_event_eq_dec : EqDecision path_event.
Proof. solve_decision. Defined.

(** WT_CLOSE_SESSION and WT_DRAIN_SESSION capsule types (draft-ietf-webtrans-http3). *)
Definition picowt_capsule_close_webtransport_session : Z := 0x2843.
Definition picowt_capsule_drain_webtransport_session : Z := 0x78ae.

Definition AIOPQUIC_WT_NO_PROTOCOL_STATUS : Z := 400.

Section path.
Context (ev : env).

(** ** The session's events *)

Definition cb_connect_accepted (s cnx stream_ctx : Z) : M Z :=
  upd_s s (ws_set_session_ready 1) ;;
  proto ← (if stream_ctx =? 0 then ret None else read_st stream_ctx hs_header_wt_protocol);
  when (if proto is None then false else true)
    (copy ← aiopquic_wt_strdup ev proto; upd_s s (ws_set_wt_protocol copy)) ;;
  keep_alive ← getb b_keep_alive_us;
  when (keep_alive >? 0) (pq_ ev (PqEnableKeepAlive cnx keep_alive)) ;;
  snap ← aiopquic_cnx_snapshot_fill ev cnx;
  id ← read_s s ws_control_stream_id;
  aiopquic_wt_push_event ev s SPSC_EVT_WT_SESSION_READY id 0 (ev_snapshot ev snap) ;;
  ret 0.

Definition cb_connect_refused (s cnx stream_ctx : Z) : M Z :=
  retried ← aiopquic_wt_retry_connect ev s cnx stream_ctx;
  if (retried : bool) then ret 0
  else
    id ← read_s s ws_control_stream_id;
    status ← (if stream_ctx =? 0 then ret 0 else read_st stream_ctx hs_status);
    aiopquic_wt_push_event ev s SPSC_EVT_WT_SESSION_REFUSED id status [] ;;
    ret 0.

Definition cb_drain (s : Z) : M Z :=
  id ← read_s s ws_control_stream_id;
  aiopquic_wt_push_event ev s SPSC_EVT_WT_SESSION_DRAINING id 0 [] ;;
  ret 0.

(** SESSION_CLOSED, once, and the session marked closing. *)
Definition announce_closed (s error_code : Z) (msg : list Z) : M unit :=
  closing ← read_s s ws_session_closing;
  when (closing =? 0)
    (id ← read_s s ws_control_stream_id;
     aiopquic_wt_push_event ev s SPSC_EVT_WT_SESSION_CLOSED id error_code msg) ;;
  upd_s s (ws_set_session_closing 1).

(** [picowt_receive_capsule(cnx, bytes, bytes + length, &s->capsule)]. *)
Definition receive_capsule (s cnx : Z) (data : list Z) : M Z :=
  tr ← gets w_trace;
  rc ← pq ev (PicowtReceiveCapsule cnx data);
  upd_s s (λ x, ws_set_capsule (ev_capsule ev tr data (ws_capsule x)) x) ;;
  ret rc.

Definition cb_control_data (s cnx : Z) (data : list Z) : M Z :=
  rc ← receive_capsule s cnx data;
  c ← read_s s ws_capsule;
  when ((rc =? 0) && negb (wc_is_stored c =? 0))
    ((if wc_capsule_type c =? picowt_capsule_close_webtransport_session then
        announce_closed s (wc_error_code c) (wc_error_msg c)
      else when (wc_capsule_type c =? picowt_capsule_drain_webtransport_session)
        (id ← read_s s ws_control_stream_id;
         aiopquic_wt_push_event ev s SPSC_EVT_WT_SESSION_DRAINING id 0 [])) ;;
     pq_ ev (PicowtReleaseCapsule s) ;;
     upd_s s (ws_set_capsule wt_capsule0)) ;;
  ret 0.

Definition cb_control_fin (s cnx length : Z) (data : list Z) : M Z :=
  rc ← (if length >? 0 then receive_capsule s cnx data else ret (-1));
  c ← read_s s ws_capsule;
  let told := (length >? 0) && (rc =? 0) && negb (wc_is_stored c =? 0)
              && (wc_capsule_type c =? picowt_capsule_close_webtransport_session) in
  announce_closed s (if told then wc_error_code c else 0) (if told then wc_error_msg c else []) ;;
  aiopquic_wt_peer_fin ev s cnx ;;
  ret 0.

Definition cb_reset (s cnx stream_ctx sid : Z) (is_control : bool) : M Z :=
  retried ← (if is_control then aiopquic_wt_retry_connect ev s cnx stream_ctx else ret false);
  if (retried : bool) then ret 0
  else if is_control then
    closing ← read_s s ws_session_closing;
    when (closing =? 0)
      (id ← read_s s ws_control_stream_id;
       code ← pq ev (PqGetRemoteStreamError cnx sid);
       aiopquic_wt_push_event ev s SPSC_EVT_WT_SESSION_CLOSED id code []) ;;
    upd_s s (ws_set_session_closing 1) ;;
    aiopquic_wt_peer_fin ev s cnx ;;
    ret 0
  else
    code ← pq ev (PqGetRemoteStreamError cnx sid);
    aiopquic_wt_push_event ev s SPSC_EVT_WT_STREAM_RESET sid (aiopquic_wt_code_from_h3 code) [] ;;
    ret 0.

Definition cb_stop_sending (s cnx stream_ctx sid : Z) (is_control : bool) : M Z :=
  retried ← (if is_control then aiopquic_wt_retry_connect ev s cnx stream_ctx else ret false);
  if (retried : bool) then ret 0
  else
    code ← pq ev (PqGetRemoteStopSendingError cnx sid);
    aiopquic_wt_push_event ev s SPSC_EVT_WT_STOP_SENDING sid (aiopquic_wt_code_from_h3 code) [] ;;
    ret 0.

Definition cb_deregister (s : Z) : M Z :=
  closing ← read_s s ws_session_closing;
  when (closing =? 0)
    (id ← read_s s ws_control_stream_id;
     aiopquic_wt_push_event ev s SPSC_EVT_WT_SESSION_CLOSED id 0 [] ;;
     upd_s s (ws_set_session_closing 1)) ;;
  upd_s s (λ x, ws_set_control_stream 0 (ws_set_h3_ctx 0 (ws_set_cnx 0 x))) ;;
  ret 0.

Definition cb_free (s link stream_ctx sid : Z) (is_control : bool) : M Z :=
  control ← read_s s ws_control_stream;
  when (is_control && (stream_ctx =? control))
    (upd_s s (ws_set_control_stream 0) ;; count CNT_WT_CONTROL_RELEASED) ;;
  ctx ← (if negb (link =? 0) && negb (stream_ctx =? 0)
         then read_st stream_ctx hs_path_callback_ctx else ret 0);
  if negb (link =? 0) && negb (stream_ctx =? 0) && (ctx =? link) then
    upd_st stream_ctx (hs_set_path_callback_ctx 0) ;;
    rc ← aiopquic_wt_push_stream_destroy ev s sid;
    when (rc =? 0) (aiopquic_wt_push_link_release ev s sid link) ;;
    ret 0
  else
    when (negb (link =? 0)) (count CNT_WT_CALLBACK_FREE_SKIPPED) ;;
    ret 0.

(** ** Data streams *)

Definition rx_advertise_cap : M Z :=
  cap ← getb b_rx_data_ring_cap;
  ret (if cap >? 0 then cap else AIOPQUIC_RX_DATA_RING_CAP_DEFAULT).

(** The link's wrapper with its RX ring, and whether the ring is new; [None]: no memory. *)
Definition wt_rx_ring (link cnx sid advertise_cap : Z) : M (option (Z * bool)) :=
  sc ← read_link link wl_sc;
  rx ← read_sc sc sc_rx;
  let rx_first := if rx is None then true else false in
  when rx_first (pq_ ev (PqSetAppFlowControl cnx sid 1)) ;;
  t ← next_tick;
  rc ← on_sc_val (aiopquic_stream_ctx_ensure_rx (ev_buf ev t advertise_cap) advertise_cap sc);
  ret (if negb (rc =? 0) then None else Some (sc, rx_first)).

(** [aiopquic_stream_buf_push] of the delivered bytes, counted. *)
Definition wt_rx_store (sc length : Z) (data : list Z) : M Z :=
  pushed ← sc_push_rx sc (take (Z.to_nat (u32 length)) data);
  when (pushed >? 0) (on_g (aiopquic_sc_rx_bytes_pushed_add pushed)) ;;
  ret pushed.

Definition cb_stream_data (s link cnx stream_ctx sid length : Z) (data : list Z) : M Z :=
  '(link, first_touch) ← aiopquic_wt_ensure_link ev s link stream_ctx sid;
  if link =? 0 then ret (-1)
  else
    advertise_cap ← rx_advertise_cap;
    r ← wt_rx_ring link cnx sid advertise_cap;
    match r with
    | None => ret (-1)
    | Some (sc, rx_first) =>
        pushed ← wt_rx_store sc length data;
        if negb (pushed =? length) then
          count WORKER_RX_BYTE_RING_OVERFLOW ;;
          _ ← aiopquic_rx_log_enabled ev;
          ret (-1)
        else
          when rx_first
            (window ← aiopquic_initial_rx_window ev cnx sid;
             when (window <? advertise_cap)
               (buf_free ← read_rx sc aiopquic_stream_buf_free;
                pq_ ev (PqOpenFlowControl cnx sid buf_free)) ;;
             upd_sc sc (aiopquic_stream_ctx_rx_credit_store advertise_cap)) ;;
          when first_touch (aiopquic_wt_push_new_stream ev s sid sc) ;;
          aiopquic_wt_push_event_with_sc ev s SPSC_EVT_WT_STREAM_DATA sid sc 0 ;;
          ret 0
    end.

Definition cb_stream_fin (s link cnx stream_ctx sid length : Z) (data : list Z) : M Z :=
  '(link, first_touch) ← aiopquic_wt_ensure_link ev s link stream_ctx sid;
  if link =? 0 then ret (-1)
  else
    advertise_cap ← rx_advertise_cap;
    r ← wt_rx_ring link cnx sid advertise_cap;
    match r with
    | None => ret (-1)
    | Some (sc, rx_first) =>
        pushed ← (if length >? 0 then wt_rx_store sc length data else ret length);
        if negb (pushed =? length) then count WORKER_RX_BYTE_RING_OVERFLOW ;; ret (-1)
        else
          upd_sc sc (λ c, sc_set_rx (aiopquic_stream_buf_set_fin <$> sc_rx c) c) ;;
          when rx_first
            (upd_sc sc (λ c, aiopquic_stream_ctx_rx_credit_store
               (u64 (aiopquic_stream_ctx_rx_consumed_load c + advertise_cap)) c)) ;;
          when first_touch (aiopquic_wt_push_new_stream ev s sid sc) ;;
          aiopquic_wt_push_event_with_sc ev s SPSC_EVT_WT_STREAM_FIN sid sc 1 ;;
          ret 0
    end.

(** The drain signal of [sc], routed to the session. *)
Definition wt_fire_drained (s sid sc : Z) : M unit :=
  take ← drain_take sc;
  when take
    (cnx ← read_s s ws_cnx;
     rc ← aiopquic_rx_push ev (wt_entry s cnx SPSC_EVT_STREAM_TX_DRAINED sid 0 0 0) [];
     if rc =? 0 then
       upd_sc sc (λ c, sc_set_cnt_drain_fires (u64 (sc_cnt_drain_fires c + 1)) c) ;;
       now ← aiopquic_now_ns ev;
       upd_sc sc (sc_set_last_drain_fire_ns now)
     else
       upd_sc sc (λ c, sc_set_cnt_drain_dropped (u64 (sc_cnt_drain_dropped c + 1)) c) ;;
       upd_sc sc (sc_set_tx_drain_pending 1)).

(** [race]: what the producer does between the loads of FIN and of the tail. *)
Definition cb_provide_data (race : list sc_op) (s link sid bytes length : Z) : M Z :=
  sc ← (if link =? 0 then ret 0 else read_link link wl_sc);
  tx ← (if sc =? 0 then ret None else read_sc sc sc_tx);
  match tx with
  | None => pq_ ev (PqProvideStreamDataBuffer bytes 0 false false) ;; ret 0
  | Some sb =>
      let want := u32 length in
      let fin_after := aiopquic_stream_buf_fin_pending sb in
      on_sc (sc_run race) ;;
      avail ← read_tx sc aiopquic_stream_buf_used;
      sendable ← (λ w, c ← sw_scs (w_sc w) !! sc;
                       n ← aiopquic_stream_ctx_tx_sendable c avail; Some (n, w) : option (Z * world));
      let to_send := if sendable <? want then sendable else want in
      pending ← read_sc sc sc_tx_reset_pending;
      let is_fin := negb (fin_after =? 0) && (pending =? 0) && (to_send =? avail) in
      buf ← pq ev (PqProvideStreamDataBuffer bytes to_send is_fin (sendable >? to_send));
      when (negb (buf =? 0) && (to_send >? 0))
        (bs ← sc_pop_tx sc to_send; pq_ ev (WriteBuf buf bs)) ;;
      wt_fire_drained s sid sc ;;
      ret 0
  end.

(** ** Datagrams *)

Definition cb_post_datagram (s length : Z) (data : list Z) : M Z :=
  id ← read_s s ws_control_stream_id;
  aiopquic_wt_push_event ev s SPSC_EVT_WT_DATAGRAM id 0 (take (Z.to_nat (u32 length)) data) ;;
  ret 0.

Definition cb_provide_datagram (s cnx bytes length : Z) : M Z :=
  db ← read_s s ws_dgram_ring;
  rec ← (if db =? 0 then ret 0
         else on_db db (λ b, n ← aiopquic_dgram_buf_peek_len b; Some (n, b)));
  if rec =? 0 then h3_ ev (H3ProvideDatagramBuffer bytes 0 false) ;; ret 0
  else if rec >? u32 length then
    on_db db (λ b, Some (tt, db_set_consumer b (db_head b) (db_records_popped b)
                               (db_bytes_popped b) (u64 (db_head_deferred b + 1)))) ;;
    h3_ ev (H3ProvideDatagramBuffer bytes 0 true) ;; ret 0
  else
    used ← on_db db (λ b, Some (aiopquic_dgram_buf_used b, b));
    let more := used >? u32 (AIOPQUIC_DGRAM_REC_HDR + rec) in
    buf ← h3 ev (H3ProvideDatagramBuffer bytes rec more);
    when (negb (buf =? 0))
      (bs ← on_db db (λ b, aiopquic_dgram_buf_pop_into b rec);
       pq_ ev (WriteBuf buf bs) ;;
       count WORKER_DGRAM_RECORDS_SENT ;;
       count_n WORKER_DGRAM_BYTES_SENT rec ;;
       take ← on_db db (λ b, Some (aiopquic_dgram_buf_drain_take b));
       when take
         (rc ← aiopquic_rx_push ev (wt_entry s cnx SPSC_EVT_DATAGRAM_TX_DRAINED 0 0 0 0) [];
          when (negb (rc =? 0)) (on_db db (λ b, Some (tt, db_set_drain b 1))))) ;;
    ret 0.

(** ** The callback *)

Definition path_switch (race : list sc_op) (s link cnx bytes length : Z) (data : list Z)
    (event : path_event) (stream_ctx sid : Z) (is_control : bool) : M Z :=
  match event with
  | picohttp_callback_connect_accepted => cb_connect_accepted s cnx stream_ctx
  | picohttp_callback_connect_refused => cb_connect_refused s cnx stream_ctx
  | picohttp_callback_drain => cb_drain s
  | picohttp_callback_post_data =>
      if is_control then cb_control_data s cnx data
      else cb_stream_data s link cnx stream_ctx sid length data
  | picohttp_callback_post_fin =>
      if is_control then cb_control_fin s cnx length data
      else cb_stream_fin s link cnx stream_ctx sid length data
  | picohttp_callback_provide_data => cb_provide_data race s link sid bytes length
  | picohttp_callback_post_datagram => cb_post_datagram s length data
  | picohttp_callback_provide_datagram => cb_provide_datagram s cnx bytes length
  | picohttp_callback_reset => cb_reset s cnx stream_ctx sid is_control
  | picohttp_callback_stop_sending => cb_stop_sending s cnx stream_ctx sid is_control
  | picohttp_callback_deregister => cb_deregister s
  | picohttp_callback_free => cb_free s link stream_ctx sid is_control
  | _ => ret 0
  end.

Definition aiopquic_wt_path_callback (race : list sc_op) (cnx bytes length : Z) (data : list Z)
    (event : path_event) (stream_ctx path_app_ctx : Z) : M Z :=
  r ← aiopquic_wt_ctx_resolve path_app_ctx;
  match r with
  | None => ret 0
  | Some (s, link) =>
      if s =? 0 then ret 0
      else
        control_id ← read_s s ws_control_stream_id;
        sid ← (if stream_ctx =? 0 then ret 0 else read_st stream_ctx hs_stream_id);
        path_switch race s link cnx bytes length data event stream_ctx sid
          (negb (stream_ctx =? 0) && (sid =? control_id))
  end.

(** ** The server's CONNECT *)

(** [aiopquic_wt_select_protocol] with picowt_set_wt_protocol as a call. *)
Definition wt_select_protocol (stream_ctx : Z) (supported : list Z) : M Z :=
  offer ← read_st stream_ctx hs_available_protocols;
  tr ← gets w_trace;
  r ← (λ w, r ← aiopquic_wt_select_protocol (λ p, ev_pq ev tr (PicowtSetWtProtocol stream_ctx p))
                  offer supported; Some (r, w) : option (Z * option (list Z) * world));
  match r with
  | (rc, Some p) => h3_ ev (PicowtSetWtProtocol stream_ctx p) ;; ret rc
  | (rc, None) => ret rc
  end.

(** Behind the choice of the subprotocol. *)
Definition accept_session (cnx h stream_ctx proto_sel : Z) (path : list Z) : M Z :=
  s ← aiopquic_wt_session_create ev;
  if s =? 0 then ret (-1)
  else
    upd_s s (λ x, ws_set_control_stream stream_ctx (ws_set_h3_ctx h (ws_set_cnx cnx x))) ;;
    id ← read_st stream_ctx hs_stream_id;
    upd_s s (ws_set_control_stream_id id) ;;
    upd_s s (ws_set_session_ready 1) ;;
    keep_alive ← getb b_keep_alive_us;
    when (keep_alive >? 0) (pq_ ev (PqEnableKeepAlive cnx keep_alive)) ;;
    proto ← (if proto_sel =? AIOPQUIC_WT_PROTO_SELECTED then read_st stream_ctx hs_wt_protocol
             else ret None);
    when (if proto is None then false else true)
      (copy ← aiopquic_wt_strdup ev proto; upd_s s (ws_set_wt_protocol copy)) ;;
    upd_st stream_ctx (hs_set_path_callback FnWtPath) ;;
    upd_st stream_ctx (hs_set_path_callback_ctx s) ;;
    h3_ ev (H3DeclareStreamPrefix h id s) ;;
    snap ← aiopquic_cnx_snapshot_fill ev cnx;
    _ ← aiopquic_rx_push ev (event_entry SPSC_EVT_CNX_SNAPSHOT 0 cnx 0) (ev_snapshot ev snap);
    _ ← aiopquic_rx_push ev (wt_entry s cnx SPSC_EVT_WT_NEW_SESSION id 0 0 0) path;
    ret 0.

Definition aiopquic_wt_server_path_callback (race : list sc_op) (cnx path_bytes path_len : Z)
    (path : list Z) (event : path_event) (stream_ctx : Z) : M Z :=
  if stream_ctx =? 0 then ret (-1)
  else
    h ← pq ev (PqGetCallbackContext cnx);
    if h =? 0 then ret (-1)
    else if negb (bool_decide (event = picohttp_callback_connect)) then
      id ← read_st stream_ctx hs_stream_id;
      prefix ← h3 ev (H3FindStreamPrefix h id);
      fn ← (if prefix =? 0 then ret FnNull else read_px prefix px_function_call);
      if bool_decide (fn = FnWtPath) then
        ctx ← read_px prefix px_function_ctx;
        aiopquic_wt_path_callback race cnx path_bytes path_len path event stream_ctx ctx
      else ret 0
    else
      supported ← getb b_wt_supported_protocols;
      proto_sel ← (match supported with
                   | Some supported => wt_select_protocol stream_ctx supported
                   | None => ret AIOPQUIC_WT_PROTO_NONE_OFFERED
                   end);
      if (if supported is None then false else true) && (proto_sel =? AIOPQUIC_WT_PROTO_NO_MATCH)
      then ret AIOPQUIC_WT_NO_PROTOCOL_STATUS
      else accept_session cnx h stream_ctx proto_sel (take (Z.to_nat (u32 path_len)) path).
End path.
