(* ===== verification/WtTx.v ===== *)
(** * WebTransport commands and the dispatch by ALPN (h3wt_callback.h, last part)

    The worker's half: the handler of the entries asyncio queues for a session, one
    definition per event, the held resets of WebTransport streams, and the default
    callbacks that route a new connection to h3zero or to the raw bridge.  [wt_handler]
    is the instance of [WtHandler] the packet loop of Callback.v runs with. *)
From S2P Require Import Prelude Ring Store StreamBuf SpscRing DgramBuf DgramTable.
From S2P Require Import StreamCtx WtState Bridge Alpn Callback WtProto WtSession WtPath.

Definition AIOPQUIC_WT_SESSION_GONE : Z := 0x170d7b68.
Definition AIOPQUIC_WT_CONNECT_AUTO : Z := 0.
Definition AIOPQUIC_WT_CONNECT_LEGACY : Z := 1.
Definition AIOPQUIC_WT_CONNECT_H3 : Z := 2.

Section tx.
Context (ev : env).

(** ** Resets *)

Definition aiopquic_wt_reset_stream (cnx st code : Z) : M Z :=
  rr ← h3 ev (PicowtResetStream cnx st code);
  if rr =? 0 then ret 0
  else id ← read_st st hs_stream_id; pq ev (PqResetStream cnx id code).

Definition aiopquic_wt_stream_reattach (cnx st : Z) : M unit :=
  id ← read_st st hs_stream_id; pq_ ev (PqSetAppStreamCtx cnx id st).

(** The object behind a stream's callback context, when it is a link. *)
Definition stream_link (st : Z) : M (option (Z * wt_link)) :=
  ctx ← read_st st hs_path_callback_ctx;
  if ctx =? 0 then ret None
  else
    (λ w, match wt_objs (w_wt w) !! ctx with
          | Some (ObjLink l) => Some (Some (ctx, l), w)
          | Some (ObjSession _) => Some (None, w)
          | None => None
          end) : M (option (Z * wt_link)).

Definition aiopquic_wt_stream_sc (s st : Z) : M Z :=
  l ← stream_link st;
  ret match l with Some (_, l) => if wl_session l =? s then wl_sc l else 0 | None => 0 end.

Definition wt_preamble (cnx st : Z) : M Z :=
  id ← read_st st hs_stream_id;
  local ← aiopquic_stream_is_local ev cnx id;
  v ← read_st st hs_control_stream_id;
  ret (aiopquic_wt_preamble_len local v).

Definition aiopquic_wt_reset_stream_reliable (cnx st code preamble reliable : Z) : M Z :=
  id ← read_st st hs_stream_id;
  rr ← aiopquic_reset_stream_reliable ev cnx id code (u64 (preamble + reliable));
  when (rr =? 0) (upd_st st (hs_set_is_fin_sent 1)) ;;
  ret rr.

Definition wt_deferred_reset (d : deferred_reset) : M unit :=
  h ← pq ev (PqGetCallbackContext (d_cnx d));
  st ← (if h =? 0 then ret 0 else h3 ev (H3FindStream h (d_stream_id d)));
  if st =? 0 then ret tt
  else
    reliable ← read_sc (d_sc d) sc_tx_reliable_size;
    rr ← aiopquic_wt_reset_stream_reliable (d_cnx d) st (d_error_code d) (d_preamble d) reliable;
    when (rr =? 0) (on_sc (aiopquic_stream_ctx_tx_abandon (d_sc d))) ;;
    aiopquic_wt_stream_reattach (d_cnx d) st.

(** ** Opening a session *)

(** [aiopquic_wt_open_params_t]. *)
Record wt_open_params := WtOpenParams {
  op_addr : list Z;
  op_sni_len : Z;
  op_path_len : Z;
  op_protocols_len : Z;
  op_connect_protocol : Z
}.

Definition wt_open_params_size : Z := ev_storage_len ev + 8.

Definition open_params (raw : list Z) : option wt_open_params :=
  let s := ev_storage_len ev in
  addr ← block_read raw 0 s;
  sni_len ← block_read raw s 2;
  path_len ← block_read raw (s + 2) 2;
  protocols_len ← block_read raw (s + 4) 2;
  cp ← block_read raw (s + 6) 1;
  Some (WtOpenParams addr (le_bytes sni_len) (le_bytes path_len) (le_bytes protocols_len)
          (le_bytes cp)).

(** The strings behind the header: the code of the refusal, or the three strings. *)
Definition open_strings (p : wt_open_params) (raw : list Z) (data_length : Z)
    : option (Z + list Z * list Z * option (list Z)) :=
  let offset := wt_open_params_size in
  if (op_sni_len p =? 0) || (op_sni_len p >=? 256) || (offset + op_sni_len p >? data_length)
  then Some (inl 1)
  else
    sni ← block_read raw offset (op_sni_len p);
    let offset := offset + op_sni_len p in
    if (op_path_len p =? 0) || (op_path_len p >=? 1024) || (offset + op_path_len p >? data_length)
    then Some (inl 2)
    else
      path ← block_read raw offset (op_path_len p);
      let offset := offset + op_path_len p in
      protocols ←
        (if (op_protocols_len p >? 0) && (op_protocols_len p <? 256)
            && (offset + op_protocols_len p <=? data_length)
         then a ← block_read raw offset (op_protocols_len p); Some (Some (c_str a))
         else Some None);
      Some (inr (c_str sni, c_str path, protocols)).

(** The arguments of the one retry, kept whole or not at all. *)
Definition keep_retry (s : Z) (sni path : list Z) (protocols : option (list Z)) : M unit :=
  authority ← aiopquic_wt_strdup ev (Some sni);
  upd_s s (ws_set_connect_authority authority) ;;
  path' ← aiopquic_wt_strdup ev (Some path);
  upd_s s (ws_set_connect_path path') ;;
  protocols' ← aiopquic_wt_strdup ev protocols;
  upd_s s (ws_set_connect_protocols protocols') ;;
  when (match path', protocols, protocols' with
        | None, _, _ => true | _, Some _, None => true | _, _, _ => false end)
    (aiopquic_wt_drop_retry s).

Definition open_connect (s cnx h control cp : Z) (sni path : list Z)
    (protocols : option (list Z)) : M unit :=
  upd_s s (λ x, ws_set_control_stream control (ws_set_h3_ctx h (ws_set_cnx cnx x))) ;;
  id ← read_st control hs_stream_id;
  upd_s s (ws_set_control_stream_id id) ;;
  upd_h3 h (hc_set_wt_connect_protocol
    (if cp =? AIOPQUIC_WT_CONNECT_H3 then ConnectH3 else ConnectLegacy)) ;;
  when (cp =? AIOPQUIC_WT_CONNECT_AUTO) (keep_retry s sni path protocols) ;;
  pq_ ev (PqSetCallbackTo cnx FnWtCnxCb h) ;;
  upd_h3 h (hc_set_no_print 1) ;;
  rc ← h3 ev (PicowtConnect cnx h control (Some sni) (Some path) s protocols);
  rc ← (if rc =? 0 then pq ev (PqStartClientCnx cnx) else ret rc);
  when (negb (rc =? 0))
    (id ← read_s s ws_control_stream_id;
     aiopquic_wt_push_event ev s SPSC_EVT_WT_SESSION_REFUSED id 4 []).

Definition tx_wt_open (s : Z) (e : spsc_entry) : M unit :=
  raw ← payload e;
  match raw with
  | None => ret tt
  | Some raw =>
      if (s =? 0) || (e_data_length e <? wt_open_params_size) then ret tt
      else
        p ← (λ w, p ← open_params raw; Some (p, w) : option (wt_open_params * world));
        r ← (λ w, r ← open_strings p raw (e_data_length e); Some (r, w)
             : option ((Z + list Z * list Z * option (list Z)) * world));
        match r with
        | inl code => aiopquic_wt_push_event ev s SPSC_EVT_WT_SESSION_REFUSED 0 code []
        | inr (sni, path, protocols) =>
            now ← pq ev PqCurrentTime;
            rc ← h3 ev (PicowtPrepareClientCnx (op_addr p) now sni);
            cnx ← pq ev (PicowtPrepareOut 0);
            h ← pq ev (PicowtPrepareOut 1);
            control ← pq ev (PicowtPrepareOut 2);
            if negb (rc =? 0) || (cnx =? 0) || (h =? 0) || (control =? 0)
            then aiopquic_wt_push_event ev s SPSC_EVT_WT_SESSION_REFUSED 0 3 []
            else open_connect s cnx h control (op_connect_protocol p) sni path protocols
        end
  end.

(** ** Commands of a session *)

Definition tx_wt_create_stream (s : Z) (e : spsc_entry) : M unit :=
  if s =? 0 then ret tt
  else
    cnx ← read_s s ws_cnx;
    h ← read_s s ws_h3_ctx;
    if (cnx =? 0) || (h =? 0) then aiopquic_wt_push_stream_created ev s 0 0 1
    else
      control_id ← read_s s ws_control_stream_id;
      new_stream ← h3 ev (PicowtCreateLocalStream cnx (e_is_fin e) h control_id);
      if new_stream =? 0 then aiopquic_wt_push_stream_created ev s 0 0 1
      else
        id ← read_st new_stream hs_stream_id;
        link ← aiopquic_wt_stream_link_create ev s id;
        if link =? 0 then aiopquic_wt_push_stream_created ev s id 0 2
        else
          upd_st new_stream (hs_set_path_callback FnWtPath) ;;
          upd_st new_stream (hs_set_path_callback_ctx link) ;;
          sc ← read_link link wl_sc;
          aiopquic_wt_push_stream_created ev s id sc 0.

(** [!s || !s->cnx || !s->control_stream]. *)
Definition no_control (s : Z) : M bool :=
  if s =? 0 then ret true
  else
    cnx ← read_s s ws_cnx;
    control ← read_s s ws_control_stream;
    ret ((cnx =? 0) || (control =? 0)).

(** [!s || !s->cnx]. *)
Definition no_cnx (s : Z) : M bool :=
  if s =? 0 then ret true else cnx ← read_s s ws_cnx; ret (cnx =? 0).

Definition tx_wt_close (s : Z) (e : spsc_entry) : M unit :=
  gone ← no_control s;
  if (gone : bool) then ret tt
  else
    msg ← payload e;
    cnx ← read_s s ws_cnx;
    control ← read_s s ws_control_stream;
    let text := match msg with
                | Some bs => if (e_data_length e >? 0) && (e_data_length e <? 256)
                             then c_str (take (Z.to_nat (e_data_length e)) bs) else []
                | None => []
                end in
    rc ← h3 ev (PicowtSendCloseSession cnx control (u32 (e_error_code e)) text);
    upd_s s (ws_set_session_closing 1) ;;
    when (rc =? 0) (aiopquic_wt_fin_sent ev s cnx).

Definition tx_wt_fin (s : Z) : M unit :=
  gone ← no_control s;
  if (gone : bool) then ret tt
  else
    cnx ← read_s s ws_cnx;
    control ← read_s s ws_control_stream;
    fin_sent ← read_s s ws_fin_sent;
    sent ← (if fin_sent =? 0 then read_st control hs_is_fin_sent else ret 1);
    when ((fin_sent =? 0) && (sent =? 0))
      (id ← read_s s ws_control_stream_id; pq_ ev (PqAddToStream cnx id [] true)) ;;
    aiopquic_wt_fin_sent ev s cnx.

Definition tx_wt_drain (s : Z) : M unit :=
  gone ← no_control s;
  if (gone : bool) then ret tt
  else
    cnx ← read_s s ws_cnx;
    control ← read_s s ws_control_stream;
    h3_ ev (PicowtSendDrainSession cnx control).

(** The reset of [st], whose direction and state allow it. *)
Definition wt_reset_go (s cnx st : Z) (e : spsc_entry) (sc : Z) : M unit :=
  let code := aiopquic_wt_code_to_h3 (e_error_code e) in
  reliable ← aiopquic_reset_reliable_size ev cnx sc (e_aux e);
  r ← (if reliable =? 0 then rr ← aiopquic_wt_reset_stream cnx st code; ret (Some rr)
       else
         preamble ← wt_preamble cnx st;
         head ← read_tx sc sb_head;
         held ← (if reliable >? head
                 then rc ← aiopquic_defer_reset ev cnx sc (e_stream_id e) code reliable preamble 1;
                      ret (rc =? 0)
                 else ret false);
         if (held : bool) then ret None
         else rr ← aiopquic_wt_reset_stream_reliable cnx st code preamble reliable; ret (Some rr));
  match r with
  | None => pq_ ev (PqMarkActiveStreamV2 cnx (e_stream_id e) true)
  | Some rr =>
      when (rr =? 0) (on_sc (aiopquic_stream_ctx_tx_abandon sc)) ;;
      aiopquic_wt_stream_reattach cnx st
  end.

Definition tx_wt_reset_stream (s : Z) (e : spsc_entry) : M unit :=
  gone ← no_cnx s;
  if (gone : bool) then ret tt
  else
    cnx ← read_s s ws_cnx;
    h ← pq ev (PqGetCallbackContext cnx);
    st ← (if h =? 0 then ret 0 else h3 ev (H3FindStream h (e_stream_id e)));
    if st =? 0 then ret tt
    else
      can ← aiopquic_stream_can_send ev cnx (e_stream_id e);
      if negb can then count CNT_TX_WRONG_DIRECTION_DROPPED
      else
        sc ← aiopquic_wt_stream_sc s st;
        pending ← (if sc =? 0 then ret 0 else read_sc sc sc_tx_reset_pending);
        if negb (pending =? 0) then ret tt else wt_reset_go s cnx st e sc.

Definition tx_mark_wt_datagram_ready (s : Z) (e : spsc_entry) : M unit :=
  let db := e_error_code e in
  gone ← no_cnx s;
  if gone || (db =? 0) then ret tt
  else
    ring ← read_s s ws_dgram_ring;
    when (negb (ring =? db))
      (when (negb (ring =? 0)) (on_rs (λ st, rs_unref st ring)) ;;
       on_rs (λ st, rs_addref st db) ;;
       upd_s s (ws_set_dgram_ring db)) ;;
    cnx ← read_s s ws_cnx;
    id ← read_s s ws_control_stream_id;
    h3_ ev (H3SetDatagramReady cnx id).

Definition tx_wt_set_stream_priority (s : Z) (e : spsc_entry) : M unit :=
  gone ← no_cnx s;
  if (gone : bool) then count CNT_TX_EVENT_DROPPED_DEAD_CNX
  else
    cnx ← read_s s ws_cnx;
    pri_ret ← pq ev (PqSetStreamPriority cnx (e_stream_id e) (u8 (e_error_code e)));
    if pri_ret =? 0 then count WORKER_SET_PRIORITY_APPLIED
    else
      count WORKER_SET_PRIORITY_REJECTED ;;
      set_cnt WORKER_SET_PRIORITY_LAST_ERR (u64 pri_ret).

Definition tx_wt_set_datagram_priority (s : Z) (e : spsc_entry) : M unit :=
  gone ← no_cnx s;
  if (gone : bool) then count CNT_TX_EVENT_DROPPED_DEAD_CNX
  else
    cnx ← read_s s ws_cnx;
    pq_ ev (PqSetDatagramPriority cnx (u8 (e_error_code e))) ;;
    count WORKER_SET_DGRAM_PRIORITY_APPLIED.

Definition tx_wt_stop_sending (s : Z) (e : spsc_entry) : M unit :=
  gone ← no_cnx s;
  if (gone : bool) then ret tt
  else
    cnx ← read_s s ws_cnx;
    can ← aiopquic_stream_can_receive ev cnx (e_stream_id e);
    if (can : bool) then
      pq_ ev (PqStopSending cnx (e_stream_id e) (aiopquic_wt_code_to_h3 (e_error_code e))) ;;
      h ← pq ev (PqGetCallbackContext cnx);
      st ← (if h =? 0 then ret 0 else h3 ev (H3FindStream h (e_stream_id e)));
      when (negb (st =? 0)) (aiopquic_wt_stream_reattach cnx st)
    else count CNT_TX_WRONG_DIRECTION_DROPPED.

(** ** The end of a session *)

(** What both walks do to a link of [s]. *)
Definition release_link (s st link sc : Z) : M unit :=
  upd_st st (hs_set_path_callback FnNull) ;;
  upd_st st (hs_set_path_callback_ctx 0) ;;
  on_sc (aiopquic_stream_ctx_tx_abandon sc) ;;
  id ← read_st st hs_stream_id;
  aiopquic_wt_push_link_release ev s id link.

Definition cleanup_stream (s cnx st : Z) : M unit :=
  id ← read_st st hs_stream_id;
  can ← aiopquic_stream_can_send ev cnx id;
  when can (_ ← aiopquic_wt_reset_stream cnx st AIOPQUIC_WT_SESSION_GONE; ret tt) ;;
  can ← aiopquic_stream_can_receive ev cnx id;
  when can (pq_ ev (PqStopSending cnx id AIOPQUIC_WT_SESSION_GONE)) ;;
  aiopquic_wt_stream_reattach cnx st.

(** The walk over h3zero's streams: [reset] of the cleanup, not of the deregister.
    Neither the resets nor the releases add or remove a node of the tree. *)
Fixpoint release_walk (reset : bool) (s cnx : Z) (sts : list Z) : M unit :=
  match sts with
  | [] => ret tt
  | st :: sts =>
      l ← stream_link st;
      match l with
      | Some (link, l) =>
          when (wl_session l =? s)
            (when reset (cleanup_stream s cnx st) ;; release_link s st link (wl_sc l))
      | None => ret tt
      end ;;
      release_walk reset s cnx sts
  end.

(** What the cleanup ends with. *)
Definition wt_cleanup_done (s cnx : Z) : M unit :=
  upd_s s (ws_set_cleanup_done 1) ;; aiopquic_wt_maybe_close_cnx ev s cnx.

Definition tx_wt_session_cleanup (s : Z) : M unit :=
  if s =? 0 then ret tt
  else
    cnx ← read_s s ws_cnx;
    h ← read_s s ws_h3_ctx;
    when (negb (cnx =? 0) && negb (h =? 0))
      (sts ← read_h3 h hc_h3_stream_tree; release_walk true s cnx sts) ;;
    wt_cleanup_done s cnx.

(** A call into h3zero that may hand out a deregister before it returns. *)
Fixpoint run_deregisters (cnx : Z) (ctxs : list Z) : M unit :=
  match ctxs with
  | [] => ret tt
  | ctx :: ctxs =>
      _ ← aiopquic_wt_path_callback ev [] cnx 0 0 [] picohttp_callback_deregister 0 ctx;
      run_deregisters cnx ctxs
  end.
Definition h3_reentrant (cnx : Z) (c : pq_call) : M unit :=
  tr ← gets w_trace;
  _ ← h3 ev c;
  run_deregisters cnx (ev_deregisters ev tr c).

Definition deregister_go (s cnx h : Z) : M unit :=
  sts ← read_h3 h hc_h3_stream_tree;
  release_walk false s cnx sts ;;
  control ← read_s s ws_control_stream;
  when (negb (control =? 0))
    (upd_st control (hs_set_path_callback FnNull) ;;
     upd_st control (hs_set_path_callback_ctx 0) ;;
     h3_reentrant cnx (PicowtDeregister cnx h control)) ;;
  cnx ← read_s s ws_cnx;
  client ← pq ev (PqIsClient cnx);
  when (negb (client =? 0))
    (fin_sent ← read_s s ws_fin_sent;
     when (negb (fin_sent =? 0)) (pq_ ev (PqClose cnx H3ZERO_NO_ERROR)) ;;
     h ← read_s s ws_h3_ctx;
     pq_ ev (PqSetCallbackTo cnx FnH3Callback h)) ;;
  upd_s s (ws_set_session_closing 1) ;;
  h ← read_s s ws_h3_ctx;
  id ← read_s s ws_control_stream_id;
  h3_reentrant cnx (H3DeleteStreamPrefix cnx h id).

Definition tx_wt_deregister (s : Z) : M unit :=
  if s =? 0 then ret tt
  else
    cnx ← read_s s ws_cnx;
    h ← read_s s ws_h3_ctx;
    alive ← (if negb (cnx =? 0) && negb (h =? 0) then aiopquic_cnx_is_alive ev cnx else ret false);
    when alive (deregister_go s cnx h) ;;
    aiopquic_wt_session_destroy ev s.

(** ** The handler *)

Definition wt_handle_tx (e : spsc_entry) : M Z :=
  let s := e_cnx e in
  let t := e_event_type e in
  if evt_is t SPSC_EVT_TX_WT_OPEN then tx_wt_open s e ;; ret 1
  else if evt_is t SPSC_EVT_TX_WT_CREATE_STREAM then tx_wt_create_stream s e ;; ret 1
  else if evt_is t SPSC_EVT_TX_WT_CLOSE then tx_wt_close s e ;; ret 1
  else if evt_is t SPSC_EVT_TX_WT_FIN then tx_wt_fin s ;; ret 1
  else if evt_is t SPSC_EVT_TX_WT_DRAIN then tx_wt_drain s ;; ret 1
  else if evt_is t SPSC_EVT_TX_WT_RESET_STREAM then tx_wt_reset_stream s e ;; ret 1
  else if evt_is t SPSC_EVT_TX_MARK_WT_DATAGRAM_READY then tx_mark_wt_datagram_ready s e ;; ret 1
  else if evt_is t SPSC_EVT_TX_WT_SET_STREAM_PRIORITY then tx_wt_set_stream_priority s e ;; ret 1
  else if evt_is t SPSC_EVT_TX_WT_SET_DATAGRAM_PRIORITY
  then tx_wt_set_datagram_priority s e ;; ret 1
  else if evt_is t SPSC_EVT_TX_WT_STOP_SENDING then tx_wt_stop_sending s e ;; ret 1
  else if evt_is t SPSC_EVT_TX_WT_SESSION_CLEANUP then tx_wt_session_cleanup s ;; ret 1
  else if evt_is t SPSC_EVT_TX_WT_DEREGISTER then tx_wt_deregister s ;; ret 1
  else ret 0.

(** ** The dispatch of a new connection *)

Definition aiopquic_dispatch_announce (cnx is_h3 : Z) : M unit :=
  snap ← aiopquic_cnx_snapshot_fill ev cnx;
  _ ← aiopquic_rx_push ev
    (entry_set 0 0 (u8 (c_bool (negb (is_h3 =? 0)))) 0 (event_entry SPSC_EVT_CNX_STACK 0 cnx 0))
    (ev_snapshot ev snap);
  ret tt.

(** The per-connection h3zero context: created, installed, initialised. *)
Definition h3_bootstrap (cnx params : Z) : M (Z + Z) :=
  hctx ← h3 ev (H3CreateContext params);
  if hctx =? 0 then pq_ ev (PqClose cnx (ev_error_memory ev)) ;; ret (inl (-1))
  else
    pq_ ev (PqSetCallbackTo cnx FnWtCnxCb hctx) ;;
    rc ← h3 ev (H3ProtocolInit cnx hctx);
    ret (if negb (rc =? 0) then inl rc else inr hctx).

Definition aiopquic_wt_server_bootstrap_cb (cnx stream_id bytes length : Z)
    (event : call_back_event) (callback_ctx v_stream_ctx : Z) : M Z :=
  r ← h3_bootstrap cnx callback_ctx;
  match r with
  | inl rc => ret rc
  | inr hctx => aiopquic_wt_cnx_cb ev cnx stream_id bytes length event hctx v_stream_ctx
  end.

(** The bytes of "h3". *)
Definition alpn_h3 : list Z := [104; 51].

Definition aiopquic_dispatch_cb (race : list sc_op) (cnx stream_id bytes length : Z)
    (data : list Z) (event : call_back_event) (v_stream_ctx : Z) : M Z :=
  alpn ← gets (λ w, ev_alpn ev (w_trace w) cnx);
  match alpn with
  | None => ret 0
  | Some alpn =>
      params ← getb b_dual_wt_params;
      if negb (params =? 0) && bool_decide (alpn = alpn_h3) then
        r ← h3_bootstrap cnx params;
        match r with
        | inl rc => ret rc
        | inr hctx =>
            aiopquic_dispatch_announce cnx 1 ;;
            aiopquic_wt_cnx_cb ev cnx stream_id bytes length event hctx v_stream_ctx
        end
      else
        pq_ ev (PqSetCallbackTo cnx FnStreamCb 0) ;;
        aiopquic_dispatch_announce cnx 0 ;;
        aiopquic_stream_cb ev race cnx stream_id bytes length data event v_stream_ctx
  end.

#[export] Instance wt_handler : WtHandler :=
  { aiopquic_wt_handle_tx := wt_handle_tx; aiopquic_wt_deferred_reset := wt_deferred_reset }.
End tx.
