(* ===== verification/WtBudget.v ===== *)
(** * What WebTransport runs may announce

    Some events may be sent to asyncio only so often: a session's SESSION_CLOSED, a
    stream's LINK_RELEASE, on which asyncio frees the link.  A [Budget] charges a cost to
    every event and reads an allowance off the state; its laws say which updates of
    sessions, links and streams may not raise the allowance and which must pay for an
    event.  The theorem: whatever h3zero calls, asyncio queues and asyncio takes, in any
    order, the events sent cost no more than the allowance at the start. *)
From S2P Require Import Prelude Ring Store StreamBuf SpscRing DgramBuf DgramTable.
From S2P Require Import StreamCtx WtState Bridge Alpn Callback World Runs.
From S2P Require Import WtProto WtSession WtPath WtTx.

(** ** The channel to asyncio *)

(** [q]: the entries in the RX ring, from position [H] on, then those in the overflow. *)
Definition chan (w : world) (H : Z) (q : list spsc_entry) : Prop :=
  ∃ q1 q2, rq_rep (b_rx_event_ring (w_ctx w)) H q1 ∧ o_nodes (b_rx_overflow (w_ctx w)) = q2 ∧
    o_depth (b_rx_overflow (w_ctx w)) = zlen q2 ∧ q = q1 ++ q2.

Definition rx_part (w : world) : spsc_ring * spsc_overflow :=
  (b_rx_event_ring (w_ctx w), b_rx_overflow (w_ctx w)).

Lemma chan_same w w' H q : rx_part w' = rx_part w -> chan w H q -> chan w' H q.
Proof. intros [= E1 E2] C. unfold chan. by rewrite E1, E2. Qed.

(** The entry queued for [e]: [e] itself when it carries no payload of its own. *)
Definition sent_as (e : spsc_entry) (data : list Z) (e' : spsc_entry) : Prop :=
  e_like e e' ∧ (data = [] -> e_data_length e = 0 -> e' = e).

Lemma entry_set_same e : e_data_length e = 0 -> entry_set_data e (e_data_buf e) 0 = e.
Proof. destruct e. cbn. by intros ->. Qed.

Lemma ring_push_queue r H q h p e data rc r' h' : rq_rep r H q -> H + zlen q + 1 < 2 ^ 64 ->
  spsc_ring_push r h p e data = Some (rc, r', h') -> 0 < zlen data ->
  (rc = 0 ∧ ∃ e', e_like e e' ∧ rq_rep r' H (q ++ [e']) ∧ zlen q < r_capacity r) ∨
  (r' = r ∧ (rc = -1 ∧ r_capacity r <= zlen q ∨ rc = -2)).
Proof.
  intros R Hw E Hd. unfold spsc_ring_push in E. rewrite (rq_used _ _ _ R), Z.geb_leb in E.
  destruct (Z.leb_spec (r_capacity r) (zlen q)); [injection E as <- <- _; auto|].
  rewrite (proj2 (Z.ltb_lt 0 _) Hd) in E. cbn [andb] in E.
  destruct (Z.eqb_spec p 0) as [|Hp]; [injection E as <- <- _; auto|].
  cbn [negb] in E. set (e' := entry_set_data e p (zlen data)) in *.
  set (b := if 0 <? e_data_length e' then _ else _) in E.
  destruct (rq_publish _ _ _ R e' b) as (es & Es & R'); [lia..|].
  rewrite Es in E. cbn in E. injection E as <- <- _.
  left. split; [done|]. exists e'. split; [by eexists _, _|]. by split.
Qed.

Lemma overflow_append_queue o h pa e data rc o' h' q2 : o_nodes o = q2 -> o_depth o = zlen q2 ->
  zlen q2 + 1 < 2 ^ 64 -> overflow_append o h pa e data = (rc, o', h') ->
  (0 <= rc ∧ ∃ e', sent_as e data e' ∧ o_nodes o' = q2 ++ [e'] ∧ o_depth o' = zlen (q2 ++ [e'])) ∨
  (rc < 0 ∧ o' = o).
Proof.
  intros En Ed Hw E. unfold overflow_append in E.
  destruct (pa_node pa); cbn [negb] in E; [|injection E as <- <- _; right; done].
  destruct (Z.ltb_spec 0 (zlen data)) as [Hd|Hd]; cbn [andb] in E.
  - destruct (pa_data pa =? 0); [injection E as <- <- _; right; done|].
    injection E as <- <- _. left. split; [done|]. eexists.
    split; [split; [by eexists _, _|by intros ->]|].
    cbn. rewrite En, Ed, length_app, u64_small by lia. split; [done|]. cbn. lia.
  - injection E as <- <- _. left. split; [done|]. eexists.
    split; [split; [by eexists _, _|intros _; apply entry_set_same]|].
    cbn. rewrite En, Ed, length_app, u64_small by lia. split; [done|]. cbn. lia.
Qed.

Lemma push_queue r H q1 q2 o h pa e data rc r' o' h' : rq_rep r H q1 ->
  o_nodes o = q2 -> o_depth o = zlen q2 -> H + zlen q1 + zlen q2 + 1 < 2 ^ 64 ->
  spsc_ring_push_or_overflow r o h pa e data = Some (rc, r', o', h') ->
  (0 <= rc ∧ ∃ e' q1' q2', sent_as e data e' ∧ rq_rep r' H q1' ∧ o_nodes o' = q2' ∧
     o_depth o' = zlen q2' ∧ q1' ++ q2' = (q1 ++ q2) ++ [e']) ∨
  (rc < 0 ∧ r' = r ∧ o' = o).
Proof.
  intros R En Ed Hw E. pose proof (rq_start _ _ _ R). unfold spsc_ring_push_or_overflow in E.
  assert (A : ∀ rc o' h', overflow_append o h pa e data = (rc, o', h') ->
    (0 <= rc ∧ ∃ e' q1' q2', sent_as e data e' ∧ rq_rep r H q1' ∧ o_nodes o' = q2' ∧
       o_depth o' = zlen q2' ∧ q1' ++ q2' = (q1 ++ q2) ++ [e']) ∨ (rc < 0 ∧ r = r ∧ o' = o)).
  { intros rc0 o0 h0 Ea.
    destruct (overflow_append_queue _ _ _ _ _ _ _ _ _ En Ed ltac:(lia) Ea)
      as [(? & e' & ? & ? & ?)|[? ->]]; [left|by right].
    split; [done|]. exists e', q1, (q2 ++ [e']). by rewrite app_assoc. }
  destruct (Z.eqb_spec (o_depth o) 0) as [Hz|_].
  2: { destruct (overflow_append o h pa e data) as [[rc0 o0] h0] eqn:Ea.
       injection E as <- <- <- <-. by eapply A. }
  destruct q2 as [|? ?]; [|rewrite Ed in Hz; cbn in Hz; lia].
  assert (P : ∀ rc r' h', (if 0 <? zlen data then spsc_ring_push r h (pa_ring pa) e data
      else '(rc, r) ← spsc_ring_push_borrowed r e; Some (rc, r, h)) = Some (rc, r', h') ->
    (rc = 0 ∧ ∃ e', sent_as e data e' ∧ rq_rep r' H (q1 ++ [e'])) ∨ (r' = r ∧ (rc = -1 ∨ rc = -2))).
  { intros rc0 r0 h0. destruct (Z.ltb_spec 0 (zlen data)) as [Hd|Hd].
    - intros Ep. destruct (ring_push_queue _ _ _ _ _ _ _ _ _ _ R ltac:(cbn in Hw; lia) Ep Hd)
        as [(-> & e' & He & R' & _)|(-> & [[-> _]| ->])]; [left|by right; auto|by right; auto].
      split; [done|]. exists e'. split; [|done]. split; [done|]. intros ->. cbn in Hd. lia.
    - unfold spsc_ring_push_borrowed. rewrite (rq_used _ _ _ R), Z.geb_leb.
      destruct (Z.leb_spec (r_capacity r) (zlen q1)); [intros [= <- <- _]; auto|].
      destruct (rq_publish _ _ _ R e (r_bytes_pending r)) as (es & -> & R');
        [lia|cbn in Hw; lia|]. intros [= <- <- _]. left. split; [done|]. exists e.
      split; [|done]. split; [apply e_like_refl|done]. }
  destruct (if 0 <? zlen data then _ else _) as [[[rc0 r0] h0]|] eqn:Ep; [|done]. cbn in E.
  destruct (P _ _ _ eq_refl) as [(-> & e' & He & R')|(-> & [-> | ->])]; cbn in E.
  - injection E as <- <- <- <-. left. split; [done|]. exists e', (q1 ++ [e']), [].
    split_and!; try done. by rewrite !app_nil_r.
  - destruct (overflow_append o h0 pa e data) as [[rc1 o1] h1] eqn:Ea.
    injection E as <- <- <- <-. rewrite app_nil_r in *.
    destruct (overflow_append_queue _ _ _ _ _ _ _ _ _ En Ed ltac:(cbn; lia) Ea)
      as [(? & e' & ? & ? & ?)|[? ->]]; [left|by right].
    split; [done|]. exists e', q1, [e']. done.
  - injection E as <- <- <- <-. by right.
Qed.

(** ** What keeps the channel and the WebTransport state *)

Definition wt_part (w : world) : wt_state * (spsc_ring * spsc_overflow) := (w_wt w, rx_part w).

Abbreviation quiet := (keeps wt_part).

Lemma quiet_setb f : (∀ b, b_rx_event_ring (f b) = b_rx_event_ring b) ->
  (∀ b, b_rx_overflow (f b) = b_rx_overflow b) -> quiet (setb f).
Proof. intros H1 H2 w x w' [= _ <-]. unfold wt_part, rx_part. cbn. by rewrite H1, H2. Qed.

Lemma quiet_tick : quiet next_tick.
Proof. by intros w x w' [= _ <-]. Qed.
Lemma quiet_count_n c n : quiet (count_n c n).
Proof. by apply quiet_setb. Qed.
Lemma quiet_count c : quiet (count c).
Proof. apply quiet_count_n. Qed.
Lemma quiet_set_cnt c v : quiet (set_cnt c v).
Proof. by apply quiet_setb. Qed.

Lemma quiet_on_sc f : quiet (on_sc f).
Proof. intros w x w' E. unfold on_sc in E. destruct (f _); [|done]. by injection E as _ <-. Qed.
Lemma quiet_upd_sc p f : quiet (upd_sc p f).
Proof. apply quiet_on_sc. Qed.
Lemma quiet_on_sc_val {A} (f : sc_world -> option (A * sc_world)) : quiet (on_sc_val f).
Proof. intros w x w' E. unfold on_sc_val in E. destruct (f _) as [[]|]; [|done]. by injection E as _ <-. Qed.
Lemma quiet_on_g f : quiet (on_g f).
Proof. by intros w x w' [= _ <-]. Qed.
Lemma quiet_on_rs f : quiet (on_rs f).
Proof. intros w x w' E. unfold on_rs in E. destruct (f _); [|done]. by injection E as _ <-. Qed.
Lemma quiet_on_db {A} db (f : dgram_buf -> option (A * dgram_buf)) : quiet (on_db db f).
Proof.
  intros w x w' E. unfold on_db in E. destruct (_ !! db); [|done]. cbn in E.
  destruct (f _) as [[]|]; [|done]. by injection E as _ <-.
Qed.

Lemma quiet_read_tx {A} p (f : stream_buf -> A) : quiet (read_tx p f).
Proof.
  intros w x w' E. unfold read_tx in E. destruct (_ !! p) as [c|]; [|done]. cbn in E.
  destruct (sc_tx c); [|done]. by injection E as _ <-.
Qed.
Lemma quiet_read_rx {A} p (f : stream_buf -> A) : quiet (read_rx p f).
Proof.
  intros w x w' E. unfold read_rx in E. destruct (_ !! p) as [c|]; [|done]. cbn in E.
  destruct (sc_rx c); [|done]. by injection E as _ <-.
Qed.
Lemma quiet_payload e : quiet (payload e).
Proof.
  intros w x w' E. unfold payload in E. destruct (e_data_buf e =? 0); [by injection E as _ <-|].
  destruct (_ !! _); [|done]. by injection E as _ <-.
Qed.

Lemma read_s_some {A} s (f : wt_session -> A) w x w' : read_s s f w = Some (x, w') ->
  w' = w ∧ ∃ y, wt_objs (w_wt w) !! s = Some (ObjSession y) ∧ x = f y.
Proof. unfold read_s. destruct (_ !! s) as [[y|]|]; [|done|done]. intros [= <- <-]. eauto. Qed.
Lemma quiet_read_s {A} s (f : wt_session -> A) : quiet (read_s s f).
Proof. by intros w x w' [-> _]%read_s_some. Qed.
Lemma quiet_read_link {A} l (f : wt_link -> A) : quiet (read_link l f).
Proof.
  intros w x w' E. unfold read_link in E. destruct (_ !! l) as [[]|]; [done| |done].
  by injection E as _ <-.
Qed.
Lemma read_st_some {A} st (f : h3_stream -> A) w x w' : read_st st f w = Some (x, w') ->
  w' = w ∧ ∃ y, hm_streams (wt_h3 (w_wt w)) !! st = Some y ∧ x = f y.
Proof. unfold read_st. destruct (_ !! st) as [y|]; [|done]. intros [= <- <-]. eauto. Qed.
Lemma quiet_read_st {A} st (f : h3_stream -> A) : quiet (read_st st f).
Proof. by intros w x w' [-> _]%read_st_some. Qed.
Lemma quiet_read_px {A} p (f : h3_prefix -> A) : quiet (read_px p f).
Proof. intros w x w' E. unfold read_px in E. destruct (_ !! p); [|done]. by injection E as _ <-. Qed.
Lemma quiet_read_h3 {A} h (f : h3_ctx -> A) : quiet (read_h3 h f).
Proof. intros w x w' E. unfold read_h3 in E. destruct (_ !! h); [|done]. by injection E as _ <-. Qed.

#[export] Hint Resolve quiet_tick quiet_count_n quiet_count quiet_set_cnt quiet_on_sc quiet_upd_sc
  quiet_on_sc_val quiet_on_g quiet_on_rs quiet_on_db quiet_read_tx quiet_read_rx quiet_payload
  quiet_read_s quiet_read_link quiet_read_st quiet_read_px quiet_read_h3 : keeps.
#[export] Hint Extern 2 (keeps wt_part (setb _)) => apply quiet_setb; intros; reflexivity : keeps.

(** An executable definition that reads the world and keeps it. *)
Lemma quiet_pure {A} (f : world -> option A) :
  quiet (λ w, x ← f w; Some (x, w)).
Proof. intros w x w' E. cbn in E. destruct (f w); [|done]. by injection E as _ <-. Qed.

Section quiet.
Context (ev : env).

Lemma quiet_pq c : quiet (pq ev c).
Proof. by intros w x w' [= _ <-]. Qed.
Lemma quiet_pq_ c : quiet (pq_ ev c).
Proof using Type. unfold pq_. pose proof quiet_pq. keeps_tac. Qed.
Lemma quiet_now : quiet (aiopquic_now_ns ev).
Proof using Type. unfold aiopquic_now_ns. keeps_tac. Qed.
Lemma quiet_alive cnx : quiet (aiopquic_cnx_is_alive ev cnx).
Proof using Type. unfold aiopquic_cnx_is_alive. keeps_tac. Qed.

Lemma quiet_notify : quiet (aiopquic_notify_rx ev).
Proof using Type.
  unfold aiopquic_notify_rx, wake_write, worker_trace_add. pose proof quiet_now. keeps_tac.
  - intros w y w' [= _ <-]. by case_match.
  - intros w y w' E. cbn in E.
    destruct (aiopquic_wake_trace_add _ _ _ _ _); [|done]. by injection E as _ <-.
Qed.

Lemma quiet_rx_log : quiet (aiopquic_rx_log_enabled ev).
Proof using Type. unfold aiopquic_rx_log_enabled. keeps_tac. by intros w y w' [= _ <-]. Qed.
End quiet.

#[export] Hint Resolve quiet_pq quiet_pq_ quiet_now quiet_alive quiet_notify quiet_rx_log : keeps.

Section quiet_calls.
Context (ev : env).

Lemma quiet_local cnx id : quiet (aiopquic_stream_is_local ev cnx id).
Proof using Type. unfold aiopquic_stream_is_local. keeps_tac. Qed.
Lemma quiet_can_send cnx id : quiet (aiopquic_stream_can_send ev cnx id).
Proof using Type. unfold aiopquic_stream_can_send. pose proof quiet_local. keeps_tac. Qed.
Lemma quiet_can_receive cnx id : quiet (aiopquic_stream_can_receive ev cnx id).
Proof using Type. unfold aiopquic_stream_can_receive. pose proof quiet_local. keeps_tac. Qed.
Lemma quiet_negotiated cnx : quiet (aiopquic_reset_stream_at_negotiated ev cnx).
Proof using Type. unfold aiopquic_reset_stream_at_negotiated. keeps_tac. Qed.
Lemma quiet_reliable_size cnx sc n : quiet (aiopquic_reset_reliable_size ev cnx sc n).
Proof using Type. unfold aiopquic_reset_reliable_size. pose proof quiet_negotiated. keeps_tac. Qed.
Lemma quiet_reset_reliable cnx id code n : quiet (aiopquic_reset_stream_reliable ev cnx id code n).
Proof using Type. unfold aiopquic_reset_stream_reliable. keeps_tac. Qed.
Lemma quiet_defer cnx sc id code n p wt : quiet (aiopquic_defer_reset ev cnx sc id code n p wt).
Proof using Type. unfold aiopquic_defer_reset. keeps_tac. Qed.
Lemma quiet_ceiling cnx : quiet (aiopquic_datagram_payload_ceiling ev cnx).
Proof using Type. unfold aiopquic_datagram_payload_ceiling. keeps_tac. Qed.
Lemma quiet_window cnx id : quiet (aiopquic_initial_rx_window ev cnx id).
Proof using Type. unfold aiopquic_initial_rx_window. keeps_tac. Qed.
Lemma quiet_snapshot cnx : quiet (aiopquic_cnx_snapshot_fill ev cnx).
Proof using Type. unfold aiopquic_cnx_snapshot_fill. pose proof quiet_ceiling. keeps_tac. Qed.
Lemma quiet_strdup src : quiet (aiopquic_wt_strdup ev src).
Proof using Type. unfold aiopquic_wt_strdup. keeps_tac. Qed.
Lemma quiet_drop_walk ds cnx : ∀ kept, quiet (drop_walk kept ds cnx).
Proof.
  induction ds as [|d ds IH]; intros kept; cbn [drop_walk]; unfold aiopquic_deferred_reset_free; keeps_tac.
Qed.
Lemma quiet_drop_cnx cnx : quiet (aiopquic_deferred_resets_drop_cnx cnx).
Proof. unfold aiopquic_deferred_resets_drop_cnx. pose proof quiet_drop_walk. keeps_tac. Qed.
Lemma quiet_reason_drop cnx : quiet (aiopquic_close_reason_drop cnx).
Proof. unfold aiopquic_close_reason_drop. keeps_tac. Qed.
Lemma quiet_drain_take sc : quiet (drain_take sc).
Proof. apply quiet_on_sc_val. Qed.
Lemma quiet_arm sc : quiet (rx_event_pending_arm sc).
Proof. apply quiet_on_sc_val. Qed.
Lemma quiet_pop_tx sc n : quiet (sc_pop_tx sc n).
Proof. apply quiet_on_sc_val. Qed.
Lemma quiet_push_rx sc bs : quiet (sc_push_rx sc bs).
Proof. apply quiet_on_sc_val. Qed.
End quiet_calls.

#[export] Hint Resolve quiet_can_send quiet_can_receive quiet_reliable_size quiet_reset_reliable
  quiet_defer quiet_window quiet_snapshot quiet_strdup quiet_drop_cnx quiet_reason_drop
  quiet_drain_take quiet_arm quiet_pop_tx quiet_push_rx quiet_local : keeps.

(** ** Budgets *)

Definition entry_is (t : spsc_event_type) (e : spsc_entry) : Prop := e_event_type e = evt_code t.

(** The context of every stream in [m'] that is [tracked] was its context in [m]. *)
Definition calm (tracked : Z -> Prop) (m m' : gmap Z h3_stream) : Prop :=
  ∀ st x', m' !! st = Some x' -> tracked (hs_path_callback_ctx x') ->
    ∃ x, m !! st = Some x ∧ hs_path_callback_ctx x = hs_path_callback_ctx x'.

Class Budget (ev : env) := {
  cost : spsc_entry -> Z;
  allow : gmap Z wt_obj -> gmap Z h3_stream -> Z;
  tracked : Z -> Prop;
  (** events other than the two are free *)
  bg_free e : ~ entry_is SPSC_EVT_WT_SESSION_CLOSED e ->
    ~ entry_is SPSC_EVT_WT_STREAM_LINK_RELEASE e -> cost e = 0;
  bg_nonneg o m : 0 <= allow o m;
  (** a session's closing flag is only set *)
  bg_session o m s x x' : o !! s = Some (ObjSession x) ->
    ws_session_closing x' = ws_session_closing x ∨ ws_session_closing x' <> 0 ->
    allow (<[s := ObjSession x']> o) m <= allow o m;
  bg_gone o m p : allow (delete p o) m <= allow o m;
  bg_fresh o m t os x : allow (<[ev_wt ev t os := x]> o) m <= allow o m;
  bg_fresh_ctx t os : ~ tracked (ev_wt ev t os);
  bg_null : ~ tracked 0;
  bg_calm o m m' : calm tracked m m' -> allow o m' <= allow o m;
  bg_h3 tr c m : calm tracked (hm_streams m) (hm_streams (ev_h3 ev tr c m));
  (** closing a session pays for its SESSION_CLOSED *)
  bg_closed o m s x x' e : o !! s = Some (ObjSession x) ->
    ws_session_closing x = 0 -> ws_session_closing x' <> 0 ->
    entry_is SPSC_EVT_WT_SESSION_CLOSED e -> e_stream_ctx e = s ->
    cost e + allow (<[s := ObjSession x']> o) m <= allow o m;
  (** taking a link off its stream pays for its LINK_RELEASE *)
  bg_release o m m' st x x' e : m !! st = Some x -> calm tracked m m' -> is_Some (m' !! st) ->
    hs_path_callback_ctx x <> 0 -> hs_path_callback_ctx x' = 0 ->
    entry_is SPSC_EVT_WT_STREAM_LINK_RELEASE e -> e_data_buf e = hs_path_callback_ctx x ->
    cost e + allow o (<[st := x']> m') <= allow o m
}.

Section budget.
Context {ev : env} `{!Budget ev}.

Definition allowed (w : world) : Z := allow (wt_objs (w_wt w)) (hm_streams (wt_h3 (w_wt w))).

(** [w'] sent [new] at most, paid out of the allowance. *)
Definition evolves (w w' : world) : Prop :=
  allowed w' <= allowed w ∧
  ∀ H q, chan w H q -> ∃ new, lsum cost new + allowed w' <= allowed w ∧
    (H + zlen q + zlen new < 2 ^ 64 -> chan w' H (q ++ new)).

Lemma evolves_trans w1 w2 w3 : evolves w1 w2 -> evolves w2 w3 -> evolves w1 w3.
Proof.
  intros [A1 B1] [A2 B2]. split; [lia|]. intros H q C.
  destruct (B1 H q C) as (n1 & L1 & C1).
  destruct (decide (H + zlen q + zlen n1 < 2 ^ 64)) as [Hr|Hr].
  - destruct (B2 H (q ++ n1) (C1 Hr)) as (n2 & L2 & C2). exists (n1 ++ n2).
    rewrite lsum_app, length_app, app_assoc. split; [lia|]. intros Hr2. apply C2.
    rewrite length_app. lia.
  - exists n1. split; [lia|]. lia.
Qed.

Lemma evolves_same w w' : wt_part w' = wt_part w -> evolves w w'.
Proof.
  intros [= Ew Er Eo]. assert (Ea : allowed w' = allowed w) by (unfold allowed; by rewrite Ew).
  split; [lia|]. intros H q C. exists []. rewrite app_nil_r. split; [change (lsum cost []) with 0; lia|]. intros _.
  eapply chan_same; [|done]. unfold rx_part. congruence.
Qed.

(** [m] stays within the allowance; its result satisfies [Q]. *)
Definition pays_q {A} (m : M A) (Q : A -> Prop) : Prop :=
  ∀ w x w', m w = Some (x, w') -> evolves w w' ∧ Q x.
Definition pays {A} (m : M A) : Prop := ∀ w x w', m w = Some (x, w') -> evolves w w'.

Lemma pays_of_q {A} (m : M A) Q : pays_q m Q -> pays m.
Proof using Type. intros Hm w x w' E. by apply (Hm _ _ _ E). Qed.

Lemma pays_quiet {A} (m : M A) : quiet m -> pays m.
Proof. intros Hm w x w' E. apply evolves_same. by apply Hm in E. Qed.

Lemma pays_bind_q {A A2} (m : M A) (k : A -> M A2) Q : pays_q m Q ->
  (∀ x, Q x -> pays (k x)) -> pays (x ← m; k x).
Proof.
  intros Hm Hk w y w' E. minv E. destruct (Hm _ _ _ E0) as [V HQ].
  eapply evolves_trans; [exact V|by eapply Hk].
Qed.

Lemma pays_bind {A A2} (m : M A) (k : A -> M A2) : pays m -> (∀ x, pays (k x)) -> pays (x ← m; k x).
Proof.
  intros Hm Hk. apply (pays_bind_q m k (λ _, True)); [|auto]. intros w x w' E. split; [eauto|done].
Qed.

Lemma pays_ret {A} (x : A) : pays (ret x).
Proof. apply pays_quiet, keeps_ret. Qed.

Lemma pays_if {A} (b : bool) (m m' : M A) : pays m -> pays m' -> pays (if b then m else m').
Proof using Type. by destruct b. Qed.

Lemma pays_when b m : pays m -> pays (when b m).
Proof. intros. apply pays_if; [done|apply pays_ret]. Qed.

(** *** Sending *)

(** [m] keeps the WebTransport state and sends a list in [P]. *)
Definition sends {A} (P : list spsc_entry -> Prop) (m : M A) : Prop :=
  ∀ w x w', m w = Some (x, w') -> w_wt w' = w_wt w ∧
    ∀ H q, chan w H q -> ∃ new, P new ∧ (H + zlen q + zlen new < 2 ^ 64 -> chan w' H (q ++ new)).

Definition cheap (new : list spsc_entry) : Prop := lsum cost new <= 0.

Lemma cheap_nil : cheap [].
Proof. done. Qed.

Lemma sends_quiet {A} P (m : M A) : P [] -> quiet m -> sends P m.
Proof using Type.
  intros HP Hm w x w' E. apply Hm in E. injection E as Ew Er Eo. split; [done|].
  intros H q C. exists []. rewrite app_nil_r. split; [done|]. intros _.
  eapply chan_same; [|done]. unfold rx_part. congruence.
Qed.

Lemma sends_after {A A2} P (m : M A) (k : A -> M A2) : quiet m -> (∀ x, sends P (k x)) ->
  sends P (x ← m; k x).
Proof using Type.
  intros Hm Hk w y w' E. minv E. apply Hm in E0. injection E0 as Ew Er Eo.
  destruct (Hk _ _ _ _ E) as [Ew2 Hs]. split; [congruence|]. intros H q C. apply Hs.
  eapply chan_same; [|done]. unfold rx_part. congruence.
Qed.

Lemma sends_before {A A2} P (m : M A) (k : A -> M A2) : sends P m -> (∀ x, quiet (k x)) ->
  sends P (x ← m; k x).
Proof using Type.
  intros Hm Hk w y w' E. minv E. destruct (Hm _ _ _ E0) as [Ew Hs].
  apply Hk in E. injection E as Ew2 Er Eo. split; [congruence|]. intros H q C.
  destruct (Hs H q C) as (new & HP & Hc). exists new. split; [done|]. intros Hr.
  eapply chan_same; [|by apply Hc]. unfold rx_part. congruence.
Qed.

Lemma sends_if {A} P (b : bool) (m m' : M A) : sends P m -> sends P m' ->
  sends P (if b then m else m').
Proof using Type. by destruct b. Qed.

Lemma sends_rx_push P e data : P [] -> (∀ e', sent_as e data e' -> P [e']) ->
  sends P (aiopquic_rx_push ev e data).
Proof using Type.
  intros H0 He. unfold aiopquic_rx_push, ring_push_or_overflow.
  assert (Hp : sends P (t ← next_tick;
    (λ w, '(rc, r, o, h) ← spsc_ring_push_or_overflow (b_rx_event_ring (w_ctx w))
                             (b_rx_overflow (w_ctx w)) (w_heap w) (ev_alloc ev t (w_heap w)) e data;
          Some (rc, w_set_heap h
                      (w_set_ctx (b_set_rx_overflow o (b_set_rx_event_ring r (w_ctx w))) w))) : M Z)).
  { apply sends_after; [keeps_tac|]. intros t w rc w' E. cbn in E.
    destruct (spsc_ring_push_or_overflow _ _ _ _ _ _) as [[[[rc0 r] o] h]|] eqn:Ep; [|done].
    injection E as <- <-. split; [done|]. intros H q (q1 & q2 & R & En & Ed & ->).
    destruct (decide (H + zlen (q1 ++ q2) + 1 < 2 ^ 64)) as [Hr|Hr].
    - rewrite length_app in Hr.
      destruct (push_queue _ _ _ _ _ _ _ _ _ _ _ _ _ R En Ed ltac:(lia) Ep)
        as [(_ & e' & p1 & p2 & Hs & R' & En' & Ed' & Eq)|(_ & -> & ->)].
      + exists [e']. split; [by apply He|]. intros _. exists p1, p2. by rewrite Eq.
      + exists []. split; [done|]. intros _. rewrite app_nil_r. exists q1, q2. done.
    - exists [e]. split; [apply He; split; [apply e_like_refl|done]|]. cbn [length]. lia. }
  apply sends_before; [exact Hp|]. intros rc. keeps_tac.
Qed.

Lemma pays_sends {A} (m : M A) : sends cheap m -> pays m.
Proof.
  intros Hm w x w' E. destruct (Hm _ _ _ E) as [Ew Hs].
  assert (Ea : allowed w' = allowed w) by (unfold allowed; by rewrite Ew).
  split; [lia|]. intros H q C. destruct (Hs H q C) as (new & Hc & Hch). exists new.
  unfold cheap in Hc. split; [lia|done].
Qed.

Definition dear (t : spsc_event_type) : bool :=
  match t with SPSC_EVT_WT_SESSION_CLOSED | SPSC_EVT_WT_STREAM_LINK_RELEASE => true | _ => false end.

Lemma entry_is_like e e' t : e_like e e' -> entry_is t e' -> entry_is t e.
Proof using Type. by intros (p & n & ->). Qed.

Lemma cheap_one e e' : e_event_type e <> evt_code SPSC_EVT_WT_SESSION_CLOSED ->
  e_event_type e <> evt_code SPSC_EVT_WT_STREAM_LINK_RELEASE -> e_like e e' -> cheap [e'].
Proof.
  intros H1 H2 Hl. unfold cheap. rewrite lsum_one, bg_free; [done|..]; intros Hi;
    by apply (entry_is_like e) in Hi.
Qed.

Lemma pays_rx_push e data : e_event_type e <> evt_code SPSC_EVT_WT_SESSION_CLOSED ->
  e_event_type e <> evt_code SPSC_EVT_WT_STREAM_LINK_RELEASE -> pays (aiopquic_rx_push ev e data).
Proof.
  intros H1 H2. apply pays_sends, sends_rx_push; [done|]. intros e' [Hl _]. by eapply cheap_one.
Qed.
End budget.

(** ** The primitives *)

Section prims.
Context {ev : env} `{!Budget ev}.

Definition sts (w : world) : gmap Z h3_stream := hm_streams (wt_h3 (w_wt w)).

Lemma calm_refl m : calm tracked m m.
Proof. intros st x E _. eauto. Qed.

Lemma calm_trans m1 m2 m3 : calm tracked m1 m2 -> calm tracked m2 m3 -> calm tracked m1 m3.
Proof.
  intros C1 C2 st x E Ht. destruct (C2 st x E Ht) as (x2 & E2 & H2).
  destruct (C1 st x2 E2) as (x1 & E1 & H1); [congruence|]. exists x1. split; congruence.
Qed.

Lemma calm_insert m st x x' : m !! st = Some x ->
  hs_path_callback_ctx x' = hs_path_callback_ctx x ∨ ~ tracked (hs_path_callback_ctx x') ->
  calm tracked m (<[st := x']> m).
Proof.
  intros E Hx st' y. rewrite lookup_insert_Some. intros [[<- <-]|[_ Ey]] Ht; [|eauto].
  destruct Hx as [Hx|Hx]; [|done]. exists x. by rewrite Hx.
Qed.

(** Sessions, links and the channel kept, and no tracked context new. *)
Definition calms {A} (m : M A) : Prop := ∀ w x w', m w = Some (x, w') ->
  wt_objs (w_wt w') = wt_objs (w_wt w) ∧ calm tracked (sts w) (sts w') ∧ rx_part w' = rx_part w.

Lemma calms_quiet {A} (m : M A) : quiet m -> calms m.
Proof.
  intros Hm w x w' E. apply Hm in E. injection E as Ew Er Eo. unfold sts, rx_part.
  rewrite Ew. split; [done|]. split; [apply calm_refl|]. congruence.
Qed.

Lemma calms_bind {A A2} (m : M A) (k : A -> M A2) : calms m -> (∀ x, calms (k x)) ->
  calms (x ← m; k x).
Proof.
  intros Hm Hk w y w' E. minv E. destruct (Hm _ _ _ E0) as (A1 & B1 & C1).
  destruct (Hk _ _ _ _ E) as (A3 & B3 & C3).
  split; [congruence|]. split; [by eapply calm_trans|congruence].
Qed.

Lemma calms_if {A} (b : bool) (m m' : M A) : calms m -> calms m' -> calms (if b then m else m').
Proof using Type. by destruct b. Qed.

Lemma calms_when b m : calms m -> calms (when b m).
Proof. intros. apply calms_if; [done|apply calms_quiet, keeps_ret]. Qed.

Lemma calms_h3 c : calms (h3 ev c).
Proof. intros w x w' [= _ <-]. split; [done|]. split; [apply bg_h3|done]. Qed.

Lemma calms_upd_st st f : (∀ x, hs_path_callback_ctx (f x) = hs_path_callback_ctx x ∨
    ~ tracked (hs_path_callback_ctx (f x))) -> calms (upd_st st f).
Proof.
  intros Hf w x w' E. unfold upd_st in E.
  destruct (hm_streams (wt_h3 (w_wt w)) !! st) as [y|] eqn:Ey; [|done].
  cbn in E. injection E as _ <-. split; [done|]. split; [|done]. cbn. by eapply calm_insert.
Qed.

Lemma calms_upd_px p f : calms (upd_px p f).
Proof.
  intros w x w' E. unfold upd_px in E. destruct (_ !! p); [|done]. injection E as _ <-.
  split; [done|]. split; [apply calm_refl|done].
Qed.

Lemma calms_upd_h3 h f : calms (upd_h3 h f).
Proof.
  intros w x w' E. unfold upd_h3 in E. destruct (_ !! h); [|done]. injection E as _ <-.
  split; [done|]. split; [apply calm_refl|done].
Qed.

Lemma evolves_calm w w' : wt_objs (w_wt w') = wt_objs (w_wt w) -> calm tracked (sts w) (sts w') ->
  rx_part w' = rx_part w -> evolves w w'.
Proof.
  intros Eo Hc Er. assert (Ha : allowed w' <= allowed w) by (unfold allowed; rewrite Eo; by apply bg_calm).
  split; [done|]. intros H q C. exists []. rewrite app_nil_r.
  split; [change (lsum cost []) with 0; lia|]. intros _. by eapply chan_same.
Qed.

Lemma pays_calms {A} (m : M A) : calms m -> pays m.
Proof. intros Hm w x w' E. destruct (Hm _ _ _ E) as (? & ? & ?). by apply evolves_calm. Qed.

(** An update of the objects, the channel as it was. *)
Lemma evolves_objs w o : allow o (sts w) <= allowed w -> evolves w (set_objs o w).
Proof.
  intros Ha. split; [done|]. intros H q C. exists []. rewrite app_nil_r.
  split; [change (lsum cost []) with 0; unfold allowed at 1; cbn; unfold sts in Ha; lia|].
  intros _. by eapply chan_same.
Qed.

Lemma upd_s_some s f w x w' : upd_s s f w = Some (x, w') ->
  ∃ y, wt_objs (w_wt w) !! s = Some (ObjSession y) ∧
    w' = set_objs (<[s := ObjSession (f y)]> (wt_objs (w_wt w))) w.
Proof using Type.
  intros E. unfold upd_s in E. minv E. apply read_s_some in E0 as (-> & y & Ey & ->).
  injection E as _ <-. eauto.
Qed.

Lemma pays_upd_s s f : (∀ x, ws_session_closing (f x) = ws_session_closing x ∨
    ws_session_closing (f x) <> 0) -> pays (upd_s s f).
Proof.
  intros Hf w x w' E. apply upd_s_some in E as (y & Ey & ->).
  apply evolves_objs. by eapply bg_session.
Qed.

Lemma pays_free_obj p : pays (free_obj p).
Proof.
  intros w x w' E. unfold free_obj in E. destruct (_ !! p); [|done]. injection E as _ <-.
  apply evolves_objs, bg_gone.
Qed.

(** An address [calloc] gave out. *)
Definition fresh (p : Z) : Prop := ∃ t os, p = ev_wt ev t os.

Lemma pays_calloc : pays_q (wt_calloc ev) fresh.
Proof.
  intros w x w' E. unfold wt_calloc in E. minv E. injection E as <- <-. injection E0 as <- <-.
  split; [by apply evolves_same|]. by eexists _, _.
Qed.

Lemma pays_put_fresh p x : fresh p -> pays (put_obj p x).
Proof. intros (t & os & ->) w y w' [= _ <-]. apply evolves_objs, bg_fresh. Qed.

Lemma fresh_untracked p : fresh p -> ~ tracked p.
Proof. intros (t & os & ->). apply bg_fresh_ctx. Qed.
End prims.

Create HintDb pays.
#[export] Hint Resolve pays_ret pays_free_obj : pays.
#[export] Hint Extern 1 (pays (h3 _ _)) => apply pays_calms, calms_h3 : pays.
#[export] Hint Extern 1 (pays (upd_px _ _)) => apply pays_calms, calms_upd_px : pays.
#[export] Hint Extern 1 (pays (upd_h3 _ _)) => apply pays_calms, calms_upd_h3 : pays.
#[export] Hint Extern 1 (pays (upd_st _ _)) =>
  apply pays_calms, calms_upd_st; intros; solve [by left | right; by apply bg_null] : pays.
#[export] Hint Extern 1 (pays (upd_s _ _)) =>
  apply pays_upd_s; intros; solve [by left | by right] : pays.
#[export] Hint Extern 1 (pays (aiopquic_rx_push _ _ _)) => apply pays_rx_push; done : pays.
#[export] Hint Extern 9 (pays _) => apply pays_quiet; solve [eauto with keeps typeclass_instances] : pays.

Ltac pays_step :=
  match goal with
  | |- pays (mbind _ _) => apply pays_bind; [|intros]
  | |- pays (when _ _) => apply pays_when
  | |- pays (if _ then _ else _) => apply pays_if
  | |- pays (let '_ := ?x in _) => destruct x
  | |- pays (match ?x with _ => _ end) => destruct x
  | |- pays _ => solve [eauto with pays]
  | |- pays _ => progress cbn zeta
  end.
Ltac pays_tac := repeat pays_step.

Ltac calms_step :=
  match goal with
  | |- calms (mbind _ _) => apply calms_bind; [|intros]
  | |- calms (when _ _) => apply calms_when
  | |- calms (if _ then _ else _) => apply calms_if
  | |- calms (match ?x with _ => _ end) => destruct x
  | |- calms (h3 _ _) => apply calms_h3
  | |- calms _ => solve [apply calms_quiet; eauto with keeps typeclass_instances | eauto]
  end.
Ltac calms_tac := repeat calms_step.
