(* ===== verification/WtRun.v ===== *)
(** * WebTransport runs

    Every operation of the WebTransport half stays within a [Budget]; so does any run of
    them, asyncio taking events off the channel in between.  Two budgets make two
    theorems: a session announces its end once, and a link is released once. *)
From S2P Require Import Prelude Ring Store StreamBuf SpscRing DgramBuf DgramTable.
From S2P Require Import StreamCtx WtState Bridge Alpn Callback World Runs Teardown.
From S2P Require Import WtProto WtSession WtPath WtTx WtBudget.

Section ops.
Context {ev : env} `{!Budget ev}.

(** ** Sessions and links *)

Lemma quiet_sc_create : quiet (sc_create ev).
Proof using Type.
  unfold sc_create. keeps_tac. intros w y w' E.
  destruct (aiopquic_stream_ctx_create _ _). by injection E as _ <-.
Qed.

Lemma pays_session_create : pays_q (aiopquic_wt_session_create ev) (λ s, s = 0 ∨ fresh (ev := ev) s).
Proof.
  intros w x w' E. unfold aiopquic_wt_session_create in E. minv E.
  destruct (pays_calloc _ _ _ E0) as [V Hf]. destruct (x0 =? 0).
  - injection E as <- <-. auto.
  - minv E. injection E as <- <-. split; [|auto]. eapply evolves_trans; [done|].
    by eapply pays_put_fresh.
Qed.

Lemma pays_drop_retry s : pays (aiopquic_wt_drop_retry s).
Proof. unfold aiopquic_wt_drop_retry. pays_tac. Qed.

Lemma pays_session_destroy s : pays (aiopquic_wt_session_destroy ev s).
Proof. unfold aiopquic_wt_session_destroy. pose proof pays_drop_retry. pays_tac. Qed.

Lemma pays_link_create s id :
  pays_q (aiopquic_wt_stream_link_create ev s id) (λ l, l = 0 ∨ fresh (ev := ev) l).
Proof.
  intros w x w' E. unfold aiopquic_wt_stream_link_create in E. minv E.
  destruct (pays_calloc _ _ _ E0) as [V Hf].
  destruct (x0 =? 0); [injection E as <- <-; auto|].
  minv E. assert (V2 : evolves w0 w1) by (by eapply pays_quiet, E1; apply quiet_sc_create).
  destruct (x1 =? 0); [injection E as <- <-; split; [by eapply evolves_trans|auto]|].
  minv E. minv E. injection E as <- <-. split; [|auto].
  assert (V3 : evolves w1 w2) by (eapply (pays_when _ _); [|exact E2]; eauto with pays).
  eapply evolves_trans; [exact V|]. eapply evolves_trans; [exact V2|].
  eapply evolves_trans; [exact V3|]. by eapply pays_put_fresh.
Qed.

Lemma pays_link_destroy l : pays (aiopquic_wt_stream_link_destroy l).
Proof. unfold aiopquic_wt_stream_link_destroy. pays_tac. Qed.

Lemma pays_set_ctx st p : fresh (ev := ev) p -> pays (upd_st st (hs_set_path_callback_ctx p)).
Proof. intros Hf. apply pays_calms, calms_upd_st. intros x. right. by apply fresh_untracked. Qed.

Lemma pays_ensure_link s l st id : pays (aiopquic_wt_ensure_link ev s l st id).
Proof.
  unfold aiopquic_wt_ensure_link. apply pays_if; [pays_tac|].
  eapply pays_bind_q; [apply pays_link_create|]. intros p Hp.
  destruct (Z.eqb_spec p 0) as [->|Hn]; [pays_tac|]. destruct Hp as [?|Hp]; [done|].
  apply pays_bind; [by apply pays_set_ctx|intros _]. pays_tac.
Qed.

(** ** Events *)

Lemma pays_push_event s t id code data : dear t = false ->
  pays (aiopquic_wt_push_event ev s t id code data).
Proof. intros Ht. unfold aiopquic_wt_push_event. pays_tac. all: apply pays_rx_push; by destruct t. Qed.

Lemma pays_push_event_with_sc s t id sc fin : dear t = false ->
  pays (aiopquic_wt_push_event_with_sc ev s t id sc fin).
Proof.
  intros Ht. unfold aiopquic_wt_push_event_with_sc. pays_tac.
  all: apply pays_rx_push; by destruct t.
Qed.

Lemma pays_push_close s t code reason source : dear t = false ->
  pays (aiopquic_wt_push_close ev s t code reason source).
Proof.
  intros Ht. unfold aiopquic_wt_push_close. pays_tac. all: apply pays_rx_push; by destruct t.
Qed.

Lemma pays_new_stream s id sc : pays (aiopquic_wt_push_new_stream ev s id sc).
Proof. unfold aiopquic_wt_push_new_stream. pays_tac. Qed.
Lemma pays_stream_created s id sc code : pays (aiopquic_wt_push_stream_created ev s id sc code).
Proof. unfold aiopquic_wt_push_stream_created. pays_tac. Qed.
Lemma pays_stream_destroy s id : pays (aiopquic_wt_push_stream_destroy ev s id).
Proof. unfold aiopquic_wt_push_stream_destroy. pays_tac. Qed.

(** ** The announcement that a session ended *)

Definition closed_new (s : Z) (new : list spsc_entry) : Prop :=
  ∀ o m x x', o !! s = Some (ObjSession x) -> ws_session_closing x = 0 ->
    ws_session_closing x' <> 0 ->
    lsum cost new + allow (<[s := ObjSession x']> o) m <= allow o m.

Lemma closed_new_nil s : closed_new s [].
Proof.
  intros o m x x' E _ Hx. change (lsum cost []) with 0. rewrite Z.add_0_l.
  eapply bg_session; [exact E|by right].
Qed.

Lemma closed_new_one s e e' : e_event_type e = evt_code SPSC_EVT_WT_SESSION_CLOSED ->
  e_stream_ctx e = s -> e_like e e' -> closed_new s [e'].
Proof. intros Ht Hs (p & n & ->) o m x x' E Hx Hx'. rewrite lsum_one. by eapply bg_closed. Qed.

Lemma sends_closed s id code data :
  sends (closed_new s) (aiopquic_wt_push_event ev s SPSC_EVT_WT_SESSION_CLOSED id code data).
Proof.
  unfold aiopquic_wt_push_event. apply sends_after; [keeps_tac|]. intros cnx.
  apply sends_before; [|intros; keeps_tac].
  apply sends_rx_push; [apply closed_new_nil|]. intros e' [Hl _]. refine (closed_new_one s _ _ _ _ Hl); done.
Qed.

Lemma sends_push_closed s code reason source :
  sends (closed_new s) (aiopquic_wt_push_close ev s SPSC_EVT_WT_SESSION_CLOSED code reason source).
Proof.
  unfold aiopquic_wt_push_close. do 2 (apply sends_after; [keeps_tac|]; intros).
  apply sends_before; [|intros; keeps_tac].
  apply sends_rx_push; [apply closed_new_nil|]. intros e' [Hl _]. refine (closed_new_one s _ _ _ _ Hl); done.
Qed.

Definition mark_closing (s : Z) : M unit := upd_s s (ws_set_session_closing 1).

(** The flag was clear: what was sent in between is paid for by setting it. *)
Lemma evolves_closed s y w w1 w2 u : wt_objs (w_wt w) !! s = Some (ObjSession y) ->
  ws_session_closing y = 0 -> w_wt w1 = w_wt w ->
  (∀ H q, chan w H q -> ∃ new, closed_new s new ∧
     (H + zlen q + zlen new < 2 ^ 64 -> chan w1 H (q ++ new))) ->
  mark_closing s w1 = Some (u, w2) -> evolves w w2.
Proof.
  intros Ey Hy Ew Hc E. apply upd_s_some in E as (y' & Ey' & ->). rewrite Ew in Ey'.
  assert (y' = y) as -> by congruence.
  set (x' := ws_set_session_closing 1 y). assert (Hx' : ws_session_closing x' <> 0) by done.
  assert (Ha : allowed (set_objs (<[s := ObjSession x']> (wt_objs (w_wt w1))) w1)
    = allow (<[s := ObjSession x']> (wt_objs (w_wt w))) (sts w)) by (unfold allowed, sts; cbn; by rewrite Ew).
  split; [rewrite Ha; eapply bg_session; eauto|].
  intros H q C. destruct (Hc H q C) as (new & Hn & Hch). exists new. rewrite Ha.
  split; [by eapply Hn|]. intros Hr. eapply chan_same; [|by apply Hch]. done.
Qed.

Lemma evolves_marked s (m : M unit) c w w0 w1 w2 u u2 : sends (closed_new s) m ->
  read_s s ws_session_closing w = Some (c, w0) -> when (c =? 0) m w0 = Some (u, w1) ->
  mark_closing s w1 = Some (u2, w2) -> evolves w w2.
Proof.
  intros Hm (-> & y & Ey & ->)%read_s_some E E2.
  destruct (Z.eqb_spec (ws_session_closing y) 0) as [Hy|Hy]; cbn [when] in E.
  - destruct (Hm _ _ _ E) as [Ew Hc]. by eapply evolves_closed.
  - injection E as _ <-. eapply (pays_upd_s s (ws_set_session_closing 1)); [by right|exact E2].
Qed.

(** "Send if not closing, then mark", before [k]. *)
Lemma pays_announce {A} s (m : M unit) (k : M A) : sends (closed_new s) m -> pays k ->
  pays (closing ← read_s s ws_session_closing; when (closing =? 0) m ;; mark_closing s ;; k).
Proof.
  intros Hm Hk w x w' E. minv E. minv E. minv E.
  eapply evolves_trans; [|by eapply Hk]. by eapply evolves_marked.
Qed.

(** "If not closing, send and mark", before [k]. *)
Lemma pays_announce_in {A} s (m : M unit) (k : M A) : sends (closed_new s) m -> pays k ->
  pays (closing ← read_s s ws_session_closing; when (closing =? 0) (m ;; mark_closing s) ;; k).
Proof.
  intros Hm Hk w x w' E. minv E. minv E. apply read_s_some in E0 as (-> & y & Ey & ->).
  eapply evolves_trans; [|by eapply Hk].
  destruct (Z.eqb_spec (ws_session_closing y) 0) as [Hy|Hy]; cbn [when] in E1.
  - minv E1. destruct (Hm _ _ _ E0) as [Ew Hc]. by eapply evolves_closed.
  - injection E1 as _ <-. by apply evolves_same.
Qed.

(** ** The connection callback *)

Lemma pays_maybe_close s cnx : pays (aiopquic_wt_maybe_close_cnx ev s cnx).
Proof. unfold aiopquic_wt_maybe_close_cnx. pays_tac. Qed.
Lemma pays_peer_fin s cnx : pays (aiopquic_wt_peer_fin ev s cnx).
Proof. unfold aiopquic_wt_peer_fin. pose proof pays_maybe_close. pays_tac. Qed.
Lemma pays_fin_sent s cnx : pays (aiopquic_wt_fin_sent ev s cnx).
Proof. unfold aiopquic_wt_fin_sent. pose proof pays_maybe_close. pays_tac. Qed.

Lemma quiet_find_prefix ps : quiet (find_wt_prefix ps).
Proof using Type. induction ps; cbn [find_wt_prefix]; keeps_tac. Qed.

Lemma pays_app_wakeup cnx h client : pays (wt_app_wakeup ev cnx h client).
Proof.
  unfold wt_app_wakeup, aiopquic_wt_client_session. pose proof quiet_find_prefix.
  apply pays_bind; [apply pays_quiet; keeps_tac|intros s]. pays_tac.
Qed.

Lemma quiet_close_cause cnx e : quiet (close_cause ev cnx e).
Proof using Type. unfold close_cause. keeps_tac. Qed.

Lemma pays_close_session cnx client final code source reason s :
  pays (close_session ev cnx client final code source reason s).
Proof.
  unfold close_session. do 4 (apply pays_bind; [pays_tac|intros ?]).
  apply pays_announce_in; [apply sends_push_closed|].
  apply pays_if; [by apply pays_push_close|pays_tac].
Qed.

Lemma pays_close_sessions cnx client final code source reason ps :
  pays (close_sessions ev cnx client final code source reason ps).
Proof.
  pose proof pays_close_session. induction ps; cbn [close_sessions]; pays_tac.
Qed.

Lemma pays_cnx_cb cnx id bytes length e ctx st : pays (aiopquic_wt_cnx_cb ev cnx id bytes length e ctx st).
Proof.
  unfold aiopquic_wt_cnx_cb, wt_cnx_ended.
  pose proof pays_app_wakeup. pose proof quiet_close_cause. pose proof pays_close_sessions. pays_tac.
Qed.

(** ** The retry *)

Lemma pays_retry_go s cnx h st : pays (retry_connect_go ev s cnx h st).
Proof.
  unfold retry_connect_go, unhook_connect, second_connect, h3_.
  pose proof pays_drop_retry. pose proof pays_push_event. pays_tac.
Qed.

Lemma pays_retry s cnx st : pays (aiopquic_wt_retry_connect ev s cnx st).
Proof. unfold aiopquic_wt_retry_connect. pose proof pays_retry_go. pays_tac. Qed.

(** ** The path callback *)

Lemma pays_announce_closed s code msg : pays (announce_closed ev s code msg).
Proof.
  intros w x w' E. unfold announce_closed in E. minv E. minv E.
  eapply evolves_marked; [|exact E0|exact E1|exact E].
  apply sends_after; [keeps_tac|]. intros id. apply sends_closed.
Qed.

Lemma pays_receive_capsule s cnx data : pays (receive_capsule ev s cnx data).
Proof. unfold receive_capsule. pays_tac. Qed.

Lemma pays_accepted s cnx st : pays (cb_connect_accepted ev s cnx st).
Proof. unfold cb_connect_accepted. pose proof pays_push_event. pays_tac. Qed.

Lemma pays_refused s cnx st : pays (cb_connect_refused ev s cnx st).
Proof. unfold cb_connect_refused. pose proof pays_push_event. pose proof pays_retry. pays_tac. Qed.

Lemma pays_control_data s cnx data : pays (cb_control_data ev s cnx data).
Proof.
  unfold cb_control_data. pose proof pays_push_event. pose proof pays_announce_closed.
  pose proof pays_receive_capsule. pays_tac.
Qed.

Lemma pays_control_fin s cnx length data : pays (cb_control_fin ev s cnx length data).
Proof.
  unfold cb_control_fin. pose proof pays_announce_closed. pose proof pays_receive_capsule.
  pose proof pays_peer_fin. pays_tac.
Qed.

Lemma pays_cb_reset s cnx st sid is_control : pays (cb_reset ev s cnx st sid is_control).
Proof.
  unfold cb_reset. pose proof pays_push_event. pose proof pays_retry. pose proof pays_peer_fin.
  apply pays_bind; [pays_tac|intros r]. apply pays_if; [pays_tac|]. apply pays_if; [|pays_tac].
  apply pays_announce; [|pays_tac]. do 2 (apply sends_after; [keeps_tac|intros ?]). apply sends_closed.
Qed.

Lemma pays_cb_stop_sending s cnx st sid is_control :
  pays (cb_stop_sending ev s cnx st sid is_control).
Proof. unfold cb_stop_sending. pose proof pays_push_event. pose proof pays_retry. pays_tac. Qed.

Lemma pays_deregister s : pays (cb_deregister ev s).
Proof.
  intros w x w' E. unfold cb_deregister in E. minv E. minv E. minv E. injection E as _ <-.
  eapply evolves_trans; [|by eapply pays_upd_s, E2; left].
  apply read_s_some in E0 as (-> & y & Ey & ->).
  destruct (Z.eqb_spec (ws_session_closing y) 0) as [Hy|Hy]; cbn [when] in E1.
  - minv E1. apply read_s_some in E as (-> & _). minv E1.
    destruct (sends_closed s _ 0 [] _ _ _ E) as [Ew Hc]. by eapply evolves_closed.
  - injection E1 as _ <-. by apply evolves_same.
Qed.

(** *** The release of a link *)

Definition release_new (l : Z) (new : list spsc_entry) : Prop :=
  ∀ o m m' st x x', m !! st = Some x -> calm tracked m m' -> is_Some (m' !! st) ->
    hs_path_callback_ctx x = l -> l <> 0 -> hs_path_callback_ctx x' = 0 ->
    lsum cost new + allow o (<[st := x']> m') <= allow o m.

Lemma release_new_nil l : release_new l [].
Proof.
  intros o m m' st x x' E Hc [y Ey] _ _ Hx. change (lsum cost []) with 0. rewrite Z.add_0_l.
  apply bg_calm. eapply calm_trans; [exact Hc|]. eapply calm_insert; [exact Ey|].
  right. rewrite Hx. apply bg_null.
Qed.

Lemma release_new_cheap l n1 n2 : cheap n1 -> release_new l n2 -> release_new l (n1 ++ n2).
Proof.
  unfold cheap. intros H1 H2 o m m' st x x' ? ? ? ? ? ?. rewrite lsum_app.
  pose proof (H2 o m m' st x x'). intuition lia.
Qed.

Lemma sends_release s id l : sends (release_new l) (aiopquic_wt_push_link_release ev s id l).
Proof.
  unfold aiopquic_wt_push_link_release. apply sends_after; [keeps_tac|]. intros cnx.
  apply sends_before; [|intros; keeps_tac].
  apply sends_rx_push; [apply release_new_nil|]. intros e' [_ He].
  rewrite (He eq_refl eq_refl). intros o m m' st x x' E Hc Hs <- Hl Hx'. rewrite lsum_one.
  by eapply bg_release.
Qed.

Lemma sends_app {A A2} P Q (R : list spsc_entry -> Prop) (m : M A) (k : A -> M A2) : sends P m ->
  (∀ x, sends Q (k x)) -> Q [] -> (∀ n1 n2, P n1 -> Q n2 -> R (n1 ++ n2)) -> sends R (x ← m; k x).
Proof using Type.
  intros Hm Hk HQ HR w y w' E. minv E. destruct (Hm _ _ _ E0) as [Ew Hs].
  destruct (Hk _ _ _ _ E) as [Ew2 Hs2]. split; [congruence|]. intros H q C.
  destruct (Hs H q C) as (n1 & H1 & C1).
  destruct (decide (H + zlen q + zlen n1 < 2 ^ 64)) as [Hr|Hr].
  - destruct (Hs2 H (q ++ n1) (C1 Hr)) as (n2 & H2 & C2). exists (n1 ++ n2). split; [auto|].
    rewrite app_assoc, length_app. intros Hr2. apply C2. rewrite length_app. lia.
  - exists (n1 ++ []). split; [auto|]. rewrite app_nil_r. intros. exfalso. lia.
Qed.

Lemma evolves_release st x l w w1 w2 w3 u : sts w !! st = Some x -> hs_path_callback_ctx x = l ->
  l <> 0 -> wt_objs (w_wt w1) = wt_objs (w_wt w) -> calm tracked (sts w) (sts w1) ->
  rx_part w1 = rx_part w -> upd_st st (hs_set_path_callback_ctx 0) w1 = Some (u, w2) ->
  w_wt w3 = w_wt w2 ->
  (∀ H q, chan w2 H q -> ∃ new, release_new l new ∧
     (H + zlen q + zlen new < 2 ^ 64 -> chan w3 H (q ++ new))) -> evolves w w3.
Proof.
  intros Ex El Hl Eo Hc Er E Ew Hs. unfold upd_st in E.
  destruct (hm_streams (wt_h3 (w_wt w1)) !! st) as [y|] eqn:Ey; [|done].
  cbn in E. injection E as _ <-.
  assert (Ha : allowed w3 = allow (wt_objs (w_wt w))
    (<[st := hs_set_path_callback_ctx 0 y]> (sts w1))).
  { unfold allowed. rewrite Ew. unfold sts. cbn. by rewrite <- Eo. }
  assert (Hn : ∀ new, release_new l new -> lsum cost new + allowed w3 <= allowed w).
  { intros new Hr. rewrite Ha. by eapply Hr. }
  split; [pose proof (Hn [] (release_new_nil l)) as H0; change (lsum cost []) with 0 in H0; lia|].
  intros H q C. destruct (Hs H q) as (new & Hr & Hch); [|by exists new; auto].
  eapply chan_same; [|exact C]. by rewrite <- Er.
Qed.

Lemma pays_cb_free s l st sid is_control : pays (cb_free ev s l st sid is_control).
Proof.
  unfold cb_free. apply pays_bind; [pays_tac|intros control]. apply pays_bind; [pays_tac|intros _].
  intros w x w' E. minv E.
  destruct (Z.eqb_spec l 0) as [|Hl]; cbn [negb andb] in *.
  { injection E0 as <- <-. minv E. injection E0 as _ <-. injection E as _ <-. by apply evolves_same. }
  destruct (Z.eqb_spec st 0) as [|Hst]; cbn [negb andb] in *.
  { injection E0 as <- <-. minv E. injection E as _ <-. injection E0 as _ <-. by apply evolves_same. }
  apply read_st_some in E0 as (-> & y & Ey & ->).
  destruct (Z.eqb_spec (hs_path_callback_ctx y) l) as [El|_].
  2: { minv E. injection E as _ <-. injection E0 as _ <-. by apply evolves_same. }
  minv E. assert (Hs : sends (release_new l) (rc ← aiopquic_wt_push_stream_destroy ev s sid;
    when (rc =? 0) (aiopquic_wt_push_link_release ev s sid l) ;; ret 0)).
  { eapply (sends_app cheap (release_new l)); [|intros rc|apply release_new_nil|apply release_new_cheap].
    - unfold aiopquic_wt_push_stream_destroy. apply sends_after; [keeps_tac|]. intros cnx.
      apply sends_rx_push; [done|]. intros e' [He _]. refine (cheap_one _ _ _ _ He); done.
    - apply sends_before; [|intros; keeps_tac].
      apply sends_if; [apply sends_release|]. apply sends_quiet; [apply release_new_nil|keeps_tac]. }
  destruct (Hs _ _ _ E) as [Ew Hc].
  eapply (evolves_release st y l w w w0 w' x0); try done. apply calm_refl.
Qed.

(** *** Streams and datagrams *)

Lemma pays_stream_data s l cnx st sid length data :
  pays (cb_stream_data ev s l cnx st sid length data).
Proof.
  unfold cb_stream_data, rx_advertise_cap, wt_rx_ring, wt_rx_store.
  pose proof pays_ensure_link. pose proof pays_new_stream. pose proof pays_push_event_with_sc.
  pays_tac.
Qed.

Lemma pays_stream_fin s l cnx st sid length data :
  pays (cb_stream_fin ev s l cnx st sid length data).
Proof.
  unfold cb_stream_fin, rx_advertise_cap, wt_rx_ring, wt_rx_store.
  pose proof pays_ensure_link. pose proof pays_new_stream. pose proof pays_push_event_with_sc.
  pays_tac.
Qed.

Lemma quiet_sendable sc avail :
  quiet (λ w, c ← sw_scs (w_sc w) !! sc; n ← aiopquic_stream_ctx_tx_sendable c avail; Some (n, w)).
Proof using Type.
  intros w x w' E. cbn in E. destruct (_ !! sc); [|done]. cbn in E.
  destruct (aiopquic_stream_ctx_tx_sendable _ _); [|done]. by injection E as _ <-.
Qed.

Lemma pays_provide_data race s l sid bytes length : pays (cb_provide_data ev race s l sid bytes length).
Proof.
  unfold cb_provide_data, wt_fire_drained. pose proof quiet_sendable as Hs. pays_tac.
  all: try (apply pays_quiet, Hs).
Qed.

Lemma pays_post_datagram s length data : pays (cb_post_datagram ev s length data).
Proof. unfold cb_post_datagram. pose proof pays_push_event. pays_tac. Qed.

Lemma pays_provide_datagram s cnx bytes length : pays (cb_provide_datagram ev s cnx bytes length).
Proof. unfold cb_provide_datagram, h3_. pays_tac. Qed.

#[local] Hint Resolve pays_accepted pays_refused pays_control_data pays_stream_data
  pays_control_fin pays_stream_fin pays_provide_data pays_post_datagram pays_provide_datagram
  pays_cb_reset pays_cb_stop_sending pays_deregister pays_cb_free : pays.

Lemma pays_path_switch race s l cnx bytes length data event st sid is_control :
  pays (path_switch ev race s l cnx bytes length data event st sid is_control).
Proof.
  unfold path_switch, cb_drain. pose proof pays_push_event. destruct event; pays_tac.
Qed.

Lemma pays_path_callback race cnx bytes length data event st ctx :
  pays (aiopquic_wt_path_callback ev race cnx bytes length data event st ctx).
Proof.
  unfold aiopquic_wt_path_callback. apply pays_bind.
  - apply pays_quiet. intros w x w' E. unfold aiopquic_wt_ctx_resolve in E.
    destruct (ctx =? 0); [by injection E as _ <-|].
    destruct (wt_objs (w_wt w) !! ctx) as [[]|]; [| |done]; by injection E as _ <-.
  - intros r. pose proof pays_path_switch. pays_tac.
Qed.

(** ** The server's CONNECT *)

Lemma pays_select st supported : pays (wt_select_protocol ev st supported).
Proof.
  unfold wt_select_protocol, h3_. apply pays_bind; [pays_tac|intros offer].
  apply pays_bind; [pays_tac|intros tr]. apply pays_bind; [apply pays_quiet, quiet_pure|intros r].
  pays_tac.
Qed.

Lemma pays_accept cnx h st sel path : pays (accept_session ev cnx h st sel path).
Proof.
  unfold accept_session, h3_. eapply pays_bind_q; [apply pays_session_create|]. intros s Hs.
  destruct (Z.eqb_spec s 0) as [|Hn]; [pays_tac|]. destruct Hs as [?|Hs]; [done|].
  pose proof (λ st, pays_set_ctx st s Hs). pays_tac.
Qed.

Lemma pays_server_path race cnx path_bytes path_len path event st :
  pays (aiopquic_wt_server_path_callback ev race cnx path_bytes path_len path event st).
Proof.
  unfold aiopquic_wt_server_path_callback. pose proof pays_path_callback.
  pose proof pays_select. pose proof pays_accept. pays_tac.
Qed.

(** ** The worker's commands *)

Lemma quiet_stream_link st : quiet (stream_link st).
Proof using Type.
  unfold stream_link. keeps_tac. intros w y w' E.
  destruct (wt_objs (w_wt w) !! _) as [[]|]; [| |done]; by injection E as _ <-.
Qed.

Lemma stream_link_some st w l k w' : stream_link st w = Some (Some (l, k), w') ->
  w' = w ∧ ∃ x, sts w !! st = Some x ∧ hs_path_callback_ctx x = l ∧ l <> 0.
Proof using Type.
  unfold stream_link. intros E. minv E. apply read_st_some in E0 as (-> & y & Ey & ->).
  destruct (Z.eqb_spec (hs_path_callback_ctx y) 0) as [|Hn]; [done|].
  destruct (wt_objs (w_wt w) !! _) as [[]|]; [done| |done]. injection E as <- _ <-. eauto.
Qed.

Lemma quiet_stream_sc s st : quiet (aiopquic_wt_stream_sc s st).
Proof using Type. unfold aiopquic_wt_stream_sc. pose proof quiet_stream_link. keeps_tac. Qed.
Lemma quiet_preamble cnx st : quiet (wt_preamble ev cnx st).
Proof using Type. unfold wt_preamble. keeps_tac. Qed.
Lemma quiet_reattach cnx st : quiet (aiopquic_wt_stream_reattach ev cnx st).
Proof using Type. unfold aiopquic_wt_stream_reattach. keeps_tac. Qed.
Lemma quiet_no_cnx s : quiet (no_cnx s).
Proof using Type. unfold no_cnx. keeps_tac. Qed.
Lemma quiet_no_control s : quiet (no_control s).
Proof using Type. unfold no_control. keeps_tac. Qed.

Lemma calms_reset cnx st code : calms (aiopquic_wt_reset_stream ev cnx st code).
Proof. unfold aiopquic_wt_reset_stream. calms_tac. Qed.

Lemma pays_reset_reliable cnx st code p n : pays (aiopquic_wt_reset_stream_reliable ev cnx st code p n).
Proof. unfold aiopquic_wt_reset_stream_reliable. pays_tac. Qed.

Lemma pays_deferred d : pays (wt_deferred_reset ev d).
Proof.
  unfold wt_deferred_reset. pose proof pays_reset_reliable. pose proof quiet_reattach. pays_tac.
Qed.

Lemma pays_open s e : pays (tx_wt_open ev s e).
Proof.
  unfold tx_wt_open, open_connect, keep_retry. pose proof pays_push_event. pose proof pays_drop_retry.
  pays_tac. all: try (apply pays_quiet, quiet_pure).
Qed.

Lemma pays_create_stream s e : pays (tx_wt_create_stream ev s e).
Proof.
  unfold tx_wt_create_stream. pose proof pays_stream_created.
  apply pays_if; [pays_tac|]. do 2 (apply pays_bind; [pays_tac|intros ?]). apply pays_if; [pays_tac|].
  do 2 (apply pays_bind; [pays_tac|intros ?]). apply pays_if; [pays_tac|].
  apply pays_bind; [pays_tac|intros id].
  eapply pays_bind_q; [apply pays_link_create|]. intros l Hl.
  destruct (Z.eqb_spec l 0) as [|Hn]; [pays_tac|]. destruct Hl as [?|Hl]; [done|].
  pose proof (λ st, pays_set_ctx st l Hl). pays_tac.
Qed.

Lemma pays_reset_stream s e : pays (tx_wt_reset_stream ev s e).
Proof.
  unfold tx_wt_reset_stream, wt_reset_go. pose proof quiet_no_cnx. pose proof quiet_stream_sc.
  pose proof quiet_preamble. pose proof quiet_reattach. pose proof pays_reset_reliable.
  pose proof (λ cnx st code, pays_calms _ (calms_reset cnx st code)). pays_tac.
Qed.

Lemma pays_release_link s st l sc w w0 w' u u0 x : sts w !! st = Some x ->
  hs_path_callback_ctx x = l -> l <> 0 -> (∃ m : M unit, calms m ∧ m w = Some (u0, w0)) ->
  release_link ev s st l sc w0 = Some (u, w') -> evolves w w'.
Proof.
  intros Ex El Hl (m & Hm & Em) E. destruct (Hm _ _ _ Em) as (A1 & B1 & C1).
  unfold release_link in E. minv E.
  destruct (calms_upd_st st (hs_set_path_callback FnNull) (λ _, or_introl eq_refl) _ _ _ E0)
    as (A2 & B2 & C2).
  minv E. assert (Hs : sends (release_new l) (on_sc (aiopquic_stream_ctx_tx_abandon sc) ;;
    id ← read_st st hs_stream_id; aiopquic_wt_push_link_release ev s id l)).
  { do 2 (apply sends_after; [keeps_tac|intros ?]). apply sends_release. }
  destruct (Hs _ _ _ E) as [Ew Hc].
  eapply (evolves_release st x l w w1 w2 w'); try done; try congruence. by eapply calm_trans.
Qed.

Lemma calms_cleanup s cnx st : calms (cleanup_stream ev s cnx st).
Proof. unfold cleanup_stream. pose proof calms_reset. pose proof quiet_reattach. calms_tac. Qed.

Lemma pays_release_walk reset s cnx l : pays (release_walk ev reset s cnx l).
Proof.
  induction l as [|st l IH]; cbn [release_walk]; [pays_tac|]. intros w x w' E.
  minv E. minv E. eapply evolves_trans; [|by eapply IH].
  destruct x0 as [[lk k]|].
  - apply stream_link_some in E0 as (-> & y & Ey & El & Hl).
    destruct (wl_session k =? s); cbn [when] in E1; [|injection E1 as _ <-; by apply evolves_same].
    minv E1. eapply pays_release_link; [exact Ey|done|done| |exact E1].
    eexists. split; [|exact E0]. apply calms_when, calms_cleanup.
  - apply quiet_stream_link in E0. injection E1 as _ <-. by apply evolves_same.
Qed.

Lemma pays_run_deregisters cnx ctxs : pays (run_deregisters ev cnx ctxs).
Proof. pose proof pays_path_callback. induction ctxs; cbn [run_deregisters]; pays_tac. Qed.

Lemma pays_deregister_tx s : pays (tx_wt_deregister ev s).
Proof.
  unfold tx_wt_deregister, deregister_go, h3_reentrant. pose proof pays_run_deregisters.
  pose proof pays_release_walk. pose proof pays_session_destroy. pays_tac.
Qed.

Lemma pays_cleanup_tx s : pays (tx_wt_session_cleanup ev s).
Proof.
  unfold tx_wt_session_cleanup, wt_cleanup_done. pose proof pays_release_walk.
  pose proof pays_maybe_close. pays_tac.
Qed.

Lemma pays_handle_tx e : pays (wt_handle_tx ev e).
Proof.
  unfold wt_handle_tx, tx_wt_close, tx_wt_fin, tx_wt_drain, tx_mark_wt_datagram_ready,
    tx_wt_set_stream_priority, tx_wt_set_datagram_priority, tx_wt_stop_sending, h3_.
  pose proof pays_open. pose proof pays_create_stream. pose proof pays_reset_stream.
  pose proof pays_deregister_tx. pose proof pays_cleanup_tx. pose proof pays_fin_sent.
  pose proof quiet_no_cnx. pose proof quiet_no_control. pose proof quiet_reattach. pays_tac.
Qed.

Lemma pays_server_bootstrap cnx id bytes length event ctx st :
  pays (aiopquic_wt_server_bootstrap_cb ev cnx id bytes length event ctx st).
Proof.
  unfold aiopquic_wt_server_bootstrap_cb, h3_bootstrap. pose proof pays_cnx_cb. pays_tac.
Qed.
End ops.

(** ** Runs *)

Inductive wt_call :=
  | WtPath (race : list sc_op) (cnx bytes length : Z) (data : list Z) (event : path_event)
      (stream_ctx path_app_ctx : Z)
  | WtServer (race : list sc_op) (cnx path_bytes path_len : Z) (path : list Z)
      (event : path_event) (stream_ctx : Z)
  | WtCnx (cnx stream_id bytes length : Z) (event : call_back_event) (callback_ctx v_stream_ctx : Z)
  | WtBootstrap (cnx stream_id bytes length : Z) (event : call_back_event)
      (callback_ctx v_stream_ctx : Z)
  | WtCommand (e : spsc_entry)          (** an entry asyncio queued *)
  | WtDeferred (d : deferred_reset)     (** a held reset that is due *)
  | WtTake.                             (** asyncio takes the oldest event *)

Section run.
Context (ev : env).

(** asyncio's side: the oldest event, or a refill; the link of a LINK_RELEASE is freed. *)
Definition wt_take : M (list spsc_entry) :=
  e ← rx_peek;
  match e with
  | None => _ ← rx_refill; ret []
  | Some e =>
      rx_pop ;;
      when (evt_is (e_event_type e) SPSC_EVT_WT_STREAM_LINK_RELEASE)
        (aiopquic_wt_stream_link_destroy (e_data_buf e)) ;;
      ret [e]
  end.

Definition discard {A} (m : M A) : M (list spsc_entry) := _ ← m; ret [].

(** One call, and what it took off the channel. *)
Definition wt_step (o : wt_call) : M (list spsc_entry) :=
  match o with
  | WtPath race cnx bytes length data event st ctx =>
      discard (aiopquic_wt_path_callback ev race cnx bytes length data event st ctx)
  | WtServer race cnx path_bytes path_len path event st =>
      discard (aiopquic_wt_server_path_callback ev race cnx path_bytes path_len path event st)
  | WtCnx cnx id bytes length event ctx st =>
      discard (aiopquic_wt_cnx_cb ev cnx id bytes length event ctx st)
  | WtBootstrap cnx id bytes length event ctx st =>
      discard (aiopquic_wt_server_bootstrap_cb ev cnx id bytes length event ctx st)
  | WtCommand e => discard (wt_handle_tx ev e)
  | WtDeferred d => discard (wt_deferred_reset ev d)
  | WtTake => wt_take
  end.

Fixpoint wt_run (os : list wt_call) : M (list spsc_entry) :=
  match os with
  | [] => ret []
  | o :: os => d1 ← wt_step o; d2 ← wt_run os; ret (d1 ++ d2)
  end.

Context `{!Budget ev}.

(** From a channel holding [q], [new] was sent within the allowance, [dl] taken. *)
Definition paid (w w' : world) (dl : list spsc_entry) : Prop :=
  allowed w' <= allowed w ∧
  ∀ H q, chan w H q -> ∃ new, lsum cost new + allowed w' <= allowed w ∧
    (H + zlen q + zlen new < 2 ^ 64 -> ∃ q', chan w' (H + zlen dl) q' ∧ dl ++ q' = q ++ new).

Lemma paid_evolves w w' : evolves w w' -> paid w w' [].
Proof.
  intros [Ha Hs]. split; [done|]. intros H q C.
  destruct (Hs H q C) as (new & Hn & Hc). exists new. split; [done|]. intros Hr. exists (q ++ new). rewrite Z.add_0_r. auto.
Qed.

Lemma discard_paid {A} (m : M A) w w' dl : pays m -> discard m w = Some (dl, w') -> paid w w' dl.
Proof. intros Hm E. unfold discard in E. minv E. injection E as <- <-. by eapply paid_evolves, Hm. Qed.

Lemma chan_pop w r' h H e q h0 : spsc_ring_pop (b_rx_event_ring (w_ctx w)) h0 = Some (r', h) ->
  rq_rep (b_rx_event_ring (w_ctx w)) H (e :: q) -> rq_rep r' (H + 1) q.
Proof using Type.
  intros E R.
  assert (Ho : entry_owns e = true -> is_Some (h0 !! e_data_buf e)).
  { intros Ho. unfold spsc_ring_pop in E. rewrite (rq_mask_slot _ _ _ R), (rq_head _ _ _ R) in E.
    rewrite (rq_head_entry _ _ _ _ R) in E. cbn in E. rewrite Ho in E. unfold c_free in E.
    unfold entry_owns in Ho. apply andb_true_iff in Ho as [Ho _]. apply negb_true_iff in Ho.
    rewrite Ho in E. destruct (h0 !! e_data_buf e); [eauto|done]. }
  destruct (rq_pop _ _ _ _ h0 R Ho) as (r2 & E2 & R2 & _). rewrite E in E2. by injection E2 as -> _.
Qed.

Lemma refill_chan w H q x w' : chan w H q -> H + zlen q < 2 ^ 64 ->
  rx_refill w = Some (x, w') -> chan w' H q.
Proof using Type.
  intros (q1 & q2 & R & En & Ed & ->) Hr E. unfold rx_refill in E. rewrite length_app in Hr.
  destruct (refill_raw _ _ _ _ _ R En Ed ltac:(lia)) as (r' & o' & p1 & p2 & E2 & R' & En' & Ed' & Eq & _).
  rewrite E2 in E. injection E as _ <-. exists p1, p2. by rewrite Eq.
Qed.

Lemma refill_wt x w w' : rx_refill w = Some (x, w') -> w_wt w' = w_wt w.
Proof using Type.
  unfold rx_refill. destruct (spsc_ring_refill_from_overflow _ _) as [[[m r] o]|]; [|done].
  by intros [= _ <-].
Qed.

Lemma rx_peek_some w x w' : rx_peek w = Some (x, w') -> w' = w.
Proof using Type.
  unfold rx_peek. destruct (spsc_ring_peek _); [|by intros [= _ <-]].
  destruct (_ !! _); [by intros [= _ <-]|done].
Qed.

Lemma peek_chan w e H q w' : chan w H q -> rx_peek w = Some (Some e, w') ->
  ∃ q1, rq_rep (b_rx_event_ring (w_ctx w)) H (e :: q1) ∧
    q = e :: q1 ++ o_nodes (b_rx_overflow (w_ctx w)).
Proof using Type.
  intros (q1 & q2 & R & En & Ed & ->) E. unfold rx_peek in E. rewrite (rq_peek _ _ _ R) in E.
  destruct q1 as [|e1 q1]; [done|]. rewrite (rq_head_entry _ _ _ _ R) in E.
  injection E as -> _. exists q1. by rewrite En.
Qed.

Lemma rx_pop_some w x w' : rx_pop w = Some (x, w') -> w_wt w' = w_wt w ∧
  ∀ H e q, chan w H (e :: q) -> (∃ w2, rx_peek w = Some (Some e, w2)) -> chan w' (H + 1) q.
Proof using Type.
  intros E. unfold rx_pop in E. destruct (spsc_ring_pop _ _) as [[r' h]|] eqn:Ep; [|done].
  injection E as _ <-. split; [done|]. intros H e q C [w2 E2].
  destruct (peek_chan _ _ _ _ _ C E2) as (q1 & R & Eq). injection Eq as ->.
  destruct C as (p1 & p2 & _ & En & Ed & _). exists q1, p2. cbn. rewrite En.
  split; [by eapply chan_pop|done].
Qed.

Lemma take_paid w w' dl : wt_take w = Some (dl, w') -> paid w w' dl.
Proof.
  intros E. unfold wt_take in E. minv E. pose proof (rx_peek_some _ _ _ E0) as ->.
  destruct x as [e|]; minv E.
  - minv E. injection E as <- <-. destruct (rx_pop_some _ _ _ E1) as [Ew Hp].
    assert (V : evolves w0 w1) by (eapply (pays_when _ _), E2; apply pays_link_destroy).
    assert (Ea : allowed w0 = allowed w) by (unfold allowed; by rewrite Ew).
    split; [rewrite <- Ea; apply V|]. intros H q C.
    destruct (peek_chan _ _ _ _ _ C E0) as (q1 & _ & ->).
    destruct (proj2 V _ _ (Hp _ _ _ C (ex_intro _ _ E0))) as (new & Hn & Hc).
    exists new. split; [lia|]. cbn [length]. intros Hr. eexists. split; [apply Hc; lia|done].
  - injection E as <- <-.
    assert (Ea : allowed w0 = allowed w) by (unfold allowed; by rewrite (refill_wt _ _ _ E1)).
    split; [lia|]. intros H q C. exists []. change (lsum cost []) with 0. split; [lia|].
    cbn [length]. intros Hr. exists q. rewrite app_nil_r, Z.add_0_r. split; [|done].
    eapply refill_chan; [exact C|lia|exact E1].
Qed.

Lemma step_paid o w w' dl : wt_step o w = Some (dl, w') -> paid w w' dl.
Proof.
  destruct o; cbn [wt_step]; [..|apply take_paid]; apply discard_paid.
  - apply pays_path_callback.
  - apply pays_server_path.
  - apply pays_cnx_cb.
  - apply pays_server_bootstrap.
  - apply pays_handle_tx.
  - apply pays_deferred.
Qed.

Lemma run_paid os : ∀ w w' dl, wt_run os w = Some (dl, w') -> paid w w' dl.
Proof.
  induction os as [|o os IH]; intros w w' dl E; cbn [wt_run] in E.
  { injection E as <- <-. by apply paid_evolves, evolves_same. }
  minv E. minv E. injection E as <- <-. destruct (step_paid _ _ _ _ E0) as [A1 P1].
  destruct (IH _ _ _ E1) as [A2 P2]. split; [lia|]. intros H q C.
  destruct (P1 H q C) as (n1 & L1 & C1).
  destruct (decide (H + zlen q + zlen n1 < 2 ^ 64)) as [Hr|Hr].
  - destruct (C1 Hr) as (q1 & Cq & Eq).
    destruct (P2 _ _ Cq) as (n2 & L2 & C2). exists (n1 ++ n2).
    rewrite lsum_app, !length_app. split; [lia|]. intros Hr2.
    assert (Hlen : zlen x + zlen q1 = zlen q + zlen n1).
    { pose proof (f_equal length Eq) as Hl. rewrite !length_app in Hl. lia. }
    destruct C2 as (q2 & C3 & Eq2); [lia|]. exists q2.
    rewrite Nat2Z.inj_add, Z.add_assoc. split; [done|].
    by rewrite <- app_assoc, Eq2, app_assoc, Eq, <- app_assoc.
  - exists n1. split; [lia|]. intros. exfalso. lia.
Qed.
End run.
