(* ===== verification/WtSpec.v ===== *)
(** * What the WebTransport half promises

    The two budgets of WtRun.v's runs and their theorems; then what the commands of a
    session do to a session that is gone, the answer to every request for a stream,
    and when a client closes its connection. *)
From S2P Require Import Prelude Ring Store StreamBuf SpscRing DgramBuf DgramTable.
From S2P Require Import StreamCtx WtState Bridge Alpn Callback World System Runs Teardown.
From S2P Require Import WtProto WtSession WtPath WtTx WtBudget WtRun.

Definition count_events (p : spsc_entry -> bool) (es : list spsc_entry) : Z :=
  lsum (λ e, c_bool (p e)) es.

(** ** A session ends once *)

Definition says_closed (s : Z) (e : spsc_entry) : bool :=
  evt_is (e_event_type e) SPSC_EVT_WT_SESSION_CLOSED && (e_stream_ctx e =? s).

(** 1 while the session is there and not closing. *)
Definition session_open (s : Z) (o : gmap Z wt_obj) : Z :=
  match o !! s with
  | Some (ObjSession x) => c_bool (ws_session_closing x =? 0)
  | _ => 0
  end.

Lemma session_open_nonneg s o : 0 <= session_open s o.
Proof. unfold session_open. repeat case_match; try lia; apply c_bool_nonneg. Qed.

Lemma session_open_insert s o p x : p <> s -> session_open s (<[p := x]> o) = session_open s o.
Proof. intros Hp. unfold session_open. by rewrite lookup_insert_ne. Qed.

Section closed.
Context (ev : env) (s : Z) (Hs : ∀ t os, ev_wt ev t os <> s).

#[export] Instance closed_budget : Budget ev.
Proof using Hs.
  refine {| cost := λ e, c_bool (says_closed s e); allow := λ o _, session_open s o;
            tracked := λ _, False |}.
  - intros e Hc _. unfold says_closed, evt_is. unfold entry_is in Hc.
    by rewrite (proj2 (Z.eqb_neq _ _) Hc).
  - intros. apply session_open_nonneg.
  - intros o _ p x x' E Hx. destruct (decide (p = s)) as [->|Hp]; [|by rewrite session_open_insert].
    unfold session_open. rewrite lookup_insert_eq, E. destruct Hx as [->|Hx]; [done|].
    rewrite (proj2 (Z.eqb_neq _ _) Hx). apply c_bool_nonneg.
  - intros o _ p. destruct (decide (p = s)) as [->|Hp].
    + unfold session_open at 1. rewrite lookup_delete_eq. apply session_open_nonneg.
    + unfold session_open. by rewrite lookup_delete_ne.
  - intros o _ t os x. by rewrite session_open_insert.
  - by intros t os [].
  - by intros [].
  - cbn. lia.
  - by intros tr c m st x' _ [].
  - intros o _ p x x' e E Hx Hx' Ht Hp. unfold says_closed, evt_is. unfold entry_is in Ht.
    rewrite Ht, Z.eqb_refl, Hp. cbn [andb]. destruct (Z.eqb_spec p s) as [->|Hne].
    + unfold session_open. rewrite lookup_insert_eq, E, Hx.
      by rewrite (proj2 (Z.eqb_neq _ _) Hx').
    + by rewrite session_open_insert.
  - intros o m m' st x x' e _ _ _ _ _ Ht _. unfold says_closed. unfold entry_is in Ht. by rewrite Ht.
Defined.
End closed.


(** ** A link is released once *)

Definition releases (l : Z) (e : spsc_entry) : bool :=
  evt_is (e_event_type e) SPSC_EVT_WT_STREAM_LINK_RELEASE && (e_data_buf e =? l).

(** The streams h3zero would hand the link [l] for. *)
Definition holders (l : Z) (m : gmap Z h3_stream) : gmap Z h3_stream :=
  filter (λ kv, hs_path_callback_ctx kv.2 = l) m.

(** h3zero never gives a stream a link it did not have. *)
Definition h3_keeps_link (ev : env) (l : Z) : Prop := ∀ tr c m st x',
  hm_streams (ev_h3 ev tr c m) !! st = Some x' -> hs_path_callback_ctx x' = l ->
  ∃ x, hm_streams m !! st = Some x ∧ hs_path_callback_ctx x = l.

Lemma holders_calm l m m' : calm (λ c, c = l) m m' -> dom (holders l m') ⊆ dom (holders l m).
Proof.
  intros Hc st. rewrite !elem_of_dom. intros [x' [E Hx]%map_lookup_filter_Some].
  destruct (Hc st x' E Hx) as (x & Ex & Hx2). exists x. apply map_lookup_filter_Some.
  cbn in *. split; [done|congruence].
Qed.

Lemma holders_le l m m' : calm (λ c, c = l) m m' ->
  Z.of_nat (size (holders l m')) <= Z.of_nat (size (holders l m)).
Proof.
  intros Hc. rewrite <- !(size_dom (D := gset Z)). apply inj_le, subseteq_size, holders_calm, Hc.
Qed.

(** A stream gives its link up. *)
Lemma holders_drop l m m' st x x' : l <> 0 -> m !! st = Some x -> calm (λ c, c = l) m m' ->
  hs_path_callback_ctx x = l -> hs_path_callback_ctx x' = 0 ->
  1 + Z.of_nat (size (holders l (<[st := x']> m'))) <= Z.of_nat (size (holders l m)).
Proof.
  intros Hl E Hc Hx Hx'. rewrite <- !(size_dom (D := gset Z)).
  assert (Hsub : dom (holders l (<[st := x']> m')) ⊆ dom (holders l m) ∖ {[st]}).
  { intros k. rewrite elem_of_difference, elem_of_singleton, elem_of_dom.
    intros [y [Ek Hy]%map_lookup_filter_Some]. cbn in Hy.
    apply lookup_insert_Some in Ek as [[<- <-]|[Hne Ek]]; [congruence|]. split; [|done].
    apply (holders_calm l m m' Hc), elem_of_dom. exists y. by apply map_lookup_filter_Some. }
  apply subseteq_size in Hsub. rewrite size_difference in Hsub.
  - rewrite size_singleton in Hsub.
    assert (Hpos : (0 < size (dom (holders l m) : gset Z))%nat); [|lia].
    destruct (size (dom (holders l m) : gset Z)) eqn:Ez; [|lia].
    apply size_empty_inv in Ez. exfalso. specialize (Ez st). rewrite elem_of_dom in Ez.
    apply (not_elem_of_empty (C := gset Z) st), Ez. exists x. by apply map_lookup_filter_Some.
  - apply singleton_subseteq_l, elem_of_dom. exists x. by apply map_lookup_filter_Some.
Qed.

Section release.
Context (ev : env) (l : Z) (Hl : l <> 0) (Hf : ∀ t os, ev_wt ev t os <> l).
Context (Hh : h3_keeps_link ev l).

#[export] Instance link_budget : Budget ev.
Proof using Hl Hf Hh.
  refine {| cost := λ e, c_bool (releases l e); allow := λ _ m, Z.of_nat (size (holders l m));
            tracked := λ c, c = l |}.
  - intros e _ Hr. unfold releases, evt_is. unfold entry_is in Hr.
    by rewrite (proj2 (Z.eqb_neq _ _) Hr).
  - lia.
  - cbn. lia.
  - cbn. lia.
  - cbn. lia.
  - exact Hf.
  - cbn. congruence.
  - intros _ m m' Hc. by apply holders_le.
  - intros tr c m st x' E Hx. destruct (Hh _ _ _ _ _ E Hx) as (x & Ex & Ex2). exists x. by rewrite Hx.
  - intros o m p x x' e _ _ _ Ht _. unfold releases. unfold entry_is in Ht. by rewrite Ht.
  - intros o m m' st x x' e E Hc _ Hx Hx' Ht Hb. unfold releases, evt_is. unfold entry_is in Ht.
    rewrite Ht, Z.eqb_refl, Hb. cbn [andb].
    destruct (Z.eqb_spec (hs_path_callback_ctx x) l) as [Hxl|Hne]; cbn [c_bool].
    + by apply holders_drop with x.
    + apply holders_le. intros k y. rewrite lookup_insert_Some. intros [[<- <-]|[_ Ek]] Hy.
      * cbn in Hy. congruence.
      * by apply Hc.
Defined.
End release.


(** ** Answers to asyncio *)

(** An event pushed with nothing behind it: queued as it is, or dropped and counted. *)
Definition queued (e : spsc_entry) (w w' : world) : Prop :=
  (∀ H q, chan w H q -> H + zlen q + 1 < 2 ^ 64 -> chan w' H (q ++ [e])) ∨
  ((∀ H q, chan w H q -> H + zlen q + 1 < 2 ^ 64 -> chan w' H q) ∧
   b_cnt (w_ctx w') WORKER_RX_EVENT_DROPS = u64 (b_cnt (w_ctx w) WORKER_RX_EVENT_DROPS + 1)).

Lemma rx_push_queued ev e w rc w' : e_data_length e = 0 ->
  aiopquic_rx_push ev e [] w = Some (rc, w') -> queued e w w'.
Proof.
  intros He E. unfold aiopquic_rx_push, ring_push_or_overflow in E. minv E. minv E0.
  injection E1 as <- <-. cbn in E0.
  destruct (spsc_ring_push_or_overflow _ _ _ _ _ _) as [[[[rc0 r] o] h]|] eqn:Ep; [|done].
  injection E0 as <- <-.
  assert (Hq : ∀ H q, chan w H q -> H + zlen q + 1 < 2 ^ 64 ->
    (0 <= rc0 ∧ ∃ p1 p2, rq_rep r H p1 ∧ o_nodes o = p2 ∧ o_depth o = zlen p2 ∧ p1 ++ p2 = q ++ [e]) ∨
    (rc0 < 0 ∧ r = b_rx_event_ring (w_ctx w) ∧ o = b_rx_overflow (w_ctx w))).
  { intros H q (q1 & q2 & R & En & Ed & ->) Hr. rewrite length_app in Hr.
    destruct (push_queue _ _ _ _ _ _ _ _ _ _ _ _ _ R En Ed ltac:(lia) Ep)
      as [(? & e' & p1 & p2 & [_ Hs] & R' & En' & Ed' & Eq)|?]; [|by right].
    left. split; [done|]. exists p1, p2. rewrite (Hs eq_refl He) in Eq. done. }
  destruct (Z.ltb_spec rc0 0) as [Hneg|Hpos].
  - right. minv E. injection E0 as <- <-. injection E as _ <-. split; [|done].
    intros H q C Hr. destruct (Hq H q C Hr) as [[? _]|(_ & -> & ->)]; [lia|].
    eapply chan_same; [|exact C]. done.
  - left. minv E. injection E as _ <-. apply quiet_notify in E0. injection E0 as _ Er Eo.
    intros H q C Hr. destruct (Hq H q C Hr) as [(_ & p1 & p2 & R & En & Ed & Eq)|[? _]]; [|lia].
    exists p1, p2. rewrite Er, Eo. done.
Qed.

Lemma push_created_queued ev s id sc code w u w' y :
  aiopquic_wt_push_stream_created ev s id sc code w = Some (u, w') ->
  wt_objs (w_wt w) !! s = Some (ObjSession y) ->
  queued (wt_entry s (ws_cnx y) SPSC_EVT_WT_STREAM_CREATED id code 0 sc) w w' ∧
  w_wt w' = w_wt w ∧ w_sc w' = w_sc w.
Proof.
  intros E Ey. unfold aiopquic_wt_push_stream_created in E. minv E.
  apply read_s_some in E0 as (-> & y' & Ey' & ->). assert (y' = y) as -> by congruence.
  minv E. injection E as _ <-. split; [by eapply rx_push_queued, E0|].
  split; [by apply (keeps_rx_push ev (f := w_wt)) in E0|by apply (keeps_rx_push ev (f := w_sc)) in E0].
Qed.

(** A link of [s] for stream [id] with wrapper [sc], on the stream [st] h3zero made. *)
Definition linked (s st id sc : Z) (w : world) : Prop :=
  ∃ l x, sts w !! st = Some x ∧ hs_stream_id x = id ∧ hs_path_callback x = FnWtPath ∧
    hs_path_callback_ctx x = l ∧ wt_objs (w_wt w) !! l = Some (ObjLink (WtLink s sc id)) ∧
    is_Some (sw_scs (w_sc w) !! sc).

Lemma upd_st_some st f w u w' : upd_st st f w = Some (u, w') -> ∃ x, sts w !! st = Some x ∧
  w' = set_h3 (H3Mem (<[st := f x]> (sts w)) (hm_prefixes (wt_h3 (w_wt w))) (hm_ctxs (wt_h3 (w_wt w)))) w.
Proof.
  unfold upd_st, sts. destruct (hm_streams (wt_h3 (w_wt w)) !! st) as [x|] eqn:E; [|done].
  intros [= _ <-]. eauto.
Qed.

(** Nothing sent, nothing dropped. *)
Definition unsent (w w' : world) : Prop :=
  rx_part w' = rx_part w ∧
  b_cnt (w_ctx w') WORKER_RX_EVENT_DROPS = b_cnt (w_ctx w) WORKER_RX_EVENT_DROPS.

Lemma queued_unsent e w w1 w' : unsent w w1 -> queued e w1 w' -> queued e w w'.
Proof.
  intros [Er Ec] [Hq|[Hq Hd]]; [left|right].
  - intros H q C. apply Hq. by eapply chan_same.
  - split; [|by rewrite Hd, Ec]. intros H q C. apply Hq. by eapply chan_same.
Qed.

(** What creating a link does. *)
Lemma link_create_some ev s id w l w' : aiopquic_wt_stream_link_create ev s id w = Some (l, w') ->
  unsent w w' ∧ wt_h3 (w_wt w') = wt_h3 (w_wt w) ∧
  (l = 0 ∧ wt_objs (w_wt w') = wt_objs (w_wt w) ∨
   ∃ sc, l <> 0 ∧ sc <> 0 ∧ is_Some (sw_scs (w_sc w') !! sc) ∧
     wt_objs (w_wt w') = <[l := ObjLink (WtLink s sc id)]> (wt_objs (w_wt w))).
Proof.
  intros E. unfold aiopquic_wt_stream_link_create in E. minv E. unfold wt_calloc in E0. minv E0.
  injection E1 as <- <-. injection E0 as <- <-. set (a := ev_wt _ _ _) in *.
  destruct (Z.eqb_spec a 0) as [Ha|Ha]; [injection E as <- <-; split; [done|]; split; [done|by left]|].
  minv E. unfold sc_create in E0. minv E0. injection E1 as <- <-. cbn in E0.
  set (c := ev_sc _ _ _) in *. unfold aiopquic_stream_ctx_create in E0.
  destruct (Z.eqb_spec c 0) as [Hc|Hc].
  - injection E0 as <- <-. injection E as <- <-. split; [done|]. split; [done|by left].
  - injection E0 as <- <-. rewrite (proj2 (Z.eqb_neq c 0) Hc) in E. minv E. minv E.
    injection E1 as _ <-. injection E as <- <-.
    assert (Hw : w_sc w0 = ScWorld (<[c := sc_set_refcount 1 stream_ctx0]> (sw_scs (w_sc w)))
        (bump CNT_SC_CREATED 1 (sw_g (w_sc w))) ∧ w_wt w0 = w_wt w ∧ unsent w w0).
    { destruct (s =? 0); cbn [when negb] in E0; injection E0 as _ <-; done. }
    destruct Hw as (Hsc & Hwt & Hu). cbn. rewrite Hsc, Hwt. split; [exact Hu|]. split; [done|].
    right. exists c. split_and!; try done. cbn. by rewrite lookup_insert_eq.
Qed.

Lemma unsent_trans w1 w2 w3 : unsent w1 w2 -> unsent w2 w3 -> unsent w1 w3.
Proof. intros [A B] [C D]. split; congruence. Qed.

(** The new link put on its stream, and the answer. *)
Definition attach_and_reply (ev : env) (s st id link : Z) : M unit :=
  upd_st st (hs_set_path_callback FnWtPath) ;;
  upd_st st (hs_set_path_callback_ctx link) ;;
  sc ← read_link link wl_sc;
  aiopquic_wt_push_stream_created ev s id sc 0.

Lemma attach_replies ev s st id link sc w u w' y x : link <> s ->
  wt_objs (w_wt w) !! s = Some (ObjSession y) ->
  wt_objs (w_wt w) !! link = Some (ObjLink (WtLink s sc id)) ->
  is_Some (sw_scs (w_sc w) !! sc) -> sts w !! st = Some x -> hs_stream_id x = id ->
  attach_and_reply ev s st id link w = Some (u, w') ->
  queued (wt_entry s (ws_cnx y) SPSC_EVT_WT_STREAM_CREATED id 0 0 sc) w w' ∧ linked s st id sc w'.
Proof.
  intros Hne Ey El Hlive Ex Hid E. unfold attach_and_reply in E.
  minv E. apply upd_st_some in E0 as (x1 & Ex1 & ->). rewrite Ex in Ex1. injection Ex1 as <-.
  minv E. apply upd_st_some in E0 as (x2 & Ex2 & ->). cbn in Ex2. rewrite lookup_insert_eq in Ex2.
  injection Ex2 as <-. minv E. unfold read_link in E0. cbn in E0. rewrite El in E0.
  injection E0 as <- <-. cbn [wl_sc] in E.
  destruct (push_created_queued _ _ _ _ _ _ _ _ y E Ey) as (Hq & Ew & Esc).
  split; [eapply queued_unsent; [|exact Hq]; done|]. unfold linked, sts. rewrite Ew, Esc. cbn.
  rewrite lookup_insert_eq. exists link. eexists. split; [done|]. by split_and!.
Qed.

Lemma attach_no_session ev s st id link w u w' k : wt_objs (w_wt w) !! s = Some (ObjLink k) ->
  attach_and_reply ev s st id link w = Some (u, w') -> False.
Proof.
  intros Ek E. unfold attach_and_reply, aiopquic_wt_push_stream_created in E.
  minv E. apply upd_st_some in E0 as (x1 & Ex1 & ->). minv E. apply upd_st_some in E0 as (x2 & Ex2 & ->).
  minv E. apply quiet_read_link in E0. injection E0 as Ew _ _. minv E.
  apply read_s_some in E0 as (-> & y & Ey & _). rewrite Ew in Ey. cbn in Ey. congruence.
Qed.

(** C34. Every request for a stream is answered.  The command sends exactly one
    STREAM_CREATED of the session, behind everything sent before; unless no memory is
    left for the event, which is counted.  An error answer carries no wrapper; a
    success names a live wrapper, of a link of this session that hangs off the stream
    h3zero opened under the answered id.  A session whose connection is gone is
    answered with an error. *)
Theorem wt_create_stream_replies ev s e w u w' y : s <> 0 ->
  wt_objs (w_wt w) !! s = Some (ObjSession y) -> tx_wt_create_stream ev s e w = Some (u, w') ->
  ∃ id sc code, queued (wt_entry s (ws_cnx y) SPSC_EVT_WT_STREAM_CREATED id code 0 sc) w w' ∧
    (code <> 0 -> sc = 0) ∧
    (code = 0 -> sc <> 0 ∧ ∃ st, linked s st id sc w') ∧
    (ws_cnx y = 0 ∨ ws_h3_ctx y = 0 -> code = 1).
Proof.
  intros Hs Ey E. unfold tx_wt_create_stream in E. rewrite (proj2 (Z.eqb_neq _ _) Hs) in E.
  minv E. apply read_s_some in E0 as (-> & y' & Ey' & ->). assert (y' = y) as -> by congruence.
  minv E. apply read_s_some in E0 as (-> & y' & Ey2 & ->). assert (y' = y) as -> by congruence.
  destruct (Z.eqb_spec (ws_cnx y) 0) as [Hc|Hc]; cbn [orb] in E;
    [|destruct (Z.eqb_spec (ws_h3_ctx y) 0) as [Hh|Hh]; cbn [orb] in E].
  1, 2: destruct (push_created_queued _ _ _ _ _ _ _ _ _ E Ey) as (Hq & _);
    exists 0, 0, 1; split_and!; done.
  minv E. apply read_s_some in E0 as (-> & y' & Ey3 & ->). minv E. injection E0 as <- <-.
  set (st := ev_pq _ _ _) in *. set (w1 := set_h3 _ _) in *.
  assert (Hu : unsent w w1) by done.
  destruct (Z.eqb_spec st 0) as [Hst|Hst].
  { destruct (push_created_queued _ _ _ _ _ _ _ w' y E Ey) as (Hq & _).
    exists 0, 0, 1. split; [by eapply queued_unsent|]. split_and!; done. }
  minv E. apply read_st_some in E0 as (-> & z & Ez & ->). minv E.
  destruct (link_create_some _ _ _ _ _ _ E0) as (Hu2 & Eh & [[-> Eo]|(sc & Hl & Hsc & Hlive & Eo)]).
  - destruct (push_created_queued _ _ _ _ _ _ _ _ y E ltac:(by rewrite Eo)) as (Hq & _).
    exists (hs_stream_id z), 0, 2. split; [by eapply queued_unsent, Hq; eapply unsent_trans|].
    split_and!; try done. tauto.
  - rewrite (proj2 (Z.eqb_neq _ _) Hl) in E.
    destruct (decide (x = s)) as [->|Hne].
    { exfalso. eapply attach_no_session; [|exact E]. rewrite Eo. by rewrite lookup_insert_eq. }
    destruct (attach_replies ev s st (hs_stream_id z) x sc w0 u w' y z) as [Hq Hlk]; try done.
    + by rewrite Eo, lookup_insert_ne.
    + by rewrite Eo, lookup_insert_eq.
    + unfold sts. by rewrite Eh.
    + exists (hs_stream_id z), sc, 0. split; [by eapply queued_unsent, Hq; eapply unsent_trans|].
      split_and!; [done|by eauto|tauto].
Qed.

(** ** A session whose connection is gone *)

(** The commands of a session: all but its opening and its release. *)
Definition session_command (t : Z) : bool :=
  is_wt_event t && negb (evt_is t SPSC_EVT_TX_WT_OPEN) && negb (evt_is t SPSC_EVT_TX_WT_DEREGISTER).

(** picoquic and h3zero are not called, no wrapper and no datagram ring is touched. *)
Definition untouched (w w' : world) : Prop :=
  w_trace w' = w_trace w ∧ w_sc w' = w_sc w ∧ w_rs w' = w_rs w ∧
  wt_h3 (w_wt w') = wt_h3 (w_wt w).

Section gone.
Context {ev : env} {s : Z} {y : wt_session} {w : world} (Hs : s <> 0).
Context (Ey : wt_objs (w_wt w) !! s = Some (ObjSession y)) (Hc : ws_cnx y = 0).

Lemma read_s_run {A} (f : wt_session -> A) : read_s s f w = Some (f y, w).
Proof using Ey. unfold read_s. by rewrite Ey. Qed.

Lemma gone_cnx : no_cnx s w = Some (true, w).
Proof using Ey Hc Hs.
  unfold no_cnx. rewrite (proj2 (Z.eqb_neq _ _) Hs). unfold mbind, M_bind, bind.
  rewrite read_s_run, Hc. done.
Qed.

Lemma gone_control : no_control s w = Some (true, w).
Proof using Ey Hc Hs.
  unfold no_control. rewrite (proj2 (Z.eqb_neq _ _) Hs). unfold mbind, M_bind, bind.
  rewrite !read_s_run, Hc. done.
Qed.

Lemma gone_cleanup : ∃ w', tx_wt_session_cleanup ev s w = Some (tt, w') ∧ untouched w w'.
Proof using Ey Hc Hs.
  unfold tx_wt_session_cleanup. rewrite (proj2 (Z.eqb_neq _ _) Hs). unfold mbind, M_bind, bind.
  rewrite !read_s_run, Hc. cbn [Z.eqb negb andb when]. unfold wt_cleanup_done, upd_s, mbind, M_bind, bind.
  unfold ret at 1. rewrite read_s_run. eexists. split; [done|]. by split_and!.
Qed.

Lemma gone_create x xd g e : env_ok ev -> inv x xd g (res_of w) -> rx_room g 1 ->
  ∃ w', tx_wt_create_stream ev s e w = Some (tt, w') ∧ untouched w w'.
Proof using Ey Hc Hs.
  intros Eok I Hroom. unfold tx_wt_create_stream. rewrite (proj2 (Z.eqb_neq _ _) Hs).
  unfold mbind, M_bind, bind at 1 2. rewrite !read_s_run, Hc. cbn [Z.eqb orb].
  unfold aiopquic_wt_push_stream_created, mbind, M_bind, bind. rewrite read_s_run.
  destruct (sp_rx_push_free ev x xd g w (wt_entry s (ws_cnx y) SPSC_EVT_WT_STREAM_CREATED 0 1 0 0) []
    Eok I (λ _, eq_refl) Hroom) as (rc & w' & E & [Frs Fsc] & _); [by rewrite andb_false_r|].
  rewrite E. exists w'. split; [done|].
  pose proof (keeps_rx_push ev (f := w_trace) _ _ _ _ _ E) as Ht.
  pose proof (keeps_rx_push ev (f := w_wt) _ _ _ _ _ E) as Hw. unfold untouched. by rewrite Hw.
Qed.
End gone.

(** A command for a session whose connection is gone does nothing outside the
    bridge.  Whatever asyncio still queued for it, but its release, is handled: no
    call into picoquic or h3zero is made, no wrapper, datagram ring or h3zero struct is
    touched; the command is counted, remembered or answered with an error. *)
Theorem wt_gone_session_untouched ev x xd g w e y : env_ok ev -> inv x xd g (res_of w) ->
  rx_room g 1 -> e_cnx e <> 0 -> wt_objs (w_wt w) !! e_cnx e = Some (ObjSession y) ->
  ws_cnx y = 0 -> session_command (e_event_type e) = true ->
  ∃ w', wt_handle_tx ev e w = Some (1, w') ∧ untouched w w'.
Proof.
  intros Eok I Hroom Hs Ey Hc Ht. unfold wt_handle_tx.
  assert (Hdo : ∀ m : M unit, (∃ w', m w = Some (tt, w') ∧ untouched w w') ->
    ∃ w', (m ;; ret 1) w = Some (1, w') ∧ untouched w w').
  { intros m (w' & E & U). exists w'. split; [|done]. unfold mbind, M_bind, bind. by rewrite E. }
  unfold session_command in Ht. rewrite !andb_true_iff, !negb_true_iff in Ht. destruct Ht as [[Hw Ho] Hd].
  rewrite Ho, Hd.
  pose proof (gone_control Hs Ey Hc) as Gc. pose proof (gone_cnx Hs Ey Hc) as Gn.
  assert (Hret : untouched w w) by done.
  assert (Hcnt : ∀ c, untouched w (w_set_ctx (b_set_cnt (bump_cnt c 1 (b_cnt (w_ctx w))) (w_ctx w)) w)) by done.
  repeat (case_match; [apply Hdo|]).
  - by eapply gone_create.
  - unfold tx_wt_close, mbind, M_bind, bind. rewrite Gc. by exists w.
  - unfold tx_wt_fin, mbind, M_bind, bind. rewrite Gc. by exists w.
  - unfold tx_wt_drain, mbind, M_bind, bind. rewrite Gc. by exists w.
  - unfold tx_wt_reset_stream, mbind, M_bind, bind. rewrite Gn. by exists w.
  - unfold tx_mark_wt_datagram_ready, mbind, M_bind, bind. rewrite Gn. by exists w.
  - unfold tx_wt_set_stream_priority, mbind, M_bind, bind. rewrite Gn. eexists. split; [done|apply Hcnt].
  - unfold tx_wt_set_datagram_priority, mbind, M_bind, bind. rewrite Gn. eexists. split; [done|apply Hcnt].
  - unfold tx_wt_stop_sending, mbind, M_bind, bind. rewrite Gn. by exists w.
  - by eapply gone_cleanup.
  - exfalso. unfold is_wt_event, evt_is in *. clear Hdo Hcnt Gc Gn I Eok.
    rewrite !orb_true_iff, andb_true_iff, Z.geb_leb, !Z.leb_le, !Z.eqb_eq in Hw.
    rewrite !Z.eqb_neq in *. revert Hw Ho Hd H H0 H1 H2 H3 H4 H5 H6 H7 H8. cbn [evt_code]. lia.
Qed.

(** ** Concrete sessions *)

(** Session 500 on connection 100: control stream 600, and stream 604 with link 510. *)
Definition demo_session : wt_session :=
  ws_set_control_stream 600 (ws_set_h3_ctx 700 (ws_set_cnx 100 wt_session0)).
Definition demo_wt_state (y : wt_session) : wt_state :=
  WtState {[ 500 := ObjSession y; 510 := ObjLink (WtLink 500 16 4) ]}
    (H3Mem {[ 600 := H3Stream 0 FnWtPath 500 0 0 200 None None None;
              604 := H3Stream 4 FnWtPath 510 0 0 200 None None None ]}
           {[ 710 := H3Prefix FnWtPath 500 ]}
           {[ 700 := H3Ctx [710] [600; 604] 1 ConnectLegacy 0 ]}).

(** On a fresh bridge. *)
Definition demo_wt (y : wt_session) : option world :=
  s ← sys_start Bridge.demo_alloc 8 4 50 64; Some (w_set_wt (demo_wt_state y) (y_w s)).

Lemma demo_wt_some y : ∃ w, demo_wt y = Some w ∧ chan w 0 [] ∧ w_wt w = demo_wt_state y ∧
  inv (λ _, 0) (λ p, 0 + 0) (ghost0 false) (res_of w).
Proof.
  destruct demo_start as [s0 E]. pose proof (start_inv false (demo_env (λ _, 0)) _ _ _ _ _ _ demo_start_ok E) as Y.
  unfold demo_wt. rewrite E. cbn [mbind option_bind]. eexists. split; [done|].
  assert (Hx : y_x s0 = (λ _, 0) ∧ y_xd s0 = (λ _, 0)).
  { revert E. unfold sys_start. destruct (aiopquic_ctx_create _ _ _ _); [|done].
    cbn [mbind option_bind]. by intros [= <-]. }
  destruct Hx as [Ex Ed]. pose proof (yi_inv _ _ _ _ Y) as I. rewrite Ex, Ed in I. split_and!; try done.
  destruct (iv_rx _ _ _ _ I) as (q1 & q2 & R & En & Hd & Eq). exists q1, q2. split_and!; done.
Qed.

(** A run on the demo's world. *)
Lemma demo_wt_run {A} (y : wt_session) (m : M A) w :
  demo_wt y = Some w -> ran (w ← demo_wt y; m w) = true -> ∃ x w', m w = Some (x, w').
Proof. intros E H. rewrite E in H. by apply ran_some in H. Qed.

(** The demo's allocator gives addresses above 9000. *)
Lemma demo_fresh answer t os s : s <= 9000 -> ev_wt (demo_env answer) t os <> s.
Proof.
  intros Hs. assert (Hk : ∀ l : list (Z * wt_obj), 9000 <= foldr (λ kv n, Z.max kv.1 n) 9000 l).
  { induction l as [|kv l IH]; cbn; lia. }
  cbn. unfold fresh_addr. pose proof (Hk (map_to_list os)). lia.
Qed.

(** The peer's FIN, then the connection's end: both would announce. *)
Definition demo_end : list wt_call :=
  [WtPath [] 100 0 0 [] picohttp_callback_post_fin 600 500;
   WtCnx 100 0 0 0 picoquic_callback_close 700 0; WtTake; WtTake].

Example demo_end_announces : option_map (λ r, count_events (says_closed 500) r.1)
  (w ← demo_wt demo_session; wt_run (demo_env (λ _, 0)) demo_end w) = Some 1.
Proof. vm_compute. reflexivity. Qed.


(** The stream's free, twice. *)
Definition demo_frees : list wt_call :=
  [WtPath [] 100 0 0 [] picohttp_callback_free 604 510;
   WtPath [] 100 0 0 [] picohttp_callback_free 604 0].


(** h3zero answers with stream 604. *)
Definition demo_create : spsc_entry := sc_entry SPSC_EVT_TX_WT_CREATE_STREAM 0 500 0 0.
Definition demo_opens (c : pq_call) : Z :=
  match c with PicowtCreateLocalStream _ _ _ _ => 604 | _ => 0 end.

Lemma wt_create_stream_replies_witness : ∃ w w' id sc code, demo_wt demo_session = Some w ∧
  tx_wt_create_stream (demo_env demo_opens) 500 demo_create w = Some (tt, w') ∧
  queued (wt_entry 500 100 SPSC_EVT_WT_STREAM_CREATED id code 0 sc) w w' ∧
  (code = 0 -> sc <> 0 ∧ ∃ st, linked 500 st id sc w').
Proof.
  destruct (demo_wt_some demo_session) as (w & E & C & Ew & _).
  destruct (demo_wt_run _ (tx_wt_create_stream (demo_env demo_opens) 500 demo_create) w E)
    as ([] & w' & Er); [vm_compute; reflexivity|].
  assert (Hn : 500 <> 0) by lia.
  assert (Ey : wt_objs (w_wt w) !! 500 = Some (ObjSession demo_session)) by (rewrite Ew; reflexivity).
  destruct (wt_create_stream_replies _ 500 demo_create w tt w' demo_session Hn Ey Er)
    as (id & sc & code & Hq & _ & Hk & _).
  by exists w, w', id, sc, code.
Defined.

Lemma wt_gone_session_untouched_witness : ∃ w w', demo_wt wt_session0 = Some w ∧
  wt_handle_tx (demo_env demo_opens) demo_create w = Some (1, w') ∧ untouched w w'.
Proof.
  destruct (demo_wt_some wt_session0) as (w & E & C & Ew & I).
  destruct (wt_gone_session_untouched (demo_env demo_opens) _ _ (ghost0 false) w demo_create wt_session0
    (demo_env_ok _) I) as (w' & Er & U); [vm_compute; reflexivity|done|by rewrite Ew|done|done|].
  by exists w, w'.
Defined.
