(* ===== verification/WtClose.v ===== *)
(** * When a client closes its connection

    The end of a client's connection is spread over three happenings that come in any
    order: its own FIN or capsule is queued ([aiopquic_wt_fin_sent]), the resets of its
    streams are queued ([wt_cleanup_done]), and the peer's FIN is
    in ([aiopquic_wt_peer_fin]).  Each of them looks at the deadline; the app wake timer
    carries it to [aiopquic_wt_cnx_cb], which closes.  The theorem: once the first two
    have happened the deadline is armed, in time, and the timer's callback closes. *)
From S2P Require Import Prelude Ring Store StreamBuf SpscRing DgramBuf DgramTable.
From S2P Require Import StreamCtx WtState Bridge Alpn Callback World Runs System.
From S2P Require Import WtProto WtSession WtPath WtTx WtBudget WtRun WtSpec.

Inductive end_op := EndFinSent | EndPeerFin | EndCleanup.

#[export] Instance end_op_eq_dec : EqDecision end_op.
Proof. solve_decision. Defined.

Section close.
Context (ev : env) (s cnx : Z).

Definition end_step (o : end_op) : M unit :=
  match o with
  | EndFinSent => aiopquic_wt_fin_sent ev s cnx
  | EndPeerFin => aiopquic_wt_peer_fin ev s cnx
  | EndCleanup => wt_cleanup_done ev s cnx
  end.

Fixpoint end_run (os : list end_op) : M unit :=
  match os with [] => ret tt | o :: os => end_step o ;; end_run os end.
End close.

(** The time the app wake timer of [cnx] is set to: the last call's. *)
Definition wake_time (cnx : Z) (tr : list (pq_call * Z)) : option Z :=
  foldl (λ t c, match c.1 with PqSetAppWakeTime cnx' at_time => if cnx' =? cnx then Some at_time else t
                | _ => t end) None tr.

#[global] Arguments wake_time : simpl never.

Lemma wake_time_app cnx tr c r : wake_time cnx (tr ++ [(c, r)]) =
  match c with PqSetAppWakeTime cnx' at_time => if cnx' =? cnx then Some at_time else wake_time cnx tr
  | _ => wake_time cnx tr end.
Proof. unfold wake_time. by rewrite foldl_app. Qed.

Definition close_latency (peer_fin : bool) : Z :=
  if peer_fin then AIOPQUIC_WT_CLOSE_GRACE_US else AIOPQUIC_WT_CLOSE_DEADLINE_US.

Definition session_at (s : Z) (w : world) (y : wt_session) : Prop :=
  wt_objs (w_wt w) !! s = Some (ObjSession y).

(** The deadline is armed, and the timer with it; or it is not. *)
Definition armed (b : bool) (cnx : Z) (y : wt_session) (w : world) : Prop :=
  if b then 0 < ws_close_deadline y /\ wake_time cnx (w_trace w) = Some (ws_close_deadline y)
  else ws_close_deadline y = 0.

(** The happenings [y] has seen. *)
Definition seen (f c p : bool) (y : wt_session) : Prop :=
  negb (ws_fin_sent y =? 0) = f /\ negb (ws_cleanup_done y =? 0) = c /\ negb (ws_peer_fin y =? 0) = p.

(** The session after the happenings, the clock below [T]. *)
Definition end_state (s cnx T : Z) (f c p : bool) (w : world) : Prop :=
  ∃ y, session_at s w y ∧ seen f c p y ∧ armed (f && c) cnx y w ∧
    (f && c = true -> ws_close_deadline y <= T + close_latency p).

Section arming.
Context (ev : env) (s cnx T : Z) (Hcnx : cnx <> 0).
Context (Hclient : ∀ tr, ev_pq ev tr (PqIsClient cnx) <> 0).
Context (Hclock : ∀ tr, 0 <= ev_pq ev tr PqGetQuicTime <= T).
Context (HT : T + AIOPQUIC_WT_CLOSE_DEADLINE_US < 2 ^ 64).

Lemma close_at now p : 0 <= now <= T ->
  0 < u64 (now + (if negb (p =? 0) then AIOPQUIC_WT_CLOSE_GRACE_US else AIOPQUIC_WT_CLOSE_DEADLINE_US))
    <= T + close_latency (negb (p =? 0)).
Proof using HT.
  unfold close_latency, AIOPQUIC_WT_CLOSE_GRACE_US, AIOPQUIC_WT_CLOSE_DEADLINE_US in *. intros Hn.
  rewrite u64_small; [|destruct (negb _); lia]. destruct (negb _); lia.
Qed.

Lemma pq_bind {A} c (k : Z -> M A) w :
  (x ← pq ev c; k x) w = k (ev_pq ev (w_trace w) c)
    (w_set_trace (w_trace w ++ [(c, ev_pq ev (w_trace w) c)]) w).
Proof using Type. done. Qed.

Lemma read_s_bind {A B} (g : wt_session -> A) (k : A -> M B) y w : session_at s w y ->
  (x ← read_s s g; k x) w = k (g y) w.
Proof using Type. intros E. unfold mbind, M_bind, bind, read_s. by rewrite E. Qed.

Lemma upd_s_bind {B} g (k : M B) y w : session_at s w y ->
  (upd_s s g ;; k) w = k (set_objs (<[s := ObjSession (g y)]> (wt_objs (w_wt w))) w).
Proof using Type. intros E. unfold upd_s, mbind, M_bind, bind, read_s. by rewrite E. Qed.

(** A look at the deadline, whatever it was armed by. *)
Lemma maybe_close_arms b f c p y w : session_at s w y -> seen f c p y -> armed b cnx y w ->
  (b = true -> f && c = true) ->
  ∃ w', aiopquic_wt_maybe_close_cnx ev s cnx w = Some (tt, w') ∧ end_state s cnx T f c p w'.
Proof using Hcnx Hclient Hclock HT.
  intros Ey HS Hd Hmono. pose proof HS as (Ef & Ec & Ep).
  unfold aiopquic_wt_maybe_close_cnx. rewrite (proj2 (Z.eqb_neq _ _) Hcnx).
  rewrite pq_bind, (proj2 (Z.eqb_neq _ _) (Hclient _)), !(read_s_bind _ _ y) by exact Ey. cbn [orb].
  destruct (f && c) eqn:Efc.
  - apply andb_true_iff in Efc as [-> ->]. rewrite negb_true_iff in Ef, Ec. rewrite Ef, Ec. cbn [orb].
    rewrite pq_bind, !(read_s_bind _ _ y) by exact Ey. set (at_time := u64 _).
    assert (Hat : 0 < at_time <= T + close_latency p) by (rewrite <- Ep; apply close_at, Hclock).
    destruct ((ws_close_deadline y =? 0) || (at_time <? ws_close_deadline y)) eqn:Earm; cbn [when].
    + rewrite (upd_s_bind _ _ y) by exact Ey. eexists. split; [done|].
      exists (ws_set_close_deadline at_time y). split; [apply lookup_insert_eq|]. split; [done|].
      split; [|cbn; lia]. split; [cbn; lia|]. cbn. by rewrite !wake_time_app, Z.eqb_refl.
    + apply orb_false_iff in Earm as [E0%Z.eqb_neq Hle%Z.ltb_ge]. eexists. split; [done|].
      exists y. split; [done|]. split; [done|]. split; [|cbn; lia].
      destruct b; [|done]. destruct Hd as [? Hd]. split; [done|]. cbn. by rewrite !wake_time_app.
  - destruct b; [by specialize (Hmono eq_refl)|].
    assert (Ex : (ws_fin_sent y =? 0) || (ws_cleanup_done y =? 0) = true).
    { revert Efc. rewrite <- Ef, <- Ec. by destruct (_ =? 0), (_ =? 0). }
    rewrite Ex. eexists. split; [done|]. exists y. rewrite Efc. done.
Qed.

Definition saw (o o' : end_op) (b : bool) : bool := b || bool_decide (o = o').

Lemma end_step_arms o f c p w : end_state s cnx T f c p w ->
  ∃ w', end_step ev s cnx o w = Some (tt, w') ∧
    end_state s cnx T (saw o EndFinSent f) (saw o EndCleanup c) (saw o EndPeerFin p) w'.
Proof using Hcnx Hclient Hclock HT.
  intros (y & Ey & (Ef & Ec & Ep) & Hd & _). unfold saw.
  assert (Hat : ∀ g w, session_at s (set_objs (<[s := ObjSession (g y)]> (wt_objs (w_wt w))) w) (g y)).
  { intros. apply lookup_insert_eq. }
  destruct o; cbn [end_step]; unfold aiopquic_wt_fin_sent, aiopquic_wt_peer_fin, wt_cleanup_done;
    rewrite (upd_s_bind _ _ y) by exact Ey.
  - rewrite (upd_s_bind _ _ (ws_set_fin_sent 1 y)) by apply Hat.
    eapply (maybe_close_arms (f && c)); [apply lookup_insert_eq| |exact Hd|];
      [|by destruct f, c]. rewrite <- Ef, <- Ec, <- Ep. by rewrite !orb_true_r, !orb_false_r.
  - eapply (maybe_close_arms (f && c)); [apply lookup_insert_eq| |exact Hd|];
      [|by destruct f, c]. rewrite <- Ef, <- Ec, <- Ep. by rewrite !orb_true_r, !orb_false_r.
  - eapply (maybe_close_arms (f && c)); [apply lookup_insert_eq| |exact Hd|];
      [|by destruct f, c]. rewrite <- Ef, <- Ec, <- Ep. by rewrite !orb_true_r, !orb_false_r.
Qed.

Lemma end_run_arms os : ∀ f c p w, end_state s cnx T f c p w ->
  ∃ w', end_run ev s cnx os w = Some (tt, w') ∧
    end_state s cnx T (f || bool_decide (EndFinSent ∈ os)) (c || bool_decide (EndCleanup ∈ os))
      (p || bool_decide (EndPeerFin ∈ os)) w'.
Proof using Hcnx Hclient Hclock HT.
  induction os as [|o os IH]; intros f c p w S.
  - exists w. split; [done|]. by rewrite !orb_false_r.
  - destruct (end_step_arms o f c p w S) as (w1 & E1 & S1).
    destruct (IH _ _ _ _ S1) as (w2 & E2 & S2). exists w2. split.
    + cbn [end_run]. unfold mbind, M_bind, bind. by rewrite E1.
    + unfold saw in S2. rewrite <- !orb_assoc in S2.
      assert (Hin : ∀ k, bool_decide (o = k) || bool_decide (k ∈ os) = bool_decide (k ∈ o :: os)).
      { intros k. rewrite <- bool_decide_or. apply bool_decide_ext. rewrite elem_of_cons. by split; intros [->|?]; [left|right|left|right]. }
      by rewrite !Hin in S2.
Qed.

(** The timer's callback. *)
Lemma wakeup_closes y w h : session_at s w y -> s <> 0 -> ws_close_deadline y <> 0 ->
  aiopquic_wt_client_session h w = Some (s, w) ->
  ∃ r, wt_app_wakeup ev cnx h true w = Some (tt, w_set_trace
      (w_trace w ++ [(PqClose cnx H3ZERO_NO_ERROR, r)])
      (set_objs (<[s := ObjSession (ws_set_close_deadline 0 y)]> (wt_objs (w_wt w))) w)).
Proof using Type.
  intros Ey Hs Hd Hses. unfold wt_app_wakeup. unfold mbind at 1, M_bind at 1, bind at 1.
  rewrite Hses, (proj2 (Z.eqb_neq _ _) Hs), (read_s_bind _ _ y) by exact Ey.
  rewrite (proj2 (Z.eqb_neq _ _) Hd). cbn [negb when].
  rewrite (upd_s_bind _ _ y) by exact Ey. by eexists.
Qed.
End arming.

(** C33. A client's connection is closed in time.  Whatever the order and the number of
    the happenings, once the session's own FIN and its cleanup are in, the deadline is
    armed: at most one second after the clock, 20 ms once the peer's FIN is in, and the
    app wake timer of the connection stands at it.  The timer's callback then closes
    the connection without an error, and only once: the deadline is cleared. *)
Theorem wt_client_close_armed ev s cnx T os w y : s <> 0 -> cnx <> 0 ->
  (∀ tr, ev_pq ev tr (PqIsClient cnx) <> 0) ->
  (∀ tr, 0 <= ev_pq ev tr PqGetQuicTime <= T) -> T + AIOPQUIC_WT_CLOSE_DEADLINE_US < 2 ^ 64 ->
  session_at s w y -> seen false false false y -> ws_close_deadline y = 0 ->
  EndFinSent ∈ os -> EndCleanup ∈ os ->
  ∃ w' y', end_run ev s cnx os w = Some (tt, w') ∧ session_at s w' y' ∧
    0 < ws_close_deadline y' <= T + close_latency (bool_decide (EndPeerFin ∈ os)) ∧
    wake_time cnx (w_trace w') = Some (ws_close_deadline y') ∧
    ∀ h, aiopquic_wt_client_session h w' = Some (s, w') ->
      ∃ w'' r, wt_app_wakeup ev cnx h true w' = Some (tt, w'') ∧
        w_trace w'' = w_trace w' ++ [(PqClose cnx H3ZERO_NO_ERROR, r)] ∧
        session_at s w'' (ws_set_close_deadline 0 y').
Proof.
  intros Hs Hcnx Hcl Hck HT Ey HS Hd Hf Hc.
  destruct (end_run_arms ev s cnx T Hcnx Hcl Hck HT os false false false w)
    as (w' & E & y' & Ey' & _ & Ha & Hl).
  { by exists y. }
  cbn [orb] in Ha, Hl. rewrite !bool_decide_true in Ha, Hl by done. destruct Ha as [Hpos Hw].
  exists w', y'. split_and!; try done; [by apply Hl|].
  intros h Hses. destruct (wakeup_closes ev s cnx y' w' h) as [r Er]; try done; [lia|].
  eexists _, r. split; [exact Er|]. split; [done|]. apply lookup_insert_eq.
Qed.

Lemma client_session_reads h w t w1 : aiopquic_wt_client_session h w = Some (t, w1) -> w1 = w.
Proof.
  unfold aiopquic_wt_client_session. intros E. minv E. unfold read_h3 in E0.
  destruct (hm_ctxs _ !! h) as [c|]; [|done]. injection E0 as <- <-.
  induction (hc_stream_prefixes c) as [|p ps IH]; [by injection E as _ <-|].
  cbn [find_wt_prefix] in E. minv E. unfold read_px in E0.
  destruct (hm_prefixes _ !! p) as [z|] eqn:Ep; [|done]. injection E0 as <- <-.
  destruct (bool_decide _); [|by apply IH]. unfold read_px in E. rewrite Ep in E. by injection E as _ <-.
Qed.

(** A client's session whose cleanup comes before its own FIN and before the peer's. *)
Definition demo_ends : list end_op := [EndCleanup; EndFinSent; EndPeerFin].
Definition demo_client (c : pq_call) : Z :=
  match c with PqIsClient _ => 1 | PqGetQuicTime => 5 | _ => 0 end.

Lemma wt_client_close_armed_witness : ∃ w w' y' w'', demo_wt demo_session = Some w ∧
  end_run (demo_env demo_client) 500 100 demo_ends w = Some (tt, w') ∧ session_at 500 w' y' ∧
  0 < ws_close_deadline y' <= 20005 ∧
  wt_app_wakeup (demo_env demo_client) 100 700 true w' = Some (tt, w'') ∧
  ∃ r, w_trace w'' = w_trace w' ++ [(PqClose 100 H3ZERO_NO_ERROR, r)].
Proof.
  destruct (demo_wt_some demo_session) as (w & E & _ & Ew & _).
  assert (H1 : 500 <> 0) by lia. assert (H2 : 100 <> 0) by lia.
  assert (H3 : ∀ tr, ev_pq (demo_env demo_client) tr (PqIsClient 100) <> 0) by (intros tr; discriminate).
  assert (H4 : ∀ tr, 0 <= ev_pq (demo_env demo_client) tr PqGetQuicTime <= 5) by (intros tr; cbn; lia).
  assert (H5 : 5 + AIOPQUIC_WT_CLOSE_DEADLINE_US < 2 ^ 64) by (unfold AIOPQUIC_WT_CLOSE_DEADLINE_US; lia).
  assert (H6 : session_at 500 w demo_session) by (unfold session_at; by rewrite Ew).
  assert (H7 : seen false false false demo_session) by done.
  assert (H8 : EndFinSent ∈ demo_ends) by (apply (bool_decide_unpack _); reflexivity).
  assert (H9 : EndCleanup ∈ demo_ends) by (apply (bool_decide_unpack _); reflexivity).
  destruct (wt_client_close_armed _ 500 100 5 demo_ends w demo_session H1 H2 H3 H4 H5 H6 H7 eq_refl H8 H9)
    as (w' & y' & Er & Ey & Hd & _ & Hwake).
  destruct (Hwake 700) as (w'' & r & Ewk & Et & _).
  { assert (Hs : match demo_wt demo_session with
        | Some w => match end_run (demo_env demo_client) 500 100 demo_ends w with
                    | Some (_, w) => option_map fst (aiopquic_wt_client_session 700 w)
                    | None => None
                    end
        | None => None
        end = Some 500) by (vm_compute; reflexivity).
    rewrite E, Er in Hs.
    destruct (aiopquic_wt_client_session 700 w') as [[t w1]|] eqn:Es; [|done].
    injection Hs as ->. by apply client_session_reads in Es as ->. }
  exists w, w', y', w''. split_and!; try done; [apply Hd|exact (proj2 Hd)|by exists r].
Defined.
