(* ===== verification/WtSafe.v ===== *)
(** * Safety of h3zero's callbacks

    A link holds one reference on its stream's wrapper and a session one on its datagram
    ring.  Counted with Python's own, they make the invariant of World.v hold under
    WebTransport too ([winv]).  The theorem: a callback on a live session is defined,
    whatever it carries, and keeps the invariant; what h3zero's own calls may do to its
    structs is [h3_ok]. *)
From S2P Require Import Prelude Ring Store StreamBuf SpscRing EventChannel DgramBuf DgramTable.
From S2P Require Import StreamCtx WtState Bridge Alpn Callback World BridgeSafe StreamCb Runs.
From S2P Require Import WtProto WtSession WtPath WtTx WtBudget WtRun.

(** ** Sums over sessions and links *)

Definition objs_sum (f : wt_obj -> Z) (o : gmap Z wt_obj) : Z := lsum f (map_to_list o).*2.

Lemma objs_sum_insert f o k v : o !! k = None -> objs_sum f (<[k := v]> o) = f v + objs_sum f o.
Proof.
  intros E. unfold objs_sum.
  rewrite (lsum_perm f _ ((k, v) :: map_to_list o).*2), fmap_cons, lsum_cons; [done|].
  apply fmap_Permutation, map_to_list_insert, E.
Qed.

Lemma objs_sum_delete f o k v : o !! k = Some v -> objs_sum f o = f v + objs_sum f (delete k o).
Proof. intros E. rewrite <- (insert_delete_id o k v E) at 1. apply objs_sum_insert, lookup_delete_eq. Qed.

Lemma objs_sum_update f o k v v' : o !! k = Some v -> objs_sum f (<[k := v']> o) = objs_sum f o - f v + f v'.
Proof.
  intros E. rewrite <- insert_delete_eq, objs_sum_insert by apply lookup_delete_eq.
  rewrite (objs_sum_delete f o k v E). lia.
Qed.

Lemma objs_sum_nonneg f o : (∀ v, 0 <= f v) -> 0 <= objs_sum f o.
Proof. apply lsum_nonneg. Qed.

Lemma objs_sum_ge f o k v : (∀ v, 0 <= f v) -> o !! k = Some v -> f v <= objs_sum f o.
Proof. intros Hf E. rewrite (objs_sum_delete f o k v E). pose proof (objs_sum_nonneg f (delete k o) Hf). lia. Qed.

(** References to wrapper [p] that a link holds, to datagram ring [p] that a session holds. *)
Definition link_holds (p : Z) (v : wt_obj) : Z :=
  match v with ObjLink k => c_bool (wl_sc k =? p) | ObjSession _ => 0 end.
Definition ring_holds (p : Z) (v : wt_obj) : Z :=
  match v with
  | ObjSession y => c_bool (negb (ws_dgram_ring y =? 0) && (ws_dgram_ring y =? p))
  | ObjLink _ => 0
  end.

Lemma link_holds_nonneg p v : 0 <= link_holds p v.
Proof. destruct v; [done|apply c_bool_nonneg]. Qed.
Lemma ring_holds_nonneg p v : 0 <= ring_holds p v.
Proof. destruct v; [apply c_bool_nonneg|done]. Qed.

Definition with_links (x : Z -> Z) (o : gmap Z wt_obj) : Z -> Z := λ p, x p + objs_sum (link_holds p) o.
Definition with_rings (xd : Z -> Z) (o : gmap Z wt_obj) : Z -> Z := λ p, xd p + objs_sum (ring_holds p) o.

(** The invariant of World.v, the references of sessions and links counted in. *)
Definition winv (x xd : Z -> Z) (g : ghost) (w : world) : Prop :=
  let o := wt_objs (w_wt w) in inv (with_links x o) (with_rings xd o) g (res_of w).

(** What one callback may have done to the queues: [n] events, [B] bytes at most. *)
Record wgrows (n B : Z) (g g' : ghost) : Prop := {
  wg_ht : g_ht g' = g_ht g;
  wg_tx : g_tx g' = g_tx g;
  wg_hr : g_hr g' = g_hr g;
  wg_owed : g_owed g' = g_owed g;
  wg_puts : g_puts g' = g_puts g;
  wg_rx : zlen (g_rx g) <= zlen (g_rx g') <= zlen (g_rx g) + n;
  wg_T : g_T g <= g_T g' <= g_T g + B;
  wg_wt : g_wt g' = g_wt g
}.

Lemma wgrows_refl g : wgrows 0 0 g g.
Proof. split; done || lia. Qed.

Lemma wgrows_trans n B n' B' g1 g2 g3 : wgrows n B g1 g2 -> wgrows n' B' g2 g3 ->
  wgrows (n + n') (B + B') g1 g3.
Proof. intros [] []. split; congruence || lia. Qed.

Lemma wgrows_mono n B n' B' g g' : wgrows n B g g' -> n <= n' -> B <= B' -> wgrows n' B' g g'.
Proof. intros []. split; done || lia. Qed.

(** Room for [n] events, WebTransport in use. *)
Definition wt_room (g : ghost) (n : Z) : Prop := rx_room g n ∧ g_wt g = true.

Lemma wt_room_le g n k : wt_room g n -> k <= n -> wt_room g k.
Proof. intros [Hr Hw] Hk. split; [|done]. unfold rx_room in *. lia. Qed.

Lemma wgrows_room n B g g' k : wgrows n B g g' -> wt_room g (n + k) -> wt_room g' k.
Proof. intros [] [Hr Hw]. split; [|congruence]. unfold rx_room in *. lia. Qed.

(** ** What h3zero's calls do *)

(** h3zero's structs in memory stay in memory. *)
Definition h3_grows (m m' : h3_mem) : Prop :=
  (∀ st, is_Some (hm_streams m !! st) -> is_Some (hm_streams m' !! st)) ∧
  (∀ h, is_Some (hm_ctxs m !! h) -> is_Some (hm_ctxs m' !! h)).

(** The calls a callback makes that may free a struct: only the deletion of a prefix,
    which frees no context. *)
Record h3_ok (ev : env) : Prop := {
  ho_fresh : ∀ t o, ev_wt ev t o = 0 ∨ o !! ev_wt ev t o = None;
  ho_grows : ∀ tr c m, match c with
      | PicowtUncountSession _ _ | H3FindStreamPrefix _ _ | PicowtSetControlStream _ _
      | PicowtConnect _ _ _ _ _ _ _ | H3ProvideDatagramBuffer _ _ _ | PicowtSetWtProtocol _ _
      | H3DeclareStreamPrefix _ _ _ => h3_grows m (ev_h3 ev tr c m)
      | _ => True
      end;
  ho_delete : ∀ tr cnx h id m k, is_Some (hm_ctxs m !! k) ->
    is_Some (hm_ctxs (ev_h3 ev tr (H3DeleteStreamPrefix cnx h id) m) !! k);
  ho_control : ∀ tr cnx h m, let c := PicowtSetControlStream cnx h in ev_pq ev tr c <> 0 ->
    is_Some (hm_streams (ev_h3 ev tr c m) !! ev_pq ev tr c);
  ho_prefix : ∀ tr h id m, let c := H3FindStreamPrefix h id in ev_pq ev tr c <> 0 ->
    ∃ z, hm_prefixes (ev_h3 ev tr c m) !! ev_pq ev tr c = Some z ∧
      (px_function_call z = FnWtPath -> hm_prefixes m !! ev_pq ev tr c = Some z)
}.

(** ** Reasoning about one callback *)

(** What a callback relies on: the session [s], the link [l] of wrapper [sc] when there
    is one, the stream [st] and the session's h3zero context are in memory. *)
Definition alive (s l sc st : Z) (w : world) : Prop :=
  (∃ y, wt_objs (w_wt w) !! s = Some (ObjSession y) ∧
     (ws_h3_ctx y <> 0 -> is_Some (hm_ctxs (wt_h3 (w_wt w)) !! ws_h3_ctx y))) ∧
  (l <> 0 -> ∃ k, wt_objs (w_wt w) !! l = Some (ObjLink k) ∧ wl_session k = s ∧ wl_sc k = sc) ∧
  (st <> 0 -> is_Some (sts w !! st)).

(** A fact about wrappers, datagram rings and the WebTransport state. *)
Class Framed (P : world -> Prop) : Prop :=
  framed : ∀ w w', frame w w' -> w_wt w' = w_wt w -> P w -> P w'.

#[export] Instance alive_framed s l sc st : Framed (alive s l sc st).
Proof. intros w w' _ E. unfold alive, sts. by rewrite E. Qed.
#[export] Instance has_rx_framed p : Framed (has_rx p).
Proof. intros w w' [_ E] _. unfold has_rx. by rewrite E. Qed.
#[export] Instance and_framed P Q : Framed P -> Framed Q -> Framed (λ w, P w ∧ Q w).
Proof. intros HP HQ w w' F E [? ?]. split; [by eapply HP|by eapply HQ]. Qed.
#[export] Instance pure_framed (P : Prop) : Framed (λ _, P).
Proof. by intros w w' _ _. Qed.
#[export] Instance impl_framed (P : Prop) Q : Framed Q -> Framed (λ w, P -> Q w).
Proof. intros HQ w w' F E H ?. eapply HQ; eauto. Qed.

Lemma quiet_wt {A} (m : M A) : keeps wt_part m -> keeps w_wt m.
Proof. intros H w x w' E. apply H in E. by injection E. Qed.
#[export] Hint Resolve quiet_wt : keeps.

Section triple.
Context {x xd : Z -> Z} (X0 : ∀ p, 0 <= x p) (XD0 : ∀ p, 0 <= xd p).

(** From a state with room for [n] events where [P] holds, [m] is defined, keeps the
    invariant, sends at most [n] events, and [Q] holds of its result. *)
Definition safe {A} (n : Z) (P : world -> Prop) (m : M A) (Q : A -> world -> Prop) : Prop :=
  ∀ g w, winv x xd g w -> wt_room g n -> P w ->
    wp m (λ a w', ∃ g', winv x xd g' w' ∧ wgrows n 0 g g' ∧ Q a w') w.

Lemma safe_ret {A} (a : A) P : safe 0 P (ret a) (λ b w, b = a ∧ P w).
Proof using Type. intros g w I _ HP. apply wp_ret. exists g. split; [done|]. split; [apply wgrows_refl|done]. Qed.

Lemma safe_bind {A B} n k (P : world -> Prop) (m : M A) (f : A -> M B) R Q : 0 <= n -> 0 <= k ->
  safe n P m R -> (∀ a, safe k (R a) (f a) Q) -> safe (n + k) P (a ← m; f a) Q.
Proof using Type.
  intros Hn Hk Hm Hf g w I Hr HP. apply wp_bind. eapply wp_mono.
  { apply (Hm g w I); [|done]. eapply wt_room_le; [done|lia]. }
  intros a w1 (g1 & I1 & G1 & HR). eapply wp_mono.
  { apply (Hf a g1 w1 I1); [|done]. by eapply wgrows_room. }
  intros b w2 (g2 & I2 & G2 & HQ). exists g2. split; [done|]. split; [|done].
  replace 0 with (0 + 0) by lia. by eapply wgrows_trans.
Qed.

Lemma safe_bind0 {A B} n (P : world -> Prop) (m : M A) (f : A -> M B) R Q : 0 <= n ->
  safe 0 P m R -> (∀ a, safe n (R a) (f a) Q) -> safe n P (a ← m; f a) Q.
Proof using Type. intros Hn Hm Hf. change n with (0 + n). by eapply safe_bind. Qed.

Lemma safe_mono {A} n n' (P P' : world -> Prop) (m : M A) (Q Q' : A -> world -> Prop) : safe n P m Q ->
  n <= n' -> (∀ w, P' w -> P w) -> (∀ a w, Q a w -> Q' a w) -> safe n' P' m Q'.
Proof using Type.
  intros Hm Hn HP HQ g w I Hr Hp. eapply wp_mono; [apply (Hm g w I); [eapply wt_room_le; [done|lia]|auto]|].
  intros a w' (g' & I' & G' & Hq). exists g'. split; [done|]. split; [|auto].
  eapply wgrows_mono; [done|lia..].
Qed.

Lemma safe_post {A} n (P : world -> Prop) (m : M A) (Q Q' : A -> world -> Prop) : safe n P m Q ->
  (∀ a w, Q a w -> Q' a w) -> safe n P m Q'.
Proof using Type. intros Hm HQ. by eapply safe_mono. Qed.

Lemma safe_pre {A} n (P P' : world -> Prop) (m : M A) Q : safe n P m Q -> (∀ w, P' w -> P w) ->
  safe n P' m Q.
Proof using Type. intros Hm HP. by eapply safe_mono. Qed.

Lemma safe_pure {A} n (φ : Prop) P (m : M A) Q : (φ -> safe n P m Q) -> safe n (λ w, φ ∧ P w) m Q.
Proof using Type. intros H g w I Hr [Hφ HP]. by apply (H Hφ). Qed.

Lemma safe_if {A} n P (b : bool) (m m' : M A) Q : (b = true -> safe n P m Q) ->
  (b = false -> safe n P m' Q) -> safe n P (if b then m else m') Q.
Proof using Type. destruct b; auto. Qed.

Lemma safe_when n P b m : 0 <= n -> (b = true -> safe n P m (λ _, P)) -> safe n P (when b m) (λ _, P).
Proof using Type.
  intros Hn Hm. apply safe_if; [done|]. intros _. eapply safe_mono; [apply (safe_ret tt P)|done|auto|].
  by intros a w [_ ?].
Qed.

(** An operation on the bridge alone. *)
Lemma safe_idle {A} P `{!Framed P} (m : M A) : idle m -> keeps w_wt m -> safe 0 P m (λ _, P).
Proof using Type.
  intros Hi Hk g w I _ HP.
  destruct (Hi w (λ _ w', res_of w' = res_of w) ltac:(auto)) as (a & w' & E & Er).
  pose proof (Hk _ _ _ E) as Ew. exists a, w'. split; [done|]. exists g. split.
  { unfold winv. by rewrite Ew, Er. }
  split; [apply wgrows_refl|]. eapply framed; [by apply frame_res|done|done].
Qed.

(** An operation that keeps the WebTransport state. *)
Lemma safe_lift {A} n P (m : M A) Q : keeps w_wt m ->
  (∀ y yd g w, inv y yd g (res_of w) -> y = with_links x (wt_objs (w_wt w)) ->
     yd = with_rings xd (wt_objs (w_wt w)) -> wt_room g n -> P w ->
     wp m (λ a w', ∃ g', inv y yd g' (res_of w') ∧ wgrows n 0 g g' ∧
       (w_wt w' = w_wt w -> Q a w')) w) -> safe n P m Q.
Proof using Type.
  intros Hk Hm g w I Hr HP.
  destruct (Hm _ _ g w I eq_refl eq_refl Hr HP) as (a & w' & E & g' & I' & G' & HQ).
  exists a, w'. split; [done|]. exists g'. pose proof (Hk _ _ _ E) as Ew. unfold winv. rewrite Ew. auto.
Qed.

Lemma safe_push ev e data P `{!Framed P} : env_ok ev ->
  aiopquic_rx_event_owns_sc (e_event_type e) = false -> (data = [] -> entry_owns e = false) ->
  safe 1 P (aiopquic_rx_push ev e data) (λ _, P).
Proof using Type.
  intros Eok Ho He. apply safe_lift; [keeps_tac|]. intros y yd g w I _ _ Hr HP.
  eapply wp_mono; [apply (sp_rx_push_free ev y yd g w e data Eok I He (proj1 Hr))|].
  { by rewrite Ho, andb_false_r. }
  intros rc w' (Fr & g' & I' & G' & D' & S'). exists g'. split; [done|]. split.
  - destruct G'. split; try done; lia.
  - intros Ew. by eapply framed.
Qed.

Lemma safe_le0 {A} n P (m : M A) Q : 0 <= n -> safe 0 P m Q -> safe n P m Q.
Proof using Type. intros Hn Hm. by eapply safe_mono. Qed.

Lemma with_links_nonneg o p : 0 <= with_links x o p.
Proof using X0. unfold with_links. pose proof (objs_sum_nonneg (link_holds p) o (link_holds_nonneg p)). specialize (X0 p). lia. Qed.

(** The wrapper of a live link is live. *)
Lemma alive_refs s l sc st g w : winv x xd g w -> alive s l sc st w -> l <> 0 ->
  0 < sc_refs (with_links x (wt_objs (w_wt w))) g sc.
Proof using X0.
  intros I (_ & Hl & _) Hn. destruct (Hl Hn) as (k & Ek & _ & <-).
  eapply sc_refs_own; [exact I|]. unfold with_links.
  pose proof (objs_sum_ge (link_holds (wl_sc k)) _ _ _ (link_holds_nonneg _) Ek) as Hge.
  cbn in Hge. rewrite Z.eqb_refl in Hge. cbn in Hge. specialize (X0 (wl_sc k)). lia.
Qed.
End triple.

(** An operation on the bridge alone. *)
Ltac safe_still :=
  cbn beta; first
  [ apply safe_idle; first [exact _ | solve [idle_tac] | solve [keeps_tac]]
  | apply safe_le0; [lia|]; apply safe_idle; first [exact _ | solve [idle_tac] | solve [keeps_tac]] ].

(** ** Sessions, links, streams *)

Definition ctx_in (h : Z) (w : world) : Prop := h <> 0 -> is_Some (hm_ctxs (wt_h3 (w_wt w)) !! h).

#[export] Instance ctx_in_framed h : Framed (ctx_in h).
Proof. intros w w' _ E. unfold ctx_in. by rewrite E. Qed.

(** A fact that a call of h3zero which frees nothing keeps. *)
Class H3Stable (P : world -> Prop) : Prop :=
  h3_stable : ∀ w w', h3_grows (wt_h3 (w_wt w)) (wt_h3 (w_wt w')) ->
    wt_objs (w_wt w') = wt_objs (w_wt w) -> res_of w' = res_of w -> P w -> P w'.

#[export] Instance alive_h3 s l sc st : H3Stable (alive s l sc st).
Proof.
  intros w w' [Hst Hctx] Eo _ ((y & Ey & Hh) & Hl & Hs). unfold alive, sts. rewrite Eo.
  split; [exists y; split; [done|auto]|]. split; [done|]. intros Hn. by apply Hst, Hs.
Qed.
#[export] Instance ctx_in_h3 h : H3Stable (ctx_in h).
Proof. intros w w' [_ Hctx] _ _ H Hn. by apply Hctx, H. Qed.
#[export] Instance and_h3 P Q : H3Stable P -> H3Stable Q -> H3Stable (λ w, P w ∧ Q w).
Proof. intros HP HQ w w' G E R [? ?]. split; [by eapply HP|by eapply HQ]. Qed.

Lemma is_some_insert {A} (m : gmap Z A) k v j : is_Some (m !! j) -> is_Some (<[k := v]> m !! j).
Proof. intros H. apply lookup_insert_is_Some. destruct (decide (k = j)); auto. Qed.

Section ops.
Context {ev : env} (Eok : env_ok ev) (Hok : h3_ok ev).
Context {x xd : Z -> Z} (X0 : ∀ p, 0 <= x p) (XD0 : ∀ p, 0 <= xd p).
Abbreviation sf := (safe (x := x) (xd := xd)).

(** An operation on h3zero's structs and the trace alone. *)
Lemma safe_h3mem {A} P Q (m : M A) :
  (∀ w, P w -> ∃ a w', m w = Some (a, w') ∧ res_of w' = res_of w ∧
     wt_objs (w_wt w') = wt_objs (w_wt w) ∧ Q a w') -> sf 0 P m Q.
Proof using Type.
  intros Hm g w I _ HP. destruct (Hm w HP) as (a & w' & E & Er & Eo & HQ).
  exists a, w'. split; [done|]. exists g. split; [unfold winv; by rewrite Eo, Er|].
  split; [apply wgrows_refl|done].
Qed.

Lemma safe_h3 c P `{!H3Stable P} : (∀ tr m, h3_grows m (ev_h3 ev tr c m)) ->
  sf 0 P (h3 ev c) (λ _, P).
Proof using Type.
  intros Hg. apply safe_h3mem. intros w HP. eexists _, _. split; [done|]. split; [done|].
  split; [done|]. apply (h3_stable w); [|done|done|exact HP]. apply Hg.
Qed.

Lemma safe_read_s {A} s l sc st (f : wt_session -> A) :
  sf 0 (alive s l sc st) (read_s s f) (λ a w, alive s l sc st w ∧
    ∃ y, wt_objs (w_wt w) !! s = Some (ObjSession y) ∧ a = f y).
Proof using Type.
  apply safe_h3mem. intros w HP. pose proof HP as ((y & Ey & _) & _). unfold read_s. rewrite Ey.
  eexists _, _. split; [done|]. split_and!; try done. by exists y.
Qed.

Lemma safe_read_h3ctx s l sc st :
  sf 0 (alive s l sc st) (read_s s ws_h3_ctx) (λ h w, alive s l sc st w ∧ ctx_in h w).
Proof using Type.
  apply safe_h3mem. intros w HP. pose proof HP as ((y & Ey & Hh) & _). unfold read_s. rewrite Ey.
  eexists _, _. split; [done|]. by split_and!.
Qed.

(** A field of the session whose value does not matter. *)
Lemma safe_get {A} s l sc st P (f : wt_session -> A) : (∀ w, P w -> alive s l sc st w) ->
  sf 0 P (read_s s f) (λ _, P).
Proof using Type.
  intros H. apply safe_h3mem. intros w HP. destruct (H w HP) as ((y & Ey & _) & _).
  unfold read_s. rewrite Ey. by eexists _, _.
Qed.

Lemma safe_read_st {A} s l sc st P (f : h3_stream -> A) : (∀ w, P w -> alive s l sc st w) -> st <> 0 ->
  sf 0 P (read_st st f) (λ _, P).
Proof using Type.
  intros H Hn. apply safe_h3mem. intros w HP. destruct (H w HP) as (_ & _ & Hs).
  destruct (Hs Hn) as [z Ez]. unfold sts in Ez. unfold read_st. rewrite Ez. by eexists _, _.
Qed.

Lemma safe_upd_st s l sc st P f `{!H3Stable P} : (∀ w, P w -> alive s l sc st w) -> st <> 0 ->
  sf 0 P (upd_st st f) (λ _, P).
Proof using Type.
  intros H Hn. apply safe_h3mem. intros w HP. destruct (H w HP) as (_ & _ & Hs).
  destruct (Hs Hn) as [z Ez]. unfold sts in Ez. unfold upd_st. rewrite Ez. eexists _, _.
  split; [done|]. split; [done|]. split; [done|].
  apply (h3_stable w); [|done|done|exact HP]. split; [|done]. intros k. apply is_some_insert.
Qed.

Lemma safe_read_ctx {A} h P (f : h3_ctx -> A) : (∀ w, P w -> ctx_in h w) -> h <> 0 ->
  sf 0 P (read_h3 h f) (λ _, P).
Proof using Type.
  intros H Hn. apply safe_h3mem. intros w HP. destruct (H w HP Hn) as [c Ec].
  unfold read_h3. rewrite Ec. by eexists _, _.
Qed.

Lemma safe_upd_ctx h P f `{!H3Stable P} : (∀ w, P w -> ctx_in h w) -> h <> 0 ->
  sf 0 P (upd_h3 h f) (λ _, P).
Proof using Type.
  intros H Hn. apply safe_h3mem. intros w HP. destruct (H w HP Hn) as [c Ec].
  unfold upd_h3. rewrite Ec. eexists _, _. split; [done|]. split; [done|]. split; [done|].
  apply (h3_stable w); [|done|done|exact HP]. split; [done|]. intros k. apply is_some_insert.
Qed.

(** The session's fields but its datagram ring. *)
Lemma safe_upd_s s l sc st P f : (∀ w, P w -> alive s l sc st w) ->
  (∀ y, ws_dgram_ring (f y) = ws_dgram_ring y ∧ (ws_h3_ctx (f y) = ws_h3_ctx y ∨ ws_h3_ctx (f y) = 0)) ->
  (∀ w o, P w -> alive s l sc st (set_objs o w) -> P (set_objs o w)) ->
  sf 0 P (upd_s s f) (λ _, P).
Proof using Type.
  intros H Hf HP g w I _ Hp. pose proof (H w Hp) as ((y & Ey & Hh) & Hl & Hs).
  destruct (Hf y) as [Er Ec]. eexists tt, _. split.
  { unfold upd_s, mbind, M_bind, bind, read_s. rewrite Ey. done. }
  exists g. split; [|split; [apply wgrows_refl|]].
  - unfold winv in *. change (res_of (set_objs _ w)) with (res_of w). cbn [w_wt set_objs w_set_wt wt_objs].
    eapply inv_ext; [| |exact I]; intros p; unfold with_links, with_rings; cbn;
      rewrite (objs_sum_update _ _ _ _ _ Ey); cbn; rewrite ?Er; lia.
  - apply HP; [done|]. cbn. split.
    + exists (f y). split; [apply lookup_insert_eq|]. intros Hn. cbn.
      destruct Ec as [-> |Ec]; [|by rewrite Ec in Hn]. apply Hh. by destruct (Hf y) as [_ [<- | ?]]; [|congruence].
    + split; [|done]. intros Hn. destruct (Hl Hn) as (k & Ek & ?). exists k. split; [|done]. cbn.
      rewrite lookup_insert_ne; [done|]. intros ->. congruence.
Qed.

Lemma safe_ex {A B} n (P : B -> world -> Prop) (m : M A) Q : (∀ b, sf n (P b) m Q) ->
  sf n (λ w, ∃ b, P b w) m Q.
Proof using Type. intros H g w I Hr [b HP]. by apply (H b). Qed.

Lemma safe_drop {A} n P (m : M A) Q : sf n P m Q -> sf n P m (λ _ _, True).
Proof using Type. intros H. by eapply safe_post. Qed.

Lemma safe_end {A} (a : A) P : sf 0 P (ret a) (λ _ _, True).
Proof using Type. eapply safe_drop, safe_ret. Qed.

Lemma safe_read_link s l sc st : l <> 0 ->
  sf 0 (alive s l sc st) (read_link l wl_sc) (λ c w, c = sc ∧ alive s l sc st w).
Proof using Type.
  intros Hn. apply safe_h3mem. intros w HP. pose proof HP as (_ & Hl & _).
  destruct (Hl Hn) as (k & Ek & _ & Esc). unfold read_link. rewrite Ek. by eexists _, _.
Qed.

Lemma wp_keeps {A B} (f : world -> B) (m : M A) Φ w : keeps f m -> wp m Φ w ->
  wp m (λ a w', Φ a w' ∧ f w' = f w) w.
Proof using Type. intros Hk (a & w' & E & H). exists a, w'. split; [done|]. split; [done|]. by eapply Hk. Qed.

Lemma sp_sc_create_wt y yd g w : inv y yd g (res_of w) ->
  wp (sc_create ev) (λ q w', w_wt w' = w_wt w ∧
    (q = 0 ∧ inv y yd g (res_of w') ∨ q <> 0 ∧ inv (inc y q) yd g (res_of w'))) w.
Proof using Eok.
  intros I.
  assert (Hw : wp (sc_create ev) (λ q w', q = 0 ∧ inv y yd g (res_of w') ∨
    q <> 0 ∧ inv (inc y q) yd g (res_of w')) w).
  { unfold sc_create. apply wp_idle; [idle_tac|]. intros t w1 E1. rewrite <- E1 in I.
    eapply wp_mono; [apply (sp_create y g w1 _ I), (eo_sc _ Eok)|].
    intros q w' [-> [[? ?]|(? & _ & ?)]]; auto. }
  eapply wp_mono; [apply (wp_keeps w_wt); [|exact Hw]|].
  - unfold sc_create. keeps_tac. intros w1 q w2 E. destruct (aiopquic_stream_ctx_create _ _).
    by injection E as _ <-.
  - by intros q w' [? ?].
Qed.

(** A new link on the session. *)
Lemma safe_link_create s l sc st id :
  sf 0 (alive s l sc st) (aiopquic_wt_stream_link_create ev s id)
    (λ link w, alive s l sc st w ∧ (link <> 0 -> ∃ sc', alive s link sc' st w)).
Proof using Eok Hok.
  intros g w I _ HP. unfold aiopquic_wt_stream_link_create.
  assert (D : ∀ w', w_wt w' = w_wt w -> winv x xd g w' ->
    ∃ g', winv x xd g' w' ∧ wgrows 0 0 g g' ∧ alive s l sc st w' ∧ (0 <> 0 -> ∃ sc', alive s 0 sc' st w')).
  { intros w' Ew I'. exists g. split; [done|]. split; [apply wgrows_refl|]. split; [|done].
    unfold alive, sts in *. by rewrite Ew. }
  unfold wt_calloc. apply wp_bind, wp_bind. eexists _, _. split; [done|]. apply wp_get.
  set (w1 := w_set_tick _ w). change (wt_objs (w_wt w1)) with (wt_objs (w_wt w)).
  pose proof (ho_fresh ev Hok (w_tick w) (wt_objs (w_wt w))) as Ha. set (a := ev_wt ev _ _) in *.
  destruct (Z.eqb_spec a 0) as [Hz|Hz]; [apply wp_ret; by apply D|].
  destruct Ha as [?|Ha]; [done|]. apply wp_bind.
  eapply wp_mono; [apply (sp_sc_create_wt _ _ g w1 I)|]. intros q w2 [Ew [[-> I2]|[Hq I2]]].
  { apply wp_ret. apply D; [done|]. unfold winv. by rewrite Ew. }
  rewrite (proj2 (Z.eqb_neq q 0) Hq). apply wp_bind.
  assert (Hcnt : wp (when (negb (s =? 0)) (count CNT_SC_CREATE_WT_LINK))
    (λ _ w', res_of w' = res_of w2 ∧ w_wt w' = w_wt w2) w2).
  { apply wp_keeps; [keeps_tac|]. apply idle_when; [idle_tac|]. auto. }
  eapply wp_mono; [exact Hcnt|]. intros [] w3 [Er3 Ew3]. apply wp_bind. eexists tt, _. split; [done|].
  apply wp_ret. exists g. change (w_wt w1) with (w_wt w) in Ew. set (k := WtLink s q id). split.
  - unfold winv. change (res_of (set_objs _ w3)) with (res_of w3). rewrite Er3. cbn. rewrite Ew3, Ew.
    eapply inv_ext; [| |exact I2]; intros p; unfold with_links, with_rings, inc;
      rewrite (objs_sum_insert _ _ _ _ Ha); cbn; [rewrite (Z.eqb_sym q p)|]; lia.
  - split; [apply wgrows_refl|]. destruct HP as ((y & Ey & Hh) & Hl & Hs).
    assert (Hsa : s <> a) by congruence.
    assert (Hses : alive s a q st (set_objs (<[a := ObjLink k]> (wt_objs (w_wt w3))) w3)).
    { unfold alive, sts. cbn. rewrite Ew3, Ew. split.
      - exists y. rewrite lookup_insert_ne by done. done.
      - split; [|done]. intros _. exists k. by rewrite lookup_insert_eq. }
    split; [|intros _; by exists q].
    unfold alive, sts. cbn. rewrite Ew3, Ew. split; [exists y; by rewrite lookup_insert_ne|].
    split; [|done]. intros Hn. destruct (Hl Hn) as (k' & Ek & ?). exists k'. split; [|done].
    rewrite lookup_insert_ne; [done|congruence].
Qed.

(** *** Events *)

Lemma safe_if0 {A} n P (b : bool) (m m' : M A) Q : sf n P m Q -> sf n P m' Q ->
  sf n P (if b then m else m') Q.
Proof using Type. by destruct b. Qed.

Lemma safe_push_event s l sc st P `{!Framed P} t id code data : (∀ w, P w -> alive s l sc st w) ->
  aiopquic_rx_event_owns_sc (evt_code t) = false ->
  sf 1 P (aiopquic_wt_push_event ev s t id code data) (λ _, P).
Proof using Eok.
  intros HP Ht. unfold aiopquic_wt_push_event.
  eapply safe_bind0; [lia|by apply (safe_get s l sc st)|intros cnx; cbn beta].
  change 1 with (1 + 0). eapply safe_bind; [lia|lia|by apply safe_push|intros rc; cbn beta].
  apply safe_when; [lia|]. intros _. safe_still.
Qed.

(** An event without bytes of its own; [q] is borrowed. *)
Lemma safe_push_entry {A} s l sc st P `{!Framed P} t id code fin q (k : Z -> M A) :
  (∀ w, P w -> alive s l sc st w) -> aiopquic_rx_event_owns_sc (evt_code t) = false ->
  (∀ rc, sf 0 P (k rc) (λ _, P)) ->
  sf 1 P (cnx ← read_s s ws_cnx;
          rc ← aiopquic_rx_push ev (wt_entry s cnx t id code fin q) []; k rc) (λ _, P).
Proof using Eok.
  intros HP Ht Hk. eapply safe_bind0; [lia|by apply (safe_get s l sc st)|intros cnx; cbn beta].
  change 1 with (1 + 0). eapply safe_bind; [lia..| |exact Hk].
  apply safe_push; try done. intros _. unfold entry_owns. cbn. by rewrite andb_false_r.
Qed.

Lemma safe_unit P `{!Framed P} : sf 0 P (ret tt) (λ _, P).
Proof using Type. eapply safe_post; [apply safe_ret|]. by intros a w [_ ?]. Qed.

Lemma safe_push_new_stream s l sc st P `{!Framed P} id q : (∀ w, P w -> alive s l sc st w) ->
  sf 1 P (aiopquic_wt_push_new_stream ev s id q) (λ _, P).
Proof using Eok. intros HP. apply (safe_push_entry s l sc st); try done. intros _. by apply safe_unit. Qed.

Lemma safe_push_link_release s l sc st P `{!Framed P} id q : (∀ w, P w -> alive s l sc st w) ->
  sf 1 P (aiopquic_wt_push_link_release ev s id q) (λ _, P).
Proof using Eok. intros HP. apply (safe_push_entry s l sc st); try done. intros _. by apply safe_unit. Qed.

Lemma safe_push_stream_destroy s l sc st P `{!Framed P} id : (∀ w, P w -> alive s l sc st w) ->
  sf 1 P (aiopquic_wt_push_stream_destroy ev s id) (λ _, P).
Proof using Eok.
  intros HP. unfold aiopquic_wt_push_stream_destroy.
  eapply safe_bind0; [lia|by apply (safe_get s l sc st)|intros cnx; cbn beta]. by apply safe_push.
Qed.

(** *** The wrapper of the link *)

Lemma safe_upd_sc s l sc st F : l <> 0 -> (∀ T c, tx_ok T c -> rx_sound c ->
    sc_refcount (F c) = sc_refcount c ∧ sc_tx (F c) = sc_tx c ∧ rx_sound (F c) ∧
    0 <= sc_tx_reliable_size (F c) < 2 ^ 64) ->
  sf 0 (alive s l sc st) (upd_sc sc F) (λ _, alive s l sc st).
Proof using X0.
  intros Hn HF g w I Hr HP. pose proof (alive_refs X0 _ _ _ _ _ _ I HP Hn) as Hp.
  destruct (sp_update I sc F Hp (HF _)) as ([] & w' & E & I').
  assert (Ew : w_wt w' = w_wt w) by (eapply (quiet_wt (upd_sc sc F)); [apply quiet_upd_sc|exact E]).
  exists tt, w'. split; [done|]. exists g. unfold winv. rewrite Ew. split; [done|].
  split; [apply wgrows_refl|]. unfold alive, sts in *. by rewrite Ew.
Qed.

Lemma safe_flag s l sc st F : l <> 0 ->
  (∀ c, sc_refcount (F c) = sc_refcount c ∧ sc_tx (F c) = sc_tx c ∧ sc_rx (F c) = sc_rx c ∧
    sc_tx_reliable_size (F c) = sc_tx_reliable_size c) ->
  sf 0 (alive s l sc st) (upd_sc sc F) (λ _, alive s l sc st).
Proof using X0.
  intros Hn HF. apply safe_upd_sc; [done|]. intros T c Ht Hr. destruct (HF c) as (?&?&?&?).
  by eapply keeps_flags.
Qed.

Lemma safe_read_sc {A} s l sc st P (f : stream_ctx -> A) : (∀ w, P w -> alive s l sc st w) -> l <> 0 ->
  sf 0 P (read_sc sc f) (λ _, P).
Proof using X0.
  intros H Hn g w I _ HP. pose proof (alive_refs X0 _ _ _ _ _ _ I (H _ HP) Hn) as Hp.
  apply (sp_read I); [done|]. intros c _ _. exists g. split; [done|]. split; [apply wgrows_refl|done].
Qed.

(** Several fields and a value: the atomic exchanges of the flags. *)
Lemma safe_sc_val {A} s l sc st (f : stream_ctx -> A * stream_ctx) : l <> 0 ->
  (∀ T c, tx_ok T c -> rx_sound c ->
    sc_refcount (f c).2 = sc_refcount c ∧ sc_tx (f c).2 = sc_tx c ∧ rx_sound (f c).2 ∧
    0 <= sc_tx_reliable_size (f c).2 < 2 ^ 64) ->
  sf 0 (alive s l sc st) (on_sc_val (λ s, c ← sw_scs s !! sc; let (b, c) := f c in
        Some (b, ScWorld (<[sc := c]> (sw_scs s)) (sw_g s)))) (λ _, alive s l sc st).
Proof using X0.
  intros Hn HF. apply safe_lift; [apply quiet_wt, quiet_on_sc_val|]. intros y yd g w I Ey Ed _ HP.
  assert (Iw : winv x xd g w) by (by subst).
  pose proof (alive_refs X0 _ _ _ _ _ _ Iw HP Hn) as Hp. rewrite <- Ey in Hp.
  eapply wp_mono; [apply (sp_sc_val y g w sc f I Hp (HF _))|]. intros a w' I'. exists g.
  split; [done|]. split; [apply wgrows_refl|]. intros Ew. unfold alive, sts in *. by rewrite Ew.
Qed.

Lemma safe_push_event_with_sc s l sc st t id fin : l <> 0 ->
  aiopquic_rx_event_owns_sc (evt_code t) = false ->
  sf 1 (alive s l sc st) (aiopquic_wt_push_event_with_sc ev s t id sc fin) (λ _, alive s l sc st).
Proof using Eok X0.
  intros Hn Ht. unfold aiopquic_wt_push_event_with_sc. cbv zeta.
  eapply safe_bind0; [lia| |intros win; cbn beta].
  { apply (safe_if0 _ _ _ _ _ (λ _, alive s l sc st)).
    - apply (safe_sc_val s l sc st aiopquic_stream_ctx_rx_event_pending_arm Hn).
      intros T c Htx Hrx. by apply (keeps_flags (sc_set_rx_event_pending 1) T).
    - eapply safe_post; [apply safe_ret|]. by intros a w [_ ?]. }
  apply safe_if0; [safe_still|].
  apply (safe_push_entry s l sc st (alive s l sc st)); try done. intros rc. apply safe_when; [lia|]. intros _.
  eapply safe_bind0; [lia|safe_still|intros []; cbn beta]. by apply safe_flag.
Qed.

(** *** The callbacks of the session *)

Lemma safe_set s l sc st f :
  (∀ y, ws_dgram_ring (f y) = ws_dgram_ring y ∧ (ws_h3_ctx (f y) = ws_h3_ctx y ∨ ws_h3_ctx (f y) = 0)) ->
  sf 0 (alive s l sc st) (upd_s s f) (λ _, alive s l sc st).
Proof using Type. intros Hf. by apply (safe_upd_s s l sc st). Qed.

Lemma safe_field {A} s l sc st (f : wt_session -> A) :
  sf 0 (alive s l sc st) (read_s s f) (λ _, alive s l sc st).
Proof using Type. by apply (safe_get s l sc st). Qed.

(** A field of the stream, when there is one. *)
Lemma safe_st_field {A} s l sc st (f : h3_stream -> A) d :
  sf 0 (alive s l sc st) (if st =? 0 then ret d else read_st st f) (λ _, alive s l sc st).
Proof using Type.
  apply safe_if; intros E; [safe_still|]. apply Z.eqb_neq in E. by apply (safe_read_st s l sc st).
Qed.

Lemma safe_strdup s l sc st src : sf 0 (alive s l sc st) (aiopquic_wt_strdup ev src) (λ _, alive s l sc st).
Proof using Type. unfold aiopquic_wt_strdup. destruct src; safe_still. Qed.
End ops.


Ltac sbind := eapply safe_bind0; [lia| |intros ?; cbn beta].
Ltac sset := apply safe_set; intros ?; cbn; auto.

Section callbacks.
Context {ev : env} (Eok : env_ok ev) (Hok : h3_ok ev).
Context {x xd : Z -> Z} (X0 : ∀ p, 0 <= x p) (XD0 : ∀ p, 0 <= xd p).
Abbreviation sf := (safe (x := x) (xd := xd)).
Context (s l sc st : Z).
Abbreviation A := (alive s l sc st).

Lemma safe_then_end {B} n P (m : M B) (k : Z) Q : 0 <= n -> sf n P m Q ->
  sf n P (m ;; ret k) (λ _ _, True).
Proof using Type.
  intros Hn Hm. replace n with (n + 0) by lia. eapply safe_bind; [done|lia|exact Hm|].
  intros b. apply safe_end.
Qed.

Lemma safe_seq {B C} n (m : M B) (k : B -> M C) Q : 0 <= n -> sf n A m (λ _, A) ->
  (∀ b, sf 0 A (k b) Q) -> sf n A (b ← m; k b) Q.
Proof using Type. intros Hn Hm Hk. replace n with (n + 0) by lia. by eapply safe_bind. Qed.

Lemma safe_seq2 {B C} (m : M B) (k : B -> M C) Q : sf 1 A m (λ _, A) ->
  (∀ b, sf 1 A (k b) Q) -> sf 2 A (b ← m; k b) Q.
Proof using Type. intros Hm Hk. change 2 with (1 + 1). by eapply safe_bind. Qed.

Lemma safe_announce t id code data : aiopquic_rx_event_owns_sc (evt_code t) = false ->
  sf 1 A (aiopquic_wt_push_event ev s t id code data) (λ _, A).
Proof using Eok. intros Ht. by apply (safe_push_event Eok s l sc st A). Qed.

Lemma safe_maybe_close cnx : sf 0 A (aiopquic_wt_maybe_close_cnx ev s cnx) (λ _, A).
Proof using Type.
  unfold aiopquic_wt_maybe_close_cnx. apply safe_if0; [safe_still|].
  sbind; [safe_still|]. sbind; [apply safe_field|]. sbind; [apply safe_field|].
  apply safe_if0; [safe_still|]. sbind; [safe_still|]. sbind; [apply safe_field|].
  cbv zeta. sbind; [apply safe_field|]. apply safe_when; [lia|]. intros _.
  sbind; [sset|]. safe_still.
Qed.

Lemma safe_connect_accepted cnx : sf 1 A (cb_connect_accepted ev s cnx st) (λ _ _, True).
Proof using Eok.
  unfold cb_connect_accepted. sbind; [sset|]. sbind; [apply safe_st_field|].
  sbind; [apply safe_when; [lia|intros _]; sbind; [apply safe_strdup|sset]|].
  sbind; [safe_still|]. sbind; [apply safe_when; [lia|intros _]; safe_still|].
  sbind; [safe_still|]. sbind; [apply safe_field|].
  eapply safe_then_end; [lia|]. by apply safe_announce.
Qed.

Lemma safe_drain : sf 1 A (cb_drain ev s) (λ _ _, True).
Proof using Eok.
  unfold cb_drain. sbind; [apply safe_field|]. eapply safe_then_end; [lia|]. by apply safe_announce.
Qed.

Lemma safe_announce_closed code msg : sf 1 A (announce_closed ev s code msg) (λ _, A).
Proof using Eok.
  unfold announce_closed. sbind; [apply safe_field|].
  eapply safe_seq; [lia| |intros ?; sset].
  apply safe_when; [lia|]. intros _. sbind; [apply safe_field|]. by apply safe_announce.
Qed.

Lemma safe_receive_capsule cnx data : sf 0 A (receive_capsule ev s cnx data) (λ _, A).
Proof using Type.
  unfold receive_capsule. sbind; [safe_still|]. sbind; [safe_still|]. sbind; [sset|]. safe_still.
Qed.

Lemma safe_control_data cnx data : sf 1 A (cb_control_data ev s cnx data) (λ _ _, True).
Proof using Eok.
  unfold cb_control_data. sbind; [apply safe_receive_capsule|]. sbind; [apply safe_field|].
  eapply safe_then_end; [lia|]. apply safe_when; [lia|]. intros _. eapply safe_seq; [lia| |intros ?; sbind; [safe_still|sset]].
  apply safe_if0; [apply safe_announce_closed|]. apply safe_when; [lia|]. intros _.
  sbind; [apply safe_field|]. by apply safe_announce.
Qed.

Lemma safe_control_fin cnx length data : sf 1 A (cb_control_fin ev s cnx length data) (λ _ _, True).
Proof using Eok.
  unfold cb_control_fin. sbind; [apply safe_if0; [apply safe_receive_capsule|safe_still]|].
  sbind; [apply safe_field|]. cbv zeta.
  eapply safe_seq; [lia|apply safe_announce_closed|intros ?].
  eapply safe_then_end; [lia|]. unfold aiopquic_wt_peer_fin. sbind; [sset|]. apply safe_maybe_close.
Qed.

Lemma safe_deregister : sf 1 A (cb_deregister ev s) (λ _ _, True).
Proof using Eok.
  unfold cb_deregister. sbind; [apply safe_field|].
  eapply safe_seq; [lia| |intros ?; eapply safe_then_end; [lia|sset]].
  apply safe_when; [lia|]. intros _. sbind; [apply safe_field|].
  eapply safe_seq; [lia|by apply safe_announce|intros ?; sset].
Qed.

(** *** The retry *)

Lemma safe_h3_ c P `{!H3Stable P} : (∀ tr m, h3_grows m (ev_h3 ev tr c m)) ->
  sf 0 P (h3_ ev c) (λ _, P).
Proof using Type.
  intros Hg. unfold h3_. eapply safe_bind0; [lia|by apply safe_h3|intros a; cbn beta].
  eapply safe_post; [apply safe_ret|]. by intros b w [_ ?].
Qed.

Lemma safe_drop_retry st' h : sf 0 (λ w, alive s l sc st' w ∧ ctx_in h w) (aiopquic_wt_drop_retry s)
  (λ _ w, alive s l sc st' w ∧ ctx_in h w).
Proof using Type.
  apply (safe_upd_s s l sc st'); [by intros w [? _]|by auto|]. by intros w o [_ ?] ?.
Qed.

(** The CONNECT on a new stream. *)
Lemma safe_new_control cnx h st' : h <> 0 ->
  sf 0 (λ w, alive s l sc st' w ∧ ctx_in h w)
    (second_connect ev s cnx h)
    (λ _ w, ∃ c, alive s l sc c w ∧ ctx_in h w).
Proof using Hok.
  intros Hh. unfold second_connect.
  apply (safe_bind0 0 _ _ _ (λ c w, alive s l sc c w ∧ ctx_in h w)); [lia| |intros c].
  { apply safe_h3mem. intros w HP. eexists _, _. split; [done|]. split; [done|]. split; [done|].
    set (call := PicowtSetControlStream cnx h).
    destruct (ho_grows ev Hok (w_trace w) call (wt_h3 (w_wt w))) as [Gs Gc].
    destruct HP as [((y & Ey & Hy) & Hl & Hs) Hc]. split; [split; [|split]|].
    - exists y. split; [done|]. intros Hn. by apply Gc, Hy.
    - done.
    - intros Hn. by apply (ho_control ev Hok (w_trace w) cnx h (wt_h3 (w_wt w))).
    - intros Hn. by apply Gc, Hc. }
  assert (Hset : ∀ f, (∀ y, ws_dgram_ring (f y) = ws_dgram_ring y ∧
      (ws_h3_ctx (f y) = ws_h3_ctx y ∨ ws_h3_ctx (f y) = 0)) ->
    sf 0 (λ w, alive s l sc c w ∧ ctx_in h w) (upd_s s f) (λ _ w, alive s l sc c w ∧ ctx_in h w)).
  { intros f Hf. apply (safe_upd_s s l sc c); [by intros w [? _]|done|]. by intros w o [_ ?] ?. }
  assert (Hget : ∀ B (f : wt_session -> B), sf 0 (λ w, alive s l sc c w ∧ ctx_in h w) (read_s s f)
    (λ _ w, alive s l sc c w ∧ ctx_in h w)).
  { intros B f. apply (safe_get s l sc c). by intros w [? _]. }
  apply safe_if; intros Ec.
  { eapply safe_post; [apply safe_ret|]. intros b w [_ ?]. by exists c. }
  apply Z.eqb_neq in Ec. sbind; [apply Hset; intros ?; cbn; auto|].
  sbind; [apply (safe_read_st s l sc c); [by intros w [? _]|done]|].
  sbind; [apply Hset; intros ?; cbn; auto|].
  sbind; [apply safe_upd_ctx; [exact _|by intros w [_ ?]|done]|].
  do 3 (sbind; [apply Hget|]).
  eapply safe_post; [apply safe_h3; [exact _|]|].
  - intros tr m. apply (ho_grows ev Hok tr (PicowtConnect _ _ _ _ _ _ _)).
  - intros b w ?. by exists c.
Qed.

Lemma safe_unhook cnx h old_id : st <> 0 -> 
  sf 0 (λ w, A w ∧ ctx_in h w)
    (unhook_connect ev cnx h st old_id)
    (λ _ w, alive s l sc 0 w ∧ ctx_in h w).
Proof using Hok.
  intros Hst. unfold unhook_connect.
  sbind; [apply safe_h3_; [exact _|]; intros tr m; apply (ho_grows ev Hok tr (PicowtUncountSession _ _))|].
  do 2 (sbind; [apply (safe_upd_st s l sc st); [exact _|by intros w [? _]|done]|]).
  apply (safe_bind0 0 _ _ _ (λ p w, (A w ∧ ctx_in h w) ∧
    (p <> 0 -> is_Some (hm_prefixes (wt_h3 (w_wt w)) !! p)))); [lia| |intros p].
  { apply safe_h3mem. intros w HP. eexists _, _. split; [done|]. split; [done|]. split; [done|]. split.
    - apply (h3_stable (P := λ w, A w ∧ ctx_in h w) w); [|done|done|exact HP].
      apply (ho_grows ev Hok (w_trace w) (H3FindStreamPrefix h old_id)).
    - intros Hn. destruct (ho_prefix ev Hok (w_trace w) h old_id (wt_h3 (w_wt w)) Hn) as (z & Ez & _).
      by exists z. }
  apply (safe_bind0 0 _ _ _ (λ _ w, A w ∧ ctx_in h w)); [lia| |intros []].
  { apply safe_if; intros Ep.
    - apply negb_true_iff, Z.eqb_neq in Ep. apply safe_h3mem. intros w [HP Hp].
      destruct (Hp Ep) as [z Ez]. unfold upd_px. rewrite Ez. eexists _, _. split; [done|].
      split; [done|]. split; [done|]. by apply (h3_stable (P := λ w, A w ∧ ctx_in h w) w).
    - eapply safe_post; [apply safe_ret|]. by intros b w [_ [? _]]. }
  unfold h3_. apply (safe_bind0 0 _ _ _ (λ _ w, alive s l sc 0 w ∧ ctx_in h w)); [lia| |intros b].
  - apply safe_h3mem. intros w [((y & Ey & Hy) & Hl & Hs) Hc]. eexists _, _.
    split; [done|]. split; [done|]. split; [done|]. split; [split; [|split]|].
    + exists y. split; [done|]. intros Hn. by apply (ho_delete ev Hok), Hy.
    + done.
    + done.
    + intros Hn. by apply (ho_delete ev Hok), Hc.
  - eapply safe_post; [apply safe_ret|]. by intros c w [_ ?].
Qed.

Lemma safe_retry_go cnx h : h <> 0 -> st <> 0 ->
  sf 1 (λ w, A w ∧ ctx_in h w) (retry_connect_go ev s cnx h st) (λ _ _, True).
Proof using Eok Hok.
  intros Hh Hst. unfold retry_connect_go.
  sbind; [apply (safe_get s l sc st); by intros w [? _]|]. sbind; [by apply safe_unhook|].
  sbind; [safe_still|]. sbind; [apply (safe_get s l sc 0); by intros w [? _]|].
  sbind; [apply safe_when; [lia|intros _]; apply (safe_upd_s s l sc 0);
    [by intros w [? _]|intros ?; cbn; auto|by intros w o [_ ?] ?]|].
  sbind; [by apply safe_new_control|]. apply safe_ex. intros c.
  sbind; [apply safe_drop_retry|].
  eapply safe_post; [apply safe_when; [lia|intros _]|done].
  sbind; [apply (safe_get s l sc c); by intros w [? _]|].
  apply (safe_push_event Eok s l sc c); [exact _|by intros w [? _]|done].
Qed.

(** A retry that happened ends the callback; otherwise nothing changed. *)
Lemma safe_retry cnx : sf 1 A (aiopquic_wt_retry_connect ev s cnx st)
  (λ b w, b = false -> A w).
Proof using Eok Hok.
  unfold aiopquic_wt_retry_connect. sbind; [apply safe_read_h3ctx|].
  assert (Hget : ∀ B (f : wt_session -> B), sf 0 (λ w, A w ∧ ctx_in a w) (read_s s f)
    (λ _ w, A w ∧ ctx_in a w)).
  { intros B f. apply (safe_get s l sc st). by intros w [? _]. }
  assert (Hno : sf 1 (λ w, A w ∧ ctx_in a w) (ret false) (λ b w, b = false -> A w)).
  { apply safe_le0; [lia|]. eapply safe_post; [apply safe_ret|]. by intros b w [_ [? _]] _. }
  do 3 (sbind; [apply Hget|]). apply safe_if; intros Eg; [exact Hno|].
  rewrite !orb_false_iff in Eg. destruct Eg as [[_ Ea%Z.eqb_neq] Est%Z.eqb_neq].
  sbind; [apply (safe_read_st s l sc st); [by intros w [? _]|done]|]. sbind; [apply Hget|].
  apply safe_if0; [exact Hno|]. sbind; [apply safe_read_ctx; [by intros w [_ ?]|done]|].
  apply safe_if0; [exact Hno|].
  replace 1 with (1 + 0) by lia. eapply safe_bind; [lia|lia|by apply safe_retry_go|].
  intros b. eapply safe_post; [apply safe_ret|]. by intros c w [-> _].
Qed.

(** A retry when [c], then the rest. *)
Lemma safe_unless_retry {B} (c : bool) cnx n (k : bool -> M B) Q : 0 <= n ->
  sf 0 (λ _, True) (k true) Q -> sf n A (k false) Q ->
  sf (n + 1) A (retried ← (if c then aiopquic_wt_retry_connect ev s cnx st else ret false); k retried) Q.
Proof using Eok Hok.
  intros Hn Ht Hf. replace (n + 1) with (1 + n) by lia.
  eapply (safe_bind 1 n _ _ _ (λ b w, b = false -> A w)); [lia|lia| |].
  - apply safe_if0; [apply safe_retry|]. apply safe_le0; [lia|].
    eapply safe_post; [apply safe_ret|]. by intros b w [_ ?].
  - intros [|].
    + apply safe_le0; [done|]. eapply safe_pre; [exact Ht|done].
    + eapply safe_pre; [exact Hf|]. auto.
Qed.

Lemma safe_connect_refused cnx : sf 2 A (cb_connect_refused ev s cnx st) (λ _ _, True).
Proof using Eok Hok.
  unfold cb_connect_refused. apply (safe_unless_retry true cnx 1); [lia|apply safe_end|].
  sbind; [apply safe_field|]. sbind; [apply safe_st_field|]. eapply safe_then_end; [lia|].
  by apply safe_announce.
Qed.

Lemma safe_reset cnx sid is_control : sf 2 A (cb_reset ev s cnx st sid is_control) (λ _ _, True).
Proof using Eok Hok.
  unfold cb_reset. apply (safe_unless_retry is_control cnx 1); [lia|apply safe_end|].
  destruct is_control.
  - sbind; [apply safe_field|]. eapply safe_seq; [lia| |intros ?].
    + apply safe_when; [lia|]. intros _. sbind; [apply safe_field|]. sbind; [safe_still|].
      by apply safe_announce.
    + sbind; [sset|]. eapply safe_then_end; [lia|]. unfold aiopquic_wt_peer_fin.
      sbind; [sset|]. apply safe_maybe_close.
  - sbind; [safe_still|]. eapply safe_then_end; [lia|]. by apply safe_announce.
Qed.

Lemma safe_stop_sending cnx sid is_control :
  sf 2 A (cb_stop_sending ev s cnx st sid is_control) (λ _ _, True).
Proof using Eok Hok.
  unfold cb_stop_sending. apply (safe_unless_retry is_control cnx 1); [lia|apply safe_end|].
  sbind; [safe_still|]. eapply safe_then_end; [lia|]. by apply safe_announce.
Qed.

Lemma safe_free sid is_control : sf 2 A (cb_free ev s l st sid is_control) (λ _ _, True).
Proof using Eok.
  unfold cb_free. sbind; [apply safe_field|].
  sbind; [apply safe_when; [lia|intros _]; sbind; [sset|safe_still]|].
  sbind; [apply (safe_if _ _ _ _ _ (λ _, A)); intros E; [|safe_still]|].
  { apply andb_true_iff in E as [_ E%negb_true_iff%Z.eqb_neq]. by apply (safe_read_st s l sc st). }
  apply safe_if; intros E.
  - apply andb_true_iff in E as [[_ E%negb_true_iff%Z.eqb_neq]%andb_true_iff _].
    sbind; [apply (safe_upd_st s l sc st A); first [exact _|done]|].
    eapply safe_seq2; [by apply (safe_push_stream_destroy Eok s l sc st A)|intros rc].
    eapply safe_then_end; [lia|]. apply safe_when; [lia|]. intros _.
    by apply (safe_push_link_release Eok s l sc st A).
  - apply safe_le0; [lia|]. eapply safe_then_end; [lia|]. apply safe_when; [lia|]. intros _. safe_still.
Qed.

(** *** Datagrams *)

Definition ring_at (db : Z) (b : dgram_buf) (w : world) : Prop := rs_rings (w_rs w) !! db = Some b.

#[local] Instance ring_at_framed db b : Framed (ring_at db b).
Proof using Type. intros w w' [E _] _. unfold ring_at. by rewrite E. Qed.
#[local] Instance ring_at_h3 db b : H3Stable (ring_at db b).
Proof using Type. intros w w' _ _ E. apply frame_res in E as [E _]. unfold ring_at. by rewrite E. Qed.

Lemma safe_on_db {B} db b b' (f : dgram_buf -> option (B * dgram_buf)) (a : B) :
  f b = Some (a, b') -> db_refcnt b' = db_refcnt b -> db_sound b' ->
  sf 0 (λ w, A w ∧ ring_at db b w) (on_db db f) (λ r w, r = a ∧ A w ∧ ring_at db b' w).
Proof using Type.
  intros Ef Ec Hb. apply safe_lift; [apply quiet_wt, quiet_on_db|].
  intros y yd g w I _ _ _ [HA HR]. apply (sp_on_db (xd := yd) y g w db b b' f a); try done.
  intros w' I' R'. exists g. split; [done|]. split; [apply wgrows_refl|]. intros Ew.
  split; [done|]. split; [|exact R']. unfold alive, sts in *. by rewrite Ew.
Qed.

(** The ring a session holds is live. *)
Lemma safe_open_ring {B} n db (m : M B) Q : db <> 0 ->
  (∀ b H recs, db_rep b H recs -> sf n (λ w, A w ∧ ring_at db b w) m Q) ->
  sf n (λ w, A w ∧ ∃ y, wt_objs (w_wt w) !! s = Some (ObjSession y) ∧ db = ws_dgram_ring y) m Q.
Proof using XD0.
  intros Hdb Hm g w I Hr [HA (y & Ey & Ed)].
  assert (Hp : 0 < db_refs (with_rings xd (wt_objs (w_wt w))) g db).
  { unfold db_refs, with_rings. pose proof (objs_sum_ge (ring_holds db) _ _ _ (ring_holds_nonneg db) Ey) as Hge.
    cbn in Hge. rewrite <- Ed, Z.eqb_refl, (proj2 (Z.eqb_neq _ _) Hdb) in Hge. cbn in Hge.
    specialize (XD0 db). pose proof (lsum_nonneg (rel_ref db) (g_tx g) (λ e, proj1 (holds_range _ _ e))).
    pose proof (lsum_nonneg (owed_ref db) (g_owed g) (λ e, c_bool_nonneg _)). lia. }
  destruct (iv_db _ _ _ _ I) as [(m' & _ & O) _ _ _ Hs]. pose proof (refs_range m' db).
  destruct (rs_some O db) as (b & E & _); [lia|]. destruct (Hs db b E) as (H' & recs & R).
  apply (Hm b H' recs R g w I Hr). by split.
Qed.

Lemma safe_ring_signal db b H recs cnx : db_rep b H recs ->
  sf 1 (λ w, A w ∧ ring_at db b w)
    (take ← on_db db (λ b, Some (aiopquic_dgram_buf_drain_take b));
     when take
       (rc ← aiopquic_rx_push ev (wt_entry s cnx SPSC_EVT_DATAGRAM_TX_DRAINED 0 0 0 0) [];
        when (negb (rc =? 0)) (on_db db (λ b, Some (tt, db_set_drain b 1))))) (λ _ _, True).
Proof using Eok.
  intros R. eapply safe_bind0; [lia| |intros take].
  { apply safe_on_db; [done|done|]. exists H, recs. by apply db_rep_drain. }
  cbn beta. apply safe_pure. intros _.
  assert (He : sf 0 (λ w, A w ∧ ring_at db (db_set_drain b 0) w) (ret tt) (λ _ _, True)) by apply safe_end.
  apply safe_if0; [|by apply safe_le0]. replace 1 with (1 + 0) by lia.
  eapply safe_bind; [lia|lia|by apply (safe_push ev _ _ (λ w, A w ∧ ring_at db (db_set_drain b 0) w))|intros rc].
  cbn beta. apply safe_if0; [|apply safe_end]. eapply safe_drop, safe_on_db; [done|done|].
  exists H, recs. by do 2 apply db_rep_drain.
Qed.

Lemma safe_provide_none {B} P `{!H3Stable P} bytes more (k : B) : 
  sf 0 P (h3_ ev (H3ProvideDatagramBuffer bytes 0 more) ;; ret k) (λ _ _, True).
Proof using Hok.
  eapply safe_bind0; [lia| |intros []; apply safe_end]. apply safe_h3_; [done|].
  intros tr m. apply (ho_grows ev Hok tr (H3ProvideDatagramBuffer _ _ _)).
Qed.

Lemma safe_provide_datagram cnx bytes length : sf 1 A (cb_provide_datagram ev s cnx bytes length) (λ _ _, True).
Proof using Eok Hok XD0.
  unfold cb_provide_datagram. sbind; [apply safe_read_s|]. rename a into db.
  destruct (Z.eqb_spec db 0) as [Hz|Hz].
  { eapply safe_bind0; [lia|apply safe_ret|intros rec; cbn beta]. apply safe_pure. intros ->.
    cbn [Z.eqb]. apply safe_le0; [lia|]. eapply safe_pre; [by apply (safe_provide_none A)|by intros w [? _]]. }
  apply safe_open_ring; [done|]. intros b H recs R. destruct recs as [|r recs].
  { eapply safe_bind0; [lia|apply (safe_on_db db b b); [by rewrite (peek_empty R)|done|by exists H, []]|].
    intros rec. cbn beta. apply safe_pure. intros ->. cbn [Z.eqb]. apply safe_le0; [lia|].
    eapply safe_pre; [by apply (safe_provide_none A)|by intros w [? _]]. }
  assert (Hrep : db_sound b) by (by exists H, (r :: recs)).
  assert (Hr : 0 < zlen r).
  { pose proof (dr_recs _ _ _ R) as Hf. apply Forall_cons in Hf as [Hf _]. apply Hf. }
  eapply safe_bind0; [lia|apply (safe_on_db db b b); [by rewrite (peek_cons R r recs)|done|done]|].
  intros rec. cbn beta. apply safe_pure. intros ->. rewrite (proj2 (Z.eqb_neq (zlen r) 0)) by lia.
  destruct (zlen r >? u32 length).
  { eapply safe_bind0; [lia| |intros []].
    { eapply safe_on_db; [done|done|]. exists H, (r :: recs). by apply db_rep_counters. }
    apply safe_le0; [lia|]. eapply safe_pre; [by apply (safe_provide_none A)|by intros w (_ & ? & _)]. }
  eapply safe_bind0; [lia|apply (safe_on_db db b b); [done|done|done]|intros used; cbn beta].
  apply safe_pure. intros _. cbv zeta.
  apply (safe_bind0 1 _ _ _ (λ _ w, A w ∧ ring_at db b w)); [lia| |intros buf].
  { apply safe_h3; [exact _|]. intros tr m. apply (ho_grows ev Hok tr (H3ProvideDatagramBuffer _ _ _)). }
  eapply (safe_then_end _ _ _ _ (λ _ _, True)); [lia|].
  apply safe_if0; [|apply safe_le0; [lia|apply safe_end]].
  destruct (pop_cons R r recs eq_refl) as (b' & Ep & Eb' & R').
  eapply safe_bind0; [lia|apply (safe_on_db db b b'); [done|by rewrite Eb'|by exists (H + 4 + zlen r), recs]|].
  intros bs. cbn beta. apply safe_pure. intros _.
  do 3 (sbind; [safe_still|]). by eapply safe_ring_signal.
Qed.

(** *** The stream's bytes to the peer *)

Definition sc_at (c : stream_ctx) (w : world) : Prop := sw_scs (w_sc w) !! sc = Some c.

#[local] Instance sc_at_framed c : Framed (sc_at c).
Proof using Type. intros w w' [_ E] _. unfold sc_at. by rewrite E. Qed.

Lemma safe_fire_drained sid : l <> 0 -> sf 1 A (wt_fire_drained ev s sid sc) (λ _, A).
Proof using Eok X0.
  intros Hl. unfold wt_fire_drained. sbind.
  { apply (safe_sc_val X0 s l sc st aiopquic_stream_ctx_tx_drain_take Hl).
    intros T c Ht Hr. by apply (keeps_flags (sc_set_tx_drain_pending 0) T). }
  apply safe_when; [lia|]. intros _. sbind; [apply safe_field|].
  eapply safe_seq; [lia|apply (safe_push ev _ _ A); first [exact _|done]|intros rc]. apply safe_if0.
  - sbind; [by apply safe_flag|]. sbind; [safe_still|]. by apply safe_flag.
  - sbind; [by apply safe_flag|]. by apply safe_flag.
Qed.

(** The pull behind the callback's loads. *)
Lemma safe_pull c tx bytes want (fin_after : Z) sid : l <> 0 -> sc_tx c = Some tx ->
  sf 1 (λ w, A w ∧ sc_at c w)
    (avail ← read_tx sc aiopquic_stream_buf_used;
     sendable ← (λ w, c ← sw_scs (w_sc w) !! sc;
                      n ← aiopquic_stream_ctx_tx_sendable c avail; Some (n, w) : option (Z * world));
     let to_send := if sendable <? want then sendable else want in
     pending ← read_sc sc sc_tx_reset_pending;
     let is_fin := negb (fin_after =? 0) && (pending =? 0) && (to_send =? avail) in
     buf ← pq ev (PqProvideStreamDataBuffer bytes to_send is_fin (sendable >? to_send));
     when (negb (buf =? 0) && (to_send >? 0))
       (bs ← sc_pop_tx sc to_send; pq_ ev (WriteBuf buf bs)) ;;
     wt_fire_drained ev s sid sc ;;
     ret 0) (λ _ _, True).
Proof using Eok X0.
  intros Hl Et. set (P := λ w, A w ∧ sc_at c w).
  apply (safe_bind0 1 _ _ _ (λ n w, n = aiopquic_stream_buf_used tx ∧ P w)); [lia| |intros avail].
  { apply safe_h3mem. intros w HP. pose proof HP as [_ Ec]. unfold read_tx. rewrite Ec.
    cbn [mbind option_bind]. rewrite Et. by eexists _, _. }
  apply safe_pure. intros ->.
  assert (Sm : ∃ m, aiopquic_stream_ctx_tx_sendable c (aiopquic_stream_buf_used tx) = Some m).
  { unfold aiopquic_stream_ctx_tx_sendable. case_match; [by eexists|]. rewrite Et. by eexists. }
  destruct Sm as [m Es].
  apply (safe_bind0 1 _ _ _ (λ n w, n = m ∧ P w)); [lia| |intros sendable].
  { apply safe_h3mem. intros w HP. pose proof HP as [_ Ec]. exists m, w. rewrite Ec.
    cbn [mbind option_bind]. by rewrite Es. }
  apply safe_pure. intros ->. cbv zeta. set (to_send := if m <? want then m else want).
  assert (Hle : to_send <= m) by (unfold to_send; case_bool; lia).
  sbind; [apply (safe_read_sc X0 s l sc st P); [by intros w [? _]|done]|].
  sbind; [safe_still|].
  apply (safe_bind0 1 _ _ _ (λ _, A)); [lia| |intros []].
  - apply safe_if; intros Eb; [|eapply safe_post; [apply safe_ret|by intros b w [_ [? _]]]].
    apply andb_true_iff in Eb as [_ Eb]. rewrite Z.gtb_ltb in Eb. apply Z.ltb_lt in Eb.
    apply (safe_bind0 0 _ _ _ (λ _, A)); [lia| |intros bs; safe_still].
    apply safe_lift.
    { intros w b w' E. unfold sc_pop_tx in E. by apply (quiet_wt _ (quiet_on_sc_val _)) in E. }
    intros y yd g w I Ey Ed _ [HA Ec].
    pose proof (alive_refs X0 s l sc st g w ltac:(by subst) HA Hl) as Hp. rewrite <- Ey in Hp.
    eapply wp_mono; [by apply (sp_sc_pop_tx (xd := yd) y g w sc c tx to_send m)|].
    intros bs w' I'. exists g. split; [done|]. split; [apply wgrows_refl|]. intros Ew.
    unfold alive, sts in *. by rewrite Ew.
  - eapply safe_then_end; [lia|]. by apply safe_fire_drained.
Qed.

Lemma wp_provide_data race sid bytes length g w : winv x xd g w -> wt_room g 1 -> A w ->
  Forall (is_send x) race -> g_T g + run_bytes race < 2 ^ 64 ->
  wp (cb_provide_data ev race s l sid bytes length)
    (λ _ w', ∃ g', winv x xd g' w' ∧ wgrows 1 (run_bytes race) g g') w.
Proof using Eok X0.
  intros I Hroom HA Hrace HT. pose proof (run_bytes_nonneg race) as HB. unfold cb_provide_data.
  assert (Hnone : wp (pq_ ev (PqProvideStreamDataBuffer bytes 0 false false) ;; ret 0)
    (λ _ w', ∃ g', winv x xd g' w' ∧ wgrows 1 (run_bytes race) g g') w).
  { eexists _, _. split; [done|]. exists g. split; [done|].
    eapply wgrows_mono; [apply wgrows_refl|lia|lia]. }
  pose proof HA as (_ & Hl & _). apply wp_bind.
  destruct (Z.eqb_spec l 0) as [Hz|Hz]; [by apply wp_ret, wp_bind, wp_ret|].
  destruct (Hl Hz) as (k & Ek & Es & Esc). eexists sc, w.
  split; [unfold read_link; by rewrite Ek, Esc|]. apply wp_bind.
  destruct (Z.eqb_spec sc 0) as [Hz'|Hz']; [by apply wp_ret|].
  apply (sp_read I); [by apply (alive_refs (xd := xd) X0 s l sc st g w I HA)|]. intros c Ec _.
  destruct (sc_tx c) as [tx|] eqn:Et; [|exact Hnone]. cbv zeta. apply wp_bind.
  eapply wp_mono; [apply (wp_keeps w_wt); [apply quiet_wt, quiet_on_sc|]|].
  { apply (sp_race _ g w sc race I); [|exists c; by rewrite Et|done].
    eapply Forall_impl; [exact Hrace|]. intros o Ho. destruct o; try done. destruct Ho as (Hp & ?).
    split; [|done]. unfold with_links.
    pose proof (objs_sum_nonneg (link_holds p) (wt_objs (w_wt w)) (link_holds_nonneg p)). lia. }
  intros [] w1 [(T & I1 & HT1 & c1 & Ec1 & tx1 & Et1) Ew1].
  assert (I2 : winv x xd (with_T g T) w1) by (unfold winv; by rewrite Ew1).
  assert (HA1 : A w1) by (unfold alive, sts in *; by rewrite Ew1).
  eapply wp_mono.
  { apply (safe_pull c1 tx1 bytes (u32 length) _ sid Hz Et1 (with_T g T) w1 I2); [done|by split]. }
  intros r w2 (g2 & I3 & G3 & _). exists g2. split; [done|]. destruct G3. split; try done; cbn in *; lia.
Qed.

(** *** The stream's bytes from the peer *)

Lemma safe_cap P : sf 0 P rx_advertise_cap (λ cap w, 0 <= cap < 2 ^ 32 ∧ P w).
Proof using Type.
  intros g w I _ HP. unfold rx_advertise_cap. apply wp_bind, wp_getb, wp_ret. exists g.
  split; [done|]. split; [apply wgrows_refl|]. split; [|done].
  pose proof (iv_cap _ _ _ _ I) as Hc. cbn in Hc. case_bool; [lia|done].
Qed.

Lemma safe_rx_ring cnx sid cap : l <> 0 -> 0 <= cap < 2 ^ 32 ->
  sf 0 A (wt_rx_ring ev l cnx sid cap)
    (λ r w, match r with Some (p, _) => p = sc ∧ A w ∧ has_rx sc w | None => True end).
Proof using Eok X0.
  intros Hl Hcap. unfold wt_rx_ring. sbind; [by apply safe_read_link|]. apply safe_pure. intros ->.
  sbind; [by apply (safe_read_sc X0 s l sc st)|]. cbv zeta.
  sbind; [apply safe_when; [lia|intros _]; safe_still|]. sbind; [safe_still|].
  apply (safe_bind0 0 _ _ _ (λ rc w, A w ∧ (rc = 0 -> has_rx sc w))); [lia| |intros rc].
  - apply safe_lift; [apply quiet_wt, quiet_on_sc_val|]. intros y yd g w I Ey Ed _ HA.
    pose proof (alive_refs X0 s l sc st g w ltac:(by subst) HA Hl) as Hp. rewrite <- Ey in Hp.
    eapply wp_mono; [apply (sp_ensure_rx y g w _ cap sc I Hp), (eo_buf _ Eok), Hcap|].
    intros rc w' [I' Hrx]. exists g. split; [done|]. split; [apply wgrows_refl|]. intros Ew.
    split; [|done]. unfold alive, sts in *. by rewrite Ew.
  - eapply safe_post; [apply safe_ret|]. intros r w [-> [HA Hrx]].
    destruct (Z.eqb_spec rc 0) as [Hz|Hz]; cbn [negb]; auto.
Qed.

Lemma safe_rx_store length data : l <> 0 ->
  sf 0 (λ w, A w ∧ has_rx sc w) (wt_rx_store sc length data) (λ _ w, A w ∧ has_rx sc w).
Proof using X0.
  intros Hl. unfold wt_rx_store.
  apply (safe_bind0 0 _ _ _ (λ _ w, A w ∧ has_rx sc w)); [lia| |intros n].
  - apply safe_lift; [intros w b w' E; unfold sc_push_rx in E; by apply (quiet_wt _ (quiet_on_sc_val _)) in E|].
    intros y yd g w I Ey Ed _ [HA Hrx].
    pose proof (alive_refs X0 s l sc st g w ltac:(by subst) HA Hl) as Hp. rewrite <- Ey in Hp.
    eapply wp_mono; [apply (sp_push_rx (xd := yd) y g w sc _ I Hp Hrx)|].
    { rewrite length_take. pose proof (u32_range length). lia. }
    intros n w' (I' & Hrx' & _). exists g. split; [done|]. split; [apply wgrows_refl|]. intros Ew.
    split; [|done]. unfold alive, sts in *. by rewrite Ew.
  - apply (safe_bind0 0 _ _ _ (λ _ w, A w ∧ has_rx sc w)); [lia| |intros []; safe_still].
    apply safe_when; [lia|]. intros _. apply safe_lift; [apply quiet_wt, quiet_on_g|].
    intros y yd g w I Ey Ed _ [HA Hrx]. apply (sp_rx_bytes (xd := yd) y g w n _ I). intros w' I' Es.
    exists g. split; [done|]. split; [apply wgrows_refl|]. intros Ew. split.
    + unfold alive, sts in *. by rewrite Ew.
    + unfold has_rx. by rewrite Es.
Qed.

(** *** The events of a data stream *)

Lemma safe_read_rx {B} (f : stream_buf -> B) :
  sf 0 (λ w, A w ∧ has_rx sc w) (read_rx sc f) (λ _ w, A w ∧ has_rx sc w).
Proof using Type.
  apply safe_h3mem. intros w HP. pose proof HP as [_ (c & Ec & rx & Er)]. unfold read_rx.
  rewrite Ec. cbn [mbind option_bind]. rewrite Er. by eexists _, _.
Qed.

(** The stream is announced, if new, then its event. *)
Lemma safe_tell (first_touch : bool) t sid fin : l <> 0 ->
  aiopquic_rx_event_owns_sc (evt_code t) = false ->
  sf 2 A (when first_touch (aiopquic_wt_push_new_stream ev s sid sc) ;;
          aiopquic_wt_push_event_with_sc ev s t sid sc fin ;; ret 0) (λ _ _, True).
Proof using Eok X0.
  intros Hl Ht. apply safe_seq2.
  - apply safe_when; [lia|]. intros _. by apply (safe_push_new_stream Eok s l sc st A).
  - intros []. eapply safe_then_end; [lia|]. by apply (safe_push_event_with_sc Eok X0 s l sc st).
Qed.

Lemma safe_full n P `{!Framed P} (k : Z) : 0 <= n ->
  sf n P (count WORKER_RX_BYTE_RING_OVERFLOW ;; ret k) (λ _ _, True).
Proof using Type. intros Hn. apply safe_le0; [done|]. eapply safe_then_end; [lia|]. safe_still. Qed.

Lemma safe_stream_data_on cnx sid length data (first_touch : bool) : l <> 0 ->
  sf 2 A (cap ← rx_advertise_cap;
          r ← wt_rx_ring ev l cnx sid cap;
          match r with
          | None => ret (-1)
          | Some (p, rx_first) =>
              pushed ← wt_rx_store p length data;
              if negb (pushed =? length) then
                count WORKER_RX_BYTE_RING_OVERFLOW ;;
                _ ← aiopquic_rx_log_enabled ev;
                ret (-1)
              else
                when rx_first
                  (window ← aiopquic_initial_rx_window ev cnx sid;
                   when (window <? cap)
                     (buf_free ← read_rx p aiopquic_stream_buf_free;
                      pq_ ev (PqOpenFlowControl cnx sid buf_free)) ;;
                   upd_sc p (aiopquic_stream_ctx_rx_credit_store cap)) ;;
                when first_touch (aiopquic_wt_push_new_stream ev s sid p) ;;
                aiopquic_wt_push_event_with_sc ev s SPSC_EVT_WT_STREAM_DATA sid p 0 ;;
                ret 0
          end) (λ _ _, True).
Proof using Eok X0.
  intros Hl. sbind; [apply safe_cap|]. apply safe_pure. intros Hcap.
  sbind; [by apply safe_rx_ring|]. destruct a0 as [[p rx_first]|]; [|by apply safe_le0, safe_end].
  apply safe_pure. intros ->. sbind; [by apply safe_rx_store|]. apply safe_if0.
  { sbind; [safe_still|]. sbind; [safe_still|]. by apply safe_le0, safe_end. }
  apply (safe_bind0 2 _ _ _ (λ _, A)); [lia| |intros []; by apply safe_tell].
  apply safe_if0; [|eapply safe_post; [apply safe_ret|by intros b w [_ [? _]]]].
  sbind; [safe_still|].
  apply (safe_bind0 0 _ _ _ (λ _ w, A w ∧ has_rx sc w)); [lia| |intros []].
  - apply safe_when; [lia|]. intros _. sbind; [apply safe_read_rx|]. safe_still.
  - eapply safe_pre; [by apply safe_flag|by intros w [? _]].
Qed.

Lemma safe_stream_fin_on cnx sid length data (first_touch : bool) : l <> 0 ->
  sf 2 A (cap ← rx_advertise_cap;
          r ← wt_rx_ring ev l cnx sid cap;
          match r with
          | None => ret (-1)
          | Some (p, rx_first) =>
              pushed ← (if length >? 0 then wt_rx_store p length data else ret length);
              if negb (pushed =? length) then count WORKER_RX_BYTE_RING_OVERFLOW ;; ret (-1)
              else
                upd_sc p (λ c, sc_set_rx (aiopquic_stream_buf_set_fin <$> sc_rx c) c) ;;
                when rx_first
                  (upd_sc p (λ c, aiopquic_stream_ctx_rx_credit_store
                     (u64 (aiopquic_stream_ctx_rx_consumed_load c + cap)) c)) ;;
                when first_touch (aiopquic_wt_push_new_stream ev s sid p) ;;
                aiopquic_wt_push_event_with_sc ev s SPSC_EVT_WT_STREAM_FIN sid p 1 ;;
                ret 0
          end) (λ _ _, True).
Proof using Eok X0.
  intros Hl. sbind; [apply safe_cap|]. apply safe_pure. intros Hcap.
  sbind; [by apply safe_rx_ring|]. destruct a0 as [[p rx_first]|]; [|by apply safe_le0, safe_end].
  apply safe_pure. intros ->.
  apply (safe_bind0 2 _ _ _ (λ _, A)); [lia| |intros pushed].
  { apply safe_if0.
    - eapply safe_post; [by apply safe_rx_store|]. by intros b w [? _].
    - eapply safe_post; [apply safe_ret|]. by intros b w [_ [? _]]. }
  apply safe_if0; [by apply (safe_full 2 A)|].
  sbind.
  { apply (safe_upd_sc X0 s l sc st); [done|]. intros T c Ht Hr.
    split_and!; try done; [by apply rx_sound_fin|apply Ht..]. }
  sbind; [apply safe_when; [lia|intros _]; by apply safe_flag|]. by apply safe_tell.
Qed.

(** The link of the stream, an old one or a new one. *)
Lemma safe_ensure_link sid : l <> 0 ∨ st <> 0 ->
  sf 0 A (aiopquic_wt_ensure_link ev s l st sid)
    (λ r w, r.1 <> 0 -> ∃ sc', alive s r.1 sc' st w).
Proof using Eok Hok.
  intros Hor. unfold aiopquic_wt_ensure_link. destruct (Z.eqb_spec l 0) as [Hz|Hz]; cbn [negb].
  - sbind; [by apply (safe_link_create Eok Hok s l sc st sid)|]. rename a into link.
    destruct (Z.eqb_spec link 0) as [Ha|Ha].
    { eapply safe_post; [apply safe_ret|]. by intros b w [-> _]. }
    apply (safe_pre _ (λ w, ∃ sc', alive s link sc' st w)); [|intros w [_ H]; by apply H].
    apply safe_ex. intros sc'. destruct Hor as [?|Hst]; [done|].
    sbind; [apply (safe_upd_st s link sc' st (alive s link sc' st)); first [exact _|done]|].
    eapply safe_post; [apply safe_ret|]. intros b w [-> ?] _. by exists sc'.
  - eapply safe_post; [apply safe_ret|]. intros b w [-> ?] _. by exists sc.
Qed.
End callbacks.
