(* ===== verification/WtCalls.v ===== *)
(** * h3zero's calls are safe

    The rules of WtSafe.v put together: aiopquic_wt_path_callback on a session or a
    link, the server's callback and the connection callback, each defined and
    keeping the invariant [winv] from any state where h3zero may make the call. *)
From S2P Require Import Prelude Ring Store StreamBuf SpscRing EventChannel DgramBuf DgramTable.
From S2P Require Import StreamCtx WtState Bridge Alpn Callback World BridgeSafe StreamCb Runs.
From S2P Require Import WtProto WtSession WtPath WtTx WtBudget WtRun WtSpec WtSafe.

(** What h3zero may hand to a callback: no context, a session, or a link, which with its
    session and with the stream is in memory. *)
Definition handed (ctx st : Z) (w : world) : Prop :=
  ctx = 0 ∨
  match wt_objs (w_wt w) !! ctx with
  | Some (ObjLink k) => wl_session k = 0 ∨ alive (wl_session k) ctx (wl_sc k) st w
  | Some (ObjSession _) => alive ctx 0 0 st w
  | None => False
  end.

(** The events that deliver a stream's bytes come with the stream. *)
Definition delivers (event : path_event) : bool :=
  bool_decide (event = picohttp_callback_post_data) || bool_decide (event = picohttp_callback_post_fin).

Section path.
Context {ev : env} (Eok : env_ok ev) (Hok : h3_ok ev).
Context {x xd : Z -> Z} (X0 : ∀ p, 0 <= x p) (XD0 : ∀ p, 0 <= xd p).
Abbreviation sf := (safe (x := x) (xd := xd)).

(** [m] is defined and keeps the invariant; [n] events and [B] bytes at most. *)
Definition callable {A} (n B : Z) (m : M A) (g : ghost) (w : world) : Prop :=
  wp m (λ _ w', ∃ g', winv x xd g' w' ∧ wgrows n B g g') w.

Lemma safe_callable {A} n n' B P (m : M A) Q g w : sf n P m Q -> n <= n' -> 0 <= B ->
  winv x xd g w -> wt_room g n' -> P w -> callable n' B m g w.
Proof using Type.
  intros Hm Hn HB I Hr HP. eapply wp_mono.
  { apply (Hm g w I); [eapply wt_room_le; [done|lia]|done]. }
  intros a w' (g' & I' & G' & _). exists g'. split; [done|]. by eapply wgrows_mono.
Qed.

Section session.
Context (s l sc st : Z).
Abbreviation A := (alive s l sc st).

Lemma safe_post_datagram length data : sf 1 A (cb_post_datagram ev s length data) (λ _ _, True).
Proof using Eok.
  unfold cb_post_datagram. sbind; [apply safe_field|]. eapply safe_then_end; [lia|].
  by apply safe_announce.
Qed.

Lemma safe_stream_data cnx sid length data : st <> 0 ->
  sf 2 A (cb_stream_data ev s l cnx st sid length data) (λ _ _, True).
Proof using Eok Hok X0.
  intros Hst. unfold cb_stream_data.
  sbind; [by apply (safe_ensure_link Eok Hok); right|]. destruct a as [link first_touch]. cbn [fst].
  destruct (Z.eqb_spec link 0) as [Hz|Hz]; [by apply safe_le0, safe_end|].
  apply (safe_pre _ (λ w, ∃ sc', alive s link sc' st w)); [|by intros w H; apply H].
  apply safe_ex. intros sc'. by apply (safe_stream_data_on Eok X0 s link sc' st).
Qed.

Lemma safe_stream_fin cnx sid length data : st <> 0 ->
  sf 2 A (cb_stream_fin ev s l cnx st sid length data) (λ _ _, True).
Proof using Eok Hok X0.
  intros Hst. unfold cb_stream_fin.
  sbind; [by apply (safe_ensure_link Eok Hok); right|]. destruct a as [link first_touch]. cbn [fst].
  destruct (Z.eqb_spec link 0) as [Hz|Hz]; [by apply safe_le0, safe_end|].
  apply (safe_pre _ (λ w, ∃ sc', alive s link sc' st w)); [|by intros w H; apply H].
  apply safe_ex. intros sc'. by apply (safe_stream_fin_on Eok X0 s link sc' st).
Qed.

(** Every event but the pull, which the producer may race. *)
Lemma safe_switch race cnx bytes length data event sid is_control :
  event <> picohttp_callback_provide_data -> (delivers event = true -> st <> 0) ->
  sf 2 A (path_switch ev race s l cnx bytes length data event st sid is_control) (λ _ _, True).
Proof using Eok Hok X0 XD0.
  intros Hev Hst.
  assert (U : ∀ n (m : M Z), n <= 2 -> sf n A m (λ _ _, True) -> sf 2 A m (λ _ _, True)).
  { intros n m Hn Hm. by eapply safe_mono. }
  destruct event; cbn [path_switch]; try done; try (apply (U 0); [lia|apply safe_end]);
    try match goal with |- context [is_control] => destruct is_control end.
  - apply (U 1); [lia|]. by apply safe_connect_accepted.
  - by apply safe_connect_refused.
  - apply (U 1); [lia|]. by apply safe_drain.
  - apply (U 1); [lia|]. by apply safe_control_data.
  - apply safe_stream_data. by apply Hst.
  - apply (U 1); [lia|]. by apply safe_control_fin.
  - apply safe_stream_fin. by apply Hst.
  - apply (U 1); [lia|]. by apply safe_post_datagram.
  - apply (U 1); [lia|]. by apply safe_provide_datagram.
  - by apply safe_reset.
  - by apply safe_reset.
  - by apply safe_stop_sending.
  - by apply safe_stop_sending.
  - apply (U 1); [lia|]. by apply safe_deregister.
  - by apply safe_free.
  - by apply safe_free.
Qed.

(** With the pull: what the producer pushes meanwhile counts. *)
Lemma switch_callable race cnx bytes length data event sid is_control g w :
  (delivers event = true -> st <> 0) -> Forall (is_send x) race -> g_T g + run_bytes race < 2 ^ 64 ->
  winv x xd g w -> wt_room g 2 -> A w ->
  callable 2 (run_bytes race)
    (path_switch ev race s l cnx bytes length data event st sid is_control) g w.
Proof using Eok Hok X0 XD0.
  intros Hst Hrace HT I Hr HA. pose proof (run_bytes_nonneg race) as HB.
  destruct (decide (event = picohttp_callback_provide_data)) as [->|Hev].
  - eapply wp_mono; [apply (wp_provide_data Eok X0 s l sc st race sid bytes length g w I)|];
      try done; [eapply wt_room_le; [done|lia]|].
    intros b w' (g' & I' & G'). exists g'. split; [done|]. by eapply wgrows_mono.
  - by eapply safe_callable; [by apply safe_switch|..].
Qed.
End session.

Lemma callable_refl {B} n C (b : B) g w : 0 <= n -> 0 <= C -> winv x xd g w -> callable n C (ret b) g w.
Proof using Type.
  intros Hn HC I. eapply wp_ret. exists g. split; [done|]. by eapply wgrows_mono; [apply wgrows_refl|..].
Qed.

(** The path callback, on every event and whatever the context is. *)
Lemma path_callable race cnx bytes length data event st ctx g w :
  handed ctx st w -> (delivers event = true -> st <> 0) ->
  Forall (is_send x) race -> g_T g + run_bytes race < 2 ^ 64 ->
  winv x xd g w -> wt_room g 2 ->
  callable 2 (run_bytes race) (aiopquic_wt_path_callback ev race cnx bytes length data event st ctx) g w.
Proof using Eok Hok X0 XD0.
  intros Hc Hst Hrace HT I Hr. pose proof (run_bytes_nonneg race) as HB.
  unfold aiopquic_wt_path_callback, aiopquic_wt_ctx_resolve. apply wp_bind.
  destruct (Z.eqb_spec ctx 0) as [Hz|Hz]; [apply wp_ret; by apply callable_refl|].
  destruct Hc as [?|Hc]; [done|].
  assert (Hgo : ∀ s l sc, alive s l sc st w -> callable 2 (run_bytes race)
    (if s =? 0 then ret 0
     else
       control_id ← read_s s ws_control_stream_id;
       sid ← (if st =? 0 then ret 0 else read_st st hs_stream_id);
       path_switch ev race s l cnx bytes length data event st sid
         (negb (st =? 0) && (sid =? control_id))) g w).
  { intros s l sc HA. destruct (s =? 0); [by apply callable_refl|].
    pose proof HA as ((y & Ey & _) & _ & Hs). apply wp_bind. eexists _, w. split.
    { unfold read_s. by rewrite Ey. }
    apply wp_bind. destruct (Z.eqb_spec st 0) as [Hst0|Hst0].
    - apply wp_ret. by eapply switch_callable.
    - destruct (Hs Hst0) as [z Ez]. unfold sts in Ez. eexists _, w. split; [unfold read_st; by rewrite Ez|].
      by eapply switch_callable. }
  destruct (wt_objs (w_wt w) !! ctx) as [[k|k]|] eqn:Ec; [| |done].
  - eexists _, w. split; [by rewrite Ec|]. cbn beta iota. by eapply Hgo.
  - eexists _, w. split; [by rewrite Ec|]. cbn beta iota. destruct Hc as [Hk|Hk].
    + rewrite Hk. by apply callable_refl.
    + by eapply Hgo.
Qed.

(** ** The connection callback *)

Definition session_in (s : Z) (w : world) : Prop := ∃ y, wt_objs (w_wt w) !! s = Some (ObjSession y).

(** A fact that writing a session's fields keeps. *)
Class SessionStable (P : world -> Prop) : Prop :=
  session_stable : ∀ w s y y', wt_objs (w_wt w) !! s = Some (ObjSession y) -> P w ->
    P (set_objs (<[s := ObjSession y']> (wt_objs (w_wt w))) w).

#[export] Instance session_in_stable s : SessionStable (session_in s).
Proof using Type.
  intros w t y y' _ [z Ez]. unfold session_in. cbn. destruct (decide (s = t)) as [->|Hn].
  - exists y'. apply lookup_insert_eq.
  - exists z. by rewrite lookup_insert_ne.
Qed.
(** A fact about the WebTransport state alone. *)
Class OnWt (P : world -> Prop) : Prop := on_wt : ∀ w w', w_wt w' = w_wt w -> P w -> P w'.
#[export] Instance and_wt P Q : OnWt P -> OnWt Q -> OnWt (λ w, P w ∧ Q w).
Proof using Type. intros HP HQ w w' E [? ?]. split; [by eapply HP|by eapply HQ]. Qed.
#[export] Instance and_session P Q :
  SessionStable P -> SessionStable Q -> SessionStable (λ w, P w ∧ Q w).
Proof using Type. intros HP HQ w s y y' Ey [? ?]. split; [by eapply HP|by eapply HQ]. Qed.
#[export] Instance on_wt_framed P : OnWt P -> Framed P.
Proof using Type. intros HP w w' _. apply HP. Qed.
#[export] Instance session_in_wt s : OnWt (session_in s).
Proof using Type. intros w w' E. unfold session_in. by rewrite E. Qed.

(** The prefixes are in memory, and a session behind each of WebTransport. *)
Definition prefixes_live (ps : list Z) (w : world) : Prop :=
  Forall (λ p, ∃ z, hm_prefixes (wt_h3 (w_wt w)) !! p = Some z ∧
    (px_function_call z = FnWtPath -> session_in (px_function_ctx z) w)) ps.

#[export] Instance prefixes_stable ps : SessionStable (prefixes_live ps).
Proof using Type.
  intros w s y y' Ey H. eapply Forall_impl; [exact H|]. intros p (z & Ez & Hz). exists z.
  split; [done|]. intros Hf. by eapply session_in_stable, Hz.
Qed.
#[export] Instance prefixes_wt ps : OnWt (prefixes_live ps).
Proof using Type.
  intros w w' E H. eapply Forall_impl; [exact H|]. intros p Hp. unfold session_in in *. cbn in *.
  by rewrite E.
Qed.

(** Fields of a session but its datagram ring. *)
Lemma safe_write P s f : (∀ w, P w -> session_in s w) ->
  (∀ y, ws_dgram_ring (f y) = ws_dgram_ring y) ->
  (∀ w y, wt_objs (w_wt w) !! s = Some (ObjSession y) -> P w ->
     P (set_objs (<[s := ObjSession (f y)]> (wt_objs (w_wt w))) w)) ->
  sf 0 P (upd_s s f) (λ _, P).
Proof using Type.
  intros Hs Hf Hk g w I _ HP. destruct (Hs w HP) as [y Ey]. eexists tt, _. split.
  { unfold upd_s, mbind, M_bind, bind, read_s. rewrite Ey. done. }
  exists g. split; [|split; [apply wgrows_refl|by apply Hk]].
  unfold winv in *. change (res_of (set_objs _ w)) with (res_of w). cbn [w_wt set_objs w_set_wt wt_objs].
  eapply inv_ext; [| |exact I]; intros p; unfold with_links, with_rings; cbn;
    rewrite (objs_sum_update _ _ _ _ _ Ey); cbn; rewrite ?Hf; lia.
Qed.

Section cnx.
Context (P : world -> Prop) `{!OnWt P, !SessionStable P}.

Lemma safe_at {B} s (f : wt_session -> B) : (∀ w, P w -> session_in s w) ->
  sf 0 P (read_s s f) (λ _, P).
Proof using Type.
  intros Hs. apply safe_h3mem. intros w HP. destruct (Hs w HP) as [y Ey].
  unfold read_s. rewrite Ey. by eexists _, _.
Qed.

Lemma safe_put s f : (∀ w, P w -> session_in s w) ->
  (∀ y, ws_dgram_ring (f y) = ws_dgram_ring y) -> sf 0 P (upd_s s f) (λ _, P).
Proof using SessionStable0.
  intros Hs Hf. apply safe_write; [done|done|]. intros w y Ey HP. by eapply session_stable.
Qed.

Lemma safe_push_close s t code reason source : (∀ w, P w -> session_in s w) ->
  aiopquic_rx_event_owns_sc (evt_code t) = false ->
  sf 1 P (aiopquic_wt_push_close ev s t code reason source) (λ _, P).
Proof using Eok OnWt0.
  intros Hs Ht. unfold aiopquic_wt_push_close. sbind; [by apply safe_at|]. sbind; [by apply safe_at|].
  change 1 with (1 + 0). eapply safe_bind; [lia|lia| |intros rc; cbn beta; apply safe_unit; exact _].
  apply safe_push; first [exact _|done].
Qed.

Lemma safe_drop_cnx cnx : sf 0 P (aiopquic_deferred_resets_drop_cnx cnx) (λ _, P).
Proof using OnWt0 X0.
  apply safe_lift; [apply quiet_wt, quiet_drop_cnx|]. intros y yd g w I -> -> _ HP.
  destruct (sp_drop_cnx _ _ cnx g w (with_links_nonneg X0 _) I) as (b & w' & E & g' & I' & F).
  exists b, w'. split; [done|]. exists g'. split; [done|]. split.
  - destruct F as (ds & -> & _). split; cbn; done || lia.
  - intros Ew. by eapply on_wt.
Qed.

Lemma safe_close_session cnx client final code source reason s : (∀ w, P w -> session_in s w) ->
  sf 2 P (close_session ev cnx client final code source reason s) (λ _, P).
Proof using Eok X0 OnWt0 SessionStable0.
  intros Hs. unfold close_session. sbind; [safe_still|].
  sbind; [apply safe_when; [lia|intros _]; apply safe_drop_cnx|].
  sbind; [safe_still|].
  sbind; [apply safe_when; [lia|intros _]; apply safe_idle; [exact _|apply idle_reason_drop|]|].
  { apply quiet_wt, quiet_reason_drop. }
  sbind; [by apply safe_at|]. change 2 with (1 + 1).
  eapply (safe_bind 1 1 _ _ _ (λ _, P)); [lia|lia| |intros []].
  - apply safe_when; [lia|]. intros _. change 1 with (1 + 0).
    eapply safe_bind; [lia|lia|by apply safe_push_close|]. intros []. by apply safe_put.
  - apply safe_if0; [by apply safe_push_close|]. apply safe_le0; [lia|]. by apply safe_put.
Qed.
End cnx.

(** The walk over the prefixes of a connection that ends. *)
Lemma safe_close_sessions cnx client final code source reason ps :
  sf (2 * zlen ps) (prefixes_live ps)
    (close_sessions ev cnx client final code source reason ps) (λ _ _, True).
Proof using Eok X0.
  induction ps as [|p ps IH]; cbn [close_sessions]; [apply safe_end|].
  set (P := λ fn w, prefixes_live (p :: ps) w ∧
    ∃ z, hm_prefixes (wt_h3 (w_wt w)) !! p = Some z ∧ fn = px_function_call z).
  replace (2 * zlen (p :: ps)) with (2 + 2 * zlen ps) by (cbn [length]; lia).
  apply (safe_bind0 _ _ _ _ P); [lia| |intros fn].
  { apply safe_h3mem. intros w HP. pose proof HP as [(z & Ez & _) _]%Forall_cons.
    unfold read_px. rewrite Ez. eexists _, w. do 4 (split; [done|]). by exists z. }
  eapply (safe_bind 2 _ _ _ _ (λ _, prefixes_live ps)); [lia|lia| |intros []; exact IH].
  assert (Htail : ∀ w, prefixes_live (p :: ps) w -> prefixes_live ps w).
  { by intros w [_ H]%Forall_cons. }
  case_bool_decide as Hfn.
  - apply (safe_bind0 _ _ _ _ (λ s w, prefixes_live ps w ∧ session_in s w)); [lia| |intros s].
    + apply safe_h3mem. intros w (HP & z & Ez & ->). pose proof HP as [(z' & Ez' & Hz) Hps]%Forall_cons.
      rewrite Ez in Ez'. injection Ez' as <-. unfold read_px. rewrite Ez. eexists _, w.
      split_and!; try done. by apply Hz.
    + eapply safe_post; [apply (safe_close_session (λ w, prefixes_live ps w ∧ session_in s w))|].
      * by intros w [_ ?].
      * by intros b w [? _].
  - apply safe_le0; [lia|]. eapply safe_post; [apply safe_ret|]. intros b w [_ [HP _]]. by apply Htail.
Qed.

Lemma safe_find_prefix ps :
  sf 0 (prefixes_live ps) (find_wt_prefix ps) (λ s w, s <> 0 -> session_in s w).
Proof using Type.
  induction ps as [|p ps IH]; cbn [find_wt_prefix].
  { eapply safe_post; [apply safe_ret|]. by intros s w [-> _]. }
  intros g w I Hr HP. pose proof HP as [(z & Ez & Hz) Hps]%Forall_cons. apply wp_bind.
  eexists _, w. split; [unfold read_px; by rewrite Ez|]. case_bool_decide as Hf; [|by apply IH].
  eexists _, w. split; [unfold read_px; by rewrite Ez|]. exists g. split; [done|].
  split; [apply wgrows_refl|]. intros _. by apply Hz.
Qed.

(** A connection's h3zero context and its prefixes. *)
Definition prefixes_of (h : Z) (w : world) : list Z :=
  match hm_ctxs (wt_h3 (w_wt w)) !! h with Some c => hc_stream_prefixes c | None => [] end.

Definition cnx_live (h : Z) (w : world) : Prop :=
  is_Some (hm_ctxs (wt_h3 (w_wt w)) !! h) ∧ prefixes_live (prefixes_of h w) w.

(** The events that look at the context. *)
Definition looks_at_ctx (event : call_back_event) : bool :=
  match event with
  | picoquic_callback_app_wakeup | picoquic_callback_close | picoquic_callback_application_close
  | picoquic_callback_stateless_reset => true
  | _ => false
  end.

Definition on_prefixes (h : Z) (ps : list Z) (w : world) : Prop :=
  cnx_live h w ∧ prefixes_of h w = ps.

#[local] Instance on_prefixes_wt h ps : OnWt (on_prefixes h ps).
Proof using Type.
  intros w w' E [[Hh Hp] He]. unfold on_prefixes, cnx_live, prefixes_of in *. rewrite E.
  split; [split; [done|]|done]. by eapply on_wt.
Qed.

Lemma safe_prefixes h ps :
  sf 0 (on_prefixes h ps) (read_h3 h hc_stream_prefixes) (λ r w, r = ps ∧ prefixes_live ps w).
Proof using Type.
  apply safe_h3mem. intros w [[[c Ec] Hp] <-]. unfold read_h3, prefixes_of in *. rewrite Ec in *.
  by eexists _, w.
Qed.

Lemma safe_wakeup cnx h client ps :
  sf 0 (on_prefixes h ps) (wt_app_wakeup ev cnx h client) (λ _ _, True).
Proof using Eok.
  unfold wt_app_wakeup. apply (safe_bind0 0 _ _ _ (λ s w, s <> 0 -> session_in s w)); [lia| |intros s].
  - apply safe_if0; [|eapply safe_post; [apply safe_ret|by intros s w [-> _]]].
    unfold aiopquic_wt_client_session. sbind; [apply safe_prefixes|]. apply safe_pure. intros ->.
    apply safe_find_prefix.
  - destruct (Z.eqb_spec s 0) as [Hs|Hs].
    { sbind; [apply safe_ret|]. apply safe_pure. intros ->. apply safe_end. }
    apply (safe_pre _ (session_in s)); [|by intros w H; apply H].
    sbind; [by apply (safe_at (session_in s))|]. eapply safe_post; [|done].
    apply safe_when; [lia|]. intros _. sbind; [by apply (safe_put (session_in s))|]. safe_still.
Qed.

Lemma safe_cnx_ended cnx h client event ps :
  sf (2 * zlen ps) (on_prefixes h ps) (wt_cnx_ended ev cnx h client event) (λ _ _, True).
Proof using Eok X0.
  unfold wt_cnx_ended.
  sbind; [unfold close_cause; apply safe_idle; [exact _|destruct event; idle_tac|]|].
  { apply quiet_wt. destruct event; keeps_tac. }
  destruct a as [[code source] reason]. sbind; [apply safe_prefixes|]. apply safe_pure. intros ->.
  apply safe_close_sessions.
Qed.

Lemma cnx_callable cnx id bytes length event h st g w :
  (looks_at_ctx event = true -> cnx_live h w) -> winv x xd g w ->
  wt_room g (2 * zlen (prefixes_of h w)) ->
  callable (2 * zlen (prefixes_of h w)) 0 (aiopquic_wt_cnx_cb ev cnx id bytes length event h st) g w.
Proof using Eok X0.
  intros Hl I Hr. set (P := λ w1, w_wt w1 = w_wt w).
  assert (Hlive : looks_at_ctx event = true -> ∀ w1, P w1 -> on_prefixes h (prefixes_of h w) w1).
  { intros He w1 E. unfold P in E. eapply on_wt; [exact E|]. by split; [apply Hl|]. }
  set (n := 2 * zlen (prefixes_of h w)) in *.
  eapply (safe_callable n n 0 P); [|lia|lia|exact I|exact Hr|done]. unfold aiopquic_wt_cnx_cb.
  assert (HP : OnWt P) by (intros w1 w2 E1 E2; unfold P in *; congruence).
  eapply safe_bind0; [unfold n; lia|safe_still|intros c; cbn beta].
  cbv zeta. replace n with (n + 0) by lia.
  apply (safe_bind n 0 _ _ _ (λ _ _, True)); [unfold n; lia|lia| |intros []].
  - assert (Hno : sf n P (ret tt) (λ _ _, True)) by (apply safe_le0; [unfold n; lia|]; apply safe_end).
    assert (Hend : looks_at_ctx event = true -> sf n P
      (wt_cnx_ended ev cnx h (negb (c =? 0)) event) (λ _ _, True)).
    { intros He. eapply safe_pre; [apply safe_cnx_ended|by apply Hlive]. }
    assert (Hwake : looks_at_ctx event = true -> sf n P
      (wt_app_wakeup ev cnx h (negb (c =? 0))) (λ _ _, True)).
    { intros He. apply safe_le0; [unfold n; lia|]. eapply safe_pre; [apply safe_wakeup|by apply Hlive]. }
    destruct event; first [exact Hno|by apply Hend|by apply Hwake].
  - apply (safe_h3mem _ (λ _ _, True)). intros w1 _. by eexists _, _.
Qed.

(** ** The server's callback *)

Definition stream_in (st : Z) (w : world) : Prop := is_Some (sts w !! st).

#[export] Instance stream_in_wt st : OnWt (stream_in st).
Proof using Type. intros w w' E. unfold stream_in, sts. by rewrite E. Qed.
#[export] Instance stream_in_session st : SessionStable (stream_in st).
Proof using Type. by intros w s y y' _. Qed.
#[export] Instance stream_in_h3 st : H3Stable (stream_in st).
Proof using Type. intros w w' [Hs _] _ _. apply Hs. Qed.
#[export] Instance session_in_h3 s : H3Stable (session_in s).
Proof using Type. intros w w' _ Eo _. unfold session_in. by rewrite Eo. Qed.
#[export] Instance handed_h3 ctx st : H3Stable (handed ctx st).
Proof using Type.
  intros w w' G Eo Er [?|Hc]; [by left|right]. rewrite Eo.
  destruct (wt_objs (w_wt w) !! ctx) as [[k|k]|]; [| |done].
  - by eapply (h3_stable (P := alive ctx 0 0 st)).
  - destruct Hc as [?|?]; [by left|right]. by eapply (h3_stable (P := alive (wl_session k) ctx (wl_sc k) st)).
Qed.

Section server.
Context (P : world -> Prop) `{!OnWt P, !SessionStable P, !H3Stable P} (st : Z).
Context (Pst : ∀ w, P w -> stream_in st w).

Lemma safe_st {B} (f : h3_stream -> B) : sf 0 P (read_st st f) (λ _, P).
Proof using Pst.
  apply safe_h3mem. intros w HP. destruct (Pst w HP) as [z Ez]. unfold sts in Ez. unfold read_st.
  rewrite Ez. by eexists _, _.
Qed.

Lemma safe_set_st f : sf 0 P (upd_st st f) (λ _, P).
Proof using Pst H3Stable0.
  apply safe_h3mem. intros w HP. destruct (Pst w HP) as [z Ez]. unfold sts in Ez. unfold upd_st.
  rewrite Ez. eexists _, _. split; [done|]. split; [done|]. split; [done|].
  apply (h3_stable w); [|done|done|exact HP]. split; [|done]. intros k. apply is_some_insert.
Qed.

Lemma safe_select supported : sf 0 P (wt_select_protocol ev st supported) (λ _, P).
Proof using Hok Pst H3Stable0 OnWt0.
  unfold wt_select_protocol. sbind; [apply safe_st|]. sbind; [safe_still|].
  apply (safe_bind0 0 _ _ _ (λ _, P)); [lia| |].
  { apply safe_h3mem. intros w HP.
    destruct (select_total (λ p, ev_pq ev a0 (PicowtSetWtProtocol st p)) a supported) as [r Er].
    exists r, w. by rewrite Er. }
  intros [rc [p|]].
  - sbind; [apply safe_h3_; [exact _|]; intros tr m; apply (ho_grows ev Hok tr (PicowtSetWtProtocol _ _))|].
    safe_still.
  - safe_still.
Qed.
End server.

Lemma safe_session_create P `{!OnWt P} : (∀ w s y, wt_objs (w_wt w) !! s = None -> P w ->
    P (set_objs (<[s := ObjSession y]> (wt_objs (w_wt w))) w)) ->
  sf 0 P (aiopquic_wt_session_create ev) (λ s w, P w ∧ (s <> 0 -> session_in s w)).
Proof using Hok.
  intros HP g w I _ Hp. unfold aiopquic_wt_session_create, wt_calloc. apply wp_bind, wp_bind.
  eexists _, _. split; [done|]. apply wp_get.
  set (w1 := w_set_tick _ w). change (wt_objs (w_wt w1)) with (wt_objs (w_wt w)).
  assert (Hp1 : P w1) by (by eapply on_wt; [|exact Hp]).
  pose proof (ho_fresh ev Hok (w_tick w) (wt_objs (w_wt w))) as Ha. set (a := ev_wt ev _ _) in *.
  destruct (Z.eqb_spec a 0) as [Hz|Hz].
  { apply wp_ret. exists g. split; [done|]. split; [apply wgrows_refl|done]. }
  destruct Ha as [?|Ha]; [done|]. apply wp_bind. eexists tt, _. split; [done|]. apply wp_ret.
  exists g. split; [|split; [apply wgrows_refl|split]].
  - unfold winv. change (res_of (set_objs _ w1)) with (res_of w). cbn.
    eapply inv_ext; [| |exact I]; intros p; unfold with_links, with_rings;
      rewrite (objs_sum_insert _ _ _ _ Ha); cbn; lia.
  - by apply (HP w1).
  - intros _. eexists. cbn. apply lookup_insert_eq.
Qed.

Lemma safe_accept cnx h st proto_sel path :
  sf 2 (stream_in st) (accept_session ev cnx h st proto_sel path) (λ _ _, True).
Proof using Eok Hok.
  unfold accept_session. sbind; [apply safe_session_create; [exact _|done]|]. rename a into s.
  destruct (Z.eqb_spec s 0) as [Hs|Hs]; [by apply safe_le0, safe_end|].
  set (P := λ w, stream_in st w ∧ session_in s w).
  apply (safe_pre _ P); [|intros w [? H]; split; [done|by apply H]].
  assert (HO : OnWt P) by exact _. assert (HS : SessionStable P) by exact _.
  assert (HH : H3Stable P) by exact _.
  assert (Hput : ∀ f, (∀ y, ws_dgram_ring (f y) = ws_dgram_ring y) -> sf 0 P (upd_s s f) (λ _, P)).
  { intros f Hf. apply safe_put; [exact _|by intros w [_ ?]|done]. }
  assert (Hst : ∀ w, P w -> stream_in st w) by (by intros w [? _]).
  sbind; [by apply Hput|]. sbind; [by apply (safe_st P)|]. do 2 (sbind; [by apply Hput|]).
  sbind; [safe_still|]. sbind; [safe_still|].
  sbind; [apply (safe_if0 _ _ _ _ _ (λ _, P)); [by apply (safe_st P)|safe_still]|].
  sbind; [apply safe_when; [lia|intros _]; sbind; [unfold aiopquic_wt_strdup; destruct a3; safe_still|by apply Hput]|].
  do 2 (sbind; [by apply (safe_set_st P)|]).
  sbind; [apply safe_h3_; [exact _|]; intros tr m; apply (ho_grows ev Hok tr (H3DeclareStreamPrefix _ _ _))|].
  sbind; [safe_still|]. change 2 with (1 + (1 + 0)).
  eapply (safe_bind 1 _ _ _ _ (λ _, P)); [lia|lia|apply safe_push; first [exact _|done]|intros rc].
  eapply (safe_bind 1 _ _ _ _ (λ _, P)); [lia|lia|apply safe_push; first [exact _|done]|intros rc'].
  apply safe_end.
Qed.

(** What the server's callback relies on: its stream, and behind each prefix of
    WebTransport a context that may be handed over with it. *)
Definition server_live (st : Z) (w : world) : Prop :=
  st <> 0 -> stream_in st w ∧ ∀ p z, hm_prefixes (wt_h3 (w_wt w)) !! p = Some z ->
    px_function_call z = FnWtPath -> handed (px_function_ctx z) st w.

Lemma safe_stage {B C} n B0 P (m : M B) (k : B -> M C) Q g w : sf 0 P m Q -> 0 <= n ->
  winv x xd g w -> wt_room g n -> P w ->
  (∀ b g1 w1, winv x xd g1 w1 -> wt_room g1 n -> g_T g1 = g_T g -> Q b w1 -> callable n B0 (k b) g1 w1) ->
  callable n B0 (b ← m; k b) g w.
Proof using Type.
  intros Hm Hn I Hr HP Hk. apply wp_bind. eapply wp_mono.
  { apply (Hm g w I); [eapply wt_room_le; [done|lia]|done]. }
  intros b w1 (g1 & I1 & G1 & HQ). eapply wp_mono.
  { apply (Hk b g1 w1 I1); [by eapply (wgrows_room 0 0)|destruct G1; lia|exact HQ]. }
  intros c w2 (g2 & I2 & G2). exists g2. split; [done|].
  replace n with (0 + n) by lia. replace B0 with (0 + B0) by lia. by eapply wgrows_trans.
Qed.

Lemma server_callable race cnx path_bytes path_len path event st g w :
  server_live st w -> Forall (is_send x) race -> g_T g + run_bytes race < 2 ^ 64 ->
  winv x xd g w -> wt_room g 2 ->
  callable 2 (run_bytes race)
    (aiopquic_wt_server_path_callback ev race cnx path_bytes path_len path event st) g w.
Proof using Eok Hok X0 XD0.
  intros Hl Hrace HT I Hr. pose proof (run_bytes_nonneg race) as HB.
  unfold aiopquic_wt_server_path_callback.
  destruct (Z.eqb_spec st 0) as [Hst|Hst]; [by apply callable_refl|].
  destruct (Hl Hst) as [Hin Hpx]. set (P := λ w1, w_wt w1 = w_wt w).
  assert (HP : OnWt P) by (intros w1 w2 E1 E2; unfold P in *; congruence).
  eapply (safe_stage _ _ P); [safe_still|lia|done|done|done|]. intros h g1 w1 I1 R1 T1 E1.
  destruct (h =? 0); [by apply callable_refl|].
  assert (Hin1 : stream_in st w1) by (eapply (on_wt w); [exact E1|done]).
  destruct (bool_decide (event = picohttp_callback_connect)) eqn:He; cbn [negb].
  - eapply (safe_callable 2 2 _ (stream_in st)); [|lia|done|exact I1|exact R1|exact Hin1].
    sbind; [safe_still|]. apply (safe_bind0 2 _ _ _ (λ _, stream_in st)); [lia| |intros sel].
    + destruct a; [apply safe_select; first [exact _|done]|safe_still].
    + apply safe_if0; [apply safe_le0; [lia|apply safe_end]|apply safe_accept].
  - set (Q := λ w2, stream_in st w2 ∧ ∀ p z, hm_prefixes (wt_h3 (w_wt w2)) !! p = Some z ->
      px_function_call z = FnWtPath -> handed (px_function_ctx z) st w2).
    assert (HQ1 : Q w1).
    { unfold Q. unfold P in E1. split; [done|]. unfold handed, alive, sts in *. by rewrite E1. }
    eapply (safe_stage _ _ Q _ _ (λ _, Q)); [apply (safe_st Q st); by intros w2 [? _]|lia|done..|].
    intros id g2 w2 I2 R2 T2 HQ2.
    eapply (safe_stage _ _ Q _ _ (λ p w3, p <> 0 -> ∃ z, hm_prefixes (wt_h3 (w_wt w3)) !! p = Some z ∧
      (px_function_call z = FnWtPath -> handed (px_function_ctx z) st w3))); [|lia|done..|].
    { apply safe_h3mem. intros w3 [Hs3 Hp3]. eexists _, _. split; [done|]. split; [done|].
      split; [done|]. intros Hn.
      destruct (ho_prefix ev Hok (w_trace w3) h id (wt_h3 (w_wt w3)) Hn) as (z & Ez & Hz).
      exists z. split; [done|]. intros Hf. apply (h3_stable w3); [|done|done|].
      - apply (ho_grows ev Hok (w_trace w3) (H3FindStreamPrefix h id)).
      - eapply Hp3; [by apply Hz|done]. }
    intros p g3 w3 I3 R3 T3 H3.
    destruct (Z.eqb_spec p 0) as [Hp|Hp].
    { apply wp_bind, wp_ret. rewrite bool_decide_eq_false_2 by done. by apply callable_refl. }
    destruct (H3 Hp) as (z & Ez & Hz). apply wp_bind. eexists _, w3.
    split; [unfold read_px; by rewrite Ez|].
    destruct (bool_decide (px_function_call z = FnWtPath)) eqn:Hf;
      [apply bool_decide_eq_true in Hf|by apply callable_refl].
    apply wp_bind. eexists _, w3. split; [unfold read_px; by rewrite Ez|].
    apply path_callable; try done; [by apply Hz|congruence].
Qed.
End path.
