(* ===== verification/WtCmd.v ===== *)
(** * The WebTransport commands are safe

    aiopquic_wt_handle_tx, one lemma per command: from a state in which the session is
    in memory and h3zero's structs hold together ([linked]), the command is defined
    and keeps the invariant.  [h3_cmd_ok] says what the calls a command makes into
    h3zero and picowt may do. *)
From S2P Require Import Prelude Ring Store StreamBuf SpscRing EventChannel DgramBuf DgramTable.
From S2P Require Import StreamCtx WtState Bridge Alpn Callback World BridgeSafe StreamCb PySide Runs.
From S2P Require Import WtProto WtSession WtPath WtTx WtBudget WtRun WtSpec WtSafe WtCalls.

(** ** What h3zero holds *)

Definition ctx_kept (y : wt_session) (m : h3_mem) : Prop :=
  ws_h3_ctx y <> 0 -> is_Some (hm_ctxs m !! ws_h3_ctx y).

(** A callback context h3zero was given: a session, or a link and its session. *)
Definition registered (o : gmap Z wt_obj) (m : h3_mem) (ctx : Z) : Prop :=
  ctx = 0 ∨
  match o !! ctx with
  | Some (ObjSession y) => ctx_kept y m
  | Some (ObjLink k) =>
      wl_session k = 0 ∨ ∃ y, o !! wl_session k = Some (ObjSession y) ∧ ctx_kept y m
  | None => False
  end.

(** Every context h3zero stores was given to it; the streams of its trees are in memory. *)
Record linked (o : gmap Z wt_obj) (m : h3_mem) : Prop := {
  lk_streams : ∀ st z, hm_streams m !! st = Some z -> registered o m (hs_path_callback_ctx z);
  lk_prefixes : ∀ p z, hm_prefixes m !! p = Some z -> px_function_call z = FnWtPath ->
    registered o m (px_function_ctx z);
  lk_tree : ∀ h c, hm_ctxs m !! h = Some c -> Forall (λ st, is_Some (hm_streams m !! st)) (hc_h3_stream_tree c)
}.

(** The calls of the commands; at most [N] callbacks come out of a deregistering one. *)
Record h3_cmd_ok (ev : env) (N : Z) : Prop := {
  hc_grows : ∀ tr c m, match c with
      | PicowtPrepareClientCnx _ _ _ | PicowtCreateLocalStream _ _ _ _
      | PicowtSendCloseSession _ _ _ _ | PicowtSendDrainSession _ _ | H3FindStream _ _
      | PicowtResetStream _ _ _ | H3SetDatagramReady _ _ => h3_grows m (ev_h3 ev tr c m)
      | _ => True
      end;
  hc_found : ∀ tr c m, match c with
      | H3FindStream _ _ | PicowtCreateLocalStream _ _ _ _ => ev_pq ev tr c <> 0 ->
          is_Some (hm_streams (ev_h3 ev tr c m) !! ev_pq ev tr c)
      | _ => True
      end;
  hc_linked : ∀ tr c m o, match c with
      | H3FindStream _ _ | PicowtResetStream _ _ _ | PicowtDeregister _ _ _
      | H3DeleteStreamPrefix _ _ _ => linked o m -> linked o (ev_h3 ev tr c m)
      | _ => True
      end;
  hc_deregisters : ∀ tr c m o, match c with
      | PicowtDeregister _ _ _ | H3DeleteStreamPrefix _ _ _ => linked o m ->
          zlen (ev_deregisters ev tr c) <= N ∧
          Forall (registered o (ev_h3 ev tr c m)) (ev_deregisters ev tr c)
      | _ => True
      end;
  (** picowt_prepare_client_cnx: the context and the control stream it hands out. *)
  hc_prepared : ∀ tr a n sni m,
    let c := PicowtPrepareClientCnx a n sni in let m' := ev_h3 ev tr c m in
    let tr0 := tr ++ [(c, ev_pq ev tr c)] in
    let tr1 := tr0 ++ [(PicowtPrepareOut 0, ev_pq ev tr0 (PicowtPrepareOut 0))] in
    let h := ev_pq ev tr1 (PicowtPrepareOut 1) in
    let st := ev_pq ev (tr1 ++ [(PicowtPrepareOut 1, h)]) (PicowtPrepareOut 2) in
    (h <> 0 -> is_Some (hm_ctxs m' !! h)) ∧ (st <> 0 -> is_Some (hm_streams m' !! st))
}.

(** The session a command is for, its context and its control stream. *)
Definition session_live (s : Z) (w : world) : Prop :=
  ∃ y, wt_objs (w_wt w) !! s = Some (ObjSession y) ∧ ctx_kept y (wt_h3 (w_wt w)) ∧
    (ws_control_stream y <> 0 -> stream_in (ws_control_stream y) w).

#[export] Instance session_live_wt s : OnWt (session_live s).
Proof. intros w w' E. unfold session_live, stream_in, sts. by rewrite E. Qed.
#[export] Instance session_live_h3 s : H3Stable (session_live s).
Proof.
  intros w w' [Gs Gc] Eo _ (y & Ey & Hc & Hst). exists y. rewrite Eo. split; [done|].
  split; [intros Hn; by apply Gc, Hc|]. intros Hn. by apply Gs, Hst.
Qed.

Lemma session_live_in s w : session_live s w -> session_in s w.
Proof. intros (y & Ey & _). by exists y. Qed.

#[export] Instance ctx_in_wt h : OnWt (ctx_in h).
Proof. intros w w' E. unfold ctx_in. by rewrite E. Qed.
#[export] Instance ctx_in_stable h : SessionStable (ctx_in h).
Proof. by intros w s y y' _. Qed.

(** Writing the fields of a session that point nowhere. *)
Definition same_core (y y' : wt_session) : Prop :=
  ws_dgram_ring y' = ws_dgram_ring y ∧ ws_h3_ctx y' = ws_h3_ctx y ∧
  ws_control_stream y' = ws_control_stream y.

Class Kept (P : world -> Prop) : Prop :=
  kept : ∀ w s y y', wt_objs (w_wt w) !! s = Some (ObjSession y) -> same_core y y' -> P w ->
    P (set_objs (<[s := ObjSession y']> (wt_objs (w_wt w))) w).

#[export] Instance stable_kept P : SessionStable P -> Kept P.
Proof. intros H w s y y' Ey _ HP. by eapply H. Qed.
#[export] Instance and_kept P Q : Kept P -> Kept Q -> Kept (λ w, P w ∧ Q w).
Proof. intros HP HQ w s y y' Ey Hy [? ?]. split; [by eapply HP|by eapply HQ]. Qed.
#[export] Instance session_live_kept s : Kept (session_live s).
Proof.
  intros w t y y' Ey (_ & Hc & Hs) (z & Ez & Hz & Hst). unfold session_live, ctx_kept, stream_in in *. cbn.
  destruct (decide (s = t)) as [->|Hn].
  - exists y'. rewrite Ey in Ez. injection Ez as <-. by rewrite lookup_insert_eq, Hc, Hs.
  - exists z. by rewrite lookup_insert_ne.
Qed.

(** *** What a reset relies on *)

Definition linkedw (w : world) : Prop := linked (wt_objs (w_wt w)) (wt_h3 (w_wt w)).

(** [sc] is null or the wrapper of a link. *)
Definition held_sc (sc : Z) (w : world) : Prop :=
  sc = 0 ∨ ∃ l k, wt_objs (w_wt w) !! l = Some (ObjLink k) ∧ wl_sc k = sc.

(** No reference count is near its width. *)
Definition few_counts (w : world) : Prop :=
  ∀ p c, sw_scs (w_sc w) !! p = Some c -> sc_refcount c < 2 ^ 31.

Definition has_tx (sc : Z) (w : world) : Prop :=
  ∃ c, sw_scs (w_sc w) !! sc = Some c ∧ is_Some (sc_tx c).

#[export] Instance linkedw_wt : OnWt linkedw.
Proof. intros w w' E. unfold linkedw. by rewrite E. Qed.
#[export] Instance held_sc_wt sc : OnWt (held_sc sc).
Proof. intros w w' E. unfold held_sc. by rewrite E. Qed.
#[export] Instance held_sc_h3 sc : H3Stable (held_sc sc).
Proof. intros w w' _ E _. unfold held_sc. by rewrite E. Qed.
#[export] Instance few_framed : Framed few_counts.
Proof. intros w w' [_ E] _. unfold few_counts. by rewrite E. Qed.
#[export] Instance few_h3 : H3Stable few_counts.
Proof. intros w w' _ _ E. apply frame_res in E as [_ E]. unfold few_counts. by rewrite E. Qed.
#[export] Instance has_tx_framed sc : Framed (has_tx sc).
Proof. intros w w' [_ E] _. unfold has_tx. by rewrite E. Qed.

Lemma few_below x xd g w : inv x xd g (res_of w) -> few_counts w -> few_refs x g.
Proof.
  intros I Hb p. destruct (Z.lt_trichotomy 0 (sc_refs x g p)) as [Hp|Hp]; [|lia].
  pose proof (iv_sc _ _ _ _ I) as W. change (s_sc (res_of w)) with (w_sc w) in W.
  destruct (rc_some (si_refs _ _ _ (wr_inv _ _ _ _ W)) p Hp) as (c & E & Ec).
  change (rc_count c) with (sc_refcount c) in Ec. specialize (Hb p c E). lia.
Qed.

Definition streams_in (sts : list Z) (w : world) : Prop := Forall (λ st, stream_in st w) sts.
Definition link_at (l : Z) (k : wt_link) (w : world) : Prop := wt_objs (w_wt w) !! l = Some (ObjLink k).

#[export] Instance streams_in_wt sts : OnWt (streams_in sts).
Proof. intros w w' E H. eapply Forall_impl; [exact H|]. intros st Hst. by eapply on_wt. Qed.
#[export] Instance streams_in_h3 sts : H3Stable (streams_in sts).
Proof. intros w w' G E R H. eapply Forall_impl; [exact H|]. intros st Hst. by eapply h3_stable. Qed.
#[export] Instance link_at_wt l k : OnWt (link_at l k).
Proof. intros w w' E. unfold link_at. by rewrite E. Qed.
#[export] Instance link_at_h3 l k : H3Stable (link_at l k).
Proof. intros w w' _ E _. unfold link_at. by rewrite E. Qed.

(** A stream loses its callback context. *)
Lemma linked_unhook o m st z z' : linked o m -> hm_streams m !! st = Some z ->
  hs_path_callback_ctx z' = hs_path_callback_ctx z ∨ hs_path_callback_ctx z' = 0 ->
  linked o (H3Mem (<[st := z']> (hm_streams m)) (hm_prefixes m) (hm_ctxs m)).
Proof.
  intros [Hs Hp Ht] Ez Hz'. split; cbn.
  - intros st' z2. rewrite lookup_insert_Some. intros [[<- <-]|[_ E2]]; [|by eapply Hs].
    destruct Hz' as [->| ->]; [by eapply Hs|by left].
  - exact Hp.
  - intros h c Ec. eapply Forall_impl; [by eapply Ht|]. intros st'. apply is_some_insert.
Qed.

(** *** References on datagram rings *)

Section refs.
Context {x xd : Z -> Z} {g : ghost} {w : world} (I : inv x xd g (res_of w)).

Lemma sp_addref p b : rs_rings (w_rs w) !! p = Some b -> db_refcnt b < 2 ^ 31 ->
  wp (on_rs (λ st, rs_addref st p)) (λ _ w', w_wt w' = w_wt w ∧ inv x (inc xd p) g (res_of w')) w.
Proof using I.
  intros E Hb. destruct (iv_db _ _ _ _ I) as [(m & R & O) Hc Hu Hn Hs].
  change (s_rs (res_of w)) with (w_rs w) in *. change (s_tab (res_of w)) with (b_dgram_table (w_ctx w)) in *.
  destruct (rc_live _ _ (ro_refs _ _ O) p b E) as [Hcnt Hpos].
  change (rc_count b) with (db_refcnt b) in Hcnt.
  destruct (rs_addref_spec O p) as (st' & E' & O'); [lia..|].
  exists tt, (w_set_rs st' w). split; [unfold on_rs; by rewrite E'|]. split; [done|].
  destruct I. split; try done; cbn.
  - split; try done.
    + exists m. split; [done|]. eapply rs_ok_ext; [|exact O']. intros q. cbn. unfold db_refs, inc. lia.
    + eapply rings_from_sound; [by eapply addref_from|done].
  - intros q. specialize (iv_xd q). unfold inc. pose proof (c_bool_nonneg (q =? p)). lia.
Qed.

Lemma sp_unref p : 0 < xd p ->
  wp (on_rs (λ st, rs_unref st p)) (λ _ w', w_wt w' = w_wt w ∧ inv x (dec xd p) g (res_of w') ∧
    ∀ q b, q <> p -> rs_rings (w_rs w) !! q = Some b -> rs_rings (w_rs w') !! q = Some b) w.
Proof using I.
  intros Hp. assert (Hp' : 0 < db_refs xd g p).
  { unfold db_refs. pose proof (lsum_nonneg (rel_ref p) (g_tx g) (λ e, proj1 (holds_range _ _ e))).
    pose proof (lsum_nonneg (owed_ref p) (g_owed g) (λ e, c_bool_nonneg _)). lia. }
  destruct (rings_unref (iv_db _ _ _ _ I) p Hp') as (st' & E' & R').
  change (s_rs (res_of w)) with (w_rs w) in *.
  exists tt, (w_set_rs st' w). split; [unfold on_rs; by rewrite E'|]. split; [done|]. split.
  - destruct I. split; try done; cbn.
    + eapply rings_ext; [|exact R']. intros q. unfold db_refs, dec. cbn. lia.
    + intros q. specialize (iv_xd q). unfold dec.
      pose proof (lsum_nonneg (rel_ref q) (g_tx g) (λ e, proj1 (holds_range _ _ e))).
      destruct (Z.eqb_spec q p) as [->|]; cbn; lia.
  - intros q b Hq E. cbn. revert E'. unfold rs_unref. destruct (p =? 0); [by intros [= <-]|].
    destruct (rs_rings (w_rs w) !! p) as [d|]; [|done]. cbn [mbind option_bind].
    unfold aiopquic_dgram_buf_unref. destruct (db_refcnt d =? 1); intros [= <-]; cbn [rs_rings].
    + by rewrite lookup_delete_ne.
    + by rewrite lookup_insert_ne.
Qed.
End refs.

Section cmd.
Context {ev : env} (Eok : env_ok ev) (Hok : h3_ok ev) {N : Z} (Hcm : h3_cmd_ok ev N).
Context {x xd : Z -> Z} (X0 : ∀ p, 0 <= x p) (XD0 : ∀ p, 0 <= xd p).
Abbreviation sf := (safe (x := x) (xd := xd)).

(** *** Events, for a session in memory *)

Section about.
Context (P : world -> Prop) `{!OnWt P} (s : Z) (Ps : ∀ w, P w -> session_in s w).

Lemma safe_note t id code data : aiopquic_rx_event_owns_sc (evt_code t) = false ->
  sf 1 P (aiopquic_wt_push_event ev s t id code data) (λ _, P).
Proof using Eok Ps OnWt0.
  intros Ht. unfold aiopquic_wt_push_event. eapply safe_bind0; [lia|by apply (safe_at P)|intros cnx; cbn beta].
  change 1 with (1 + 0). eapply safe_bind; [lia|lia|apply safe_push; first [exact _|done]|intros rc; cbn beta].
  apply safe_when; [lia|]. intros _. safe_still.
Qed.

Lemma safe_created id q code :
  sf 1 P (aiopquic_wt_push_stream_created ev s id q code) (λ _, P).
Proof using Eok Ps OnWt0.
  unfold aiopquic_wt_push_stream_created. eapply safe_bind0; [lia|by apply (safe_at P)|intros cnx; cbn beta].
  change 1 with (1 + 0). eapply safe_bind; [lia|lia| |intros rc; cbn beta; apply safe_unit; exact _].
  apply safe_push; try first [exact _|done]. intros _. unfold entry_owns. cbn. by rewrite andb_false_r.
Qed.

Lemma safe_release_note id q : sf 1 P (aiopquic_wt_push_link_release ev s id q) (λ _, P).
Proof using Eok Ps OnWt0.
  unfold aiopquic_wt_push_link_release. eapply safe_bind0; [lia|by apply (safe_at P)|intros cnx; cbn beta].
  change 1 with (1 + 0). eapply safe_bind; [lia|lia| |intros rc; cbn beta; apply safe_unit; exact _].
  apply safe_push; try first [exact _|done]. intros _. unfold entry_owns. cbn. by rewrite andb_false_r.
Qed.
End about.

Section keeps.
Context (P : world -> Prop) `{!OnWt P, !Kept P} (s : Z) (Ps : ∀ w, P w -> session_in s w).

Lemma safe_keep f : (∀ y, same_core y (f y)) -> sf 0 P (upd_s s f) (λ _, P).
Proof using Ps Kept0.
  intros Hf. apply safe_write; [done|intros y; apply Hf|]. intros w y Ey HP. by eapply kept.
Qed.

Lemma safe_get_s {B} (f : wt_session -> B) : sf 0 P (read_s s f) (λ _, P).
Proof using Ps. by apply (safe_at P). Qed.

Lemma safe_close_cnx cnx : sf 0 P (aiopquic_wt_maybe_close_cnx ev s cnx) (λ _, P).
Proof using Ps Kept0 OnWt0.
  unfold aiopquic_wt_maybe_close_cnx. apply safe_if0; [safe_still|].
  sbind; [safe_still|]. do 2 (sbind; [apply safe_get_s|]).
  apply safe_if0; [safe_still|]. sbind; [safe_still|]. sbind; [apply safe_get_s|].
  cbv zeta. sbind; [apply safe_get_s|]. apply safe_when; [lia|]. intros _.
  sbind; [by apply safe_keep|]. safe_still.
Qed.

Lemma safe_fin_sent cnx : sf 0 P (aiopquic_wt_fin_sent ev s cnx) (λ _, P).
Proof using Ps Kept0 OnWt0.
  unfold aiopquic_wt_fin_sent. do 2 (sbind; [by apply safe_keep|]). apply safe_close_cnx.
Qed.
End keeps.

(** *** Commands that only look at the session *)

Section live.
Context (s : Z) (Hs : s <> 0).
Abbreviation L := (session_live s).

#[local] Hint Resolve session_live_in : core.

Definition has_control (w : world) : Prop :=
  ∃ y, wt_objs (w_wt w) !! s = Some (ObjSession y) ∧ ws_control_stream y <> 0.

#[local] Instance has_control_wt : OnWt has_control.
Proof using Type. intros w w' E. unfold has_control. by rewrite E. Qed.

Lemma safe_read_control :
  sf 0 (λ w, L w ∧ has_control w) (read_s s ws_control_stream) (λ c w, c <> 0 ∧ L w ∧ stream_in c w).
Proof using Type.
  apply safe_h3mem. intros w [HL (y & Ey & Hn)]. pose proof HL as (y' & Ey' & _ & Hst).
  rewrite Ey in Ey'. injection Ey' as <-. unfold read_s. rewrite Ey. eexists _, w. split; [done|].
  split; [done|]. split; [done|]. split; [done|]. split; [done|]. by apply Hst.
Qed.

Lemma safe_no_control : sf 0 L (no_control s) (λ gone w, L w ∧ (gone = false -> has_control w)).
Proof using Hs.
  unfold no_control. rewrite (proj2 (Z.eqb_neq s 0)) by done.
  sbind; [apply (safe_get_s L); auto|]. rename a into cnx.
  apply safe_h3mem. intros w HL. pose proof HL as (y & Ey & _).
  unfold mbind, M_bind, bind, read_s. rewrite Ey. eexists _, w. split; [done|].
  split; [done|]. split; [done|]. split; [done|]. intros [_ Hc%Z.eqb_neq]%orb_false_iff. by exists y.
Qed.

Lemma safe_no_cnx : sf 0 L (no_cnx s) (λ _, L).
Proof using Type.
  unfold no_cnx. apply safe_if0; [safe_still|]. sbind; [apply (safe_get_s L); auto|]. safe_still.
Qed.

(** A call that frees nothing. *)
Lemma safe_grows P `{!H3Stable P} c : (∀ tr m, h3_grows m (ev_h3 ev tr c m)) ->
  sf 0 P (h3 ev c) (λ _, P).
Proof using Type. apply safe_h3. exact _. Qed.

Lemma safe_found {B} n P `{!H3Stable P} c (k : Z -> M B) Q : 0 <= n ->
  (∀ tr m, h3_grows m (ev_h3 ev tr c m)) ->
  (∀ tr m, ev_pq ev tr c <> 0 -> is_Some (hm_streams (ev_h3 ev tr c m) !! ev_pq ev tr c)) ->
  (∀ st, sf n (λ w, P w ∧ (st <> 0 -> stream_in st w)) (k st) Q) -> sf n P (st ← h3 ev c; k st) Q.
Proof using Type.
  intros Hn Hg Hf Hk. eapply safe_bind0; [done| |exact Hk]. apply safe_h3mem. intros w HP.
  eexists _, _. split; [done|]. split; [done|]. split; [done|]. split; [|by apply Hf].
  apply (h3_stable w); [|done|done|exact HP]. apply Hg.
Qed.

(** Behind the guard of a command on the control stream. *)
Lemma safe_guard (k : bool -> M unit) n Q : 0 <= n ->
  sf 0 L (k true) (λ _ _, True) -> sf n (λ w, L w ∧ has_control w) (k false) Q ->
  sf n L (gone ← no_control s; k gone) (λ _ _, True).
Proof using Hs.
  intros Hn Ht Hf. eapply safe_bind0; [done|apply safe_no_control|]. intros [|]; cbn beta.
  - apply safe_le0; [done|]. eapply safe_pre; [exact Ht|by intros w [? _]].
  - eapply safe_drop, safe_pre; [exact Hf|]. intros w [? H]. split; [done|by apply H].
Qed.

Lemma safe_wt_fin : sf 0 L (tx_wt_fin ev s) (λ _ _, True).
Proof using Hs.
  unfold tx_wt_fin. eapply (safe_guard (λ gone, if gone then _ else _)); [lia|apply safe_end|].
  sbind; [apply (safe_get_s (λ w, L w ∧ has_control w)); intros w [? _]; auto|].
  sbind; [apply safe_read_control|]. apply safe_pure. intros Hc. rename a0 into control.
  set (P := λ w, L w ∧ stream_in control w).
  assert (Ps : ∀ w, P w -> session_in s w) by (intros w [? _]; auto).
  sbind; [by apply (safe_get_s P)|].
  sbind; [apply (safe_if0 _ _ _ _ _ (λ _, P)); [by apply (safe_st P control); [intros w [_ ?]]|safe_still]|].
  sbind; [apply safe_when; [lia|intros _]; sbind; [by apply (safe_get_s P)|safe_still]|].
  eapply safe_drop. by apply (safe_fin_sent P).
Qed.

Lemma safe_wt_drain : sf 0 L (tx_wt_drain ev s) (λ _ _, True).
Proof using Hs Hcm.
  unfold tx_wt_drain. eapply (safe_guard (λ gone, if gone then _ else _)); [lia|apply safe_end|].
  eapply safe_pre; [|intros w [H _]; exact H].
  do 2 (sbind; [apply (safe_get_s L); auto|]). eapply safe_drop. apply safe_h3_; [exact _|].
  intros tr m. apply (hc_grows ev N Hcm tr (PicowtSendDrainSession _ _)).
Qed.
Lemma no_control_run w : session_live s w ->
  ∃ gone, no_control s w = Some (gone, w) ∧ (gone = false -> has_control w).
Proof using Hs.
  intros (y & Ey & _). unfold no_control. rewrite (proj2 (Z.eqb_neq s 0)) by done.
  unfold mbind, M_bind, bind, read_s. rewrite Ey. cbn beta iota. rewrite Ey. eexists. split; [done|].
  intros [_ Hc%Z.eqb_neq]%orb_false_iff. by exists y.
Qed.

(** The entry that is handled is the head of the TX ring when it has a payload. *)
Definition at_head (g : ghost) (e : spsc_entry) : Prop := e_data_buf e <> 0 -> ∃ q, g_tx g = e :: q.

Lemma payload_read {e g w} Φ : winv x xd g w -> at_head g e -> (e_data_buf e = 0 -> Φ None w) ->
  (∀ bs, zlen bs = e_data_length e -> Φ (Some bs) w) -> wp (payload e) Φ w.
Proof using Type.
  intros I Hq H1 H2. destruct (decide (e_data_buf e = 0)) as [Hz|Hz].
  - exists None, w. unfold payload. rewrite Hz. split; [done|]. by apply H1.
  - destruct (Hq Hz) as [q Eq]. by apply (sp_payload I Eq).
Qed.

Lemma close_callable e g w : winv x xd g w -> at_head g e -> session_live s w -> wt_room g 0 ->
  callable (x := x) (xd := xd) 0 0 (tx_wt_close ev s e) g w.
Proof using Hs Hcm Eok.
  intros I Eq HL Hr. unfold tx_wt_close. apply wp_bind.
  destruct (no_control_run w HL) as (gone & E & _). eexists gone, w. split; [done|].
  destruct gone; [by apply callable_refl|]. apply wp_bind.
  assert (K : ∀ text : list Z, callable (x := x) (xd := xd) 0 0
    (cnx ← read_s s ws_cnx;
     control ← read_s s ws_control_stream;
     rc ← h3 ev (PicowtSendCloseSession cnx control (u32 (e_error_code e)) text);
     upd_s s (ws_set_session_closing 1) ;;
     when (rc =? 0) (aiopquic_wt_fin_sent ev s cnx)) g w).
  { intros text. eapply (safe_callable 0 0 0 L _ (λ _ _, True)); try done.
    do 2 (sbind; [apply (safe_get_s L); auto|]). sbind.
    { apply safe_grows; [exact _|]. intros tr m. apply (hc_grows ev N Hcm tr (PicowtSendCloseSession _ _ _ _)). }
    sbind; [apply (safe_keep L s); auto; done|]. eapply safe_drop. apply safe_when; [lia|]. intros _.
    apply (safe_fin_sent L). auto. }
  apply (payload_read _ I Eq); intros; exact (K _).
Qed.

(** Behind the guard of a command on the connection. *)
Lemma safe_cnx_guard (k : bool -> M unit) n Q : 0 <= n ->
  sf 0 L (k true) (λ _ _, True) -> sf n L (k false) Q ->
  sf n L (gone ← no_cnx s; k gone) (λ _ _, True).
Proof using Type.
  intros Hn Ht Hf. eapply safe_bind0; [done|apply safe_no_cnx|]. intros [|]; cbn beta.
  - by apply safe_le0.
  - by eapply safe_drop.
Qed.

Lemma safe_wt_set_stream_priority e : sf 0 L (tx_wt_set_stream_priority ev s e) (λ _ _, True).
Proof using Type.
  unfold tx_wt_set_stream_priority.
  eapply (safe_cnx_guard (λ gone, if gone then _ else _)); [lia|eapply safe_drop; safe_still|].
  sbind; [apply (safe_get_s L); auto|]. apply (safe_idle L); [idle_tac|keeps_tac].
Qed.

Lemma safe_wt_set_datagram_priority e : sf 0 L (tx_wt_set_datagram_priority ev s e) (λ _ _, True).
Proof using Type.
  unfold tx_wt_set_datagram_priority.
  eapply (safe_cnx_guard (λ gone, if gone then _ else _)); [lia|eapply safe_drop; safe_still|].
  sbind; [apply (safe_get_s L); auto|]. apply (safe_idle L); [idle_tac|keeps_tac].
Qed.

(** picoquic's stream context of the stream put back. *)
Lemma safe_reattach P `{!OnWt P} cnx st : (∀ w, P w -> stream_in st w) ->
  sf 0 P (aiopquic_wt_stream_reattach ev cnx st) (λ _, P).
Proof using Type.
  intros Hst. unfold aiopquic_wt_stream_reattach. sbind; [by apply (safe_st P st)|]. safe_still.
Qed.

(** The stream h3zero finds, when it has a context. *)
Lemma safe_find_stream {B} n P `{!OnWt P, !H3Stable P} h id (k : Z -> M B) Q : 0 <= n ->
  (∀ st, sf n (λ w, P w ∧ (st <> 0 -> stream_in st w)) (k st) Q) ->
  sf n P (st ← (if h =? 0 then ret 0 else h3 ev (H3FindStream h id)); k st) Q.
Proof using Hcm.
  intros Hn Hk. destruct (h =? 0).
  - eapply safe_bind0; [done|apply safe_ret|]. intros st. eapply safe_pre; [apply Hk|].
    intros w [-> ?]. by split.
  - apply safe_found; [exact _|done| | |exact Hk].
    + intros tr m. apply (hc_grows ev N Hcm tr (H3FindStream _ _)).
    + intros tr m. apply (hc_found ev N Hcm tr (H3FindStream _ _)).
Qed.

Lemma safe_wt_stop_sending e : sf 0 L (tx_wt_stop_sending ev s e) (λ _ _, True).
Proof using Hcm.
  unfold tx_wt_stop_sending.
  eapply (safe_cnx_guard (λ gone, if gone then _ else _)); [lia|apply safe_end|].
  sbind; [apply (safe_get_s L); auto|]. sbind; [safe_still|].
  apply (safe_if0 _ _ _ _ _ (λ _ _, True)); [|eapply safe_drop; safe_still].
  sbind; [safe_still|]. sbind; [safe_still|].
  apply (safe_find_stream 0 L); [lia|]. intros st.
  apply (safe_if _ _ _ _ _ (λ _ _, True)); [|intros _; apply safe_end].
  intros Hst%negb_true_iff%Z.eqb_neq. eapply safe_drop, (safe_pre _ (λ w, L w ∧ stream_in st w)).
  - apply safe_reattach; [exact _|by intros w [_ ?]].
  - intros w [? H]. split; [done|by apply H].
Qed.

(** The answer to a request for a stream, whatever happens. *)
Lemma safe_wt_create_stream e : sf 1 L (tx_wt_create_stream ev s e) (λ _ _, True).
Proof using Eok Hok Hcm Hs.
  unfold tx_wt_create_stream. rewrite (proj2 (Z.eqb_neq s 0)) by done.
  assert (Hans : ∀ id q code P, OnWt P -> (∀ w, P w -> session_in s w) ->
    sf 1 P (aiopquic_wt_push_stream_created ev s id q code) (λ _ _, True)).
  { intros id q code P HP Ps. eapply safe_drop. by apply safe_created. }
  do 2 (sbind; [apply (safe_get_s L); auto|]). apply safe_if0; [apply Hans; auto; exact _|].
  sbind; [apply (safe_get_s L); auto|]. apply (safe_found 1 L); [lia| | |].
  { intros tr m. apply (hc_grows ev N Hcm tr (PicowtCreateLocalStream _ _ _ _)). }
  { intros tr m. apply (hc_found ev N Hcm tr (PicowtCreateLocalStream _ _ _ _)). }
  intros st. destruct (Z.eqb_spec st 0) as [Hz|Hz].
  { apply Hans; [|intros w [? _]; auto].
    intros w w' E [? H]. split; [by eapply on_wt|]. intros ?. by eapply on_wt, H. }
  apply (safe_pre _ (λ w, alive s 0 0 st w)).
  2: { intros w [(y & Ey & Hc & _) Hst]. split; [by exists y|]. split; [done|]. intros _. by apply Hst. }
  sbind; [by apply (safe_read_st s 0 0 st)|].
  sbind; [by apply (safe_link_create Eok Hok s 0 0 st)|]. rename a2 into id, a3 into link.
  destruct (Z.eqb_spec link 0) as [Hl|Hl].
  { apply (safe_pre _ (session_in s)); [apply Hans; auto; exact _|].
    intros w [((y & Ey & _) & _) _]. by exists y. }
  apply (safe_pre _ (λ w, ∃ sc, alive s link sc st w)); [|by intros w [_ H]; apply H].
  apply safe_ex. intros sc.
  do 2 (sbind; [apply (safe_upd_st s link sc st (alive s link sc st)); first [exact _|done]|]).
  sbind; [by apply safe_read_link|]. apply safe_pure. intros _.
  apply (safe_pre _ (session_in s)); [apply Hans; auto; exact _|].
  intros w ((y & Ey & _) & _). by exists y.
Qed.
(** *** Opening a session *)

Lemma le_bytes_nonneg bs : 0 <= le_bytes bs.
Proof using Type.
  induction bs as [|b bs IH]; cbn [le_bytes]; [done|].
  assert (0 <= u8 b) by (unfold u8; apply Z.mod_pos_bound; lia). lia.
Qed.

Lemma open_params_some raw : wt_open_params_size ev <= zlen raw -> ∃ p, open_params ev raw = Some p ∧
  0 <= op_sni_len p ∧ 0 <= op_path_len p.
Proof using Eok.
  unfold wt_open_params_size, open_params. intros Hn. pose proof (eo_storage _ Eok).
  destruct (block_read_some raw 0 (ev_storage_len ev)) as [? ->]; [lia..|]. cbn [mbind option_bind].
  destruct (block_read_some raw (ev_storage_len ev) 2) as [? ->]; [lia..|]. cbn [mbind option_bind].
  destruct (block_read_some raw (ev_storage_len ev + 2) 2) as [? ->]; [lia..|]. cbn [mbind option_bind].
  destruct (block_read_some raw (ev_storage_len ev + 4) 2) as [? ->]; [lia..|]. cbn [mbind option_bind].
  destruct (block_read_some raw (ev_storage_len ev + 6) 1) as [? ->]; [lia..|]. cbn [mbind option_bind].
  eexists. split; [done|]. split; apply le_bytes_nonneg.
Qed.

(** Whatever the lengths say, no byte beyond the payload is read. *)
Lemma open_strings_some p raw n : n = zlen raw -> 0 <= op_sni_len p -> 0 <= op_path_len p ->
  ∃ r, open_strings ev p raw n = Some r.
Proof using Eok.
  intros -> Hsni Hpath. unfold open_strings. cbv zeta. pose proof (eo_storage _ Eok).
  assert (Hoff : 0 <= wt_open_params_size ev) by (unfold wt_open_params_size; lia).
  destruct (_ || _) eqn:E1; [by eexists|]. apply orb_false_iff in E1 as [_ E1].
  rewrite Z.gtb_ltb in E1. apply Z.ltb_ge in E1.
  destruct (block_read_some raw (wt_open_params_size ev) (op_sni_len p)) as [? ->]; [lia..|].
  cbn [mbind option_bind]. destruct (_ || _) eqn:E2; [by eexists|]. apply orb_false_iff in E2 as [_ E2].
  rewrite Z.gtb_ltb in E2. apply Z.ltb_ge in E2.
  destruct (block_read_some raw (wt_open_params_size ev + op_sni_len p) (op_path_len p)) as [? ->]; [lia..|].
  cbn [mbind option_bind]. destruct (_ && _) eqn:E3; [|by eexists].
  apply andb_true_iff in E3 as [[E3 _]%andb_true_iff E4].
  rewrite Z.gtb_ltb in E3. apply Z.ltb_lt in E3. apply Z.leb_le in E4.
  destruct (block_read_some raw (wt_open_params_size ev + op_sni_len p + op_path_len p)
    (op_protocols_len p)) as [? ->]; [lia..|]. by eexists.
Qed.
Lemma safe_dup P `{!OnWt P} src : sf 0 P (aiopquic_wt_strdup ev src) (λ _, P).
Proof using Type. unfold aiopquic_wt_strdup. destruct src; safe_still. Qed.

Lemma safe_keep_retry P `{!OnWt P, !Kept P} sni path protocols : (∀ w, P w -> session_in s w) ->
  sf 0 P (keep_retry ev s sni path protocols) (λ _, P).
Proof using Type.
  intros Ps. unfold keep_retry. do 3 (sbind; [by apply safe_dup|]; sbind; [by apply (safe_keep P s)|]).
  apply safe_when; [lia|]. intros _. by apply (safe_keep P s).
Qed.

Lemma safe_open_connect cnx h control cp sni path protocols : h <> 0 -> control <> 0 ->
  sf 1 (λ w, session_in s w ∧ ctx_in h w ∧ stream_in control w)
    (open_connect ev s cnx h control cp sni path protocols) (λ _ _, True).
Proof using Eok Hok.
  intros Hh Hc. set (P := λ w, session_in s w ∧ ctx_in h w ∧ stream_in control w).
  assert (HO : OnWt P) by exact _. assert (HS : SessionStable P) by exact _.
  assert (HK : Kept P) by exact _. assert (HH : H3Stable P) by exact _.
  assert (Ps : ∀ w, P w -> session_in s w) by (by intros w [? _]).
  assert (Hput : ∀ f, (∀ y, ws_dgram_ring (f y) = ws_dgram_ring y) -> sf 0 P (upd_s s f) (λ _, P)).
  { intros f Hf. by apply (safe_put P). }
  assert (Hctx : ∀ f, sf 0 P (upd_h3 h f) (λ _, P)).
  { intros f. apply safe_upd_ctx; [exact _|by intros w (_ & ? & _)|done]. }
  unfold open_connect. sbind; [by apply Hput|].
  sbind; [apply (safe_st P control); by intros w (_ & _ & ?)|]. sbind; [by apply Hput|].
  sbind; [apply Hctx|]. sbind; [apply safe_when; [lia|intros _]; by apply (safe_keep_retry P)|].
  sbind; [safe_still|]. sbind; [apply Hctx|].
  sbind; [apply safe_grows; [exact _|]; intros tr m; apply (ho_grows ev Hok tr (PicowtConnect _ _ _ _ _ _ _))|].
  sbind; [apply safe_if0; safe_still|].
  eapply safe_drop. apply safe_when; [lia|]. intros _. sbind; [by apply (safe_get_s P)|].
  by apply (safe_note P).
Qed.

(** picowt_prepare_client_cnx and what it hands out. *)
Lemma safe_prepared {B} n addr now sni (k : Z -> Z -> Z -> Z -> M B) Q :
  (∀ rc cnx h control, sf n (λ w, session_in s w ∧ ctx_in h w ∧ (control <> 0 -> stream_in control w))
    (k rc cnx h control) Q) ->
  sf n (session_in s)
    (rc ← h3 ev (PicowtPrepareClientCnx addr now sni);
     cnx ← pq ev (PicowtPrepareOut 0);
     h ← pq ev (PicowtPrepareOut 1);
     control ← pq ev (PicowtPrepareOut 2);
     k rc cnx h control) Q.
Proof using Hcm.
  intros Hk g w I Hr HP.
  destruct (hc_prepared ev N Hcm (w_trace w) addr now sni (wt_h3 (w_wt w))) as [Hh Hst].
  do 4 (apply wp_bind; eexists _, _; split; [done|]). by apply Hk.
Qed.

Lemma open_callable e g w : winv x xd g w -> at_head g e -> session_in s w -> wt_room g 1 ->
  callable (x := x) (xd := xd) 1 0 (tx_wt_open ev s e) g w.
Proof using Eok Hok Hcm Hs.
  intros I Eq Hin Hr. unfold tx_wt_open. apply wp_bind.
  apply (payload_read _ I Eq); [intros _; by apply callable_refl|]. intros raw El.
  rewrite (proj2 (Z.eqb_neq s 0)) by done. cbn [orb].
  destruct (Z.ltb_spec (e_data_length e) (wt_open_params_size ev)) as [|Hsz]; [by apply callable_refl|].
  destruct (open_params_some raw ltac:(lia)) as (p & Ep & Hsni & Hpath). apply wp_bind.
  eexists p, w. split; [by rewrite Ep|].
  destruct (open_strings_some p raw (e_data_length e) ltac:(lia) Hsni Hpath) as [r Er]. apply wp_bind.
  eexists r, w. split; [by rewrite Er|].
  destruct r as [code|[[sni path] protocols]].
  { eapply (safe_callable 1 1 0 (session_in s)); try done. eapply safe_drop. by apply (safe_note (session_in s)). }
  eapply (safe_stage 1 0 (session_in s)); [safe_still|lia|exact I|exact Hr|exact Hin|].
  intros now g1 w1 I1 R1 _ Hin1.
  eapply (safe_callable 1 1 0 (session_in s) _ (λ _ _, True)); try done.
  apply safe_prepared. intros rc cnx h control. apply safe_if; intros E.
  - eapply safe_drop, (safe_pre _ (session_in s)); [by apply (safe_note (session_in s))|by intros w2 [? _]].
  - rewrite !orb_false_iff in E. destruct E as [[_ Eh%Z.eqb_neq] Ec%Z.eqb_neq].
    eapply safe_pre; [by apply safe_open_connect|]. intros w2 (? & ? & H). split; [done|]. auto.
Qed.
(** *** Resets *)

Lemma held_refs g w sc : winv x xd g w -> held_sc sc w ->
  sc = 0 ∨ 0 < sc_refs (with_links x (wt_objs (w_wt w))) g sc.
Proof using X0.
  intros I [->|(l & k & Ek & <-)]; [by left|right]. eapply sc_refs_own; [exact I|]. unfold with_links.
  pose proof (objs_sum_ge (link_holds (wl_sc k)) _ _ _ (link_holds_nonneg _) Ek) as Hge.
  cbn in Hge. rewrite Z.eqb_refl in Hge. cbn in Hge. specialize (X0 (wl_sc k)). lia.
Qed.

Lemma safe_stream_link P st : (∀ w, P w -> linkedw w ∧ stream_in st w) ->
  sf 0 P (stream_link st) (λ r w, P w ∧
    match r with Some (l, k) => wt_objs (w_wt w) !! l = Some (ObjLink k) | None => True end).
Proof using Type.
  intros HP. apply safe_h3mem. intros w Hp. destruct (HP w Hp) as [HL [z Ez]]. unfold sts in Ez.
  pose proof (lk_streams _ _ HL st z Ez) as Hr. unfold stream_link, mbind, M_bind, bind, read_st.
  rewrite Ez. cbn [mbind option_bind]. destruct (Z.eqb_spec (hs_path_callback_ctx z) 0) as [Hz|Hz].
  { by eexists _, w. }
  destruct Hr as [?|Hr]; [done|].
  destruct (wt_objs (w_wt w) !! hs_path_callback_ctx z) as [[k|k]|] eqn:E; [| |done]; by eexists _, w.
Qed.

Lemma safe_stream_sc P st : (∀ w, P w -> linkedw w ∧ stream_in st w) ->
  sf 0 P (aiopquic_wt_stream_sc s st) (λ sc w, P w ∧ held_sc sc w).
Proof using Type.
  intros HP. unfold aiopquic_wt_stream_sc. sbind; [by apply safe_stream_link|].
  eapply safe_post; [apply safe_ret|]. intros sc w [-> [Hp Hl]]. split; [done|].
  destruct a as [[l k]|]; [|by left]. case_match; [|by left]. right. by exists l, k.
Qed.

Section reset.
Context (st sc : Z).
Abbreviation H := (λ w, stream_in st w ∧ held_sc sc w).
Abbreviation P := (λ w, H w ∧ few_counts w).

Lemma safe_reset_now cnx code : sf 0 H (aiopquic_wt_reset_stream ev cnx st code) (λ _, H).
Proof using Hcm.
  unfold aiopquic_wt_reset_stream. sbind.
  { apply (safe_grows H). intros tr m. apply (hc_grows ev N Hcm tr (PicowtResetStream _ _ _)). }
  apply safe_if0; [safe_still|]. sbind; [apply (safe_st H st); by intros w [? _]|]. safe_still.
Qed.

Lemma safe_reset_reliable cnx code preamble reliable :
  sf 0 H (aiopquic_wt_reset_stream_reliable ev cnx st code preamble reliable) (λ _, H).
Proof using Type.
  unfold aiopquic_wt_reset_stream_reliable. sbind; [apply (safe_st H st); by intros w [? _]|].
  sbind; [safe_still|]. sbind; [|safe_still].
  apply safe_when; [lia|]. intros _. apply (safe_set_st H st). by intros w [? _].
Qed.

Lemma safe_abandon : sf 0 H (on_sc (aiopquic_stream_ctx_tx_abandon sc)) (λ _, H).
Proof using X0.
  apply safe_lift; [apply quiet_wt, quiet_on_sc|]. intros y yd g w I -> -> _ HP.
  eapply wp_mono; [apply (sp_abandon I); apply (held_refs g w sc I), HP|].
  intros [] w' I'. exists g. split; [done|]. split; [apply wgrows_refl|]. intros Ew. by eapply (on_wt (P := H)).
Qed.

Lemma safe_reliable cnx requested : 0 <= requested < 2 ^ 64 ->
  sf 0 P (aiopquic_reset_reliable_size ev cnx sc requested) (λ n w,
    (0 <= n < 2 ^ 64 ∧ (0 < n -> sc <> 0)) ∧ P w ∧ (0 < n -> has_tx sc w)).
Proof using X0.
  intros Hreq. apply safe_lift; [apply quiet_wt, quiet_reliable_size|].
  intros y yd g w I -> -> _ HP.
  apply (sp_reliable_size _ _ g w cnx sc requested _ I); [apply (held_refs g w sc I), HP|done|].
  intros n w' E Hn Hsc. exists g. split; [by rewrite E|]. split; [apply wgrows_refl|]. intros Ew.
  split; [split; [done|]; intros Hpos; by apply Hsc|]. split.
  - eapply (framed (P := P)); [by apply frame_res|done|done].
  - intros Hpos. by apply Hsc.
Qed.

Lemma safe_defer cnx id code reliable preamble : 0 <= reliable < 2 ^ 64 -> sc <> 0 ->
  sf 0 (λ w, P w ∧ has_tx sc w) (aiopquic_defer_reset ev cnx sc id code reliable preamble 1) (λ _, H).
Proof using X0.
  intros Hrel Hsc g w I [_ Hwt] [HP Ht].
  destruct (held_refs g w sc I) as [?|Hp]; [apply HP|done|].
  eapply wp_mono; [apply (wp_keeps w_wt)|].
  - apply quiet_wt, quiet_defer.
  - apply (sp_defer_reset _ _ g w cnx sc id code reliable preamble 1 I (with_links_nonneg X0 _));
      [congruence|by eapply few_below; [|apply HP]|done|done|done].
  - intros rc w' [[(-> & g' & I' & G' & _)|[Hrc E]] Ew].
    + exists g'. split; [unfold winv; by rewrite Ew|]. split; [destruct G'; split; done || lia|].
      eapply (on_wt (P := H)); [done|apply HP].
    + exists g. split; [unfold winv; by rewrite Ew, E|]. split; [apply wgrows_refl|].
      eapply (on_wt (P := H)); [done|apply HP].
Qed.

Lemma safe_reset_go cnx e : 0 <= e_aux e < 2 ^ 64 ->
  sf 0 P (wt_reset_go ev s cnx st e sc) (λ _ _, True).
Proof using X0 Hcm.
  intros Haux. unfold wt_reset_go. cbv zeta. sbind; [by apply safe_reliable|].
  apply safe_pure. intros [Hr Hsc]. rename a into reliable.
  assert (HP : ∀ w, (P w ∧ (0 < reliable -> has_tx sc w)) -> H w) by (by intros w [[? _] _]).
  apply (safe_bind0 0 _ _ _ (λ _, H)); [lia| |intros [rr|]].
  - destruct (Z.eqb_spec reliable 0) as [Hz|Hz].
    { eapply safe_bind0; [lia|eapply safe_pre; [apply safe_reset_now|exact HP]|]. intros rr.
      eapply safe_post; [apply safe_ret|]. by intros b w [_ ?]. }
    set (Q := λ w, P w ∧ has_tx sc w).
    apply (safe_pre _ Q); [|intros w [? Ht]; split; [done|apply Ht; lia]].
    assert (Qst : ∀ w, Q w -> stream_in st w) by (by intros w [[[? _] _] _]).
    sbind.
    { unfold wt_preamble. sbind; [by apply (safe_st Q st)|]. sbind; [safe_still|].
      sbind; [by apply (safe_st Q st)|]. safe_still. }
    rename a into preamble. sbind.
    { apply (safe_h3mem Q (λ _, Q)). intros w HQ. pose proof HQ as [_ (c & Ec & tx & Et)].
      unfold read_tx. rewrite Ec. cbn [mbind option_bind]. rewrite Et. by eexists _, w. }
    assert (HQ : ∀ w, Q w -> H w) by (by intros w [[? _] _]).
    apply (safe_bind0 0 _ _ _ (λ _, H)); [lia| |intros [|]].
    + apply safe_if0; [|eapply safe_post; [apply safe_ret|intros b w [_ ?]; auto]].
      eapply safe_bind0; [lia|apply safe_defer; [done|apply Hsc; lia]|]. intros rc. cbn beta. safe_still.
    + safe_still.
    + sbind; [apply safe_reset_reliable|]. safe_still.
  - eapply safe_drop. sbind; [apply safe_when; [lia|intros _]; apply safe_abandon|].
    apply (safe_reattach H). by intros w [? _].
  - eapply safe_drop. safe_still.
Qed.
End reset.

Lemma safe_wt_reset_stream e : 0 <= e_aux e < 2 ^ 64 ->
  sf 0 (λ w, L w ∧ linkedw w ∧ few_counts w) (tx_wt_reset_stream ev s e) (λ _ _, True).
Proof using X0 Hcm.
  intros Haux. set (P := λ w, L w ∧ linkedw w ∧ few_counts w). unfold tx_wt_reset_stream.
  assert (Ps : ∀ w, P w -> session_in s w) by (intros w [? _]; auto).
  assert (HF : Framed P) by exact _.
  sbind; [unfold no_cnx; apply (safe_if0 _ _ _ _ _ (λ _, P)); [safe_still|]|].
  { sbind; [by apply (safe_at P)|]. safe_still. }
  destruct a; [apply safe_end|]. sbind; [by apply (safe_at P)|]. sbind; [safe_still|].
  apply (safe_bind0 0 _ _ _ (λ st w, P w ∧ (st <> 0 -> stream_in st w))); [lia| |intros st].
  { apply safe_if0; [eapply safe_post; [apply safe_ret|by intros b w [-> ?]]|].
    apply safe_h3mem. intros w (HL & Hlk & Hf). eexists _, _. split; [done|]. split; [done|].
    split; [done|]. split; [split; [|split]|].
    - apply (h3_stable w); [|done|done|exact HL]. apply (hc_grows ev N Hcm (w_trace w) (H3FindStream _ _)).
    - by apply (hc_linked ev N Hcm (w_trace w) (H3FindStream _ _)).
    - done.
    - apply (hc_found ev N Hcm (w_trace w) (H3FindStream _ _)). }
  destruct (Z.eqb_spec st 0) as [Hz|Hz]; [apply safe_end|].
  set (Q := λ w, P w ∧ stream_in st w).
  apply (safe_pre _ Q); [|intros w [? H]; split; [done|by apply H]].
  sbind; [safe_still|]. apply safe_if0; [eapply safe_drop; safe_still|].
  sbind; [apply (safe_stream_sc Q); by intros w [(_ & ? & _) ?]|]. rename a2 into sc.
  set (R := λ w, (stream_in st w ∧ held_sc sc w) ∧ few_counts w).
  apply (safe_pre _ R); [|by intros w [[(_ & _ & ?) ?] ?]].
  sbind; [apply (safe_if _ _ _ _ _ (λ _, R)); intros Esc; [safe_still|]|].
  { intros g w I _ HR. destruct (held_refs g w sc I) as [->|Hp]; [apply HR|by rewrite Z.eqb_refl in Esc|].
    apply (sp_read I); [done|]. intros c _ _. exists g. split; [done|]. split; [apply wgrows_refl|done]. }
  apply safe_if0; [apply safe_end|]. by apply safe_reset_go.
Qed.
(** *** The datagram ring a session takes over *)

Definition ring_live (db : Z) (w : world) : Prop :=
  ∃ b, rs_rings (w_rs w) !! db = Some b ∧ db_refcnt b < 2 ^ 31.

Lemma datagram_callable e g w : winv x xd g w -> wt_room g 0 -> session_live s w ->
  (e_error_code e <> 0 -> ring_live (e_error_code e) w) ->
  callable (x := x) (xd := xd) 0 0 (tx_mark_wt_datagram_ready ev s e) g w.
Proof using Hs Hcm XD0.
  intros I Hr HL Hdb. set (db := e_error_code e) in *. pose proof HL as (y & Ey & Hctx & Hst).
  unfold tx_mark_wt_datagram_ready. fold db. apply wp_bind.
  eexists _, w. split; [unfold no_cnx; rewrite (proj2 (Z.eqb_neq s 0)) by done;
    unfold mbind, M_bind, bind, read_s; by rewrite Ey|].
  destruct (_ || (db =? 0)) eqn:E; [by apply callable_refl|].
  apply orb_false_iff in E as [_ Hz%Z.eqb_neq]. apply wp_bind. eexists _, w.
  split; [unfold read_s; by rewrite Ey|]. set (ring := ws_dgram_ring y).
  assert (K : ∀ w', session_live s w' -> winv x xd g w' -> callable (x := x) (xd := xd) 0 0
    (cnx ← read_s s ws_cnx; id ← read_s s ws_control_stream_id; h3_ ev (H3SetDatagramReady cnx id)) g w').
  { intros w' HL' I'. eapply (safe_callable 0 0 0 L); try done.
    do 2 (sbind; [apply (safe_get_s L); auto|]). apply safe_h3_; [exact _|].
    intros tr m. apply (hc_grows ev N Hcm tr (H3SetDatagramReady _ _)). }
  apply wp_bind. destruct (Z.eqb_spec ring db) as [Heq|Hne]; cbn [negb when].
  { apply wp_ret. by apply K. }
  set (o := wt_objs (w_wt w)). set (v := with_rings xd o).
  assert (Hold : ring <> 0 -> 0 < v ring).
  { intros Hn. unfold v, with_rings. pose proof (objs_sum_ge (ring_holds ring) o s _ (ring_holds_nonneg ring) Ey) as Hge.
    cbn in Hge. fold ring in Hge. rewrite Z.eqb_refl, (proj2 (Z.eqb_neq ring 0)) in Hge by done. cbn in Hge.
    specialize (XD0 ring). lia. }
  set (v1 := λ p, v p - c_bool (negb (ring =? 0) && (ring =? p))).
  destruct (Hdb Hz) as (b & Eb & Hb).
  apply wp_bind, (wp_mono _ (λ _ w1, w_wt w1 = w_wt w ∧ inv (with_links x o) v1 g (res_of w1) ∧
    rs_rings (w_rs w1) !! db = Some b)).
  { destruct (Z.eqb_spec ring 0) as [Hr0|Hr0].
    - apply wp_ret. split; [done|]. split; [|done]. eapply inv_ext; [done| |exact I].
      intros p. unfold v1, v, o. rewrite Hr0. cbn. lia.
    - eapply wp_mono; [by apply (sp_unref I), Hold|]. intros [] w1 (Ew & I1 & Hk).
      split; [done|]. split; [|by apply Hk]. eapply inv_ext; [done| |exact I1].
      intros p. unfold v1, dec, v, o. cbn. by rewrite (Z.eqb_sym ring p). }
  intros [] w1 (Ew1 & I1 & Eb1). apply wp_bind. eapply wp_mono; [by apply (sp_addref I1 db b)|].
  intros [] w2 [Ew2 I2]. assert (Ey2 : wt_objs (w_wt w2) !! s = Some (ObjSession y)) by (by rewrite Ew2, Ew1).
  eexists tt, _. split; [unfold upd_s, mbind, M_bind, bind, read_s; rewrite Ey2; done|].
  apply K.
  - exists (ws_set_dgram_ring db y). cbn. rewrite lookup_insert_eq. split; [done|].
    rewrite Ew2, Ew1. split; [exact Hctx|]. intros Hn. unfold stream_in, sts. cbn. rewrite Ew2, Ew1.
    by apply Hst.
  - unfold winv. change (res_of (set_objs _ w2)) with (res_of w2). cbn. rewrite Ew2, Ew1. fold o.
    eapply inv_ext; [| |exact I2]; intros p; unfold with_links, inc, v1, v, with_rings; cbn;
      rewrite (objs_sum_update _ o s _ _ Ey); cbn; fold ring; [lia|].
    rewrite (proj2 (Z.eqb_neq db 0)), (Z.eqb_sym db p) by done. cbn. lia.
Qed.
(** *** The walks over a session's streams *)

Section walk.
Context (nodes : list Z) (st link : Z) (k : wt_link).
Abbreviation G := (λ w, (L w ∧ linkedw w) ∧ streams_in nodes w ∧ stream_in st w ∧ link_at link k w).

Lemma walk_in w : G w -> stream_in st w.
Proof using Type. by intros (_ & _ & ? & _). Qed.

Lemma walk_held w : G w -> held_sc (wl_sc k) w.
Proof using Type. intros (_ & _ & _ & Hl). right. by exists link, k. Qed.

Lemma safe_unhook_st f : (∀ z, hs_path_callback_ctx (f z) = hs_path_callback_ctx z ∨
    hs_path_callback_ctx (f z) = 0) -> sf 0 G (upd_st st f) (λ _, G).
Proof using Type.
  intros Hf. apply safe_h3mem. intros w HG. pose proof HG as ((Hs1 & Hlk) & Hn & [z Ez] & Hl).
  unfold sts in Ez. unfold upd_st. rewrite Ez. eexists tt, _. split; [done|]. split; [done|].
  split; [done|].
  assert (Hg : ∀ Q, H3Stable Q -> Q w -> Q (set_h3 (H3Mem (<[st := f z]> (hm_streams (wt_h3 (w_wt w))))
    (hm_prefixes (wt_h3 (w_wt w))) (hm_ctxs (wt_h3 (w_wt w)))) w)).
  { intros Q HQ Hq. apply (h3_stable w); [|done|done|exact Hq]. split; [|done]. intros j. apply is_some_insert. }
  split; [split; [by apply Hg; first [exact _|done]|]|].
  - by eapply (linked_unhook _ _ st z).
  - split; [by apply Hg; first [exact _|done]|]. split; [apply Hg; [exact _|by exists z]|done].
Qed.

Lemma safe_walk_reset cnx code : sf 0 G (aiopquic_wt_reset_stream ev cnx st code) (λ _, G).
Proof using Hcm.
  unfold aiopquic_wt_reset_stream. sbind.
  { apply (safe_h3mem G (λ _, G)). intros w ((Hs1 & Hlk) & HR). eexists _, _. split; [done|]. split; [done|].
    split; [done|]. split; [split; [apply (h3_stable w); [|done|done|exact Hs1]|]|].
    - apply (hc_grows ev N Hcm (w_trace w) (PicowtResetStream _ _ _)).
    - by apply (hc_linked ev N Hcm (w_trace w) (PicowtResetStream _ _ _)).
    - apply (h3_stable (P := λ w, streams_in nodes w ∧ stream_in st w ∧ link_at link k w) w); [|done|done|exact HR].
      apply (hc_grows ev N Hcm (w_trace w) (PicowtResetStream _ _ _)). }
  apply safe_if0; [safe_still|]. sbind; [apply (safe_st G st), walk_in|]. safe_still.
Qed.

Lemma safe_cleanup_stream cnx : sf 0 G (cleanup_stream ev s cnx st) (λ _, G).
Proof using Hcm.
  unfold cleanup_stream. sbind; [apply (safe_st G st), walk_in|]. sbind; [safe_still|].
  sbind; [apply safe_when; [lia|intros _]; sbind; [apply safe_walk_reset|safe_still]|].
  sbind; [safe_still|]. sbind; [apply safe_when; [lia|intros _]; safe_still|].
  apply (safe_reattach G), walk_in.
Qed.

Lemma safe_walk_release : sf 1 G (release_link ev s st link (wl_sc k)) (λ _, G).
Proof using Eok X0.
  unfold release_link. sbind; [apply safe_unhook_st; auto|]. sbind; [apply safe_unhook_st; auto|].
  apply (safe_bind0 1 _ _ _ (λ _, G)); [lia| |intros []; cbn beta].
  { apply safe_lift; [apply quiet_wt, quiet_on_sc|]. intros y yd g w I -> -> _ HP.
    eapply wp_mono; [apply (sp_abandon I); by apply (held_refs g w _ I), walk_held|].
    intros [] w' I'. exists g. split; [done|]. split; [apply wgrows_refl|]. intros Ew. by eapply (on_wt (P := G)). }
  sbind; [apply (safe_st G st), walk_in|]. apply (safe_release_note G). intros w [[? _] _]. auto.
Qed.
End walk.

Lemma safe_release_walk reset cnx nodes :
  sf (zlen nodes) (λ w, (L w ∧ linkedw w) ∧ streams_in nodes w)
    (release_walk ev reset s cnx nodes) (λ _ w, L w ∧ linkedw w).
Proof using Eok X0 Hcm.
  induction nodes as [|st nodes IH]; cbn [release_walk].
  { eapply safe_post; [apply safe_ret|]. by intros b w [_ [? _]]. }
  replace (zlen (st :: nodes)) with (1 + zlen nodes) by (cbn [length]; lia).
  set (P := λ w, (L w ∧ linkedw w) ∧ streams_in (st :: nodes) w).
  eapply safe_bind0; [lia|apply (safe_stream_link P st)|intros r; cbn beta].
  { intros w ((_ & ?) & [? _]%Forall_cons). done. }
  eapply (safe_bind 1 _ _ _ _ (λ _ w, (L w ∧ linkedw w) ∧ streams_in nodes w));
    [lia|lia| |intros []; exact IH].
  assert (Hno : sf 1 P (ret tt) (λ _ w, (L w ∧ linkedw w) ∧ streams_in nodes w)).
  { apply safe_le0; [lia|]. eapply safe_post; [apply safe_ret|].
    by intros b w [_ [? [_ ?]%Forall_cons]]. }
  destruct r as [[link k]|]; [|eapply safe_pre; [exact Hno|by intros w [? _]]].
  apply safe_if0; [|eapply safe_pre; [exact Hno|by intros w [? _]]].
  set (G := λ w, (L w ∧ linkedw w) ∧ streams_in nodes w ∧ stream_in st w ∧ link_at link k w).
  apply (safe_pre _ G); [|by intros w [[? [? ?]%Forall_cons] ?]].
  eapply safe_bind0; [lia|apply safe_when; [lia|intros _; by apply safe_cleanup_stream]|intros []; cbn beta].
  eapply safe_post; [by apply safe_walk_release|]. by intros b w (? & ? & _).
Qed.

(** The streams of the tree of [h]. *)
Definition tree_of (h : Z) (w : world) : list Z :=
  match hm_ctxs (wt_h3 (w_wt w)) !! h with Some c => hc_h3_stream_tree c | None => [] end.

Lemma safe_tree n h (R : list Z -> M unit) Q : 0 <= n -> h <> 0 -> 
  (∀ nodes, zlen nodes <= n ->
     sf n (λ w, (L w ∧ linkedw w) ∧ streams_in nodes w) (R nodes) Q) ->
  sf n (λ w, ((L w ∧ linkedw w) ∧ ctx_in h w) ∧ zlen (tree_of h w) <= n)
    (nodes ← read_h3 h hc_h3_stream_tree; R nodes) Q.
Proof using Type.
  intros Hn Hh HR. eapply (safe_bind0 _ _ _ _ (λ nodes w, zlen nodes <= n ∧
    (L w ∧ linkedw w) ∧ streams_in nodes w)); [done| |intros nodes; apply safe_pure; by apply HR].
  apply safe_h3mem. intros w [[[Hs1 Hlk] Hc] Hz]. destruct (Hc Hh) as [c Ec].
  unfold read_h3, tree_of in *. rewrite Ec in *. eexists _, w. do 3 (split; [done|]).
  split; [done|]. split; [done|]. by apply (lk_tree _ _ Hlk h c).
Qed.
End live.
End cmd.
