(* ===== verification/WtEnd.v ===== *)
(** * The end of a session is safe

    The two commands that walk the streams of a session, the cleanup and the
    deregister, and what frees the session.  Deregistering re-enters the callback of
    h3zero: every context it is called with is one h3zero was given. *)
From S2P Require Import Prelude Ring Store StreamBuf SpscRing EventChannel DgramBuf DgramTable.
From S2P Require Import StreamCtx WtState Bridge Alpn Callback World BridgeSafe StreamCb PySide Runs.
From S2P Require Import WtProto WtSession WtPath WtTx WtBudget WtRun WtSpec WtSafe WtCalls WtCmd.

(** ** Sessions that lose their context *)

(** Writing the fields of a session; the context may be given up. *)
Definition same_or_less (y y' : wt_session) : Prop :=
  ws_h3_ctx y' = ws_h3_ctx y ∨ ws_h3_ctx y' = 0.

Class Loose (P : world -> Prop) : Prop :=
  loose : ∀ w t y y', wt_objs (w_wt w) !! t = Some (ObjSession y) -> same_or_less y y' -> P w ->
    P (set_objs (<[t := ObjSession y']> (wt_objs (w_wt w))) w).

#[export] Instance stable_loose P : SessionStable P -> Loose P.
Proof. intros H w s y y' Ey _ HP. by eapply H. Qed.
#[export] Instance and_loose P Q : Loose P -> Loose Q -> Loose (λ w, P w ∧ Q w).
Proof. intros HP HQ w s y y' Ey Hy [? ?]. split; [by eapply HP|by eapply HQ]. Qed.

Lemma ctx_kept_less y y' m : same_or_less y y' -> ctx_kept y m -> ctx_kept y' m.
Proof. intros [E|E] H Hn; [|by rewrite E in Hn]. rewrite E in *. by apply H. Qed.

Lemma registered_write o m t y y' ctx : o !! t = Some (ObjSession y) -> same_or_less y y' ->
  registered o m ctx -> registered (<[t := ObjSession y']> o) m ctx.
Proof.
  intros Ey Hy [?|Hc]; [by left|right]. destruct (decide (t = ctx)) as [->|Hn].
  { rewrite lookup_insert_eq. rewrite Ey in Hc. by eapply ctx_kept_less. }
  rewrite lookup_insert_ne by done. destruct (o !! ctx) as [[z|k]|]; [done| |done].
  destruct Hc as [?|(z & Ez & Hz)]; [by left|right]. destruct (decide (t = wl_session k)) as [->|Hk].
  - exists y'. rewrite lookup_insert_eq. split; [done|]. rewrite Ey in Ez. injection Ez as <-.
    by eapply ctx_kept_less.
  - exists z. by rewrite lookup_insert_ne.
Qed.

#[export] Instance linkedw_loose : Loose linkedw.
Proof.
  intros w t y y' Ey Hy [Hs Hp Ht]. split; cbn.
  - intros st z Ez. eapply registered_write; [done|done|by eapply Hs].
  - intros p z Ez Hf. eapply registered_write; [done|done|by eapply Hp].
  - exact Ht.
Qed.

(** Contexts h3zero is about to call with. *)
Definition all_registered (ctxs : list Z) (w : world) : Prop :=
  Forall (registered (wt_objs (w_wt w)) (wt_h3 (w_wt w))) ctxs.

#[export] Instance all_registered_loose ctxs : Loose (all_registered ctxs).
Proof.
  intros w t y y' Ey Hy H. eapply Forall_impl; [exact H|]. intros ctx. by eapply registered_write.
Qed.
#[export] Instance all_registered_wt ctxs : OnWt (all_registered ctxs).
Proof. intros w w' E. unfold all_registered. by rewrite E. Qed.

(** A session that holds no datagram ring. *)
Definition ringless (s : Z) (w : world) : Prop :=
  ∃ y, wt_objs (w_wt w) !! s = Some (ObjSession y) ∧ ws_dgram_ring y = 0.

#[export] Instance ringless_wt s : OnWt (ringless s).
Proof. intros w w' E. unfold ringless. by rewrite E. Qed.

Lemma ringless_in s w : ringless s w -> session_in s w.
Proof. intros (y & Ey & _). by exists y. Qed.

Section ends.
Context {ev : env} (Eok : env_ok ev) (Hok : h3_ok ev) {N : Z} (HN : 0 <= N) (Hcm : h3_cmd_ok ev N).
Context {x xd : Z -> Z} (X0 : ∀ p, 0 <= x p) (XD0 : ∀ p, 0 <= xd p).
Abbreviation sf := (safe (x := x) (xd := xd)).

(** ** The re-entrant calls *)

Section reentrant.
Context (P : world -> Prop) `{!OnWt P, !Loose P}.

Lemma safe_loosen t f : (∀ w, P w -> session_in t w) ->
  (∀ y, ws_dgram_ring (f y) = ws_dgram_ring y) -> (∀ y, same_or_less y (f y)) ->
  sf 0 P (upd_s t f) (λ _, P).
Proof using Loose0.
  intros Pt Hd Hf. apply safe_write; [done|done|]. intros w y Ey HP. by eapply loose.
Qed.

Lemma safe_forget t : (∀ w, P w -> session_in t w) -> sf 1 P (cb_deregister ev t) (λ _, P).
Proof using Eok OnWt0 Loose0.
  intros Pt. assert (Hget : ∀ B (f : wt_session -> B), sf 0 P (read_s t f) (λ _, P)).
  { intros B f. by apply (safe_at P). }
  unfold cb_deregister. sbind; [apply Hget|]. change 1 with (1 + 0).
  eapply (safe_bind 1 0 _ _ _ (λ _, P)); [lia|lia| |intros []].
  - apply safe_when; [lia|]. intros _. sbind; [apply Hget|]. change 1 with (1 + 0).
    eapply safe_bind; [lia|lia|by apply (safe_note Eok P)|intros []; cbn beta].
    apply safe_loosen; [done|done|]. by left.
  - sbind; [apply safe_loosen; [done|done|]; by right|]. safe_still.
Qed.
End reentrant.

Lemma safe_dereg_cb P `{!OnWt P, !Loose P} cnx ctx :
  (∀ w, P w -> registered (wt_objs (w_wt w)) (wt_h3 (w_wt w)) ctx) ->
  sf 1 P (aiopquic_wt_path_callback ev [] cnx 0 0 [] picohttp_callback_deregister 0 ctx) (λ _, P).
Proof using Eok.
  intros Hc. unfold aiopquic_wt_path_callback.
  assert (H0 : ∀ z, sf 1 P (ret z) (λ _ : Z, P)) by (intros z; apply safe_le0; [lia|]; safe_still).
  apply (safe_bind0 1 _ _ _ (λ r w, P w ∧ match r with
    | Some (t, _) => t <> 0 -> session_in t w | None => True end)); [lia| |].
  { apply safe_h3mem. intros w HP. unfold aiopquic_wt_ctx_resolve.
    destruct (Z.eqb_spec ctx 0) as [Hz|Hz]; [by eexists _, w|].
    destruct (Hc w HP) as [?|Hr]; [done|].
    destruct (wt_objs (w_wt w) !! ctx) as [[y|k]|] eqn:E; [| |done]; eexists _, w.
    - split; [done|]. split_and!; try done. intros _. by exists y.
    - split; [done|]. split_and!; try done. intros Hn. destruct Hr as [?|(y & Ey & _)]; [done|by exists y]. }
  intros [[t link]|]; [|eapply safe_pre; [apply H0|by intros w [? _]]].
  destruct (Z.eqb_spec t 0) as [Ht|Ht]; [eapply safe_pre; [apply H0|by intros w [? _]]|].
  set (Q := λ w, P w ∧ session_in t w).
  apply (safe_pre _ Q); [|intros w [? H]; split; [done|by apply H]].
  assert (HO : OnWt Q) by exact _. assert (HL : Loose Q) by exact _.
  assert (Qt : ∀ w, Q w -> session_in t w) by (by intros w [_ ?]).
  sbind; [by apply (safe_at Q)|]. rewrite Z.eqb_refl. sbind; [safe_still|].
  eapply safe_post; [by apply (safe_forget Q)|]. by intros b w [? _].
Qed.

Lemma safe_deregisters P `{!OnWt P, !Loose P} cnx ctxs :
  sf (zlen ctxs) (λ w, P w ∧ all_registered ctxs w) (run_deregisters ev cnx ctxs) (λ _, P).
Proof using Eok.
  induction ctxs as [|ctx ctxs IH]; cbn [run_deregisters].
  { eapply safe_post; [apply safe_ret|]. by intros b w [_ [? _]]. }
  replace (zlen (ctx :: ctxs)) with (1 + zlen ctxs) by (cbn [length]; lia).
  set (Q := λ w, P w ∧ all_registered (ctx :: ctxs) w).
  eapply (safe_bind 1 (zlen ctxs) _ _ _ (λ _, Q)); [lia|lia| |intros rc; cbn beta].
  - apply (safe_dereg_cb Q). by intros w [_ [? _]%Forall_cons].
  - eapply safe_pre; [exact IH|]. by intros w [? [_ ?]%Forall_cons].
Qed.

Section session.
Context (s : Z) (Hs : s <> 0).
Abbreviation T := (λ w, session_in s w ∧ linkedw w).

Lemma safe_reentrant cnx c : match c with
    | PicowtDeregister _ _ _ | H3DeleteStreamPrefix _ _ _ => True | _ => False end ->
  sf N T (h3_reentrant ev cnx c) (λ _, T).
Proof using Eok Hcm HN.
  intros Hc g w I Hr [Hin Hl]. unfold h3_reentrant. do 2 (apply wp_bind; eexists _, _; split; [done|]).
  set (w1 := set_h3 _ _). assert (H1 : linkedw w1).
  { pose proof (hc_linked ev N Hcm (w_trace w) c (wt_h3 (w_wt w)) (wt_objs (w_wt w))) as H.
    destruct c; try done; by apply H. }
  assert (H2 : zlen (ev_deregisters ev (w_trace w) c) <= N ∧
    all_registered (ev_deregisters ev (w_trace w) c) w1).
  { pose proof (hc_deregisters ev N Hcm (w_trace w) c (wt_h3 (w_wt w)) (wt_objs (w_wt w))) as H.
    destruct c; try done; by apply H. }
  destruct H2 as [Hn Hreg]. set (ctxs := ev_deregisters _ _ _) in *.
  assert (HD : sf N (λ w, T w ∧ all_registered ctxs w) (run_deregisters ev cnx ctxs) (λ _, T)).
  { eapply safe_mono; [apply (safe_deregisters T)|exact Hn|done|done]. }
  by apply (HD g w1).
Qed.

(** ** The walks *)

(** Room for the streams of the session's connection. *)
Definition tree_within (n : Z) (w : world) : Prop :=
  ∀ y, wt_objs (w_wt w) !! s = Some (ObjSession y) -> zlen (tree_of (ws_h3_ctx y) w) <= n.

Abbreviation W n := (λ w, (session_live s w ∧ linkedw w) ∧ tree_within n w).

Lemma live_in n w : W n w -> session_in s w.
Proof using Type. intros [[H _] _]. by apply session_live_in. Qed.

Lemma tree_within_wt n : OnWt (tree_within n).
Proof using Type. intros w w' E H y. unfold tree_of. rewrite E. apply H. Qed.
#[local] Hint Extern 0 (OnWt (tree_within _)) => apply tree_within_wt : typeclass_instances.

Lemma safe_tree_ctx n : sf 0 (W n) (read_s s ws_h3_ctx) (λ h w,
  (((session_live s w ∧ linkedw w) ∧ ctx_in h w) ∧ zlen (tree_of h w) <= n) ∧ W n w).
Proof using Type.
  apply safe_h3mem. intros w HW. pose proof HW as [[HL Hlk] Hn]. pose proof HL as (y & Ey & Hc & _).
  unfold read_s. rewrite Ey. eexists _, w. do 3 (split; [done|]). split; [|exact HW].
  split; [by split|]. by apply Hn.
Qed.

Lemma safe_cleanup n : 0 <= n -> sf n (W n) (tx_wt_session_cleanup ev s) (λ _ _, True).
Proof using Eok X0 Hcm Hs.
  intros Hn. unfold tx_wt_session_cleanup. rewrite (proj2 (Z.eqb_neq s 0)) by done.
  sbind; [apply (safe_at (W n)), live_in|]. sbind; [apply safe_tree_ctx|]. rename a into cnx, a0 into h.
  replace n with (n + 0) at 1 by lia. apply (safe_bind n 0 _ _ _ (λ _, session_live s)); [lia|lia| |intros []].
  - unfold when. apply safe_if; intros E.
    + apply andb_true_iff in E as [_ Hh%negb_true_iff%Z.eqb_neq].
      eapply safe_pre; [|intros w [H _]; exact H].
      apply (safe_tree s n h (release_walk ev true s cnx)); [done|done|]. intros nodes Hz.
      eapply safe_mono; [by apply (safe_release_walk Eok Hcm X0 s true cnx nodes)|done|done|].
      by intros b w [? _].
    + apply safe_le0; [done|]. eapply safe_post; [apply safe_ret|]. by intros b w (_ & _ & (? & _) & _).
  - unfold wt_cleanup_done. sbind; [by apply (safe_keep (session_live s) s); [apply session_live_in|]|].
    eapply safe_drop. apply (safe_close_cnx (session_live s)), session_live_in.
Qed.

(** *** The deregister *)

(** The control stream loses its callback. *)
Lemma safe_unhook_control st f : st <> 0 -> (∀ z, hs_path_callback_ctx (f z) = hs_path_callback_ctx z ∨
    hs_path_callback_ctx (f z) = 0) ->
  sf 0 (λ w, T w ∧ stream_in st w) (upd_st st f) (λ _ w, T w ∧ stream_in st w).
Proof using Type.
  intros Hst Hf. apply safe_h3mem. intros w [[Hin Hlk] [z Ez]]. unfold sts in Ez. unfold upd_st. rewrite Ez.
  eexists tt, _. split; [done|]. split; [done|]. split; [done|]. split; [split|].
  - exact Hin.
  - by eapply (linked_unhook _ _ st z).
  - eexists. unfold sts. cbn. apply lookup_insert_eq.
Qed.

Lemma safe_deregister_go n cnx h : 0 <= n -> h <> 0 ->
  sf (n + (N + N)) (λ w, ((session_live s w ∧ linkedw w) ∧ ctx_in h w) ∧ zlen (tree_of h w) <= n)
    (deregister_go ev s cnx h) (λ _, T).
Proof using Eok X0 Hcm Hs HN.
  intros Hn Hh. unfold deregister_go.
  assert (Tin : ∀ w, T w -> session_in s w) by (by intros w [? _]).
  assert (HL : Loose T) by exact _.
  apply (safe_bind0 _ _ _ _ (λ nodes w, zlen nodes <= n ∧
    (session_live s w ∧ linkedw w) ∧ streams_in nodes w)); [lia| |intros nodes; apply safe_pure; intros Hz].
  { apply safe_h3mem. intros w [[[HL1 Hlk] Hc] Hz]. destruct (Hc Hh) as [c Ec].
    unfold read_h3, tree_of in *. rewrite Ec in *. eexists _, w. do 3 (split; [done|]).
    split; [done|]. split; [done|]. by apply (lk_tree _ _ Hlk h c). }
  eapply (safe_bind n (N + N) _ _ _ (λ _ w, session_live s w ∧ linkedw w)); [lia|lia| |intros []].
  { eapply safe_mono; [by apply (safe_release_walk Eok Hcm X0 s false cnx nodes)|lia|done|done]. }
  apply (safe_bind0 _ _ _ _ (λ control w, T w ∧ (control <> 0 -> stream_in control w))); [lia| |].
  { apply safe_h3mem. intros w [HL1 Hlk]. pose proof HL1 as (y & Ey & _ & Hst). unfold read_s. rewrite Ey.
    eexists _, w. split_and!; try done. by apply session_live_in. }
  intros control. eapply (safe_bind N N _ _ _ (λ _, T)); [lia|lia| |intros []].
  { unfold when. apply safe_if; intros E.
    - apply negb_true_iff, Z.eqb_neq in E.
      apply (safe_pre _ (λ w, T w ∧ stream_in control w)); [|intros w [? H]; split; [done|by apply H]].
      sbind; [by apply safe_unhook_control; auto|]. sbind; [by apply safe_unhook_control; auto|].
      eapply safe_pre; [by apply safe_reentrant|by intros w [? _]].
    - apply safe_le0; [lia|]. eapply safe_post; [apply safe_ret|]. by intros b w [_ [? _]]. }
  assert (Hget : ∀ B (f : wt_session -> B), sf 0 T (read_s s f) (λ _, T)).
  { intros B f. by apply (safe_at T). }
  assert (Hput : ∀ f, (∀ y, ws_dgram_ring (f y) = ws_dgram_ring y) -> (∀ y, ws_h3_ctx (f y) = ws_h3_ctx y) ->
    sf 0 T (upd_s s f) (λ _, T)).
  { intros f Hd Hf. apply (safe_loosen T); [done|done|]. intros y. left. apply Hf. }
  sbind; [apply Hget|]. sbind; [safe_still|].
  sbind.
  { apply safe_when; [lia|]. intros _. sbind; [apply Hget|]. sbind; [apply safe_when; [lia|intros _];
      safe_still|]. sbind; [apply Hget|]. safe_still. }
  sbind; [by apply Hput|]. do 2 (sbind; [apply Hget|]). by apply safe_reentrant.
Qed.

(** *** The session is freed *)

(** A ringless session keeps that through writes elsewhere. *)
Lemma safe_ringless f : (∀ y, ws_dgram_ring (f y) = ws_dgram_ring y) ->
  sf 0 (ringless s) (upd_s s f) (λ _, ringless s).
Proof using Type.
  intros Hf. apply safe_write; [apply ringless_in|done|]. intros w y Ey (z & Ez & Hz).
  rewrite Ey in Ez. injection Ez as <-. exists (f y). cbn. by rewrite lookup_insert_eq, Hf.
Qed.

Lemma safe_free_session : sf 0 (ringless s) (free_obj s) (λ _ _, True).
Proof using Type.
  intros g w I _ (y & Ey & Hz). unfold free_obj. eexists tt, _. split; [by rewrite Ey|]. exists g.
  split; [|split; [apply wgrows_refl|done]]. unfold winv in *. cbn.
  change (res_of (set_objs _ w)) with (res_of w).
  eapply inv_ext; [| |exact I]; intros p; unfold with_links, with_rings;
    rewrite (objs_sum_delete _ _ _ _ Ey); cbn; rewrite ?Hz; cbn; lia.
Qed.

Lemma safe_drop_ring :
  sf 0 (session_in s) (db ← read_s s ws_dgram_ring;
    when (negb (db =? 0)) (on_rs (λ st, rs_unref st db) ;; upd_s s (ws_set_dgram_ring 0)))
    (λ _, ringless s).
Proof using XD0.
  intros g w I Hr [y Ey]. apply wp_bind. eexists _, w. split; [unfold read_s; by rewrite Ey|].
  set (db := ws_dgram_ring y). destruct (Z.eqb_spec db 0) as [Hz|Hz]; cbn [negb when].
  { apply wp_ret. exists g. split; [done|]. split; [apply wgrows_refl|]. by exists y. }
  set (o := wt_objs (w_wt w)) in *.
  assert (Hp : 0 < with_rings xd o db).
  { pose proof (objs_sum_ge (ring_holds db) o s _ (ring_holds_nonneg db) Ey) as Hge.
    cbn in Hge. fold db in Hge. rewrite Z.eqb_refl, (proj2 (Z.eqb_neq db 0)) in Hge by done. cbn in Hge.
    specialize (XD0 db). unfold with_rings. lia. }
  apply wp_bind. eapply wp_mono; [by apply (sp_unref I)|]. intros [] w1 (Ew & I1 & _).
  eexists tt, _. split; [unfold upd_s, mbind, M_bind, bind, read_s; rewrite Ew; fold o; by rewrite Ey|].
  exists g. split; [|split; [apply wgrows_refl|]].
  - unfold winv. change (res_of (set_objs _ w1)) with (res_of w1). cbn. rewrite Ew. fold o.
    eapply inv_ext; [| |exact I1]; intros p; unfold with_links, dec, with_rings;
      rewrite (objs_sum_update _ o s _ _ Ey); cbn; fold db o; [lia|].
    rewrite (proj2 (Z.eqb_neq db 0)), (Z.eqb_sym p db) by done. cbn. lia.
  - eexists. cbn. rewrite Ew. split; [apply lookup_insert_eq|done].
Qed.

Lemma safe_destroy : sf 0 (session_in s) (aiopquic_wt_session_destroy ev s) (λ _ _, True).
Proof using XD0.
  unfold aiopquic_wt_session_destroy. apply safe_if0; [apply safe_end|].
  assert (Hcut : ∀ (k : M unit), sf 0 (ringless s) k (λ _ _, True) -> sf 0 (session_in s)
    (db ← read_s s ws_dgram_ring;
     when (negb (db =? 0)) (on_rs (λ st, rs_unref st db) ;; upd_s s (ws_set_dgram_ring 0)) ;; k)
    (λ _ _, True)).
  { intros k Hk g w I Hr HP.
    destruct (safe_bind0 0 _ _ (λ _, k) _ _ ltac:(lia) safe_drop_ring (λ _, Hk) g w I Hr HP) as (b & w' & E & H).
    exists b, w'. split; [|exact H]. rewrite <- E. unfold mbind, M_bind, bind.
    by destruct (read_s s ws_dgram_ring w) as [[db w1]|]. }
  apply Hcut. sbind; [safe_still|]. sbind; [by apply safe_ringless|].
  unfold aiopquic_wt_drop_retry. sbind; [by apply safe_ringless|]. apply safe_free_session.
Qed.

Lemma safe_wt_deregister n : 0 <= n -> sf (n + (N + N)) (W n) (tx_wt_deregister ev s) (λ _ _, True).
Proof using Eok X0 XD0 Hcm Hs HN.
  intros Hn. unfold tx_wt_deregister. rewrite (proj2 (Z.eqb_neq s 0)) by done.
  sbind; [apply (safe_at (W n)), live_in|]. sbind; [apply safe_tree_ctx|]. rename a into cnx, a0 into h.
  set (H := λ w, ((session_live s w ∧ linkedw w) ∧ ctx_in h w) ∧ zlen (tree_of h w) <= n).
  assert (HH : OnWt H) by (intros w w' E HP; unfold H, tree_of in *; rewrite E; split; [|apply HP];
    eapply (on_wt (P := λ w, (session_live s w ∧ linkedw w) ∧ ctx_in h w)); [done|apply HP]).
  apply (safe_pre _ H); [|by intros w [? _]].
  apply (safe_bind0 _ _ _ _ (λ b w, (b = true -> h <> 0) ∧ H w)); [lia| |].
  { apply safe_if; intros E.
    - apply andb_true_iff in E as [_ Hh%negb_true_iff%Z.eqb_neq].
      eapply safe_post; [apply (safe_idle H); [apply idle_alive|keeps_tac]|done].
    - eapply safe_post; [apply safe_ret|]. by intros b w [-> ?]. }
  intros b. apply safe_pure. intros Hb. replace (n + (N + N)) with (n + (N + N) + 0) by lia.
  apply (safe_bind _ 0 _ _ _ (λ _, session_in s)); [lia|lia| |intros []; apply safe_destroy].
  unfold when. apply safe_if; intros E.
  - eapply safe_post; [apply safe_deregister_go; auto|]. by intros u w [? _].
  - apply safe_le0; [lia|]. eapply safe_post; [apply safe_ret|]. intros u w [_ [[[? _] _] _]].
    by apply session_live_in.
Qed.
End session.
End ends.
