(* ===== verification/WtTotal.v ===== *)
(** * WebTransport, whole calls

    What h3wt_callback.h runs on the worker thread, one call at a time: a callback of
    h3zero, an entry asyncio queued, a held reset that fell due.  Where the caller keeps
    to its contract ([callback_ok], [command_ok]) the call is defined, keeps the
    invariant [winv] and sends a bounded number of events. *)
From S2P Require Import Prelude Ring Store StreamBuf SpscRing EventChannel DgramBuf DgramTable.
From S2P Require Import StreamCtx WtState Bridge Alpn Callback World BridgeSafe StreamCb PySide Runs System.
From S2P Require Import WtProto WtSession WtPath WtTx WtBudget WtRun WtSpec WtSafe WtCalls WtCmd WtEnd.

(** ** h3zero on a new connection *)

(** The context h3zero makes has no prefix yet. *)
Record h3_boot_ok (ev : env) : Prop := {
  hb_create : ∀ tr p m, let c := H3CreateContext p in ev_pq ev tr c <> 0 ->
    ∃ k, hm_ctxs (ev_h3 ev tr c m) !! ev_pq ev tr c = Some k ∧ hc_stream_prefixes k = [];
  hb_init : ∀ tr cnx h m k, hm_ctxs m !! h = Some k -> hc_stream_prefixes k = [] ->
    ∃ k', hm_ctxs (ev_h3 ev tr (H3ProtocolInit cnx h) m) !! h = Some k' ∧ hc_stream_prefixes k' = []
}.

Section total.
Context {ev : env} (Eok : env_ok ev) (Hok : h3_ok ev) (Hb : h3_boot_ok ev).
Context {N : Z} (HN : 0 <= N) (Hcm : h3_cmd_ok ev N).
Context {x xd : Z -> Z} (X0 : ∀ p, 0 <= x p) (XD0 : ∀ p, 0 <= xd p).
Abbreviation sf := (safe (x := x) (xd := xd)).
Abbreviation callable := (callable (x := x) (xd := xd)).

Lemma callable_mono {A} n n' B B' (m : M A) g w :
  callable n B m g w -> n <= n' -> B <= B' -> callable n' B' m g w.
Proof using Type.
  intros H Hn HB. eapply wp_mono; [exact H|]. intros a w' (g' & I & G). exists g'. split; [done|].
  by eapply wgrows_mono.
Qed.

Lemma callable_bind {A B} n C (m : M A) (f : A -> B) g w :
  callable n C m g w -> callable n C (a ← m; ret (f a)) g w.
Proof using Type. intros H. apply wp_bind. eapply wp_mono; [exact H|]. intros a w' Hw. by apply wp_ret. Qed.

(** The bootstrap leaves a context without prefixes, or none. *)
Lemma safe_bootstrap cnx params : sf 0 (λ _, True) (h3_bootstrap ev cnx params) (λ r w,
  match r with inl _ => True | inr h => cnx_live h w ∧ prefixes_of h w = [] end).
Proof using Hb.
  unfold h3_bootstrap.
  apply (safe_bind0 0 _ _ _ (λ h w, h <> 0 -> ∃ k, hm_ctxs (wt_h3 (w_wt w)) !! h = Some k ∧
    hc_stream_prefixes k = [])); [lia| |intros h].
  { apply safe_h3mem. intros w _. eexists _, _. do 3 (split; [done|]).
    apply (hb_create ev Hb (w_trace w) params). }
  destruct (Z.eqb_spec h 0) as [Hz|Hz].
  { apply (safe_bind0 0 _ _ _ (λ _ _, True)); [lia| |intros []].
    - apply (safe_pre _ (λ _, True)); [|done]. apply (safe_idle (λ _, True)); [idle_tac|keeps_tac].
    - eapply safe_post; [apply safe_ret|]. by intros r w [-> _]. }
  set (P := λ w, ∃ k, hm_ctxs (wt_h3 (w_wt w)) !! h = Some k ∧ hc_stream_prefixes k = []).
  assert (HP : OnWt P) by (intros w w' E; unfold P; by rewrite E).
  apply (safe_pre _ P); [|by intros w H; apply H]. sbind; [safe_still|].
  apply (safe_bind0 0 _ _ _ (λ _, P)); [lia| |intros rc].
  - apply safe_h3mem. intros w (k & Ek & Hk). eexists _, _. do 3 (split; [done|]).
    by eapply (hb_init ev Hb (w_trace w) cnx).
  - eapply safe_post; [apply safe_ret|]. intros r w [-> (k & Ek & Hk)]. destruct (negb (rc =? 0)); [done|].
    unfold cnx_live, prefixes_of. rewrite Ek. split; [|done]. split; [done|]. rewrite Hk. apply Forall_nil_2.
Qed.

Lemma bootstrap_callable cnx id bytes length event ctx st g w :
  winv x xd g w -> wt_room g 0 ->
  callable 0 0 (aiopquic_wt_server_bootstrap_cb ev cnx id bytes length event ctx st) g w.
Proof using Eok Hb X0.
  intros I Hr. unfold aiopquic_wt_server_bootstrap_cb.
  eapply (safe_stage 0 0 (λ _, True)); [apply safe_bootstrap|lia|done|done|done|].
  intros [rc|h] g1 w1 I1 R1 _ HQ; cbn beta iota; [by apply callable_refl|]. destruct HQ as [Hl Hp].
  pose proof (cnx_callable Eok X0 cnx id bytes length event h st g1 w1 (λ _, Hl) I1) as H.
  rewrite Hp in H. by apply H.
Qed.

(** ** A held reset *)

Lemma deferred_callable d g w : 0 < x (d_sc d) -> winv x xd g w -> wt_room g 0 ->
  callable 0 0 (wt_deferred_reset ev d) g w.
Proof using Hcm X0.
  intros Hp I Hr. apply (safe_callable 0 0 0 (λ _, True) _ (λ _ _, True)); try done. unfold wt_deferred_reset.
  assert (Hsc : ∀ g w, inv (with_links x (wt_objs (w_wt w))) (with_rings xd (wt_objs (w_wt w))) g (res_of w) ->
    0 < sc_refs (with_links x (wt_objs (w_wt w))) g (d_sc d)).
  { intros g1 w1 I1. eapply sc_refs_own; [exact I1|]. unfold with_links.
    pose proof (objs_sum_nonneg (link_holds (d_sc d)) (wt_objs (w_wt w1)) (link_holds_nonneg _)). lia. }
  assert (HT : OnWt (λ _ : world, True)) by done. assert (H3 : H3Stable (λ _ : world, True)) by done.
  sbind; [safe_still|]. apply (safe_find_stream Hcm 0 (λ _, True)); [lia|]. intros st.
  destruct (Z.eqb_spec st 0) as [Hz|Hz]; [apply safe_end|].
  set (P := λ w, stream_in st w). apply (safe_pre _ P); [|intros w1 [_ H]; by apply H].
  assert (HP : OnWt P) by exact _. assert (HS : ∀ w, P w -> stream_in st w) by done.
  apply (safe_bind0 0 _ _ _ (λ _, P)); [lia| |intros reliable; cbn beta].
  { intros g1 w1 I1 _ HP1. apply (sp_read I1); [by apply Hsc|]. intros c _ _. exists g1.
    split; [done|]. split; [apply wgrows_refl|exact HP1]. }
  sbind.
  { unfold aiopquic_wt_reset_stream_reliable. sbind; [by apply (safe_st P st)|]. sbind; [safe_still|].
    sbind; [apply safe_when; [lia|intros _]; by apply (safe_set_st P st)|safe_still]. }
  sbind.
  { apply safe_when; [lia|]. intros _. apply safe_lift; [apply quiet_wt, quiet_on_sc|].
    intros y yd g1 w1 I1 -> -> _ HP1. eapply wp_mono; [apply (sp_abandon I1); right; by apply Hsc|].
    intros [] w2 I2. exists g1. split; [done|]. split; [apply wgrows_refl|]. intros Ew. by eapply (on_wt (P := P)). }
  eapply safe_drop. by apply (safe_reattach P).
Qed.

(** ** An entry asyncio queued *)

(** The entry is the head of the TX ring when it has a payload; its session, when it
    names one, is in memory, h3zero's structs hold together, no reference count is near
    its width and the datagram ring handed over is live. *)
Definition command_ok (g : ghost) (e : spsc_entry) (w : world) : Prop :=
  at_head g e ∧
  (e_cnx e <> 0 -> session_live (e_cnx e) w ∧ linkedw w ∧ few_counts w ∧ 0 <= e_aux e < 2 ^ 64 ∧
    (evt_is (e_event_type e) SPSC_EVT_TX_MARK_WT_DATAGRAM_READY = true -> e_error_code e <> 0 ->
     ring_live (e_error_code e) w)).

(** The streams of the connection of [s]. *)
Definition session_tree (s : Z) (w : world) : list Z :=
  match wt_objs (w_wt w) !! s with Some (ObjSession y) => tree_of (ws_h3_ctx y) w | _ => [] end.

(** Events of one command: one per stream of the session, and those of the deregisters. *)
Definition command_events (e : spsc_entry) (w : world) : Z :=
  zlen (session_tree (e_cnx e) w) + 2 * N + 1.

Lemma handled n (m : M unit) g w : callable n 0 m g w -> callable n 0 (m ;; ret 1) g w.
Proof using Type. intros H. apply (callable_bind n 0 m (λ _, 1)), H. Qed.

(** A command that names no session only reads its payload. *)
Lemma null_callable e g w : winv x xd g w -> e_cnx e = 0 -> at_head g e ->
  callable 0 0 (wt_handle_tx ev e) g w.
Proof using Type.
  intros I E Hq. unfold wt_handle_tx. rewrite E.
  assert (H0 : ∀ m : M unit, m w = Some (tt, w) -> callable 0 0 (m ;; ret 1) g w).
  { intros m Em. apply handled. exists tt, w. split; [done|]. exists g. split; [done|]. apply wgrows_refl. }
  assert (Hc : ∀ c, callable 0 0 (count c ;; ret 1) g w).
  { intros c. apply handled. exists tt. eexists. split; [done|]. exists g. split; [done|]. apply wgrows_refl. }
  repeat case_match; try (apply H0; done); try (by apply Hc); [|by apply callable_refl].
  apply handled. unfold tx_wt_open. apply wp_bind.
  apply (payload_read _ I Hq); intros; by apply callable_refl.
Qed.

Lemma command_callable e g w : command_ok g e w -> winv x xd g w -> wt_room g (command_events e w) ->
  callable (command_events e w) 0 (wt_handle_tx ev e) g w.
Proof using Eok Hok HN Hcm X0 XD0.
  intros [Hq Hc] I Hr. set (s := e_cnx e) in *.
  assert (Hn : 0 <= zlen (session_tree s w)) by lia.
  assert (H0 : 1 <= command_events e w) by (unfold command_events; fold s; lia).
  destruct (decide (s = 0)) as [Hs|Hs].
  { eapply callable_mono; [by apply null_callable|lia|done]. }
  destruct (Hc Hs) as (HL & Hlk & Hf & Haux & Hring).
  assert (Hin : session_in s w) by (by apply session_live_in).
  assert (Hrm : ∀ k, k <= command_events e w -> wt_room g k) by (intros k Hk; by eapply wt_room_le).
  assert (U0 : ∀ n P (m : M unit), sf n P m (λ _ _, True) -> n <= command_events e w -> P w ->
    callable (command_events e w) 0 (m ;; ret 1) g w).
  { intros n P m Hm Hle HP. apply handled. by eapply safe_callable. }
  assert (U1 : ∀ n (m : M unit), callable n 0 m g w -> n <= command_events e w ->
    callable (command_events e w) 0 (m ;; ret 1) g w).
  { intros n m Hm Hle. apply handled. by eapply callable_mono. }
  assert (HW : (session_live s w ∧ linkedw w) ∧ tree_within s (zlen (session_tree s w)) w).
  { split; [done|]. intros y Ey. unfold session_tree. by rewrite Ey. }
  unfold wt_handle_tx. fold s.
  case_match; [apply (U1 1); [apply (open_callable Eok Hok Hcm s Hs); auto|lia]|]. case_match.
  { apply (U0 1 (session_live s)); [by apply (safe_wt_create_stream Eok Hok Hcm)|lia|done]. }
  case_match; [apply (U1 0); [apply (close_callable Eok Hcm s Hs); auto; apply Hrm; lia|lia]|].
  case_match; [apply (U0 0 (session_live s)); [by apply safe_wt_fin|lia|done]|].
  case_match; [apply (U0 0 (session_live s)); [by apply (safe_wt_drain Hcm)|lia|done]|].
  case_match.
  { eapply (U0 0 _ _ (safe_wt_reset_stream Hcm X0 s e Haux)); [lia|done]. }
  case_match.
  { apply (U1 0); [|lia]. apply (datagram_callable Hcm XD0 s Hs); try done; [by apply Hrm; lia|by apply Hring]. }
  case_match; [apply (U0 0 (session_live s)); [by apply safe_wt_set_stream_priority|lia|done]|].
  case_match; [apply (U0 0 (session_live s)); [by apply safe_wt_set_datagram_priority|lia|done]|].
  case_match; [apply (U0 0 (session_live s)); [by apply (safe_wt_stop_sending Hcm)|lia|done]|].
  set (n := zlen (session_tree s w)) in *.
  case_match.
  { eapply (U0 n); [by apply (safe_cleanup Eok Hcm X0 s Hs n)|unfold command_events; fold s n; lia|exact HW]. }
  case_match; [|by apply (callable_mono 0 _ 0 0); [apply callable_refl|lia|lia]].
  eapply (U0 (n + (N + N))); [by apply (safe_wt_deregister Eok HN Hcm X0 XD0 s Hs n)
    |unfold command_events; fold s n; lia|exact HW].
Qed.

(** ** h3zero's callbacks *)

(** The contract of each callback: the contexts it is handed are in memory, and what the
    producer pushes while a pull runs are sends on wrappers Python holds. *)
Definition callback_ok (g : ghost) (o : wt_call) (w : world) : Prop :=
  match o with
  | WtPath race _ _ _ _ event st ctx => handed ctx st w ∧ (delivers event = true -> st <> 0) ∧
      Forall (is_send x) race ∧ g_T g + run_bytes race < 2 ^ 64
  | WtServer race _ _ _ _ _ st => server_live st w ∧
      Forall (is_send x) race ∧ g_T g + run_bytes race < 2 ^ 64
  | WtCnx _ _ _ _ event ctx _ => looks_at_ctx event = true -> cnx_live ctx w
  | WtBootstrap _ _ _ _ _ _ _ => True
  | _ => False
  end.

(** Events a callback may send, bytes pushed under it. *)
Definition call_events (o : wt_call) (w : world) : Z :=
  match o with
  | WtPath _ _ _ _ _ _ _ _ | WtServer _ _ _ _ _ _ _ => 2
  | WtCnx _ _ _ _ _ ctx _ => 2 * zlen (prefixes_of ctx w)
  | _ => 0
  end.
Definition call_bytes (o : wt_call) : Z :=
  match o with WtPath race _ _ _ _ _ _ _ | WtServer race _ _ _ _ _ _ => run_bytes race | _ => 0 end.

Lemma step_callable {A} n B (m : M A) g w : callable n B m g w -> callable n B (discard m) g w.
Proof using Type. intros H. unfold discard. apply (callable_bind n B m (λ _, [])), H. Qed.

Lemma callback_callable o g w : callback_ok g o w -> winv x xd g w -> wt_room g (call_events o w) ->
  callable (call_events o w) (call_bytes o) (wt_step ev o) g w.
Proof using Eok Hok Hb X0 XD0.
  intros Ho I Hr.
  destruct o; cbn [wt_step callback_ok call_events call_bytes] in *; try done; apply step_callable.
  - destruct Ho as (Hc & Hst & Hrace & HT). by apply path_callable.
  - destruct Ho as (Hc & Hrace & HT). by apply server_callable.
  - by apply cnx_callable.
  - by apply bootstrap_callable.
Qed.
End total.

(** C29. A callback of h3zero whose contexts are in memory - any path event on a session,
    a stream's link or nothing, any event of the server's path, any connection event, and
    the bootstrap of a new connection - is defined: it never touches freed memory, never
    drops a reference it does not hold and never overruns a ring.  It keeps the bridge's
    invariant, with each link's reference on its wrapper and each session's on its
    datagram ring counted, and sends at most two events, or two per session of a
    connection that ends. *)
Theorem wt_callbacks_safe ev x xd g w o : env_ok ev -> h3_ok ev -> h3_boot_ok ev ->
  (∀ p, 0 <= x p) -> (∀ p, 0 <= xd p) -> winv x xd g w -> callback_ok (x := x) g o w ->
  wt_room g (call_events o w) ->
  wp (wt_step ev o) (λ _ w', ∃ g', winv x xd g' w' ∧ wgrows (call_events o w) (call_bytes o) g g') w.
Proof.
  intros Eok Hok Hb X0 XD0 I Ho Hr. by apply callback_callable.
Qed.


(** ** Concrete calls *)

(** Session 500 on connection 100 with its control stream 600; stream 604 is the peer's. *)
Definition demo_alone : wt_state :=
  WtState {[ 500 := ObjSession demo_session ]}
    (H3Mem {[ 600 := H3Stream 0 FnWtPath 500 0 0 200 None None None;
              604 := H3Stream 4 FnWtPath 500 0 0 200 None None None ]}
           {[ 710 := H3Prefix FnWtPath 500 ]}
           {[ 700 := H3Ctx [710] [600; 604] 1 ConnectLegacy 0 ]}).

Definition ghost_wt : ghost := Ghost 0 [] 0 [] [] [] 0 0 true.

Lemma objs_sum_alone f : objs_sum f (wt_objs demo_alone) = f (ObjSession demo_session).
Proof.
  unfold demo_alone, objs_sum. cbn [wt_objs]. rewrite map_to_list_singleton. cbn. by rewrite lsum_one.
Qed.

Lemma demo_alone_some : ∃ w, w_wt w = demo_alone ∧ winv (λ _, 0) (λ _, 0) ghost_wt w.
Proof.
  destruct (demo_wt_some demo_session) as (w & _ & _ & _ & I). exists (w_set_wt demo_alone w).
  split; [done|]. unfold winv. change (res_of (w_set_wt demo_alone w)) with (res_of w).
  change (wt_objs (w_wt (w_set_wt demo_alone w))) with (wt_objs demo_alone).
  eapply inv_ext; [| |destruct I; split; done]; intros p; unfold with_links, with_rings;
    rewrite objs_sum_alone; cbn; lia.
Qed.

Lemma demo_h3_ok : h3_ok (demo_env (λ _, 0)).
Proof.
  split; try done.
  - intros t o. right. apply fresh_addr_free.
  - intros tr c m. by destruct c.
Qed.

Lemma demo_boot_ok : h3_boot_ok (demo_env (λ _, 0)).
Proof. split; [done|]. intros tr cnx h m k Ek Hk. by exists k. Qed.

Lemma demo_cmd_ok : h3_cmd_ok (demo_env (λ _, 0)) 0.
Proof. split; intros tr; [intros c m..| |]; try done; destruct c; try done; intros m o; try done. Qed.

(** Data on stream 604, whose link is made there and then. *)
Definition demo_data : wt_call := WtPath [] 100 0 3 [1; 2; 3] picohttp_callback_post_data 604 500.

Lemma wt_callbacks_safe_witness : ∃ w, w_wt w = demo_alone ∧
  wp (wt_step (demo_env (λ _, 0)) demo_data) (λ _ w', ∃ g', winv (λ _, 0) (λ _, 0) g' w' ∧
    wgrows 2 0 ghost_wt g') w.
Proof.
  destruct demo_alone_some as (w & Ew & I). exists w. split; [done|].
  apply (wt_callbacks_safe _ _ _ ghost_wt w demo_data (demo_env_ok _) demo_h3_ok demo_boot_ok); try done.
  split; [|split; [done|split; [apply Forall_nil_2|done]]]. right. rewrite Ew. cbn.
  split; [|split; [done|]].
  - rewrite Ew. exists demo_session. split; [done|]. intros _. by exists (H3Ctx [710] [600; 604] 1 ConnectLegacy 0).
  - intros _. unfold sts. rewrite Ew. by eexists.
Defined.

(** The session is deregistered. *)
Definition demo_leave : spsc_entry := sc_entry SPSC_EVT_TX_WT_DEREGISTER 0 500 0 0.

