(* ===== verification/WtAside.v ===== *)
(** * Calls that leave WebTransport alone

    The sessions, links and h3zero structs ([w_wt]) are untouched by every call of the
    raw bridge: Python's operations, picoquic's stream callback, the worker's loop
    around the entries it dispatches, and those entries themselves. *)
From S2P Require Import Prelude Ring Store StreamBuf SpscRing DgramBuf DgramTable.
From S2P Require Import StreamCtx WtState Bridge Alpn Callback World PySide Runs System WtBudget WtSafe.

Abbreviation apart := (keeps w_wt).

(** A primitive that threads parts of the world through pure functions. *)
Ltac apart_prim :=
  let w := fresh "w" in let y := fresh "y" in let w' := fresh "w'" in let E := fresh "E" in
  intros w y w' E; unfold mbind, option_bind in E;
  repeat (case_match; try done); by simplify_eq.

#[local] Hint Extern 2 (keeps w_wt (setb _)) => apply keeps_setb : keeps.

Section prims.
Context (ev : env).

(** ** Primitives *)

Lemma apart_tx_push e data : apart (tx_ring_push ev e data).
Proof using Type. unfold tx_ring_push. keeps_tac. apart_prim. Qed.
Lemma apart_tx_pop : apart tx_ring_pop.
Proof using Type. unfold tx_ring_pop. apart_prim. Qed.
Lemma apart_tx_peek : apart tx_ring_peek.
Proof using Type. unfold tx_ring_peek. apart_prim. Qed.
Lemma apart_refill : apart rx_refill.
Proof using Type. unfold rx_refill. apart_prim. Qed.
Lemma apart_wake_read : apart wake_read.
Proof using Type. unfold wake_read. apart_prim. Qed.
Lemma apart_asyncio_trace k a b : apart (asyncio_trace_add ev k a b).
Proof using Type. unfold asyncio_trace_add. keeps_tac. apart_prim. Qed.
Lemma apart_table_op {A} (f : dgram_table -> ring_store -> option (A * dgram_table * ring_store)) :
  apart (table_op f).
Proof using Type. unfold table_op. apart_prim. Qed.
Lemma apart_table_put cnx db : apart (table_put ev cnx db).
Proof using Type. unfold table_put. pose proof (@apart_table_op). keeps_tac. Qed.
Lemma apart_offer tls names : apart (offer_alpns ev tls names).
Proof using Type. induction names; cbn [offer_alpns]; keeps_tac. Qed.
Lemma apart_alpn_tokens room : ∀ cursor arr, apart (alpn_tokens ev room cursor arr).
Proof using Type.
  induction room as [|room IH]; intros cursor arr; cbn [alpn_tokens]; [keeps_tac|].
  destruct (aiopquic_alpn_next_token 256 cursor) as [[n tok] c]. keeps_tac.
Qed.
Lemma apart_closing cnx : apart (aiopquic_cnx_closing ev cnx).
Proof using Type. unfold aiopquic_cnx_closing. keeps_tac. Qed.
Lemma apart_reason_hold cnx data len : apart (aiopquic_close_reason_hold ev cnx data len).
Proof using Type. unfold aiopquic_close_reason_hold. keeps_tac. Qed.
Lemma apart_wake_needed : apart aiopquic_tx_wake_needed.
Proof using Type. unfold aiopquic_tx_wake_needed. keeps_tac. Qed.
Lemma apart_wake_up : apart (wake_up_worker ev).
Proof using Type. unfold wake_up_worker. keeps_tac. Qed.
Lemma apart_arm : apart (aiopquic_arm_tx_event_ring_drain_pending ev).
Proof using Type. unfold aiopquic_arm_tx_event_ring_drain_pending. keeps_tac. Qed.
End prims.

#[export] Hint Resolve apart_tx_push apart_tx_pop apart_tx_peek apart_refill
  apart_wake_read apart_asyncio_trace apart_table_op apart_table_put apart_offer apart_alpn_tokens
  apart_closing apart_reason_hold apart_wake_needed apart_wake_up apart_arm : keeps.

Section calls.
Context (ev : env).

(** ** Python's calls *)

Lemma apart_tx_push_sc e data : apart (aiopquic_tx_push_sc ev e data).
Proof using Type. unfold aiopquic_tx_push_sc. keeps_tac. Qed.
Lemma apart_rx_push_sc e data : apart (aiopquic_rx_push_sc ev e data).
Proof using Type. unfold aiopquic_rx_push_sc. keeps_tac. Qed.
Lemma apart_rx_take : apart rx_take.
Proof using Type. unfold rx_take. apart_prim. Qed.
Lemma apart_clear_rx : apart (aiopquic_clear_rx ev).
Proof using Type. unfold aiopquic_clear_rx. keeps_tac. Qed.
Lemma apart_fc_credit cnx id sc : apart (aiopquic_push_fc_credit ev cnx id sc).
Proof using Type. unfold aiopquic_push_fc_credit. keeps_tac. Qed.
Lemma apart_flag p f : apart (sc_flag_step p f).
Proof using Type. destruct f; cbn [sc_flag_step]; keeps_tac. Qed.
Lemma apart_rx_read p n : apart (rx_read p n).
Proof using Type. unfold rx_read. keeps_tac. Qed.
Lemma apart_dgram_create p ok blk c m : apart (dgram_create p ok blk c m).
Proof using Type. unfold dgram_create. apart_prim. Qed.
Lemma apart_dgram_push db data : apart (dgram_push db data).
Proof using Type. unfold dgram_push. keeps_tac. Qed.
Lemma apart_release_post cnx db : apart (aiopquic_dgram_ring_release_post ev cnx db).
Proof using Type. unfold aiopquic_dgram_ring_release_post. keeps_tac. Qed.
Lemma apart_post_owed owed : apart (post_owed ev owed).
Proof using Type.
  pose proof apart_release_post. induction owed as [|[cnx db] owed IH]; cbn [post_owed]; keeps_tac.
Qed.
Lemma apart_flush_loop n : apart (flush_loop ev n).
Proof using Type. pose proof apart_post_owed. induction n; cbn [flush_loop]; keeps_tac. done. Qed.
Lemma apart_flush : apart (aiopquic_dgram_ring_release_flush ev).
Proof using Type. unfold aiopquic_dgram_ring_release_flush. pose proof apart_flush_loop. keeps_tac. Qed.
Lemma apart_release cnx db : apart (aiopquic_dgram_ring_release ev cnx db).
Proof using Type.
  unfold aiopquic_dgram_ring_release. pose proof apart_release_post. pose proof apart_flush. keeps_tac.
Qed.
Lemma apart_alpn csv : apart (aiopquic_ctx_set_alpn_list ev csv).
Proof using Type. unfold aiopquic_ctx_set_alpn_list. keeps_tac. Qed.
End calls.

#[export] Hint Resolve apart_tx_push_sc apart_rx_push_sc apart_rx_take apart_clear_rx apart_fc_credit
  apart_flag apart_rx_read apart_dgram_create apart_dgram_push apart_flush apart_release apart_alpn : keeps.

(** ** picoquic's stream callback *)

Section stream.
Context (ev : env).

Lemma apart_fire_drained cnx id sc : apart (fire_stream_drained ev cnx id sc).
Proof using Type. unfold fire_stream_drained. keeps_tac. Qed.
Lemma apart_prepare_to_send race cnx id bytes length sc :
  apart (prepare_to_send ev race cnx id bytes length sc).
Proof using Type.
  unfold prepare_to_send. pose proof apart_fire_drained. keeps_tac. apart_prim.
Qed.
Lemma apart_prepare_datagram cnx bytes length : apart (prepare_datagram ev cnx bytes length).
Proof using Type. unfold prepare_datagram. keeps_tac. apart_prim. Qed.
Lemma apart_close_codes fe cnx id e : apart (close_codes ev fe cnx id e).
Proof using Type. unfold close_codes, table_remove. keeps_tac. Qed.
Lemma apart_rx_payload fe cnx id length data e : apart (rx_payload ev fe cnx id length data e).
Proof using Type. unfold rx_payload. keeps_tac. apart_prim. Qed.
Lemma apart_push_failed b sc : apart (rx_push_failed ev b sc).
Proof using Type. unfold rx_push_failed. keeps_tac. Qed.
Lemma apart_push_event fe cnx id bytes length data e :
  apart (push_event ev fe cnx id bytes length data e).
Proof using Type.
  unfold push_event. pose proof apart_rx_payload. pose proof apart_push_failed. keeps_tac.
Qed.
Lemma apart_cb_open cnx id bytes length data fe sc :
  apart (stream_cb_open ev cnx id bytes length data fe sc).
Proof using Type.
  unfold stream_cb_open. pose proof apart_prepare_datagram. pose proof apart_close_codes.
  pose proof apart_push_event. keeps_tac.
Qed.
Lemma apart_stream_cb race cnx id bytes length data fe sc :
  apart (aiopquic_stream_cb ev race cnx id bytes length data fe sc).
Proof using Type.
  unfold aiopquic_stream_cb. pose proof apart_prepare_to_send. pose proof apart_cb_open. keeps_tac.
Qed.
End stream.

(** ** The worker's loop *)

Section worker.
Context (ev : env) `{WtHandler}.

Lemma apart_reattach cnx id sc rc : apart (aiopquic_stream_reattach_sc ev cnx id sc rc).
Proof using Type. unfold aiopquic_stream_reattach_sc. keeps_tac. Qed.
Lemma apart_maybe_fire : apart (aiopquic_maybe_fire_tx_event_ring_drained ev).
Proof using Type. unfold aiopquic_maybe_fire_tx_event_ring_drained. keeps_tac. Qed.
Lemma apart_entry_done : apart (tx_entry_done ev).
Proof using Type. unfold tx_entry_done. pose proof apart_maybe_fire. keeps_tac. Qed.
Lemma apart_idle_arm : apart aiopquic_tx_worker_idle_arm.
Proof using Type. unfold aiopquic_tx_worker_idle_arm. keeps_tac. Qed.
Lemma apart_loop_running : apart (loop_running ev).
Proof using Type. unfold loop_running. keeps_tac. Qed.
Lemma apart_deferred_free d : apart (aiopquic_deferred_reset_free d).
Proof using Type. unfold aiopquic_deferred_reset_free. keeps_tac. Qed.

(** A raw entry. *)
Lemma apart_tx_dispatch e : raw_type (e_event_type e) -> apart (tx_dispatch ev e).
Proof using Type.
  pose proof apart_reattach as Hre.
  assert (Hdead : apart (tx_dead_cnx e)) by (unfold tx_dead_cnx, aiopquic_tx_event_release; keeps_tac).
  assert (Hrel : apart (aiopquic_tx_event_release e)) by (unfold aiopquic_tx_event_release; keeps_tac).
  intros (t & Ht & Et). assert (L : apart (tx_switch ev e) -> is_wt_event (e_event_type e) = false ->
    evt_is (e_event_type e) SPSC_EVT_TX_CONNECT = false ->
    evt_is (e_event_type e) SPSC_EVT_TX_SET_MAX_CONNECTIONS = false ->
    evt_is (e_event_type e) SPSC_EVT_TX_DGRAM_RING_RELEASE = false -> apart (tx_dispatch ev e)).
  { intros Hsw H1 H2 H3 H4. unfold tx_dispatch. rewrite H1, H2, H3, H4. keeps_tac. }
  unfold raw_tx_types in Ht. rewrite !elem_of_cons in Ht.
  repeat destruct Ht as [->|Ht]; [..|by apply elem_of_nil in Ht]; rewrite Et in L;
    first [apply L; [|reflexivity..]; unfold tx_switch; rewrite Et; cbn [evt_is evt_code Z.eqb Pos.eqb]
          |unfold tx_dispatch; rewrite Et; cbn [evt_is evt_code Z.eqb Pos.eqb]]; clear L;
    unfold tx_close, tx_stream_reset, tx_stop_sending, tx_mark_active, tx_connect, tx_open_flow_control,
      tx_set_app_flow_control, tx_mark_datagram_ready, tx_cnx_refresh, tx_set_stream_priority,
      tx_dgram_ring_release, tx_set_datagram_priority, aiopquic_stream_reattach,
      aiopquic_dgram_ring_drop, table_remove_ring.
  all: keeps_tac.
  all: apart_prim.
Qed.
End worker.
