(* ===== verification/WtDrain.v ===== *)
(** * The worker's loop under WebTransport

    The packet-loop callback with [wt_handler]: each entry it takes off the TX ring, raw
    or of WebTransport, and each held reset it sends, keeps the invariant with the
    references of links and sessions counted ([winv]).  [drain_visits] lists the entries
    a drain handles and the states it handles them in; the loop's contract ([entry_ok])
    is about those. *)
From S2P Require Import Prelude Ring Store StreamBuf SpscRing EventChannel DgramBuf DgramTable.
From S2P Require Import StreamCtx WtState Bridge Alpn Callback World BridgeSafe StreamCb PySide Runs System.
From S2P Require Import WtProto WtSession WtPath WtTx WtBudget WtRun WtSpec WtSafe WtCalls WtCmd WtEnd WtTotal WtAside.

(** ** The entries a call of the loop handles *)

Section visits.
Context (ev : env).

Definition wt_entry (e : spsc_entry) : M unit :=
  tx_dispatch (H := wt_handler ev) ev e ;; tx_entry_done ev.

Fixpoint drain_visits (fuel : nat) (w : world) : list (spsc_entry * world) :=
  match fuel with
  | O => []
  | S fuel =>
      match tx_ring_peek w with
      | Some (Some e, w) =>
          (e, w) :: match wt_entry e w with Some (_, w) => drain_visits fuel w | None => [] end
      | _ => []
      end
  end.

(** The loop up to its drain: whether it drains. *)
Definition loop_head (mode : packet_loop_cb) : M bool :=
  loop_running ev ;;
  match mode with
  | picoquic_packet_loop_time_check delta_t now =>
      when (delta_t >? 0)
        (setb (b_set_tx_worker_armed_at (if delta_t >=? AIOPQUIC_TX_WAKE_LOST_US then now else 0))) ;;
      if delta_t >? 0 then aiopquic_tx_worker_idle_arm
      else e ← tx_ring_peek; ret (if e is Some _ then true else false)
  | picoquic_packet_loop_wake_up => ret true
  | _ => ret false
  end.

Definition loop_visits (fuel : nat) (mode : packet_loop_cb) (w : world) : list (spsc_entry * world) :=
  match loop_head mode w with Some (true, w) => drain_visits fuel w | _ => [] end.
End visits.

(** What asyncio owes for an entry when the loop reaches it.  The session a WebTransport
    command names is in memory, and what h3zero stores about it is sound; no counter is
    near its width, the events the command may send included ([N]: the most deregisters
    h3zero calls back with). *)
Record entry_ok (N : Z) (e : spsc_entry) (w : world) : Prop := {
  en_below : below w;
  en_session : wt_type (e_event_type e) -> e_cnx e <> 0 -> session_live (e_cnx e) w ∧ linkedw w ∧
    (e_event_type e = SPSC_EVT_TX_MARK_WT_DATAGRAM_READY -> e_error_code e <> 0 ->
     ring_live (e_error_code e) w);
  en_events : wt_type (e_event_type e) -> command_events (N := N) e w < 2 ^ 62
}.

Definition all_ok (N : Z) (vs : list (spsc_entry * world)) : Prop :=
  Forall (λ v, entry_ok N v.1 v.2) vs.

(** ** One entry *)

(** A WebTransport command holds neither a wrapper nor a release. *)
Lemma wt_type_free e p : wt_type (e_event_type e) -> tx_ref p e = 0 ∧ rel_ref p e = 0 ∧ mark_of e = 0.
Proof.
  intros (t & Ht & Et). assert (E : aiopquic_tx_event_owns_sc (e_event_type e) = false ∧
    is_release (e_event_type e) = false ∧ (e_event_type e =? SPSC_EVT_TX_MARK_DATAGRAM_READY) = false).
  { rewrite Et. unfold wt_tx_types in Ht. rewrite !elem_of_cons in Ht.
    repeat destruct Ht as [->|Ht]; [..|by apply elem_of_nil in Ht]; done. }
  destruct E as (E1 & E2 & E3). split; [|split].
  - apply holds_none. by rewrite E1, andb_false_r.
  - apply holds_none. by rewrite E2, andb_false_r.
  - unfold mark_of. by rewrite E3.
Qed.

Lemma wt_dispatch ev e : wt_type (e_event_type e) ->
  tx_dispatch (H := wt_handler ev) ev e = (_ ← wt_handle_tx ev e; ret tt).
Proof.
  intros (t & Ht & Et). unfold tx_dispatch. rewrite Et. unfold wt_tx_types in Ht.
  rewrite !elem_of_cons in Ht. by repeat destruct Ht as [->|Ht]; [..|by apply elem_of_nil in Ht].
Qed.

Lemma wgrows_grows n g g' : wgrows n 0 g g' -> grows n 0 g g'.
Proof. intros []. split; try done; lia. Qed.

Section worker.
Context {ev : env} (Eok : env_ok ev) (Hok : h3_ok ev).
Context {N : Z} (HN : 0 <= N) (Hcm : h3_cmd_ok ev N).
Context {x xd : Z -> Z} (X0 : ∀ p, 0 <= x p) (XD0 : ∀ p, 0 <= xd p).
Abbreviation winv := (winv x xd).

Lemma with_rings_nonneg o p : 0 <= with_rings xd o p.
Proof using XD0. unfold with_rings. pose proof (objs_sum_nonneg (ring_holds p) o (ring_holds_nonneg p)). specialize (XD0 p). lia. Qed.

(** The head entry, handled: what it held is still to be accounted for. *)
Definition dispatched (e : spsc_entry) (n : Z) (g : ghost) (w : world) : Prop :=
  let o := wt_objs (w_wt w) in
  ∃ g', inv (λ p, with_links x o p - tx_ref p e) (λ p, with_rings xd o p - rel_ref p e) g' (res_of w) ∧
    grows n (mark_of e) g g'.

(** The queues after the head entry left, [n] events sent. *)
Record popped (e : spsc_entry) (q : list spsc_entry) (n : Z) (g g' : ghost) : Prop := {
  po_ht : g_ht g' = g_ht g + 1;
  po_tx : g_tx g' = q;
  po_hr : g_hr g' = g_hr g;
  po_owed : g_owed g' = g_owed g;
  po_rx : zlen (g_rx g) <= zlen (g_rx g') <= zlen (g_rx g) + n + 1;
  po_puts : g_puts g <= g_puts g' <= g_puts g + mark_of e;
  po_T : g_T g' = g_T g;
  po_wt : g_wt g' = g_wt g
}.

Lemma entry_popped e q n g w : g_tx g = e :: q -> rx_room g (n + 1) ->
  wp (tx_dispatch (H := wt_handler ev) ev e) (λ _ w1, dispatched e n g w1) w ->
  wp (wt_entry ev e) (λ _ w', ∃ g', winv g' w' ∧ popped e q n g g') w.
Proof using Eok.
  intros Eq Hr Hd. apply wp_bind. eapply wp_mono; [exact Hd|]. intros [] w1 (g1 & I1 & G1).
  assert (Eq1 : g_tx g1 = e :: q) by (rewrite (gr_tx _ _ _ _ G1); done).
  pose proof (gr_rx _ _ _ _ G1). pose proof (gr_hr _ _ _ _ G1) as Eh. pose proof (gr_puts _ _ _ _ G1).
  destruct (sp_entry_done Eok _ _ g1 w1 e q I1 Eq1) as ([] & w2 & E2 & g2 & I2 & G2 & _).
  { unfold rx_room in *. lia. }
  exists tt, w2. split; [done|]. exists g2. pose proof (apart_entry_done ev _ _ _ E2) as Ew.
  split; [unfold WtSafe.winv; by rewrite Ew|].
  destruct G1, G2. cbn [with_tx g_ht g_tx g_hr g_rx g_owed g_puts g_T g_wt] in *.
  split; try congruence; lia.
Qed.

(** A raw entry, whatever links and sessions hold besides. *)
Lemma raw_dispatched e q g w : winv g w -> g_tx g = e :: q -> raw_type (e_event_type e) -> below w ->
  marks_ok xd (g_owed g) (e :: q) -> g_puts g + mark_of e <= 2 ^ 26 -> rx_room g 1 ->
  wp (tx_dispatch (H := wt_handler ev) ev e) (λ _ w1, dispatched e 1 g w1) w.
Proof using Eok X0 XD0.
  intros I Eq Ht Hb [Hm _] Hp Hr.
  destruct (sp_tx_dispatch Eok (H := wt_handler ev) I Eq (with_links_nonneg X0 _) (with_rings_nonneg _) Hr Ht
    (held_few I Hb) Hp) as ([] & w1 & E1 & g1 & I1 & G1 & _).
  { intros Et Hz. split; [|by apply (held_db I)]. specialize (Hm Et Hz). unfold db_refs, with_rings.
    pose proof (objs_sum_nonneg (ring_holds (e_stream_ctx e)) (wt_objs (w_wt w)) (ring_holds_nonneg _)).
    pose proof (proj1 (holds_range is_release (e_stream_ctx e) e)) as H0.
    change (holds is_release (e_stream_ctx e) e) with (rel_ref (e_stream_ctx e) e) in H0.
    rewrite Eq, lsum_cons. lia. }
  exists tt, w1. split; [done|]. pose proof (apart_tx_dispatch ev e Ht _ _ _ E1) as Ew.
  exists g1. by rewrite Ew.
Qed.

(** A command of WebTransport. *)
Lemma wt_dispatched e q g w : winv g w -> g_tx g = e :: q -> g_wt g = true -> wt_type (e_event_type e) ->
  entry_ok N e w -> rx_room g (command_events (N := N) e w) ->
  wp (tx_dispatch (H := wt_handler ev) ev e) (λ _ w1, dispatched e (command_events (N := N) e w) g w1) w.
Proof using Eok Hok HN Hcm X0 XD0.
  intros I Eq Hw Ht [Hb Hs _] Hr. rewrite wt_dispatch by done. apply wp_bind. eapply wp_mono.
  { apply (command_callable Eok Hok HN Hcm X0 XD0 e g w); [|exact I|by split].
    split; [intros _; by exists q|]. intros Hz. destruct (Hs Ht Hz) as (HL & Hlk & Hring).
    split; [done|]. split; [done|]. split; [by destruct Hb as (_ & _ & ? & _)|]. split.
    - pose proof (iv_good _ _ _ _ I) as Hg. rewrite Eq in Hg. apply Forall_cons in Hg as [[_ Ha _] _]. exact Ha.
    - intros Hev. apply Hring. by apply Z.eqb_eq in Hev. }
  intros rc w1 (g1 & I1 & G1). apply wp_ret. exists g1. destruct (wt_type_free e 0 Ht) as (_ & _ & ->).
  split; [|by apply wgrows_grows].
  eapply inv_ext; [| |exact I1]; intros p; destruct (wt_type_free e p Ht) as (? & ? & _); cbn beta; lia.
Qed.

(** Any entry. *)
Lemma entry_kept e q g w : winv g w -> g_tx g = e :: q -> g_wt g = true -> entry_ok N e w ->
  marks_ok xd (g_owed g) (e :: q) -> g_puts g + mark_of e <= 2 ^ 26 ->
  wp (wt_entry ev e) (λ _ w', ∃ g', winv g' w' ∧ popped e q (2 ^ 62) g g' ∧ rx_room g' 1) w.
Proof using Eok Hok HN Hcm X0 XD0.
  intros I Eq Hw Hen Hm Hp. pose proof (en_below _ _ _ Hen) as Hb.
  assert (Hr : g_hr g + zlen (g_rx g) < 2 ^ 63).
  { destruct (iv_rx _ _ _ _ I) as (q1 & q2 & R & En & Ed & Eqx). pose proof (rq_tail _ _ _ R).
    destruct Hb as (_ & Hb2 & _). rewrite Eqx, length_app. cbn in *. lia. }
  assert (D : ∃ n, n < 2 ^ 62 ∧ rx_room g (n + 1) ∧
    wp (tx_dispatch (H := wt_handler ev) ev e) (λ _ w1, dispatched e n g w1) w).
  { pose proof (iv_good _ _ _ _ I) as Hg. rewrite Eq in Hg. apply Forall_cons in Hg as [[Ht _ _] _].
    destruct Ht as [Ht|[_ Ht]].
    - exists 1. split; [lia|]. split; [unfold rx_room; lia|].
      apply (raw_dispatched e q g w); try done. unfold rx_room. lia.
    - pose proof (en_events _ _ _ Hen Ht). exists (command_events (N := N) e w). split; [done|].
      split; [unfold rx_room; lia|]. apply (wt_dispatched e q g w); try done. unfold rx_room. lia. }
  destruct D as (n & Hn & Hr2 & D). eapply wp_mono; [by apply (entry_popped e q n g w)|].
  intros [] w' (g' & I' & P). exists g'. split; [done|]. destruct P. split; [split; try done; lia|].
  unfold rx_room in *. lia.
Qed.

(** ** The drain *)

Record wdrained (g g' : ghost) : Prop := {
  wd_tx : g_tx g' = [];
  wd_ht : g_ht g' = g_ht g + zlen (g_tx g);
  wd_hr : g_hr g' = g_hr g;
  wd_owed : g_owed g' = g_owed g;
  wd_puts : g_puts g <= g_puts g' <= g_puts g + lsum mark_of (g_tx g);
  wd_T : g_T g' = g_T g;
  wd_wt : g_wt g' = g_wt g;
  wd_room : rx_room g' 1
}.

Lemma drain_kept q : ∀ fuel g w, winv g w -> g_tx g = q -> g_wt g = true ->
  all_ok N (drain_visits ev fuel w) -> marks_ok xd (g_owed g) q ->
  g_puts g + lsum mark_of q <= 2 ^ 26 -> rx_room g 1 -> (length q < fuel)%nat ->
  wp (tx_drain (H := wt_handler ev) ev fuel) (λ _ w', ∃ g', winv g' w' ∧ wdrained g g') w.
Proof using Eok Hok HN Hcm X0 XD0.
  induction q as [|e q IH]; intros fuel g w I Eq Hw Hv Hm Hp Hr Hf; (destruct fuel as [|fuel]; [lia|]);
    cbn [tx_drain]; apply wp_bind.
  { apply (sp_tx_peek I). rewrite Eq. apply wp_ret. exists g. split; [done|].
    split; try done; rewrite Eq; unfold lsum; cbn; lia. }
  destruct (sp_tx_peek I (λ o w', o = Some e ∧ w' = w)) as (o & w' & E & -> & ->); [by rewrite Eq|].
  eexists _, w. split; [exact E|]. cbn [drain_visits] in Hv. rewrite E in Hv.
  apply Forall_cons in Hv as [Hen Hv]. rewrite lsum_cons in Hp.
  pose proof (lsum_nonneg mark_of q mark_nonneg).
  destruct (entry_kept e q g w I Eq Hw Hen Hm ltac:(lia)) as ([] & w1 & E1 & g1 & I1 & P1 & R1).
  rewrite E1 in Hv.
  assert (K : wp (tx_drain (H := wt_handler ev) ev fuel) (λ _ w', ∃ g', winv g' w' ∧ wdrained g g') w1).
  { pose proof (po_owed _ _ _ _ _ P1) as Eo. pose proof (po_tx _ _ _ _ _ P1) as Et.
    pose proof (po_puts _ _ _ _ _ P1). eapply wp_mono.
    - apply (IH fuel g1 w1 I1 Et); [by rewrite (po_wt _ _ _ _ _ P1)|exact Hv|rewrite Eo; apply Hm|lia|done|cbn in Hf; lia].
    - intros [] w2 (g2 & I2 & [D1 D2 D3 D4 D5 D6 D7 D8]). exists g2. split; [done|]. destruct P1.
      rewrite Et in D2, D5. split; rewrite ?Eq; try congruence; rewrite ?lsum_cons; cbn [length]; lia. }
  unfold wt_entry in E1. unfold wp, mbind, M_bind, bind in *. destruct (tx_dispatch _ _ _) as [[[] w3]|]; [|done].
  rewrite E1. exact K.
Qed.

(** ** Held resets *)

Abbreviation holding := (keeps (λ w, b_deferred_resets (w_ctx w))).

Lemma holding_pq c : holding (pq ev c).
Proof using Type. by intros w y w' [= _ <-]. Qed.
Lemma holding_pq_ c : holding (pq_ ev c).
Proof using Type. unfold pq_. pose proof holding_pq. keeps_tac. Qed.
Lemma holding_h3 c : holding (h3 ev c).
Proof using Type. by intros w y w' [= _ <-]. Qed.
Lemma holding_read_st {A} st (f : h3_stream -> A) : holding (read_st st f).
Proof using Type. by intros w y w' [-> _]%read_st_some. Qed.
Lemma holding_upd_st st f : holding (upd_st st f).
Proof using Type. unfold upd_st. intros w y w' E. cbn in E. destruct (_ !! st); [|done]. by injection E as _ <-. Qed.
Lemma holding_on_sc f : holding (on_sc f).
Proof using Type. intros w y w' E. unfold on_sc in E. destruct (f _); [|done]. by injection E as _ <-. Qed.

Lemma holding_reset d : holding (wt_deferred_reset ev d).
Proof using Type.
  pose proof holding_pq. pose proof holding_pq_. pose proof holding_h3. pose proof @holding_read_st.
  pose proof holding_upd_st. pose proof holding_on_sc.
  unfold wt_deferred_reset, aiopquic_wt_reset_stream_reliable, aiopquic_reset_stream_reliable,
    aiopquic_wt_stream_reattach. keeps_tac.
Qed.

Lemma with_links_inc o p q : with_links (inc x p) o q = inc (with_links x o) p q.
Proof using Type. unfold with_links, inc. lia. Qed.

(** [winv] with one more reference, held by a reset just unlinked. *)
Definition held_winv (d : deferred_reset) (g : ghost) (w : world) : Prop :=
  inv (inc (with_links x (wt_objs (w_wt w))) (d_sc d)) (with_rings xd (wt_objs (w_wt w))) g (res_of w).

Lemma apart_raw_fire d : d_is_wt d = 0 -> apart (deferred_reset_fire (H := wt_handler ev) ev d).
Proof using Type.
  intros Hd. unfold deferred_reset_fire. rewrite Hd. cbn [Z.eqb negb]. pose proof (apart_reattach ev). keeps_tac.
Qed.

(** A held reset of either kind is sent. *)
Lemma fire_kept d g w : held_winv d g w -> g_wt g = true -> rx_room g 0 ->
  wp (deferred_reset_fire (H := wt_handler ev) ev d) (λ _ w', ∃ g',
    held_winv d g' w' ∧ wgrows 0 0 g g' ∧ g_def g' = g_def g) w.
Proof using Hcm X0.
  intros I Hw Hr. destruct (Z.eq_dec (d_is_wt d) 0) as [Hd|Hd].
  { destruct (sp_reset_fire (ev := ev) (H := wt_handler ev) _ _ g w d I (with_links_nonneg X0 _) Hd) as (u & w' & E & I').
    exists u, w'. split; [done|]. exists g. split; [|split; [apply wgrows_refl|done]].
    unfold held_winv. by rewrite (apart_raw_fire d Hd _ _ _ E). }
  unfold deferred_reset_fire. rewrite (proj2 (Z.eqb_neq _ 0) Hd). cbn [negb]. apply wp_bind.
  assert (Hp : 0 < sc_refs (inc (with_links x (wt_objs (w_wt w))) (d_sc d)) g (d_sc d)).
  { eapply sc_refs_own; [exact I|]. unfold inc. rewrite Z.eqb_refl.
    pose proof (with_links_nonneg X0 (wt_objs (w_wt w)) (d_sc d)). cbn. lia. }
  destruct (sp_update I (d_sc d) (sc_set_tx_reset_pending 0) Hp) as ([] & w1 & E1 & I1).
  { intros sc [Hs _] Hrx. split_and!; try done; apply Hs. }
  exists tt, w1. split; [done|].
  assert (Ew : w_wt w1 = w_wt w) by (eapply (quiet_wt (upd_sc _ _)); [apply quiet_upd_sc|exact E1]).
  assert (XI : ∀ p, 0 <= inc x (d_sc d) p).
  { intros p. unfold inc. specialize (X0 p). pose proof (c_bool_nonneg (p =? d_sc d)). lia. }
  destruct (deferred_callable Hcm (xd := xd) XI d g w1) as ([] & w2 & E2 & g2 & I2 & G2); [| | |].
  - unfold inc. rewrite Z.eqb_refl. specialize (X0 (d_sc d)). cbn. lia.
  - eapply inv_ext; [| |exact I1]; intros p; rewrite Ew; [by rewrite with_links_inc|done].
  - by split.
  - exists tt, w2. split; [done|]. exists g2. split; [|split; [done|]].
    + eapply inv_ext; [| |exact I2]; intros p; [by rewrite with_links_inc|done].
    + pose proof (iv_def _ _ _ _ I1) as D1. pose proof (iv_def _ _ _ _ I2) as D2.
      cbn in D1, D2. rewrite <- D2, <- D1. apply (holding_reset d _ _ _ E2).
Qed.

(** A walk step done: [k] lies before the rest of the list. *)
Lemma walk_kept sweep ds : ∀ k g w, winv g w -> g_wt g = true -> rx_room g 0 -> g_def g = k ++ ds ->
  wp (deferred_walk (H := wt_handler ev) ev sweep k ds) (λ _ w', ∃ g', winv g' w' ∧ wgrows 0 0 g g') w.
Proof using Hcm X0.
  induction ds as [|d ds IH]; intros k g w I Hw Hr Ed; cbn [deferred_walk].
  { apply wp_ret. exists g. split; [done|apply wgrows_refl]. }
  assert (Hd : d ∈ g_def g) by (rewrite Ed; apply elem_of_app; right; by left).
  destruct (held_reads _ _ g w d I Hd) as (sc & tx & Esc & Etx).
  assert (Hskip : ∀ w', winv g w' -> wp (deferred_walk (H := wt_handler ev) ev sweep (k ++ [d]) ds)
    (λ _ w', ∃ g', winv g' w' ∧ wgrows 0 0 g g') w').
  { intros w' I'. apply (IH (k ++ [d])); [done..|]. by rewrite <- app_assoc. }
  apply wp_bind. eexists _, w. split; [unfold read_tx; rewrite Esc; cbn [mbind option_bind]; by rewrite Etx|].
  apply wp_bind. eexists _, w. split; [unfold read_sc; by rewrite Esc|].
  destruct (_ && _); [by apply Hskip|]. apply wp_bind.
  destruct (idle_alive ev (d_cnx d) w (λ _ w1, res_of w1 = res_of w) ltac:(auto)) as (al & w1 & E1 & R1).
  pose proof (quiet_wt _ (quiet_alive ev (d_cnx d)) _ _ _ E1) as Ew1.
  assert (I1 : winv g w1) by (unfold WtSafe.winv; by rewrite Ew1, R1).
  exists al, w1. split; [done|]. destruct (_ && _); [by apply Hskip|].
  apply wp_bind, wp_setb. pose proof (inv_def_pop I1 k d ds Ed) as I2. set (w2 := w_set_ctx _ w1) in *.
  set (mo := if al then _ else _). apply wp_bind.
  assert (Imo : idle mo) by (unfold mo; destruct al; idle_tac).
  assert (Kmo : apart mo) by (unfold mo; destruct al; keeps_tac).
  destruct (Imo w2 (λ _ w3, res_of w3 = res_of w2) ltac:(auto)) as (open & w3 & E3 & R3).
  pose proof (Kmo _ _ _ E3) as Ew3. exists open, w3. split; [done|].
  assert (I3 : held_winv d (with_def g (k ++ ds)) w3) by (unfold held_winv; by rewrite Ew3, R3).
  apply wp_bind. apply (wp_mono _ (λ _ w4, ∃ g4, held_winv d g4 w4 ∧ wgrows 0 0 g g4 ∧ g_def g4 = k ++ ds)).
  { apply wp_when; intros _.
    - eapply wp_mono; [by apply (fire_kept d (with_def g (k ++ ds)) w3 I3)|].
      intros [] w4 (g4 & I4 & G4 & D4). exists g4. split; [done|]. split; [destruct G4; by split|done].
    - exists (with_def g (k ++ ds)). split; [done|]. split; [split; cbn; done || lia|done]. }
  intros [] w4 (g4 & I4 & G4 & D4). apply wp_bind.
  destruct (sp_deferred_free _ _ g4 w4 d I4 (with_links_nonneg X0 _)) as ([] & w5 & E5 & I5).
  exists tt, w5. split; [done|].
  assert (I6 : winv g4 w5) by (unfold WtSafe.winv; by rewrite (apart_deferred_free d _ _ _ E5)).
  eapply wp_mono; [apply (IH k g4 w5 I6); [by rewrite (wg_wt _ _ _ _ G4)| |done]|].
  - destruct G4. unfold rx_room in *. lia.
  - intros [] w6 (g6 & I7 & G6). exists g6. split; [done|]. change 0 with (0 + 0) at 1.
    by eapply (wgrows_trans 0 0 0 0).
Qed.

Lemma run_deferred_kept g w : winv g w -> g_wt g = true -> rx_room g 0 ->
  wp (aiopquic_run_deferred_resets (H := wt_handler ev) ev) (λ _ w', ∃ g', winv g' w' ∧ wgrows 0 0 g g') w.
Proof using Hcm X0.
  intros I Hw Hr. unfold aiopquic_run_deferred_resets.
  apply wp_bind. eexists _, _. split; [done|]. apply wp_bind, wp_getb.
  apply wp_bind. apply (wp_mono _ (λ _ w1, winv g w1)).
  { apply wp_when; intros _; [by apply wp_setb|done]. }
  intros [] w1 I1. apply wp_bind, wp_getb. apply walk_kept; try done. cbn. symmetry. apply I1.
Qed.

(** ** The packet-loop callback *)

Lemma apart_head mode : apart (loop_head ev mode).
Proof using Type. unfold loop_head. pose proof (apart_loop_running ev). pose proof apart_idle_arm. keeps_tac. Qed.

(** The head of the callback changes no queue; it drains a ring that is not empty. *)
Lemma head_kept mode g w : winv g w -> wp (loop_head ev mode) (λ b w', res_of w' = res_of w ∧
  (b = false -> drains mode (g_tx g) -> g_tx g = [])) w.
Proof using Type.
  intros I. unfold loop_head. apply wp_bind. eapply wp_mono; [apply (sp_loop_running _ _ g w I)|].
  intros [] w1 E1.
  assert (F : ∀ w', res_of w' = res_of w ->
    inv (with_links x (wt_objs (w_wt w))) (with_rings xd (wt_objs (w_wt w))) g (res_of w')) by (by intros w' ->).
  destruct mode as [|delta now| | |]; try by apply wp_ret.
  apply wp_idle; [apply idle_when; by apply idle_setb|]. intros [] w2 E2. destruct (delta >? 0).
  - unfold aiopquic_tx_worker_idle_arm. apply wp_idle; [by apply idle_setb|]. intros [] w3 E3.
    apply wp_bind. apply (sp_peek_idle _ _ g w3 _ (F w3 ltac:(congruence))). intros o w4 -> Ho. destruct o as [e|].
    + apply wp_idle; [by apply idle_setb|]. intros [] w5 E5. apply wp_ret. split; [congruence|done].
    + apply wp_ret. split; [congruence|]. intros _ _. by apply Ho.
  - apply wp_bind. apply (sp_peek_idle _ _ g w2 _ (F w2 ltac:(congruence))). intros o w4 -> Ho. apply wp_ret.
    split; [congruence|]. destruct o; [done|]. intros _ _. by apply Ho.
Qed.

Lemma loop_split fuel mode w :
  mode = picoquic_packet_loop_wake_up ∨ (∃ d t, mode = picoquic_packet_loop_time_check d t) ->
  ∃ r, aiopquic_loop_cb (H := wt_handler ev) ev fuel mode w =
    (b ← loop_head ev mode; if b : bool then loop_wake_up (H := wt_handler ev) ev fuel ;; ret 0 else ret r) w.
Proof using Type.
  intros Hm. exists (match mode with picoquic_packet_loop_time_check d _ => d | _ => 0 end).
  unfold aiopquic_loop_cb, loop_head, mbind, M_bind, bind. destruct (loop_running ev w) as [[[] w1]|]; [|done].
  destruct Hm as [->|(d & t & ->)]; [done|]. destruct (when _ _ w1) as [[[] w2]|]; [|done].
  destruct (d >? 0).
  - destruct (aiopquic_tx_worker_idle_arm w2) as [[[] w3]|]; done.
  - destruct (tx_ring_peek w2) as [[[e|] w3]|]; done.
Qed.

(** What one call of the loop may have done. *)
Record wlooped (g g' : ghost) : Prop := {
  wl_tx : (g_tx g' = g_tx g ∧ g_ht g' = g_ht g) ∨ (g_tx g' = [] ∧ g_ht g' = g_ht g + zlen (g_tx g));
  wl_hr : g_hr g' = g_hr g;
  wl_owed : g_owed g' = g_owed g;
  wl_puts : g_puts g' + lsum mark_of (g_tx g') <= g_puts g + lsum mark_of (g_tx g);
  wl_T : g_T g' = g_T g;
  wl_wt : g_wt g' = g_wt g
}.

Lemma wlooped_wgrows n g g' : wgrows n 0 g g' -> wlooped g g'.
Proof using Type. intros []. split; try done; [left; done|rewrite wg_tx, wg_puts; lia|lia]. Qed.

Lemma wake_up_kept fuel g w : winv g w -> g_wt g = true -> all_ok N (drain_visits ev fuel w) ->
  marks_ok xd (g_owed g) (g_tx g) -> g_puts g + lsum mark_of (g_tx g) <= 2 ^ 26 -> rx_room g 1 ->
  (length (g_tx g) < fuel)%nat ->
  wp (loop_wake_up (H := wt_handler ev) ev fuel) (λ _ w', ∃ g', winv g' w' ∧ wlooped g g' ∧ g_tx g' = []) w.
Proof using Eok Hok HN Hcm X0 XD0.
  intros I Hw Hv Hm Hp Hr Hf. unfold loop_wake_up. apply wp_bind.
  eapply wp_mono; [by apply (drain_kept (g_tx g) fuel g w)|].
  intros [] w1 (g1 & I1 & [D1 D2 D3 D4 D5 D6 D7 D8]).
  destruct (sp_maybe_fire Eok _ _ g1 w1 I1 D8) as ([] & w2 & E2 & g2 & I2 & [G1 G2 G3 G4 G5 G6 G7 G8] & _).
  exists tt, w2. split; [done|]. exists g2. split; [|split; [|congruence]].
  - unfold WtSafe.winv. by rewrite (apart_maybe_fire ev _ _ _ E2).
  - split; rewrite ?G2, ?D1; try congruence; [right; split; [done|congruence]|].
    change (lsum mark_of []) with 0. lia.
Qed.

Lemma loop_kept fuel mode g w : winv g w -> g_wt g = true -> all_ok N (loop_visits ev fuel mode w) ->
  marks_ok xd (g_owed g) (g_tx g) -> g_puts g + lsum mark_of (g_tx g) <= 2 ^ 26 -> rx_room g 1 ->
  (length (g_tx g) < fuel)%nat ->
  wp (aiopquic_loop_cb (H := wt_handler ev) ev fuel mode) (λ _ w', ∃ g', winv g' w' ∧ wlooped g g' ∧
    (drains mode (g_tx g) -> g_tx g' = [])) w.
Proof using Eok Hok HN Hcm X0 XD0.
  intros I Hw Hv Hm Hp Hr Hf.
  assert (Hd : mode = picoquic_packet_loop_wake_up ∨ (∃ d t, mode = picoquic_packet_loop_time_check d t) ->
    wp (aiopquic_loop_cb (H := wt_handler ev) ev fuel mode) (λ _ w', ∃ g', winv g' w' ∧ wlooped g g' ∧
      (drains mode (g_tx g) -> g_tx g' = [])) w).
  { intros Hmode. destruct (loop_split fuel mode w Hmode) as [r Er].
    destruct (head_kept mode g w I) as (b & w1 & E1 & R1 & Hb). pose proof (apart_head mode _ _ _ E1) as Ew.
    assert (I1 : winv g w1) by (unfold WtSafe.winv; by rewrite Ew, R1).
    unfold wp. rewrite Er. apply (wp_bind (loop_head ev mode)). exists b, w1. split; [done|].
    unfold loop_visits in Hv. rewrite E1 in Hv. destruct b.
    - apply wp_bind. eapply wp_mono; [by apply (wake_up_kept fuel g w1)|].
      intros [] w2 (g2 & I2 & L & ?). apply wp_ret. by exists g2.
    - apply wp_ret. exists g. split; [done|]. split; [split; lia || auto|]. intros Hdr. by apply Hb. }
  assert (Hrun : wp (loop_running ev) (λ _ w', winv g w') w).
  { destruct (sp_loop_running (ev := ev) _ _ g w I) as (u & w1 & E1 & R1). exists u, w1. split; [done|].
    unfold WtSafe.winv. by rewrite (apart_loop_running ev _ _ _ E1), R1. }
  destruct mode as [|delta now| | |]; [|apply Hd; by eauto|apply Hd; by auto| |].
  all: unfold aiopquic_loop_cb; apply wp_bind; eapply wp_mono; [exact Hrun|]; intros u w1 I1.
  - apply wp_bind, wp_setb. apply wp_bind. eexists tt, _. split; [done|]. apply wp_bind.
    eapply wp_mono.
    { eapply (safe_push (x := x) (xd := xd) ev (event_entry SPSC_EVT_READY 0 0 0) []
        (λ _, True) Eok eq_refl (λ _, eq_refl) g);
        [exact I1|exact (conj Hr Hw)|exact Logic.I]. }
    intros rc w2 (g2 & I2 & G2 & _). apply wp_ret. exists g2. split; [done|].
    split; [by eapply wlooped_wgrows|done].
  - apply wp_bind, wp_getb. apply wp_bind. apply (wp_mono _ (λ _ w2, ∃ g2, winv g2 w2 ∧ wgrows 0 0 g g2)).
    + apply wp_when; intros _; [|exists g; split; [done|apply wgrows_refl]].
      apply run_deferred_kept; try done. unfold rx_room in *. lia.
    + intros [] w2 (g2 & I2 & G2). apply wp_ret. exists g2. split; [done|].
      split; [by eapply wlooped_wgrows|done].
  - apply wp_ret. exists g. split; [done|]. split; [split; lia || auto|done].
Qed.
End worker.
