(* ===== verification/WtSystem.v ===== *)
(** * The bridge with WebTransport, as a system

    System.v's runs with the other half switched on: Python's calls, picoquic's stream
    callbacks, h3zero's callbacks, the WebTransport commands asyncio queues and the
    worker's loop that handles them, in any order.  [wt_sys_step] runs one of them,
    [wt_op_ok] is what its caller owes.  A run keeps System.v's invariant, the references
    of links and sessions counted with Python's. *)
From S2P Require Import Prelude Ring Store StreamBuf SpscRing EventChannel DgramBuf DgramTable.
From S2P Require Import StreamCtx WtState Bridge Alpn Callback World BridgeSafe StreamCb PySide Runs System.
From S2P Require Import WtProto WtSession WtPath WtTx WtBudget WtRun WtSpec WtSafe WtCalls WtCmd WtEnd WtTotal.
From S2P Require Import WtAside WtDrain Teardown.

(** ** Steps *)

Inductive wt_op :=
  | OpRaw (o : sys_op)                     (** a call of System.v, its loop with [wt_handler] *)
  | OpSend (e : spsc_entry) (data : list Z)   (** asyncio queues a command: spsc_ring_push *)
  | OpH3 (m : h3_mem)                      (** h3zero works on its own structs *)
  | OpCallback (c : wt_call)               (** h3zero calls back *)
  | OpDispatch (race : list sc_op) (cnx id bytes length : Z) (data : list Z)
      (fe : call_back_event) (p : Z)       (** picoquic's first call on a new connection *)
  | OpSessionCreate | OpSessionDestroy (p : Z) | OpLinkDestroy (p : Z).  (** Python's *)

Definition link_in (l : Z) (w : world) : Prop :=
  ∃ k, wt_objs (w_wt w) !! l = Some (ObjLink k) ∧ wl_sc k <> 0.

(** What h3zero hands to a callback. *)
Definition handed_ok (x : Z -> Z) (c : wt_call) (w : world) : Prop :=
  match c with
  | WtPath race _ _ _ _ event st ctx =>
      handed ctx st w ∧ (delivers event = true -> st <> 0) ∧ Forall (is_send x) race
  | WtServer race _ _ _ _ _ st => server_live st w ∧ Forall (is_send x) race
  | WtCnx _ _ _ _ event ctx _ => looks_at_ctx event = true -> cnx_live ctx w
  | WtBootstrap _ _ _ _ _ _ _ => True
  | _ => False
  end.

Section wt_sys.
Context (ev : env) (N : Z).

Definition loop_fuel (w : world) : nat := S (Z.to_nat (spsc_ring_count (b_tx_event_ring (w_ctx w)))).

(** Whether a new connection is not the raw bridge's. *)
Definition to_h3 (cnx : Z) (w : world) : bool :=
  match ev_alpn ev (w_trace w) cnx with
  | None => true
  | Some alpn => negb (b_dual_wt_params (w_ctx w) =? 0) && bool_decide (alpn = alpn_h3)
  end.

Definition wt_sys_step (o : wt_op) (s : sys) : option sys :=
  let still {A} := λ (_ : A) w, Sys w (y_x s) (y_xd s) (y_marks s) (y_bytes s) in
  match o with
  | OpRaw o => sys_step (H := wt_handler ev) ev o s
  | OpSend e data => s_run s (tx_ring_push ev e data) still
  | OpH3 m => Some (still tt (set_h3 m (y_w s)))
  | OpCallback c =>
      s_run s (wt_step ev c) (λ _ w, Sys w (y_x s) (y_xd s) (y_marks s) (y_bytes s + call_bytes c))
  | OpDispatch race cnx id bts length data fe p =>
      s_run s (aiopquic_dispatch_cb ev race cnx id bts length data fe p) (λ _ w,
        Sys w (λ q, y_x s q + if to_h3 cnx (y_w s) then 0 else created (y_w s) w q)
          (y_xd s) (y_marks s) (y_bytes s + run_bytes race))
  | OpSessionCreate => s_run s (aiopquic_wt_session_create ev) still
  | OpSessionDestroy p => s_run s (aiopquic_wt_session_destroy ev p) still
  | OpLinkDestroy p => s_run s (aiopquic_wt_stream_link_destroy p) still
  end.

Definition wt_op_ok (o : wt_op) (s : sys) : Prop :=
  let w := y_w s in
  match o with
  | OpRaw (WkLoop mode) => all_ok N (loop_visits ev (loop_fuel w) mode w)
  | OpRaw o => op_ok ev o s
  | OpSend e _ => wt_type (e_event_type e) ∧ 0 <= e_aux e < 2 ^ 64 ∧ (e_cnx e = 0 ∨ 2 <= e_cnx e)
  | OpCallback c => handed_ok (y_x s) c w ∧ call_events c w < 2 ^ 62 ∧ y_bytes s + call_bytes c < 2 ^ 64
  | OpDispatch race cnx _ _ _ _ _ p => 2 <= cnx ∧ Forall (is_send (y_x s)) race ∧
      y_bytes s + run_bytes race < 2 ^ 64 ∧ (p = 0 ∨ is_live w p = true)
  | OpSessionDestroy p => p = 0 ∨ session_in p w
  | OpLinkDestroy p => p = 0 ∨ link_in p w
  | _ => True
  end.

Inductive wt_reach (s0 : sys) : sys -> Prop :=
  | wt_start : wt_reach s0 s0
  | wt_next s o s' : wt_reach s0 s -> below (y_w s) -> wt_op_ok o s -> wt_sys_step o s = Some s' ->
      wt_reach s0 s'.
End wt_sys.

(** ** The invariant *)

Definition links (w : world) (p : Z) : Z := objs_sum (link_holds p) (wt_objs (w_wt w)).
Definition rings_held (w : world) (p : Z) : Z := objs_sum (ring_holds p) (wt_objs (w_wt w)).

Lemma links_nonneg w p : 0 <= links w p.
Proof. apply objs_sum_nonneg, link_holds_nonneg. Qed.
Lemma rings_held_nonneg w p : 0 <= rings_held w p.
Proof. apply objs_sum_nonneg, ring_holds_nonneg. Qed.

Abbreviation wt_inv ev s := (sys_inv (wt := true) (ex := links (y_w s)) (exd := rings_held (y_w s)) ev s).

(** A raw call changes neither links nor sessions. *)
Lemma raw_apart ev (W : WtHandler) o s s' : (∀ mode, o <> WkLoop mode) ->
  sys_step ev o s = Some s' -> w_wt (y_w s') = w_wt (y_w s).
Proof.
  intros Hl E.
  assert (R : ∀ {A} (m : M A) k, apart m -> (∀ a w, y_w (k a w) = w) -> s_run s m k = Some s' ->
    w_wt (y_w s') = w_wt (y_w s)).
  { intros A m k Hm Hk Er. unfold s_run in Er. destruct (m (y_w s)) as [[a w]|] eqn:Em; [|done].
    injection Er as <-. rewrite Hk. by eapply Hm. }
  destruct o; cbn [sys_step] in E; [..|by destruct (Hl mode)|].
  all: refine (R _ _ _ _ _ E); [|done].
  all: first [solve [eauto with keeps typeclass_instances]|apply apart_stream_cb].
Qed.

(** What [below] leaves of the RX channel. *)
Lemma winv_room {x xd g w} n : winv x xd g w -> g_wt g = true -> below w -> n < 2 ^ 62 -> wt_room g n.
Proof.
  intros I Hw Hb Hn. split; [|done]. destruct (iv_rx _ _ _ _ I) as (q1 & q2 & R & En & Ed & Eq).
  pose proof (rq_tail _ _ _ R). destruct Hb as (_ & Hb2 & _). unfold rx_room. rewrite Eq, length_app.
  cbn in *. lia.
Qed.

(** A link is let go of: its reference with it, and nothing else. *)
Lemma sp_link_destroy {x xd g w} p k : winv x xd g w -> (∀ q, 0 <= x q) -> p <> 0 ->
  wt_objs (w_wt w) !! p = Some (ObjLink k) -> wl_sc k <> 0 ->
  wp (aiopquic_wt_stream_link_destroy p)
    (λ _ w', winv x xd g w' ∧ w_ctx w' = w_ctx w ∧ wt_objs (w_wt w') = delete p (wt_objs (w_wt w))) w.
Proof.
  intros I X0 Hz Ek Hk. unfold aiopquic_wt_stream_link_destroy. rewrite (proj2 (Z.eqb_neq p 0) Hz).
  apply wp_bind. eexists _, _.
  split; [unfold read_link; by rewrite Ek|]. rewrite (proj2 (Z.eqb_neq _ 0) Hk). cbn [negb when].
  set (o := wt_objs (w_wt w)) in *.
  pose proof (objs_sum_ge (link_holds (wl_sc k)) o p _ (link_holds_nonneg _) Ek) as Hge.
  cbn in Hge. rewrite Z.eqb_refl in Hge. cbn in Hge.
  destruct (sp_destroy I (wl_sc k)) as ([] & w1 & E1 & I1).
  { specialize (X0 (wl_sc k)). unfold with_links. fold o.
    pose proof (lsum_nonneg (tx_ref (wl_sc k)) (g_tx g) (λ e, proj1 (holds_range _ _ e))). lia. }
  pose proof (quiet_wt _ (quiet_on_sc _) _ _ _ E1) as Ew.
  assert (Ec : w_ctx w1 = w_ctx w).
  { revert E1. unfold on_sc. destruct (aiopquic_stream_ctx_destroy _ _); [|done]. by intros [= <-]. }
  apply wp_bind. exists tt, w1. split; [done|]. unfold free_obj. eexists tt, _.
  split; [rewrite Ew; fold o; by rewrite Ek|]. split; [|done].
  unfold winv. change (res_of (set_objs _ w1)) with (res_of w1). cbn.
  eapply inv_ext; [| |exact I1]; intros q; unfold dec, with_links, with_rings; fold o;
    rewrite (objs_sum_delete _ _ _ _ Ek); cbn; rewrite ?(Z.eqb_sym q); lia.
Qed.

Section kept.
Context {ev : env} (Eok : env_ok ev) (Hok : h3_ok ev) (Hboot : h3_boot_ok ev).
Context {N : Z} (HN : 0 <= N) (Hcm : h3_cmd_ok ev N).
Context {s : sys} {g : ghost} {lk : Z -> Z} (Y : wt_inv ev s g lk) (Hb : below (y_w s)).
Abbreviation own_xd := (λ p, y_xd s p + lk p).

Lemma own_xd_nonneg p : 0 <= own_xd p.
Proof using Y. pose proof (yi_lk _ _ _ _ Y p). pose proof (yi_xd _ _ _ _ Y p). cbn. lia. Qed.

Lemma sys_winv : winv (y_x s) own_xd g (y_w s).
Proof using Y. exact (yi_inv _ _ _ _ Y). Qed.

Lemma room_below n : n < 2 ^ 62 -> wt_room g n.
Proof using Y Hb. apply (winv_room n sys_winv (yi_wt _ _ _ _ Y) Hb). Qed.

Definition kept_step (r : option sys) : Prop :=
  ∃ s' g' lk', r = Some s' ∧ wt_inv ev s' g' lk'.

(** A call that keeps [winv], Python's references as they were. *)
Lemma winv_kept w' g' B : winv (y_x s) own_xd g' w' -> marks_ok own_xd (g_owed g') (g_tx g') ->
  g_owed g' = g_owed g -> g_puts g' + lsum mark_of (g_tx g') <= g_puts g + lsum mark_of (g_tx g) ->
  g_T g' <= g_T g + B -> g_wt g' = g_wt g ->
  wt_inv ev (Sys w' (y_x s) (y_xd s) (y_marks s) (y_bytes s + B)) g' lk.
Proof using Y.
  intros I Hm Ho Hp HT Hw. destruct Y. split; cbn [y_w y_x y_xd y_marks y_bytes]; try done.
  - by rewrite Ho.
  - lia.
  - lia.
  - congruence.
Qed.

(** A call with the contract of WtCalls.v. *)
Lemma callable_kept {A} n B (m : M A) : n < 2 ^ 62 ->
  callable (x := y_x s) (xd := own_xd) n B m g (y_w s) ->
  kept_step (s_run s m (λ _ w, Sys w (y_x s) (y_xd s) (y_marks s) (y_bytes s + B))).
Proof using Y.
  intros Hn (a & w' & E & g' & I' & [G1 G2 G3 G4 G5 G6 G7 G8]). unfold s_run. rewrite E. cbn.
  eexists _, g', lk. split; [done|]. apply winv_kept; [done| |done| |lia|done].
  - rewrite G2, G4. apply Y.
  - rewrite G2. lia.
Qed.

Lemma still_kept {A} (m : M A) : callable (x := y_x s) (xd := own_xd) 0 0 m g (y_w s) ->
  kept_step (s_run s m (λ _ w, Sys w (y_x s) (y_xd s) (y_marks s) (y_bytes s))).
Proof using Y.
  intros H. destruct (callable_kept 0 0 m ltac:(lia) H) as (s' & g' & lk' & E & Y').
  revert E. unfold s_run. destruct (m (y_w s)) as [[a w]|]; [|done]. cbn. rewrite Z.add_0_r.
  intros [= <-]. by eexists _, g', lk'.
Qed.

(** *** Each kind of call *)

Lemma raw_kept o : (∀ mode, o <> WkLoop mode) -> op_ok ev o s ->
  kept_step (sys_step (H := wt_handler ev) ev o s).
Proof using Y Hb Eok.
  intros Hl Ho.
  destruct (step_safe (H := wt_handler ev) Eok (links_nonneg _) (rings_held_nonneg _) Y Hb o) as (s' & g' & lk' & E & Y').
  - intros mode ->. by destruct (Hl mode).
  - exact Ho.
  - exists s', g', lk'. split; [exact E|]. pose proof (raw_apart _ _ _ _ _ Hl E) as Ew.
    unfold links, rings_held in *. by rewrite Ew.
Qed.

Lemma loop_step mode : all_ok N (loop_visits ev (loop_fuel (y_w s)) mode (y_w s)) ->
  ∃ s' g', sys_step (H := wt_handler ev) ev (WkLoop mode) s = Some s' ∧ wt_inv ev s' g' lk ∧
    (drains mode (g_tx g) -> g_tx g' = []).
Proof using Eok Hok HN Hcm Y Hb.
  intros Hv. pose proof (rq_count _ _ _ (iv_tx _ _ _ _ (yi_inv _ _ _ _ Y))) as Ec.
  change (s_tx (res_of (y_w s))) with (b_tx_event_ring (w_ctx (y_w s))) in Ec.
  pose proof (yi_puts _ _ _ _ Y). pose proof (yi_total _ _ _ _ Y).
  destruct (loop_kept Eok Hok HN Hcm (yi_x _ _ _ _ Y) own_xd_nonneg (loop_fuel (y_w s)) mode g (y_w s) sys_winv)
    as (r & w' & E & g' & I' & L & D); [apply Y|done|apply Y|lia|apply (room_below 1); lia|unfold loop_fuel; lia|].
  cbn [sys_step]. unfold s_run, loop_fuel in *. rewrite E. cbn. eexists _, g'. split; [done|]. split; [|done].
  destruct L as [L1 L2 L3 L4 L5 L6]. rewrite <- (Z.add_0_r (y_bytes s)).
  apply winv_kept; [done| |done|done|lia|done]. rewrite L3. destruct L1 as [[-> _]|[-> _]]; [apply Y|done].
Qed.

Lemma send_kept e data : wt_type (e_event_type e) -> 0 <= e_aux e < 2 ^ 64 -> e_cnx e = 0 ∨ 2 <= e_cnx e ->
  kept_step (wt_sys_step ev (OpSend e data) s).
Proof using Eok Y Hb.
  intros Ht Ha Hc. cbn [wt_sys_step].
  assert (Hg : tx_good (g_wt g) e) by (split; [right; split; [apply Y|done]|done|done]).
  pose proof (below_tx Y Hb) as Hr. pose proof (Nat2Z.is_nonneg (length (g_owed g))).
  destruct (sp_tx_push (yi_inv _ _ _ _ Y) ev e data Eok Hg) as (rc & w' & E & Hcase); [lia|].
  assert (Ew : w_wt w' = w_wt (y_w s)) by (by eapply apart_tx_push).
  unfold s_run. rewrite E. cbn. destruct (wt_type_free e 0 Ht) as (_ & _ & Hm0).
  destruct Hcase as [(_ & e' & He & I')|(_ & I' & _)].
  - eexists _, (with_tx g (g_ht g) (g_tx g ++ [e'])), lk. split; [done|]. rewrite <- (Z.add_0_r (y_bytes s)).
    apply winv_kept; try done; cbn [with_tx g_tx g_owed g_puts g_T]; [| |rewrite lsum_app, lsum_one|lia].
    + eapply inv_ext; [| |exact I']; intros p; rewrite Ew; destruct (wt_type_free e p Ht) as (? & ? & _);
        unfold with_links, with_rings, links, rings_held; cbn beta; lia.
    + eapply marks_snoc; [| |apply (yi_marks _ _ _ _ Y)].
      * intros p. pose proof (proj1 (holds_range is_release p e')) as H0.
        change (holds is_release p e') with (rel_ref p e') in H0. cbn beta. lia.
      * intros Et. destruct He as (p & n & ->). unfold mark_of in Hm0. cbn in Et. by rewrite Et in Hm0.
    + rewrite (like_mark _ _ He), Hm0. lia.
  - eexists _, g, lk. split; [done|]. rewrite <- (Z.add_0_r (y_bytes s)).
    apply winv_kept; try done; [|apply Y|lia]. unfold winv. by rewrite Ew.
Qed.

Lemma callback_step c : handed_ok (y_x s) c (y_w s) -> call_events c (y_w s) < 2 ^ 62 ->
  y_bytes s + call_bytes c < 2 ^ 64 -> kept_step (wt_sys_step ev (OpCallback c) s).
Proof using Eok Hok Hboot Y Hb.
  intros Hc Hn HB. cbn [wt_sys_step]. pose proof (yi_T _ _ _ _ Y) as HT.
  apply (callable_kept _ _ _ Hn).
  apply (callback_callable Eok Hok Hboot (yi_x _ _ _ _ Y) own_xd_nonneg); [|apply sys_winv|by apply room_below].
  destruct c; cbn [handed_ok callback_ok call_bytes] in *; try done.
  - destruct Hc as (? & ? & ?). split_and!; done || lia.
  - destruct Hc as (? & ?). split_and!; done || lia.
Qed.

(** The event that tells asyncio which half a new connection went to. *)
Lemma announce_safe {x xd : Z -> Z} P `{!OnWt P} cnx h :
  safe (x := x) (xd := xd) 1 P (aiopquic_dispatch_announce ev cnx h) (λ _, P).
Proof using Eok.
  unfold aiopquic_dispatch_announce. apply (safe_bind0 1 _ _ _ (λ _, P)); [lia|safe_still|intros snap].
  change 1 with (1 + 0). apply (safe_bind 1 0 _ _ _ (λ _, P)); [lia|lia| |intros rc; apply safe_unit; exact _].
  apply safe_push; try first [exact _|done].
Qed.

Lemma dispatch_h3 cnx id bytes length fe p params :
  callable (x := y_x s) (xd := own_xd) 1 0
    (r ← h3_bootstrap ev cnx params;
     match r with
     | inl rc => ret rc
     | inr hctx => aiopquic_dispatch_announce ev cnx 1 ;; aiopquic_wt_cnx_cb ev cnx id bytes length fe hctx p
     end) g (y_w s).
Proof using Eok Hboot Y Hb.
  eapply (safe_stage 1 0 (λ _, True)); [by apply safe_bootstrap|lia|apply sys_winv|by apply room_below|done|].
  intros [rc|h] g1 w1 I1 R1 _ HQ; cbn beta iota; [by apply callable_refl|]. destruct HQ as [Hl Hp].
  set (P := λ w, cnx_live h w ∧ prefixes_of h w = []).
  assert (HP : OnWt P).
  { intros w w' E [H1 H2]. unfold P, cnx_live, prefixes_of, prefixes_live in *. rewrite E.
    split; [split; [apply H1|]|exact H2]. rewrite H2. apply Forall_nil_2. }
  apply wp_bind. eapply wp_mono; [apply (announce_safe P cnx 1 g1 w1 I1 R1); by split|].
  intros [] w2 (g2 & I2 & G2 & Hl2 & Hp2).
  pose proof (cnx_callable Eok (yi_x _ _ _ _ Y) cnx id bytes length fe h p g2 w2 (λ _, Hl2) I2) as H.
  rewrite Hp2 in H. eapply wp_mono; [apply H; by eapply (wgrows_room 1 0)|].
  intros a w3 (g3 & I3 & G3). exists g3. split; [done|]. change 1 with (1 + 0). change 0 with (0 + 0) at 2.
  by eapply wgrows_trans.
Qed.

(** The raw half: the events queued on the way leave the wrappers as they are. *)
Lemma dispatch_raw race cnx id bytes length data fe p : 2 <= cnx -> Forall (is_send (y_x s)) race ->
  y_bytes s + run_bytes race < 2 ^ 64 -> p = 0 ∨ is_live (y_w s) p = true -> to_h3 ev cnx (y_w s) = false ->
  wp (aiopquic_dispatch_cb ev race cnx id bytes length data fe p) (λ _ w', ∃ x' g',
    let o := wt_objs (w_wt (y_w s)) in
    inv x' (with_rings own_xd o) g' (res_of w') ∧ w_wt w' = w_wt (y_w s) ∧
    (∀ q, x' q = with_links (y_x s) o q + created (y_w s) w' q) ∧
    wgrows 2 (run_bytes race) g g') (y_w s).
Proof using Eok Y Hb.
  intros Hc Hrace HB Hp Eh. unfold aiopquic_dispatch_cb. apply wp_bind, wp_get. unfold to_h3 in Eh.
  destruct (ev_alpn ev _ _) as [alpn|]; [|done]. apply wp_bind, wp_getb. rewrite Eh.
  set (x := with_links _ _). set (xd := with_rings _ _).
  assert (X0 : ∀ q, 0 <= x q) by (apply with_links_nonneg, (yi_x _ _ _ _ Y)).
  pose proof (sys_winv : inv x xd g (res_of (y_w s))) as I. destruct (room_below 1 ltac:(lia)) as [Hr _].
  assert (Hr2 : rx_room g 2) by (apply (room_below 2); lia).
  apply wp_bind. eexists tt, _. split; [done|]. set (w1 := w_set_trace _ _).
  apply wp_bind. unfold aiopquic_dispatch_announce. apply wp_bind.
  destruct (idle_snapshot ev cnx w1 (λ _ w2, res_of w2 = res_of w1) ltac:(auto)) as (snap & w2 & E2 & R2).
  pose proof (quiet_wt _ (quiet_snapshot ev cnx) _ _ _ E2) as Ew2. exists snap, w2. split; [done|].
  apply wp_bind. set (e := entry_set _ _ _ _ _).
  destruct (sp_rx_push_free ev x xd g w2 e (ev_snapshot ev snap) Eok) as (rc & w3 & E3 & Fr & g3 & I3 & G3 & _ & S3);
    [by rewrite R2|done|done|done|].
  pose proof (keeps_rx_push ev _ _ _ _ _ E3 : w_wt w3 = w_wt w2) as Ew3. exists rc, w3. split; [done|]. apply wp_ret.
  assert (Esc : w_sc w3 = w_sc (y_w s)).
  { destruct Fr as [_ ->]. change (w_sc w2) with (s_sc (res_of w2)). by rewrite R2. }
  assert (Hfew : few_refs x g3).
  { intros q. rewrite (S3 x q). apply (held_few I Hb). }
  assert (Hx : Forall (is_send x) race).
  { eapply Forall_impl; [exact Hrace|]. intros o. apply is_send_mono. intros q. unfold x, with_links.
    pose proof (objs_sum_nonneg (link_holds q) (wt_objs (w_wt (y_w s))) (link_holds_nonneg q)). lia. }
  assert (Hlive : p = 0 ∨ 0 < sc_refs x g3 p).
  { destruct Hp as [?|Hp]; [by left|right]. rewrite (S3 x p). by apply (held_live I). }
  pose proof (yi_T _ _ _ _ Y) as HT. pose proof (gr_T _ _ _ _ G3) as ET.
  destruct (sp_stream_cb Eok x g3 w3 race cnx id bytes length data fe p I3 X0)
    as (r & w4 & E4 & x' & g4 & I4 & C); [|done|done| |done|lia|].
  { destruct G3. unfold rx_room in *. lia. }
  { unfold cb_ctx_ok. destruct (is_event _ _); [done|]. right. destruct Hlive; [by left|right; auto]. }
  pose proof (apart_stream_cb ev _ _ _ _ _ _ _ _ _ _ _ E4) as Ew4. exists r, w4. split; [done|].
  exists x', g4. split; [done|]. split; [by rewrite Ew4, Ew3, Ew2|]. split.
  - intros q. rewrite (held_created I3 _ _ _ _ q X0 I4 C). unfold created, is_live. by rewrite Esc.
  - destruct C, G3. split; try congruence; lia.
Qed.



Lemma dispatch_step race cnx id bytes length data fe p : 2 <= cnx -> Forall (is_send (y_x s)) race ->
  y_bytes s + run_bytes race < 2 ^ 64 -> p = 0 ∨ is_live (y_w s) p = true ->
  kept_step (wt_sys_step ev (OpDispatch race cnx id bytes length data fe p) s).
Proof using Eok Hboot Y Hb.
  intros Hc Hrace HB Hp. pose proof (run_bytes_nonneg race) as H0. cbn [wt_sys_step].
  assert (Same : ∀ {A} (m : M A) (f : world -> Z -> Z), (∀ w q, f w q = y_x s q) ->
    callable (x := y_x s) (xd := own_xd) 1 0 m g (y_w s) ->
    kept_step (s_run s m (λ _ w, Sys w (f w) (y_xd s) (y_marks s) (y_bytes s + run_bytes race)))).
  { intros A m f Hf Hm. eapply callable_mono in Hm; [|apply Z.le_refl|exact H0].
    destruct (callable_kept 1 _ m ltac:(lia) Hm) as (s' & g' & lk' & E & Y').
    revert E. unfold s_run. destruct (m (y_w s)) as [[a w]|]; [|done]. cbn. intros [= <-].
    eexists _, g', lk'. split; [done|]. destruct Y'. cbn [y_w y_x y_xd y_marks y_bytes] in *.
    split; try done; cbn [y_w y_x y_xd y_marks y_bytes].
    - eapply inv_ext; [| |exact yi_inv]; [|done]. intros q. cbn beta. by rewrite Hf.
    - intros q. by rewrite Hf. }
  destruct (to_h3 ev cnx (y_w s)) eqn:Eh.
  { apply Same; [intros; lia|]. unfold aiopquic_dispatch_cb. apply wp_bind, wp_get. unfold to_h3 in Eh.
    destruct (ev_alpn ev _ _) as [alpn|]; [|apply wp_ret; exists g; split; [apply sys_winv|]].
    2: { eapply wgrows_mono; [apply wgrows_refl|lia..]. }
    apply wp_bind, wp_getb. rewrite Eh. apply dispatch_h3. }
  destruct (dispatch_raw race cnx id bytes length data fe p Hc Hrace HB Hp Eh) as (a & w' & E & x' & g' & I' & Ew & Ex & C).
  unfold s_run. rewrite E. cbn. eexists _, g', lk. split; [done|].
  destruct C as [G1 G2 G3 G4 G5 G6 G7 G8]. destruct Y.
  split; cbn [y_w y_x y_xd y_marks y_bytes]; unfold links, rings_held; rewrite ?Ew; try done.
  - eapply inv_ext; [| |exact I']; [|done]. intros q. rewrite Ex. unfold with_links. cbn. lia.
  - by rewrite G4, G2.
  - by rewrite G4.
  - intros q. specialize (yi_x q). unfold created.
    pose proof (c_bool_nonneg (negb (is_live (y_w s) q) && is_live w' q)). lia.
  - rewrite G2. lia.
  - lia.
  - congruence.
Qed.

(** Python lets go of a link whose release it was told of. *)
Lemma link_destroy_callable p : p = 0 ∨ link_in p (y_w s) ->
  callable (x := y_x s) (xd := own_xd) 0 0 (aiopquic_wt_stream_link_destroy p) g (y_w s).
Proof using Y.
  intros Hp. destruct (Z.eq_dec p 0) as [->|Hz].
  { apply wp_ret. exists g. split; [apply sys_winv|apply wgrows_refl]. }
  destruct Hp as [?|(k & Ek & Hk)]; [done|].
  eapply wp_mono; [by apply (sp_link_destroy p k sys_winv (yi_x _ _ _ _ Y))|].
  intros [] w' (I' & _). exists g. split; [done|apply wgrows_refl].
Qed.

Lemma wt_step_kept o : wt_op_ok ev N o s -> kept_step (wt_sys_step ev o s).
Proof using Eok Hok Hboot HN Hcm Y Hb.
  assert (HP : OnWt (λ _ : world, True)) by done. intros Ho.
  destruct o as [o|e data|m|c|race cnx id bts length data fe p| |p|p]; cbn [wt_op_ok] in Ho.
  - assert (Hl : (∃ mode, o = WkLoop mode) ∨ ∀ mode, o <> WkLoop mode) by (destruct o; eauto).
    destruct Hl as [(mode & ->)|Hl].
    + destruct (loop_step mode Ho) as (s' & g' & E & Y' & _). by exists s', g', lk.
    + apply raw_kept; [done|by destruct o].
  - by apply send_kept; destruct Ho as (? & ? & ?).
  - eexists _, g, lk. split; [done|]. destruct Y. by split.
  - by apply callback_step; destruct Ho as (? & ? & ?).
  - by apply dispatch_step; destruct Ho as (? & ? & ? & ?).
  - apply still_kept. eapply (safe_callable 0 0 0 (λ _, True)); [|lia|lia|apply sys_winv|by apply room_below|done].
    by apply safe_session_create.
  - apply still_kept. eapply (safe_callable 0 0 0 (λ w, p = 0 ∨ session_in p w));
      [|lia|lia|apply sys_winv|by apply room_below|done].
    destruct (Z.eq_dec p 0) as [->|Hp].
    + unfold aiopquic_wt_session_destroy. cbn [Z.eqb]. apply safe_end.
    + eapply safe_pre; [apply (safe_destroy own_xd_nonneg p)|]. by intros w [?|?].
  - by apply still_kept, link_destroy_callable.
Qed.
End kept.

(** ** Runs *)

Section runs.
Context {ev : env} (Eok : env_ok ev) (Hok : h3_ok ev) (Hboot : h3_boot_ok ev).
Context {N : Z} (HN : 0 <= N) (Hcm : h3_cmd_ok ev N).
Context {a : ctx_alloc} {tx_cap rx_cap pct rx_data_cap : Z} {s0 : sys}.
Context (Hst : start_ok tx_cap rx_cap pct rx_data_cap).
Context (Hstart : sys_start a tx_cap rx_cap pct rx_data_cap = Some s0).

Lemma wt_start_inv : wt_inv ev s0 (ghost0 true) (λ _, 0).
Proof using Hst Hstart.
  pose proof (start_inv true ev _ _ _ _ _ _ Hst Hstart) as Y.
  assert (E : wt_objs (w_wt (y_w s0)) = ∅).
  { revert Hstart. unfold sys_start. destruct (aiopquic_ctx_create _ _ _ _); [|done].
    cbn [mbind option_bind]. by intros [= <-]. }
  destruct Y. split; try done. eapply inv_ext; [| |exact yi_inv]; intros p;
    unfold nobody, links, rings_held, objs_sum; rewrite E, map_to_list_empty; done.
Qed.

Lemma wt_reach_inv s : wt_reach ev N s0 s -> ∃ g lk, wt_inv ev s g lk.
Proof using Eok Hok Hboot HN Hcm Hst Hstart.
  induction 1 as [|s1 o s2 _ IH Hb Ho Es].
  - exists (ghost0 true), (λ _, 0). apply wt_start_inv.
  - destruct IH as (g & lk & Y).
    destruct (wt_step_kept Eok Hok Hboot HN Hcm Y Hb o Ho) as (s' & g' & lk' & E & Y').
    simplify_eq. eauto.
Qed.

(** C2. Memory safety of the whole worker.  Raw QUIC and WebTransport mixed: whatever
    Python and asyncio call, whatever picoquic and h3zero call back, in whatever order,
    a further call that keeps to its contract is defined - no freed or foreign block is
    touched, no session, link, stream or wrapper that is gone, no slot outside its array.
    A wake-up of the worker handles every entry queued, raw ones and WebTransport
    commands, and leaves the TX ring empty. *)
Theorem wt_bridge_memory_safe s o : wt_reach ev N s0 s -> below (y_w s) -> wt_op_ok ev N o s ->
  ∃ s', wt_sys_step ev o s = Some s' ∧
    (o = OpRaw (WkLoop picoquic_packet_loop_wake_up) ->
     spsc_ring_count (b_tx_event_ring (w_ctx (y_w s'))) = 0).
Proof using Eok Hok Hboot HN Hcm Hst Hstart.
  intros Hr Hb Ho. destruct (wt_reach_inv s Hr) as (g & lk & Y).
  destruct (wt_step_kept Eok Hok Hboot HN Hcm Y Hb o Ho) as (s' & g' & lk' & E & Y').
  exists s'. split; [done|]. intros ->.
  destruct (loop_step Eok Hok HN Hcm Y Hb _ Ho) as (s2 & g2 & E2 & Y2 & D).
  cbn [wt_sys_step] in E. rewrite E in E2. injection E2 as <-.
  pose proof (iv_tx _ _ _ _ (yi_inv _ _ _ _ Y2)) as R. rewrite (D Logic.I) in R. exact (rq_count _ _ _ R).
Qed.

End runs.

(** ** A concrete run *)

(** An entry's contract, computed, when h3zero has no context and no prefix. *)
Definition at_rest (o : gmap Z wt_obj) (ctx : Z) : bool :=
  (ctx =? 0) ||
  match o !! ctx with
  | Some (ObjSession y) => ws_h3_ctx y =? 0
  | Some (ObjLink k) =>
      match o !! wl_session k with Some (ObjSession y) => ws_h3_ctx y =? 0 | _ => false end
  | None => false
  end.

Definition entry_okb (e : spsc_entry) (w : world) : bool :=
  let o := wt_objs (w_wt w) in let m := wt_h3 (w_wt w) in
  belowb w && negb (e_event_type e =? SPSC_EVT_TX_MARK_WT_DATAGRAM_READY) &&
  match o !! e_cnx e with
  | Some (ObjSession y) => (ws_h3_ctx y =? 0) && (ws_control_stream y =? 0)
  | _ => false
  end &&
  forallb (λ kv, at_rest o (hs_path_callback_ctx kv.2)) (map_to_list (hm_streams m)) &&
  match map_to_list (hm_prefixes m), map_to_list (hm_ctxs m) with [], [] => true | _, _ => false end &&
  (command_events (N := 0) e w <? 2 ^ 62).

Lemma at_rest_registered o m ctx : at_rest o ctx = true -> registered o m ctx.
Proof.
  unfold at_rest, registered, ctx_kept. intros [H%Z.eqb_eq|H]%orb_true_iff; [by left|right].
  destruct (o !! ctx) as [[y|k]|]; [by apply Z.eqb_eq in H as ->| |done]. right.
  destruct (o !! wl_session k) as [[y|]|]; [|done..]. exists y. by apply Z.eqb_eq in H as ->.
Qed.

Lemma entry_okb_ok e w : entry_okb e w = true -> entry_ok 0 e w.
Proof.
  unfold entry_okb. rewrite !andb_true_iff. intros [[[[[Hb Ht] Hs] Hst] Hp] Hn].
  apply negb_true_iff, Z.eqb_neq in Ht. apply Z.ltb_lt in Hn. split; [by apply belowb_below| |done].
  intros _ _. split; [|split; [|done]].
  - destruct (wt_objs (w_wt w) !! e_cnx e) as [[y|]|] eqn:E; [|done..].
    apply andb_true_iff in Hs as [Hh%Z.eqb_eq Hc%Z.eqb_eq]. exists y. split; [done|]. unfold ctx_kept. by rewrite Hh, Hc.
  - destruct (map_to_list (hm_prefixes _)) eqn:Ep; [|done]. destruct (map_to_list (hm_ctxs _)) eqn:Ec; [|done].
    apply map_to_list_empty_iff in Ep, Ec. split.
    + intros st z E%elem_of_map_to_list. rewrite forallb_forall in Hst. apply at_rest_registered.
      by apply (Hst (st, z)), list_elem_of_In.
    + intros p z. by rewrite Ep.
    + intros h c. by rewrite Ec.
Qed.

(** A session is made; data comes in on its stream 604, so that a link is made with its
    wrapper; asyncio deregisters the session. *)
Definition demo_session_at : Z := 9001.
Definition demo_stream : h3_mem :=
  H3Mem {[ 604 := H3Stream 4 FnWtPath demo_session_at 0 0 200 None None None ]} ∅ ∅.
Definition demo_arrival : wt_call :=
  WtPath [] 100 0 3 [1; 2; 3] picohttp_callback_post_data 604 demo_session_at.
Definition demo_dereg : spsc_entry := sc_entry SPSC_EVT_TX_WT_DEREGISTER 0 demo_session_at 0 0.
Definition wt_demo_ops : list wt_op :=
  [OpSessionCreate; OpH3 demo_stream; OpCallback demo_arrival; OpSend demo_dereg []].

Abbreviation demo_ev := (demo_env (λ _, 0)).

Definition wt_demo_at (n : nat) : option sys :=
  foldl (λ s o, s ← s; wt_sys_step demo_ev o s) (sys_start Bridge.demo_alloc 8 4 50 64) (take n wt_demo_ops).

Lemma wt_demo_step n o s : wt_demo_ops !! n = Some o -> wt_demo_at (S n) = Some s ->
  ∃ s1, wt_demo_at n = Some s1 ∧ wt_sys_step demo_ev o s1 = Some s.
Proof.
  intros Ho. unfold wt_demo_at at 1. rewrite (take_S_r _ _ _ Ho), foldl_app. cbn [foldl].
  fold (wt_demo_at n). destruct (wt_demo_at n) as [s1|]; [|done]. cbn [mbind option_bind]. eauto.
Qed.

Lemma wt_demo_fact {B} (f : sys -> B) n s v : wt_demo_at n = Some s ->
  option_map f (wt_demo_at n) = Some v -> f s = v.
Proof. intros ->. cbn. by intros [=]. Qed.

Lemma demo_dereg_wt : wt_type (e_event_type demo_dereg).
Proof. exists SPSC_EVT_TX_WT_DEREGISTER. split; [|done]. unfold wt_tx_types. set_solver. Qed.

Lemma wt_demo_reached : ∃ s0 s3 s4, sys_start Bridge.demo_alloc 8 4 50 64 = Some s0 ∧
  wt_demo_at 3 = Some s3 ∧ wt_demo_at 4 = Some s4 ∧ wt_reach demo_ev 0 s0 s3 ∧ wt_reach demo_ev 0 s0 s4.
Proof.
  assert (E4 : is_Some (wt_demo_at 4)).
  { assert (H : bool_decide (is_Some (wt_demo_at 4)) = true) by (vm_compute; done). by apply bool_decide_eq_true in H. }
  destruct E4 as [s4 E4].
  destruct (wt_demo_step 3 _ _ eq_refl E4) as (s3 & E3 & S3).
  destruct (wt_demo_step 2 _ _ eq_refl E3) as (s2 & E2 & S2).
  destruct (wt_demo_step 1 _ _ eq_refl E2) as (s1 & E1 & S1).
  destruct (wt_demo_step 0 _ _ eq_refl E1) as (s0 & E0 & S0).
  exists s0, s3, s4. split; [exact E0|]. split; [done|]. split; [done|].
  assert (Hb : ∀ n s, wt_demo_at n = Some s -> option_map (λ s, belowb (y_w s)) (wt_demo_at n) = Some true ->
    below (y_w s)) by (intros n s E H; by apply belowb_below, (wt_demo_fact (λ s, belowb (y_w s)) n s)).
  pose proof (Hb 0%nat _ E0 ltac:(vm_compute; done)) as B0. pose proof (Hb 1%nat _ E1 ltac:(vm_compute; done)) as B1.
  pose proof (Hb 2%nat _ E2 ltac:(vm_compute; done)) as B2. pose proof (Hb 3%nat _ E3 ltac:(vm_compute; done)) as B3.
  pose proof (wt_demo_fact (λ s, wt_objs (w_wt (y_w s)) !! demo_session_at) 2 _ (Some (ObjSession wt_session0)) E2
    ltac:(vm_compute; done)) as Es.
  pose proof (wt_demo_fact (λ s, sts (y_w s) !! 604) 2 _
    (Some (H3Stream 4 FnWtPath demo_session_at 0 0 200 None None None)) E2 ltac:(vm_compute; done)) as Est.
  pose proof (wt_demo_fact y_bytes 2 _ 0 E2 ltac:(vm_compute; done)) as Eb.
  cbn beta in Es, Est.
  assert (R3 : wt_reach demo_ev 0 s0 s3).
  { assert (R1 : wt_reach demo_ev 0 s0 s1).
    { apply (wt_next _ _ _ s0 OpSessionCreate s1); [apply wt_start|exact B0|exact Logic.I|exact S0]. }
    assert (R2 : wt_reach demo_ev 0 s0 s2).
    { apply (wt_next _ _ _ s1 (OpH3 demo_stream) s2); [exact R1|exact B1|exact Logic.I|exact S1]. }
    apply (wt_next _ _ _ s2 (OpCallback demo_arrival) s3); [exact R2|exact B2| |exact S2].
    unfold wt_op_ok, handed_ok, demo_arrival. split; [split; [|split; [intros _; lia|apply Forall_nil_2]]|].
    - right. rewrite Es. split; [exists wt_session0; split; [exact Es|]|]; [intros H; by destruct H|].
      split; [intros H; by destruct H|]. intros _. rewrite Est. by eexists.
    - split; [reflexivity|]. rewrite Eb. reflexivity. }
  split; [exact R3|]. apply (wt_next _ _ _ s3 (OpSend demo_dereg []) s4); [exact R3|exact B3| |exact S3].
  unfold wt_op_ok. split; [exact demo_dereg_wt|split; [split; [cbv; discriminate|reflexivity]|right; cbv; discriminate]].
Qed.

(** The worker wakes up and deregisters the session. *)
Lemma wt_bridge_memory_safe_witness : ∃ s0 s4 s5, wt_reach demo_ev 0 s0 s4 ∧
  spsc_ring_count (b_tx_event_ring (w_ctx (y_w s4))) = 1 ∧
  wt_sys_step demo_ev (OpRaw (WkLoop picoquic_packet_loop_wake_up)) s4 = Some s5 ∧
  spsc_ring_count (b_tx_event_ring (w_ctx (y_w s5))) = 0.
Proof.
  destruct wt_demo_reached as (s0 & s3 & s4 & E0 & _ & E4 & _ & R4).
  assert (Hb : below (y_w s4)).
  { apply belowb_below, (wt_demo_fact (λ s, belowb (y_w s)) 4 _ true E4). vm_compute. done. }
  assert (Hv : all_ok 0 (loop_visits demo_ev (loop_fuel (y_w s4)) picoquic_packet_loop_wake_up (y_w s4))).
  { eapply Forall_impl; [|intros v; apply entry_okb_ok]. apply Forall_forall. intros v Hv.
    assert (Hall : forallb (λ v, entry_okb v.1 v.2)
      (loop_visits demo_ev (loop_fuel (y_w s4)) picoquic_packet_loop_wake_up (y_w s4)) = true).
    { apply (wt_demo_fact (λ s, forallb (λ v, entry_okb v.1 v.2)
        (loop_visits demo_ev (loop_fuel (y_w s)) picoquic_packet_loop_wake_up (y_w s))) 4 _ true E4). vm_compute. done. }
    rewrite forallb_forall in Hall. by apply Hall, list_elem_of_In. }
  destruct (wt_bridge_memory_safe (demo_env_ok _) demo_h3_ok demo_boot_ok (Z.le_refl 0) demo_cmd_ok demo_start_ok E0 s4
    (OpRaw (WkLoop picoquic_packet_loop_wake_up)) R4 Hb Hv) as (s5 & E5 & H5).
  exists s0, s4, s5. split; [exact R4|]. split; [|split; [exact E5|by apply H5]].
  apply (wt_demo_fact (λ s, spsc_ring_count (b_tx_event_ring (w_ctx (y_w s)))) 4 _ 1 E4). vm_compute. done.
Defined.

