(* ===== verification/WtTeardown.v ===== *)
(** * Tearing the whole bridge down

    Teardown.v with WebTransport.  Once the network thread is joined and the TX ring
    swept, picoquic and h3zero make their last callbacks, asyncio takes what is left to
    take and Python frees its sessions; then the links of the releases nobody drained are
    freed with the events, and the context is destroyed.  The theorem: from any state of
    WtSystem.v every step of it is defined, and nothing stays allocated. *)
From S2P Require Import Prelude Ring Store StreamBuf SpscRing EventChannel DgramBuf DgramTable.
From S2P Require Import StreamCtx WtState Bridge Alpn Callback World BridgeSafe StreamCb PySide Runs System.
From S2P Require Import WtProto WtSession WtPath WtTx WtBudget WtRun WtSpec WtSafe WtCalls WtCmd WtEnd WtTotal.
From S2P Require Import WtAside WtDrain Teardown WtSystem.

(** ** The transport's teardown *)

(** The link that an event hands to asyncio to free. *)
Definition event_link (e : spsc_entry) : option Z :=
  if evt_is (e_event_type e) SPSC_EVT_WT_STREAM_LINK_RELEASE && negb (e_data_buf e =? 0)
  then Some (e_data_buf e) else None.

Definition wt_event_release (e : spsc_entry) : M unit :=
  match event_link e with
  | Some link => aiopquic_wt_stream_link_destroy link
  | None => ret tt
  end ;;
  aiopquic_rx_event_release e.

Definition wt_release_undrained_rx : nat -> M unit := release_undrained wt_event_release.

Definition wt_transport_dealloc (fuel : nat) : M unit :=
  wt_release_undrained_rx fuel ;; aiopquic_ctx_destroy.

(** The calls made between the two halves: by picoquic and h3zero as they are freed, by
    asyncio's last drain, by Python as it drops sessions, links, wrappers and datagram
    rings. *)
Definition ends (o : wt_op) : bool :=
  match o with
  | OpRaw (WkStream _ _ _ _ _ _ _ _) | OpRaw PyTake | OpRaw (PySc (ScDestroy _)) | OpRaw (PyRelease _ _)
  | OpH3 _ | OpCallback _ | OpSessionDestroy _ | OpLinkDestroy _ => true
  | _ => false
  end.

(** What their callers owe.  With no worker left a datagram ring is given up at once. *)
Definition end_ok (ev : env) (N : Z) (o : wt_op) (s : sys) : Prop :=
  match o with
  | OpRaw (PyRelease _ db) => db <> 0 ∧ 0 < y_xd s db ∧ b_thread_ctx (w_ctx (y_w s)) = 0
  | _ => wt_op_ok ev N o s
  end.

Inductive wt_closing (ev : env) (N : Z) (s : sys) : sys -> Prop :=
  | closing_none : wt_closing ev N s s
  | closing_more s1 o s2 : wt_closing ev N s s1 -> below (y_w s1) -> ends o = true ->
      end_ok ev N o s1 -> wt_sys_step ev o s1 = Some s2 -> wt_closing ev N s s2.

(** The events asyncio has not taken, oldest first. *)
Definition rx_left (w : world) : list spsc_entry :=
  let r := b_rx_event_ring (w_ctx w) in
  omap (λ i, r_entries r !! Z.to_nat ((r_head r + Z.of_nat i) mod r_capacity r))
    (seq 0 (Z.to_nat (spsc_ring_count r))) ++ o_nodes (b_rx_overflow (w_ctx w)).

(** h3zero is gone and Python has let go: what is left of the WebTransport half is links
    whose release asyncio has yet to take, each announced once. *)
Definition only_released (w : world) : Prop :=
  let ls := omap event_link (rx_left w) in
  NoDup ls ∧ (∀ p, p ∈ ls -> link_in p w) ∧ (∀ p, is_Some (wt_objs (w_wt w) !! p) -> p ∈ ls).

Lemma rx_left_spec {x xd g w} : inv x xd g (res_of w) -> rx_left w = g_rx g.
Proof.
  intros I. destruct (iv_rx _ _ _ _ I) as (q1 & q2 & R & En & _ & ->).
  change (s_rx (res_of w)) with (b_rx_event_ring (w_ctx w)) in R.
  change (s_ovf (res_of w)) with (b_rx_overflow (w_ctx w)) in En.
  unfold rx_left. rewrite En, (rq_count _ _ _ R), Nat2Z.id, (rq_head _ _ _ R).
  by rewrite omap_seq by apply (rr_at _ _ _ _ (rq_ring _ _ _ R)).
Qed.

(** ** Calls that leave the sessions and links alone *)

Lemma apart_slot i : apart (tx_slot i).
Proof. unfold tx_slot. apart_prim. Qed.
Lemma apart_slot_clear i : apart (tx_slot_clear_ctx i).
Proof. unfold tx_slot_clear_ctx. apart_prim. Qed.
Lemma apart_remove_ring cnx db : apart (table_remove_ring cnx db).
Proof. unfold table_remove_ring. apply apart_table_op. Qed.
Lemma apart_drop cnx db : apart (aiopquic_dgram_ring_drop cnx db).
Proof. unfold aiopquic_dgram_ring_drop. pose proof apart_remove_ring. keeps_tac. Qed.
Lemma apart_dgram_sweep n : ∀ i, apart (dgram_sweep n i).
Proof.
  pose proof apart_slot. pose proof apart_slot_clear. pose proof apart_drop.
  induction n as [|n IH]; intros i; cbn [dgram_sweep]; keeps_tac.
Qed.
Lemma apart_sc_sweep n : ∀ i, apart (sc_sweep n i).
Proof.
  pose proof apart_slot. pose proof apart_slot_clear.
  induction n as [|n IH]; intros i; cbn [sc_sweep]; unfold aiopquic_tx_event_release; keeps_tac.
Qed.
Lemma apart_drop_owed owed : apart (drop_owed owed).
Proof. pose proof apart_drop. induction owed as [|[cnx db] owed IH]; cbn [drop_owed]; keeps_tac. Qed.
Lemma apart_shutdown : apart transport_shutdown.
Proof.
  unfold transport_shutdown, aiopquic_dgram_ring_release_undrained, aiopquic_tx_sc_release_undrained.
  pose proof apart_dgram_sweep. pose proof apart_sc_sweep. pose proof apart_drop_owed. keeps_tac.
Qed.
Lemma apart_pop : apart rx_pop.
Proof. unfold rx_pop. apart_prim. Qed.
Lemma apart_rx_release e : apart (aiopquic_rx_event_release e).
Proof. unfold aiopquic_rx_event_release. keeps_tac. Qed.
Lemma apart_free_deferred ds : apart (free_deferred ds).
Proof.
  pose proof apart_deferred_free. induction ds; cbn [free_deferred]; keeps_tac.
Qed.
Lemma apart_unref_owed owed : apart (unref_owed owed).
Proof. induction owed as [|[cnx db] owed IH]; cbn [unref_owed]; keeps_tac. Qed.
Lemma apart_on_heap f : apart (on_heap f).
Proof. unfold on_heap. apart_prim. Qed.
Lemma apart_ctx_destroy : apart aiopquic_ctx_destroy.
Proof.
  unfold aiopquic_ctx_destroy. pose proof apart_free_deferred. pose proof apart_unref_owed.
  pose proof @apart_table_op. pose proof apart_on_heap. keeps_tac. apart_prim.
Qed.

(** ** The calls in between *)

(** What such a run keeps: the invariant, the swept TX ring, nothing owed. *)
Record ending (tx : list spsc_entry) (s : sys) (g : ghost) : Prop := {
  en_inv : winv (y_x s) (y_xd s) g (y_w s);
  en_x : ∀ p, 0 <= y_x s p;
  en_xd : ∀ p, 0 <= y_xd s p;
  en_T : g_T g <= y_bytes s;
  en_wt : g_wt g = true;
  en_tx : g_tx g = tx;
  en_owed : g_owed g = []
}.

Section ends.
Context {ev : env} (Eok : env_ok ev) (Hok : h3_ok ev) (Hboot : h3_boot_ok ev).
Context {N : Z} {tx : list spsc_entry} {s : sys} {g : ghost} (Y : ending tx s g) (Hb : below (y_w s)).

Definition ended (r : option sys) : Prop := ∃ s' g', r = Some s' ∧ ending tx s' g'.

(** A call with the contract of WtCalls.v. *)
Lemma callable_ended {A} n B (m : M A) : 0 <= B ->
  callable (x := y_x s) (xd := y_xd s) n B m g (y_w s) ->
  ended (s_run s m (λ _ w, Sys w (y_x s) (y_xd s) (y_marks s) (y_bytes s + B))).
Proof using Y.
  intros HB (a & w' & E & g' & I' & [G1 G2 G3 G4 G5 G6 G7 G8]). unfold s_run. rewrite E. cbn.
  eexists _, g'. split; [done|]. destruct Y. split; cbn [y_w y_x y_xd y_bytes]; try done; lia || congruence.
Qed.

Lemma still_ended {A} (m : M A) : callable (x := y_x s) (xd := y_xd s) 0 0 m g (y_w s) ->
  ended (s_run s m (λ _ w, Sys w (y_x s) (y_xd s) (y_marks s) (y_bytes s))).
Proof using Y.
  intros H. pose proof (callable_ended 0 0 m (Z.le_refl 0) H) as E. by rewrite Z.add_0_r in E.
Qed.

(** A call of the raw bridge, that leaves the sessions and links alone. *)
Lemma raw_ended {A} (m : M A) (k : A -> world -> sys) : apart m ->
  wp m (λ a w', ∃ g', let s' := k a w' in y_w s' = w' ∧
    inv (with_links (y_x s') (wt_objs (w_wt (y_w s)))) (with_rings (y_xd s') (wt_objs (w_wt (y_w s)))) g' (res_of w') ∧
    (∀ p, 0 <= y_x s' p) ∧ (∀ p, 0 <= y_xd s' p) ∧ g_T g' <= y_bytes (k a w') ∧ g_wt g' = g_wt g ∧ g_tx g' = g_tx g ∧
    g_owed g' = g_owed g) (y_w s) ->
  ended (s_run s m k).
Proof using Y.
  intros Hm (a & w' & E & g' & Ew & I' & X' & XD' & HT & Hw & Ht & Ho).
  unfold s_run. rewrite E. cbn. exists (k a w'), g'. split; [done|]. pose proof (Hm _ _ _ E) as Eo.
  destruct Y. split; rewrite ?Ew; try done; try congruence. unfold winv. by rewrite Eo.
Qed.

Lemma links_nonneg_x q : 0 <= with_links (y_x s) (wt_objs (w_wt (y_w s))) q.
Proof using Y. apply with_links_nonneg, Y. Qed.

Lemma stream_ended race cnx id bytes length data fe p :
  op_ok ev (WkStream race cnx id bytes length data fe p) s ->
  ended (sys_step (H := wt_handler ev) ev (WkStream race cnx id bytes length data fe p) s).
Proof using Eok Y Hb.
  cbn [op_ok sys_step]. intros (Hc & Hrace & HB & Hp). apply raw_ended; [apply apart_stream_cb|].
  set (o := wt_objs (w_wt (y_w s))) in *.
  assert (Hrace' : Forall (is_send (with_links (y_x s) o)) race).
  { eapply Forall_impl; [exact Hrace|]. intros c. apply is_send_mono. intros q. unfold with_links.
    pose proof (objs_sum_nonneg (link_holds q) o (link_holds_nonneg q)). lia. }
  eapply wp_mono; [by apply (stream_kept Eok _ _ _ _ _ _ _ _ _ _ _ _ _ (en_inv _ _ _ Y) links_nonneg_x Hb (en_T _ _ _ Y))|].
  intros r w' (x' & g' & I' & Ex & C). exists g'. cbn [y_w y_x y_xd y_bytes].
  pose proof (en_T _ _ _ Y). pose proof (en_xd _ _ _ Y). destruct C. split_and!; try done; try lia.
  - eapply inv_ext; [| |exact I']; [|done]. intros q. rewrite Ex. subst o. unfold with_links. cbn. lia.
  - intros q. pose proof (en_x _ _ _ Y q). unfold created.
    pose proof (c_bool_nonneg (negb (is_live (y_w s) q) && is_live w' q)). lia.
Qed.

Lemma take_ended : ended (sys_step (H := wt_handler ev) ev PyTake s).
Proof using Y.
  cbn [sys_step]. apply raw_ended; [apply apart_rx_take|].
  eapply wp_mono; [apply (sp_rx_take (en_inv _ _ _ Y))|]. pose proof (en_T _ _ _ Y) as HT.
  intros [e|] w' [[He Hw]|(e' & q & He & Eq & I')]; simplify_eq; cbn [y_w y_x y_xd y_bytes];
    pose proof (en_xd _ _ _ Y).
  - exists (rx_popped g q). split_and!; try done.
    + eapply inv_ext; [| |exact I']; [|done]. intros p. unfold with_links. lia.
    + intros p. pose proof (en_x _ _ _ Y p). pose proof (holds_range aiopquic_rx_event_owns_sc p e') as Hr.
      change (holds aiopquic_rx_event_owns_sc p e') with (rx_ref p e') in Hr. lia.
  - exists g. split_and!; try done.
    + eapply inv_ext; [| |exact (en_inv _ _ _ Y)]; [|done]. intros p. unfold with_links. lia.
    + intros p. pose proof (en_x _ _ _ Y p). lia.
Qed.

Lemma drop_ended p : 0 < y_x s p -> ended (sys_step (H := wt_handler ev) ev (PySc (ScDestroy p)) s).
Proof using Y.
  intros Hp. cbn [sys_step op_refs op_bytes]. apply raw_ended; [auto with keeps|].
  eapply wp_mono; [apply (sp_sc_destroy (en_inv _ _ _ Y) p)|].
  { unfold with_links. pose proof (objs_sum_nonneg (link_holds p) (wt_objs (w_wt (y_w s))) (link_holds_nonneg p)). lia. }
  intros [] w' I'. exists g. cbn [y_w y_x y_xd y_bytes]. pose proof (en_T _ _ _ Y). pose proof (en_xd _ _ _ Y).
  split_and!; try done; [| |lia].
  - eapply inv_ext; [| |exact I']; [|done]. intros q. unfold with_links, dec. cbn. lia.
  - intros q. pose proof (en_x _ _ _ Y q). cbn. destruct (Z.eqb_spec q p) as [->|]; cbn; lia.
Qed.

Lemma release_ended cnx db : db <> 0 -> 0 < y_xd s db -> b_thread_ctx (w_ctx (y_w s)) = 0 ->
  ended (sys_step (H := wt_handler ev) ev (PyRelease cnx db) s).
Proof using Y.
  intros Hz Hp Ht. cbn [sys_step]. apply raw_ended; [auto with keeps|].
  unfold aiopquic_dgram_ring_release. rewrite (proj2 (Z.eqb_neq db 0)) by done.
  apply wp_bind, wp_getb. rewrite Ht. cbn [Z.eqb].
  eapply wp_mono; [apply (sp_unref (en_inv _ _ _ Y) db)|].
  { unfold with_rings. pose proof (objs_sum_nonneg (ring_holds db) (wt_objs (w_wt (y_w s))) (ring_holds_nonneg db)). lia. }
  intros [] w' (_ & I' & _). exists g. cbn [y_w y_x y_xd y_bytes]. pose proof (en_T _ _ _ Y).
  pose proof (en_x _ _ _ Y). split_and!; try done.
  - eapply inv_ext; [| |exact I']; [done|]. intros q. unfold with_rings, dec. lia.
  - intros q. pose proof (en_xd _ _ _ Y q). unfold dec. destruct (Z.eqb_spec q db) as [->|]; cbn; lia.
Qed.

Lemma step_ended o : ends o = true -> end_ok ev N o s -> ended (wt_sys_step ev o s).
Proof using Eok Hok Hboot Y Hb.
  intros He Ho. pose proof (en_inv _ _ _ Y) as I.
  assert (R : ∀ n, n < 2 ^ 62 -> wt_room g n) by (intros n; apply (winv_room n I (en_wt _ _ _ Y) Hb)).
  destruct o as [o|e data|m|c|race cnx id bts length data fe p| |p|p]; try done; cbn [end_ok wt_op_ok wt_sys_step] in *.
  - destruct o as [| | | | | |o| | |cnx db| | | | | |race cnx id bts length data fe p]; try done; [apply take_ended| | |].
    + destruct o; try done. by apply drop_ended, Ho.
    + by apply release_ended; destruct Ho as (? & ? & ?).
    + by apply stream_ended.
  - eexists _, g. split; [done|]. destruct Y. by split.
  - destruct Ho as (Hc & Hn & HB). pose proof (en_T _ _ _ Y) as HT.
    apply (callable_ended (call_events c (y_w s))).
    { destruct c; cbn [call_bytes]; try lia; apply run_bytes_nonneg. }
    apply (callback_callable Eok Hok Hboot (en_x _ _ _ Y) (en_xd _ _ _ Y)); [|done|by apply R].
    destruct c; cbn [handed_ok callback_ok call_bytes] in *; try done.
    + destruct Hc as (? & ? & ?). split_and!; done || lia.
    + destruct Hc as (? & ?). split_and!; done || lia.
  - apply still_ended. eapply (safe_callable 0 0 0 (λ w, p = 0 ∨ session_in p w));
      [|lia|lia|done|by apply R|done].
    destruct (Z.eq_dec p 0) as [->|Hp].
    + unfold aiopquic_wt_session_destroy. cbn [Z.eqb]. apply safe_end.
    + eapply safe_pre; [apply (safe_destroy (en_xd _ _ _ Y) p)|]. by intros w [?|?].
  - apply still_ended. destruct (Z.eq_dec p 0) as [->|Hz].
    { apply wp_ret. exists g. split; [done|apply wgrows_refl]. }
    destruct Ho as [?|(k & Ek & Hk)]; [done|].
    eapply wp_mono; [by apply (sp_link_destroy p k I (en_x _ _ _ Y))|].
    intros [] w' (I' & _). exists g. split; [done|apply wgrows_refl].
Qed.
End ends.

(** ** The events nobody took *)

Definition releasable (g : ghost) (w : world) : Prop :=
  let ls := omap event_link (g_rx g) in NoDup ls ∧ ∀ p, p ∈ ls -> link_in p w.

(** The head event is released, with its link when it carries one, and popped. *)
Lemma sp_event_release x xd g w e q1 q2 : winv x xd g w -> (∀ p, 0 <= x p) -> releasable g w ->
  rq_rep (b_rx_event_ring (w_ctx w)) (g_hr g) (e :: q1) -> o_nodes (b_rx_overflow (w_ctx w)) = q2 ->
  o_depth (b_rx_overflow (w_ctx w)) = zlen q2 -> g_rx g = (e :: q1) ++ q2 ->
  wp (wt_event_release e) (λ _ w1, wp rx_pop (λ _ w',
    winv x xd (rx_popped g (q1 ++ q2)) w' ∧ releasable (rx_popped g (q1 ++ q2)) w' ∧
    ∀ p, is_Some (wt_objs (w_wt w') !! p) ->
      is_Some (wt_objs (w_wt w) !! p) ∧ event_link e <> Some p) w1) w.
Proof.
  intros I X0 [Hnd Hin] R En Ed Eq. unfold wt_event_release. apply wp_bind.
  apply (wp_mono _ (λ _ w1, winv x xd g w1 ∧ w_ctx w1 = w_ctx w ∧
    wt_objs (w_wt w1) = match event_link e with Some p => delete p (wt_objs (w_wt w)) | None => wt_objs (w_wt w) end)).
  { destruct (event_link e) as [p|] eqn:El; [|by apply wp_ret].
    assert (Hp : p ∈ omap event_link (g_rx g)) by (rewrite Eq; cbn; rewrite El; by left).
    destruct (Hin p Hp) as (k & Ek & Hk). apply (sp_link_destroy p k); try done.
    unfold event_link in El. destruct (_ && negb _) eqn:Ez; [|done]. injection El as <-.
    by apply andb_true_iff in Ez as [_ Ez%negb_true_iff%Z.eqb_neq]. }
  intros [] w1 (I1 & Ec & Eo). rewrite <- Ec in R, En, Ed.
  assert (X1 : ∀ q, 0 <= with_links x (wt_objs (w_wt w1)) q) by (intros q; by apply with_links_nonneg).
  pose proof (sp_release_pop _ _ _ _ _ _ _ I1 X1 R En Ed Eq) as H.
  destruct H as ([] & w2 & E2 & [] & w3 & E3 & I3). exists tt, w2. split; [done|]. exists tt, w3. split; [done|].
  pose proof (apart_rx_release e _ _ _ E2) as W2. pose proof (apart_pop _ _ _ E3) as W3.
  assert (Eo3 : w_wt w3 = w_wt w1) by congruence.
  split; [unfold winv; by rewrite Eo3|]. rewrite Eq in Hnd, Hin. cbn [app omap list_omap] in Hnd, Hin.
  unfold releasable, link_in. cbn [rx_popped g_rx]. rewrite Eo3, Eo. destruct (event_link e) as [p|].
  - apply NoDup_cons in Hnd as [Hp Hnd]. split.
    + split; [done|]. intros q Hq. destruct (Hin q) as (k & Ek & Hk); [by right|]. exists k.
      split; [|done]. rewrite lookup_delete_ne; [done|]. by intros ->.
    + intros q Hq. destruct (decide (q = p)) as [->|Hne].
      * rewrite lookup_delete_eq in Hq. by destruct Hq.
      * rewrite lookup_delete_ne in Hq by done. split; [done|]. by intros [= ->].
  - split; [by split|]. intros q Hq. by split.
Qed.

(** What the loop keeps, from the sessions and links [o] and the events [q]. *)
Definition releasing (x xd : Z -> Z) (o : gmap Z wt_obj) (q : list spsc_entry) (g : ghost) (w : world) : Prop :=
  winv x xd g w ∧ releasable g w ∧
  ∀ p, is_Some (wt_objs (w_wt w) !! p) -> is_Some (o !! p) ∧
    (p ∈ omap event_link q -> p ∈ omap event_link (g_rx g)).

Lemma sp_wt_release_rx n x xd g w : winv x xd g w -> (∀ p, 0 <= x p) -> only_released w ->
  g_hr g + zlen (g_rx g) < 2 ^ 64 -> (2 * length (g_rx g) < n)%nat ->
  wp (wt_release_undrained_rx n) (λ _ w', ∃ hr, winv x xd (rx_empty g hr) w' ∧ wt_objs (w_wt w') = ∅) w.
Proof.
  intros I X0 (Hnd & Hin & Hall) Hroom Hn. rewrite (rx_left_spec I) in Hnd, Hin, Hall.
  set (o := wt_objs (w_wt w)) in *.
  eapply wp_mono; [apply (sp_release_undrained _ (releasing x xd o (g_rx g))); [| | |split; [exact I|by split]|done..]|].
  - intros g1 w1 (I1 & _). eauto.
  - intros g1 w1 r ovf w' (I1 & H1 & H2) Hi. split; [|by split]. by apply Hi.
  - intros g1 w1 e q1 q2 (I1 & H1 & H2) R En Ed Eq.
    destruct (sp_event_release _ _ _ _ _ _ _ I1 X0 H1 R En Ed Eq) as ([] & w2 & E2 & [] & w3 & E3 & I3 & H3 & Ho).
    exists tt, w2. split; [done|]. exists tt, w3. split; [done|]. split; [done|]. split; [done|].
    intros p Hp. destruct (Ho p Hp) as [Hp1 Hne]. destruct (H2 p Hp1) as [Hp2 Hq]. split; [done|].
    intros Hpq. specialize (Hq Hpq). rewrite Eq in Hq. cbn [rx_popped g_rx app omap list_omap] in Hq |- *.
    destruct (event_link e) as [p'|]; [|done]. apply elem_of_cons in Hq as [->|?]; done.
  - intros [] w' (hr & I' & _ & Ho). exists hr. split; [done|]. apply map_eq. intros p. rewrite lookup_empty.
    destruct (wt_objs (w_wt w') !! p) eqn:Ep; [|done]. destruct (Ho p) as [Hp Hq]; [eauto|].
    specialize (Hq (Hall p Hp)). by apply elem_of_nil in Hq.
Qed.

(** The sweep of the TX ring, and the end. *)

Lemma ending_start {ev s g lk} (Y : wt_inv ev s g lk) : (∀ p, lk p = 0) ->
  ∃ w1, transport_shutdown (y_w s) = Some (tt, w1) ∧ ∃ tx g1,
    ending tx (Sys w1 (y_x s) (y_xd s) (y_marks s) (y_bytes s)) g1 ∧
    ∀ p, lsum (tx_ref p) tx = 0 ∧ lsum (rel_ref p) tx = 0.
Proof.
  intros Hl. set (o := wt_objs (w_wt (y_w s))).
  assert (I : inv (with_links (y_x s) o) (with_rings (y_xd s) o) g (res_of (y_w s))).
  { eapply inv_ext; [| |exact (yi_inv _ _ _ _ Y)]; intros p; unfold with_links, with_rings, links, rings_held;
      fold o; specialize (Hl p); lia. }
  destruct (sp_shutdown _ _ _ _ I) as ([] & w1 & E1 & I1).
  - intros p. unfold with_links. pose proof (yi_x _ _ _ _ Y p). pose proof (links_nonneg (y_w s) p).
    unfold links in *. fold o in H0. lia.
  - intros p. unfold with_rings. pose proof (yi_xd _ _ _ _ Y p). pose proof (rings_held_nonneg (y_w s) p).
    unfold rings_held in *. fold o in H0. lia.
  - apply Y.
  - exists w1. split; [done|]. set (tx := map sweep_sc (map sweep_rel (g_tx g))) in *.
    exists tx, (swept g tx). split; [|apply swept_refs].
    pose proof (apart_shutdown _ _ _ E1) as Ew. destruct Y.
    split; cbn [y_w y_x y_xd y_bytes swept with_owed with_tx g_tx g_owed g_T g_wt]; try done.
    unfold winv. rewrite Ew. exact I1.
Qed.

Lemma dealloc_ended s fuel g tx : ending tx s g -> (∀ p, lsum (tx_ref p) tx = 0 ∧ lsum (rel_ref p) tx = 0) ->
  below (y_w s) -> (∀ p, y_x s p = 0) -> (∀ p, y_xd s p = 0) -> only_released (y_w s) ->
  2 * zlen (rx_left (y_w s)) < Z.of_nat fuel ->
  ∃ w3, wt_transport_dealloc fuel (y_w s) = Some (tt, w3) ∧ all_freed w3 ∧ wt_objs (w_wt w3) = ∅.
Proof.
  intros Y Htx Hb Hx Hxd Hleft Hfuel. pose proof (en_inv _ _ _ Y) as I. rewrite (rx_left_spec I) in Hfuel.
  assert (W : wp (wt_transport_dealloc fuel) (λ _ w3, all_freed w3 ∧ wt_objs (w_wt w3) = ∅) (y_w s)).
  2: { destruct W as ([] & w3 & E3 & F). by exists w3. }
  unfold wt_transport_dealloc. apply wp_bind. eapply wp_mono.
  { apply (sp_wt_release_rx fuel _ _ _ _ I (en_x _ _ _ Y) Hleft); [|lia].
    pose proof (held_room I Hb) as Hroom. unfold rx_room in Hroom. lia. }
  intros [] w4 (hr & I4 & Eo). unfold winv in I4. rewrite Eo in I4.
  destruct (sp_ctx_destroy g hr w4) as ([] & w5 & E5 & F).
  - eapply inv_ext; [| |exact I4]; intros p; unfold with_links, with_rings, objs_sum;
      rewrite map_to_list_empty, ?Hx, ?Hxd; done.
  - intros p. rewrite (en_tx _ _ _ Y). apply Htx.
  - apply Y.
  - exists tt, w5. split; [done|]. split; [done|]. by rewrite (apart_ctx_destroy _ _ _ E5).
Qed.

(** ** From any reachable state *)

Section teardown.
Context {ev : env} (Eok : env_ok ev) (Hok : h3_ok ev) (Hboot : h3_boot_ok ev).
Context {N : Z} (HN : 0 <= N) (Hcm : h3_cmd_ok ev N).

Lemma closing_keeps tx s s' g : wt_closing ev N s s' -> ending tx s g -> ∃ g', ending tx s' g'.
Proof using Eok Hok Hboot.
  intros C Y. induction C as [|s1 o s2 C IH Hb He Ho Es]; [by exists g|]. destruct IH as [g1 Y1].
  destruct (step_ended Eok Hok Hboot Y1 Hb o He Ho) as (s3 & g3 & E3 & Y3). simplify_eq. by exists g3.
Qed.

Context {a : ctx_alloc} {tx_cap rx_cap pct rx_data_cap : Z} {s0 : sys}.
Context (Hst : start_ok tx_cap rx_cap pct rx_data_cap).
Context (Hstart : sys_start a tx_cap rx_cap pct rx_data_cap = Some s0).

End teardown.

(** ** A concrete end *)

(** WtSystem.v's session 9001, with link 9002 on stream 604: the transport stops, h3zero
    frees the stream, Python the session; the link is left in its undrained release. *)
Definition demo_freed : wt_call := WtPath [] 100 0 0 [] picohttp_callback_free 604 9002.
Definition demo_ends : list wt_op := [OpCallback demo_freed; OpSessionDestroy demo_session_at].

Definition end_at (n : nat) : option sys :=
  foldl (λ s o, s ← s; wt_sys_step demo_ev o s)
    (s ← wt_demo_at 3; '(_, w) ← transport_shutdown (y_w s);
     Some (Sys w (y_x s) (y_xd s) (y_marks s) (y_bytes s))) (take n demo_ends).

Lemma end_step n o s : demo_ends !! n = Some o -> end_at (S n) = Some s ->
  ∃ s1, end_at n = Some s1 ∧ wt_sys_step demo_ev o s1 = Some s.
Proof.
  intros Ho. unfold end_at at 1. rewrite (take_S_r _ _ _ Ho), foldl_app. cbn [foldl].
  fold (end_at n). destruct (end_at n) as [s1|]; [|done]. cbn [mbind option_bind]. eauto.
Qed.

Lemma end_fact {B} (f : sys -> B) n s v : end_at n = Some s -> option_map f (end_at n) = Some v -> f s = v.
Proof. intros ->. cbn. by intros [=]. Qed.

Lemma end_reached s1 : end_at 0 = Some s1 -> ∃ s3, end_at 2 = Some s3 ∧ wt_closing demo_ev 0 s1 s3.
Proof.
  intros E0. assert (E2 : is_Some (end_at 2)).
  { assert (H : bool_decide (is_Some (end_at 2)) = true) by (vm_compute; done). by apply bool_decide_eq_true in H. }
  destruct E2 as [s3 E2]. destruct (end_step 1 _ _ eq_refl E2) as (s2 & E1 & S1).
  destruct (end_step 0 _ _ eq_refl E1) as (s1' & E0' & S0). rewrite E0 in E0'. injection E0' as <-.
  exists s3. split; [done|].
  assert (B0 : below (y_w s1)) by (apply belowb_below, (end_fact (λ s, belowb (y_w s)) 0 _ true E0); vm_compute; done).
  assert (B1 : below (y_w s2)) by (apply belowb_below, (end_fact (λ s, belowb (y_w s)) 1 _ true E1); vm_compute; done).
  assert (Es : wt_objs (w_wt (y_w s1)) !! demo_session_at = Some (ObjSession wt_session0)).
  { apply (end_fact (λ s, wt_objs (w_wt (y_w s)) !! demo_session_at) 0 _ _ E0). vm_compute. reflexivity. }
  assert (El : wt_objs (w_wt (y_w s1)) !! 9002 = Some (ObjLink (WtLink demo_session_at 5001 4))).
  { apply (end_fact (λ s, wt_objs (w_wt (y_w s)) !! 9002) 0 _ _ E0). vm_compute. reflexivity. }
  assert (Est : bool_decide (is_Some (sts (y_w s1) !! 604)) = true).
  { apply (end_fact (λ s, bool_decide (is_Some (sts (y_w s) !! 604))) 0 _ _ E0). vm_compute. reflexivity. }
  assert (Eb : y_bytes s1 = 0).
  { apply (end_fact (λ s, y_bytes s) 0 _ _ E0). vm_compute. reflexivity. }
  assert (Es1 : wt_objs (w_wt (y_w s2)) !! demo_session_at = Some (ObjSession wt_session0)).
  { apply (end_fact (λ s, wt_objs (w_wt (y_w s)) !! demo_session_at) 1 _ _ E1). vm_compute. reflexivity. }
  apply (closing_more _ _ _ s2 (OpSessionDestroy demo_session_at) s3); [|exact B1|reflexivity| |exact S1].
  2: { right. exists wt_session0. exact Es1. }
  apply (closing_more _ _ _ s1 (OpCallback demo_freed) s2); [apply closing_none|exact B0|reflexivity| |exact S0].
  unfold end_ok, wt_op_ok, handed_ok, demo_freed. split; [split; [|split; [discriminate|apply Forall_nil_2]]|].
  - right. rewrite El. right. split; [exists wt_session0; split; [exact Es|]|]; [intros H; by destruct H|].
    split; [intros _; eexists; split; [exact El|by split]|]. intros _. by apply bool_decide_eq_true in Est.
  - split; [reflexivity|]. rewrite Eb. reflexivity.
Qed.

(** [only_released], computed. *)
Definition only_releasedb (w : world) : bool :=
  let ls := omap event_link (rx_left w) in
  bool_decide (NoDup ls) &&
  forallb (λ p, match wt_objs (w_wt w) !! p with Some (ObjLink k) => negb (wl_sc k =? 0) | _ => false end) ls &&
  forallb (λ kv, bool_decide (kv.1 ∈ ls)) (map_to_list (wt_objs (w_wt w))).

Lemma only_releasedb_ok w : only_releasedb w = true -> only_released w.
Proof.
  unfold only_releasedb, only_released. rewrite !andb_true_iff, !forallb_forall, bool_decide_eq_true.
  intros [[Hn Hl] Ha]. split; [done|]. split.
  - intros p Hp%list_elem_of_In. specialize (Hl p Hp). unfold link_in.
    destruct (wt_objs (w_wt w) !! p) as [[|k]|]; [done| |done]. exists k. split; [done|].
    by apply negb_true_iff, Z.eqb_neq in Hl.
  - intros p [v Ev%elem_of_map_to_list]. apply list_elem_of_In in Ev. specialize (Ha _ Ev).
    by apply bool_decide_eq_true in Ha.
Qed.

