(* ===== verification/StreamFlow.v ===== *)
(** * The bytes of a stream, end to end

    The specification of both directions of a stream: a queue of bytes that Python's sends
    fill and the worker's pulls empty, and one that picoquic's deliveries fill and
    Python's reads empty ([replay]).  [moved]: some events of the specification explain
    the rings of the wrappers after an operation by those before it.  FlowCalls.v has the
    raw half's calls, WtFlow.v WebTransport's and the runs. *)
From S2P Require Import Prelude Ring Store StreamBuf SpscRing EventChannel DgramBuf DgramTable.
From S2P Require Import StreamCtx WtState Bridge Alpn Callback World PySide Runs.

(** ** The specification *)

(** The two rings of a wrapper. *)
Inductive way := Tx | Rx.
#[export] Instance way_eq_dec : EqDecision way.
Proof. solve_decision. Defined.

(** What happens to a ring of the wrapper at [p]: bytes come in, by a send of Python's or
    a delivery of picoquic's; bytes go out, to picoquic or to a read of Python's; what is
    left is dropped, by a reset or with the wrapper. *)
Inductive stream_ev :=
  | EvIn (d : way) (p : Z) (data : list Z)
  | EvOut (d : way) (p : Z) (bs : list Z)
  | EvDrop (d : way) (p : Z) (bs : list Z).

Definition queues : Type := way -> Z -> list Z.

Definition set_queue (d : way) (p : Z) (q : list Z) (Q : queues) : queues :=
  λ d' p', if bool_decide (d' = d) && (p' =? p) then q else Q d' p'.

Definition ev_step (e : stream_ev) (Q : queues) : option queues :=
  match e with
  | EvIn d p data => Some (set_queue d p (Q d p ++ data) Q)
  | EvOut d p bs =>
      if bool_decide (take (length bs) (Q d p) = bs)
      then Some (set_queue d p (drop (length bs) (Q d p)) Q) else None
  | EvDrop d p bs => if bool_decide (Q d p = bs) then Some (set_queue d p [] Q) else None
  end.

Fixpoint replay (L : list stream_ev) (Q : queues) : option queues :=
  match L with [] => Some Q | e :: L => Q ← ev_step e Q; replay L Q end.

(** What it hands to picoquic, to Python; how many bytes Python adds and are dropped. *)
Definition ev_handed (e : stream_ev) : option (list Z) :=
  match e with EvOut Tx _ bs => Some bs | _ => None end.
Definition ev_read (e : stream_ev) : option (list Z) :=
  match e with EvOut Rx _ bs => Some bs | _ => None end.
Definition ev_pushed (e : stream_ev) : Z := match e with EvIn Tx _ data => zlen data | _ => 0 end.
Definition ev_dropped (e : stream_ev) : Z := match e with EvDrop Tx _ bs => zlen bs | _ => 0 end.

(** What is asked of the bridge; 0 is a wrapper the bridge finds or makes. *)
Inductive request :=
  | Submit (p : Z) (data : list Z)      (** Python sends *)
  | Ask (p : Z)                         (** picoquic has room for bytes *)
  | Arrive (p : Z) (data : list Z)      (** picoquic delivers *)
  | ReadOf (p n : Z).                   (** Python reads at most [n] bytes *)

Definition answers (e : stream_ev) (r : request) : Prop :=
  match e, r with
  | EvIn Tx p data, Submit p' data' => p = p' ∧ data = data'
  | EvOut Tx p _, Ask p' => p' = 0 ∨ p = p'
  | EvIn Rx p bs, Arrive p' data => (p' = 0 ∨ p = p') ∧ bs `prefix_of` data
  | EvOut Rx p bs, ReadOf p' n => p = p' ∧ zlen bs <= n
  | _, _ => False
  end.

Definition asked (e : stream_ev) : bool := match e with EvDrop _ _ _ => false | _ => true end.

(** Every event that is no drop answers one of the requests, in their order. *)
Definition answered (L : list stream_ev) (rs : list request) : Prop :=
  ∃ rs', rs' `sublist_of` rs ∧ Forall2 answers (filter (λ e, asked e = true) L) rs'.

Lemma replay_app L1 L2 Q : replay (L1 ++ L2) Q = Q1 ← replay L1 Q; replay L2 Q1.
Proof.
  revert Q. induction L1 as [|e L1 IH]; intros Q; [done|]. cbn [app replay].
  destruct (ev_step e Q); cbn [mbind option_bind]; [apply IH|done].
Qed.

Lemma answered_nil rs : answered [] rs.
Proof. exists []. split; [apply sublist_nil_l|constructor]. Qed.

Lemma answered_one e r : answers e r -> asked e = true -> answered [e] [r].
Proof. intros H Ha. exists [r]. split; [done|]. rewrite filter_cons_True by done. by repeat constructor. Qed.

Lemma answered_drop d p bs : answered [EvDrop d p bs] [].
Proof. exists []. by split. Qed.

Lemma answered_app L1 L2 rs1 rs2 : answered L1 rs1 -> answered L2 rs2 -> answered (L1 ++ L2) (rs1 ++ rs2).
Proof.
  intros (r1 & S1 & F1) (r2 & S2 & F2). exists (r1 ++ r2). split; [by apply sublist_app|].
  rewrite filter_app. by apply Forall2_app.
Qed.

Lemma answered_sub L rs rs' : answered L rs -> rs `sublist_of` rs' -> answered L rs'.
Proof. intros (r & S & F) H. exists r. split; [by etrans|done]. Qed.

(** A ring that drops nothing: what came in is what went out, and what is left. *)
Definition came_in (d : way) (p : Z) (L : list stream_ev) : list Z :=
  L ≫= λ e, match e with EvIn d' p' data => if bool_decide (d' = d) && (p' =? p) then data else [] | _ => [] end.
Definition went_out (d : way) (p : Z) (L : list stream_ev) : list Z :=
  L ≫= λ e, match e with EvOut d' p' bs => if bool_decide (d' = d) && (p' =? p) then bs else [] | _ => [] end.

Lemma at_ring (d d' : way) (p p' : Z) : bool_decide (d' = d) && (p' =? p) = true ↔ d' = d ∧ p' = p.
Proof. by rewrite andb_true_iff, bool_decide_eq_true, Z.eqb_eq. Qed.

Lemma set_queue_eq d p q Q : set_queue d p q Q d p = q.
Proof. unfold set_queue. by rewrite (proj2 (at_ring d d p p) (conj eq_refl eq_refl)). Qed.

Lemma set_queue_ne d p q Q d' p' : bool_decide (d = d') && (p =? p') = false -> set_queue d p q Q d' p' = Q d' p'.
Proof.
  intros H. unfold set_queue. destruct (bool_decide (d' = d) && (p' =? p)) eqn:E; [|done].
  apply at_ring in E as [-> ->]. by rewrite (proj2 (at_ring d d p p) (conj eq_refl eq_refl)) in H.
Qed.

Lemma replay_conserves d p L : ∀ Q Q', replay L Q = Some Q' -> (∀ bs, EvDrop d p bs ∉ L) ->
  Q d p ++ came_in d p L = went_out d p L ++ Q' d p.
Proof.
  induction L as [|e L IH]; intros Q Q' E Hd; [injection E as <-; by rewrite app_nil_r|].
  cbn [replay] in E. destruct (ev_step e Q) as [Q1|] eqn:E1; [|done]. cbn [mbind option_bind] in E.
  assert (Hd' : ∀ bs, EvDrop d p bs ∉ L) by (intros bs Hin; apply (Hd bs); by right).
  specialize (IH _ _ E Hd'). unfold came_in, went_out in *. cbn [mbind list_bind].
  destruct e as [d' p' data|d' p' bs|d' p' bs]; cbn [ev_step] in E1.
  - injection E1 as <-. destruct (bool_decide (d' = d) && (p' =? p)) eqn:Ep.
    + apply at_ring in Ep as [-> ->]. rewrite set_queue_eq in IH. by rewrite app_assoc.
    + by rewrite set_queue_ne in IH.
  - destruct (bool_decide_reflect (take (length bs) (Q d' p') = bs)) as [Ht|]; [|done]. injection E1 as <-.
    destruct (bool_decide (d' = d) && (p' =? p)) eqn:Ep; [|by rewrite set_queue_ne in IH].
    apply at_ring in Ep as [-> ->]. rewrite set_queue_eq in IH.
    rewrite <- app_assoc, <- IH, app_nil_l, app_assoc. f_equal.
    rewrite <- (take_drop (length bs) (Q d p)) at 1. by rewrite Ht.
  - destruct (bool_decide _); [|done]. injection E1 as <-.
    destruct (bool_decide (d' = d) && (p' =? p)) eqn:Ep; [|by rewrite set_queue_ne in IH].
    apply at_ring in Ep as [-> ->]. destruct (Hd bs). by left.
Qed.

(** ** Queues of the bridge *)

Definition sb_queue (b : stream_buf) : list Z :=
  omap (λ i, sb_buf b !! Z.to_nat ((sb_head b + Z.of_nat i) mod sb_capacity b))
    (seq 0 (Z.to_nat (aiopquic_stream_buf_used b))).
Definition ring_of (d : way) (c : stream_ctx) : option stream_buf :=
  match d with Tx => sc_tx c | Rx => sc_rx c end.
Definition bytes_of (d : way) (c : stream_ctx) : list Z :=
  match ring_of d c with Some b => sb_queue b | None => [] end.
Definition queue_at (s : sc_world) (d : way) (p : Z) : list Z :=
  match sw_scs s !! p with Some c => bytes_of d c | None => [] end.

Lemma sb_queue_rep b H q : sb_rep b H q -> sb_queue b = q.
Proof.
  intros R. unfold sb_queue. rewrite (sb_used_eq _ _ _ R), Nat2Z.id. apply omap_seq.
  intros i x E. rewrite (sr_head _ _ _ R). pose proof (sb_rep_cap _ _ _ R) as Hc.
  replace ((u64 H + Z.of_nat i) mod sb_capacity b) with ((H + Z.of_nat i) mod sb_capacity b).
  - by apply (rr_at _ _ _ _ (sr_ring _ _ _ R)).
  - destruct (sr_pow2 _ _ _ R) as (k & Hk & Ek). unfold u64. rewrite Ek, <- (Zplus_mod_idemp_l H), <- (Zplus_mod_idemp_l (H mod 2 ^ 64)).
    do 2 f_equal. replace 64 with (k + (64 - k)) by lia. rewrite Z.pow_add_r by lia.
    rewrite Z.rem_mul_r by (apply Z.pow_nonzero || apply Z.pow_pos_nonneg; lia).
    rewrite (Z.mul_comm (2 ^ k) (_ mod _)). by rewrite Z_mod_plus_full, Zmod_mod.
Qed.

Definition rings_ok (c : stream_ctx) : Prop := ∀ d b, ring_of d c = Some b -> ∃ H q, sb_rep b H q.
Definition all_rings_ok (s : sc_world) : Prop := ∀ p c, sw_scs s !! p = Some c -> rings_ok c.

(** ** What happened between two states of the wrappers *)

Record moved (L : list stream_ev) (s s' : sc_world) : Prop := {
  mv_ok : all_rings_ok s';
  mv_replay : ∀ Q, (∀ d p, Q d p = queue_at s d p) ->
    ∃ Q', replay L Q = Some Q' ∧ ∀ d p, Q' d p = queue_at s' d p;
  mv_pushed : u64 (sw_g s' CNT_TX_DATA_BYTES_PUSHED) = u64 (sw_g s CNT_TX_DATA_BYTES_PUSHED + lsum ev_pushed L);
  mv_dropped : u64 (sw_g s' CNT_TX_DATA_BYTES_DISCARDED) = u64 (sw_g s CNT_TX_DATA_BYTES_DISCARDED + lsum ev_dropped L)
}.

Definition moves (L : list stream_ev) (s s' : sc_world) : Prop := all_rings_ok s -> moved L s s'.

Lemma moves_refl s : moves [] s s.
Proof.
  intros H. split; [done| |by rewrite Z.add_0_r..]. intros Q HQ. by exists Q.
Qed.

Lemma moves_trans L1 L2 s1 s2 s3 : moves L1 s1 s2 -> moves L2 s2 s3 -> moves (L1 ++ L2) s1 s3.
Proof.
  intros H1 H2 H. destruct (H1 H) as [O1 R1 P1 D1]. destruct (H2 O1) as [O2 R2 P2 D2]. split; [done| | |].
  - intros Q HQ. destruct (R1 Q HQ) as (Q1 & E1 & HQ1). destruct (R2 Q1 HQ1) as (Q2 & E2 & HQ2).
    exists Q2. split; [|done]. by rewrite replay_app, E1.
  - rewrite P2, lsum_app, Z.add_assoc, <- u64_add_l, P1, u64_add_l. done.
  - rewrite D2, lsum_app, Z.add_assoc, <- u64_add_l, D1, u64_add_l. done.
Qed.

Lemma queue_at_insert s g p c d p' : queue_at (ScWorld (<[p := c]> (sw_scs s)) g) d p' =
  if p' =? p then bytes_of d c else queue_at s d p'.
Proof.
  unfold queue_at. cbn. destruct (Z.eqb_spec p' p) as [->|Hne].
  - by rewrite lookup_insert_eq.
  - by rewrite lookup_insert_ne by done.
Qed.

Lemma rings_insert s g p c : all_rings_ok s -> rings_ok c -> all_rings_ok (ScWorld (<[p := c]> (sw_scs s)) g).
Proof.
  intros H Hc p' c'. cbn. rewrite lookup_insert_Some. intros [[_ <-]|[_ E]]; [done|by eapply H].
Qed.

Definition same_totals (g g' : sc_counters) : Prop :=
  g' CNT_TX_DATA_BYTES_PUSHED = g CNT_TX_DATA_BYTES_PUSHED ∧
  g' CNT_TX_DATA_BYTES_DISCARDED = g CNT_TX_DATA_BYTES_DISCARDED.

(** One wrapper written, its queues as they were. *)
Lemma moves_write s p c' g' : (∀ d, bytes_of d c' = queue_at s d p) -> (all_rings_ok s -> rings_ok c') ->
  same_totals (sw_g s) g' -> moves [] s (ScWorld (<[p := c']> (sw_scs s)) g').
Proof.
  intros Ht Hs [Hp Hd] H. split; [by apply rings_insert; auto| |by cbn; rewrite ?Hp, ?Hd, Z.add_0_r..].
  intros Q HQ. exists Q. split; [done|]. intros d p'. rewrite queue_at_insert, Ht.
  destruct (Z.eqb_spec p' p) as [->|]; apply HQ.
Qed.

Lemma queue_at_some s p c d : sw_scs s !! p = Some c -> queue_at s d p = bytes_of d c.
Proof. intros E. unfold queue_at. by rewrite E. Qed.

(** An update that leaves the rings alone. *)
Definition keeps_rings (f : stream_ctx -> stream_ctx) : Prop := ∀ c, sc_tx (f c) = sc_tx c ∧ sc_rx (f c) = sc_rx c.

Lemma moves_same s p c c' g' : sw_scs s !! p = Some c -> sc_tx c' = sc_tx c -> sc_rx c' = sc_rx c ->
  same_totals (sw_g s) g' -> moves [] s (ScWorld (<[p := c']> (sw_scs s)) g').
Proof.
  intros E Et Er Hg. assert (Eo : ∀ d, ring_of d c' = ring_of d c) by (by intros []).
  apply moves_write; [|intros H|done].
  - intros d. unfold bytes_of. rewrite Eo. symmetry. by apply queue_at_some.
  - intros d b. rewrite Eo. by apply (H p c).
Qed.

Lemma moves_update s p f s' : keeps_rings f -> sc_update p f s = Some s' -> moves [] s s'.
Proof.
  intros Hf. unfold sc_update. destruct (sw_scs s !! p) as [c|] eqn:E; [|done]. intros [= <-].
  destruct (Hf c). by apply (moves_same _ _ c).
Qed.

Lemma moves_update_nn s p f s' : keeps_rings f -> sc_update_nn p f s = Some s' -> moves [] s s'.
Proof.
  intros Hf. unfold sc_update_nn. destruct (p =? 0); [intros [= <-]; apply moves_refl|by apply moves_update].
Qed.

(** *** The operations that move bytes *)

Lemma u64_u64 x : u64 (u64 x) = u64 x.
Proof. unfold u64. by rewrite Zmod_mod. Qed.

(** [c] with its ring [d] replaced. *)
Definition set_ring (d : way) (b : stream_buf) (c : stream_ctx) : stream_ctx :=
  match d with Tx => sc_set_tx (Some b) c | Rx => sc_set_rx (Some b) c end.

Lemma ring_of_set d b c d' : ring_of d' (set_ring d b c) = if bool_decide (d' = d) then Some b else ring_of d' c.
Proof. by destruct d, d'. Qed.

Lemma bytes_of_set d b c d' H q : sb_rep b H q ->
  bytes_of d' (set_ring d b c) = if bool_decide (d' = d) then q else bytes_of d' c.
Proof.
  intros R. unfold bytes_of. rewrite ring_of_set. case_bool_decide; [by eapply sb_queue_rep|done].
Qed.

Lemma rings_ok_set d b c H q : sb_rep b H q -> rings_ok c -> rings_ok (set_ring d b c).
Proof.
  intros R Hc d' b'. rewrite ring_of_set. case_bool_decide; [intros [= <-]; eauto|apply Hc].
Qed.

(** One event at ring [d] of [p], the ring there replaced by [b]. *)
Lemma moves_one s p c d b b' g' e : sw_scs s !! p = Some c -> ring_of d c = Some b ->
  (∀ H q, sb_rep b H q -> ∃ H' q', sb_rep b' H' q' ∧
     (∀ Q, Q d p = q -> ev_step e Q = Some (set_queue d p q' Q)) ∧
     u64 (g' CNT_TX_DATA_BYTES_PUSHED) = u64 (sw_g s CNT_TX_DATA_BYTES_PUSHED + ev_pushed e) ∧
     u64 (g' CNT_TX_DATA_BYTES_DISCARDED) = u64 (sw_g s CNT_TX_DATA_BYTES_DISCARDED + ev_dropped e)) ->
  moves [e] s (ScWorld (<[p := set_ring d b' c]> (sw_scs s)) g').
Proof.
  intros E Er Hb Hok. destruct (Hok p c E d b Er) as (H & q & R). destruct (Hb H q R) as (H' & q' & R' & Es & Hp & Hd).
  split; [apply rings_insert, (rings_ok_set d b' c H' q' R'); [done|by apply (Hok p)]| |by rewrite lsum_one..].
  intros Q HQ. cbn [replay]. rewrite Es.
  2: { rewrite HQ, (queue_at_some _ _ _ _ E). unfold bytes_of. rewrite Er. by eapply sb_queue_rep. }
  eexists. split; [done|]. intros d' p'. rewrite queue_at_insert, (bytes_of_set d b' c d' H' q' R').
  unfold set_queue. destruct (Z.eqb_spec p' p) as [->|]; [|by rewrite andb_false_r]. rewrite andb_true_r.
  case_bool_decide; [done|]. rewrite HQ. by apply queue_at_some.
Qed.

Lemma ev_out_step d p q n Q : Q d p = q -> 0 <= n ->
  ev_step (EvOut d p (take (Z.to_nat n) q)) Q = Some (set_queue d p (drop (Z.to_nat n) q) Q).
Proof.
  intros E Hn. cbn. rewrite E, length_take, bool_decide_true.
  - do 2 f_equal. destruct (Nat.le_gt_cases (Z.to_nat n) (length q)); [by rewrite Nat.min_l by lia|].
    rewrite Nat.min_r, !drop_ge by lia. done.
  - destruct (Nat.le_gt_cases (Z.to_nat n) (length q)); [by rewrite Nat.min_l by lia|].
    by rewrite Nat.min_r, !take_ge by lia.
Qed.

(** Bytes taken off a ring. *)
Lemma moves_pop s p c d b n bs b' g' : sw_scs s !! p = Some c -> ring_of d c = Some b -> 0 <= n ->
  aiopquic_stream_buf_pop b n = Some (bs, b') -> same_totals (sw_g s) g' ->
  moves [EvOut d p bs] s (ScWorld (<[p := set_ring d b' c]> (sw_scs s)) g').
Proof.
  intros E Er Hn Ep [Gp Gd]. apply (moves_one s p c d b b'); [done..|]. intros H q R.
  destruct (stream_buf_pop_spec b H q n R Hn) as (b2 & Ep2 & R2 & _). rewrite Ep in Ep2.
  injection Ep2 as -> ->. eexists _, _. split; [exact R2|]. split; [|rewrite Gp, Gd; by destruct d; cbn; rewrite !Z.add_0_r].
  intros Q HQ. apply ev_out_step; [done|lia].
Qed.

(** Bytes stored in a ring: as many as there is room for. *)
Lemma moves_push s p c d b data n b' g' : sw_scs s !! p = Some c -> ring_of d c = Some b -> zlen data < 2 ^ 32 ->
  aiopquic_stream_buf_push b data = Some (n, b') ->
  u64 (g' CNT_TX_DATA_BYTES_PUSHED)
    = u64 (sw_g s CNT_TX_DATA_BYTES_PUSHED + ev_pushed (EvIn d p (take (Z.to_nat n) data))) ->
  u64 (g' CNT_TX_DATA_BYTES_DISCARDED) = u64 (sw_g s CNT_TX_DATA_BYTES_DISCARDED) ->
  moves [EvIn d p (take (Z.to_nat n) data)] s (ScWorld (<[p := set_ring d b' c]> (sw_scs s)) g').
Proof.
  intros E Er Hl Ep Gp Gd. apply (moves_one s p c d b b'); [done..|]. intros H q R.
  destruct (stream_buf_push_spec b H q data R Hl) as (b2 & Ep2 & R2 & _). rewrite Ep in Ep2.
  injection Ep2 as -> ->. eexists _, _. split; [exact R2|]. split; [|by split; [done|cbn; rewrite Z.add_0_r]].
  intros Q HQ. cbn. by rewrite HQ.
Qed.

(** A ring's FIN flag. *)
Lemma moves_set_fin s p s' :
  sc_update p (λ c, sc_set_rx (aiopquic_stream_buf_set_fin <$> sc_rx c) c) s = Some s' -> moves [] s s'.
Proof.
  unfold sc_update. destruct (sw_scs s !! p) as [c|] eqn:E; [|done]. intros [= <-].
  apply moves_write; [|intros Hok|done].
  - intros d. rewrite (queue_at_some _ _ _ _ E). unfold bytes_of. destruct d; cbn; [done|]. by destruct (sc_rx c).
  - intros d b Eb. destruct d; cbn in Eb; [by apply (Hok p c E Tx)|].
    destruct (sc_rx c) as [rx|] eqn:Er; [|done]. injection Eb as <-. destruct (Hok p c E Rx rx Er) as (H & q & R).
    exists H, q. by apply stream_buf_set_fin_spec.
Qed.

(** A ring made where there was none. *)
Lemma moves_make s p c d a capacity c' : sw_scs s !! p = Some c -> ring_of d c = None -> alloc_ok a capacity ->
  (∀ d', ring_of d' c' = if bool_decide (d' = d) then buf_create a capacity else ring_of d' c) ->
  moves [] s (ScWorld (<[p := c']> (sw_scs s)) (sw_g s)).
Proof.
  intros E Er Ha Hc. pose proof (buf_create_cases a capacity Ha) as Hb. apply moves_write; [|intros Hok|done].
  - intros d'. rewrite (queue_at_some _ _ _ _ E). unfold bytes_of. rewrite Hc. case_bool_decide as Hd; [|done].
    rewrite Hd, Er. destruct Hb as [->|(b & -> & R)]; [done|]. by eapply sb_queue_rep.
  - intros d' b. rewrite Hc. case_bool_decide; [|by apply (Hok p c)].
    destruct Hb as [->|(b' & -> & R)]; [done|]. intros [= <-]. eauto.
Qed.

Lemma moves_ensure_rx s p a capacity x s' : alloc_ok a capacity ->
  aiopquic_stream_ctx_ensure_rx a capacity p s = Some (x, s') -> moves [] s s'.
Proof.
  intros Ha. unfold aiopquic_stream_ctx_ensure_rx. destruct (p =? 0); [intros [= _ <-]; apply moves_refl|].
  destruct (sw_scs s !! p) as [c|] eqn:E; [|done]. cbn [mbind option_bind].
  destruct (sc_rx c) eqn:Er; [intros [= _ <-]; apply moves_refl|]. unfold sc_update. rewrite E. cbn [mbind option_bind].
  intros [= _ <-]. apply (moves_make s p c Rx a capacity); [done..|]. by intros [].
Qed.

Lemma moves_abandon s p s' : aiopquic_stream_ctx_tx_abandon p s = Some s' ->
  ∃ L, moves L s s' ∧ filter (λ e, asked e = true) L = [].
Proof.
  unfold aiopquic_stream_ctx_tx_abandon. destruct (p =? 0); [intros [= <-]; exists []; by split; [apply moves_refl|]|].
  destruct (sw_scs s !! p) as [c|] eqn:E; [|done]. cbn [mbind option_bind].
  destruct (sc_tx c) as [tx|] eqn:Et; [|intros [= <-]; exists []; by split; [apply moves_refl|]].
  destruct (sb_tail tx >? sb_head tx) eqn:Eg; intros [= <-]; [|exists []; by split; [apply moves_refl|]].
  exists [EvDrop Tx p (sb_queue tx)]. split; [|done].
  apply (moves_one s p c Tx tx (sb_set_head tx (sb_tail tx))); [done..|]. intros h q R. exists (h + zlen q), [].
  rewrite (sb_queue_rep _ _ _ R). split; [|split; [|split; [by cbn; rewrite Z.add_0_r|]]].
  - destruct R as [R1 R2 R3 R4 R5]. pose proof (rr_start _ _ _ _ R1).
    split; try done; cbn [sb_set_head sb_buf sb_capacity sb_head sb_tail length].
    + pose proof (ring_rep_drop _ _ _ _ (zlen q) R1 ltac:(lia)) as Rd. by rewrite drop_ge in Rd by lia.
    + cbn. by rewrite R5, Z.add_0_r.
  - intros Q HQ. cbn. by rewrite bool_decide_true.
  - rewrite bump_eq, u64_u64, <- u64_add_r, u64_u64. cbn [ev_dropped]. f_equal. f_equal.
    rewrite (sr_tail _ _ _ R), (sr_head _ _ _ R), u64_sub_u64. replace (h + zlen q - h) with (zlen q) by lia.
    pose proof (sb_rep_fit _ _ _ R). pose proof (sb_rep_cap _ _ _ R). by rewrite u64_small by lia.
Qed.

(** A wrapper goes with what is left in its rings. *)
Lemma moves_delete s p c g' : sw_scs s !! p = Some c ->
  (all_rings_ok s -> u64 (g' CNT_TX_DATA_BYTES_PUSHED) = u64 (sw_g s CNT_TX_DATA_BYTES_PUSHED) ∧
     u64 (g' CNT_TX_DATA_BYTES_DISCARDED) = u64 (sw_g s CNT_TX_DATA_BYTES_DISCARDED + zlen (bytes_of Tx c))) ->
  moves [EvDrop Tx p (bytes_of Tx c); EvDrop Rx p (bytes_of Rx c)] s (ScWorld (delete p (sw_scs s)) g').
Proof.
  intros E Hg Hok. destruct (Hg Hok) as [Gp Gd]. split.
  - intros p' c'. cbn. rewrite lookup_delete_Some. intros [_ E']. by eapply Hok.
  - intros Q HQ. cbn [replay ev_step]. rewrite bool_decide_true by (rewrite HQ; by apply queue_at_some).
    cbn [mbind option_bind]. rewrite set_queue_ne by done.
    rewrite bool_decide_true by (rewrite HQ; by apply queue_at_some). eexists. split; [done|].
    intros d' p'. unfold queue_at, set_queue. cbn [sw_scs]. destruct (Z.eqb_spec p' p) as [->|Hne].
    + rewrite lookup_delete_eq. by destruct d'.
    + rewrite lookup_delete_ne, !andb_false_r by done. apply HQ.
  - rewrite lsum_cons, lsum_one. cbn [ev_pushed sw_g]. by rewrite !Z.add_0_r.
  - rewrite lsum_cons, lsum_one. cbn [ev_dropped sw_g]. by rewrite !Z.add_0_r.
Qed.

Lemma moves_destroy s p s' : aiopquic_stream_ctx_destroy p s = Some s' ->
  ∃ L, moves L s s' ∧ filter (λ e, asked e = true) L = [].
Proof.
  unfold aiopquic_stream_ctx_destroy. destruct (p =? 0); [intros [= <-]; exists []; by split; [apply moves_refl|]|].
  destruct (sw_scs s !! p) as [c|] eqn:E; [|done]. cbn [mbind option_bind].
  destruct (negb _); [intros Eu; exists []; by split; [eapply moves_update, Eu|]|]. intros [= <-].
  exists [EvDrop Tx p (bytes_of Tx c); EvDrop Rx p (bytes_of Rx c)]. split; [|done]. apply moves_delete; [done|]. intros Hok. split.
  - unfold bump at 1. rewrite decide_False by done.
    destruct (sc_tx c); [|done]. destruct (_ >? 0); [|done]. unfold bump. by rewrite decide_False.
  - unfold bump at 1. rewrite decide_False by done.
    unfold bytes_of. cbn [ring_of]. destruct (sc_tx c) as [tx|] eqn:Et; [|cbn; by rewrite Z.add_0_r].
    destruct (Hok p c E Tx tx Et) as (h & q & R). rewrite (sb_used_eq _ _ _ R), (sb_queue_rep _ _ _ R).
    rewrite Z.gtb_ltb. destruct (Z.ltb_spec 0 (zlen q)); [by rewrite bump_eq, u64_u64|].
    replace (zlen q) with 0 by lia. by rewrite Z.add_0_r.
Qed.

Lemma moves_create s p : p = 0 ∨ sw_scs s !! p = None -> moves [] s (aiopquic_stream_ctx_create p s).2.
Proof.
  intros Hp. unfold aiopquic_stream_ctx_create. destruct (Z.eqb_spec p 0) as [Hz|Hz]; [apply moves_refl|].
  destruct Hp as [?|Hp]; [done|]. cbn. apply moves_write; [|by intros _ []|done].
  intros d. unfold queue_at. rewrite Hp. by destruct d.
Qed.

(** A send with nobody pulling under it: all of it, or nothing. *)
Definition send_events (p : Z) (data : list Z) (rc : Z) : list stream_ev :=
  if rc =? 1 then [EvIn Tx p data] else [].
Definition sent_world (data : list Z) (rc : Z) (s : sc_world) : sc_world :=
  if rc =? 1 then ScWorld (sw_scs s) (aiopquic_tx_data_bytes_pushed_add (zlen data) (sw_g s)) else s.

Lemma moves_commit s p c tx data fin rc rs s1 : sw_scs s !! p = Some c -> sc_tx c = Some tx ->
  (zlen data >? sb_capacity tx) = false ->
  (zlen data >? 0) && (u32 (sb_capacity tx - u32 (u64 (sb_tail tx - sb_head tx))) <? zlen data) = false ->
  send_commit p data fin [] s = Some (rc, rs, s1) -> moves (send_events p data rc) s (sent_world data rc s1).
Proof.
  intros E Et Ec Ef Es Hok. destruct (Hok p c E Tx tx Et) as (h & q & R).
  change (u32 (u64 (sb_tail tx - sb_head tx))) with (aiopquic_stream_buf_used tx) in Ef.
  change (u32 (sb_capacity tx - aiopquic_stream_buf_used tx)) with (aiopquic_stream_buf_free tx) in Ef.
  rewrite (sb_free_eq _ _ _ R), !Z.gtb_ltb in Ef.
  pose proof (sb_rep_fit _ _ _ R). rewrite Z.gtb_ltb in Ec. apply Z.ltb_ge in Ec.
  destruct (send_commit_spec p data fin [] s c tx h q E Et R) as (tx' & E' & R' & _).
  { apply andb_false_iff in Ef as [Hz|Hz]; apply Z.ltb_ge in Hz; lia. }
  rewrite E' in Es. injection Es as <- <- <-. unfold send_events, sent_world, sc_put_tx. cbn [Z.eqb Pos.eqb sw_scs sw_g].
  revert Hok. apply (moves_one s p c Tx tx tx'); [done..|]. intros h2 q2 R2.
  rewrite <- (sb_queue_rep _ _ _ R2), (sb_queue_rep _ _ _ R). exists h, (q ++ data). split; [done|].
  split; [intros Q HQ; cbn; by rewrite HQ|].
  split; [unfold aiopquic_tx_data_bytes_pushed_add; by rewrite bump_eq, u64_u64|cbn; by rewrite Z.add_0_r].
Qed.

Lemma moves_send a now p data capacity fin s rc rs s1 : alloc_ok a capacity ->
  aiopquic_stream_ctx_send_data a now [] p data capacity fin s = Some (rc, rs, s1) ->
  moves (send_events p data rc) s (sent_world data rc s1).
Proof.
  intros Ha. unfold aiopquic_stream_ctx_send_data.
  destruct (p =? 0); [intros [= <- <- <-]; apply moves_refl|].
  destruct (sw_scs s !! p) as [c|] eqn:E; [|done]. cbn [mbind option_bind].
  set (c1 := match sc_tx c with Some _ => c | None => sc_set_tx (buf_create a capacity) c end).
  set (w1 := ScWorld (<[p := c1]> (sw_scs s)) (sw_g s)).
  assert (M1 : moves [] s w1).
  { unfold c1 in w1. destruct (sc_tx c) as [tx|] eqn:Et; [by apply (moves_same s p c)|].
    apply (moves_make s p c Tx a capacity); [done..|]. by intros []. }
  assert (E1 : sw_scs w1 !! p = Some c1) by apply lookup_insert_eq.
  destruct (sc_tx c1) as [tx|] eqn:Et; [|by intros [= <- <- <-]].
  destruct (zlen data >? sb_capacity tx) eqn:Ec; [by intros [= <- <- <-]|].
  destruct ((zlen data >? 0) && _) eqn:Ef.
  - apply andb_true_iff in Ef as [_ Ef]. unfold sc_update. rewrite E1. cbn [mbind option_bind tx_worker_run].
    set (w2 := ScWorld (<[p := sc_arm now c1]> _) _).
    assert (E2 : sw_scs w2 !! p = Some (sc_arm now c1)) by apply lookup_insert_eq.
    rewrite E2. cbn [mbind option_bind]. change (sc_tx (sc_arm now c1)) with (sc_tx c1). rewrite Et.
    cbn [mbind option_bind]. rewrite Ef. intros [= <- <- <-]. cbn.
    change [] with (@nil stream_ev ++ []). eapply moves_trans; [exact M1|]. by apply (moves_same _ _ c1).
  - intros Es. change (send_events p data rc) with ([] ++ send_events p data rc). eapply moves_trans; [exact M1|].
    by eapply moves_commit.
Qed.
