(* ===== verification/DgramFlow.v ===== *)
(** * The records of the datagram rings, end to end

    The specification of the datagrams Python sends: a queue of records per ring, which
    pushes fill, pulls empty from the front and the end of the ring clears
    ([dgram_replay]).  [holds_recs]: the rings in memory hold those queues.  Then what the
    operations on the rings and their references are in these terms ([frees],
    [push_record_rep]).  FlowCalls.v carries it to the calls. *)
From S2P Require Import Prelude Ring Store StreamBuf SpscRing EventChannel DgramBuf DgramTable.

(** ** The specification *)

(** What happens to the ring at [p]. *)
Inductive dgram_ev :=
  | DgIn (p : Z) (r : list Z)
  | DgOut (p : Z) (r : list Z)
  | DgFree (p : Z) (rs : list (list Z)).   (** [rs]: what was left in it *)

Definition rec_queues : Type := Z -> list (list Z).

Definition set_recs (p : Z) (q : list (list Z)) (Q : rec_queues) : rec_queues :=
  λ p', if p' =? p then q else Q p'.

Definition dgram_step (e : dgram_ev) (Q : rec_queues) : option rec_queues :=
  match e with
  | DgIn p r => Some (set_recs p (Q p ++ [r]) Q)
  | DgOut p r =>
      if bool_decide (head (Q p) = Some r) then Some (set_recs p (tail (Q p)) Q) else None
  | DgFree p rs => if bool_decide (Q p = rs) then Some (set_recs p [] Q) else None
  end.

Fixpoint dgram_replay (D : list dgram_ev) (Q : rec_queues) : option rec_queues :=
  match D with [] => Some Q | e :: D => Q ← dgram_step e Q; dgram_replay D Q end.

Definition dg_handed (e : dgram_ev) : option (list Z) :=
  match e with DgOut _ r => Some r | _ => None end.
Definition dg_posted (e : dgram_ev) : option (Z * list Z) :=
  match e with DgIn p r => Some (p, r) | _ => None end.

(** The records that came into a ring, and that left it. *)
Definition dg_came (p : Z) (D : list dgram_ev) : list (list Z) :=
  D ≫= λ e, match e with DgIn p' r => if p' =? p then [r] else [] | _ => [] end.
Definition dg_left (p : Z) (D : list dgram_ev) : list (list Z) :=
  D ≫= λ e, match e with
            | DgOut p' r => if p' =? p then [r] else []
            | DgFree p' rs => if p' =? p then rs else []
            | _ => []
            end.

Lemma dgram_replay_app D1 D2 Q : dgram_replay (D1 ++ D2) Q = Q1 ← dgram_replay D1 Q; dgram_replay D2 Q1.
Proof.
  revert Q. induction D1 as [|e D1 IH]; intros Q; [done|]. cbn [app dgram_replay].
  destruct (dgram_step e Q); cbn [mbind option_bind]; [apply IH|done].
Qed.

Lemma set_recs_eq p q Q : set_recs p q Q p = q.
Proof. unfold set_recs. by rewrite Z.eqb_refl. Qed.
Lemma set_recs_ne p q Q p' : (p =? p') = false -> set_recs p q Q p' = Q p'.
Proof. intros H. unfold set_recs. by rewrite Z.eqb_sym, H. Qed.

(** Every record leaves in the order it came, or is still there. *)
Lemma dgram_conserves p D : ∀ Q Q', dgram_replay D Q = Some Q' ->
  Q p ++ dg_came p D = dg_left p D ++ Q' p.
Proof.
  induction D as [|e D IH]; intros Q Q' E; [injection E as <-; by rewrite app_nil_r|].
  cbn [dgram_replay] in E. destruct (dgram_step e Q) as [Q1|] eqn:E1; [|done]. cbn [mbind option_bind] in E.
  specialize (IH _ _ E). unfold dg_came, dg_left in *. cbn [mbind list_bind].
  destruct e as [p' r|p' r|p' rs]; cbn [dgram_step] in E1; [|case_bool_decide as Hb; [|done]..]; injection E1 as <-.
  all: destruct (p' =? p) eqn:Ep; [apply Z.eqb_eq in Ep as ->; rewrite set_recs_eq in IH|by rewrite set_recs_ne in IH].
  - by rewrite app_assoc.
  - cbn [app]. rewrite <- IH. by destruct (Q p); [|injection Hb as ->].
  - cbn [app] in *. by rewrite <- app_assoc, <- IH, Hb.
Qed.

(** ** The rings hold the queues *)

Definition holds_recs (Q : rec_queues) (st : ring_store) : Prop :=
  ∀ p, match rs_rings st !! p with Some b => ∃ H, db_rep b H (Q p) | None => Q p = [] end.

Lemma holds_at Q st p b : holds_recs Q st -> rs_rings st !! p = Some b -> ∃ H, db_rep b H (Q p).
Proof. intros HQ E. specialize (HQ p). by rewrite E in HQ. Qed.

(** One ring changed. *)
Lemma holds_set Q st p b H q alive : holds_recs Q st -> db_rep b H q ->
  holds_recs (set_recs p q Q) (RingStore (<[p := b]> (rs_rings st)) alive).
Proof.
  intros HQ R p'. cbn. unfold set_recs. destruct (Z.eqb_spec p' p) as [->|Hne].
  - rewrite lookup_insert_eq. by exists H.
  - rewrite lookup_insert_ne by done. apply HQ.
Qed.

Lemma holds_same Q st p b H alive : holds_recs Q st -> db_rep b H (Q p) ->
  holds_recs Q (RingStore (<[p := b]> (rs_rings st)) alive).
Proof.
  intros HQ R p'. cbn. destruct (Z.eqb_spec p' p) as [->|Hne].
  - rewrite lookup_insert_eq. by exists H.
  - rewrite lookup_insert_ne by done. apply HQ.
Qed.

(** What a store operation did: some events that neither take in nor hand over. *)
Definition frees (st st' : ring_store) : Prop := ∀ Q, holds_recs Q st -> ∃ D Q',
  dgram_replay D Q = Some Q' ∧ holds_recs Q' st' ∧ omap dg_handed D = [] ∧ omap dg_posted D = [].

Lemma frees_refl st : frees st st.
Proof. intros Q HQ. by exists [], Q. Qed.

Lemma frees_addref st p st' : rs_addref st p = Some st' -> frees st st'.
Proof.
  unfold rs_addref. destruct (rs_rings st !! p) as [b|] eqn:E; [|done]. intros [= <-] Q HQ.
  destruct (holds_at _ _ _ _ HQ E) as [H R]. exists [], Q. split_and!; try done.
  apply (holds_same Q st p _ H); [done|]. split; apply R.
Qed.

Lemma frees_unref st p st' : rs_unref st p = Some st' -> frees st st'.
Proof.
  unfold rs_unref. destruct (p =? 0); [intros [= <-]; apply frees_refl|].
  destruct (rs_rings st !! p) as [b|] eqn:E; [|done]. cbn [mbind option_bind]. unfold aiopquic_dgram_buf_unref.
  destruct (db_refcnt b =? 1); intros [= <-] Q HQ.
  - exists [DgFree p (Q p)], (set_recs p [] Q). cbn. rewrite bool_decide_true by done. split_and!; try done.
    intros p'. cbn. unfold set_recs. destruct (Z.eqb_spec p' p) as [->|Hne]; [by rewrite lookup_delete_eq|].
    rewrite lookup_delete_ne by done. apply HQ.
  - destruct (holds_at _ _ _ _ HQ E) as [H R]. exists [], Q. split_and!; try done.
    apply (holds_same Q st p _ H); [done|]. split; apply R.
Qed.

Lemma frees_put ok t st cnx db rc t' st' :
  aiopquic_dgram_table_put ok t st cnx db = Some (rc, t', st') -> frees st st'.
Proof.
  unfold aiopquic_dgram_table_put. intros E. match type of E with context [mbind _ ?x] => destruct x as [[rc1 t1]|]; [|done] end.
  cbn [mbind option_bind] in E. destruct (negb _); [injection E as _ _ <-; apply frees_refl|].
  destruct (table_probe _ _) as [[i|i ft]|]; [|cbn [mbind option_bind] in E|done].
  - injection E as _ _ <-. apply frees_refl.
  - destruct (rs_addref st db) as [st1|] eqn:Ea; [|done]. injection E as _ _ <-. by eapply frees_addref.
Qed.

Lemma frees_remove_ring t st cnx db t' st' :
  aiopquic_dgram_table_remove_ring t st cnx db = Some (t', st') -> frees st st'.
Proof.
  unfold aiopquic_dgram_table_remove_ring. destruct (_ || _); [intros [= _ <-]; apply frees_refl|].
  destruct (table_probe _ _) as [[i|i ft]|]; cbn [mbind option_bind]; [|intros [= _ <-]; apply frees_refl|done].
  destruct (_ !! _) as [s|]; cbn [mbind option_bind]; [|done]. destruct (_ && _); [intros [= _ <-]; apply frees_refl|].
  destruct (rs_unref st (s_db s)) as [st1|] eqn:Eu; [|done]. intros [= _ <-]. by eapply frees_unref.
Qed.

(** A push: the record is taken in if and only if the answer is 1. *)
Lemma push_record_rep b H q data rc os b' : db_rep b H q -> 0 < zlen data < 2 ^ 32 ->
  aiopquic_dgram_buf_push_record [] b data = Some (rc, os, b') ->
  db_rep b' H (if rc =? 1 then q ++ [data] else q).
Proof.
  intros R Hl. pose proof (dr_cap R). pose proof (dr_room _ _ _ R). unfold aiopquic_dgram_buf_push_record.
  rewrite Z.gtb_ltb. destruct (Z.ltb_spec (db_max_record b) (zlen data)); [intros [= <- _ <-]; split; apply R|].
  change (u32 (u64 (db_tail b - db_head b))) with (aiopquic_dgram_buf_used b). rewrite (dr_free R).
  unfold AIOPQUIC_DGRAM_REC_HDR. rewrite u32_small by lia. cbn [worker_run mbind option_bind db_set_drain db_capacity db_head].
  change (u32 (u64 (db_tail b - db_head b))) with (aiopquic_dgram_buf_used b). rewrite (dr_free R).
  destruct (Z.ltb_spec (db_capacity b - zlen (encode q)) (4 + zlen data)) as [Hf|Hf]; [intros [= <- _ <-]; split; apply R|].
  destruct (push_write_spec R data) as (buf & tail & -> & R'); [split; lia|lia|]. by intros [= <- _ <-].
Qed.

(** ** What Python is told *)

(** The bytes a read gave it; a record a push answered 1 for. *)
Inductive py_result :=
  | GotBytes (bs : list Z)
  | Queued (p : Z) (r : list Z).

Definition res_read (x : py_result) : option (list Z) :=
  match x with GotBytes bs => Some bs | _ => None end.
Definition res_queued (x : py_result) : option (Z * list Z) :=
  match x with Queued p r => Some (p, r) | _ => None end.
