(* ===== verification/FlowCalls.v ===== *)
(** * What the raw bridge's calls do to the streams' bytes and to datagrams

    [flows]: partial reasoning on a call.  Whatever it did, some events of StreamFlow.v
    explain the byte rings after it by those before; they answer some of the requests made
    of the call, in order; and what it wrote into the buffers picoquic gave it for stream
    data is what the events hand over.  [dgrams], a part of it, says the same of the
    datagram rings with the events of DgramFlow.v: what the call wrote into buffers for
    datagrams is what they hand over, what Python was told is queued is what they take in. *)
From S2P Require Import Prelude Ring Store StreamBuf SpscRing EventChannel DgramBuf DgramTable.
From S2P Require Import StreamCtx WtState Bridge Alpn Callback World StreamCb PySide StreamFlow DgramFlow Runs.

(** ** What a call writes for streams *)

(** What the buffer of a provide call is for: a stream's bytes, or a datagram's. *)
Definition provided (c : pq_call) : option bool :=
  match c with
  | PqProvideStreamDataBuffer _ _ _ _ => Some true
  | PqProvideDatagramBuffer _ _ _ | H3ProvideDatagramBuffer _ _ _ => Some false
  | _ => None
  end.

(** The writes of a trace into buffers for streams ([k] is true) or for datagrams; [b]:
    what the buffer last provided is for. *)
Fixpoint writes_of (k b : bool) (tr : list (pq_call * Z)) : list (list Z) :=
  match tr with
  | [] => []
  | (WriteBuf _ bs, _) :: tr => (if Bool.eqb k b then [bs] else []) ++ writes_of k b tr
  | (c, _) :: tr => writes_of k (default b (provided c)) tr
  end.

Abbreviation stream_writes := (writes_of true false).
Abbreviation dgram_writes := (writes_of false true).

Fixpoint provided_after (b : bool) (tr : list (pq_call * Z)) : bool :=
  match tr with [] => b | (c, _) :: tr => provided_after (default b (provided c)) tr end.

Lemma writes_of_app k b tr1 tr2 :
  writes_of k b (tr1 ++ tr2) = writes_of k b tr1 ++ writes_of k (provided_after b tr1) tr2.
Proof.
  revert b. induction tr1 as [|[c r] tr1 IH]; intros b; [done|]. cbn [app writes_of provided_after].
  destruct c; rewrite IH; rewrite ?app_assoc; done.
Qed.

(** A call writes nothing by itself. *)
Definition writes_not (c : pq_call) : Prop := ∀ k b r, writes_of k b [(c, r)] = [].

(** ** Calls *)

Definition rx_cap (w : world) : Z := b_rx_data_ring_cap (w_ctx w).
Definition sound (w : world) : Prop := 0 <= rx_cap w < 2 ^ 32 ∧ all_rings_ok (w_sc w).

(** [B]: what the buffer last provided may be for when the call is made; [res]: what
    Python is told in it.  First the datagram rings. *)
Definition dgrams (B : bool -> Prop) (res : list py_result) (tr : list (pq_call * Z)) (s s' : ring_store) : Prop :=
  ∀ Q, holds_recs Q s -> ∃ D Q', dgram_replay D Q = Some Q' ∧ holds_recs Q' s' ∧
    (∀ b, B b -> writes_of false b tr = omap dg_handed D) ∧ omap dg_posted D = omap res_queued res.

Definition flowed (B : bool -> Prop) (rs : list request) (res : list py_result) (w w' : world) : Prop :=
  rx_cap w' = rx_cap w ∧ ∃ L tr, moves L (w_sc w) (w_sc w') ∧ w_trace w' = w_trace w ++ tr ∧
    (∀ b, B b -> writes_of true b tr = omap ev_handed L) ∧ omap ev_read L = omap res_read res ∧ answered L rs ∧
    dgrams B res tr (w_rs w) (w_rs w').

Lemma dgrams_quiet B res tr s : (∀ b, B b -> writes_of false b tr = []) -> omap res_queued res = [] -> dgrams B res tr s s.
Proof. intros Hw Hr Q HQ. exists [], Q. by rewrite Hr. Qed.

Lemma dgrams_trans B res1 res2 tr1 tr2 s1 s2 s3 : dgrams B res1 tr1 s1 s2 -> dgrams (λ _, True) res2 tr2 s2 s3 ->
  dgrams B (res1 ++ res2) (tr1 ++ tr2) s1 s3.
Proof.
  intros H1 H2 Q HQ. destruct (H1 Q HQ) as (D1 & Q1 & E1 & HQ1 & W1 & P1).
  destruct (H2 Q1 HQ1) as (D2 & Q2 & E2 & HQ2 & W2 & P2). exists (D1 ++ D2), Q2.
  rewrite dgram_replay_app, E1, !omap_app, P1, P2. split_and!; try done.
  intros b Hb. by rewrite writes_of_app, W1, W2.
Qed.

Definition flows_from (B : bool -> Prop) (rs : list request) {A} (m : M A) : Prop :=
  ∀ w a w', sound w -> m w = Some (a, w') -> flowed B rs [] w w'.

Abbreviation flows := (flows_from (λ _, True)).

Lemma flowed_trans B rs1 rs2 res1 res2 w1 w2 w3 : flowed B rs1 res1 w1 w2 ->
  flowed (λ _, True) rs2 res2 w2 w3 -> flowed B (rs1 ++ rs2) (res1 ++ res2) w1 w3.
Proof.
  intros (C1 & L1 & tr1 & M1 & T1 & W1 & R1 & S1 & D1) (C2 & L2 & tr2 & M2 & T2 & W2 & R2 & S2 & D2).
  split; [congruence|].
  exists (L1 ++ L2), (tr1 ++ tr2). split; [by eapply moves_trans|]. split; [by rewrite T2, T1, app_assoc|].
  rewrite !omap_app, R1, R2. split; [|split; [done|split; [by apply answered_app|by eapply dgrams_trans]]].
  intros b' Hb. by rewrite writes_of_app, W1, W2.
Qed.

Lemma flowed_sound B rs res w w' : flowed B rs res w w' -> sound w -> sound w'.
Proof.
  intros (C & L & tr & M & _) [Hc Hr]. split; [by rewrite C|]. by apply (mv_ok _ _ _ (M Hr)).
Qed.

Lemma flowed_sub B rs rs' res w w' : flowed B rs res w w' -> rs `sublist_of` rs' -> flowed B rs' res w w'.
Proof.
  intros (C & L & tr & ? & ? & ? & ? & ? & ?) Hs. split; [done|]. exists L, tr. split_and!; try done.
  by eapply answered_sub.
Qed.

(** The wrappers changed, the datagram rings and the trace are as they were. *)
Lemma flowed_quiet B rs L res w w' : rx_cap w' = rx_cap w -> moves L (w_sc w) (w_sc w') -> w_trace w' = w_trace w ->
  w_rs w' = w_rs w -> omap ev_handed L = [] -> omap ev_read L = omap res_read res -> omap res_queued res = [] ->
  answered L rs -> flowed B rs res w w'.
Proof.
  intros Hc Hm Ht Hs Hh Hr Hq Ha. split; [done|]. exists L, []. rewrite app_nil_r, Hs. split_and!; try done.
  by apply dgrams_quiet.
Qed.

(** The datagram rings changed. *)
Lemma flowed_rings B rs res w w' : rx_cap w' = rx_cap w -> w_sc w' = w_sc w -> w_trace w' = w_trace w ->
  dgrams B res [] (w_rs w) (w_rs w') -> omap res_read res = [] -> flowed B rs res w w'.
Proof.
  intros Hc Hs Ht Hd Hr. split; [done|]. exists [], []. rewrite Hs, app_nil_r, Hr. split_and!; try done.
  - apply moves_refl.
  - apply answered_nil.
Qed.

Lemma flowed_still B rs w w' : rx_cap w' = rx_cap w -> w_sc w' = w_sc w -> w_trace w' = w_trace w ->
  w_rs w' = w_rs w -> flowed B rs [] w w'.
Proof. intros Hc Hs Ht Hr. apply flowed_rings; try done. rewrite Hr. by apply dgrams_quiet. Qed.

Lemma flows_from_app {A C} B s1 s2 (m : M A) (k : A -> M C) : flows_from B s1 m -> (∀ x, flows s2 (k x)) ->
  flows_from B (s1 ++ s2) (x ← m; k x).
Proof.
  intros Hm Hk w b w' Hc E. minv E. pose proof (Hm _ _ _ Hc E0) as F1.
  exact (flowed_trans _ _ _ [] [] _ _ _ F1 (Hk _ _ _ _ (flowed_sound _ _ _ _ _ F1 Hc) E)).
Qed.

Lemma flows_bind {A C} B s (m : M A) (k : A -> M C) : flows_from B [] m -> (∀ x, flows s (k x)) ->
  flows_from B s (x ← m; k x).
Proof. apply (flows_from_app B []). Qed.

Lemma flows_sub {A} B s s' (m : M A) : flows_from B s m -> s `sublist_of` s' -> flows_from B s' m.
Proof. intros Hm Hs w a w' Hc E. by eapply flowed_sub; [eapply Hm|]. Qed.

Lemma flows_any {A} B s (m : M A) : flows [] m -> flows_from B s m.
Proof.
  intros Hm. eapply flows_sub; [|apply sublist_nil_l]. intros w a w' Hc E.
  destruct (Hm _ _ _ Hc E) as (? & L & tr & ? & ? & ? & ? & ? & Hd). split; [done|]. exists L, tr. split_and!; auto.
  intros Q HQ. destruct (Hd Q HQ) as (D & Q' & ? & ? & ? & ?). exists D, Q'. split_and!; auto.
Qed.

Lemma flows_bind_l {A C} B s (m : M A) (k : A -> M C) : flows_from B s m -> (∀ x, flows [] (k x)) ->
  flows_from B s (x ← m; k x).
Proof. intros Hm Hk. rewrite <- (app_nil_r s). by apply flows_from_app. Qed.

(** The wrappers, the datagram rings and the trace as they were. *)
Definition still {A} (m : M A) : Prop := ∀ w a w', m w = Some (a, w') ->
  rx_cap w' = rx_cap w ∧ w_sc w' = w_sc w ∧ w_trace w' = w_trace w ∧ w_rs w' = w_rs w.

Lemma flows_still {A} B s (m : M A) : still m -> flows_from B s m.
Proof. intros Hm w a w' _ E. destruct (Hm _ _ _ E) as (? & ? & ? & ?). by apply flowed_still. Qed.

(** Such a call leaves the buffer last provided what it was. *)
Lemma flows_bind_still {A C} B s (m : M A) (k : A -> M C) : still m -> (∀ x, flows_from B s (k x)) ->
  flows_from B s (x ← m; k x).
Proof.
  intros Hm Hk w b w' Hc E. minv E. destruct (Hm _ _ _ E0) as (Ec & Es & Et & Er).
  assert (Hc1 : sound w0) by (unfold sound; by rewrite Ec, Es).
  pose proof (Hk _ _ _ _ Hc1 E) as F. unfold flowed in *. by rewrite Ec, Es, Et, Er in F.
Qed.

Lemma flows_if {A} B s (b : bool) (m m' : M A) : flows_from B s m -> flows_from B s m' ->
  flows_from B s (if b then m else m').
Proof. by destruct b. Qed.

Lemma flows_ret {A} B s (x : A) : flows_from B s (ret x).
Proof. apply flows_still. by intros w a w' [= _ <-]. Qed.

Lemma flows_when B s b m : flows_from B s m -> flows_from B s (when b m).
Proof. intros. apply flows_if; [done|apply flows_ret]. Qed.

Lemma flows_ub {A} B s : flows_from B s (ub : M A).
Proof. by intros w a w' _ E. Qed.

(** What is known of an answer. *)
Lemma flows_bind_post {A C} B s (P : A -> Prop) (m : M A) (k : A -> M C) : flows_from B [] m ->
  (∀ w x w', sound w -> m w = Some (x, w') -> P x) -> (∀ x, P x -> flows s (k x)) -> flows_from B s (x ← m; k x).
Proof.
  intros Hm HP Hk w b w' Hw E. minv E. pose proof (Hm _ _ _ Hw E0) as F.
  exact (flowed_trans _ _ _ [] [] _ _ _ F (Hk _ (HP _ _ _ Hw E0) _ _ _ (flowed_sound _ _ _ _ _ F Hw) E)).
Qed.

(** The capacity of an RX ring is a [uint32_t]. *)
Lemma flows_cap {A} B s (k : Z -> M A) : (∀ c, 0 <= c < 2 ^ 32 -> flows_from B s (k c)) ->
  flows_from B s (c ← getb b_rx_data_ring_cap; k c).
Proof. intros Hk w a w' Hc E. minv E. injection E0 as <- <-. by eapply Hk; [apply Hc| |]. Qed.

(** *** Leaves *)

(** A primitive that threads parts of the world through pure functions. *)
Ltac still_tac :=
  let w := fresh "w" in let y := fresh "y" in let w' := fresh "w'" in let E := fresh "E" in
  intros w y w' E; unfold mbind, option_bind in E; repeat (case_match; try done); by simplify_eq.
Ltac still_prim := apply flows_still; still_tac.

(** A ring looked at, and one whose fields the records do not depend on changed. *)
Lemma still_on_db {A} db (f : dgram_buf -> option (A * dgram_buf)) :
  (∀ b x b', f b = Some (x, b') -> b' = b) -> still (on_db db f).
Proof.
  intros Hf w a w' E. unfold on_db in E. destruct (rs_rings (w_rs w) !! db) as [b|] eqn:Eb; [|done].
  cbn [mbind option_bind] in E. destruct (f b) as [[x b']|] eqn:Ef; [|done]. apply Hf in Ef as ->. injection E as _ <-.
  cbn. rewrite insert_id by done. by destruct (w_rs w).
Qed.

Lemma flows_rings {A} B rs (m : M A) : (∀ w a w', m w = Some (a, w') -> rx_cap w' = rx_cap w ∧ w_sc w' = w_sc w ∧
    w_trace w' = w_trace w ∧ frees (w_rs w) (w_rs w')) -> flows_from B rs m.
Proof.
  intros Hm w a w' _ E. destruct (Hm _ _ _ E) as (? & ? & ? & Hf). apply flowed_rings; try done.
  intros Q HQ. destruct (Hf Q HQ) as (D & Q' & ? & ? & Hh & ?). exists D, Q'. by rewrite Hh.
Qed.

Lemma flows_on_db {A} B rs db (f : dgram_buf -> option (A * dgram_buf)) :
  (∀ b x b' H q, f b = Some (x, b') -> db_rep b H q -> db_rep b' H q) -> flows_from B rs (on_db db f).
Proof.
  intros Hf. apply flows_rings. intros w a w' E. unfold on_db in E.
  destruct (rs_rings (w_rs w) !! db) as [b|] eqn:Eb; [|done]. cbn [mbind option_bind] in E.
  destruct (f b) as [[x b']|] eqn:Ef; [|done]. injection E as _ <-. split_and!; try done. intros Q HQ.
  destruct (holds_at _ _ _ _ HQ Eb) as [H R]. exists [], Q. split_and!; try done. by eapply holds_same, Hf.
Qed.

Lemma flows_on_rs B rs f : (∀ st st', f st = Some st' -> frees st st') -> flows_from B rs (on_rs f).
Proof.
  intros Hf. apply flows_rings. intros w a w' E. unfold on_rs in E. destruct (f _) as [st|] eqn:Ef; [|done].
  injection E as _ <-. split_and!; try done. by apply Hf.
Qed.

Lemma flows_table_op {A} B rs (f : dgram_table -> ring_store -> option (A * dgram_table * ring_store)) :
  (∀ t st x t' st', f t st = Some (x, t', st') -> frees st st') -> flows_from B rs (table_op f).
Proof.
  intros Hf. apply flows_rings. intros w a w' E. unfold table_op in E. destruct (f _ _) as [[[x t] st]|] eqn:Ef; [|done].
  injection E as _ <-. split_and!; try done. by eapply Hf.
Qed.

(** One call made, which writes nothing this way. *)
Lemma flowed_call (B : bool -> Prop) c r w w' : (∀ k b, B b -> writes_of k b [(c, r)] = []) -> rx_cap w' = rx_cap w ->
  w_sc w' = w_sc w -> w_trace w' = w_trace w ++ [(c, r)] -> w_rs w' = w_rs w -> flowed B [] [] w w'.
Proof.
  intros Hc Hp Hs Ht Hr. split; [done|]. exists [], [(c, r)]. rewrite Hs, Hr. split_and!; try done.
  - apply moves_refl.
  - by apply Hc.
  - apply answered_nil.
  - by apply dgrams_quiet; [apply Hc|].
Qed.

Lemma flows_pq ev c : writes_not c -> flows [] (pq ev c).
Proof. intros Hc w a w' _ E. apply pq_some in E as [-> ->]. by eapply flowed_call. Qed.

Lemma flows_pq_ ev c : writes_not c -> flows [] (pq_ ev c).
Proof. intros Hc. unfold pq_. apply flows_bind; [by apply flows_pq|]. intros. apply flows_ret. Qed.

(** Until the next call, the buffer is the one just provided. *)
Lemma flowed_provided c b r rs w w1 w' : provided c = Some b ->
  rx_cap w1 = rx_cap w -> w_sc w1 = w_sc w -> w_trace w1 = w_trace w ++ [(c, r)] -> w_rs w1 = w_rs w ->
  flowed (eq b) rs [] w1 w' -> flowed (λ _, True) rs [] w w'.
Proof.
  intros Hc Ec Es Et Er (C & L & tr & M & T & W & R & S & D). split; [congruence|]. rewrite Es in M.
  rewrite Et, <- app_assoc in T. rewrite Er in D.
  assert (Hw : ∀ k b', writes_of k b' ((c, r) :: tr) = writes_of k b tr).
  { intros k b'. destruct c; try done; cbn in *; by injection Hc as <-. }
  exists L, ((c, r) :: tr). split_and!; try done; [intros b' _; by rewrite Hw, W|].
  intros Q HQ. destruct (D Q HQ) as (E & Q' & HE & HQ' & Wd & P). exists E, Q'. split_and!; try done.
  intros b' _. by rewrite Hw, Wd.
Qed.

Lemma flows_provide {A} ev c b s (k : Z -> M A) : provided c = Some b -> (∀ buf, flows_from (eq b) s (k buf)) ->
  flows s (buf ← pq ev c; k buf).
Proof.
  intros Hc Hk w a w' Hw E. minv E. apply pq_some in E0 as [-> ->].
  eapply (flowed_provided c b _ s w (w_set_trace (w_trace w ++ [(c, ev_pq ev (w_trace w) c)]) w)); [exact Hc|done..|].
  eapply Hk; [exact Hw|exact E].
Qed.

(** The wrappers' part of a call. *)
Lemma flows_sc (f : sc_world -> option sc_world) :
  (∀ s s', f s = Some s' -> ∃ L, moves L s s' ∧ filter (λ e, asked e = true) L = []) -> flows [] (on_sc f).
Proof.
  intros Hf w a w' _ E. unfold on_sc in E. destruct (f (w_sc w)) as [s'|] eqn:Ef; [|done]. injection E as _ <-.
  destruct (Hf _ _ Ef) as (L & Hm & Ha).
  assert (Hd : ∀ {B} (g : stream_ev -> option B), (∀ d p bs, g (EvDrop d p bs) = None) -> omap g L = []).
  { intros B g Hg. clear - Ha Hg. induction L as [|e L IH]; [done|]. destruct e as [d p bs|d p bs|d p bs]; try done.
    cbn. rewrite Hg. apply IH. rewrite filter_cons_False in Ha by done. done. }
  apply (flowed_quiet _ _ L); try done; [by apply Hd; intros [] ? ?..|]. exists []. by rewrite Ha.
Qed.

Lemma flows_sc_ev {A} (f : sc_world -> option (A * sc_world)) rs :
  (∀ s x s', f s = Some (x, s') -> ∃ L, moves L s s' ∧ omap ev_handed L = [] ∧ omap ev_read L = [] ∧ answered L rs) ->
  flows rs (on_sc_val f).
Proof.
  intros Hf w a w' _ E. unfold on_sc_val in E. destruct (f (w_sc w)) as [[x s']|] eqn:Ef; [|done]. injection E as _ <-.
  destruct (Hf _ _ _ Ef) as (L & Hm & Hh & Hr & Ha). by apply (flowed_quiet _ _ L).
Qed.

Lemma flows_sc_val {A} (f : sc_world -> option (A * sc_world)) :
  (∀ s x s', f s = Some (x, s') -> moves [] s s') -> flows [] (on_sc_val f).
Proof.
  intros Hf. apply flows_sc_ev. intros s x s' E. exists []. split; [by eapply Hf|]. split; [done|].
  split; [done|apply answered_nil].
Qed.

Lemma flows_upd p f : keeps_rings f -> flows [] (upd_sc p f).
Proof. intros Hf. apply flows_sc. intros s s' E. exists []. split; [by eapply moves_update|done]. Qed.

Lemma flows_destroy p : flows [] (on_sc (aiopquic_stream_ctx_destroy p)).
Proof. apply flows_sc. intros s s'. apply moves_destroy. Qed.

Lemma flows_abandon p : flows [] (on_sc (aiopquic_stream_ctx_tx_abandon p)).
Proof. apply flows_sc. intros s s'. apply moves_abandon. Qed.

Lemma flows_nn p f : keeps_rings f -> flows [] (on_sc (sc_update_nn p f)).
Proof. intros Hf. apply flows_sc. intros s s' E. exists []. split; [by eapply moves_update_nn|done]. Qed.

Lemma flows_ref p : flows [] (on_sc (aiopquic_stream_ctx_ref p)).
Proof. by apply flows_nn. Qed.

Lemma flows_set_fin p : flows [] (upd_sc p (λ c, sc_set_rx (aiopquic_stream_buf_set_fin <$> sc_rx c) c)).
Proof. apply flows_sc. intros s s' E. exists []. split; [by eapply moves_set_fin|done]. Qed.

Lemma flows_g f : (∀ g, same_totals g (f g)) -> flows [] (on_g f).
Proof.
  intros Hf w a w' _ E. injection E as _ <-. apply (flowed_quiet _ _ []); try done; [|apply answered_nil].
  intros H. destruct (Hf (sw_g (w_sc w))) as [Hp Hd]. split; [done| |by cbn; rewrite ?Hp, ?Hd, Z.add_0_r..].
  intros Q HQ. by exists Q.
Qed.

Lemma flows_ensure_rx ev t cap p : env_ok ev -> 0 <= cap < 2 ^ 32 ->
  flows [] (on_sc_val (aiopquic_stream_ctx_ensure_rx (ev_buf ev t cap) cap p)).
Proof.
  intros Eok Hc. apply flows_sc_val. intros s x s'. apply moves_ensure_rx. by apply Eok.
Qed.

(** A wrapper's fields changed through [on_sc_val]. *)
Lemma flows_field {A} p (f : stream_ctx -> A * stream_ctx) :
  (∀ c, sc_tx (f c).2 = sc_tx c ∧ sc_rx (f c).2 = sc_rx c) ->
  flows [] (on_sc_val (λ s, c ← sw_scs s !! p; let (b, c) := f c in Some (b, ScWorld (<[p := c]> (sw_scs s)) (sw_g s)))).
Proof.
  intros Hf. apply flows_sc_val. intros s x s'. destruct (sw_scs s !! p) as [c|] eqn:E; [|done]. cbn [mbind option_bind].
  specialize (Hf c). destruct (f c) as [b c']. intros [= _ <-]. destruct Hf. by apply (moves_same _ _ c).
Qed.

Lemma flows_drain_take p : flows [] (drain_take p).
Proof. unfold drain_take. by apply (flows_field p (λ c, aiopquic_stream_ctx_tx_drain_take c)). Qed.
Lemma flows_event_arm p : flows [] (rx_event_pending_arm p).
Proof. unfold rx_event_pending_arm. by apply (flows_field p (λ c, aiopquic_stream_ctx_rx_event_pending_arm c)). Qed.

(** What is delivered: as much of it as there is room for. *)
Lemma flows_push_rx p to data : zlen data < 2 ^ 32 -> to = 0 ∨ p = to ->
  flows [Arrive to data] (sc_push_rx p data).
Proof.
  intros Hl Hto. unfold sc_push_rx. apply flows_sc_ev. intros s x s'.
  destruct (sw_scs s !! p) as [c|] eqn:E; [|done]. cbn [mbind option_bind].
  destruct (sc_rx c) as [rx|] eqn:Er; [|done]. cbn [mbind option_bind].
  destruct (aiopquic_stream_buf_push _ _) as [[n rx']|] eqn:Ep; [|done]. cbn [mbind option_bind]. intros [= <- <-].
  exists [EvIn Rx p (take (Z.to_nat n) data)]. split.
  { apply (moves_push s p c Rx rx data n rx'); try done. cbn. by rewrite Z.add_0_r. }
  split; [done|]. split; [done|]. apply answered_one; [|done]. split; [done|]. apply prefix_take.
Qed.

(** What Python reads. *)
Lemma rx_read_flowed p n w bs w' : sound w -> 0 <= n -> rx_read p n w = Some (bs, w') ->
  flowed (λ _, True) [ReadOf p n] [GotBytes bs] w w'.
Proof.
  intros [_ Hr] Hn E. unfold rx_read, on_sc_val in E. destruct (sw_scs (w_sc w) !! p) as [c|] eqn:Ec; [|done].
  cbn [mbind option_bind] in E. destruct (sc_rx c) as [rx|] eqn:Er; [|done]. cbn [mbind option_bind] in E.
  destruct (aiopquic_stream_buf_pop _ _) as [[bs' rx']|] eqn:Ep; [|done]. cbn [mbind option_bind] in E.
  injection E as -> <-. apply (flowed_quiet _ _ [EvOut Rx p bs]); try done.
  - by apply (moves_pop (w_sc w) p c Rx rx n bs rx').
  - apply answered_one; [|done]. split; [done|]. destruct (Hr p c Ec Rx rx Er) as (H & q & R).
    destruct (stream_buf_pop_spec rx H q n R Hn) as (? & E & _). rewrite E in Ep. injection Ep as <- _.
    rewrite length_take. lia.
Qed.

Lemma flows_create (ev : env) t : env_ok ev ->
  flows [] ((λ w, let (p, s) := aiopquic_stream_ctx_create (ev_sc ev t (sw_scs (w_sc w))) (w_sc w) in
                  Some (p, w_set_sc s w)) : M Z).
Proof.
  intros Eok w a w' _ E. pose proof (moves_create (w_sc w) _ (eo_sc _ Eok t (sw_scs (w_sc w)))) as Hm.
  destruct (aiopquic_stream_ctx_create _ _) as [p s]. injection E as _ <-.
  by apply (flowed_quiet _ _ []); try apply answered_nil.
Qed.

(** Python's sends. *)
Definition op_sends (o : sc_op) : list request :=
  match o with ScSend _ _ _ p data _ _ => [Submit p data] | _ => [] end.

Lemma flows_send x o : is_send x o -> flows (op_sends o) (on_sc (sc_step o)).
Proof.
  destruct o as [| | |a now during p data capacity fin| | |]; try done. intros (_ & Ha & ->) w y w' _ E.
  unfold on_sc in E. cbn [sc_step op_sends] in *.
  destruct (aiopquic_stream_ctx_send_data _ _ _ _ _ _ _ _) as [[[rc rs] s]|] eqn:Es; [|done].
  cbn [mbind option_bind] in E. injection E as _ <-. pose proof (moves_send _ _ _ _ _ _ _ _ _ _ Ha Es) as Hm.
  apply (flowed_quiet _ _ (send_events p data rc)); try done; unfold send_events; destruct (rc =? 1); try done;
    [by apply answered_one|apply answered_nil].
Qed.

Lemma on_sc_run_cons o ops w : on_sc (sc_run (o :: ops)) w = (on_sc (sc_step o) ;; on_sc (sc_run ops)) w.
Proof.
  unfold on_sc, mbind, M_bind, bind. cbn [sc_run]. destruct (sc_step o (w_sc w)) as [s|]; [|done].
  cbn [mbind option_bind w_sc w_set_sc]. by destruct (sc_run ops s).
Qed.

Lemma flows_race x race : Forall (is_send x) race -> flows (race ≫= op_sends) (on_sc (sc_run race)).
Proof.
  induction 1 as [|o race Ho _ IH]; [apply flows_still; intros w a w' [= _ <-]; by destruct w|].
  intros w a w' Hw E. rewrite on_sc_run_cons in E.
  exact (flows_from_app _ _ _ _ _ (flows_send x o Ho) (λ _, IH) _ _ _ Hw E).
Qed.

(** Bytes popped off a TX ring and written into the buffer that is a stream's. *)
Lemma pop_write ev p to n buf w bs w1 u w2 : sound w -> 0 <= n -> to = 0 ∨ p = to ->
  sc_pop_tx p n w = Some (bs, w1) -> pq_ ev (WriteBuf buf bs) w1 = Some (u, w2) -> flowed (eq true) [Ask to] [] w w2.
Proof.
  intros Hw Hn Hto E1 E2. apply pq_unit_some in E2 as [r ->]. unfold sc_pop_tx, on_sc_val in E1.
  destruct (sw_scs (w_sc w) !! p) as [c|] eqn:Ec; [|done]. cbn [mbind option_bind] in E1.
  destruct (sc_tx c) as [tx|] eqn:Et; [|done]. cbn [mbind option_bind] in E1.
  destruct (aiopquic_stream_buf_pop tx n) as [[bs' tx']|] eqn:Ep; [|done]. cbn [mbind option_bind] in E1.
  injection E1 as -> <-. split; [done|]. exists [EvOut Tx p bs], [(WriteBuf buf bs, r)].
  split_and!; [by apply (moves_pop (w_sc w) p c Tx tx n bs tx')|done|by intros b <-|done|by apply answered_one|].
  apply dgrams_quiet; [by intros b <-|done].
Qed.

Lemma flows_pop_write ev p to n buf : 0 <= n -> to = 0 ∨ p = to ->
  flows_from (eq true) [Ask to] (bs ← sc_pop_tx p n; pq_ ev (WriteBuf buf bs)).
Proof. intros Hn Ht w a w' Hw E. minv E. by eapply pop_write. Qed.

Lemma flows_pop_write_then {A} ev p to n buf (m : M A) : 0 <= n -> to = 0 ∨ p = to -> flows [] m ->
  flows_from (eq true) [Ask to] (bs ← sc_pop_tx p n; pq_ ev (WriteBuf buf bs) ;; m).
Proof.
  intros Hn Ht Hm w a w' Hw E.
  assert (E' : ((bs ← sc_pop_tx p n; pq_ ev (WriteBuf buf bs)) ;; m) w = Some (a, w')).
  { rewrite <- E. unfold mbind, M_bind, bind. by destruct (sc_pop_tx p n w) as [[]|]. }
  clear E. revert w a w' Hw E'. apply flows_bind_l; [by apply flows_pop_write|done].
Qed.

(** *** With a record at the head of a ring *)

(** [flows] from where the record at the head of the ring at [db] has length [n]. *)
Definition rec_at (db n : Z) (st : ring_store) : Prop :=
  n <> 0 ∧ ∃ b, rs_rings st !! db = Some b ∧ aiopquic_dgram_buf_peek_len b = Some n.

Definition flows_head (db n : Z) (B : bool -> Prop) {A} (m : M A) : Prop :=
  ∀ w a w', sound w -> rec_at db n (w_rs w) -> m w = Some (a, w') -> flowed B [] [] w w'.

Section head.
Context {A : Type} {db n : Z} {B : bool -> Prop}.

Lemma head_any (m : M A) : flows_from B [] m -> flows_head db n B m.
Proof using Type. intros Hm w a w' Hw _. by apply Hm. Qed.

Lemma head_if (c : bool) (m m' : M A) : flows_head db n B m -> flows_head db n B m' ->
  flows_head db n B (if c then m else m').
Proof using Type. by destruct c. Qed.

Lemma head_then {C} (m : M A) (k : A -> M C) : flows_head db n B m -> (∀ x, flows [] (k x)) ->
  flows_head db n B (x ← m; k x).
Proof using Type.
  intros Hm Hk w b w' Hw Hh E. minv E. pose proof (Hm _ _ _ Hw Hh E0) as F.
  exact (flowed_trans _ _ _ [] [] _ _ _ F (Hk _ _ _ _ (flowed_sound _ _ _ _ _ F Hw) E)).
Qed.

Lemma head_still {C} (m : M A) (k : A -> M C) : still m -> (∀ x, flows_head db n B (k x)) ->
  flows_head db n B (x ← m; k x).
Proof using Type.
  intros Hm Hk w b w' Hw Hh E. minv E. destruct (Hm _ _ _ E0) as (Ec & Es & Et & Er).
  assert (Hw1 : sound w0) by (unfold sound; by rewrite Ec, Es). rewrite <- Er in Hh.
  pose proof (Hk _ _ _ _ Hw1 Hh E) as F. unfold flowed in *. by rewrite Ec, Es, Et, Er in F.
Qed.
End head.

Lemma head_provide {A} ev c b db n (k : Z -> M A) : provided c = Some b ->
  (∀ buf, flows_head db n (eq b) (k buf)) -> flows_head db n (λ _, True) (buf ← pq ev c; k buf).
Proof.
  intros Hc Hk w a w' Hw Hh E. minv E. apply pq_some in E0 as [-> ->].
  eapply (flowed_provided c b _ [] w (w_set_trace (w_trace w ++ [(c, ev_pq ev (w_trace w) c)]) w)); [exact Hc|done..|].
  eapply Hk; [exact Hw|exact Hh|exact E].
Qed.

(** A peek finds no record, or one. *)
Lemma flows_peek_head {A} db (k : Z -> M A) : flows [] (k 0) -> (∀ n, flows_head db n (λ _, True) (k n)) ->
  flows [] (n ← (if db =? 0 then ret 0 else on_db db (λ b, n ← aiopquic_dgram_buf_peek_len b; Some (n, b))); k n).
Proof.
  intros H0 Hk. destruct (db =? 0); [exact H0|]. intros w a w' Hw E. minv E.
  assert (Hs : still (on_db db (λ b, n ← aiopquic_dgram_buf_peek_len b; Some (n, b)))).
  { apply still_on_db. intros b n b' E'. destruct (aiopquic_dgram_buf_peek_len b); [|done]. by injection E' as _ ->. }
  destruct (Z.eqb_spec x 0) as [->|Hx].
  { refine (flows_bind_still _ _ _ (λ _, k 0) Hs (λ _, H0) w a w' Hw _). clear - E0 E.
    set (pk := on_db db _) in *. unfold mbind, M_bind, bind. by rewrite E0. }
  unfold on_db in E0. destruct (rs_rings (w_rs w) !! db) as [b|] eqn:Eb; [|done]. cbn [mbind option_bind] in E0.
  destruct (aiopquic_dgram_buf_peek_len b) as [n|] eqn:En; [|done]. cbn [mbind option_bind] in E0. injection E0 as -> <-.
  rewrite insert_id in E by done. eapply (Hk x w); [done| |by destruct w as [? ? [] ? ? ? ?]].
  split; [done|by exists b].
Qed.

(** The record peeked at is popped, and written where it belongs. *)
Lemma head_pop_write {A} ev db n buf (m : M A) : flows [] m ->
  flows_head db n (eq false) (bs ← on_db db (λ b, aiopquic_dgram_buf_pop_into b n); pq_ ev (WriteBuf buf bs) ;; m).
Proof.
  intros Hm w a w' Hw (Hn & b & Eb & En) E. minv E. minv E. apply pq_unit_some in E1 as [r ->].
  unfold on_db in E0. rewrite Eb in E0. cbn [mbind option_bind] in E0.
  destruct (aiopquic_dgram_buf_pop_into b n) as [[bs b']|] eqn:Ep; [|done]. injection E0 as -> <-.
  match type of E with m ?w1 = _ => assert (F : flowed (eq false) [] [] w w1); [|
    exact (flowed_trans _ _ _ [] [] _ _ _ F (Hm w1 _ _ (flowed_sound _ _ _ _ _ F Hw) E))] end.
  split; [done|]. exists [], [(WriteBuf buf x, r)].
  split_and!; [apply moves_refl|done|by intros c <-|done|apply answered_nil|]. intros Q HQ.
  destruct (holds_at _ _ _ _ HQ Eb) as [H R]. destruct (Q db) as [|rec q] eqn:Eq.
  { rewrite (peek_empty R) in En by done. by injection En as <-. }
  rewrite (peek_cons R rec q) in En by done. injection En as <-.
  destruct (pop_cons R rec q eq_refl) as (b2 & Ep2 & _ & R2). rewrite Ep in Ep2. injection Ep2 as -> ->.
  exists [DgOut db rec], (set_recs db q Q).
  split_and!; [|by eapply holds_set|by intros c <-|done]. cbn [dgram_replay dgram_step].
  by rewrite Eq, bool_decide_true.
Qed.

(** ** Automation *)

Lemma flows_gets {A} (f : world -> A) : flows [] (gets f).
Proof. apply flows_still. by intros w a w' [= _ <-]. Qed.
Lemma flows_getb {A} (f : bridge -> A) : flows [] (getb f).
Proof. apply flows_still. by intros w a w' [= _ <-]. Qed.
Lemma flows_setb f : (∀ b, b_rx_data_ring_cap (f b) = b_rx_data_ring_cap b) -> flows [] (setb f).
Proof. intros Hf. apply flows_still. intros w a w' [= _ <-]. split; [apply Hf|done]. Qed.
Lemma flows_tick : flows [] next_tick.
Proof. apply flows_still. by intros w a w' [= _ <-]. Qed.
Lemma flows_read_sc {A} p (f : stream_ctx -> A) : flows [] (read_sc p f).
Proof. unfold read_sc. still_prim. Qed.

Create HintDb flows.
#[export] Hint Resolve flows_pq flows_pq_ flows_destroy flows_abandon flows_ref flows_drain_take flows_set_fin
  flows_event_arm flows_gets flows_getb flows_tick flows_read_sc flows_ensure_rx flows_create : flows.
#[export] Hint Extern 1 (writes_not _) => intros ? ? ?; reflexivity : flows.
#[export] Hint Extern 1 (flows_from _ _ (setb _)) => apply flows_any, flows_setb; intros ?; reflexivity : flows.
#[export] Hint Extern 1 (flows_from _ _ (count _)) => apply flows_any, flows_setb; intros ?; reflexivity : flows.
#[export] Hint Extern 1 (flows_from _ _ (count_n _ _)) => apply flows_any, flows_setb; intros ?; reflexivity : flows.
#[export] Hint Extern 1 (flows_from _ _ (set_cnt _ _)) => apply flows_any, flows_setb; intros ?; reflexivity : flows.
#[export] Hint Extern 1 (flows_from _ _ (upd_sc _ _)) => apply flows_any, flows_upd; intros ?; split; reflexivity : flows.
#[export] Hint Extern 1 (flows_from _ _ (on_sc (sc_update_nn _ _))) =>
  apply flows_any, flows_nn; intros ?; split; reflexivity : flows.
#[export] Hint Extern 1 (flows_from _ _ (on_g _)) => apply flows_any, flows_g; intros ?; split; reflexivity : flows.

Ltac flows_step :=
  match goal with
  | |- ∀ _, _ => intro
  | |- flows_from _ _ (mbind _ _) => apply flows_bind; [|intros]
  | |- flows_from _ _ (when _ _) => apply flows_when
  | |- flows_from _ _ (if _ then _ else _) => apply flows_if
  | |- flows_from _ _ (let '_ := ?x in _) => destruct x
  | |- flows_from _ _ (match ?x with _ => _ end) => destruct x
  | |- flows_from _ _ ub => apply flows_ub
  | |- flows_from _ _ _ => solve [eauto with flows]
  | |- flows_from _ _ _ => solve [apply flows_any; eauto with flows]
  | |- flows_from _ _ _ => progress cbn zeta
  end.
Ltac flows_tac := repeat flows_step.

(** The same, the requests left to [lem]. *)
Ltac flows_by lem := repeat first
  [apply flows_bind_l; [solve [eapply lem; eauto]|intros]|solve [eapply lem; eauto]|flows_step].

(** ** The raw bridge *)

Section pushes.
Context (ev : env).

Lemma flows_now : flows [] (aiopquic_now_ns ev).
Proof using Type. unfold aiopquic_now_ns. flows_tac. Qed.
Lemma flows_wake_write : flows [] (wake_write ev).
Proof using Type. unfold wake_write. flows_tac. still_prim. Qed.
Lemma flows_worker_trace k a b : flows [] (worker_trace_add ev k a b).
Proof using Type. unfold worker_trace_add. pose proof flows_now. flows_tac. still_prim. Qed.
Lemma flows_rx_push e data : flows [] (aiopquic_rx_push ev e data).
Proof using Type.
  unfold aiopquic_rx_push, aiopquic_notify_rx, ring_push_or_overflow. pose proof flows_wake_write.
  pose proof flows_worker_trace. flows_tac. still_prim.
Qed.
Lemma flows_fc_raw : flows [] (aiopquic_fc_raw_enabled ev).
Proof using Type. unfold aiopquic_fc_raw_enabled. flows_tac. still_prim. Qed.
End pushes.

#[export] Hint Resolve flows_now flows_wake_write flows_rx_push flows_fc_raw : flows.

Section prims.
Context (ev : env).

Lemma flows_tx_push e data : flows [] (tx_ring_push ev e data).
Proof using Type. unfold tx_ring_push. flows_tac. still_prim. Qed.
Lemma flows_tx_pop : flows [] tx_ring_pop.
Proof using Type. unfold tx_ring_pop. still_prim. Qed.
Lemma flows_tx_peek : flows [] tx_ring_peek.
Proof using Type. unfold tx_ring_peek. still_prim. Qed.
Lemma flows_refill : flows [] rx_refill.
Proof using Type. unfold rx_refill. still_prim. Qed.
Lemma flows_wake_read : flows [] wake_read.
Proof using Type. unfold wake_read. still_prim. Qed.
Lemma flows_asyncio_trace k a b : flows [] (asyncio_trace_add ev k a b).
Proof using Type. unfold asyncio_trace_add. flows_tac. still_prim. Qed.
Lemma flows_read_tx {A} p (f : stream_buf -> A) : flows [] (read_tx p f).
Proof using Type. unfold read_tx. still_prim. Qed.
Lemma flows_rx_field {A} p (f : stream_buf -> A) : flows [] (read_rx p f).
Proof using Type. unfold read_rx. still_prim. Qed.
Lemma flows_payload e : flows [] (payload e).
Proof using Type. unfold payload. still_prim. Qed.
Lemma flows_rx_log : flows [] (aiopquic_rx_log_enabled ev).
Proof using Type. unfold aiopquic_rx_log_enabled. flows_tac. still_prim. Qed.
End prims.

Lemma flows_unref p : flows [] (on_rs (λ st, rs_unref st p)).
Proof. apply flows_on_rs. intros st st'. apply frees_unref. Qed.
Lemma flows_addref p : flows [] (on_rs (λ st, rs_addref st p)).
Proof. apply flows_on_rs. intros st st'. apply frees_addref. Qed.
Lemma flows_db_take db : flows [] (on_db db (λ b, Some (aiopquic_dgram_buf_drain_take b))).
Proof. apply flows_on_db. intros b x b' H q [= _ <-]. apply db_rep_drain. Qed.
Lemma flows_db_drain db n : flows [] (on_db db (λ b, Some (tt, db_set_drain b n))).
Proof. apply flows_on_db. intros b x b' H q [= _ <-]. apply db_rep_drain. Qed.
Lemma flows_db_deferred db : flows [] (on_db db (λ b, Some (tt,
  db_set_consumer b (db_head b) (db_records_popped b) (db_bytes_popped b) (u64 (db_head_deferred b + 1))))).
Proof. apply flows_on_db. intros b x b' H q [= _ <-]. apply db_rep_counters. Qed.

#[export] Hint Resolve flows_unref flows_addref flows_db_take flows_db_drain flows_db_deferred
  flows_tx_push flows_tx_pop flows_tx_peek flows_refill flows_wake_read flows_asyncio_trace
  flows_read_tx flows_rx_field flows_payload flows_rx_log : flows.

Section helpers.
Context (ev : env).

Lemma flows_table_put cnx db : flows [] (table_put ev cnx db).
Proof using Type.
  unfold table_put. apply flows_bind; [flows_tac|]. intros t. apply flows_table_op. intros tb st rc tb2 st2. apply frees_put.
Qed.
Lemma flows_remove_ring cnx db : flows [] (table_remove_ring cnx db).
Proof using Type.
  apply flows_table_op. intros t st x t' st' E. destruct (aiopquic_dgram_table_remove_ring t st cnx db) as [[t1 st1]|] eqn:Er;
    [|done]. injection E as _ _ <-. by eapply frees_remove_ring.
Qed.
Lemma flows_remove cnx : flows [] (table_remove cnx).
Proof using Type. exact (flows_remove_ring cnx 0). Qed.
Lemma flows_drop cnx db : flows [] (aiopquic_dgram_ring_drop cnx db).
Proof using Type. unfold aiopquic_dgram_ring_drop. pose proof flows_remove_ring. flows_tac. Qed.
Lemma flows_offer tls names : flows [] (offer_alpns ev tls names).
Proof using Type. induction names; cbn [offer_alpns]; flows_tac. Qed.
Lemma flows_alive cnx : flows [] (aiopquic_cnx_is_alive ev cnx).
Proof using Type. unfold aiopquic_cnx_is_alive. flows_tac. Qed.
Lemma flows_closing cnx : flows [] (aiopquic_cnx_closing ev cnx).
Proof using Type. unfold aiopquic_cnx_closing. flows_tac. Qed.
Lemma flows_reason_hold cnx data len : flows [] (aiopquic_close_reason_hold ev cnx data len).
Proof using Type. unfold aiopquic_close_reason_hold. flows_tac. Qed.
Lemma flows_reason_drop cnx : flows [] (aiopquic_close_reason_drop cnx).
Proof using Type. unfold aiopquic_close_reason_drop. flows_tac. Qed.
Lemma flows_wake_needed : flows [] aiopquic_tx_wake_needed.
Proof using Type. unfold aiopquic_tx_wake_needed. flows_tac. Qed.
Lemma flows_wake_up : flows [] (wake_up_worker ev).
Proof using Type. unfold wake_up_worker. flows_tac. Qed.
Lemma flows_arm : flows [] (aiopquic_arm_tx_event_ring_drain_pending ev).
Proof using Type. unfold aiopquic_arm_tx_event_ring_drain_pending. flows_tac. Qed.
Lemma flows_is_local cnx id : flows [] (aiopquic_stream_is_local ev cnx id).
Proof using Type. unfold aiopquic_stream_is_local. flows_tac. Qed.
Lemma flows_can_send cnx id : flows [] (aiopquic_stream_can_send ev cnx id).
Proof using Type. unfold aiopquic_stream_can_send. pose proof flows_is_local. flows_tac. Qed.
Lemma flows_can_receive cnx id : flows [] (aiopquic_stream_can_receive ev cnx id).
Proof using Type. unfold aiopquic_stream_can_receive. pose proof flows_is_local. flows_tac. Qed.
Lemma flows_initial_window cnx id : flows [] (aiopquic_initial_rx_window ev cnx id).
Proof using Type. unfold aiopquic_initial_rx_window. flows_tac. Qed.
Lemma flows_ceiling cnx : flows [] (aiopquic_datagram_payload_ceiling ev cnx).
Proof using Type. unfold aiopquic_datagram_payload_ceiling. flows_tac. Qed.
Lemma flows_snapshot cnx : flows [] (aiopquic_cnx_snapshot_fill ev cnx).
Proof using Type. unfold aiopquic_cnx_snapshot_fill. pose proof flows_ceiling. flows_tac. Qed.
Lemma flows_reset_at cnx : flows [] (aiopquic_reset_stream_at_negotiated ev cnx).
Proof using Type. unfold aiopquic_reset_stream_at_negotiated. flows_tac. Qed.
Lemma flows_reliable_size cnx sc n : flows [] (aiopquic_reset_reliable_size ev cnx sc n).
Proof using Type. unfold aiopquic_reset_reliable_size. pose proof flows_reset_at. flows_tac. Qed.
Lemma flows_reset_reliable cnx id code n : flows [] (aiopquic_reset_stream_reliable ev cnx id code n).
Proof using Type. unfold aiopquic_reset_stream_reliable. flows_tac. Qed.
Lemma flows_deferred_free d : flows [] (aiopquic_deferred_reset_free d).
Proof using Type. unfold aiopquic_deferred_reset_free. flows_tac. Qed.
Lemma flows_drop_walk cnx ds : ∀ kept, flows [] (drop_walk kept ds cnx).
Proof using Type. pose proof flows_deferred_free. induction ds; intros kept; cbn [drop_walk]; flows_tac. Qed.
Lemma flows_drop_cnx cnx : flows [] (aiopquic_deferred_resets_drop_cnx cnx).
Proof using Type. unfold aiopquic_deferred_resets_drop_cnx. pose proof flows_drop_walk. flows_tac. Qed.
Lemma flows_defer cnx sc id code n preamble wt : flows [] (aiopquic_defer_reset ev cnx sc id code n preamble wt).
Proof using Type. unfold aiopquic_defer_reset. flows_tac. Qed.
Lemma flows_tx_release e : flows [] (aiopquic_tx_event_release e).
Proof using Type. unfold aiopquic_tx_event_release. flows_tac. Qed.
Lemma flows_tx_push_sc e data : flows [] (aiopquic_tx_push_sc ev e data).
Proof using Type. unfold aiopquic_tx_push_sc. flows_tac. Qed.
Lemma flows_rx_push_sc e data : flows [] (aiopquic_rx_push_sc ev e data).
Proof using Type. unfold aiopquic_rx_push_sc. flows_tac. Qed.
End helpers.

#[export] Hint Resolve flows_table_put flows_remove flows_drop flows_offer flows_alive flows_closing flows_reason_hold
  flows_reason_drop flows_wake_needed flows_wake_up flows_arm flows_is_local flows_can_send flows_can_receive
  flows_initial_window flows_snapshot flows_reliable_size flows_reset_reliable flows_deferred_free
  flows_drop_cnx flows_defer flows_tx_release flows_tx_push_sc flows_rx_push_sc : flows.

(** ** Python's calls *)

Section calls.
Context (ev : env).

Lemma flows_rx_take : flows [] rx_take.
Proof using Type. unfold rx_take. still_prim. Qed.
Lemma flows_clear_rx : flows [] (aiopquic_clear_rx ev).
Proof using Type. unfold aiopquic_clear_rx. flows_tac. Qed.
Lemma flows_fc_credit cnx id sc : flows [] (aiopquic_push_fc_credit ev cnx id sc).
Proof using Type. unfold aiopquic_push_fc_credit. flows_tac. Qed.
Lemma flows_flag p f : flows [] (sc_flag_step p f).
Proof using Type.
  destruct f as [|n|v|n|n|v|now|]; cbn [sc_flag_step]; flows_tac.
  all: apply flows_sc; intros s s' E; exists []; split; [|done].
  all: unfold aiopquic_stream_ctx_pending_add, aiopquic_stream_ctx_pending_sub in E.
  all: first [by eapply moves_update_nn; [|exact E]
             |case_match; [injection E as <-; apply moves_refl|by eapply moves_update; [|exact E]]].
Qed.
Lemma dgram_create_flowed p ok blk c m w r w' : rs_rings (w_rs w) !! p = None -> 0 <= c < 2 ^ 32 ->
  0 < m <= 2 ^ 30 - 4 -> (∀ bs, blk = Some bs -> zlen bs = dgram_capacity c m) ->
  dgram_create p ok blk c m w = Some (r, w') -> flowed (λ _, True) [] [] w w'.
Proof using Type.
  intros Hp Hc Hm Hb E. unfold dgram_create in E.
  destruct (dgram_create_cases ok blk (rs_alive (w_rs w)) c m Hc Hm Hb) as [E1|(b & H & E1 & _ & R)];
    rewrite E1 in E; injection E as _ <-; [apply flowed_still; try done; cbn; by destruct (w_rs w)|].
  apply flowed_rings; try done. intros Q HQ. exists [], Q. split_and!; try done.
  pose proof (HQ p) as Hq. rewrite Hp in Hq. apply (holds_same Q (w_rs w) p b H); [done|by rewrite Hq].
Qed.

(** What a push takes in, Python is told. *)
Definition queued (p : Z) (data : list Z) (rc : Z) : list py_result := if rc =? 1 then [Queued p data] else [].

Lemma dgram_push_flowed p data w rc w' : 0 < zlen data < 2 ^ 32 -> dgram_push p data w = Some (rc, w') ->
  flowed (λ _, True) [] (queued p data rc) w w'.
Proof using Type.
  intros Hl E. unfold dgram_push, on_db in E. destruct (rs_rings (w_rs w) !! p) as [b|] eqn:Eb; [|done].
  cbn [mbind option_bind] in E. destruct (aiopquic_dgram_buf_push_record [] b data) as [[[rc' os] b']|] eqn:Ep; [|done].
  injection E as -> <-. apply flowed_rings; try done; unfold queued; [|by case_match].
  intros Q HQ. destruct (holds_at _ _ _ _ HQ Eb) as [H R]. pose proof (push_record_rep _ _ _ _ _ _ _ R Hl Ep) as R'.
  destruct (rc =? 1).
  - exists [DgIn p data], (set_recs p (Q p ++ [data]) Q). split_and!; try done. by eapply holds_set.
  - exists [], Q. split_and!; try done. by eapply holds_same.
Qed.
Lemma flows_release_post cnx db : flows [] (aiopquic_dgram_ring_release_post ev cnx db).
Proof using Type. unfold aiopquic_dgram_ring_release_post. flows_tac. Qed.
Lemma flows_post_owed owed : flows [] (post_owed ev owed).
Proof using Type. pose proof flows_release_post. induction owed as [|[cnx db] owed IH]; cbn [post_owed]; flows_tac. Qed.
Lemma flows_flush_loop n : flows [] (flush_loop ev n).
Proof using Type. pose proof flows_post_owed. induction n; cbn [flush_loop]; flows_tac. Qed.
Lemma flows_flush : flows [] (aiopquic_dgram_ring_release_flush ev).
Proof using Type. unfold aiopquic_dgram_ring_release_flush. pose proof flows_flush_loop. flows_tac. Qed.
Lemma flows_release cnx db : flows [] (aiopquic_dgram_ring_release ev cnx db).
Proof using Type.
  unfold aiopquic_dgram_ring_release. pose proof flows_release_post. pose proof flows_flush. flows_tac.
Qed.
Lemma flows_alpn_tokens room : ∀ cursor arr, flows [] (alpn_tokens ev room cursor arr).
Proof using Type.
  induction room as [|room IH]; intros cursor arr; cbn [alpn_tokens]; [flows_tac|].
  destruct (aiopquic_alpn_next_token 256 cursor) as [[n tok] c]. flows_tac.
Qed.
Lemma flows_alpn csv : flows [] (aiopquic_ctx_set_alpn_list ev csv).
Proof using Type. unfold aiopquic_ctx_set_alpn_list. pose proof flows_alpn_tokens. flows_tac. Qed.
End calls.

(** ** picoquic's stream callback *)

Section stream.
Context {ev : env} (Eok : env_ok ev).

Lemma flows_fire_drained cnx id sc : flows [] (fire_stream_drained ev cnx id sc).
Proof using Type. unfold fire_stream_drained. flows_tac. Qed.

(** The pull: what it writes is what it pops. *)
Lemma flows_prepare_to_send x race cnx id bytes length p : Forall (is_send x) race ->
  flows ((race ≫= op_sends) ++ [Ask p]) (prepare_to_send ev race cnx id bytes length p).
Proof using Type.
  intros Hr. unfold prepare_to_send. pose proof flows_fire_drained. flows_step; [flows_tac|].
  flows_step; [flows_tac|]. apply flows_bind; [flows_tac|]. intros [sb|]; [|flows_tac].
  cbn zeta. apply flows_from_app; [by eapply flows_race|]. intros _. flows_step; [flows_tac|].
  flows_step; [still_prim|]. flows_step; [flows_tac|]. eapply flows_provide; [reflexivity|]. intros buf.
  apply flows_bind_l; [|flows_tac]. match goal with |- context [if ?c then _ else _] => destruct c eqn:Ec end.
  - apply andb_true_iff in Ec as [_ Ec%Z.gtb_lt]. apply flows_pop_write_then; [lia|by right|flows_tac].
  - apply flows_any. flows_tac.
Qed.

(** A record popped is written as a datagram. *)
Lemma flows_prepare_datagram cnx bytes length : flows [] (prepare_datagram ev cnx bytes length).
Proof using Type.
  unfold prepare_datagram. flows_step; [flows_tac|]. apply flows_bind; [still_prim|]. intros db. apply flows_peek_head.
  { cbn [Z.eqb]. flows_tac. }
  intros n. apply head_if; [apply head_any; flows_tac|]. apply head_if; [|apply head_any; flows_tac].
  apply head_still; [apply still_on_db; by intros b y b' [= _ <-]|]. intros used. cbn zeta.
  eapply head_provide; [reflexivity|]. intros buf. apply head_then; [|flows_tac].
  apply head_if; [|apply head_any, flows_ret]. apply head_pop_write. flows_tac.
Qed.
Lemma flows_close_codes fe cnx id e : flows [] (close_codes ev fe cnx id e).
Proof using Type. unfold close_codes. flows_tac. Qed.
(** The capacity a ring is made with. *)
Lemma advertised c d : 0 <= c < 2 ^ 32 -> 0 <= d < 2 ^ 32 -> 0 <= (if c >? 0 then c else d) < 2 ^ 32.
Proof using Type. by case_match. Qed.

(** The delivered bytes go to the stream's wrapper, or to the one made for them. *)
Lemma flows_rx_payload fe cnx id length data e :
  flows [Arrive (e_stream_ctx e) (take (Z.to_nat (u32 length)) data)] (rx_payload ev fe cnx id length data e).
Proof using Eok.
  unfold rx_payload. apply flows_cap. intros c Hc. cbn zeta.
  pose proof (advertised c AIOPQUIC_RX_DATA_RING_CAP_DEFAULT Hc ltac:(done)) as Hcap.
  set (cap := if c >? 0 then c else AIOPQUIC_RX_DATA_RING_CAP_DEFAULT) in *. clearbody cap.
  apply (flows_bind_post _ _ (λ sc, e_stream_ctx e = 0 ∨ sc = e_stream_ctx e)); [flows_tac| |].
  { intros w sc w' _ E. destruct (Z.eqb_spec (e_stream_ctx e) 0); [by left|right]. by injection E. }
  intros sc Hsc. assert (Hl : zlen (take (Z.to_nat (u32 length)) data) < 2 ^ 32).
  { rewrite length_take. pose proof (u32_range length). lia. }
  flows_by flows_push_rx.
Qed.
Lemma flows_push_failed b sc : flows [] (rx_push_failed ev b sc).
Proof using Type. unfold rx_push_failed. flows_tac. Qed.
Lemma flows_push_event fe cnx id bytes length data e :
  flows [Arrive (e_stream_ctx e) (take (Z.to_nat (u32 length)) data)] (push_event ev fe cnx id bytes length data e).
Proof using Eok. unfold push_event. pose proof flows_push_failed. flows_by flows_rx_payload. Qed.
Lemma close_codes_sc fe cnx id e w e' w' : close_codes ev fe cnx id e w = Some (e', w') -> e_stream_ctx e' = e_stream_ctx e.
Proof using Type.
  unfold close_codes. intros E.
  repeat match goal with
  | H : (_ ≫= _) _ = Some _ |- _ => minv H
  | H : ret _ _ = Some _ |- _ => injection H as <- <-
  | H : (match ?x with _ => _ end) _ = Some _ |- _ => destruct x
  end; done.
Qed.
Lemma flows_close_push fe cnx id bytes length data t sc :
  flows [Arrive sc (take (Z.to_nat (u32 length)) data)]
    (e ← close_codes ev fe cnx id (sc_entry t id cnx sc 0); push_event ev fe cnx id bytes length data e).
Proof using Eok.
  pose proof flows_close_codes.
  apply (flows_bind_post _ _ (λ e, e_stream_ctx e = sc)); [flows_tac|intros w e w' _ E; by apply close_codes_sc in E|].
  intros e <-. apply flows_push_event.
Qed.
Lemma flows_cb_open cnx id bytes length data fe sc :
  flows [Arrive sc (take (Z.to_nat (u32 length)) data)] (stream_cb_open ev cnx id bytes length data fe sc).
Proof using Eok. unfold stream_cb_open. pose proof flows_prepare_datagram. flows_by flows_close_push. Qed.
Lemma flows_stream_cb x race cnx id bytes length data fe sc : Forall (is_send x) race ->
  flows ((race ≫= op_sends) ++ [Ask sc; Arrive sc (take (Z.to_nat (u32 length)) data)])
    (aiopquic_stream_cb ev race cnx id bytes length data fe sc).
Proof using Eok.
  intros Hr. unfold aiopquic_stream_cb. flows_step; [flows_tac|]. flows_step.
  - eapply flows_sub; [by eapply flows_prepare_to_send|]. apply sublist_app; [done|]. by apply sublist_skip, sublist_cons.
  - eapply flows_sub; [|apply sublist_inserts_l, sublist_cons; reflexivity]. flows_by flows_cb_open.
Qed.
End stream.

(** ** The worker's loop *)

Section worker.
Context {ev : env} `{WtHandler}.
Context (Htx : ∀ e, flows [] (aiopquic_wt_handle_tx e)) (Hdr : ∀ d, flows [] (aiopquic_wt_deferred_reset d)).

Lemma flows_reattach cnx id sc rc : flows [] (aiopquic_stream_reattach_sc ev cnx id sc rc).
Proof using Type. unfold aiopquic_stream_reattach_sc. flows_tac. Qed.
Lemma flows_maybe_fire : flows [] (aiopquic_maybe_fire_tx_event_ring_drained ev).
Proof using Type. unfold aiopquic_maybe_fire_tx_event_ring_drained. flows_tac. Qed.
Lemma flows_entry_done : flows [] (tx_entry_done ev).
Proof using Type. unfold tx_entry_done. pose proof flows_maybe_fire. flows_tac. Qed.
Lemma flows_idle_arm : flows [] aiopquic_tx_worker_idle_arm.
Proof using Type. unfold aiopquic_tx_worker_idle_arm. flows_tac. Qed.
Lemma flows_loop_running : flows [] (loop_running ev).
Proof using Type. unfold loop_running. flows_tac. Qed.
Lemma flows_reset_fire d : flows [] (deferred_reset_fire ev d).
Proof using Hdr. unfold deferred_reset_fire. pose proof flows_reattach. flows_tac. Qed.
Lemma flows_walk sweep ds : ∀ kept, flows [] (deferred_walk ev sweep kept ds).
Proof using Hdr.
  pose proof flows_reset_fire. induction ds as [|d ds IH]; intros kept; cbn [deferred_walk]; flows_tac.
Qed.
Lemma flows_deferred : flows [] (aiopquic_run_deferred_resets ev).
Proof using Hdr. unfold aiopquic_run_deferred_resets. pose proof flows_walk. flows_tac. Qed.
Lemma flows_connect e : flows [] (tx_connect ev e).
Proof using Type. unfold tx_connect. flows_tac. still_prim. Qed.
Lemma flows_dispatch e : flows [] (tx_dispatch ev e).
Proof using Htx.
  pose proof flows_reattach. pose proof flows_connect.
  unfold tx_dispatch, tx_switch, tx_close, tx_stream_reset, tx_stop_sending, tx_mark_active, tx_open_flow_control,
    tx_set_app_flow_control, tx_mark_datagram_ready, tx_cnx_refresh, tx_set_stream_priority, tx_dead_cnx,
    tx_dgram_ring_release, tx_set_datagram_priority, aiopquic_stream_reattach.
  flows_tac. still_prim.
Qed.
Lemma flows_drain n : flows [] (tx_drain ev n).
Proof using Htx.
  pose proof flows_dispatch. pose proof flows_entry_done. induction n as [|n IH]; cbn [tx_drain]; flows_tac.
Qed.
Lemma flows_loop_cb n mode : flows [] (aiopquic_loop_cb ev n mode).
Proof using Htx Hdr.
  unfold aiopquic_loop_cb, loop_wake_up, aiopquic_tx_event_ring_drained_final. pose proof flows_loop_running.
  pose proof flows_drain. pose proof flows_deferred. pose proof flows_idle_arm. pose proof flows_maybe_fire.
  flows_tac.
Qed.
End worker.
