(* ===== verification/WtFlow.v ===== *)
(** * The bytes of a stream and datagrams, with WebTransport and in every run

    FlowCalls.v for the calls of the WebTransport half, and the theorems: over any run of
    the bridge the bytes written into the buffers picoquic gave for stream data are,
    stream by stream, those Python sent, in order; the records written into buffers for
    datagrams are, ring by ring, those its pushes took in, whole and in order. *)
From S2P Require Import Prelude Ring Store StreamBuf SpscRing EventChannel DgramBuf DgramTable.
From S2P Require Import StreamCtx WtState Bridge Alpn Callback World BridgeSafe StreamCb PySide System.
From S2P Require Import WtProto WtSession WtPath WtTx WtBudget WtRun WtSpec WtSafe WtCalls WtCmd WtEnd WtTotal.
From S2P Require Import WtAside WtDrain Teardown WtSystem StreamFlow DgramFlow Runs FlowCalls.

(** ** Primitives *)

Section prims.
Context (ev : env).

Lemma flows_read_s {A} s (f : wt_session -> A) : flows [] (read_s s f).
Proof using Type. unfold read_s. still_prim. Qed.
Lemma flows_read_link {A} l (f : wt_link -> A) : flows [] (read_link l f).
Proof using Type. unfold read_link. still_prim. Qed.
Lemma flows_put_obj p o : flows [] (put_obj p o).
Proof using Type. unfold put_obj. still_prim. Qed.
Lemma flows_upd_s s f : flows [] (upd_s s f).
Proof using Type. unfold upd_s. pose proof @flows_read_s. pose proof flows_put_obj. flows_tac. Qed.
Lemma flows_free_obj p : flows [] (free_obj p).
Proof using Type. unfold free_obj. still_prim. Qed.
Lemma flows_read_st {A} st (f : h3_stream -> A) : flows [] (read_st st f).
Proof using Type. unfold read_st. still_prim. Qed.
Lemma flows_upd_st st f : flows [] (upd_st st f).
Proof using Type. unfold upd_st. still_prim. Qed.
Lemma flows_read_px {A} p (f : h3_prefix -> A) : flows [] (read_px p f).
Proof using Type. unfold read_px. still_prim. Qed.
Lemma flows_upd_px p f : flows [] (upd_px p f).
Proof using Type. unfold upd_px. still_prim. Qed.
Lemma flows_read_h3 {A} h (f : h3_ctx -> A) : flows [] (read_h3 h f).
Proof using Type. unfold read_h3. still_prim. Qed.
Lemma flows_upd_h3 h f : flows [] (upd_h3 h f).
Proof using Type. unfold upd_h3. still_prim. Qed.

Lemma h3_some c w r w' : h3 ev c w = Some (r, w') ->
  rx_cap w' = rx_cap w ∧ w_sc w' = w_sc w ∧ w_trace w' = w_trace w ++ [(c, r)] ∧ w_rs w' = w_rs w.
Proof using Type. by intros [= <- <-]. Qed.

Lemma flows_h3 c : writes_not c -> flows [] (h3 ev c).
Proof using Type.
  intros Hc w r w' _ E. apply h3_some in E as (Ec & Es & Et & Er). by eapply flowed_call.
Qed.
Lemma flows_h3_ c : writes_not c -> flows [] (h3_ ev c).
Proof using Type. intros Hc. unfold h3_. apply flows_bind; [by apply flows_h3|]. intros. apply flows_ret. Qed.

Lemma flows_provide_h3 {A} c b s (k : Z -> M A) : provided c = Some b -> (∀ buf, flows_from (eq b) s (k buf)) ->
  flows s (buf ← h3 ev c; k buf).
Proof using Type.
  intros Hc Hk w a w' Hw E. minv E. apply h3_some in E0 as (Ec & Es & Et & Er).
  eapply flowed_provided; [exact Hc|exact Ec|exact Es|exact Et|exact Er|]. eapply Hk; [|exact E].
  unfold sound. by rewrite Ec, Es.
Qed.

Lemma head_provide_h3 {A} c b db n (k : Z -> M A) : provided c = Some b ->
  (∀ buf, flows_head db n (eq b) (k buf)) -> flows_head db n (λ _, True) (buf ← h3 ev c; k buf).
Proof using Type.
  intros Hc Hk w a w' Hw Hh E. minv E. apply h3_some in E0 as (Ec & Es & Et & Er).
  eapply flowed_provided; [exact Hc|exact Ec|exact Es|exact Et|exact Er|]. rewrite <- Er in Hh.
  eapply Hk; [|exact Hh|exact E]. unfold sound. by rewrite Ec, Es.
Qed.

Lemma flows_strdup src : flows [] (aiopquic_wt_strdup ev src).
Proof using Type. unfold aiopquic_wt_strdup. flows_tac. Qed.
Lemma flows_calloc : flows [] (wt_calloc ev).
Proof using Type. unfold wt_calloc. flows_tac. Qed.
Lemma flows_sc_create : env_ok ev -> flows [] (sc_create ev).
Proof using Type.
  intros Eok. unfold sc_create. apply flows_bind; [flows_tac|]. intros t. by apply flows_create.
Qed.
End prims.

#[export] Hint Resolve flows_read_s flows_read_link flows_put_obj flows_upd_s flows_free_obj flows_read_st flows_upd_st
  flows_read_px flows_upd_px flows_read_h3 flows_upd_h3 flows_h3 flows_h3_ flows_strdup flows_calloc flows_sc_create : flows.

(** ** Sessions *)

Section session.
Context {ev : env} (Eok : env_ok ev).

Lemma flows_session_create : flows [] (aiopquic_wt_session_create ev).
Proof using Type. unfold aiopquic_wt_session_create. flows_tac. Qed.
Lemma flows_drop_retry s : flows [] (aiopquic_wt_drop_retry s).
Proof using Type. unfold aiopquic_wt_drop_retry. flows_tac. Qed.
Lemma flows_session_destroy s : flows [] (aiopquic_wt_session_destroy ev s).
Proof using Type. unfold aiopquic_wt_session_destroy. pose proof flows_drop_retry. flows_tac. Qed.
Lemma flows_link_create s id : flows [] (aiopquic_wt_stream_link_create ev s id).
Proof using Eok. unfold aiopquic_wt_stream_link_create. flows_tac. Qed.
Lemma flows_link_destroy l : flows [] (aiopquic_wt_stream_link_destroy l).
Proof using Type. unfold aiopquic_wt_stream_link_destroy. flows_tac. Qed.
Lemma flows_resolve p : flows [] (aiopquic_wt_ctx_resolve p).
Proof using Type. unfold aiopquic_wt_ctx_resolve. flows_step; [flows_tac|still_prim]. Qed.
Lemma flows_ensure_link s l st id : flows [] (aiopquic_wt_ensure_link ev s l st id).
Proof using Eok. unfold aiopquic_wt_ensure_link. pose proof flows_link_create. flows_tac. Qed.
Lemma flows_push_with_sc s t id sc fin : flows [] (aiopquic_wt_push_event_with_sc ev s t id sc fin).
Proof using Type. unfold aiopquic_wt_push_event_with_sc. flows_tac. Qed.
Lemma flows_wt_push_event s t id code data : flows [] (aiopquic_wt_push_event ev s t id code data).
Proof using Type. unfold aiopquic_wt_push_event. flows_tac. Qed.
Lemma flows_push_close s t code reason source : flows [] (aiopquic_wt_push_close ev s t code reason source).
Proof using Type. unfold aiopquic_wt_push_close. flows_tac. Qed.
Lemma flows_push_new s id sc : flows [] (aiopquic_wt_push_new_stream ev s id sc).
Proof using Type. unfold aiopquic_wt_push_new_stream. flows_tac. Qed.
Lemma flows_push_destroy s id : flows [] (aiopquic_wt_push_stream_destroy ev s id).
Proof using Type. unfold aiopquic_wt_push_stream_destroy. flows_tac. Qed.
Lemma flows_push_link s id l : flows [] (aiopquic_wt_push_link_release ev s id l).
Proof using Type. unfold aiopquic_wt_push_link_release. flows_tac. Qed.
Lemma flows_push_created s id sc code : flows [] (aiopquic_wt_push_stream_created ev s id sc code).
Proof using Type. unfold aiopquic_wt_push_stream_created. flows_tac. Qed.
Lemma flows_maybe_close s cnx : flows [] (aiopquic_wt_maybe_close_cnx ev s cnx).
Proof using Type. unfold aiopquic_wt_maybe_close_cnx. flows_tac. Qed.
Lemma flows_peer_fin s cnx : flows [] (aiopquic_wt_peer_fin ev s cnx).
Proof using Type. unfold aiopquic_wt_peer_fin. pose proof flows_maybe_close. flows_tac. Qed.
Lemma flows_fin_sent s cnx : flows [] (aiopquic_wt_fin_sent ev s cnx).
Proof using Type. unfold aiopquic_wt_fin_sent. pose proof flows_maybe_close. flows_tac. Qed.
Lemma flows_find_prefix ps : flows [] (find_wt_prefix ps).
Proof using Type. induction ps; cbn [find_wt_prefix]; flows_tac. Qed.
Lemma flows_wakeup cnx h client : flows [] (wt_app_wakeup ev cnx h client).
Proof using Type. unfold wt_app_wakeup, aiopquic_wt_client_session. pose proof flows_find_prefix. flows_tac. Qed.
Lemma flows_cause cnx event : flows [] (close_cause ev cnx event).
Proof using Type. unfold close_cause. flows_tac. Qed.
Lemma flows_close_session cnx client final code source reason s :
  flows [] (close_session ev cnx client final code source reason s).
Proof using Type. unfold close_session. pose proof flows_push_close. flows_tac. Qed.
Lemma flows_close_sessions cnx client final code source reason ps :
  flows [] (close_sessions ev cnx client final code source reason ps).
Proof using Type. pose proof flows_close_session. induction ps; cbn [close_sessions]; flows_tac. Qed.
Lemma flows_ended cnx h client event : flows [] (wt_cnx_ended ev cnx h client event).
Proof using Type.
  unfold wt_cnx_ended. pose proof flows_cause. pose proof flows_close_sessions. flows_tac.
Qed.
Lemma flows_cnx_cb cnx id bytes length event ctx st : flows [] (aiopquic_wt_cnx_cb ev cnx id bytes length event ctx st).
Proof using Type. unfold aiopquic_wt_cnx_cb. pose proof flows_wakeup. pose proof flows_ended. flows_tac. Qed.
Lemma flows_retry s cnx st : flows [] (aiopquic_wt_retry_connect ev s cnx st).
Proof using Type.
  unfold aiopquic_wt_retry_connect, retry_connect_go, unhook_connect, second_connect.
  pose proof flows_drop_retry. pose proof flows_wt_push_event. flows_tac.
Qed.
End session.

#[export] Hint Resolve flows_session_create flows_drop_retry flows_session_destroy flows_link_create flows_link_destroy
  flows_resolve flows_ensure_link flows_push_with_sc flows_wt_push_event flows_push_close flows_push_new flows_push_destroy
  flows_push_link flows_push_created flows_maybe_close flows_peer_fin flows_fin_sent flows_cnx_cb flows_retry : flows.

(** ** h3zero's callbacks *)

Section path.
Context {ev : env} (Eok : env_ok ev).

Lemma flows_accepted s cnx st : flows [] (cb_connect_accepted ev s cnx st).
Proof using Type. unfold cb_connect_accepted. flows_tac. Qed.
Lemma flows_refused s cnx st : flows [] (cb_connect_refused ev s cnx st).
Proof using Type. unfold cb_connect_refused. flows_tac. Qed.
Lemma flows_cb_drain s : flows [] (cb_drain ev s).
Proof using Type. unfold cb_drain. flows_tac. Qed.
Lemma flows_announce s code msg : flows [] (announce_closed ev s code msg).
Proof using Type. unfold announce_closed. flows_tac. Qed.
Lemma flows_capsule s cnx data : flows [] (receive_capsule ev s cnx data).
Proof using Type. unfold receive_capsule. flows_tac. Qed.
Lemma flows_control_data s cnx data : flows [] (cb_control_data ev s cnx data).
Proof using Type. unfold cb_control_data. pose proof flows_capsule. pose proof flows_announce. flows_tac. Qed.
Lemma flows_control_fin s cnx length data : flows [] (cb_control_fin ev s cnx length data).
Proof using Type. unfold cb_control_fin. pose proof flows_capsule. pose proof flows_announce. flows_tac. Qed.
Lemma flows_cb_reset s cnx st sid b : flows [] (cb_reset ev s cnx st sid b).
Proof using Type. unfold cb_reset. flows_tac. Qed.
Lemma flows_cb_stop s cnx st sid b : flows [] (cb_stop_sending ev s cnx st sid b).
Proof using Type. unfold cb_stop_sending. flows_tac. Qed.
Lemma flows_cb_deregister s : flows [] (cb_deregister ev s).
Proof using Type. unfold cb_deregister. flows_tac. Qed.
Lemma flows_cb_free s link st sid b : flows [] (cb_free ev s link st sid b).
Proof using Type. unfold cb_free. flows_tac. Qed.
Lemma flows_rx_ring link cnx sid cap : 0 <= cap < 2 ^ 32 -> flows [] (wt_rx_ring ev link cnx sid cap).
Proof using Eok. intros Hc. unfold wt_rx_ring. flows_tac. Qed.
Lemma advertised_cap w c w' : sound w -> rx_advertise_cap w = Some (c, w') -> 0 <= c < 2 ^ 32.
Proof using Type. intros [Hc _] [= <- _]. by apply advertised. Qed.
Lemma flows_advertise : flows [] rx_advertise_cap.
Proof using Type. unfold rx_advertise_cap. flows_tac. Qed.
Lemma flows_rx_store sc length data : flows [Arrive 0 (take (Z.to_nat (u32 length)) data)] (wt_rx_store sc length data).
Proof using Type.
  unfold wt_rx_store. assert (Hl : zlen (take (Z.to_nat (u32 length)) data) < 2 ^ 32).
  { rewrite length_take. pose proof (u32_range length). lia. }
  flows_by flows_push_rx.
Qed.
Lemma flows_stream_data s link cnx st sid length data :
  flows [Arrive 0 (take (Z.to_nat (u32 length)) data)] (cb_stream_data ev s link cnx st sid length data).
Proof using Eok.
  unfold cb_stream_data. pose proof flows_rx_ring. flows_step; [flows_tac|]. flows_step. flows_step; [flows_tac|].
  apply (flows_bind_post _ _ (λ c, 0 <= c < 2 ^ 32)); [apply flows_advertise|exact advertised_cap|].
  flows_by flows_rx_store.
Qed.
Lemma flows_stream_fin s link cnx st sid length data :
  flows [Arrive 0 (take (Z.to_nat (u32 length)) data)] (cb_stream_fin ev s link cnx st sid length data).
Proof using Eok.
  unfold cb_stream_fin. pose proof flows_rx_ring. flows_step; [flows_tac|]. flows_step. flows_step; [flows_tac|].
  apply (flows_bind_post _ _ (λ c, 0 <= c < 2 ^ 32)); [apply flows_advertise|exact advertised_cap|].
  intros cap Hcap. apply flows_bind; [by apply flows_rx_ring|]. intros [[sc rx_first]|]; [|flows_tac].
  apply flows_bind_l; [|flows_tac]. flows_by flows_rx_store.
Qed.
Lemma flows_wt_drained s sid sc : flows [] (wt_fire_drained ev s sid sc).
Proof using Type. unfold wt_fire_drained. flows_tac. Qed.

(** The pull: what it writes is what it pops. *)
Lemma flows_provide_data x race s link sid bytes length : Forall (is_send x) race ->
  flows ((race ≫= op_sends) ++ [Ask 0]) (cb_provide_data ev race s link sid bytes length).
Proof using Type.
  intros Hr. unfold cb_provide_data. pose proof flows_wt_drained. flows_step; [flows_tac|].
  apply flows_bind; [flows_tac|]. intros [sb|]; [|flows_tac]. cbn zeta.
  apply flows_from_app; [by eapply flows_race|]. intros _. flows_step; [flows_tac|].
  flows_step; [still_prim|]. flows_step; [flows_tac|]. eapply flows_provide; [reflexivity|]. intros buf.
  apply flows_bind_l; [|flows_tac]. unfold when. match goal with |- context [if ?c then _ else _] => destruct c eqn:Ec end.
  - apply andb_true_iff in Ec as [_ Ec%Z.gtb_lt]. apply flows_pop_write; [lia|by left].
  - apply flows_ret.
Qed.

Lemma flows_provide_datagram s cnx bytes length : flows [] (cb_provide_datagram ev s cnx bytes length).
Proof using Type.
  unfold cb_provide_datagram. apply flows_bind; [flows_tac|]. intros db. apply flows_peek_head.
  { cbn [Z.eqb]. flows_tac. }
  intros n. apply head_if; [apply head_any; flows_tac|]. apply head_if; [apply head_any; flows_tac|].
  apply head_still; [apply still_on_db; by intros b y b' [= _ <-]|]. intros used. cbn zeta.
  eapply head_provide_h3; [reflexivity|]. intros buf. apply head_then; [|flows_tac].
  apply head_if; [|apply head_any, flows_ret]. apply head_pop_write. flows_tac.
Qed.

(** What is asked of a callback: the racing sends, then a pull or a delivery. *)
Definition cb_asks (race : list sc_op) (p length : Z) (data : list Z) : list request :=
  (race ≫= op_sends) ++ [Ask p; Arrive p (take (Z.to_nat (u32 length)) data)].

Lemma cb_asks_pull race p length data : (race ≫= op_sends) ++ [Ask p] `sublist_of` cb_asks race p length data.
Proof using Type. apply sublist_app; [done|]. by apply sublist_skip, sublist_cons. Qed.
Lemma cb_asks_arrive race p length data :
  [Arrive p (take (Z.to_nat (u32 length)) data)] `sublist_of` cb_asks race p length data.
Proof using Type. apply sublist_inserts_l, sublist_cons. done. Qed.

Lemma flows_path_callback x race cnx bytes length data event st ctx : Forall (is_send x) race ->
  flows (cb_asks race 0 length data) (aiopquic_wt_path_callback ev race cnx bytes length data event st ctx).
Proof using Eok.
  intros Hr. unfold aiopquic_wt_path_callback, path_switch, cb_post_datagram.
  pose proof flows_accepted. pose proof flows_refused. pose proof flows_cb_drain. pose proof flows_control_data.
  pose proof flows_control_fin. pose proof flows_cb_reset. pose proof flows_cb_stop. pose proof flows_cb_deregister.
  pose proof flows_cb_free. pose proof flows_provide_datagram.
  apply flows_bind; [flows_tac|]. intros [[s link]|]; [|flows_tac]. flows_step; [flows_tac|].
  do 2 (flows_step; [flows_tac|]). destruct event; try flows_tac.
  - eapply flows_sub; [apply flows_stream_data|apply cb_asks_arrive].
  - eapply flows_sub; [apply flows_stream_fin|apply cb_asks_arrive].
  - eapply flows_sub; [by eapply flows_provide_data|apply cb_asks_pull].
Qed.

(** A deregister moves no bytes. *)
Lemma flows_path_deregister cnx ctx :
  flows [] (aiopquic_wt_path_callback ev [] cnx 0 0 [] picohttp_callback_deregister 0 ctx).
Proof using Type. unfold aiopquic_wt_path_callback, path_switch. pose proof flows_cb_deregister. flows_tac. Qed.

Lemma flows_select st supported : flows [] (wt_select_protocol ev st supported).
Proof using Type. unfold wt_select_protocol. flows_tac. still_prim. Qed.
Lemma flows_accept cnx h st sel path : flows [] (accept_session ev cnx h st sel path).
Proof using Type. unfold accept_session. flows_tac. Qed.

Lemma flows_server x race cnx bytes length path event st : Forall (is_send x) race ->
  flows (cb_asks race 0 length path) (aiopquic_wt_server_path_callback ev race cnx bytes length path event st).
Proof using Eok.
  intros Hr. unfold aiopquic_wt_server_path_callback. pose proof flows_select. pose proof flows_accept.
  pose proof (flows_path_callback x race) as Hp. flows_tac.
Qed.
End path.

(** ** Commands *)

Section commands.
Context {ev : env} (Eok : env_ok ev).

Lemma flows_wt_reset cnx st code : flows [] (aiopquic_wt_reset_stream ev cnx st code).
Proof using Type. unfold aiopquic_wt_reset_stream. flows_tac. Qed.
Lemma flows_wt_reattach cnx st : flows [] (aiopquic_wt_stream_reattach ev cnx st).
Proof using Type. unfold aiopquic_wt_stream_reattach. flows_tac. Qed.
Lemma flows_stream_link st : flows [] (stream_link st).
Proof using Type. unfold stream_link. flows_tac. still_prim. Qed.
Lemma flows_stream_sc s st : flows [] (aiopquic_wt_stream_sc s st).
Proof using Type. unfold aiopquic_wt_stream_sc. pose proof flows_stream_link. flows_tac. Qed.
Lemma flows_preamble cnx st : flows [] (wt_preamble ev cnx st).
Proof using Type. unfold wt_preamble. flows_tac. Qed.
Lemma flows_wt_reliable cnx st code pre n : flows [] (aiopquic_wt_reset_stream_reliable ev cnx st code pre n).
Proof using Type. unfold aiopquic_wt_reset_stream_reliable. flows_tac. Qed.
Lemma flows_wt_deferred d : flows [] (wt_deferred_reset ev d).
Proof using Type. unfold wt_deferred_reset. pose proof flows_wt_reliable. pose proof flows_wt_reattach. flows_tac. Qed.
Lemma flows_keep_retry s sni path protocols : flows [] (keep_retry ev s sni path protocols).
Proof using Type. unfold keep_retry. flows_tac. Qed.
Lemma flows_open_connect s cnx h control cp sni path protocols :
  flows [] (open_connect ev s cnx h control cp sni path protocols).
Proof using Type. unfold open_connect. pose proof flows_keep_retry. flows_tac. Qed.
Lemma flows_open s e : flows [] (tx_wt_open ev s e).
Proof using Type. unfold tx_wt_open. pose proof flows_open_connect. flows_tac; still_prim. Qed.
Lemma flows_create_stream s e : flows [] (tx_wt_create_stream ev s e).
Proof using Eok. unfold tx_wt_create_stream. flows_tac. Qed.
Lemma flows_no_control s : flows [] (no_control s).
Proof using Type. unfold no_control. flows_tac. Qed.
Lemma flows_no_cnx s : flows [] (no_cnx s).
Proof using Type. unfold no_cnx. flows_tac. Qed.
Lemma flows_wt_close s e : flows [] (tx_wt_close ev s e).
Proof using Type. unfold tx_wt_close. pose proof flows_no_control. flows_tac. Qed.
Lemma flows_wt_fin s : flows [] (tx_wt_fin ev s).
Proof using Type. unfold tx_wt_fin. pose proof flows_no_control. flows_tac. Qed.
Lemma flows_wt_drain s : flows [] (tx_wt_drain ev s).
Proof using Type. unfold tx_wt_drain. pose proof flows_no_control. flows_tac. Qed.
Lemma flows_reset_go s cnx st e sc : flows [] (wt_reset_go ev s cnx st e sc).
Proof using Type.
  unfold wt_reset_go. pose proof flows_wt_reset. pose proof flows_preamble. pose proof flows_wt_reliable.
  pose proof flows_wt_reattach. flows_tac.
Qed.
Lemma flows_wt_reset_stream s e : flows [] (tx_wt_reset_stream ev s e).
Proof using Type.
  unfold tx_wt_reset_stream. pose proof flows_no_cnx. pose proof flows_stream_sc. pose proof flows_reset_go. flows_tac.
Qed.
Lemma flows_mark_ready s e : flows [] (tx_mark_wt_datagram_ready ev s e).
Proof using Type. unfold tx_mark_wt_datagram_ready. pose proof flows_no_cnx. flows_tac. Qed.
Lemma flows_stream_priority s e : flows [] (tx_wt_set_stream_priority ev s e).
Proof using Type. unfold tx_wt_set_stream_priority. pose proof flows_no_cnx. flows_tac. Qed.
Lemma flows_datagram_priority s e : flows [] (tx_wt_set_datagram_priority ev s e).
Proof using Type. unfold tx_wt_set_datagram_priority. pose proof flows_no_cnx. flows_tac. Qed.
Lemma flows_wt_stop s e : flows [] (tx_wt_stop_sending ev s e).
Proof using Type. unfold tx_wt_stop_sending. pose proof flows_no_cnx. pose proof flows_wt_reattach. flows_tac. Qed.
Lemma flows_release_link s st link sc : flows [] (release_link ev s st link sc).
Proof using Type. unfold release_link. flows_tac. Qed.
Lemma flows_cleanup_stream s cnx st : flows [] (cleanup_stream ev s cnx st).
Proof using Type. unfold cleanup_stream. pose proof flows_wt_reset. pose proof flows_wt_reattach. flows_tac. Qed.
Lemma flows_release_walk reset s cnx sts : flows [] (release_walk ev reset s cnx sts).
Proof using Type.
  pose proof flows_stream_link. pose proof flows_cleanup_stream. pose proof flows_release_link.
  induction sts; cbn [release_walk]; flows_tac.
Qed.
Lemma flows_cleanup s : flows [] (tx_wt_session_cleanup ev s).
Proof using Type. unfold tx_wt_session_cleanup, wt_cleanup_done. pose proof flows_release_walk. flows_tac. Qed.
Lemma flows_deregisters cnx ctxs : flows [] (run_deregisters ev cnx ctxs).
Proof using Eok.
  pose proof (@flows_path_deregister ev). induction ctxs; cbn [run_deregisters]; flows_tac.
Qed.
Lemma flows_reentrant cnx c : writes_not c -> flows [] (h3_reentrant ev cnx c).
Proof using Eok. intros Hc. unfold h3_reentrant. pose proof flows_deregisters. flows_tac. Qed.
Lemma flows_wt_deregister s : flows [] (tx_wt_deregister ev s).
Proof using Eok.
  unfold tx_wt_deregister, deregister_go. pose proof flows_release_walk. pose proof flows_reentrant. flows_tac.
Qed.
Lemma flows_handle_tx e : flows [] (wt_handle_tx ev e).
Proof using Eok.
  unfold wt_handle_tx. pose proof flows_open. pose proof flows_create_stream. pose proof flows_wt_close.
  pose proof flows_wt_fin. pose proof flows_wt_drain. pose proof flows_wt_reset_stream. pose proof flows_mark_ready.
  pose proof flows_stream_priority. pose proof flows_datagram_priority. pose proof flows_wt_stop.
  pose proof flows_cleanup. pose proof flows_wt_deregister. flows_tac.
Qed.

(** The dispatch of a new connection. *)
Lemma flows_announce_cnx cnx h : flows [] (aiopquic_dispatch_announce ev cnx h).
Proof using Type. unfold aiopquic_dispatch_announce. flows_tac. Qed.
Lemma flows_bootstrap cnx params : flows [] (h3_bootstrap ev cnx params).
Proof using Type. unfold h3_bootstrap. flows_tac. Qed.
Lemma flows_server_bootstrap cnx id bytes length event ctx st :
  flows [] (aiopquic_wt_server_bootstrap_cb ev cnx id bytes length event ctx st).
Proof using Type. unfold aiopquic_wt_server_bootstrap_cb. pose proof flows_bootstrap. flows_tac. Qed.
Lemma flows_dispatch_cb x race cnx id bytes length data event p : Forall (is_send x) race ->
  flows (cb_asks race p length data) (aiopquic_dispatch_cb ev race cnx id bytes length data event p).
Proof using Eok.
  intros Hr. unfold aiopquic_dispatch_cb. pose proof flows_bootstrap. pose proof flows_announce_cnx.
  pose proof (flows_stream_cb Eok x race) as Hs. flows_tac.
Qed.
End commands.

(** ** Runs *)

(** What is asked of a call. *)
Definition requests (o : wt_op) : list request :=
  match o with
  | OpRaw (PySc o) => op_sends o
  | OpRaw (PyRead p n) => [ReadOf p n]
  | OpRaw (WkStream race _ _ _ length data _ p) | OpDispatch race _ _ _ length data _ p =>
      cb_asks race p length data
  | OpCallback (WtPath race _ _ length data _ _ _) | OpCallback (WtServer race _ _ length data _ _) =>
      cb_asks race 0 length data
  | _ => []
  end.

(** What Python is told in it. *)
Definition results_of (o : wt_op) (s : sys) : list py_result :=
  match o with
  | OpRaw (PyRead p n) => match rx_read p n (y_w s) with Some (bs, _) => [GotBytes bs] | None => [] end
  | OpRaw (PyRecord p data) => match dgram_push p data (y_w s) with Some (rc, _) => queued p data rc | None => [] end
  | _ => []
  end.

(** A run, the calls it made, each within its contract, and what Python was told. *)
Inductive wt_run (ev : env) (N : Z) (s0 : sys) : list wt_op -> list py_result -> sys -> Prop :=
  | wt_run_start : wt_run ev N s0 [] [] s0
  | wt_run_next ops res s o s' : wt_run ev N s0 ops res s -> wt_op_ok ev N o s ->
      wt_sys_step ev o s = Some s' -> wt_run ev N s0 (ops ++ [o]) (res ++ results_of o s) s'.

(** [flows] for a step of the system. *)
Definition sys_flows (rs : list request) (res : list py_result) (s : sys) (r : option sys) : Prop := ∀ s',
  sound (y_w s) -> r = Some s' -> flowed (λ _, True) rs res (y_w s) (y_w s').

Lemma run_flows {A} rs s (m : M A) k : flows rs m -> (∀ a w, y_w (k a w) = w) -> sys_flows rs [] s (s_run s m k).
Proof.
  intros Hm Hk s' Hw E. unfold s_run in E. destruct (m (y_w s)) as [[a w]|] eqn:Em; [|done].
  cbn [mbind option_bind] in E. injection E as <-. rewrite Hk. by eapply Hm.
Qed.

Section runs.
Context {ev : env} (Eok : env_ok ev) (N : Z).

Lemma flows_loop n mode : flows [] (aiopquic_loop_cb (H := wt_handler ev) ev n mode).
Proof using Eok.
  apply flows_loop_cb; cbn; [exact (flows_handle_tx Eok)|exact flows_wt_deferred].
Qed.

(** Python's calls on a wrapper. *)
Lemma sc_flows o s : op_ok ev (PySc o) s ->
  sys_flows (op_sends o) [] s (sys_step (H := wt_handler ev) ev (PySc o) s).
Proof using Type.
  cbn [op_ok sys_step]. intros [_ Ho]. destruct o as [p|p|p|a now during p data capacity fin| | |]; try done.
  - unfold s_run, on_sc. cbn [sc_step mbind option_bind]. intros s' _ [= <-]. cbn [y_w].
    apply (flowed_quiet _ _ []); try done; [|apply answered_nil].
    apply moves_create. destruct Ho as [?|Hl]; [by left|right]. unfold is_live in Hl. by destruct (_ !! p).
  - by apply run_flows; [apply flows_ref|].
  - by apply run_flows; [apply flows_destroy|].
  - by apply run_flows; [eapply flows_send|].
Qed.

Lemma read_flows p n s : op_ok ev (PyRead p n) s ->
  sys_flows [ReadOf p n] (results_of (OpRaw (PyRead p n)) s) s (sys_step (H := wt_handler ev) ev (PyRead p n) s).
Proof using Type.
  cbn [op_ok sys_step results_of]. intros (_ & Hn & _) s' Hw E. unfold s_run in E.
  destruct (rx_read p n (y_w s)) as [[bs w]|] eqn:Er; [|done]. cbn [mbind option_bind] in E. injection E as <-.
  apply rx_read_flowed; [done|lia|exact Er].
Qed.

Lemma push_flows p data s : op_ok ev (PyRecord p data) s ->
  sys_flows [] (results_of (OpRaw (PyRecord p data)) s) s (sys_step (H := wt_handler ev) ev (PyRecord p data) s).
Proof using Type.
  cbn [op_ok sys_step results_of]. intros (_ & Hl) s' Hw E. unfold s_run in E.
  destruct (dgram_push p data (y_w s)) as [[rc w]|] eqn:Er; [|done]. cbn [mbind option_bind] in E. injection E as <-.
  by apply dgram_push_flowed.
Qed.

Lemma ring_flows p ok blk c m s : op_ok ev (PyRing p ok blk c m) s ->
  sys_flows [] [] s (sys_step (H := wt_handler ev) ev (PyRing p ok blk c m) s).
Proof using Type.
  cbn [op_ok sys_step]. intros (_ & Hp & Hc & Hm & Hb) s' Hw E. unfold s_run in E.
  destruct (dgram_create p ok blk c m (y_w s)) as [[r w]|] eqn:Er; [|done]. cbn [mbind option_bind] in E.
  injection E as <-. by eapply dgram_create_flowed.
Qed.

Lemma raw_flows o s : wt_op_ok ev N (OpRaw o) s ->
  sys_flows (requests (OpRaw o)) (results_of (OpRaw o) s) s (wt_sys_step ev (OpRaw o) s).
Proof using Eok.
  intros Ho. cbn [wt_sys_step].
  destruct o; try (by apply sc_flows); try (by apply read_flows); try (by apply push_flows); try (by apply ring_flows);
    cbn [sys_step requests results_of].
  all: apply run_flows; [|done].
  all: first [solve [auto with flows|apply flows_rx_take|apply flows_clear_rx|apply flows_fc_credit|apply flows_flag
    |apply flows_release|apply flows_flush|apply flows_alpn
    |flows_tac|apply flows_loop]|idtac].
  destruct Ho as (_ & Hr & _). by eapply flows_stream_cb.
Qed.

Lemma callback_flows c s : wt_op_ok ev N (OpCallback c) s ->
  sys_flows (requests (OpCallback c)) [] s (wt_sys_step ev (OpCallback c) s).
Proof using Eok.
  intros (Hc & _). cbn [wt_sys_step]. apply run_flows; [|done]. unfold wt_step, discard.
  destruct c as [race cnx b l data event st ctx|race cnx b l path event st| | | | |]; cbn [requests handed_ok] in *; try done.
  - destruct Hc as (_ & _ & Hr). apply flows_bind_l; [by eapply flows_path_callback|]. flows_tac.
  - destruct Hc as (_ & Hr). apply flows_bind_l; [by eapply flows_server|]. flows_tac.
  - flows_tac.
  - apply flows_bind; [apply flows_server_bootstrap|]. flows_tac.
Qed.

Lemma step_flows o s : wt_op_ok ev N o s -> sys_flows (requests o) (results_of o s) s (wt_sys_step ev o s).
Proof using Eok.
  intros Ho. destruct o as [o|e data|m|c|race cnx id bts length data fe p| |p|p].
  - by apply raw_flows.
  - cbn [wt_sys_step requests]. apply run_flows; [apply flows_tx_push|done].
  - intros s' _ [= <-]. by apply flowed_still.
  - by apply callback_flows.
  - cbn [wt_sys_step requests]. apply run_flows; [|done]. destruct Ho as (_ & Hr & _). by eapply flows_dispatch_cb.
  - cbn [wt_sys_step requests]. apply run_flows; [auto with flows|done].
  - cbn [wt_sys_step requests]. apply run_flows; [auto with flows|done].
  - cbn [wt_sys_step requests]. apply run_flows; [auto with flows|done].
Qed.

Context {s0 : sys} {a : ctx_alloc} {tx_cap rx_cap pct rx_data_cap : Z}.
Context (Hst : start_ok tx_cap rx_cap pct rx_data_cap).
Context (Hstart : sys_start a tx_cap rx_cap pct rx_data_cap = Some s0).

Lemma start_sound : sound (y_w s0) ∧ w_sc (y_w s0) = sc_world0 ∧ w_trace (y_w s0) = [] ∧ w_rs (y_w s0) = RingStore ∅ 0.
Proof using Hst Hstart.
  clear - Hst Hstart. unfold sys_start in Hstart. destruct (aiopquic_ctx_create _ _ _ _); [|done].
  cbn [mbind option_bind] in Hstart. injection Hstart as <-. split; [|done]. split; [apply Hst|].
  intros p c. cbn. by rewrite lookup_empty.
Qed.

Lemma run_flowed ops res s : wt_run ev N s0 ops res s ->
  flowed (λ _, True) (ops ≫= requests) res (y_w s0) (y_w s).
Proof using Eok Hst Hstart.
  induction 1 as [|ops res s o s' _ IH Ho E]; [by apply flowed_still|].
  rewrite bind_app. cbn [mbind list_bind]. rewrite app_nil_r. eapply flowed_trans; [exact IH|].
  apply (step_flows o s Ho); [|done]. by eapply flowed_sound, start_sound.
Qed.


End runs.

(** ** A concrete run *)

(** Contracts, computed, of a few of Python's and picoquic's calls. *)
Definition sendb (x : Z -> Z) (o : sc_op) : bool :=
  match o with
  | ScSend a _ [] p _ capacity _ => (0 <? x p) && (0 <=? capacity) && (capacity <? 2 ^ 32) &&
      match ba_blk a with Some blk => zlen blk =? aiopquic_ceil_pow2_u32 capacity | None => true end
  | _ => false
  end.

Lemma sendb_ok x o : sendb x o = true -> is_send x o.
Proof.
  destruct o as [| | |a now [|] p data capacity fin| | |]; try done. cbn.
  rewrite !andb_true_iff. intros [[[Hx H0] H1] Hb]. split; [lia|]. split; [|done]. split; [lia|].
  intros blk E. rewrite E in Hb. lia.
Qed.

Definition has_rxb (p : Z) (w : world) : bool :=
  match sw_scs (w_sc w) !! p with Some c => if sc_rx c is Some _ then true else false | None => false end.

(** Python marks the ring of a connection ready. *)
Definition is_mark (e : spsc_entry) : bool := e_event_type e =? SPSC_EVT_TX_MARK_DATAGRAM_READY.

Definition op_okb (ev : env) (o : wt_op) (s : sys) : bool :=
  let w := y_w s in
  match o with
  | OpRaw (PySc (ScCreate p)) => negb (is_live w p) && (y_bytes s <? 2 ^ 64)
  | OpRaw (PySc (ScDestroy p)) => (0 <? y_x s p) && (y_bytes s <? 2 ^ 64)
  | OpRaw (PySc o) => sendb (y_x s) o && (y_bytes s + op_bytes o <? 2 ^ 64)
  | OpRaw (PyRead p n) => (0 <? y_x s p) && (0 <=? n) && (n <? 2 ^ 32) && has_rxb p w
  | OpRaw (PyRing p _ blk c m) =>
      negb (p =? 0) && (if rs_rings (w_rs w) !! p is Some _ then false else true) && (0 <=? c) && (c <? 2 ^ 32) &&
      (0 <? m) && (m <=? 2 ^ 30 - 4) && (if blk is Some bs then zlen bs =? dgram_capacity c m else true)
  | OpRaw (PyRecord p data) => (0 <? y_xd s p) && (0 <? zlen data) && (zlen data <? 2 ^ 32)
  | OpRaw (PyPush e _) =>
      is_mark e && (0 <=? e_aux e) && (e_aux e <? 2 ^ 64) && (2 <=? e_cnx e) && (0 <? y_xd s (e_stream_ctx e)) &&
      (y_marks s + mark_of e <=? 2 ^ 26)
  | OpRaw (WkLoop mode) => forallb (λ v, belowb v.2 && is_mark v.1) (loop_visits ev (loop_fuel w) mode w)
  | OpRaw (WkStream race cnx _ _ _ _ _ p) => (2 <=? cnx) && forallb (sendb (y_x s)) race &&
      (y_bytes s + run_bytes race <? 2 ^ 64) && ((p =? 0) || is_live w p)
  | _ => false
  end.

Lemma mark_entry_ok N e w : belowb w && is_mark e = true -> entry_ok N e w.
Proof.
  intros [Hb Hm]%andb_true_iff. assert (Hn : ¬ wt_type (e_event_type e)).
  { intros Hw. destruct (wt_type_free e 0 Hw) as (_ & _ & H). unfold mark_of in H. unfold is_mark in Hm. by rewrite Hm in H. }
  split; [by apply belowb_below|done..].
Qed.

Lemma op_okb_ok ev N o s : op_okb ev o s = true -> wt_op_ok ev N o s.
Proof.
  destruct o as [o|e data|m|c|race cnx id bts length data fe p| |p|p]; try done.
  destruct o as [e data| | | | |p n|o|p ok blk c m|p data| | | | | |mode|race cnx id bts length data fe p]; try done;
    cbn [op_okb wt_op_ok op_ok].
  - unfold is_mark. rewrite !andb_true_iff. intros [[[[[Hm%Z.eqb_eq H0] H1] Hc] Hx] Ht]. rewrite Hm. split_and!; try done; try lia.
    split; [|lia|right; lia]. left. exists SPSC_EVT_TX_MARK_DATAGRAM_READY. split; [unfold raw_tx_types; set_solver|done].
  - rewrite !andb_true_iff. intros [[[Hx H0] H1] Hr]. split; [lia|]. split; [lia|]. unfold has_rx. unfold has_rxb in Hr.
    destruct (sw_scs _ !! p) as [c|]; [|done]. destruct (sc_rx c) as [rx|] eqn:Er; [|done]. eauto.
  - destruct o as [p|p|p|a now during p data capacity fin| | |]; rewrite andb_true_iff; try (by intros [[=] _]).
    + rewrite negb_true_iff. cbn. intros [Hl Hb]. split; [lia|by right].
    + cbn. intros [Hp Hb]. split; lia.
    + intros [Hs Hb%Z.ltb_lt]. split; [done|by apply sendb_ok].
  - rewrite !andb_true_iff. intros [[[[[[Hp%negb_true_iff Hn] H0] H1] H2] H3] Hb]. split_and!; try lia.
    + by destruct (rs_rings _ !! p).
    + intros bs ->. lia.
  - rewrite !andb_true_iff. lia.
  - rewrite forallb_forall. intros H. apply Forall_forall. intros v Hv. by apply mark_entry_ok, H, list_elem_of_In.
  - rewrite !andb_true_iff, forallb_forall. intros [[[Hc Hr] Hb] Hl]. split; [lia|].
    split; [|split; [lia|apply orb_true_iff in Hl as [Hl|Hl]; [left; lia|by right; left]]].
    apply Forall_forall. intros o Ho. by apply sendb_ok, Hr, list_elem_of_In.
Qed.

Fixpoint exec (ev : env) (ops : list wt_op) (res : list py_result) (s : sys) : option (list py_result * sys) :=
  match ops with
  | [] => Some (res, s)
  | o :: ops => if op_okb ev o s then s' ← wt_sys_step ev o s; exec ev ops (res ++ results_of o s) s' else None
  end.

Lemma exec_run ev N s0 ops : ∀ pre res s res' s', wt_run ev N s0 pre res s ->
  exec ev ops res s = Some (res', s') -> wt_run ev N s0 (pre ++ ops) res' s'.
Proof.
  induction ops as [|o ops IH]; intros pre res s res' s' R E; [injection E as <- <-; by rewrite app_nil_r|].
  cbn [exec] in E. destruct (op_okb ev o s) eqn:Eo; [|done]. destruct (wt_sys_step ev o s) as [s1|] eqn:E1; [|done].
  rewrite (app_assoc pre [o] ops : pre ++ o :: ops = _). apply (IH _ (res ++ results_of o s) s1); [|done].
  eapply wt_run_next; [exact R|by apply (op_okb_ok ev N)|exact E1].
Qed.

(** picoquic gives buffers at 700. *)
Definition flow_ev : env :=
  demo_env (λ c, match c with PqProvideStreamDataBuffer _ _ _ _ => 700 | _ => 0 end).

Definition flow_send (data : list Z) : sc_op :=
  ScSend (BufAlloc None true (Some (replicate 8 0))) 0 [] 16 data 8 false.

(** Five bytes are sent, two more race with the first pull; four arrive, three are read. *)
Definition flow_ops : list wt_op :=
  [OpRaw (PySc (ScCreate 16)); OpRaw (PySc (flow_send [1; 2; 3; 4; 5]));
   OpRaw (WkStream [flow_send [6; 7]] 100 4 900 4 [] picoquic_callback_prepare_to_send 16);
   OpRaw (WkStream [] 100 4 800 4 [21; 22; 23; 24] picoquic_callback_stream_data 16);
   OpRaw (WkStream [] 100 4 900 2 [] picoquic_callback_prepare_to_send 16); OpRaw (PyRead 16 3)].

Definition flow_end : option (list py_result * sys) :=
  s ← sys_start Bridge.demo_alloc 8 4 50 64; exec flow_ev flow_ops [] s.

(** What the end of the run shows. *)
Definition flow_seen (s : sys) : list (list Z) * list Z * list Z * (Z * Z) :=
  let g := sw_g (w_sc (y_w s)) in
  (stream_writes (w_trace (y_w s)), queue_at (w_sc (y_w s)) Tx 16, queue_at (w_sc (y_w s)) Rx 16,
   (u64 (g CNT_TX_DATA_BYTES_PUSHED), u64 (g CNT_TX_DATA_BYTES_DISCARDED))).


(** Datagram buffers are given at 800. *)
Definition dgram_flow_ev : env :=
  demo_env (λ c, match c with PqProvideDatagramBuffer _ _ _ => 800 | _ => 0 end).

Definition pull_datagram (length : Z) : wt_op :=
  OpRaw (WkStream [] 100 0 900 length [] picoquic_callback_prepare_datagram 0).

(** The ring 32 takes three records and declines a fourth; it is put in the table for
    connection 100, whose pulls take two; the third is too long for the last pull. *)
Definition dgram_flow_ops : list wt_op :=
  [OpRaw (PyRing 32 true (Some (replicate 32 0)) 32 8);
   OpRaw (PyRecord 32 [1; 2; 3]); OpRaw (PyRecord 32 [4; 5]); OpRaw (PyRecord 32 [11; 12; 13; 14; 15; 16; 17; 18]);
   OpRaw (PyRecord 32 [6; 7; 8; 9]);
   OpRaw (PyPush (sc_entry SPSC_EVT_TX_MARK_DATAGRAM_READY 0 100 32 0) []);
   OpRaw (WkLoop picoquic_packet_loop_wake_up); pull_datagram 64; pull_datagram 64; pull_datagram 4].

Definition dgram_flow_end : option (list py_result * sys) :=
  s ← sys_start Bridge.demo_alloc 8 4 50 64; exec dgram_flow_ev dgram_flow_ops [] s.

