(* ===== verification/Litmus.v ===== *)
(** * The lost-wake litmus harness (litmus.h)

    Each round of the harness puts one wake protocol in the state just before a race,
    runs its two sides on two threads and checks that a side that will wait was woken.
    The sides are resumable programs ([prog]), one step per call of the bridge, and a
    schedule interleaves them; the rounds are kept apart by a barrier, a machine of two
    threads whose steps are its single atomic accesses.  The delays of the harness
    change nothing but the schedule. *)
From S2P Require Import Prelude StreamBuf SpscRing DgramBuf DgramTable StreamCtx WtState Bridge.
From S2P Require Import Callback World PySide WtSession Teardown Wake.

(** ** The random delays *)

Definition aiopquic_litmus_rand (s : Z) : Z :=
  let x := s in
  let x := Z.lxor x (u32 (Z.shiftl x 13)) in
  let x := Z.lxor x (Z.shiftr x 17) in
  Z.lxor x (u32 (Z.shiftl x 5)).

(** The rounds of the delay's loop, and the next state. *)
Definition aiopquic_litmus_skew (s : Z) : Z * Z :=
  let x := aiopquic_litmus_rand s in (Z.land x 63, x).

(** ** The barrier *)

Module Barrier.
(** Where a thread is in [aiopquic_litmus_barrier_wait]. *)
Inductive place :=
  | BOut           (** outside *)
  | BAdd (g : Z)   (** read the generation: about to count itself *)
  | BReset         (** the second to arrive: about to store 0 *)
  | BBump          (** about to count the generation *)
  | BSpin (g : Z). (** waiting for a generation other than [g] *)

(** A thread: its place, how often it counted itself and how often it returned. *)
Record thread := Thread { th_place : place; th_in : nat; th_out : nat }.

Record barrier := Bar { br_count : Z; br_gen : Z; br_0 : thread; br_1 : thread }.

Definition start : barrier := Bar 0 0 (Thread BOut 0 0) (Thread BOut 0 0).

(** The next access of a thread. *)
Definition wait_step (count gen : Z) (t : thread) : Z * Z * thread :=
  let '(Thread p i o) := t in
  match p with
  | BOut => (count, gen, Thread (BAdd gen) i o)
  | BAdd g => (u32 (count + 1), gen, Thread (if count =? 1 then BReset else BSpin g) (S i) o)
  | BReset => (0, gen, Thread BBump i o)
  | BBump => (count, u32 (gen + 1), Thread BOut i (S o))
  | BSpin g => (count, gen, if gen =? g then t else Thread BOut i (S o))
  end.

(** [false]: thread 0 steps; [true]: thread 1. *)
Definition step (who : bool) (b : barrier) : option barrier :=
  let '(Bar c g t0 t1) := b in
  if who then let '(c, g, t1) := wait_step c g t1 in Some (Bar c g t0 t1)
  else let '(c, g, t0) := wait_step c g t0 in Some (Bar c g t0 t1).
End Barrier.

(** ** Threads *)

(** A thread between two calls; [Spin] re-reads its condition until it holds. *)
Inductive prog (A : Type) :=
  | Done (a : A)
  | Call (m : world -> option (prog A * world))
  | Spin (ready : world -> bool) (k : prog A).
Arguments Done {A}.
Arguments Call {A}.
Arguments Spin {A}.

(** Call [m] and go on with its result. *)
Definition call {A B} (m : M B) (k : B -> prog A) : prog A := Call (x ← m; ret (k x)).

Definition advance {A} (p : prog A) : M (prog A) :=
  match p with
  | Done a => ret (Done a)
  | Call m => m
  | Spin ready k => λ w, Some (if ready w then k else p, w)
  end.

(** To the end, alone; a condition nobody will make true is spun on for ever. *)
Fixpoint finish {A} (p : prog A) : M A :=
  match p with
  | Done a => ret a
  | Call m => λ w, match m w with Some (p, w) => finish p w | None => None end
  | Spin ready k => λ w, if ready w then finish k w else None
  end.

(** Both sides: [true] lets the producer take its next step, [false] the consumer. *)
Fixpoint race {A B} (sched : list bool) (p : prog A) (q : prog B) : M (A * B) :=
  match sched with
  | [] => a ← finish p; b ← finish q; ret (a, b)
  | true :: sched => p ← advance p; race sched p q
  | false :: sched => q ← advance q; race sched p q
  end.

(** ** The probes *)

Inductive litmus_kind :=
  | AIOPQUIC_LITMUS_RX_NOTIFY | AIOPQUIC_LITMUS_TX_WAKE | AIOPQUIC_LITMUS_RX_EVENT
  | AIOPQUIC_LITMUS_TX_DRAIN | AIOPQUIC_LITMUS_TX_RING | AIOPQUIC_LITMUS_DGRAM
  | AIOPQUIC_LITMUS_RX_DRAINED.

(** [aiopquic_litmus_t]; its context is the bridge of the world. *)
Record litmus := Litmus {
  l_kind : litmus_kind;
  l_sc : Z;
  l_db : Z;
  l_waits : Z;   (** producer will wait for a wake *)
  l_woke : Z     (** producer posted a wake itself *)
}.

Definition l_set_waits (x : bool) (L : litmus) : litmus :=
  Litmus (l_kind L) (l_sc L) (l_db L) (c_bool x) (l_woke L).
Definition l_set_woke (x : bool) (L : litmus) : litmus :=
  Litmus (l_kind L) (l_sc L) (l_db L) (l_waits L) (c_bool x).

(** The bytes of a stream's rings, as the harness moves them. *)
Definition rx_write (sc : Z) (data : list Z) : M Z :=
  on_sc_val (λ s, c ← sw_scs s !! sc; rx ← sc_rx c;
    '(n, rx) ← aiopquic_stream_buf_push rx data;
    Some (n, ScWorld (<[sc := sc_set_rx (Some rx) c]> (sw_scs s)) (sw_g s))).
Definition tx_write (sc : Z) (data : list Z) : M Z :=
  on_sc_val (λ s, c ← sw_scs s !! sc; tx ← sc_tx c;
    '(n, tx) ← aiopquic_stream_buf_push tx data;
    Some (n, ScWorld (<[sc := sc_set_tx (Some tx) c]> (sw_scs s)) (sw_g s))).
Definition tx_read (sc n : Z) : M (list Z) :=
  on_sc_val (λ s, c ← sw_scs s !! sc; tx ← sc_tx c;
    '(bs, tx) ← aiopquic_stream_buf_pop tx n;
    Some (bs, ScWorld (<[sc := sc_set_tx (Some tx) c]> (sw_scs s)) (sw_g s))).

(** No loop of the harness takes more rounds: rings of 16 and 64 slots, byte rings of 64. *)
Definition litmus_fuel : nat := 65.

Section harness.
Context (ev : env).

Definition aiopquic_litmus_fd_readable : M bool := got ← wake_read; ret (got >? 0).

(** [while (spsc_ring_peek(r) != NULL) spsc_ring_pop(r);] on either ring. *)
Fixpoint litmus_ring_clear (peek : M (option spsc_entry)) (pop : M unit) (fuel : nat) : M unit :=
  match fuel with
  | O => ub
  | S fuel =>
      e ← peek;
      match e with None => ret tt | Some _ => pop ;; litmus_ring_clear peek pop fuel end
  end.
Definition rx_clear : M unit := litmus_ring_clear rx_peek rx_pop litmus_fuel.
Definition tx_clear : M unit := litmus_ring_clear tx_ring_peek tx_ring_pop litmus_fuel.

(** The entry the harness pushes to the TX ring. *)
Definition litmus_entry : spsc_entry := event_entry SPSC_EVT_TX_SET_STREAM_PRIORITY 0 0 0.

Fixpoint litmus_tx_ring_fill (fuel : nat) : M unit :=
  match fuel with
  | O => ub
  | S fuel =>
      rc ← tx_ring_push ev litmus_entry [];
      if rc =? 0 then litmus_tx_ring_fill fuel else ret tt
  end.

Definition read_db {A} (db : Z) (f : dgram_buf -> A) : M A := on_db db (λ b, Some (f b, b)).

(** [uint8_t rec[8] = {0}]. *)
Definition litmus_rec : list Z := replicate 8 0.

Fixpoint litmus_dgram_fill (db : Z) (fuel : nat) : M unit :=
  match fuel with
  | O => ub
  | S fuel =>
      used ← read_db db aiopquic_dgram_buf_used;
      capacity ← read_db db db_capacity;
      if used + AIOPQUIC_DGRAM_REC_HDR + 8 <=? capacity
      then _ ← dgram_push db litmus_rec; litmus_dgram_fill db fuel
      else ret tt
  end.

(** The loops of the setup on a stream's rings. *)
Fixpoint rx_drop (sc used : Z) (fuel : nat) : M unit :=
  match fuel with
  | O => ub
  | S fuel =>
      if used >? 0 then
        bs ← rx_read sc (if used <? 64 then used else 64);
        rx_drop sc (u32 (used - zlen bs)) fuel
      else ret tt
  end.
Fixpoint tx_fill (sc : Z) (fuel : nat) : M unit :=
  match fuel with
  | O => ub
  | S fuel =>
      free ← read_tx sc aiopquic_stream_buf_free;
      if free >? 0 then
        f ← read_tx sc aiopquic_stream_buf_free;
        _ ← tx_write sc (replicate (Z.to_nat (if f <? 64 then f else 64)) 0);
        tx_fill sc fuel
      else ret tt
  end.

(** Consumer thread, between rounds: reset to the pre-race state. *)
Definition aiopquic_litmus_setup (L : litmus) : M litmus :=
  let L := l_set_woke false (l_set_waits false L) in
  match l_kind L with
  | AIOPQUIC_LITMUS_RX_NOTIFY =>
      rx_clear ;;
      _ ← aiopquic_litmus_fd_readable;
      setb (b_set_rx_notify_pending 1)
  | AIOPQUIC_LITMUS_TX_WAKE => tx_clear ;; setb (b_set_tx_worker_idle 0)
  | AIOPQUIC_LITMUS_RX_EVENT =>
      used ← read_rx (l_sc L) aiopquic_stream_buf_used;
      rx_drop (l_sc L) used litmus_fuel ;;
      upd_sc (l_sc L) (sc_set_rx_event_pending 1)
  | AIOPQUIC_LITMUS_TX_DRAIN =>
      tx_fill (l_sc L) litmus_fuel ;;
      upd_sc (l_sc L) (sc_set_tx_drain_pending 0)
  | AIOPQUIC_LITMUS_TX_RING =>
      rx_clear ;;
      _ ← aiopquic_litmus_fd_readable;
      litmus_tx_ring_fill litmus_fuel ;;
      setb (b_set_tx_event_ring_drain_pending 0) ;;
      setb (b_set_rx_notify_pending 0)
  | AIOPQUIC_LITMUS_DGRAM =>
      litmus_dgram_fill (l_db L) litmus_fuel ;;
      on_db (l_db L) (λ b, Some (tt, db_set_drain b 0))
  | AIOPQUIC_LITMUS_RX_DRAINED =>
      rx_clear ;;
      _ ← aiopquic_litmus_fd_readable;
      setb (b_set_rx_notify_pending 1) ;;
      _ ← wake_write ev;
      ret tt
  end ;;
  ret L.

(** [spsc_ring_push] of an event on the RX ring. *)
Definition rx_ring_push (entry : spsc_entry) : M Z :=
  λ w, '(rc, r, h) ← spsc_ring_push (b_rx_event_ring (w_ctx w)) (w_heap w) 0 entry [];
       Some (rc, w_set_heap h (w_set_ctx (b_set_rx_event_ring r (w_ctx w)) w)).

(** [aiopquic_stream_ctx_send_data(sc, data, len, sc->tx->capacity, 0)]. *)
Definition litmus_send (sc : Z) (data : list Z) : M Z :=
  capacity ← read_tx sc sb_capacity;
  now ← aiopquic_now_ns ev;
  t ← next_tick;
  on_sc_val (λ s, '(rc, _, s) ← aiopquic_stream_ctx_send_data (ev_buf ev t capacity) now []
                                  sc data capacity false s; Some (rc, s)).

(** Producer side of the race. *)
Definition aiopquic_litmus_produce (L : litmus) : prog litmus :=
  match l_kind L with
  | AIOPQUIC_LITMUS_RX_NOTIFY =>
      call (aiopquic_rx_push ev (event_entry SPSC_EVT_READY 0 0 0) []) (λ _, Done L)
  | AIOPQUIC_LITMUS_TX_WAKE =>
      call (tx_ring_push ev litmus_entry []) (λ _,
      call aiopquic_tx_wake_needed (λ woke, Done (l_set_woke woke L)))
  | AIOPQUIC_LITMUS_RX_EVENT =>
      call (rx_write (l_sc L) (replicate 8 0)) (λ _,
      call (rx_event_pending_arm (l_sc L)) (λ woke, Done (l_set_woke woke L)))
  | AIOPQUIC_LITMUS_TX_DRAIN =>
      call (litmus_send (l_sc L) (replicate 16 0)) (λ rc, Done (l_set_waits (rc =? 0) L))
  | AIOPQUIC_LITMUS_TX_RING =>
      call (getb (λ b, spsc_ring_count (b_tx_event_ring b) >=? r_capacity (b_tx_event_ring b))) (λ full,
      if (full : bool)
      then call (aiopquic_arm_tx_event_ring_drain_pending ev) (λ waits, Done (l_set_waits waits L))
      else Done L)
  | AIOPQUIC_LITMUS_DGRAM =>
      call (dgram_push (l_db L) litmus_rec) (λ rc, Done (l_set_waits (rc =? 0) L))
  | AIOPQUIC_LITMUS_RX_DRAINED =>
      call (rx_ring_push (event_entry SPSC_EVT_READY 0 0 0)) (λ _,
      call (aiopquic_notify_rx ev) (λ _, Done L))
  end.

(** The consumer's loops; [k]: what follows. *)
Fixpoint tx_drop (sc used : Z) (fuel : nat) (k : prog Z) : prog Z :=
  match fuel with
  | O => Call ub
  | S fuel =>
      if used >? 0
      then call (tx_read sc (if used <? 64 then used else 64)) (λ bs,
           tx_drop sc (u32 (used - zlen bs)) fuel k)
      else k
  end.
Fixpoint tx_ring_drain (fuel : nat) (k : prog Z) : prog Z :=
  match fuel with
  | O => Call ub
  | S fuel =>
      call tx_ring_peek (λ e, match e with
        | None => k
        | Some _ => call tx_ring_pop (λ _, call (aiopquic_maybe_fire_tx_event_ring_drained ev) (λ _,
                    tx_ring_drain fuel k))
        end)
  end.
Fixpoint dgram_drain (db : Z) (fuel : nat) (k : prog Z) : prog Z :=
  match fuel with
  | O => Call ub
  | S fuel =>
      call (on_db db (λ b, n ← aiopquic_dgram_buf_peek_len b; Some (n, b))) (λ len,
      if len >? 0
      then call (on_db db (λ b, aiopquic_dgram_buf_pop_into b len)) (λ _, dgram_drain db fuel k)
      else k)
  end.

(** Consumer side of the race. *)
Definition aiopquic_litmus_consume (L : litmus) : prog Z :=
  match l_kind L with
  | AIOPQUIC_LITMUS_RX_NOTIFY => call (aiopquic_clear_rx ev) (λ _, Done 0)
  | AIOPQUIC_LITMUS_TX_WAKE => call aiopquic_tx_worker_idle_arm (λ saw, Done (Z.lor 0x10 (c_bool saw)))
  | AIOPQUIC_LITMUS_RX_EVENT =>
      call (upd_sc (l_sc L) aiopquic_stream_ctx_rx_event_pending_clear) (λ _,
      call (read_rx (l_sc L) aiopquic_stream_buf_used) (λ used, Done (Z.lor 0x10 (c_bool (used >? 0)))))
  | AIOPQUIC_LITMUS_TX_DRAIN =>
      call (read_tx (l_sc L) aiopquic_stream_buf_used) (λ used,
      tx_drop (l_sc L) used litmus_fuel
        (call (drain_take (l_sc L)) (λ b, Done (Z.lor 0x20 (c_bool b)))))
  | AIOPQUIC_LITMUS_TX_RING =>
      tx_ring_drain litmus_fuel (call (aiopquic_tx_event_ring_drained_final ev) (λ _, Done 0))
  | AIOPQUIC_LITMUS_DGRAM =>
      dgram_drain (l_db L) litmus_fuel
        (call (on_db (l_db L) (λ b, Some (aiopquic_dgram_buf_drain_take b))) (λ b,
         Done (Z.lor 0x20 (c_bool b))))
  | AIOPQUIC_LITMUS_RX_DRAINED =>
      Spin (λ w, if spsc_ring_peek (b_rx_event_ring (w_ctx w)) is Some _ then true else false)
        (call rx_pop (λ _, call (aiopquic_clear_rx ev) (λ _, Done 0)))
  end.

(** The check's loop: whether a drained event was in the ring. *)
Fixpoint litmus_fired (fuel : nat) (fired : bool) : M bool :=
  match fuel with
  | O => ub
  | S fuel =>
      e ← rx_peek;
      match e with
      | None => ret fired
      | Some e =>
          rx_pop ;;
          litmus_fired fuel (evt_is (e_event_type e) SPSC_EVT_TX_EVENT_RING_DRAINED || fired)
      end
  end.

(** After both sides finished: whether a wake was lost. *)
Definition aiopquic_litmus_check (L : litmus) (c : Z) : M bool :=
  match l_kind L with
  | AIOPQUIC_LITMUS_RX_NOTIFY =>
      pending ← getb (λ b, negb (spsc_ring_empty (b_rx_event_ring b)));
      if (pending : bool) then r ← aiopquic_litmus_fd_readable; ret (negb r) else ret false
  | AIOPQUIC_LITMUS_TX_WAKE | AIOPQUIC_LITMUS_RX_EVENT =>
      ret ((l_woke L =? 0) && (Z.land c 1 =? 0))
  | AIOPQUIC_LITMUS_TX_DRAIN | AIOPQUIC_LITMUS_DGRAM =>
      ret (negb (l_waits L =? 0) && (Z.land c 1 =? 0))
  | AIOPQUIC_LITMUS_RX_DRAINED =>
      pending ← getb b_rx_notify_pending;
      if negb (pending =? 0) then r ← aiopquic_litmus_fd_readable; ret (negb r) else ret false
  | AIOPQUIC_LITMUS_TX_RING =>
      fired ← litmus_fired litmus_fuel false;
      ret (negb (l_waits L =? 0) && negb fired)
  end.

(** ** A run *)

(** What follows one barrier to the next: the race, then the consumer's check and setup. *)
Definition litmus_round (sched : list bool) (L : litmus) : M (litmus * Z) :=
  '(L, c) ← race sched (aiopquic_litmus_produce L) (aiopquic_litmus_consume L);
  lost ← aiopquic_litmus_check L c;
  L ← aiopquic_litmus_setup L;
  ret (L, c_bool lost).

Fixpoint litmus_rounds (scheds : list (list bool)) (L : litmus) (lost : Z) : M (litmus * Z) :=
  match scheds with
  | [] => ret (L, lost)
  | sched :: scheds =>
      '(L, r) ← litmus_round sched L;
      litmus_rounds scheds L (u64 (lost + r))
  end.

(** The three destructions of every return; [ctx]: the bridge was made. *)
Definition litmus_free (ctx : bool) (sc db : Z) : M unit :=
  when ctx aiopquic_ctx_destroy ;;
  on_sc (aiopquic_stream_ctx_destroy sc) ;;
  when (negb (db =? 0)) (on_rs (λ st, rs_unref st db)).

(** What the allocations of a run meet: the bridge's, the address of the datagram ring
    and its block, and whether the thread starts. *)
Record litmus_alloc := LitmusAlloc {
  la_ctx : ctx_alloc;
  la_db : Z;
  la_db_ok : bool;
  la_db_blk : option (list Z);
  la_thread : bool
}.

Definition ensure (f : buf_alloc -> Z -> Z -> sc_world -> option (Z * sc_world)) (sc : Z) : M Z :=
  t ← next_tick; on_sc_val (f (ev_buf ev t 64) 64 sc).

(** [scheds]: how the two sides interleave in each round. *)
Definition aiopquic_litmus_run (la : litmus_alloc) (kind : litmus_kind) (scheds : list (list bool)) : M Z :=
  let ctx := aiopquic_ctx_create (la_ctx la) 16 64 50 in
  match ctx with Some b => (λ w, Some (tt, w_set_fd 0 (w_set_ctx b w))) : M unit | None => ret tt end ;;
  sc ← sc_create ev;
  db ← dgram_create (la_db la) (la_db_ok la) (la_db_blk la) 64 8;
  let have := if ctx is Some _ then true else false in
  ok ← (if negb have || (sc =? 0) || (db =? 0) then ret false
        else
          rc ← ensure aiopquic_stream_ctx_ensure_tx sc;
          if negb (rc =? 0) then ret false
          else rc ← ensure aiopquic_stream_ctx_ensure_rx sc; ret (rc =? 0));
  if negb ok then litmus_free have sc db ;; ret (-1)
  else
    setb (b_set_thread_ctx 0) ;;
    L ← aiopquic_litmus_setup (Litmus kind sc db 0 0);
    if negb (la_thread la) then litmus_free true sc db ;; ret (-1)
    else
      '(L, lost) ← litmus_rounds scheds L 0;
      litmus_free true sc db ;;
      ret lost.
End harness.
