(* ===== verification/LitmusRig.v ===== *)
(** * The harness's bench

    What the calls of the harness (Litmus.v) do, in terms of what a race turns on: the
    events in both rings, the descriptor, the flags, how full the stream's and the
    datagram rings are ([rig]). *)
From S2P Require Import Prelude Ring StreamBuf SpscRing DgramBuf DgramTable StreamCtx WtState Bridge.
From S2P Require Import Callback World PySide WtSession Teardown Litmus.

(** ** An event ring without payloads *)

(** A ring of [cap] slots, events of types [ts] queued, positions up to [T]. *)
Definition ring_is (cap T : Z) (ts : list Z) (r : spsc_ring) : Prop :=
  ∃ H q, rq_rep r H q ∧ Forall (λ e, entry_owns e = false) q ∧ r_capacity r = cap ∧
    H + zlen q <= T ∧ map e_event_type q = ts.

Lemma ring_is_mono cap T T' ts r : ring_is cap T ts r -> T <= T' -> ring_is cap T' ts r.
Proof. intros (H & q & R & P & C & L & E) Hle. exists H, q. split_and!; try done. lia. Qed.

Section ring.
Context {cap T : Z} {ts : list Z} {r : spsc_ring} (I : ring_is cap T ts r).

Lemma ring_is_count : spsc_ring_count r = zlen ts.
Proof using I. destruct I as (H & q & R & _ & _ & _ & <-). rewrite (rq_count _ _ _ R), length_map. done. Qed.

Lemma ring_is_capacity : r_capacity r = cap.
Proof using I. by destruct I as (H & q & _ & _ & C & _). Qed.

Lemma ring_is_fit : zlen ts <= cap.
Proof using I. destruct I as (H & q & R & _ & <- & _ & <-). rewrite length_map. apply (rq_fit _ _ _ R). Qed.

Lemma ring_is_peek : match ts with
  | [] => spsc_ring_peek r = None
  | t :: _ => ∃ slot e, spsc_ring_peek r = Some slot ∧ r_entries r !! Z.to_nat slot = Some e ∧
      e_event_type e = t
  end.
Proof using I.
  destruct I as (H & q & R & _ & _ & _ & <-). rewrite (rq_peek _ _ _ R). destruct q as [|e q]; [done|].
  exists (H mod r_capacity r), e. split; [done|]. split; [|done]. by eapply rq_head_entry.
Qed.

Lemma ring_is_pop t ts' h : ts = t :: ts' ->
  ∃ r', spsc_ring_pop r h = Some (r', h) ∧ ring_is cap T ts' r'.
Proof using I.
  destruct I as (H & q & R & P & C & L & <-). destruct q as [|e q]; [done|]. intros [= <- <-].
  apply Forall_cons in P as [He P]. destruct (rq_pop r H e q h R) as (r' & E & R' & C' & _); [congruence|].
  rewrite He in E. exists r'. split; [done|]. exists (H + 1), q. split_and!; try done; [congruence|].
  cbn [length] in L. lia.
Qed.

Lemma ring_is_borrow e : entry_owns e = false -> zlen ts < cap -> T + 1 < 2 ^ 64 ->
  ∃ r', spsc_ring_push_borrowed r e = Some (0, r') ∧ ring_is cap (T + 1) (ts ++ [e_event_type e]) r'.
Proof using I.
  intros He Hn HT. destruct I as (H & q & R & P & C & L & E). unfold spsc_ring_push_borrowed.
  assert (Hq : zlen q = zlen ts) by (by rewrite <- E, length_map).
  rewrite (rq_used _ _ _ R), Z.geb_leb, (proj2 (Z.leb_gt _ _)) by lia.
  destruct (rq_publish _ _ _ R e (r_bytes_pending r)) as (es & -> & R'); [lia..|].
  cbn [mbind option_bind]. eexists. split; [done|]. exists H, (q ++ [e]). split; [done|].
  split; [by apply Forall_app; split; [|apply Forall_cons]|]. split; [done|].
  rewrite length_app, map_app, E. split; [cbn; lia|done].
Qed.

Lemma ring_is_push p e h : zlen ts < cap -> T + 1 < 2 ^ 64 ->
  ∃ r', spsc_ring_push r h p e [] = Some (0, r', h) ∧ ring_is cap (T + 1) (ts ++ [e_event_type e]) r'.
Proof using I.
  intros Hn HT. destruct I as (H & q & R & P & C & L & E). unfold spsc_ring_push.
  assert (Hq : zlen q = zlen ts) by (by rewrite <- E, length_map).
  rewrite (rq_used _ _ _ R), Z.geb_leb, (proj2 (Z.leb_gt _ _)) by lia.
  change (0 <? zlen (@nil Z)) with false. cbn [andb negb Z.eqb e_data_length entry_set_data Z.ltb Z.compare].
  destruct (rq_publish _ _ _ R (entry_set_data e 0 0) (r_bytes_pending r)) as (es & -> & R'); [lia..|].
  cbn [mbind option_bind]. eexists. split; [done|]. exists H, (q ++ [entry_set_data e 0 0]). split; [done|].
  split; [by apply Forall_app; split; [|apply Forall_cons]|]. split; [done|].
  rewrite length_app, map_app, E. split; [cbn; lia|done].
Qed.

Lemma ring_is_full p e h : zlen ts = cap -> spsc_ring_push r h p e [] = Some (-1, r, h).
Proof using I.
  intros Hn. destruct I as (H & q & R & P & C & L & E). unfold spsc_ring_push.
  assert (Hq : zlen q = zlen ts) by (by rewrite <- E, length_map).
  rewrite (rq_used _ _ _ R), Z.geb_leb, (proj2 (Z.leb_le _ _)) by lia. done.
Qed.
End ring.

(** ** The bench *)

(** A wrapper with both rings of 64 bytes: bytes queued and flags. *)
Record sc_view := ScView { v_txn : Z; v_txd : Z; v_rxn : Z; v_rxe : Z }.

Definition buf_is (n : Z) (b : option stream_buf) : Prop :=
  ∃ tb H q, b = Some tb ∧ sb_rep tb H q ∧ sb_capacity tb = 64 ∧ zlen q = n.

Definition sc_is (v : sc_view) (c : stream_ctx) : Prop :=
  buf_is (v_txn v) (sc_tx c) ∧ buf_is (v_rxn v) (sc_rx c) ∧ sc_tx_drain_pending c = v_txd v ∧
  sc_rx_event_pending c = v_rxe v ∧ sc_refcount c = 1.

(** A datagram ring of 64 bytes with [n] records of the harness and the drain flag [dd]. *)
Definition db_is (n dd : Z) (b : dgram_buf) : Prop :=
  ∃ H k, db_rep b H (replicate k litmus_rec) ∧ Z.of_nat k = n ∧ db_capacity b = 64 ∧
    db_max_record b = 8 ∧ db_drain_pending b = dd ∧ db_refcnt b = 1.

Record bridge_is (T : Z) (tx rx : list Z) (pend idle armed : Z) (b : bridge) : Prop := {
  bi_tx : ring_is 16 T tx (b_tx_event_ring b);
  bi_rx : ring_is 64 T rx (b_rx_event_ring b);
  bi_nodes : o_nodes (b_rx_overflow b) = [];
  bi_depth : o_depth (b_rx_overflow b) = 0;
  bi_pend : b_rx_notify_pending b = pend;
  bi_idle : b_tx_worker_idle b = idle;
  bi_armed : b_tx_event_ring_drain_pending b = armed;
  bi_low : 0 <= b_tx_event_ring_low_water b < 16;
  bi_worker : length (wt_e (b_worker_trace b)) = 128%nat;
  bi_asyncio : length (wt_e (b_asyncio_trace b)) = 128%nat;
  bi_table : b_dgram_table b = dgram_table0;
  bi_deferred : b_deferred_resets b = [];
  bi_owed : b_dgram_release_owed b = []
}.

(** The wrappers and datagram rings that are not the harness's. *)
Class outside := Outside {
  out_scs : gmap Z stream_ctx;
  out_rings : gmap Z dgram_buf;
  out_alive : Z
}.

Record rig `{outside} (sc db T : Z) (tx rx : list Z) (fd pend idle armed : Z) (v : sc_view) (d : Z * Z)
    (w : world) : Prop := {
  rg_b : bridge_is T tx rx pend idle armed (w_ctx w);
  rg_fd : w_fd w = fd;
  rg_sc : ∃ c, sw_scs (w_sc w) !! sc = Some c ∧ sc_is v c;
  rg_db : ∃ b, rs_rings (w_rs w) !! db = Some b ∧ db_is d.1 d.2 b;
  rg_scs : delete sc (sw_scs (w_sc w)) = out_scs;
  rg_rings : delete db (rs_rings (w_rs w)) = out_rings;
  rg_alive : rs_alive (w_rs w) = out_alive
}.

Lemma bridge_is_mono T T' tx rx pend idle armed b :
  bridge_is T tx rx pend idle armed b -> T <= T' -> bridge_is T' tx rx pend idle armed b.
Proof. intros [] Hle. split; try done; by eapply ring_is_mono. Qed.

(** A state whose parts are those of another one. *)
Ltac rig_same :=
  match goal with H : rig _ _ _ _ _ _ _ _ _ _ _ _ |- _ =>
    let B := fresh in destruct H as [B]; split; [destruct B; split; done|done..] end.

Section rig.
Context `{out : outside} (ev : env) (Hwrite : ∀ t, ev_errno ev t = 0) (sc db : Z).
Context {T : Z} {tx rx : list Z} {fd pend idle armed : Z} {v : sc_view} {d : Z * Z} {w : world}.
Context (G : rig sc db T tx rx fd pend idle armed v d w).
Abbreviation RIG := (rig sc db).

Lemma rig_mono T' : T <= T' -> RIG T' tx rx fd pend idle armed v d w.
Proof using G. intros HT. destruct G. split; try done. by eapply bridge_is_mono. Qed.

Lemma rig_count c : wp (count c) (λ _ w', RIG T tx rx fd pend idle armed v d w') w.
Proof using G. apply wp_setb. rig_same. Qed.

Lemma rig_set_cnt c n : wp (set_cnt c n) (λ _ w', RIG T tx rx fd pend idle armed v d w') w.
Proof using G. apply wp_setb. rig_same. Qed.

Lemma rig_now : wp (aiopquic_now_ns ev) (λ _ w', RIG T tx rx fd pend idle armed v d w') w.
Proof using G. apply wp_bind. eexists _, _. split; [done|]. apply wp_ret. rig_same. Qed.

Lemma rig_tick : wp next_tick (λ _ w', RIG T tx rx fd pend idle armed v d w') w.
Proof using G. eexists _, _. split; [done|]. rig_same. Qed.

(** *** The descriptor and the notification flag *)

Lemma rig_wake_write : wp (wake_write ev)
  (λ r w', r = 0 ∧ RIG T tx rx (fd + 1) pend idle armed v d w') w.
Proof using G Hwrite.
  apply wp_bind. eexists _, _. split; [done|]. eexists _, _. split; [done|]. rewrite Hwrite. cbn [Z.eqb].
  split; [done|]. destruct G as [B F S D]. split; [destruct B; split; done| |done..]. cbn. by rewrite F.
Qed.

Lemma rig_wake_read : wp wake_read (λ r w', r = fd ∧ RIG T tx rx 0 pend idle armed v d w') w.
Proof using G.
  eexists _, _. split; [done|]. split; [apply G|]. destruct G as [B F S D].
  split; [destruct B; split; done|done..].
Qed.

Lemma rig_readable : wp aiopquic_litmus_fd_readable
  (λ r w', r = (fd >? 0) ∧ RIG T tx rx 0 pend idle armed v d w') w.
Proof using G. apply wp_bind. eapply wp_mono; [apply rig_wake_read|]. intros r w' [-> G']. by apply wp_ret. Qed.

Lemma rig_set_pend n : wp (setb (b_set_rx_notify_pending n))
  (λ _ w', RIG T tx rx fd n idle armed v d w') w.
Proof using G. apply wp_setb. rig_same. Qed.
Lemma rig_set_idle n : wp (setb (b_set_tx_worker_idle n))
  (λ _ w', RIG T tx rx fd pend n armed v d w') w.
Proof using G. apply wp_setb. rig_same. Qed.
Lemma rig_set_armed n : wp (setb (b_set_tx_event_ring_drain_pending n))
  (λ _ w', RIG T tx rx fd pend idle n v d w') w.
Proof using G. apply wp_setb. rig_same. Qed.

Lemma rig_worker_trace kind a b :
  wp (worker_trace_add ev kind a b) (λ _ w', RIG T tx rx fd pend idle armed v d w') w.
Proof using G.
  apply wp_bind. eapply wp_mono; [apply rig_now|]. intros ts w1 G1. pose proof (bi_worker _ _ _ _ _ _ _ (rg_b _ _ _ _ _ _ _ _ _ _ _ _ G1)) as Hl.
  destruct (wake_trace_add_some _ ts kind a b Hl) as (t' & E & Hl'). eexists _, _.
  split; [by rewrite E|]. destruct G1 as [B F S D]. split; [destruct B; by split|done..].
Qed.

Lemma rig_asyncio_trace kind a b :
  wp (asyncio_trace_add ev kind a b) (λ _ w', RIG T tx rx fd pend idle armed v d w') w.
Proof using G.
  apply wp_bind. eapply wp_mono; [apply rig_now|]. intros ts w1 G1. pose proof (bi_asyncio _ _ _ _ _ _ _ (rg_b _ _ _ _ _ _ _ _ _ _ _ _ G1)) as Hl.
  destruct (wake_trace_add_some _ ts kind a b Hl) as (t' & E & Hl'). eexists _, _.
  split; [by rewrite E|]. destruct G1 as [B F S D]. split; [destruct B; by split|done..].
Qed.

Lemma rig_pend : b_rx_notify_pending (w_ctx w) = pend.
Proof using G. apply G. Qed.
Lemma rig_idle : b_tx_worker_idle (w_ctx w) = idle.
Proof using G. apply G. Qed.
Lemma rig_armed : b_tx_event_ring_drain_pending (w_ctx w) = armed.
Proof using G. apply G. Qed.
Lemma rig_rx : ring_is 64 T rx (b_rx_event_ring (w_ctx w)).
Proof using G. apply G. Qed.
Lemma rig_tx : ring_is 16 T tx (b_tx_event_ring (w_ctx w)).
Proof using G. apply G. Qed.
Lemma rig_low : 0 <= b_tx_event_ring_low_water (w_ctx w) < 16.
Proof using G. apply G. Qed.
End rig.

Create HintDb rig.
#[export] Hint Resolve rig_count rig_set_cnt rig_now rig_tick rig_wake_write rig_wake_read rig_readable
  rig_set_pend rig_set_idle rig_set_armed rig_worker_trace rig_asyncio_trace : rig.

(** The next call, whose lemma is [L]; the names of its result and of what holds then. *)
Tactic Notation "rig_do" uconstr(L) "as" simple_intropattern(x) simple_intropattern(G) :=
  apply wp_bind; eapply wp_mono; [by apply L|]; cbn beta; intros x ? G; cbn beta.

Section calls.
Context `{out : outside} (ev : env) (Hwrite : ∀ t, ev_errno ev t = 0) (sc db : Z).
Context {T : Z} {tx rx : list Z} {fd pend idle armed : Z} {v : sc_view} {d : Z * Z} {w : world}.
Context (G : rig sc db T tx rx fd pend idle armed v d w).
Abbreviation RIG := (rig sc db).

(** *** Notifying asyncio *)

Lemma rig_notify : wp (aiopquic_notify_rx ev)
  (λ _ w', RIG T tx rx (if pend =? 0 then fd + 1 else fd) 1 idle armed v d w') w.
Proof using G Hwrite.
  unfold aiopquic_notify_rx. apply wp_bind, wp_getb. rewrite (rig_pend sc db G).
  rig_do (rig_set_pend sc db G 1) as [] G2. destruct (pend =? 0); cbn [negb].
  - rig_do (rig_wake_write ev Hwrite sc db G2) as err [-> G3].
    rig_do (rig_count sc db G3 CNT_RX_NOTIFY_FLIPS) as [] G4. cbn [Z.eqb negb when].
    apply wp_bind, wp_ret. apply wp_bind, wp_getb. by apply rig_worker_trace.
  - by apply rig_count.
Qed.

Lemma rig_push_or_overflow e : entry_owns e = false -> zlen rx < 64 -> T + 1 < 2 ^ 64 ->
  wp (ring_push_or_overflow ev e [])
    (λ rc w', rc = 0 ∧ RIG (T + 1) tx (rx ++ [e_event_type e]) fd pend idle armed v d w') w.
Proof using G.
  intros He Hn HT. unfold ring_push_or_overflow. rig_do (rig_tick sc db G) as t G1. clear G.
  destruct G1 as [B F S D]. destruct (ring_is_borrow (bi_rx _ _ _ _ _ _ _ B) e He Hn HT) as (r' & E & R').
  eexists _, _. split.
  { unfold spsc_ring_push_or_overflow. rewrite (bi_depth _ _ _ _ _ _ _ B). cbn [Z.eqb].
    change (0 <? zlen []) with false. cbv iota. rewrite E. reflexivity. }
  split; [done|]. split; [|done..]. destruct B. split; try done. cbn. eapply ring_is_mono; [done|lia].
Qed.

End calls.

Section calls2.
Context `{out : outside} (ev : env) (Hwrite : ∀ t, ev_errno ev t = 0) (sc db : Z).
Context {T : Z} {tx rx : list Z} {fd pend idle armed : Z} {v : sc_view} {d : Z * Z} {w : world}.
Context (G : rig sc db T tx rx fd pend idle armed v d w).
Abbreviation RIG := (rig sc db).

Lemma rig_rx_push e : entry_owns e = false -> zlen rx < 64 -> T + 1 < 2 ^ 64 ->
  wp (aiopquic_rx_push ev e []) (λ rc w', rc = 0 ∧
    RIG (T + 1) tx (rx ++ [e_event_type e]) (if pend =? 0 then fd + 1 else fd) 1 idle armed v d w') w.
Proof using G Hwrite.
  intros He Hn HT. unfold aiopquic_rx_push. rig_do rig_push_or_overflow as rc [-> G1].
  cbn [Z.ltb Z.compare]. apply wp_bind. eapply wp_mono; [by apply (rig_notify ev Hwrite sc db G1)|]. intros [] w2 G2.
  by apply wp_ret.
Qed.

(** *** What asyncio does with the RX ring *)

Lemma rig_clear : wp (aiopquic_clear_rx ev)
  (λ _ w', RIG T tx rx (if zlen rx >? 0 then 1 else 0) 0 idle armed v d w') w.
Proof using G Hwrite.
  unfold aiopquic_clear_rx. apply wp_bind. eexists _, _. split.
  { unfold rx_refill, spsc_ring_refill_from_overflow. destruct (rg_b _ _ _ _ _ _ _ _ _ _ _ _ G).
    rewrite bi_nodes0, bi_depth0. reflexivity. }
  set (w1 := w_set_ctx _ w). assert (G1 : RIG T tx rx fd pend idle armed v d w1).
  { destruct G as [B F S D]. split; [destruct B; split; done|done..]. }
  rig_do (rig_wake_read sc db G1) as got [-> G2]. apply wp_bind, wp_getb. rewrite (rig_pend sc db G2).
  rig_do (rig_set_pend sc db G2 0) as [] G3. cbv zeta.
  rig_do (rig_count sc db G3) as [] G4.
  apply wp_bind, (wp_mono _ (λ _ w', RIG T tx rx 0 0 idle armed v d w')).
  { destruct (fd =? 0); [by apply rig_count|by apply wp_ret]. }
  intros [] w5 G5. apply wp_bind, wp_getb, wp_bind, wp_getb.
  rewrite (ring_is_count (rig_rx sc db G5)), (bi_depth _ _ _ _ _ _ _ (rg_b _ _ _ _ _ _ _ _ _ _ _ _ G5)).
  cbn [Z.gtb Z.compare]. rewrite orb_false_r.
  apply wp_bind, (wp_mono _ (λ _ w', RIG T tx rx (if zlen rx >? 0 then 1 else 0) 0 idle armed v d w')).
  { destruct (zlen rx >? 0); [|by apply wp_ret].
    rig_do (rig_wake_write ev Hwrite sc db G5) as err [-> G6]. rig_do (rig_count sc db G6) as [] G7.
    by apply wp_ret. }
  intros flags w6 G6. by apply rig_asyncio_trace.
Qed.

Lemma rig_rx_ring_push e : zlen rx < 64 -> T + 1 < 2 ^ 64 ->
  wp (rx_ring_push e) (λ rc w', RIG (T + 1) tx (rx ++ [e_event_type e]) fd pend idle armed v d w') w.
Proof using G.
  intros Hn HT. destruct G as [B F S D].
  destruct (ring_is_push (bi_rx _ _ _ _ _ _ _ B) 0 e (w_heap w) Hn HT) as (r' & E & R').
  eexists _, _. split; [unfold rx_ring_push; by rewrite E|]. split; [|done..].
  destruct B. split; try done. cbn. eapply ring_is_mono; [done|lia].
Qed.

Lemma rig_rx_peek : wp rx_peek (λ e w', w' = w ∧ match e, rx with
  | None, [] => True | Some e, t :: _ => e_event_type e = t | _, _ => False end) w.
Proof using G.
  pose proof (ring_is_peek (rig_rx sc db G)) as H. unfold rx_peek. destruct rx as [|t rx'].
  - eexists _, w. rewrite H. done.
  - destruct H as (slot & e & E & Ee & Et). eexists (Some e), w. by rewrite E, Ee.
Qed.

Lemma rig_rx_pop t rx' : rx = t :: rx' ->
  wp rx_pop (λ _ w', RIG T tx rx' fd pend idle armed v d w') w.
Proof using G.
  intros E. destruct (ring_is_pop (rig_rx sc db G) t rx' (w_heap w) E) as (r' & Ep & R').
  eexists _, _. split; [unfold rx_pop; by rewrite Ep|]. destruct G as [B F S D].
  split; [destruct B; split; done|done..].
Qed.

(** *** The TX ring *)

Lemma rig_tx_push e : zlen tx < 16 -> T + 1 < 2 ^ 64 ->
  wp (tx_ring_push ev e [])
    (λ rc w', rc = 0 ∧ RIG (T + 1) (tx ++ [e_event_type e]) rx fd pend idle armed v d w') w.
Proof using G.
  intros Hn HT. unfold tx_ring_push. rig_do (rig_tick sc db G) as t G1. clear G.
  destruct G1 as [B F S D].
  edestruct (ring_is_push (bi_tx _ _ _ _ _ _ _ B)) as (r' & E & R'); [exact Hn|exact HT|].
  eexists _, _. split; [by rewrite E|]. split; [done|]. split; [|done..].
  destruct B. split; try done. cbn. eapply ring_is_mono; [done|lia].
Qed.

Lemma rig_tx_full e : zlen tx = 16 ->
  wp (tx_ring_push ev e []) (λ rc w', rc = -1 ∧ RIG T tx rx fd pend idle armed v d w') w.
Proof using G.
  intros Hn. unfold tx_ring_push. rig_do (rig_tick sc db G) as t G1. clear G.
  eexists _, _. split; [by rewrite (ring_is_full (rig_tx sc db G1)) by done|].
  split; [done|]. destruct G1 as [B F S D]. split; [destruct B; split; done|done..].
Qed.

Lemma rig_tx_peek : wp tx_ring_peek (λ e w', w' = w ∧ match e, tx with
  | None, [] => True | Some _, _ :: _ => True | _, _ => False end) w.
Proof using G.
  pose proof (ring_is_peek (rig_tx sc db G)) as H. unfold tx_ring_peek. destruct tx as [|t tx'].
  - eexists _, w. rewrite H. done.
  - destruct H as (slot & e & E & Ee & Et). eexists (Some e), w. by rewrite E, Ee.
Qed.

Lemma rig_tx_pop t tx' : tx = t :: tx' ->
  wp tx_ring_pop (λ _ w', RIG T tx' rx fd pend idle armed v d w') w.
Proof using G.
  intros E. destruct (ring_is_pop (rig_tx sc db G) t tx' (w_heap w) E) as (r' & Ep & R').
  eexists _, _. split; [unfold tx_ring_pop; by rewrite Ep|]. destruct G as [B F S D].
  split; [destruct B; split; done|done..].
Qed.
End calls2.

Section calls3.
Context `{out : outside} (ev : env) (Hwrite : ∀ t, ev_errno ev t = 0) (sc db : Z).
Context {T : Z} {tx rx : list Z} {fd pend idle armed : Z} {v : sc_view} {d : Z * Z} {w : world}.
Context (G : rig sc db T tx rx fd pend idle armed v d w).
Abbreviation RIG := (rig sc db).

(** *** Waking the worker *)

Lemma rig_wake_needed : wp aiopquic_tx_wake_needed
  (λ r w', r = negb (idle =? 0) ∧ RIG T tx rx fd pend 0 armed v d w') w.
Proof using G.
  unfold aiopquic_tx_wake_needed. apply wp_bind, wp_getb. rewrite (rig_idle sc db G).
  destruct (Z.eqb_spec idle 0) as [Hz|Hz]; cbn [negb].
  - rig_do (rig_count sc db G) as [] G1. apply wp_ret. by rewrite <- Hz.
  - apply wp_bind, wp_getb. rewrite (rig_idle sc db G). rig_do (rig_set_idle sc db G 0) as [] G1.
    rewrite (proj2 (Z.eqb_neq idle 0)) by done. rig_do (rig_count sc db G1) as [] G2. by apply wp_ret.
Qed.

Lemma rig_idle_arm : wp aiopquic_tx_worker_idle_arm (λ saw w',
  saw = (zlen tx >? 0) ∧ RIG T tx rx fd pend (if zlen tx >? 0 then 0 else 1) armed v d w') w.
Proof using G.
  unfold aiopquic_tx_worker_idle_arm. rig_do (rig_set_idle sc db G 1) as [] G1.
  apply wp_bind. eapply wp_mono; [apply (rig_tx_peek sc db G1)|]. intros e w2 [-> He].
  destruct tx as [|t tx'], e; try done.
  - by apply wp_ret.
  - rig_do (rig_set_idle sc db G1 0) as [] G2. by apply wp_ret.
Qed.

(** *** The drain signal of the TX ring *)

Lemma rig_arm : wp (aiopquic_arm_tx_event_ring_drain_pending ev) (λ waits w',
  (waits = true -> 0 < zlen tx) ∧ RIG T tx rx fd pend idle 1 v d w') w.
Proof using G.
  unfold aiopquic_arm_tx_event_ring_drain_pending. rig_do (rig_count sc db G) as [] G1.
  rig_do (rig_now ev sc db G1) as now G2. rig_do (rig_set_cnt sc db G2) as [] G3.
  rig_do (rig_set_armed sc db G3 1) as [] G4. apply wp_getb. split; [|done].
  rewrite (ring_is_count (rig_tx sc db G4)), Z.gtb_ltb, Z.ltb_lt. pose proof (rig_low sc db G4). lia.
Qed.

(** Nothing, or the drained event for an armed signal; an empty ring leaves none armed. *)
Definition fired (tx rx rx' : list Z) (armed armed' : Z) : Prop :=
  (rx' = rx ∧ armed' = armed ∧ (tx = [] -> armed <> 1)) ∨
  (armed = 1 ∧ armed' = 0 ∧ rx' = rx ++ [evt_code SPSC_EVT_TX_EVENT_RING_DRAINED]).

Lemma rig_fire : zlen rx < 64 -> T + 1 < 2 ^ 64 ->
  wp (aiopquic_maybe_fire_tx_event_ring_drained ev) (λ _ w', ∃ rx' fd' pend' armed',
    fired tx rx rx' armed armed' ∧ RIG (T + 1) tx rx' fd' pend' idle armed' v d w') w.
Proof using G Hwrite.
  intros Hn HT. unfold aiopquic_maybe_fire_tx_event_ring_drained.
  assert (GT : RIG (T + 1) tx rx fd pend idle armed v d w) by (eapply rig_mono; [done|lia]).
  assert (Hstay : armed <> 1 ∨ tx <> [] -> ∃ rx' fd' pend' armed',
    fired tx rx rx' armed armed' ∧ RIG (T + 1) tx rx' fd' pend' idle armed' v d w).
  { intros Hs. exists rx, fd, pend, armed. split; [|done]. left. split_and!; try done.
    intros ->. by destruct Hs. }
  apply wp_bind, wp_getb. rewrite (rig_armed sc db G).
  destruct (Z.eqb_spec armed 1) as [Ha|Ha]; cbn [negb]; [|apply wp_ret; apply Hstay; by left].
  apply wp_bind, wp_getb, wp_bind, wp_getb. rewrite (ring_is_count (rig_tx sc db G)), Z.gtb_ltb.
  pose proof (rig_low sc db G) as Hlow.
  destruct (Z.ltb_spec (b_tx_event_ring_low_water (w_ctx w)) (zlen tx)) as [Hl|Hl].
  { apply wp_ret, Hstay. right. intros ->. cbn in Hl. lia. }
  apply wp_bind, wp_getb. rewrite (rig_armed sc db G), (proj2 (Z.eqb_eq armed 1)) by done. cbn [negb].
  rig_do (rig_set_armed sc db G 0) as [] G1.
  rig_do (rig_rx_push ev Hwrite sc db G1) as rc [-> G2]. cbn [Z.eqb].
  rig_do (rig_count sc db G2) as [] G3. rig_do (rig_now ev sc db G3) as now G4.
  eapply wp_mono; [by apply (rig_set_cnt sc db G4)|]. intros [] w5 G5.
  eexists _, _, _, 0. split; [|exact G5]. by right.
Qed.

(** *** The wrapper *)

Lemma rig_tx_used : wp (read_tx sc aiopquic_stream_buf_used) (λ n w', n = v_txn v ∧ w' = w) w.
Proof using G.
  destruct (rg_sc _ _ _ _ _ _ _ _ _ _ _ _ G) as (c & Ec & (tb & H & q & Et & R & _ & <-) & _).
  eexists _, w. unfold read_tx. rewrite Ec. cbn [mbind option_bind]. rewrite Et. cbn [mbind option_bind].
  split; [done|]. by rewrite (sb_used_eq _ _ _ R).
Qed.

Lemma rig_tx_free : wp (read_tx sc aiopquic_stream_buf_free) (λ n w', n = 64 - v_txn v ∧ w' = w) w.
Proof using G.
  destruct (rg_sc _ _ _ _ _ _ _ _ _ _ _ _ G) as (c & Ec & (tb & H & q & Et & R & Hc & <-) & _).
  eexists _, w. unfold read_tx. rewrite Ec. cbn [mbind option_bind]. rewrite Et. cbn [mbind option_bind].
  split; [done|]. by rewrite (sb_free_eq _ _ _ R), Hc.
Qed.

Lemma rig_rx_used : wp (read_rx sc aiopquic_stream_buf_used) (λ n w', n = v_rxn v ∧ w' = w) w.
Proof using G.
  destruct (rg_sc _ _ _ _ _ _ _ _ _ _ _ _ G) as (c & Ec & _ & (tb & H & q & Et & R & _ & <-) & _).
  eexists _, w. unfold read_rx. rewrite Ec. cbn [mbind option_bind]. rewrite Et. cbn [mbind option_bind].
  split; [done|]. by rewrite (sb_used_eq _ _ _ R).
Qed.

Lemma rig_fill_range : 0 <= v_txn v <= 64 ∧ 0 <= v_rxn v <= 64.
Proof using G.
  destruct (rg_sc _ _ _ _ _ _ _ _ _ _ _ _ G)
    as (c & _ & (tb & H & q & _ & R & Hc & <-) & (rb & H' & q' & _ & R' & Hc' & <-) & _).
  pose proof (sb_rep_fit _ _ _ R). pose proof (sb_rep_fit _ _ _ R'). lia.
Qed.

(** Any write of the wrapper. *)
Lemma rig_put_sc c g v' : sc_is v' c ->
  RIG T tx rx fd pend idle armed v' d (w_set_sc (ScWorld (<[sc := c]> (sw_scs (w_sc w))) g) w).
Proof using G.
  intros Hc. destruct G as [B F S D]. split; try done; cbn.
  - exists c. by rewrite lookup_insert_eq.
  - by rewrite delete_insert_eq.
Qed.
End calls3.

(** Bytes pushed to and popped from a ring of 64. *)
Lemma buf_push n b data : buf_is n b -> zlen data <= 64 ->
  ∃ tb tb', b = Some tb ∧ aiopquic_stream_buf_push tb data = Some (Z.min (zlen data) (64 - n), tb') ∧
    buf_is (n + Z.min (zlen data) (64 - n)) (Some tb').
Proof.
  intros (tb & H & q & -> & R & Hc & <-) Hd. pose proof (sb_rep_fit _ _ _ R).
  destruct (stream_buf_push_spec tb H q data R ltac:(lia)) as (tb' & E & R' & Hc' & _).
  unfold accepted in *. rewrite Hc in *. exists tb, tb'. split; [done|]. split; [done|].
  eexists tb', H, _. split; [done|]. split; [done|]. split; [congruence|].
  rewrite length_app, length_take. lia.
Qed.

Lemma buf_pop n b m : buf_is n b -> 0 <= m ->
  ∃ tb bs tb', b = Some tb ∧ aiopquic_stream_buf_pop tb m = Some (bs, tb') ∧ zlen bs = Z.min m n ∧
    buf_is (n - Z.min m n) (Some tb').
Proof.
  intros (tb & H & q & -> & R & Hc & <-) Hm.
  destruct (stream_buf_pop_spec tb H q m R Hm) as (tb' & E & R' & Hc' & _).
  eexists tb, _, tb'. split; [done|]. split; [done|]. split; [rewrite length_take; lia|].
  eexists tb', _, _. split; [done|]. split; [exact R'|]. split; [congruence|]. rewrite length_drop. lia.
Qed.

Section calls4.
Context `{out : outside} (ev : env) (Hwrite : ∀ t, ev_errno ev t = 0) (sc db : Z).
Context {T : Z} {tx rx : list Z} {fd pend idle armed : Z} {v : sc_view} {d : Z * Z} {w : world}.
Context (G : rig sc db T tx rx fd pend idle armed v d w).
Abbreviation RIG := (rig sc db).

Lemma rig_rx_write data : zlen data <= 64 -> wp (rx_write sc data) (λ _ w',
  RIG T tx rx fd pend idle armed
    (ScView (v_txn v) (v_txd v) (v_rxn v + Z.min (zlen data) (64 - v_rxn v)) (v_rxe v)) d w') w.
Proof using G.
  intros Hd. destruct (rg_sc _ _ _ _ _ _ _ _ _ _ _ _ G) as (c & Ec & Ht & Hr & H).
  destruct (buf_push _ _ data Hr Hd) as (rb & rb' & Er & E & Hr'). eexists _, _. split.
  { unfold rx_write, on_sc_val. rewrite Ec. cbn [mbind option_bind]. rewrite Er. cbn [mbind option_bind].
    rewrite E. reflexivity. }
  by apply (rig_put_sc sc db G).
Qed.

Lemma rig_rx_read n : 0 <= n -> wp (rx_read sc n) (λ bs w', zlen bs = Z.min n (v_rxn v) ∧
  RIG T tx rx fd pend idle armed
    (ScView (v_txn v) (v_txd v) (v_rxn v - Z.min n (v_rxn v)) (v_rxe v)) d w') w.
Proof using G.
  intros Hd. destruct (rg_sc _ _ _ _ _ _ _ _ _ _ _ _ G) as (c & Ec & Ht & Hr & H).
  destruct (buf_pop _ _ n Hr Hd) as (rb & bs & rb' & Er & E & El & Hr'). eexists bs, _. split.
  { unfold rx_read, on_sc_val. rewrite Ec. cbn [mbind option_bind]. rewrite Er. cbn [mbind option_bind].
    rewrite E. reflexivity. }
  split; [done|]. by apply (rig_put_sc sc db G).
Qed.

Lemma rig_tx_write data : zlen data <= 64 -> wp (tx_write sc data) (λ _ w',
  RIG T tx rx fd pend idle armed
    (ScView (v_txn v + Z.min (zlen data) (64 - v_txn v)) (v_txd v) (v_rxn v) (v_rxe v)) d w') w.
Proof using G.
  intros Hd. destruct (rg_sc _ _ _ _ _ _ _ _ _ _ _ _ G) as (c & Ec & Ht & Hr & H).
  destruct (buf_push _ _ data Ht Hd) as (tb & tb' & Et & E & Ht'). eexists _, _. split.
  { unfold tx_write, on_sc_val. rewrite Ec. cbn [mbind option_bind]. rewrite Et. cbn [mbind option_bind].
    rewrite E. reflexivity. }
  by apply (rig_put_sc sc db G).
Qed.

Lemma rig_tx_read n : 0 <= n -> wp (tx_read sc n) (λ bs w', zlen bs = Z.min n (v_txn v) ∧
  RIG T tx rx fd pend idle armed
    (ScView (v_txn v - Z.min n (v_txn v)) (v_txd v) (v_rxn v) (v_rxe v)) d w') w.
Proof using G.
  intros Hd. destruct (rg_sc _ _ _ _ _ _ _ _ _ _ _ _ G) as (c & Ec & Ht & Hr & H).
  destruct (buf_pop _ _ n Ht Hd) as (tb & bs & tb' & Et & E & El & Ht'). eexists bs, _. split.
  { unfold tx_read, on_sc_val. rewrite Ec. cbn [mbind option_bind]. rewrite Et. cbn [mbind option_bind].
    rewrite E. reflexivity. }
  split; [done|]. by apply (rig_put_sc sc db G).
Qed.

Lemma rig_upd_sc f v' : (∀ c, sc_is v c -> sc_is v' (f c)) ->
  wp (upd_sc sc f) (λ _ w', RIG T tx rx fd pend idle armed v' d w') w.
Proof using G.
  intros Hf. destruct (rg_sc _ _ _ _ _ _ _ _ _ _ _ _ G) as (c & Ec & Hc). eexists tt, _. split.
  { unfold upd_sc, on_sc, sc_update. by rewrite Ec. }
  by apply (rig_put_sc sc db G), Hf.
Qed.

Lemma rig_set_event n : wp (upd_sc sc (sc_set_rx_event_pending n)) (λ _ w',
  RIG T tx rx fd pend idle armed (ScView (v_txn v) (v_txd v) (v_rxn v) n) d w') w.
Proof using G. apply rig_upd_sc. by intros c (? & ? & ? & ? & ?). Qed.

Lemma rig_set_drain n : wp (upd_sc sc (sc_set_tx_drain_pending n)) (λ _ w',
  RIG T tx rx fd pend idle armed (ScView (v_txn v) n (v_rxn v) (v_rxe v)) d w') w.
Proof using G. apply rig_upd_sc. by intros c (? & ? & ? & ? & ?). Qed.

Lemma rig_event_arm : wp (rx_event_pending_arm sc) (λ b w', b = (v_rxe v =? 0) ∧
  RIG T tx rx fd pend idle armed (ScView (v_txn v) (v_txd v) (v_rxn v) 1) d w') w.
Proof using G.
  destruct (rg_sc _ _ _ _ _ _ _ _ _ _ _ _ G) as (c & Ec & Hc). eexists _, _. split.
  { unfold rx_event_pending_arm, on_sc_val. rewrite Ec. reflexivity. }
  destruct Hc as (? & ? & ? & He & ?). rewrite He. split; [done|]. by apply (rig_put_sc sc db G).
Qed.

Lemma rig_drain_take : wp (drain_take sc) (λ b w', b = (v_txd v =? 1) ∧
  RIG T tx rx fd pend idle armed (ScView (v_txn v) 0 (v_rxn v) (v_rxe v)) d w') w.
Proof using G.
  destruct (rg_sc _ _ _ _ _ _ _ _ _ _ _ _ G) as (c & Ec & Hc). eexists _, _. split.
  { unfold drain_take, on_sc_val. rewrite Ec. reflexivity. }
  destruct Hc as (? & ? & Hd & ? & ?). rewrite Hd. split; [done|]. by apply (rig_put_sc sc db G).
Qed.

(** A send of 16 bytes: queued whole, or none and the signal armed. *)
Lemma send_bytes a now c s : sc <> 0 -> sw_scs s !! sc = Some c -> sc_is v c ->
  ∃ rc c' g, aiopquic_stream_ctx_send_data a now [] sc (replicate 16 0) 64 false s
      = Some (rc, [], ScWorld (<[sc := c']> (sw_scs s)) g) ∧
    ((v_txn v + 16 <= 64 ∧ rc = 1 ∧ sc_is (ScView (v_txn v + 16) (v_txd v) (v_rxn v) (v_rxe v)) c') ∨
     (64 < v_txn v + 16 ∧ rc = 0 ∧ sc_is (ScView (v_txn v) 1 (v_rxn v) (v_rxe v)) c')).
Proof using Type.
  intros Hsc Ec (Ht & Hr & Hd & He & Hn). pose proof Ht as (tb & H & q & Et & R & Hc & Hq).
  unfold aiopquic_stream_ctx_send_data. rewrite (proj2 (Z.eqb_neq sc 0)) by done. rewrite Ec.
  cbn [mbind option_bind]. rewrite Et, Et. cbv zeta. change (zlen (replicate 16 0)) with 16.
  rewrite Hc. cbn [Z.gtb Z.compare Pos.compare Pos.compare_cont andb].
  change (u32 (u64 (sb_tail tb - sb_head tb))) with (aiopquic_stream_buf_used tb).
  rewrite (sb_used_eq _ _ _ R), Hq. pose proof (sb_rep_fit _ _ _ R) as Hfit. rewrite Hc, Hq in Hfit.
  rewrite (u32_small (64 - v_txn v)) by lia. destruct (Z.ltb_spec (64 - v_txn v) 16) as [Hf|Hf].
  - unfold sc_update. cbn [sw_scs sw_g]. rewrite lookup_insert_eq. cbn [mbind option_bind tx_worker_run].
    cbn [sw_scs]. rewrite lookup_insert_eq. cbn [mbind option_bind]. cbn [sc_tx sc_arm sc_set_tx_drain_pending
      sc_set_last_drain_arm_ns sc_set_cnt_drain_arms]. rewrite Et. cbn [mbind option_bind]. rewrite Hc.
    change (u32 (u64 (sb_tail tb - sb_head tb))) with (aiopquic_stream_buf_used tb).
    rewrite (sb_used_eq _ _ _ R), Hq, (u32_small (64 - v_txn v)) by lia.
    rewrite (proj2 (Z.ltb_lt _ _)) by lia. eexists 0, _, _. split; [by rewrite insert_insert_eq|].
    right. split; [lia|]. split; [done|]. by split_and!.
  - destruct (buf_push _ _ (replicate 16 0) Ht ltac:(done)) as (tb1 & tb' & Et' & E & Ht').
    rewrite Et in Et'. injection Et' as <-. change (zlen (replicate 16 0)) with 16 in E, Ht'.
    replace (Z.min 16 (64 - v_txn v)) with 16 in E, Ht' by lia.
    unfold send_commit. cbn [sw_scs sw_g]. rewrite lookup_insert_eq. cbn [mbind option_bind]. rewrite Et.
    cbn [mbind option_bind]. change (zlen (replicate 16 0)) with 16. cbn [Z.gtb Z.compare].
    rewrite E. cbn [mbind option_bind]. cbn [Z.eqb Pos.eqb negb]. unfold sc_put_tx. cbn [sw_scs sw_g].
    eexists 1, _, _. split; [by rewrite insert_insert_eq|]. left. split; [lia|]. split; [done|]. by split_and!.
Qed.
End calls4.

Section calls5.
Context `{out : outside} (ev : env) (sc db : Z) (Hsc : sc <> 0).
Context {T : Z} {tx rx : list Z} {fd pend idle armed : Z} {v : sc_view} {d : Z * Z} {w : world}.
Context (G : rig sc db T tx rx fd pend idle armed v d w).
Abbreviation RIG := (rig sc db).

Lemma rig_send : wp (litmus_send ev sc (replicate 16 0)) (λ rc w',
  (v_txn v + 16 <= 64 ∧ rc = 1 ∧
   RIG T tx rx fd pend idle armed (ScView (v_txn v + 16) (v_txd v) (v_rxn v) (v_rxe v)) d w') ∨
  (64 < v_txn v + 16 ∧ rc = 0 ∧
   RIG T tx rx fd pend idle armed (ScView (v_txn v) 1 (v_rxn v) (v_rxe v)) d w')) w.
Proof using G Hsc.
  destruct (rg_sc _ _ _ _ _ _ _ _ _ _ _ _ G) as (c & Ec & (tb & H & q & Et & R & Hc & Hq) & _).
  unfold litmus_send. apply wp_bind. eexists _, w. split.
  { unfold read_tx. rewrite Ec. cbn [mbind option_bind]. rewrite Et. reflexivity. }
  rewrite Hc. rig_do (rig_now ev sc db G) as now G1. rig_do (rig_tick sc db G1) as t G2.
  destruct (rg_sc _ _ _ _ _ _ _ _ _ _ _ _ G2) as (c2 & Ec2 & H2).
  edestruct send_bytes as (rc & c' & g & E & Hcs); [exact Hsc|exact Ec2|exact H2|].
  eexists rc, _. split; [unfold on_sc_val; rewrite E; reflexivity|].
  destruct Hcs as [(? & -> & Hv)|(? & -> & Hv)]; [left|right]; (split; [done|]); (split; [done|]); by apply (rig_put_sc sc db G2).
Qed.
End calls5.

(** ** The datagram ring *)

Lemma litmus_encode k : zlen (encode (replicate k litmus_rec)) = 12 * Z.of_nat k.
Proof. induction k as [|k IH]; [done|]. cbn [replicate]. rewrite encode_length_cons, IH. change (zlen litmus_rec) with 8. lia. Qed.

Lemma replicate_snoc {A} k (x : A) : replicate k x ++ [x] = replicate (S k) x.
Proof. induction k as [|k IH]; [done|]. cbn. by rewrite IH. Qed.

(** A push of the harness's record. *)
Lemma db_push n dd b : db_is n dd b -> ∃ rc b',
  aiopquic_dgram_buf_push_record [] b litmus_rec = Some (rc, [], b') ∧
  ((12 * n + 12 <= 64 ∧ rc = 1 ∧ db_is (n + 1) dd b') ∨ (64 < 12 * n + 12 ∧ rc = 0 ∧ db_is n 1 b')).
Proof.
  intros (H & k & R & <- & Hc & Hm & Hd & Hr). unfold aiopquic_dgram_buf_push_record.
  change (zlen litmus_rec) with 8. rewrite Hm. cbn [Z.gtb Z.compare Pos.compare Pos.compare_cont].
  change (u32 (u64 (db_tail b - db_head b))) with (aiopquic_dgram_buf_used b).
  rewrite (dr_free R), Hc, litmus_encode. change (u32 (AIOPQUIC_DGRAM_REC_HDR + 8)) with 12.
  destruct (Z.ltb_spec (64 - 12 * Z.of_nat k) 12) as [Hf|Hf].
  - cbn [worker_run mbind option_bind db_set_drain db_capacity db_tail db_head].
    change (u32 (u64 (db_tail b - db_head b))) with (aiopquic_dgram_buf_used b).
    rewrite (dr_free R), Hc, litmus_encode. rewrite (proj2 (Z.ltb_lt _ _)) by lia.
    eexists 0, _. split; [done|]. right. split; [lia|]. split; [done|].
    exists H, k. split; [|by split_and!]. destruct R. split; done.
  - destruct (push_write_spec R litmus_rec) as (buf & tail & E & R').
    { split; change (zlen litmus_rec) with 8; rewrite ?Hm; lia. }
    { rewrite litmus_encode, Hc. change (zlen litmus_rec) with 8. lia. }
    rewrite E. cbn [mbind option_bind]. eexists 1, _. split; [done|]. left. split; [lia|]. split; [done|].
    rewrite replicate_snoc in R'. exists H, (S k). split; [exact R'|]. split_and!; try done. lia.
Qed.

(** The worker's peek, and its pop of what it peeked. *)
Lemma db_peek n dd b : db_is n dd b -> aiopquic_dgram_buf_peek_len b = Some (if 0 <? n then 8 else 0).
Proof.
  intros (H & k & R & <- & _). destruct k as [|k]; [by apply (peek_empty R)|].
  rewrite (proj2 (Z.ltb_lt _ _)) by lia. by rewrite (peek_cons R litmus_rec (replicate k litmus_rec)).
Qed.

Lemma db_pop n dd b : db_is n dd b -> 0 < n -> ∃ r b',
  aiopquic_dgram_buf_pop_into b 8 = Some (r, b') ∧ db_is (n - 1) dd b'.
Proof.
  intros (H & k & R & <- & Hc & Hm & Hd & Hr) Hn. destruct k as [|k]; [done|].
  destruct (pop_cons R litmus_rec (replicate k litmus_rec) eq_refl) as (b' & E & -> & R').
  change (zlen litmus_rec) with 8 in *. eexists _, _. split; [exact E|]. exists (H + 4 + 8), k.
  split; [exact R'|]. split_and!; try done. lia.
Qed.

Section calls6.
Context `{out : outside} (sc db : Z).
Context {T : Z} {tx rx : list Z} {fd pend idle armed : Z} {v : sc_view} {n dd : Z} {w : world}.
Context (G : rig sc db T tx rx fd pend idle armed v (n, dd) w).
Abbreviation RIG := (rig sc db).

Lemma rig_on_db {A} (f : dgram_buf -> option (A * dgram_buf)) (Φ : A -> Z -> Z -> Prop) :
  (∀ b, db_is n dd b -> ∃ x b' n' dd', f b = Some (x, b') ∧ db_is n' dd' b' ∧ Φ x n' dd') ->
  wp (on_db db f) (λ x w', ∃ n' dd', Φ x n' dd' ∧ RIG T tx rx fd pend idle armed v (n', dd') w') w.
Proof using G.
  intros Hf. destruct (rg_db _ _ _ _ _ _ _ _ _ _ _ _ G) as (b & Eb & Hb).
  destruct (Hf b Hb) as (x & b' & n' & dd' & E & Hb' & HΦ). eexists x, _. split.
  { unfold on_db. rewrite Eb. cbn [mbind option_bind]. rewrite E. reflexivity. }
  exists n', dd'. split; [done|]. destruct G as [B F S D]. split; try done; cbn.
  - exists b'. by rewrite lookup_insert_eq.
  - by rewrite delete_insert_eq.
Qed.

Lemma rig_dgram_push : wp (dgram_push db litmus_rec) (λ rc w',
  (12 * n + 12 <= 64 ∧ rc = 1 ∧ RIG T tx rx fd pend idle armed v (n + 1, dd) w') ∨
  (64 < 12 * n + 12 ∧ rc = 0 ∧ RIG T tx rx fd pend idle armed v (n, 1) w')) w.
Proof using G.
  eapply wp_mono; [apply (rig_on_db _ (λ rc n' dd',
    (12 * n + 12 <= 64 ∧ rc = 1 ∧ n' = n + 1 ∧ dd' = dd) ∨ (64 < 12 * n + 12 ∧ rc = 0 ∧ n' = n ∧ dd' = 1)))|].
  - intros b Hb. destruct (db_push n dd b Hb) as (rc & b' & E & [(? & -> & Hb')|(? & -> & Hb')]);
      eexists _, b', _, _; (split; [by rewrite E|]); (split; [exact Hb'|]); [left|right]; done.
  - intros rc w' (n' & dd' & [(? & -> & -> & ->)|(? & -> & -> & ->)] & G'); [left|right]; done.
Qed.

Lemma rig_peek_len : wp (on_db db (λ b, k ← aiopquic_dgram_buf_peek_len b; Some (k, b)))
  (λ len w', len = (if 0 <? n then 8 else 0) ∧ RIG T tx rx fd pend idle armed v (n, dd) w') w.
Proof using G.
  eapply wp_mono; [apply (rig_on_db _ (λ len n' dd', len = (if 0 <? n then 8 else 0) ∧ n' = n ∧ dd' = dd))|].
  - intros b Hb. eexists _, b, n, dd. rewrite (db_peek n dd b Hb). done.
  - by intros len w' (n' & dd' & (-> & -> & ->) & G').
Qed.

Lemma rig_pop_into : 0 < n -> wp (on_db db (λ b, aiopquic_dgram_buf_pop_into b 8))
  (λ _ w', RIG T tx rx fd pend idle armed v (n - 1, dd) w') w.
Proof using G.
  intros Hn. eapply wp_mono; [apply (rig_on_db _ (λ _ n' dd', n' = n - 1 ∧ dd' = dd))|].
  - intros b Hb. destruct (db_pop n dd b Hb Hn) as (r & b' & E & Hb'). by eexists r, b', _, _.
  - by intros r w' (n' & dd' & (-> & ->) & G').
Qed.

Lemma rig_dgram_take : wp (on_db db (λ b, Some (aiopquic_dgram_buf_drain_take b)))
  (λ b w', b = (dd =? 1) ∧ RIG T tx rx fd pend idle armed v (n, 0) w') w.
Proof using G.
  eapply wp_mono; [apply (rig_on_db _ (λ b n' dd', b = (dd =? 1) ∧ n' = n ∧ dd' = 0))|].
  - intros b (H & k & R & E & Hc & Hm & Hd & Hr). unfold aiopquic_dgram_buf_drain_take. rewrite Hd.
    eexists _, _, n, 0. split; [done|]. split; [|done]. exists H, k. split; [|by split_and!].
    destruct R. split; done.
  - by intros r w' (n' & dd' & (-> & -> & ->) & G').
Qed.

Lemma rig_set_dgram m : wp (on_db db (λ b, Some (tt, db_set_drain b m)))
  (λ _ w', RIG T tx rx fd pend idle armed v (n, m) w') w.
Proof using G.
  eapply wp_mono; [apply (rig_on_db _ (λ _ n' dd', n' = n ∧ dd' = m))|].
  - intros b (H & k & R & E & Hc & Hm & Hd & Hr). eexists _, _, n, m. split; [done|]. split; [|done].
    exists H, k. split; [|by split_and!]. destruct R. split; done.
  - by intros r w' (n' & dd' & (-> & ->) & G').
Qed.

Lemma rig_dgram_used : wp (read_db db aiopquic_dgram_buf_used)
  (λ k w', k = 12 * n ∧ RIG T tx rx fd pend idle armed v (n, dd) w') w.
Proof using G.
  eapply wp_mono; [apply (rig_on_db _ (λ k n' dd', k = 12 * n ∧ n' = n ∧ dd' = dd))|].
  - intros b Hb. pose proof Hb as (H & k & R & E & _). eexists _, b, n, dd. split; [done|].
    split; [done|]. by rewrite (dr_used R), litmus_encode, E.
  - by intros r w' (n' & dd' & (-> & -> & ->) & G').
Qed.

Lemma rig_dgram_capacity : wp (read_db db db_capacity)
  (λ k w', k = 64 ∧ RIG T tx rx fd pend idle armed v (n, dd) w') w.
Proof using G.
  eapply wp_mono; [apply (rig_on_db _ (λ k n' dd', k = 64 ∧ n' = n ∧ dd' = dd))|].
  - intros b Hb. pose proof Hb as (H & k & R & E & Hc & _). by eexists _, b, n, dd.
  - by intros r w' (n' & dd' & (-> & -> & ->) & G').
Qed.

Lemma rig_dgram_range : 0 <= n <= 5.
Proof using G.
  destruct (rg_db _ _ _ _ _ _ _ _ _ _ _ _ G) as (b & Eb & H & k & R & E & Hc & _). cbn in E. subst n.
  pose proof (dr_fit R) as Hf. rewrite litmus_encode, Hc in Hf. lia.
Qed.
End calls6.
