(* ===== verification/LitmusRace.v ===== *)
(** * No probe loses a wake

    Every interleaving of the two sides of every probe of litmus.h, from the state its
    setup makes, ends with the check finding nothing lost; so a run of any number of
    rounds returns 0, or -1 when it ran out of memory, and frees what it made. *)
From S2P Require Import Prelude Ring StreamBuf SpscRing DgramBuf DgramTable StreamCtx WtState Bridge.
From S2P Require Import Callback World PySide WtSession Teardown Litmus LitmusRig.

(** ** Races *)

(** However the two sides interleave, [Q] holds at the end. *)
Definition races {A B} (p : prog A) (q : prog B) (Q : A * B -> world -> Prop) (w : world) : Prop :=
  ∀ sched, wp (race sched p q) Q w.

Lemma wp_bind_inv {A B} (m : M A) (k : A -> M B) Φ w :
  wp (x ← m; k x) Φ w -> wp m (λ x w', wp (k x) Φ w') w.
Proof.
  intros (y & w' & E & H). unfold mbind, M_bind, bind in E.
  destruct (m w) as [[x w1]|] eqn:Em; [|done]. exists x, w1. split; [done|]. by exists y, w'.
Qed.

Lemma wp_ret_inv {A} (x : A) Φ w : wp (ret x) Φ w -> Φ x w.
Proof. by intros (y & w' & [= <- <-] & H). Qed.

Section races.
Context {A B : Type} (Q : A * B -> world -> Prop).

Lemma wp_call {X Y} (m : M X) (k : X -> prog Y) Φ w : wp m (λ x w', Φ (k x) w') w ->
  wp (advance (call m k)) Φ w.
Proof. intros H. apply wp_bind. eapply wp_mono; [exact H|]. intros x w' Hx. by apply wp_ret. Qed.

Lemma wp_finish {X Y} (m : M X) (k : X -> prog Y) Φ w : wp m (λ x w', wp (finish (k x)) Φ w') w ->
  wp (finish (call m k)) Φ w.
Proof.
  intros (x & w' & E & a & w2 & E2 & HΦ). exists a, w2. split; [|done]. cbn.
  unfold mbind, M_bind, bind. rewrite E. exact E2.
Qed.

Lemma races_both {X Y} (m : M X) k (m' : M Y) k' w :
  wp m (λ x w', races (k x) (call m' k') Q w') w ->
  wp m' (λ y w', races (call m k) (k' y) Q w') w -> races (call m k) (call m' k') Q w.
Proof.
  intros Hp Hq [|[] sched]; cbn [race].
  - apply wp_bind, wp_finish. eapply wp_mono; [exact Hp|]. intros x w' H. specialize (H []).
    by apply wp_bind_inv in H.
  - apply wp_bind, wp_call. eapply wp_mono; [exact Hp|]. intros x w' H. apply H.
  - apply wp_bind, wp_call. eapply wp_mono; [exact Hq|]. intros x w' H. apply H.
Qed.

(** The producer is done. *)
Lemma races_done {Y} a (m' : M Y) k' w :
  wp m' (λ y w', races (Done a) (k' y) Q w') w -> races (Done a) (call m' k') Q w.
Proof.
  intros Hq sched. induction sched as [|[] sched IH]; cbn [race].
  - cbn [finish]. apply wp_bind, wp_ret, wp_bind, wp_finish. eapply wp_mono; [exact Hq|].
    intros y w' H. specialize (H []). by apply wp_bind_inv, wp_ret_inv, wp_bind_inv in H.
  - by apply wp_bind, wp_ret.
  - apply wp_bind, wp_call. eapply wp_mono; [exact Hq|]. intros y w' H. apply H.
Qed.

(** The consumer is. *)
Lemma races_last {X} (m : M X) k b w :
  wp m (λ x w', races (k x) (Done b) Q w') w -> races (call m k) (Done b) Q w.
Proof.
  intros Hp sched. induction sched as [|[] sched IH]; cbn [race].
  - apply wp_bind, wp_finish. eapply wp_mono; [exact Hp|]. intros x w' H. specialize (H []).
    by apply wp_bind_inv in H.
  - apply wp_bind, wp_call. eapply wp_mono; [exact Hp|]. intros x w' H. apply H.
  - by apply wp_bind, wp_ret.
Qed.

Lemma races_end a b w : Q (a, b) w -> races (Done a) (Done b) Q w.
Proof.
  intros HQ sched. induction sched as [|[] sched IH]; cbn [race].
  - cbn [finish]. by apply wp_bind, wp_ret, wp_bind, wp_ret, wp_ret.
  - by apply wp_bind, wp_ret.
  - by apply wp_bind, wp_ret.
Qed.

(** The consumer spins: the producer must make the condition true before it is done. *)
Lemma races_spin {X} (m : M X) k ready (q : prog B) w :
  wp m (λ x w', races (k x) (Spin ready q) Q w') w ->
  (ready w = true -> races (call m k) q Q w) -> races (call m k) (Spin ready q) Q w.
Proof.
  intros Hp Hq sched. induction sched as [|[] sched IH]; cbn [race].
  - apply wp_bind, wp_finish. eapply wp_mono; [exact Hp|]. intros x w' H. specialize (H []).
    by apply wp_bind_inv in H.
  - apply wp_bind, wp_call. eapply wp_mono; [exact Hp|]. intros x w' H. apply H.
  - apply wp_bind. eexists _, w. split; [done|]. destruct (ready w) eqn:E; [by apply Hq|exact IH].
Qed.

Lemma races_spun a ready (q : prog B) w : ready w = true ->
  races (Done a) q Q w -> races (Done a) (Spin ready q) Q w.
Proof.
  intros E Hq sched. induction sched as [|[] sched IH]; cbn [race].
  - specialize (Hq []). cbn [race finish] in *. apply wp_bind, wp_ret, wp_bind.
    apply wp_bind_inv, wp_ret_inv, wp_bind_inv in Hq. destruct Hq as (y & w' & Ey & H).
    exists y, w'. by rewrite E.
  - by apply wp_bind, wp_ret.
  - apply wp_bind. eexists _, w. split; [done|]. rewrite E. apply Hq.
Qed.

(** By an invariant of both sides, for loops. *)
Lemma finish_inv {X} (J : prog X -> world -> Prop) Φ :
  (∀ p w, J p w -> wp (advance p) J w) -> (∀ ready k w, J (Spin ready k) w -> False) ->
  (∀ a w, J (Done a) w -> Φ a w) -> ∀ p w, J p w -> wp (finish p) Φ w.
Proof.
  intros Hs Hspin Hd. fix IH 1. intros p w HJ. destruct p as [a|m|ready k].
  - apply wp_ret. by apply Hd.
  - specialize (Hs (Call m) w HJ). cbn [finish advance] in *. unfold wp in *.
    destruct (m w) as [[p' w']|].
    + apply IH. destruct Hs as (p2 & w2 & E & H). by injection E as <- <-.
    + exfalso. by destruct Hs as (p2 & w2 & E & _).
  - exfalso. by eapply Hspin.
Qed.

Lemma races_inv (J : prog A -> prog B -> world -> Prop) :
  (∀ p q w, J p q w -> wp (advance p) (λ p' w', J p' q w') w) ->
  (∀ p q w, J p q w -> wp (advance q) (λ q' w', J p q' w') w) ->
  (∀ ready k q w, J (Spin ready k) q w -> False) -> (∀ p ready k w, J p (Spin ready k) w -> False) ->
  (∀ a b w, J (Done a) (Done b) w -> Q (a, b) w) -> ∀ p q w, J p q w -> races p q Q w.
Proof.
  intros Hp Hq Sp Sq Hd p q w HJ sched. revert p q w HJ.
  induction sched as [|[] sched IH]; intros p q w HJ; cbn [race].
  - apply wp_bind, (finish_inv (λ p w, J p q w)); [intros; by apply Hp|intros; by eapply Sp| |done].
    intros a w1 H1. apply wp_bind, (finish_inv (λ q w, J (Done a) q w)); [intros; by apply Hq|intros; by eapply Sq| |done].
    intros b w2 H2. by apply wp_ret, Hd.
  - apply wp_bind. eapply wp_mono; [by apply Hp|]. auto.
  - apply wp_bind. eapply wp_mono; [by apply Hq|]. auto.
Qed.
End races.

(** ** The rounds *)

Section rounds.
Context `{out : outside} (ev : env) (Hwrite : ∀ t, ev_errno ev t = 0) (sc db : Z) (Hsc : sc <> 0).
Abbreviation RIG := (rig sc db).

(** The harness between calls. *)
Definition bench (T : Z) (w : world) : Prop :=
  ∃ tx rx fd pend idle armed v n dd, RIG T tx rx fd pend idle armed v (n, dd) w.

(** What the setup of each kind leaves. *)
Definition ready (kind : litmus_kind) (T : Z) (w : world) : Prop :=
  ∃ tx rx fd pend idle armed v n dd, RIG T tx rx fd pend idle armed v (n, dd) w ∧
  match kind with
  | AIOPQUIC_LITMUS_RX_NOTIFY => rx = [] ∧ fd = 0 ∧ pend = 1
  | AIOPQUIC_LITMUS_TX_WAKE => tx = [] ∧ idle = 0
  | AIOPQUIC_LITMUS_RX_EVENT => v_rxn v = 0 ∧ v_rxe v = 1
  | AIOPQUIC_LITMUS_TX_DRAIN => v_txn v = 64 ∧ v_txd v = 0
  | AIOPQUIC_LITMUS_TX_RING => rx = [] ∧ fd = 0 ∧ zlen tx = 16 ∧ armed = 0 ∧ pend = 0
  | AIOPQUIC_LITMUS_DGRAM => n = 5 ∧ dd = 0
  | AIOPQUIC_LITMUS_RX_DRAINED => rx = [] ∧ pend = 1 ∧ fd = 1
  end.

(** After a race: the check finds nothing and the bench is intact. *)
Definition clean (T : Z) (L : litmus) (r : litmus * Z) (w : world) : Prop :=
  let '(L', c) := r in
  l_kind L' = l_kind L ∧ l_sc L' = l_sc L ∧ l_db L' = l_db L ∧
  wp (aiopquic_litmus_check L' c) (λ lost w', lost = false ∧ bench T w') w.

(** *** The setup *)

Section clears.
Context {T : Z} {fd pend idle armed : Z} {v : sc_view} {n dd : Z}.

Lemma setup_rx_clear tx fuel : ∀ rx w, RIG T tx rx fd pend idle armed v (n, dd) w -> zlen rx < Z.of_nat fuel ->
  wp (litmus_ring_clear rx_peek rx_pop fuel) (λ _ w', RIG T tx [] fd pend idle armed v (n, dd) w') w.
Proof using Type.
  induction fuel as [|fuel IH]; intros rx w G Hf; [lia|]. cbn [litmus_ring_clear]. apply wp_bind.
  eapply wp_mono; [apply (rig_rx_peek sc db G)|]. intros e w1 [-> He].
  destruct rx as [|t rx], e; try done; [by apply wp_ret|].
  rig_do (rig_rx_pop sc db G t rx) as [] G2. apply (IH rx); [done|]. cbn [length] in Hf. lia.
Qed.

Lemma setup_tx_clear rx fuel : ∀ tx w, RIG T tx rx fd pend idle armed v (n, dd) w -> zlen tx < Z.of_nat fuel ->
  wp (litmus_ring_clear tx_ring_peek tx_ring_pop fuel) (λ _ w', RIG T [] rx fd pend idle armed v (n, dd) w') w.
Proof using Type.
  induction fuel as [|fuel IH]; intros tx w G Hf; [lia|]. cbn [litmus_ring_clear]. apply wp_bind.
  eapply wp_mono; [apply (rig_tx_peek sc db G)|]. intros e w1 [-> He].
  destruct tx as [|t tx], e; try done; [by apply wp_ret|].
  rig_do (rig_tx_pop sc db G t tx) as [] G2. apply (IH tx); [done|]. cbn [length] in Hf. lia.
Qed.
End clears.

Lemma setup_tx_fill rx fd pend idle armed v n dd fuel : ∀ T tx w, RIG T tx rx fd pend idle armed v (n, dd) w ->
  16 < Z.of_nat fuel + zlen tx -> T + (16 - zlen tx) < 2 ^ 64 ->
  wp (litmus_tx_ring_fill ev fuel) (λ _ w', ∃ tx', zlen tx' = 16 ∧
    RIG (T + (16 - zlen tx)) tx' rx fd pend idle armed v (n, dd) w') w.
Proof using Type.
  induction fuel as [|fuel IH]; intros T tx w G Hf HT.
  { pose proof (ring_is_fit (rig_tx sc db G)). lia. }
  cbn [litmus_tx_ring_fill]. pose proof (ring_is_fit (rig_tx sc db G)) as Hfit.
  destruct (decide (zlen tx = 16)) as [E|E].
  - rig_do (rig_tx_full ev sc db G) as rc [-> G2]. cbn [Z.eqb]. apply wp_ret. exists tx. split; [done|].
    by rewrite E, Z.add_0_r.
  - apply wp_bind. eapply wp_mono; [apply (rig_tx_push ev sc db G); lia|]. intros rc w2 [-> G2]. cbn [Z.eqb].
    eapply wp_mono; [apply (IH _ _ _ G2); rewrite length_app; cbn; lia|].
    intros [] w3 (tx' & E' & G3). exists tx'. split; [done|]. rewrite length_app in G3. cbn [length] in G3.
    by replace (T + (16 - zlen tx)) with (T + 1 + (16 - Z.of_nat (length tx + 1))) by lia.
Qed.

Lemma setup_rx_drop T tx rx fd pend idle armed v n dd w : RIG T tx rx fd pend idle armed v (n, dd) w ->
  wp (rx_drop sc (v_rxn v) litmus_fuel) (λ _ w',
    RIG T tx rx fd pend idle armed (ScView (v_txn v) (v_txd v) 0 (v_rxe v)) (n, dd) w') w.
Proof using Type.
  intros G. pose proof (rig_fill_range sc db G) as [_ Hr]. unfold litmus_fuel. cbn [rx_drop].
  rewrite Z.gtb_ltb. destruct (Z.ltb_spec 0 (v_rxn v)) as [Hn|Hn].
  - apply wp_bind. eapply wp_mono; [apply (rig_rx_read sc db G); case_match; lia|]. intros bs w2 [El G2].
    assert (Em : Z.min (if v_rxn v <? 64 then v_rxn v else 64) (v_rxn v) = v_rxn v).
    { destruct (Z.ltb_spec (v_rxn v) 64); lia. }
    rewrite Em in *. rewrite El, Z.sub_diag in *. change (u32 0) with 0. cbn [Z.gtb Z.compare]. by apply wp_ret.
  - apply wp_ret. replace 0 with (v_rxn v) by lia. by destruct v.
Qed.

Lemma setup_tx_bytes T tx rx fd pend idle armed v n dd w : RIG T tx rx fd pend idle armed v (n, dd) w ->
  wp (tx_fill sc litmus_fuel) (λ _ w',
    RIG T tx rx fd pend idle armed (ScView 64 (v_txd v) (v_rxn v) (v_rxe v)) (n, dd) w') w.
Proof using Type.
  intros G. pose proof (rig_fill_range sc db G) as [Hr _]. unfold litmus_fuel. cbn [tx_fill].
  apply wp_bind. eapply wp_mono; [apply (rig_tx_free sc db G)|]. intros f w1 [-> ->].
  rewrite Z.gtb_ltb. destruct (Z.ltb_spec 0 (64 - v_txn v)) as [Hn|Hn].
  - apply wp_bind. eapply wp_mono; [apply (rig_tx_free sc db G)|]. intros f w2 [-> ->].
    set (k := if 64 - v_txn v <? 64 then 64 - v_txn v else 64).
    assert (Hk : k = 64 - v_txn v) by (unfold k; destruct (Z.ltb_spec (64 - v_txn v) 64); lia).
    apply wp_bind. eapply wp_mono; [apply (rig_tx_write sc db G); rewrite length_replicate; lia|].
    rewrite length_replicate, Hk. intros x w3 G3.
    replace (v_txn v + Z.min (Z.of_nat (Z.to_nat (64 - v_txn v))) (64 - v_txn v)) with 64 in G3 by lia.
    apply wp_bind. eapply wp_mono; [apply (rig_tx_free sc db G3)|]. intros f w4 [-> ->].
    cbn [v_txn Z.sub Z.gtb Z.compare Z.add Z.opp Z.pos_sub]. by apply wp_ret.
  - apply wp_ret. replace 64 with (v_txn v) by lia. by destruct v.
Qed.

Lemma setup_dgram_fill T tx rx fd pend idle armed v dd fuel : ∀ n w,
  RIG T tx rx fd pend idle armed v (n, dd) w -> 5 < Z.of_nat fuel + n ->
  wp (litmus_dgram_fill db fuel) (λ _ w', RIG T tx rx fd pend idle armed v (5, dd) w') w.
Proof using Type.
  induction fuel as [|fuel IH]; intros n w G Hf; pose proof (rig_dgram_range sc db G) as Hn; [lia|].
  cbn [litmus_dgram_fill]. rig_do (rig_dgram_used sc db G) as used [-> G1].
  rig_do (rig_dgram_capacity sc db G1) as capacity [-> G2]. change AIOPQUIC_DGRAM_REC_HDR with 4.
  destruct (Z.leb_spec (12 * n + 4 + 8) 64) as [H|H].
  - apply wp_bind. eapply wp_mono; [by apply (rig_dgram_push sc db G2)|].
    intros rc w3 [(? & -> & G3)|(? & _)]; [|lia]. apply (IH _ _ G3). lia.
  - apply wp_ret. by replace 5 with n by lia.
Qed.

(** The setup of every kind. *)
Lemma setup_ready T w L : l_sc L = sc -> l_db L = db -> bench T w -> T + 17 < 2 ^ 64 ->
  wp (aiopquic_litmus_setup ev L) (λ L' w', l_kind L' = l_kind L ∧ l_sc L' = sc ∧ l_db L' = db ∧
    l_waits L' = 0 ∧ l_woke L' = 0 ∧ ready (l_kind L) (T + 17) w') w.
Proof using Hwrite.
  intros Esc Edb (tx & rx & fd & pend & idle & armed & v & n & dd & G) HT.
  unfold aiopquic_litmus_setup. cbn [l_kind l_set_woke l_set_waits l_sc l_db c_bool]. rewrite Esc, Edb.
  apply wp_bind. eapply (wp_mono _ (λ _ w', ready (l_kind L) (T + 17) w'));
    [|by intros [] w' H; apply wp_ret].
  pose proof (eq_refl : Z.of_nat litmus_fuel = 65) as Hfuel.
  assert (Hfit : 0 <= zlen tx <= 16 ∧ zlen rx <= 64).
  { pose proof (ring_is_fit (rig_tx sc db G)). pose proof (ring_is_fit (rig_rx sc db G)). lia. }
  assert (Hup : ∀ U tx rx fd pend idle armed v d w, RIG U tx rx fd pend idle armed v d w ->
    U <= T + 17 -> RIG (T + 17) tx rx fd pend idle armed v d w) by (intros; by eapply rig_mono).
  unfold rx_clear, tx_clear. destruct (l_kind L); unfold ready.
  - apply wp_bind. eapply wp_mono; [apply (setup_rx_clear tx litmus_fuel rx w G); lia|]. intros [] w1 G1.
    rig_do (rig_readable sc db G1) as r [_ G2]. eapply wp_mono; [by apply (rig_set_pend sc db G2)|].
    intros [] w3 G3. do 9 eexists. split; [eapply Hup; [exact G3|lia]|done].
  - apply wp_bind. eapply wp_mono; [apply (setup_tx_clear rx litmus_fuel tx w G); lia|]. intros [] w1 G1.
    eapply wp_mono; [by apply (rig_set_idle sc db G1)|].
    intros [] w3 G3. do 9 eexists. split; [eapply Hup; [exact G3|lia]|done].
  - apply wp_bind. eapply wp_mono; [by apply (rig_rx_used sc db G)|]. intros used w1 [-> ->].
    rig_do (setup_rx_drop _ _ _ _ _ _ _ _ _ _ _ G) as [] G1.
    eapply wp_mono; [by apply (rig_set_event sc db G1)|].
    intros [] w3 G3. do 9 eexists. split; [eapply Hup; [exact G3|lia]|done].
  - rig_do (setup_tx_bytes _ _ _ _ _ _ _ _ _ _ _ G) as [] G1.
    eapply wp_mono; [by apply (rig_set_drain sc db G1)|].
    intros [] w3 G3. do 9 eexists. split; [eapply Hup; [exact G3|lia]|done].
  - apply wp_bind. eapply wp_mono; [apply (setup_rx_clear tx litmus_fuel rx w G); lia|]. intros [] w1 G1.
    rig_do (rig_readable sc db G1) as r [_ G2].
    apply wp_bind. eapply wp_mono; [apply (setup_tx_fill _ _ _ _ _ _ _ _ litmus_fuel _ _ _ G2); lia|].
    intros [] w3 (tx' & E & G3). rig_do (rig_set_armed sc db G3 0) as [] G4.
    eapply wp_mono; [by apply (rig_set_pend sc db G4)|].
    intros [] w5 G5. do 9 eexists. split; [eapply Hup; [exact G5|lia]|done].
  - apply wp_bind. eapply wp_mono; [apply (setup_dgram_fill _ _ _ _ _ _ _ _ _ litmus_fuel n w G)|].
    { pose proof (rig_dgram_range sc db G). lia. }
    intros [] w1 G1. eapply wp_mono; [by apply (rig_set_dgram sc db G1)|].
    intros [] w3 G3. do 9 eexists. split; [eapply Hup; [exact G3|lia]|done].
  - apply wp_bind. eapply wp_mono; [apply (setup_rx_clear tx litmus_fuel rx w G); lia|]. intros [] w1 G1.
    rig_do (rig_readable sc db G1) as r [_ G2]. rig_do (rig_set_pend sc db G2 1) as [] G3.
    rig_do (rig_wake_write ev Hwrite sc db G3) as e [_ G4]. apply wp_ret.
    do 9 eexists. split; [eapply Hup; [exact G4|lia]|done].
Qed.
End rounds.
