(* ===== verification/LitmusKinds.v ===== *)
(** * The probes, one by one

    From the state its setup makes, every interleaving of the two sides of a probe ends
    with the check finding nothing lost ([kind_clean]). *)
From S2P Require Import Prelude Ring StreamBuf SpscRing DgramBuf DgramTable StreamCtx WtState Bridge.
From S2P Require Import Callback World PySide WtSession Teardown Litmus LitmusRig LitmusRace.

Section kinds.
Context `{out : outside} (ev : env) (Hwrite : ∀ t, ev_errno ev t = 0) (sc db : Z) (Hsc : sc <> 0).
Abbreviation RIG := (rig sc db).
Abbreviation BENCH := (bench sc db).
Abbreviation CLEAN := (clean sc db).

(** A kind of probe loses nothing. *)
Definition loses_nothing (K : litmus_kind) : Prop := ∀ T w,
  ready sc db K T w -> T + 32 < 2 ^ 64 ->
  races (aiopquic_litmus_produce ev (Litmus K sc db 0 0)) (aiopquic_litmus_consume ev (Litmus K sc db 0 0))
        (CLEAN (T + 32) (Litmus K sc db 0 0)) w.

Lemma rig_bench {T T' tx rx fd pend idle armed v d w} :
  RIG T tx rx fd pend idle armed v d w -> T <= T' -> BENCH T' w.
Proof using Type. intros G HT. destruct d as [n dd]. do 9 eexists. by eapply rig_mono. Qed.

(** *** RX_NOTIFY and RX_DRAINED: nothing queued, or the descriptor readable *)

Lemma rx_notify_clean T tx rx fd pend idle armed v d w : RIG T tx rx fd pend idle armed v d w ->
  rx = [] ∨ 0 < fd -> races (Done (Litmus AIOPQUIC_LITMUS_RX_NOTIFY sc db 0 0)) (Done 0)
    (CLEAN T (Litmus AIOPQUIC_LITMUS_RX_NOTIFY sc db 0 0)) w.
Proof using Type.
  intros G Hw. apply races_end. split_and!; try done. cbn [aiopquic_litmus_check l_kind].
  apply wp_bind, wp_getb. unfold spsc_ring_empty. rewrite (ring_is_count (rig_rx sc db G)).
  destruct (Z.eqb_spec (zlen rx) 0) as [E|E]; cbn [negb].
  - apply wp_ret. split; [done|]. by eapply rig_bench.
  - destruct Hw as [->|Hw]; [done|]. rig_do (rig_readable sc db G) as r [-> G2]. apply wp_ret.
    rewrite Z.gtb_ltb, (proj2 (Z.ltb_lt _ _)) by done. split; [done|]. by eapply rig_bench.
Qed.

Lemma rx_notify_races : loses_nothing AIOPQUIC_LITMUS_RX_NOTIFY.
Proof using Hwrite.
  intros T w (tx & rx & fd & pend & idle & armed & v & n & dd & G & -> & -> & ->) HT.
  apply rig_mono with (T' := T + 31) in G as G'; [|lia]. clear G. rename G' into G.
  apply races_both.
  - eapply wp_mono; [apply (rig_rx_push ev Hwrite sc db G); [done|cbn; lia|lia]|]. intros rc w1 [-> G1].
    apply races_done. eapply wp_mono; [by apply (rig_clear ev Hwrite sc db G1)|]. intros [] w2 G2.
    replace (T + 31 + 1) with (T + 32) in G2 by lia. eapply rx_notify_clean; [exact G2|by right].
  - eapply wp_mono; [by apply (rig_clear ev Hwrite sc db G)|]. intros [] w1 G1.
    apply races_last. eapply wp_mono; [apply (rig_rx_push ev Hwrite sc db G1); [done|cbn; lia|lia]|].
    intros rc w2 [-> G2].
    replace (T + 31 + 1) with (T + 32) in G2 by lia. eapply rx_notify_clean; [exact G2|by right].
Qed.

(** A late notify never leaves the flag set without a wake. *)
Definition armed_wake (fd pend : Z) : Prop := 0 <= fd ∧ (pend = 0 ∨ 0 < fd).

Section drained.
Context {T : Z}.
Abbreviation L := (Litmus AIOPQUIC_LITMUS_RX_DRAINED sc db 0 0).
Abbreviation clear := (call (aiopquic_clear_rx ev) (λ _, Done 0)).
Abbreviation notify := (call (aiopquic_notify_rx ev) (λ _, Done L)).
Abbreviation RACES p q := (∀ tx rx fd pend idle armed v d w,
  RIG T tx rx fd pend idle armed v d w -> armed_wake fd pend -> races p q (CLEAN T L) w).

Lemma drained_done : RACES (Done L) (Done 0).
Proof using Type.
  intros tx rx fd pend idle armed v d w G [_ Hw]. apply races_end. split_and!; try done.
  cbn [aiopquic_litmus_check l_kind]. apply wp_bind, wp_getb. rewrite (rig_pend sc db G).
  destruct (Z.eqb_spec pend 0) as [E|E]; cbn [negb].
  - apply wp_ret. split; [done|]. by eapply rig_bench.
  - rig_do (rig_readable sc db G) as r [-> G2]. apply wp_ret.
    rewrite Z.gtb_ltb, (proj2 (Z.ltb_lt _ _)) by lia. split; [done|]. by eapply rig_bench.
Qed.

Lemma wake_cleared (rx : list Z) : armed_wake (if zlen rx >? 0 then 1 else 0) 0.
Proof using Type. split; [by case_match|by left]. Qed.

Lemma wake_notified fd pend : armed_wake fd pend -> armed_wake (if pend =? 0 then fd + 1 else fd) 1.
Proof using Type. intros [Hf Hw]. split; destruct (Z.eqb_spec pend 0); lia. Qed.

Lemma drained_clear : RACES (Done L) clear.
Proof using Hwrite.
  intros tx rx fd pend idle armed v d w G _. apply races_done.
  eapply wp_mono; [by apply (rig_clear ev Hwrite sc db G)|]. intros [] w1 G1.
  by eapply drained_done, wake_cleared.
Qed.

Lemma drained_notify q : RACES (Done L) q -> ∀ tx rx fd pend idle armed v d w,
  RIG T tx rx fd pend idle armed v d w -> armed_wake fd pend ->
  wp (aiopquic_notify_rx ev) (λ _ w', races (Done L) q (CLEAN T L) w') w.
Proof using Hwrite.
  intros Hq tx rx fd pend idle armed v d w G Hw.
  eapply wp_mono; [by apply (rig_notify ev Hwrite sc db G)|]. intros [] w1 G1.
  by eapply Hq, wake_notified.
Qed.

Lemma notify_clear : RACES notify clear.
Proof using Hwrite.
  intros tx rx fd pend idle armed v d w G Hw. apply races_both.
  - by eapply drained_notify; [apply drained_clear| |].
  - eapply wp_mono; [by apply (rig_clear ev Hwrite sc db G)|]. intros [] w1 G1. apply races_last.
    eapply drained_notify; [apply drained_done|exact G1|apply wake_cleared].
Qed.

Lemma drained_pop t tx rx fd pend idle armed v d w :
  RIG T tx (t :: rx) fd pend idle armed v d w -> armed_wake fd pend ->
  races (Done L) (call rx_pop (λ _, clear)) (CLEAN T L) w ∧
  races notify (call rx_pop (λ _, clear)) (CLEAN T L) w.
Proof using Hwrite.
  intros G Hw. assert (Hd : ∀ fd pend w, RIG T tx (t :: rx) fd pend idle armed v d w -> armed_wake fd pend ->
    races (Done L) (call rx_pop (λ _, clear)) (CLEAN T L) w).
  { clear fd pend w G Hw. intros fd pend w G Hw. apply races_done.
    eapply wp_mono; [by apply (rig_rx_pop sc db G t rx)|]. intros [] w1 G1. by eapply drained_clear. }
  split; [by eapply Hd|]. apply races_both.
  - eapply wp_mono; [by apply (rig_notify ev Hwrite sc db G)|]. intros [] w1 G1.
    by eapply Hd, wake_notified.
  - eapply wp_mono; [by apply (rig_rx_pop sc db G t rx)|]. intros [] w1 G1. by eapply notify_clear.
Qed.
End drained.

Lemma rx_drained_races : loses_nothing AIOPQUIC_LITMUS_RX_DRAINED.
Proof using Hwrite.
  intros T w (tx & rx & fd & pend & idle & armed & v & n & dd & G & -> & -> & ->) HT.
  apply rig_mono with (T' := T + 31) in G as G'; [|lia]. clear G. rename G' into G.
  apply races_spin.
  - eapply wp_mono; [apply (rig_rx_ring_push sc db G); [done|lia]|]. intros rc w1 G1.
    replace (T + 31 + 1) with (T + 32) in G1 by lia.
    assert (Hready : ∀ tx rx t fd pend idle armed v d w, RIG (T + 32) tx (t :: rx) fd pend idle armed v d w ->
      (if spsc_ring_peek (b_rx_event_ring (w_ctx w)) is Some _ then true else false) = true).
    { intros. destruct (ring_is_peek (rig_rx sc db H)) as (s & e & E & _). by rewrite E. }
    apply races_spin.
    + eapply wp_mono; [by apply (rig_notify ev Hwrite sc db G1)|]. intros [] w2 G2.
      apply races_spun; [by eapply Hready|]. apply (drained_pop _ _ _ _ _ _ _ _ _ _ G2).
      by split; [|right].
    + intros _. apply (drained_pop _ _ _ _ _ _ _ _ _ _ G1). split; [lia|by right].
  - pose proof (ring_is_peek (rig_rx sc db G)) as E. cbn in E. by rewrite E.
Qed.

(** *** TX_WAKE and RX_EVENT: woken, or seen *)

Lemma seen_clean K T tx rx fd pend idle armed v d w (woke saw : bool) :
  K = AIOPQUIC_LITMUS_TX_WAKE ∨ K = AIOPQUIC_LITMUS_RX_EVENT ->
  RIG T tx rx fd pend idle armed v d w -> woke || saw = true ->
  races (Done (Litmus K sc db 0 (c_bool woke))) (Done (Z.lor 0x10 (c_bool saw)))
    (CLEAN T (Litmus K sc db 0 0)) w.
Proof using Type.
  intros HK G Hs. apply races_end. split_and!; try done. destruct d as [n dd].
  destruct HK as [->| ->]; apply wp_ret; (split; [by destruct woke, saw|by eapply rig_bench]).
Qed.

Lemma tx_wake_races : loses_nothing AIOPQUIC_LITMUS_TX_WAKE.
Proof using Type.
  intros T w (tx & rx & fd & pend & idle & armed & v & n & dd & G & -> & ->) HT.
  apply rig_mono with (T' := T + 31) in G as G'; [|lia]. clear G. rename G' into G.
  assert (Hpush : ∀ idle w, RIG (T + 31) [] rx fd pend idle armed v (n, dd) w ->
    wp (tx_ring_push ev litmus_entry []) (λ _ w',
      RIG (T + 32) [e_event_type litmus_entry] rx fd pend idle armed v (n, dd) w') w).
  { intros i u G1. eapply wp_mono; [apply (rig_tx_push ev sc db G1); [done|lia]|].
    intros rc w1 [-> G2]. by replace (T + 31 + 1) with (T + 32) in G2 by lia. }
  assert (Hseen : ∀ tx w i (woke : bool), zlen tx > 0 -> RIG (T + 32) tx rx fd pend i armed v (n, dd) w ->
    races (Done (Litmus AIOPQUIC_LITMUS_TX_WAKE sc db 0 (c_bool woke)))
      (call aiopquic_tx_worker_idle_arm (λ saw, Done (Z.lor 0x10 (c_bool saw))))
      (CLEAN (T + 32) (Litmus AIOPQUIC_LITMUS_TX_WAKE sc db 0 0)) w).
  { intros tx u i woke Htx G1. apply races_done. eapply wp_mono; [by apply (rig_idle_arm sc db G1)|].
    intros saw w2 [-> G2]. eapply seen_clean; [by left|exact G2|]. rewrite (proj2 (Z.gtb_lt _ _)) by lia.
    by destruct woke. }
  apply races_both.
  - eapply wp_mono; [by apply Hpush|]. intros rc w1 G1. apply races_both.
    + eapply wp_mono; [by apply (rig_wake_needed sc db G1)|]. intros woke w2 [-> G2]. eapply Hseen; [|exact G2]; done.
    + eapply wp_mono; [by apply (rig_idle_arm sc db G1)|]. intros saw w2 [-> G2]. apply races_last.
      eapply wp_mono; [by apply (rig_wake_needed sc db G2)|]. intros woke w3 [-> G3].
      eapply seen_clean; [by left|exact G3|done].
  - eapply wp_mono; [by apply (rig_idle_arm sc db G)|]. intros saw w1 [-> G1]. apply races_last.
    eapply wp_mono; [by apply Hpush|]. intros rc w2 G2. apply races_last.
    eapply wp_mono; [by apply (rig_wake_needed sc db G2)|]. intros woke w3 [-> G3].
    eapply seen_clean; [by left|exact G3|done].
Qed.

Section rx_event.
Context {T : Z} {tx rx : list Z} {fd pend idle armed n d : Z} {u : Z * Z}.
Abbreviation L := (Litmus AIOPQUIC_LITMUS_RX_EVENT sc db 0 0).
Abbreviation AT k e := (RIG T tx rx fd pend idle armed (ScView n d k e) u).
Abbreviation arm := (call (rx_event_pending_arm sc) (λ woke, Done (l_set_woke woke L))).
Abbreviation write := (call (rx_write sc (replicate 8 0)) (λ _, arm)).
Abbreviation read := (call (read_rx sc aiopquic_stream_buf_used) (λ used,
  Done (Z.lor 0x10 (c_bool (used >? 0))))).
Abbreviation clear := (call (upd_sc sc aiopquic_stream_ctx_rx_event_pending_clear) (λ _, read)).

Lemma event_written e w : AT 0 e w -> wp (rx_write sc (replicate 8 0)) (λ _ w', AT 8 e w') w.
Proof using Type.
  intros G. eapply wp_mono; [by apply (rig_rx_write sc db G)|]. intros r w' G'. exact G'.
Qed.

Lemma event_armed k e w : AT k e w ->
  wp (rx_event_pending_arm sc) (λ b w', b = (e =? 0) ∧ AT k 1 w') w.
Proof using Type. intros G. by apply (rig_event_arm sc db G). Qed.

Lemma event_cleared k e w : AT k e w ->
  wp (upd_sc sc aiopquic_stream_ctx_rx_event_pending_clear) (λ _ w', AT k 0 w') w.
Proof using Type. intros G. by apply (rig_set_event sc db G 0). Qed.

Lemma event_read (woke : bool) e w : AT 8 e w -> races (Done (l_set_woke woke L)) read (CLEAN T L) w.
Proof using Type.
  intros G. apply races_done. eapply wp_mono; [by apply (rig_rx_used sc db G)|].
  intros k w2 [-> ->]. eapply seen_clean; [by right|exact G|]. by destruct woke.
Qed.

(** A consumer that cleared the flag is told by the producer's arm. *)
Lemma event_told k saw w : AT k 0 w -> races arm (Done (Z.lor 0x10 (c_bool saw))) (CLEAN T L) w.
Proof using Type.
  intros G. apply races_last. eapply wp_mono; [by eapply event_armed|]. intros b w2 [-> G2].
  by eapply seen_clean; [right|exact G2|].
Qed.

Lemma event_arm_read w : AT 8 0 w -> races arm read (CLEAN T L) w.
Proof using Type.
  intros G. apply races_both.
  - eapply wp_mono; [by eapply event_armed|]. intros b w2 [-> G2]. by eapply event_read.
  - eapply wp_mono; [by apply (rig_rx_used sc db G)|]. intros k w2 [-> ->]. by eapply event_told.
Qed.

Lemma event_write_clear e w : AT 0 e w -> races write clear (CLEAN T L) w.
Proof using Type.
  intros G. apply races_both.
  - eapply wp_mono; [by eapply event_written|]. intros r w1 G1. apply races_both.
    + eapply wp_mono; [apply (event_armed _ _ _ G1)|]. intros b w2 [-> G2]. apply races_done.
      eapply wp_mono; [apply (event_cleared _ _ _ G2)|]. intros [] w3 G3. by eapply event_read.
    + eapply wp_mono; [apply (event_cleared _ _ _ G1)|]. intros [] w2 G2. by apply event_arm_read.
  - eapply wp_mono; [apply (event_cleared _ _ _ G)|]. intros [] w1 G1. apply races_both.
    + eapply wp_mono; [by eapply event_written|]. intros r w2 G2. by apply event_arm_read.
    + eapply wp_mono; [by apply (rig_rx_used sc db G1)|]. intros k w2 [-> ->]. apply races_last.
      eapply wp_mono; [by eapply event_written|]. intros r w2 G2. apply (event_told _ _ _ G2).
Qed.
End rx_event.

Lemma rx_event_races : loses_nothing AIOPQUIC_LITMUS_RX_EVENT.
Proof using Type.
  intros T w (tx & rx & fd & pend & idle & armed & v & n & dd & G & Hn & He) HT.
  apply rig_mono with (T' := T + 32) in G as G'; [|lia].
  destruct v as [vn vd rxn rxe]. cbn in Hn, He. subst rxn rxe. by eapply event_write_clear.
Qed.

(** *** TX_DRAIN and DGRAM: a producer that waits armed the flag the consumer takes *)

Lemma taken_clean K T tx rx fd pend idle armed v d w (waits took : bool) :
  K = AIOPQUIC_LITMUS_TX_DRAIN ∨ K = AIOPQUIC_LITMUS_DGRAM ->
  RIG T tx rx fd pend idle armed v d w -> (waits = true -> took = true) ->
  races (Done (Litmus K sc db (c_bool waits) 0)) (Done (Z.lor 0x20 (c_bool took)))
    (CLEAN T (Litmus K sc db 0 0)) w.
Proof using Type.
  intros HK G Hs. apply races_end. split_and!; try done.
  destruct HK as [->| ->]; apply wp_ret; (split; [|by eapply rig_bench]);
    destruct waits, took; try done; by discriminate Hs.
Qed.

Section tx_drain.
Context {T : Z} {tx rx : list Z} {fd pend idle armed rxn rxe : Z} {d : Z * Z}.
Abbreviation L := (Litmus AIOPQUIC_LITMUS_TX_DRAIN sc db 0 0).
Abbreviation AT n dr := (RIG T tx rx fd pend idle armed (ScView n dr rxn rxe) d).
Abbreviation send := (call (litmus_send ev sc (replicate 16 0)) (λ rc, Done (l_set_waits (rc =? 0) L))).
Abbreviation take := (call (drain_take sc) (λ b, Done (Z.lor 0x20 (c_bool b)))).

Lemma sent_64 dr w : AT 64 dr w ->
  wp (litmus_send ev sc (replicate 16 0)) (λ rc w', (rc =? 0) = true ∧ AT 64 1 w') w.
Proof using Hsc.
  intros G. eapply wp_mono; [by apply (rig_send ev sc db Hsc G)|].
  intros rc w' [(Hn & _)|(_ & -> & G')]; [cbn in Hn; lia|done].
Qed.

Lemma sent_0 dr w : AT 0 dr w ->
  wp (litmus_send ev sc (replicate 16 0)) (λ rc w', (rc =? 0) = false ∧ AT 16 dr w') w.
Proof using Hsc.
  intros G. eapply wp_mono; [by apply (rig_send ev sc db Hsc G)|].
  intros rc w' [(_ & -> & G')|(Hn & _)]; [done|cbn in Hn; lia].
Qed.

Lemma drain_done_take (waits : bool) n dr w : AT n dr w -> (waits = true -> dr = 1) ->
  races (Done (l_set_waits waits L)) take (CLEAN T L) w.
Proof using Type.
  intros G Hw. apply races_done. eapply wp_mono; [by apply (rig_drain_take sc db G)|].
  intros b w1 [-> G1]. eapply taken_clean; [by left|exact G1|]. intros Ew. by rewrite (Hw Ew).
Qed.

Lemma drain_send_take dr w : AT 0 dr w -> races send take (CLEAN T L) w.
Proof using Hsc.
  intros G. apply races_both.
  - eapply wp_mono; [by eapply sent_0|]. intros rc w1 [-> G1]. by eapply drain_done_take.
  - eapply wp_mono; [by apply (rig_drain_take sc db G)|]. intros b w1 [-> G1]. apply races_last.
    eapply wp_mono; [by eapply sent_0|]. intros rc w2 [-> G2]. by eapply taken_clean; [left|exact G2|].
Qed.

Lemma popped_64 dr w (Φ : list Z -> world -> Prop) : AT 64 dr w ->
  (∀ bs w', u32 (64 - zlen bs) = 0 -> AT 0 dr w' -> Φ bs w') -> wp (tx_read sc 64) Φ w.
Proof using Type.
  intros G HΦ. eapply wp_mono; [by apply (rig_tx_read sc db G)|]. intros bs w' [E G'].
  apply HΦ; [by rewrite E|exact G'].
Qed.

Lemma drain_done_drop dr w : AT 64 dr w -> dr = 1 ->
  races (Done (l_set_waits true L)) (tx_drop sc 64 litmus_fuel take) (CLEAN T L) w.
Proof using Type.
  intros G Hd. apply races_done. eapply popped_64; [exact G|]. intros bs w1 -> G1.
  by eapply drain_done_take.
Qed.

Lemma drain_send_drop dr w : AT 64 dr w -> races send (tx_drop sc 64 litmus_fuel take) (CLEAN T L) w.
Proof using Hsc.
  intros G. apply races_both.
  - eapply wp_mono; [by eapply sent_64|]. intros rc w1 [-> G1]. by eapply drain_done_drop.
  - eapply popped_64; [exact G|]. intros bs w1 -> G1. by eapply drain_send_take.
Qed.
End tx_drain.

Lemma tx_drain_races : loses_nothing AIOPQUIC_LITMUS_TX_DRAIN.
Proof using Hsc.
  intros T w (tx & rx & fd & pend & idle & armed & v & n & dd & G & Hn & Hd) HT.
  apply rig_mono with (T' := T + 32) in G as G'; [|lia]. clear G. rename G' into G.
  destruct v as [vn vd rxn rxe]. cbn in Hn, Hd. subst vn vd. apply races_both.
  - eapply wp_mono; [by eapply sent_64|]. intros rc w1 [-> G1]. apply races_done.
    eapply wp_mono; [by apply (rig_tx_used sc db G1)|]. intros used w2 [-> ->]. by eapply drain_done_drop.
  - eapply wp_mono; [by apply (rig_tx_used sc db G)|]. intros used w1 [-> ->]. by eapply drain_send_drop.
Qed.

Section dgram.
Context {T : Z} {tx rx : list Z} {fd pend idle armed : Z} {v : sc_view}.
Abbreviation L := (Litmus AIOPQUIC_LITMUS_DGRAM sc db 0 0).
Abbreviation AT n dd := (RIG T tx rx fd pend idle armed v (n, dd)).
Abbreviation push := (call (dgram_push db litmus_rec) (λ rc, Done (l_set_waits (rc =? 0) L))).
Abbreviation take := (call (on_db db (λ b, Some (aiopquic_dgram_buf_drain_take b))) (λ b,
  Done (Z.lor 0x20 (c_bool b)))).

(** What a push leaves: it was taken, or the ring was not empty and the flag is set. *)
Lemma dgram_pushed n dd w : AT n dd w ->
  wp (dgram_push db litmus_rec) (λ rc w', ∃ n' dd', AT n' dd' w' ∧ n <= n' <= n + 1 ∧
    ((rc =? 0) = true -> 0 < n ∧ dd' = 1)) w.
Proof using Type.
  intros G. eapply wp_mono; [by apply (rig_dgram_push sc db G)|].
  intros rc w' [(_ & -> & G')|(Hn & -> & G')]; eexists _, _; (split; [exact G'|]);
    (split; [lia|]); [done|]. lia.
Qed.

Lemma dgram_done_take (waits : bool) n dd w : AT n dd w -> (waits = true -> dd = 1) ->
  races (Done (l_set_waits waits L)) take (CLEAN T L) w.
Proof using Type.
  intros G Hw. apply races_done. eapply wp_mono; [by apply (rig_dgram_take sc db G)|].
  intros b w1 [-> G1]. eapply taken_clean; [by right|exact G1|]. intros Ew. by rewrite (Hw Ew).
Qed.

Lemma dgram_done_drain (waits : bool) fuel : ∀ n dd w, AT n dd w -> n < Z.of_nat fuel ->
  (waits = true -> dd = 1) ->
  races (Done (l_set_waits waits L)) (dgram_drain db fuel take) (CLEAN T L) w.
Proof using Type.
  induction fuel as [|fuel IH]; intros n dd w G Hf Hw; pose proof (rig_dgram_range sc db G); [lia|].
  cbn [dgram_drain]. apply races_done. eapply wp_mono; [by apply (rig_peek_len sc db G)|].
  intros len w1 [-> G1]. destruct (Z.ltb_spec 0 n) as [Hn|Hn]; cbn [Z.gtb Z.compare].
  - apply races_done. eapply wp_mono; [by apply (rig_pop_into sc db G1)|]. intros r w2 G2.
    eapply IH; [exact G2|lia|done].
  - by eapply dgram_done_take.
Qed.

Lemma dgram_push_take w dd : AT 0 dd w -> races push take (CLEAN T L) w.
Proof using Type.
  intros G. apply races_both.
  - eapply wp_mono; [by eapply dgram_pushed|]. intros rc w1 (n' & dd' & G1 & _ & Hw).
    eapply dgram_done_take; [exact G1|]. intros E. by destruct (Hw E).
  - eapply wp_mono; [by apply (rig_dgram_take sc db G)|]. intros b w1 [-> G1]. apply races_last.
    eapply wp_mono; [by eapply dgram_pushed|]. intros rc w2 (n' & dd' & G2 & _ & Hw).
    eapply taken_clean; [by right|exact G2|]. intros E. destruct (Hw E). lia.
Qed.

Lemma dgram_push_drain fuel : ∀ n dd w, AT n dd w -> n + 1 < Z.of_nat fuel ->
  races push (dgram_drain db fuel take) (CLEAN T L) w.
Proof using Type.
  assert (Hpush : ∀ fuel n dd w, AT n dd w -> n + 1 < Z.of_nat fuel -> wp (dgram_push db litmus_rec)
    (λ rc w', races (Done (l_set_waits (rc =? 0) L)) (dgram_drain db fuel take) (CLEAN T L) w') w).
  { intros f n dd w G Hf. eapply wp_mono; [by eapply dgram_pushed|].
    intros rc w1 (n' & dd' & G1 & Hn' & Hw). eapply dgram_done_drain; [exact G1|lia|].
    intros E. by destruct (Hw E). }
  induction fuel as [|fuel IH]; intros n dd w G Hf; pose proof (rig_dgram_range sc db G); [lia|].
  apply races_both; [by eapply (Hpush (S fuel))|].
  eapply wp_mono; [by apply (rig_peek_len sc db G)|]. intros len w1 [-> G1].
  destruct (Z.ltb_spec 0 n) as [Hn|Hn]; cbn [Z.gtb Z.compare].
  - apply races_both.
    + eapply wp_mono; [by eapply dgram_pushed|]. intros rc w2 (n' & dd' & G2 & Hn' & Hw).
      apply races_done. eapply wp_mono; [apply (rig_pop_into sc db G2); lia|]. intros r w3 G3.
      eapply dgram_done_drain; [exact G3|lia|]. intros E. by destruct (Hw E).
    + eapply wp_mono; [by apply (rig_pop_into sc db G1)|]. intros r w2 G2. eapply IH; [exact G2|lia].
  - replace n with 0 in G1 by lia. by eapply dgram_push_take.
Qed.
End dgram.

Lemma dgram_races : loses_nothing AIOPQUIC_LITMUS_DGRAM.
Proof using Type.
  intros T w (tx & rx & fd & pend & idle & armed & v & n & dd & G & -> & ->) HT.
  apply rig_mono with (T' := T + 32) in G as G'; [|lia].
  eapply dgram_push_drain; [exact G'|]. done.
Qed.

(** *** TX_RING: a producer that waits left the flag set, or its event was published *)

Section tx_ring.
Context {v : sc_view} {n dd T : Z} (HT : T + 17 < 2 ^ 64).
Abbreviation L := (Litmus AIOPQUIC_LITMUS_TX_RING sc db 0 0).
Abbreviation D := (evt_code SPSC_EVT_TX_EVENT_RING_DRAINED).
Abbreviation fire := (aiopquic_maybe_fire_tx_event_ring_drained ev).
Abbreviation final := (call (aiopquic_tx_event_ring_drained_final ev) (λ _, Done 0)).
Abbreviation arm := (call (aiopquic_arm_tx_event_ring_drain_pending ev)
  (λ waits, Done (l_set_waits waits L))).

(** Where the producer is: whether it will wait, and whether it may still arm. *)
Inductive ring_prod : prog litmus -> bool -> Z -> Prop :=
  | rp_count : ring_prod (aiopquic_litmus_produce ev L) false 1
  | rp_arm : ring_prod arm false 1
  | rp_done waits : ring_prod (Done (l_set_waits waits L)) waits 0.

(** Where the consumer is: how many entries are queued, how many fires it may have left,
    and whether it drained the ring (1) and fired the last time (2). *)
Inductive ring_cons : prog Z -> Z -> Z -> Z -> Prop :=
  | rc_peek fuel k : k < Z.of_nat fuel -> ring_cons (tx_ring_drain ev fuel final) k (k + 1) 0
  | rc_pop fuel k : 0 < k <= Z.of_nat fuel -> ring_cons (call tx_ring_pop (λ _,
      call fire (λ _, tx_ring_drain ev fuel final))) k (k + 1) 0
  | rc_fire fuel k : k < Z.of_nat fuel ->
      ring_cons (call fire (λ _, tx_ring_drain ev fuel final)) k (k + 2) 0
  | rc_final : ring_cons final 0 1 1
  | rc_done : ring_cons (Done 0) 0 0 2.

(** [early]: the producer may still arm. *)
Record ring_inv (waits : bool) (early stage armed : Z) (rx : list Z) : Prop := {
  ri_early : 0 <= early;
  ri_rx : Forall (eq D) rx;
  ri_len : zlen rx + early + (if armed =? 1 then 1 else 0) <= 1;
  ri_waits : waits = true -> armed = 1 ∨ 0 < zlen rx;
  ri_final : stage = 2 -> waits = true -> 0 < zlen rx
}.

Definition ring_race (p : prog litmus) (q : prog Z) (w : world) : Prop :=
  ∃ waits early k fires stage tx rx fd pend idle armed,
    ring_prod p waits early ∧ ring_cons q k fires stage ∧ ring_inv waits early stage armed rx ∧
    zlen tx = k ∧ fires <= 17 ∧ RIG (T + 17 - fires) tx rx fd pend idle armed v (n, dd) w.

(** A fire keeps the invariant. *)
Lemma ring_fire waits early stage stage' armed tx rx w fd pend idle k :
  ring_inv waits early stage armed rx -> (stage' = 2 -> tx = []) -> 0 < k <= 17 ->
  RIG (T + 17 - k) tx rx fd pend idle armed v (n, dd) w ->
  wp fire (λ _ w', ∃ rx' fd' pend' armed', ring_inv waits early stage' armed' rx' ∧
    RIG (T + 17 - (k - 1)) tx rx' fd' pend' idle armed' v (n, dd) w') w.
Proof using Hwrite HT.
  intros [He0 Hrx Hl Hw Hf] Htx Hk G. eapply wp_mono; [apply (rig_fire ev Hwrite sc db G); [|lia]|].
  { destruct (armed =? 1); lia. }
  intros [] w' (rx' & fd' & pend' & armed' & Hfi & G').
  replace (T + 17 - k + 1) with (T + 17 - (k - 1)) in G' by lia. do 4 eexists. split; [|exact G'].
  destruct Hfi as [(-> & -> & He)|(-> & -> & ->)].
  - split; try done. intros E Ew. destruct (Hw Ew) as [->|]; [|done]. by destruct (He (Htx E)).
  - split; rewrite ?length_app; cbn [length Z.eqb Pos.eqb] in *; [done| |lia..].
    apply Forall_app. split; [done|]. by apply Forall_singleton.
Qed.

Lemma ring_prod_step p q w : ring_race p q w -> wp (advance p) (λ p' w', ring_race p' q w') w.
Proof using Type.
  intros (waits & early & k & fires & stage & tx & rx & fd & pend & idle & armed & HP & HC & I & Hk & Hf & G).
  inversion HP as [E1 E2 E3|E1 E2 E3|b E1 E2 E3]; subst waits early; rewrite <- ?E1.
  - apply (wp_call (getb _)), wp_getb. match goal with |- ring_race (if ?c then _ else _) _ _ => destruct c end.
    + do 11 eexists. split; [apply rp_arm|]. by split_and!.
    + do 11 eexists. split; [apply (rp_done false)|]. split_and!; try done. destruct I. split; try done; lia.
  - apply wp_call. eapply wp_mono; [apply (rig_arm ev sc db G)|]. intros b w1 [Hb G1].
    do 11 eexists. split; [apply rp_done|]. split; [exact HC|]. split; [|by split_and!].
    destruct I as [He Hrx Hl Hw Hfin]. split; try done.
    + cbn [Z.eqb Pos.eqb]. destruct (armed =? 1); lia.
    + intros _. by left.
    + intros E Eb. specialize (Hb Eb). inversion HC; subst; lia.
  - apply wp_ret. do 11 eexists. split; [apply rp_done|]. by split_and!.
Qed.

Lemma ring_cons_step p q w : ring_race p q w -> wp (advance q) (λ q' w', ring_race p q' w') w.
Proof using Hwrite HT.
  intros (waits & early & k & fires & stage & tx & rx & fd & pend & idle & armed & HP & HC & I & Hk & Hf & G).
  inversion HC as [fuel k' Hk' E1 E2 E3|fuel k' Hk' E1 E2 E3|fuel k' Hk' E1 E2 E3|E1 E2 E3|E1 E2 E3];
    subst; rewrite <- ?E1.
  - destruct fuel as [|fuel]; [lia|]. apply wp_call. eapply wp_mono; [apply (rig_tx_peek sc db G)|].
    intros e w1 [-> He].
    destruct tx as [|t tx], e as [e|]; try done.
    + exists waits, early, 0, 1, 1, [], rx, fd, pend, idle, armed. split; [exact HP|].
      split; [apply rc_final|]. split; [|by split_and!]. destruct I. by split.
    + do 11 eexists. split; [exact HP|]. split; [apply (rc_pop fuel (zlen (t :: tx))); cbn [length] in *; lia|]. by split_and!.
  - destruct tx as [|t tx]; [cbn in Hk'; lia|]. cbn [length] in *.
    apply wp_call. eapply wp_mono; [by apply (rig_tx_pop sc db G t tx)|]. intros [] w1 G1.
    do 11 eexists. split; [exact HP|]. split; [apply (rc_fire fuel (zlen tx)); lia|]. split; [exact I|].
    split; [done|]. split; [lia|]. by replace (T + 17 - (zlen tx + 2)) with (T + 17 - (Z.of_nat (S (length tx)) + 1)) by lia.
  - apply wp_call. eapply wp_mono; [eapply (ring_fire _ _ _ 0 _ tx _ _ _ _ _ (zlen tx + 2)); [exact I|done|lia|exact G]|].
    intros [] w1 (rx' & fd' & pend' & armed' & I' & G').
    do 11 eexists. split; [exact HP|]. split; [by apply rc_peek|]. split; [exact I'|].
    split; [done|]. split; [lia|]. by replace (T + 17 - (zlen tx + 1)) with (T + 17 - (zlen tx + 2 - 1)) by lia.
  - destruct tx as [|t tx]; [|done]. apply wp_call. unfold aiopquic_tx_event_ring_drained_final.
    eapply wp_mono; [by eapply (ring_fire _ _ _ 2 _ _ _ _ _ _ _ 1); [exact I| | |exact G]|].
    intros [] w1 (rx' & fd' & pend' & armed' & I' & G').
    do 11 eexists. split; [exact HP|]. split; [apply rc_done|]. by split_and!.
  - apply wp_ret. do 11 eexists. split; [exact HP|]. split; [apply rc_done|]. by split_and!.
Qed.

(** The check's loop finds the event that was published. *)
Lemma fired_found U tx fd pend idle armed fuel : ∀ rx b w,
  RIG U tx rx fd pend idle armed v (n, dd) w -> Forall (eq D) rx -> zlen rx < Z.of_nat fuel ->
  wp (litmus_fired fuel b) (λ f w', f = (b || (0 <? zlen rx)) ∧
    RIG U tx [] fd pend idle armed v (n, dd) w') w.
Proof using Type.
  induction fuel as [|fuel IH]; intros rx b w G Hrx Hf; [lia|]. cbn [litmus_fired]. apply wp_bind.
  eapply wp_mono; [apply (rig_rx_peek sc db G)|]. intros e w1 [-> He].
  destruct rx as [|t rx], e as [e|]; try done; [apply wp_ret; by rewrite orb_false_r|].
  apply Forall_cons in Hrx as [<- Hrx]. rig_do (rig_rx_pop sc db G D rx) as [] G2. rewrite He.
  cbn [length] in Hf. eapply wp_mono; [apply (IH _ _ _ G2 Hrx); lia|]. intros f w3 [-> G3].
  split; [|done]. rewrite (proj2 (Z.ltb_lt 0 (zlen (D :: rx)))) by (cbn [length]; lia).
  by destruct b, (0 <? zlen rx).
Qed.

Lemma ring_race_end a b w : ring_race (Done a) (Done b) w -> CLEAN (T + 17) L (a, b) w.
Proof using Type.
  intros (waits & early & k & fires & stage & tx & rx & fd & pend & idle & armed & HP & HC & I & Hk & Hf & G).
  inversion HP; subst. inversion HC as [fuel| | | |]; subst; [by destruct fuel|]. destruct I as [_ Hrx _ _ Hfin]. split_and!; try done.
  cbn [aiopquic_litmus_check l_kind l_set_waits].
  apply wp_bind. eapply wp_mono; [apply (fired_found _ _ _ _ _ _ litmus_fuel _ _ _ G Hrx)|].
  { pose proof (ring_is_fit (rig_rx sc db G)). change (Z.of_nat litmus_fuel) with 65. lia. }
  intros f w1 [-> G1]. apply wp_ret. split; [|eapply rig_bench; [exact G1|lia]]. cbn [l_waits orb].
  destruct waits; [|done]. by rewrite (proj2 (Z.ltb_lt 0 (zlen rx)) (Hfin eq_refl eq_refl)).
Qed.
End tx_ring.

Lemma tx_ring_races : loses_nothing AIOPQUIC_LITMUS_TX_RING.
Proof using Hwrite.
  intros T w (tx & rx & fd & pend & idle & armed & v & n & dd & G & -> & -> & Htx & -> & ->) HT.
  replace (T + 32) with (T + 15 + 17) by lia.
  apply (races_inv _ (ring_race (T := T + 15) (v := v) (n := n) (dd := dd))).
  - intros. by apply ring_prod_step.
  - intros. apply ring_cons_step; [lia|done].
  - intros r k q w' (? & ? & ? & ? & ? & ? & ? & ? & ? & ? & ? & HP & _). inversion HP.
  - intros p r k w' (? & ? & ? & ? & ? & ? & ? & ? & ? & ? & ? & _ & HC & _). inversion HC; subst.
    by destruct fuel.
  - intros a b w'. apply ring_race_end.
  - exists false, 1, 16, 17, 0, tx, [], 0, 0, idle, 0.
    split; [apply rp_count|]. split; [by apply (rc_peek litmus_fuel 16)|].
    split; [by split|]. split; [done|]. split; [done|].
    replace (T + 15 + 17 - (16 + 1)) with (T + 15) by lia. eapply rig_mono; [exact G|lia].
Qed.

(** No kind does. *)
Lemma kind_clean K : loses_nothing K.
Proof using Hwrite Hsc.
  destruct K; [apply rx_notify_races|apply tx_wake_races|apply rx_event_races|apply tx_drain_races
    |apply tx_ring_races|apply dgram_races|apply rx_drained_races].
Qed.
End kinds.
