(* ===== verification/LitmusRun.v ===== *)
(** * A run of the harness

    The rounds of [aiopquic_litmus_run] find nothing lost, under every schedule of every
    round, and each of its returns frees the bridge, the wrapper and the datagram ring
    it made. *)
From S2P Require Import Prelude Ring StreamBuf SpscRing DgramBuf DgramTable StreamCtx WtState Bridge.
From S2P Require Import Callback World PySide EventChannel System WtSession Teardown.
From S2P Require Import Litmus LitmusRig LitmusRace LitmusKinds.

(** ** The rounds *)

Section rounds.
Context `{out : outside} (ev : env) (Hwrite : ∀ t, ev_errno ev t = 0) (sc db : Z) (Hsc : sc <> 0).

Lemma round_clean K T w sched : ready sc db K T w -> T + 49 < 2 ^ 64 ->
  wp (litmus_round ev sched (Litmus K sc db 0 0)) (λ r w', r = (Litmus K sc db 0 0, 0) ∧
    ready sc db K (T + 49) w') w.
Proof using Hwrite Hsc.
  intros R HT. unfold litmus_round. apply wp_bind.
  eapply wp_mono; [apply (kind_clean ev Hwrite sc db Hsc K T w R); lia|].
  intros [L c] w1 (EK & Es & Ed & Hc). apply wp_bind. eapply wp_mono; [exact Hc|].
  intros lost w2 [-> Hb]. apply wp_bind.
  eapply wp_mono; [apply (setup_ready ev Hwrite sc db (T + 32)); [done|done|done|lia]|].
  intros [K' s' d' wa wo] w3 (EK' & Es' & Ed' & Ew & Eo & Hr). cbn in *. subst. apply wp_ret.
  split; [done|]. by replace (T + 49) with (T + 32 + 17) by lia.
Qed.

Lemma rounds_clean K scheds : ∀ T w, ready sc db K T w -> T + 49 * Z.of_nat (length scheds) < 2 ^ 64 ->
  wp (litmus_rounds ev scheds (Litmus K sc db 0 0) 0) (λ r w', r.2 = 0 ∧ ∃ T', ready sc db K T' w') w.
Proof using Hwrite Hsc.
  induction scheds as [|sched scheds IH]; intros T w R HT; cbn [litmus_rounds length] in *.
  { apply wp_ret. eauto. }
  apply wp_bind. eapply wp_mono; [apply (round_clean K T w sched R); lia|].
  intros r w1 [-> R1]. cbn beta iota. change (u64 (0 + 0)) with 0. apply (IH _ _ R1). lia.
Qed.
End rounds.

(** ** What a run makes *)

Lemma bridge_made a b : aiopquic_ctx_create a 16 64 50 = Some b -> bridge_is 0 [] [] 0 0 0 b.
Proof.
  intros E. unfold aiopquic_ctx_create in E. cbn [Z.eqb orb Z.geb Z.compare Pos.compare Pos.compare_cont] in E.
  destruct (negb (ca_ctx a)); [done|].
  destruct (spsc_ring_create (ca_rx_ring a) _ 64) as [rx|] eqn:Erx; [|done].
  destruct (spsc_ring_create (ca_tx_ring a) _ 16) as [tx|] eqn:Etx; [|done].
  destruct (negb (ca_eventfd a)); [done|]. injection E as <-.
  apply ring_created in Erx as [Rx Cx]; [|done]. apply ring_created in Etx as [Rt Ct]; [|done].
  split; try done.
  - exists 0, []. by split_and!.
  - exists 0, []. by split_and!.
  - by apply low_water_below.
Qed.

Lemma buf_made a : alloc_ok a 64 -> buf_create a 64 = None ∨ buf_is 0 (buf_create a 64).
Proof.
  intros [Hc Hb]. unfold buf_create. destruct (ba_ok a), (ba_blk a) as [blk|]; try (by left).
  right. destruct (stream_buf_create_spec (ba_env a) blk 64 Hc (Hb _ eq_refl)) as (tb & E & R & Cp & _).
  exists tb, 0, []. by split_and!.
Qed.

Lemma dgram_made ok blk alive : (∀ bs, blk = Some bs -> zlen bs = 64) ->
  match aiopquic_dgram_buf_create ok blk alive 64 8 with
  | (Some b, alive') => db_is 0 0 b ∧ alive' = alive + 1
  | (None, alive') => alive' = alive
  end.
Proof.
  intros Hb. unfold aiopquic_dgram_buf_create. change (aiopquic_ceil_pow2_u32 64) with 64.
  cbn [Z.eqb orb]. change (64 <? u32 (2 * u32 (AIOPQUIC_DGRAM_REC_HDR + 8))) with false. cbv zeta iota.
  destruct ok; [|done]. destruct blk as [bs|]; [|done]. split; [|done]. specialize (Hb bs eq_refl).
  exists 0, 0%nat. split; [|by split_and!]. split; try done. by exists 6.
Qed.

(** ** What a run frees *)

Lemma ring_freed {cap T ts r} h : ring_is cap T ts r -> spsc_ring_destroy r h = Some h.
Proof.
  intros (H & q & R & P & _). unfold spsc_ring_destroy. rewrite (rq_tail _ _ _ R), (rq_head _ _ _ R).
  replace (Z.to_nat _) with (length q) by lia. rewrite (destroy_loop_spec _ _ _ _ R). clear R.
  induction q as [|e q IH]; [done|]. apply Forall_cons in P as [He P]. cbn [free_nodes].
  rewrite He. by apply IH.
Qed.

Lemma bridge_freed {T tx rx pend idle armed} w : bridge_is T tx rx pend idle armed (w_ctx w) ->
  wp aiopquic_ctx_destroy (λ _ w', w_sc w' = w_sc w ∧ w_rs w' = w_rs w) w.
Proof.
  intros B. unfold aiopquic_ctx_destroy. apply wp_bind. eexists _, _. split.
  { unfold spsc_overflow_destroy. rewrite (bi_nodes _ _ _ _ _ _ _ B). reflexivity. }
  apply wp_bind. eexists _, _. split.
  { unfold on_heap. cbn [w_ctx w_set_ctx w_set_heap w_heap b_set_rx_overflow b_rx_event_ring].
    rewrite (ring_freed _ (bi_rx _ _ _ _ _ _ _ B)). reflexivity. }
  apply wp_bind. eexists _, _. split.
  { unfold on_heap. cbn [w_ctx w_set_ctx w_set_heap w_heap b_set_rx_overflow b_tx_event_ring].
    rewrite (ring_freed _ (bi_tx _ _ _ _ _ _ _ B)). reflexivity. }
  apply wp_bind. eexists _, _. split.
  { unfold table_op. cbn [w_ctx w_set_ctx w_set_heap w_heap b_set_rx_overflow b_dgram_table].
    rewrite (bi_table _ _ _ _ _ _ _ B). reflexivity. }
  apply wp_bind, wp_getb. cbn. rewrite (bi_deferred _ _ _ _ _ _ _ B).
  apply wp_bind, wp_ret, wp_bind, wp_setb, wp_bind, wp_getb. cbn. rewrite (bi_owed _ _ _ _ _ _ _ B).
  by apply wp_bind, wp_ret, wp_setb.
Qed.

(** What there is to free: the bridge when there is one, and the only references to the
    wrapper and to the datagram ring, unless NULL. *)
Record freeable (ctx : bool) (sc db : Z) (scs : gmap Z stream_ctx) (rs : ring_store) (w : world) : Prop := {
  fr_ctx : ctx = true -> ∃ T tx rx pend idle armed, bridge_is T tx rx pend idle armed (w_ctx w);
  fr_sc : if sc =? 0 then sw_scs (w_sc w) = scs
          else ∃ c, sw_scs (w_sc w) !! sc = Some c ∧ sc_refcount c = 1 ∧ delete sc (sw_scs (w_sc w)) = scs;
  fr_db : if db =? 0 then w_rs w = rs
          else ∃ b, rs_rings (w_rs w) !! db = Some b ∧ db_refcnt b = 1 ∧
            delete db (rs_rings (w_rs w)) = rs_rings rs ∧ rs_alive (w_rs w) = rs_alive rs + 1
}.

Lemma freed ctx sc db scs rs w : freeable ctx sc db scs rs w ->
  wp (litmus_free ctx sc db) (λ _ w', sw_scs (w_sc w') = scs ∧ w_rs w' = rs) w.
Proof.
  intros [B S D]. unfold litmus_free.
  apply wp_bind, (wp_mono _ (λ _ w', w_sc w' = w_sc w ∧ w_rs w' = w_rs w)).
  { destruct ctx; [|by apply wp_ret]. destruct (B eq_refl) as (T & tx & rx & pend & idle & armed & B').
    by eapply bridge_freed. }
  intros [] w1 [E1 E2]. apply wp_bind, (wp_mono _ (λ _ w', sw_scs (w_sc w') = scs ∧ w_rs w' = w_rs w)).
  { unfold on_sc, aiopquic_stream_ctx_destroy. destruct (sc =? 0).
    - eexists _, _. split; [reflexivity|]. cbn. by rewrite E1.
    - destruct S as (c & Ec & Er & Ed). eexists _, _. split.
      { rewrite E1, Ec. cbn [mbind option_bind]. rewrite Er. reflexivity. }
      by cbn. }
  intros [] w2 [E3 E4]. unfold when. destruct (db =? 0) eqn:Edb; cbn [negb].
  - apply wp_ret. split; [done|]. congruence.
  - destruct D as (b & Eb & Er & Ed & Ea). eexists _, _. split.
    { unfold on_rs, rs_unref. rewrite Edb, E4, Eb. cbn [mbind option_bind].
      unfold aiopquic_dgram_buf_unref. rewrite Er. reflexivity. }
    cbn. split; [done|]. rewrite Ed, Ea. destruct rs as [rings alive]. cbn. f_equal. lia.
Qed.

(** ** A run *)

(** What a run takes from the platform: a thread, and memory for all it makes. *)
Definition litmus_resources (ev : env) (la : litmus_alloc) : Prop :=
  aiopquic_ctx_create (la_ctx la) 16 64 50 <> None ∧ la_db_ok la = true ∧ la_db_blk la <> None ∧
  la_thread la = true ∧ (∀ t scs, ev_sc ev t scs <> 0) ∧ (∀ t, buf_create (ev_buf ev t 64) 64 <> None).

(** The datagram ring's address is fresh and its block has the size asked for. *)
Record litmus_alloc_ok (la : litmus_alloc) (w : world) : Prop := {
  lo_db : la_db la <> 0;
  lo_fresh : rs_rings (w_rs w) !! la_db la = None;
  lo_blk : ∀ bs, la_db_blk la = Some bs -> zlen bs = 64
}.

Section run.
Context {ev : env} (Eok : env_ok ev) (Hwrite : ∀ t, ev_errno ev t = 0) {la : litmus_alloc} {w0 : world}
  (Aok : litmus_alloc_ok la w0).

#[local] Instance before : outside :=
  Outside (sw_scs (w_sc w0)) (rs_rings (w_rs w0)) (rs_alive (w_rs w0) + 1).

(** Before the rounds: the bridge, the wrapper [c] and the ring, each unless NULL. *)
Record made (ctx : bool) (sc db : Z) (c : stream_ctx) (w : world) : Prop := {
  md_ctx : ctx = true -> bridge_is 0 [] [] 0 0 0 (w_ctx w);
  md_sc : if sc =? 0 then sw_scs (w_sc w) = out_scs
          else out_scs !! sc = None ∧ sw_scs (w_sc w) = <[sc := c]> out_scs;
  md_ref : sc_refcount c = 1;
  md_db : if db =? 0 then w_rs w = w_rs w0
          else ∃ b, rs_rings (w_rs w) !! db = Some b ∧ db_is 0 0 b ∧
            delete db (rs_rings (w_rs w)) = out_rings ∧ rs_alive (w_rs w) = out_alive
}.

Lemma made_freeable ctx sc db c w : made ctx sc db c w ->
  freeable ctx sc db (sw_scs (w_sc w0)) (w_rs w0) w.
Proof using Type.
  intros [B S R D]. split.
  - intros E. specialize (B E). by do 6 eexists.
  - destruct (sc =? 0); [done|]. destruct S as [Hf Es]. exists c. rewrite Es, lookup_insert_eq.
    split; [done|]. split; [done|]. by rewrite delete_insert_id.
  - destruct (db =? 0); [done|]. destruct D as (b & Eb & (H & k & _ & _ & _ & _ & _ & Hr) & Ed & Ea).
    by exists b.
Qed.

Lemma rig_freeable sc db T tx rx fd pend idle armed v d w : rig sc db T tx rx fd pend idle armed v d w ->
  sc <> 0 -> db <> 0 -> freeable true sc db (sw_scs (w_sc w0)) (w_rs w0) w.
Proof using Type.
  intros [B F (c & Ec & _ & _ & _ & _ & Hr) (b & Eb & H & k & _ & _ & _ & _ & _ & Hb) Hs Hd Ha] H1 H2. split.
  - intros _. by do 6 eexists.
  - rewrite (proj2 (Z.eqb_neq sc 0)) by done. by exists c.
  - rewrite (proj2 (Z.eqb_neq db 0)) by done. by exists b.
Qed.

Lemma made_rig sc db tx rx w c : made true sc db (sc_set_rx rx (sc_set_tx tx c)) w -> sc <> 0 -> db <> 0 ->
  buf_is 0 tx -> buf_is 0 rx -> sc_tx_drain_pending c = 0 -> sc_rx_event_pending c = 0 ->
  rig sc db 0 [] [] (w_fd w) 0 0 0 (ScView 0 0 0 0) (0, 0) w.
Proof using Type.
  intros [B S R D] H1 H2 Ht Hr Hd He. rewrite (proj2 (Z.eqb_neq sc 0)) in S by done.
  rewrite (proj2 (Z.eqb_neq db 0)) in D by done. destruct S as [Hf Es], D as (b & Eb & Db & Ed & Ea).
  split; try done; [by apply B| |by exists b|by rewrite Es, delete_insert_id].
  eexists. rewrite Es, lookup_insert_eq. split; [done|]. by split_and!.
Qed.

(** *** The steps before the rounds *)

Lemma made_sc ctx w : (ctx = true -> bridge_is 0 [] [] 0 0 0 (w_ctx w)) ->
  w_sc w = w_sc w0 -> w_rs w = w_rs w0 ->
  wp (sc_create ev) (λ sc w', made ctx sc 0 (sc_set_refcount 1 stream_ctx0) w' ∧
    (sc = 0 -> ¬ litmus_resources ev la)) w.
Proof using Eok.
  intros HB Es Er. apply wp_bind. eexists _, _. split; [done|].
  unfold wp, aiopquic_stream_ctx_create. cbn [w_sc w_set_tick].
  destruct (Z.eqb_spec (ev_sc ev (w_tick w) (sw_scs (w_sc w))) 0) as [E|E].
  - eexists _, _. split; [reflexivity|]. split; [|intros _ (_ & _ & _ & _ & H & _); by eapply H].
    split; try done. cbn. by rewrite Es.
  - eexists _, _. split; [reflexivity|]. split; [|done]. split; try done.
    rewrite (proj2 (Z.eqb_neq _ 0)) by done. cbn. rewrite Es in *. split; [|done].
    by destruct (eo_sc _ Eok (w_tick w) (sw_scs (w_sc w0))).
Qed.

Lemma made_db ctx sc c w : made ctx sc 0 c w ->
  wp (dgram_create (la_db la) (la_db_ok la) (la_db_blk la) 64 8) (λ db w', made ctx sc db c w' ∧
    (db = 0 -> ¬ litmus_resources ev la)) w.
Proof using Aok.
  intros [B S R D]. cbn in D. pose proof (dgram_made (la_db_ok la) (la_db_blk la) (rs_alive (w_rs w))) as Hd.
  unfold wp, dgram_create. specialize (Hd (lo_blk _ _ Aok)).
  destruct (aiopquic_dgram_buf_create _ _ _ _ _) as [[b|] alive] eqn:E.
  - eexists _, _. split; [reflexivity|]. split; [|intros Hz; by destruct (lo_db _ _ Aok)]. split; try done.
    rewrite (proj2 (Z.eqb_neq _ 0)) by apply Aok. exists b. destruct Hd as [Hb ->]. cbn. rewrite D.
    rewrite lookup_insert_eq. split; [done|]. split; [done|]. by rewrite delete_insert_id by apply Aok.
  - eexists _, _. split; [reflexivity|]. split.
    + split; try done. cbn. rewrite Hd. by rewrite <- D; destruct (w_rs w).
    + intros _ (_ & Hok & Hblk & _). revert E. unfold aiopquic_dgram_buf_create.
      change (aiopquic_ceil_pow2_u32 64) with 64. cbn [Z.eqb orb]. rewrite Hok. cbn [negb].
      by destruct (la_db_blk la).
Qed.

Lemma made_buf f set ctx sc db c w : made ctx sc db c w -> sc <> 0 ->
  (∀ a w1, sw_scs w1 !! sc = Some c -> f a 64 sc w1 =
    Some (if buf_create a 64 is Some _ then 0 else -1, ScWorld (<[sc := set (buf_create a 64) c]> (sw_scs w1)) (sw_g w1))) ->
  (∀ b, sc_refcount (set b c) = 1) ->
  wp (ensure ev f sc) (λ rc w', ∃ b, made ctx sc db (set b c) w' ∧
    ((rc = 0 ∧ buf_is 0 b) ∨ (rc = -1 ∧ ¬ litmus_resources ev la))) w.
Proof using Eok.
  intros [B S R D] Hsc Hf Href. apply wp_bind. eexists _, _. split; [done|].
  rewrite (proj2 (Z.eqb_neq sc 0)) in S by done. destruct S as [Hn Es].
  set (a := ev_buf ev (w_tick w) 64). eexists _, _. split.
  { unfold on_sc_val. cbn [w_sc w_set_tick]. rewrite Hf by (by rewrite Es, lookup_insert_eq). reflexivity. }
  exists (buf_create a 64). split.
  - split; try done. rewrite (proj2 (Z.eqb_neq sc 0)) by done. cbn. by rewrite Es, insert_insert_eq.
  - destruct (buf_made a (eo_buf _ Eok _ 64 ltac:(lia))) as [E|E].
    + right. rewrite E. split; [done|]. intros (_ & _ & _ & _ & _ & H). by eapply H.
    + left. split; [|done]. by destruct E as (tb & ? & ? & -> & _).
Qed.

(** The bench the rounds run on, or what a failure leaves to free. *)
Definition prepared (ctx : bool) (sc db : Z) (ok : bool) (w : world) : Prop :=
  if ok then ctx = true ∧ sc <> 0 ∧ db <> 0 ∧
    ∃ fd, rig sc db 0 [] [] fd 0 0 0 (ScView 0 0 0 0) (0, 0) w
  else freeable ctx sc db (sw_scs (w_sc w0)) (w_rs w0) w ∧ ¬ litmus_resources ev la.

Definition litmus_ensure (have : bool) (sc db : Z) : M bool :=
  if negb have || (sc =? 0) || (db =? 0) then ret false
  else
    rc ← ensure ev aiopquic_stream_ctx_ensure_tx sc;
    if negb (rc =? 0) then ret false
    else rc ← ensure ev aiopquic_stream_ctx_ensure_rx sc; ret (rc =? 0).

Lemma made_ensure ctx sc db w : made ctx sc db (sc_set_refcount 1 stream_ctx0) w ->
  (ctx = false -> ¬ litmus_resources ev la) -> (sc = 0 -> ¬ litmus_resources ev la) ->
  (db = 0 -> ¬ litmus_resources ev la) ->
  wp (litmus_ensure ctx sc db) (λ ok w', prepared ctx sc db ok w') w.
Proof using Eok.
  intros M H1 H2 H3. unfold litmus_ensure.
  destruct ctx; cbn [negb orb]; [|apply wp_ret; split; [by eapply made_freeable|by apply H1]].
  destruct (Z.eqb_spec sc 0) as [->|Hsc]; cbn [orb].
  { apply wp_ret. split; [by eapply made_freeable|by apply H2]. }
  destruct (Z.eqb_spec db 0) as [->|Hdb].
  { apply wp_ret. split; [by eapply made_freeable|by apply H3]. }
  apply wp_bind. eapply wp_mono; [eapply (made_buf _ (λ b, sc_set_tx b)); [exact M|done| |done]|].
  { intros a w1 E. unfold aiopquic_stream_ctx_ensure_tx, sc_update.
    rewrite (proj2 (Z.eqb_neq sc 0)), E by done. reflexivity. }
  intros rc w1 (tx & M1 & [[-> Ht]|[-> Hn]]); cbn [Z.eqb negb].
  2: { apply wp_ret. split; [by eapply made_freeable|done]. }
  apply wp_bind. eapply wp_mono; [eapply (made_buf _ (λ b, sc_set_rx b)); [exact M1|done| |done]|].
  { intros a w2 E. unfold aiopquic_stream_ctx_ensure_rx, sc_update.
    rewrite (proj2 (Z.eqb_neq sc 0)), E by done. reflexivity. }
  intros rc w2 (rx & M2 & [[-> Hr]|[-> Hn]]); cbn [Z.eqb].
  - apply wp_ret. split; [done|]. split; [done|]. split; [done|]. exists (w_fd w2). by eapply made_rig.
  - apply wp_ret. split; [by eapply made_freeable|done].
Qed.

(** What every return gives. *)
Definition reported (r : Z) (w : world) : Prop :=
  (r = 0 ∨ (r = -1 ∧ ¬ litmus_resources ev la)) ∧
  sw_scs (w_sc w) = sw_scs (w_sc w0) ∧ w_rs w = w_rs w0.

Lemma report_free ctx sc db r w : freeable ctx sc db (sw_scs (w_sc w0)) (w_rs w0) w ->
  r = 0 ∨ (r = -1 ∧ ¬ litmus_resources ev la) ->
  wp (litmus_free ctx sc db ;; ret r) reported w.
Proof using Type.
  intros F Hr. apply wp_bind. eapply wp_mono; [by eapply freed|]. intros [] w1 E. by apply wp_ret.
Qed.

Lemma ready_freeable sc db K T w : ready sc db K T w -> sc <> 0 -> db <> 0 ->
  freeable true sc db (sw_scs (w_sc w0)) (w_rs w0) w.
Proof using Type.
  intros (tx & rx & fd & pend & idle & armed & v & n & dd & G & _). by eapply rig_freeable.
Qed.

(** The run from the bench on. *)
Definition litmus_race (kind : litmus_kind) (scheds : list (list bool)) (sc db : Z) : M Z :=
  setb (b_set_thread_ctx 0) ;;
  L ← aiopquic_litmus_setup ev (Litmus kind sc db 0 0);
  if negb (la_thread la) then litmus_free true sc db ;; ret (-1)
  else
    '(L, lost) ← litmus_rounds ev scheds L 0;
    litmus_free true sc db ;;
    ret lost.

Lemma report_race kind scheds sc db w : prepared true sc db true w -> Z.of_nat (length scheds) < 2 ^ 58 ->
  wp (litmus_race kind scheds sc db) reported w.
Proof using Hwrite.
  intros (_ & Hs & Hd & fd & [B]) Hn. apply wp_bind, wp_setb.
  apply wp_bind. eapply wp_mono; [apply (setup_ready ev Hwrite sc db 0); [done|done| |lia]|].
  { exists [], [], fd, 0, 0, 0, (ScView 0 0 0 0), 0, 0. split; try done. destruct B; split; done. }
  intros [K s d wa wo] w1 (EK & Es & Ed & Ew & Eo & Hr). cbn in EK, Es, Ed, Ew, Eo. subst K s d wa wo.
  destruct (la_thread la) eqn:Eth; cbn [negb].
  - apply wp_bind. eapply wp_mono; [apply (rounds_clean ev Hwrite sc db Hs kind scheds _ _ Hr); lia|].
    intros [L lost] w2 [Elost [T' Hr']]. cbn in Elost. subst lost.
    apply report_free; [by eapply ready_freeable|by left].
  - apply report_free; [by eapply ready_freeable|]. right. split; [done|].
    intros (_ & _ & _ & H & _). congruence.
Qed.
End run.


(** Memory and a thread for everything. *)
Definition litmus_demo : litmus_alloc := LitmusAlloc Bridge.demo_alloc 3000 true (Some (replicate 64 0)) true.

Lemma litmus_demo_resources : litmus_resources (demo_env (λ _, 0)) litmus_demo.
Proof.
  assert (Hk : ∀ l : list (Z * stream_ctx), 0 <= foldr (λ kv n, Z.max kv.1 n) 5000 l).
  { intros l. induction l as [|kv l IH]; cbn; lia. }
  split_and!; try done. intros t scs. cbn. unfold fresh_addr.
  pose proof (Hk (map_to_list scs)). lia.
Qed.

