(* ===== verification/LitmusBarrier.v ===== *)
(** * The harness's barrier

    The two threads of a run meet before and after every race (litmus.h's barrier).  In
    every interleaving of its atomic accesses neither thread leaves a meeting the other
    has not come to, and one of the two can always go on. *)
From S2P Require Import Prelude StreamBuf SpscRing DgramBuf DgramTable StreamCtx WtState Bridge.
From S2P Require Import Wake Litmus.

Import Barrier.

(** Where a thread stands when [n] meetings are over. *)
Inductive stand :=
  | Away     (** in none *)
  | Late     (** in the last one, which it has not seen end *)
  | Here     (** waiting in the next one *)
  | Second   (** it came second: about to store 0 *)
  | Ending.  (** about to count the generation *)

#[export] Instance stand_eq_dec : EqDecision stand.
Proof. solve_decision. Defined.

Definition stands (n : nat) (s : stand) (t : thread) : Prop :=
  match s with
  | Away => (th_place t = BOut ∨ th_place t = BAdd (u32 (Z.of_nat n))) ∧ th_in t = n ∧ th_out t = n
  | Late => th_place t = BSpin (u32 (Z.of_nat n - 1)) ∧ th_in t = n ∧ S (th_out t) = n
  | Here => th_place t = BSpin (u32 (Z.of_nat n)) ∧ th_in t = S n ∧ th_out t = n
  | Second => th_place t = BReset ∧ th_in t = S n ∧ th_out t = n
  | Ending => th_place t = BBump ∧ th_in t = S n ∧ th_out t = n
  end.

(** What a thread adds to the count; the one about to end the meeting took both away. *)
Definition share (s : stand) : Z :=
  match s with Away | Late => 0 | Here | Second => 1 | Ending => -1 end.

(** Who can stand where at once. *)
Definition together (s s' : stand) : bool :=
  match s, s' with
  | Late, Late | Here, Here => false
  | (Second | Ending), Here | Here, (Second | Ending) => true
  | (Second | Ending), _ | _, (Second | Ending) => false
  | _, _ => true
  end.

(** Both threads, and the two words they share. *)
Record meeting (n : nat) (s s' : stand) (count gen : Z) (t t' : thread) : Prop := {
  mt_t : stands n s t;
  mt_t' : stands n s' t';
  mt_pair : together s s' = true;
  mt_count : count = share s + share s';
  mt_gen : gen = u32 (Z.of_nat n)
}.

Lemma meeting_sym n s s' count gen t t' : meeting n s s' count gen t t' -> meeting n s' s count gen t' t.
Proof. intros [A B C D E]. split; try done; [by destruct s, s'|lia]. Qed.

(** A generation is not the one before. *)
Lemma u32_pred (n : Z) : u32 n <> u32 (n - 1).
Proof.
  unfold u32. intros E. assert (H : (n - (n - 1)) mod 2 ^ 32 = 0) by (rewrite Zminus_mod, E, Z.sub_diag; done).
  by replace (n - (n - 1)) with 1 in H by lia.
Qed.

Lemma u32_bump (n : Z) : u32 (u32 n + 1) = u32 (n + 1).
Proof. unfold u32. by rewrite Zplus_mod_idemp_l. Qed.

(** One access of a thread; the other stands where it stood, or is late now. *)
Lemma meeting_step n s s' count gen t t' : meeting n s s' count gen t t' ->
  let '(count', gen', t1) := wait_step count gen t in
  ∃ n' s1 s1', meeting n' s1 s1' count' gen' t1 t'.
Proof.
  intros [A B C -> ->]. destruct t as [p i o], s; cbn in A.
  - destruct A as ([-> | ->] & -> & ->).
    + exists n, Away, s'. split; try done. cbn. auto.
    + cbn [wait_step]. destruct s'; try done; cbn [share Z.add Z.eqb Pos.eqb].
      * by exists n, Here, Away.
      * by exists n, Here, Late.
      * by exists n, Second, Here.
  - destruct A as (-> & -> & Ho). cbn [wait_step]. rewrite (proj2 (Z.eqb_neq _ _)) by apply u32_pred.
    exists n, Away, s'. split; try done; [cbn; auto|by destruct s'].
  - destruct A as (-> & -> & ->). cbn [wait_step]. rewrite Z.eqb_refl. by exists n, Here, s'.
  - destruct A as (-> & -> & ->). destruct s'; try done. by exists n, Ending, Here.
  - destruct A as (-> & -> & ->). destruct s'; try done. destruct B as (Ep & Ei & Eo).
    exists (S n), Away, Late. split; cbn; try done; [by auto| |].
    + rewrite Ep, Ei, Eo. split_and!; try done. do 2 f_equal. lia.
    + rewrite u32_bump. f_equal. lia.
Qed.

Definition met (b : barrier) : Prop :=
  ∃ n s s', meeting n s s' (br_count b) (br_gen b) (br_0 b) (br_1 b).

Lemma met_step who b b' : met b -> step who b = Some b' -> met b'.
Proof.
  intros (n & s & s' & H) E. destruct b as [c g t0 t1]. cbn in H, E. destruct who.
  - pose proof (meeting_step _ _ _ _ _ _ _ (meeting_sym _ _ _ _ _ _ _ H)) as Hs.
    destruct (wait_step c g t1) as [[c' g'] t1']. injection E as <-. destruct Hs as (n' & a & a' & Hs).
    exists n', a', a. by apply meeting_sym.
  - pose proof (meeting_step _ _ _ _ _ _ _ H) as Hs.
    destruct (wait_step c g t0) as [[c' g'] t0']. by injection E as <-.
Qed.

(** A thread that is not waiting for the other moves. *)
Lemma meeting_moves n s s' count gen t t' : meeting n s s' count gen t t' -> s <> Here ->
  (wait_step count gen t).2 <> t.
Proof.
  intros [A B C -> ->] Hs E. destruct t as [p i o], s; cbn in A; try done.
  - destruct A as ([-> | ->] & -> & ->); cbn in E; [done|]. injection E as E. lia.
  - destruct A as (-> & -> & Ho). cbn [wait_step] in E.
    by rewrite (proj2 (Z.eqb_neq _ _)) in E by apply u32_pred.
  - by destruct A as (-> & -> & ->).
  - by destruct A as (-> & -> & ->).
Qed.

(** C40. The barrier between the phases of a litmus round: in every interleaving of its
    atomic accesses, through any number of meetings and the generation's wrap, neither
    thread has left more meetings than the other has come to, neither is a whole meeting
    ahead, and it never deadlocks: the next access of one of the two moves it on. *)
Theorem litmus_barrier_lockstep b : runs Barrier.step Barrier.start b ->
  (th_out (br_0 b) <= th_in (br_1 b) ∧ th_out (br_1 b) <= th_in (br_0 b))%nat ∧
  (th_in (br_0 b) <= S (th_in (br_1 b)) ∧ th_in (br_1 b) <= S (th_in (br_0 b)))%nat ∧
  ∃ who b', step who b = Some b' ∧ (br_0 b', br_1 b') <> (br_0 b, br_1 b).
Proof.
  intros R. assert (M : met b).
  { eapply runs_inv; [|intros; by eapply met_step|exact R]. exists 0%nat, Away, Away. split; cbn; auto. }
  destruct M as (n & s & s' & M). pose proof (meeting_sym _ _ _ _ _ _ _ M) as M'.
  pose proof M as [A B C _ _]. split_and!.
  1-4: destruct s, s'; cbn in A, B, C; try done; lia.
  destruct b as [c g t0 t1]. cbn in *. destruct (decide (s = Here)) as [->|Hs].
  - pose proof (meeting_moves _ _ _ _ _ _ _ M' ltac:(by destruct s')) as Hm.
    exists true. cbn. destruct (wait_step c g t1) as [[c' g'] t1']. eexists. split; [done|].
    cbn in *. by intros [= ->].
  - pose proof (meeting_moves _ _ _ _ _ _ _ M Hs) as Hm.
    exists false. cbn. destruct (wait_step c g t0) as [[c' g'] t0']. eexists. split; [done|].
    cbn in *. by intros [= ->].
Qed.

(** Thread 0 comes and waits, thread 1 ends the meeting and is at the next before
    thread 0 has seen it. *)
Lemma litmus_barrier_lockstep_witness : ∃ b,
  run step [false; false; true; true; true; true; true; true] start = Some b ∧
  (th_in (br_0 b), th_out (br_0 b), th_in (br_1 b), th_out (br_1 b)) = (1, 0, 2, 1)%nat ∧
  ∃ who b', step who b = Some b' ∧ (br_0 b', br_1 b') <> (br_0 b, br_1 b).
Proof.
  eexists. split; [reflexivity|]. split; [reflexivity|].
  apply litmus_barrier_lockstep.
  by apply (run_runs step [false; false; true; true; true; true; true; true] start start); [apply runs_start|].
Defined.
